(* ===== verification/_CoqProject ===== *)
-Q . S2P
Prelude.v
JsString.v
JsArray.v
JsNumber.v
JsRegex.v
JsJson.v
JsonRoundTrip.v
AdvancedCustom.v
AdvancedCustomLaws.v
ParamOverride.v
ParamOverrideLaws.v
ParamOverrideRoundTrip.v
UpstreamSync.v
UpstreamSyncLaws.v
StatusCodes.v
ChannelForm.v
ChannelFormLaws.v
ChannelFields.v
ChannelFieldsLaws.v
ChannelList.v
ChannelListLaws.v
RequestRules.v
RequestRoundTrip.v
ModelPricing.v
ModelPricingLaws.v
BillingTiers.v
TierExpr.v
TaskExpr.v
DashboardFlow.v
DashboardFlowLaws.v
Messages.v
MessageLaws.v
PlaygroundRequest.v
PlaygroundStorage.v
StorageLaws.v
StreamController.v
ChatSession.v
SessionLaws.v
AuthSession.v
AuthLaws.v
AuthTabs.v
AuthEntry.v
HttpClient.v
ImageParams.v
ImageParamsLaws.v
ImageGeneration.v
ImageGenerationLaws.v
ImageStudio.v
ImageStudioLaws.v
TableState.v
TableStateLaws.v
