(* ===== verification/Prelude.v ===== *)
(** * AI Gateway web console: a verified model of its client-side logic

    The repository is an AI gateway: a Go server with a web console in
    TypeScript ([src/web/src/]).  The console edits what the server enforces
    (status-code rules, billing expressions, routes, prices), talks to models in a playground,
    and keeps the session of the user.  This development models the logic of
    the console that decides something, as executable functions, and proves the
    theorems that make it correct.  React components, styling, routes,
    translations and the thin wrappers of API endpoints are not modelled (see
    the end).

    ** The parts and where they are modelled

    The language:
    - This file: strings as code units, [res] for code that may throw, the
      automation and the hint databases of the other files.
    - [JsString], [JsArray], [JsNumber], [JsRegex], [JsJson]: the parts of
      ECMAScript that the console uses.  Strings are lists of 16-bit code units,
      numbers are binary64 values, regular expressions backtrack as the standard
      prescribes, objects keep the order of their properties.
    - [JsonRoundTrip]: [JSON.parse] after [JSON.stringify].

    Settings of the gateway:
    - [StatusCodes]: [lib/http-status-code-rules.ts] ([Rules]) and
      [features/channels/lib/status-code-risk-guard.ts] ([RiskGuard]).
    - [RequestRules], [RequestRoundTrip]: the request rules of
      [features/pricing/lib/billing-expr.ts], their printer and parser.
    - [BillingTiers]: the tiers of [billing-expr.ts] and
      [features/pricing/lib/breakdown-tier-match.ts].
    - [TierExpr]: [features/pricing/lib/tier-expr.ts].
    - [TaskExpr]: [features/pricing/lib/task-expr.ts].
    - [AdvancedCustom], [AdvancedCustomLaws]:
      [features/channels/lib/advanced-custom.ts], the routes of a channel that
      forwards by path and model.
    - [ParamOverride], [ParamOverrideLaws], [ParamOverrideRoundTrip]:
      [features/channels/components/dialogs/param-override-editor-dialog.tsx],
      the editor of the rules that a channel applies to requests.
    - [ChannelForm], [ChannelFormLaws]: the form of a channel,
      [features/channels/lib/channel-form.ts], [lib/model-mapping-validation.ts],
      [hooks/use-channel-mutate-form.ts] and the save of
      [components/drawers/channel-mutate-drawer.tsx].
    - [ChannelFields], [ChannelFieldsLaws]: what is edited in place,
      [components/model-mapping-editor.tsx] ([MappingEditor]) and
      [components/numeric-spinner-input.tsx] over [lib/channel-field-update.ts]
      ([FieldCell]).
    - [ChannelList], [ChannelListLaws]: the list of channels and its dialogs,
      [lib/channel-utils.ts] ([Tags], [Keys]), [lib/model-categories.ts]
      ([Categories]), [hooks/use-channel-upstream-updates.ts] with its dialog
      ([Upstream]), [components/dialogs/fetch-models-dialog.tsx] ([FetchModels]).
    - [UpstreamSync], [UpstreamSyncLaws]: the synchronization of prices with
      upstream channels, [features/system-settings/models/]
      ([upstream-ratio-sync-helpers.ts], [upstream-ratio-sync-table.tsx],
      [upstream-ratio-sync.tsx]).
    - [ModelPricing], [ModelPricingLaws]: the prices of models, in the same
      directory ([pricing-format.ts], [model-pricing-core.ts],
      [model-pricing-maps.ts], [model-pricing-snapshots.ts], the rows of
      [model-ratio-visual-editor.tsx], the panel [model-pricing-sheet.tsx]).

    The dashboard ([features/dashboard/]):
    - [DashboardFlow], [DashboardFlowLaws]: [lib/flow.ts] and
      [lib/flow-selection.ts], the diagram of how usage flows from users to
      channels.

    The playground ([features/playground/]), from the data up:
    - [Messages], [MessageLaws]: [lib/message/], what a message is and how it is
      streamed, edited, repaired and shown.
    - [PlaygroundRequest]: the payload of a request, the decoding of its response
      stream, the parameters and options ([lib/streaming/], [lib/parameters/],
      [lib/options/], [lib/input/]).
    - [PlaygroundStorage], [StorageLaws]: [lib/storage/], [lib/state/].
    - [StreamController]: [hooks/use-stream-request.ts], the connection on which
      a response is streamed.
    - [ChatSession], [SessionLaws]: [hooks/use-chat-handler.ts] and
      [hooks/use-playground-conversation.ts], which drive the controller and the
      messages.

    The image studio ([features/image-studio/]):
    - [ImageParams], [ImageParamsLaws]: [lib/model-params/], the families of models
      with their parameters, and [hooks/use-image-studio-state.ts], what is chosen.
    - [ImageGeneration], [ImageGenerationLaws]: [hooks/use-image-studio.ts], the
      requests and writes of a generation and the retries, with the history of
      [hooks/use-generation-history.ts] and [lib/storage.ts].
    - [ImageStudio], [ImageStudioLaws]: the page [index.tsx] over them, and what its
      panels show.

    Tables ([hooks/], [components/data-table/]):
    - [TableState], [TableStateLaws]: [use-table-url-state.ts],
      [use-debounced-column-filter.ts] over [use-debounce.ts], the search of
      [toolbar.tsx] and the stored columns of [use-data-table.ts], with what the
      tables of channels and of keys give to them.

    The session of the user ([lib/], [stores/]):
    - [AuthSession], [AuthLaws]: [stores/auth-store.ts], [lib/auth-session.ts],
      [lib/session-hint.ts], the listener of [routes/__root.tsx].
    - [AuthTabs]: [lib/auth-session-sync.ts] and several tabs that share a
      channel and a lock.
    - [AuthEntry]: [features/auth/lib/auth-redirect.ts] and the sign-out request
      of [features/auth/api.ts].
    - [HttpClient]: [lib/http-client.ts] on top of the session.

    ** How code is modelled

    Pure functions are Rocq functions with the names of the source.  A function
    that may throw returns [res] (or a sum with the message).  Stateful code is
    explicit state passing: the variables of a closure, the refs of a hook, or
    the variables of a module are the fields of a record, and every operation
    is a function on it.  An asynchronous function is cut at its waits: each
    part is an operation, and a later part runs as an event of its own, so that
    theorems about sequences of events speak about every interleaving.  What an
    operation does to the outside (calls, requests, timers, messages) is its
    output.

    Code outside the repository is an argument of the definitions that use it:
    the translation function, [new URL], [localeCompare], the tables of
    [toUpperCase] and [toLowerCase], the number format and the color schemes of
    charts, whether the browser accepts a write to its storage, the function
    compiled from an expression.  A schema of zod is the function that checks a
    value against it.  Readings of the clock and random identifiers
    are arguments too.  Where a theorem needs something of them, that is a named
    hypothesis of the theorem.

    ** What the theorems show

    - Status codes: merging ranges keeps the set of codes and is canonical, the
      normalized text is read back as the same ranges, and the redirects that
      are reported are exactly the new risky ones.
    - Billing: printing request rules and reading them back is the identity on
      the rules the parser supports; a combined expression is split into its
      parts; every parsed task tier is well typed; the chain of tiers that is
      generated from a price matrix prices like the matrix; the parser loop
      terminates.
    - Channels and prices: a configuration of routes is accepted exactly when it
      is meaningful, is read back from its text, and is edited part by part;
      choices of upstream prices never mix the ways to bill a model, batches are
      the single choices in sequence, a sync writes exactly the choices and asks
      before it changes how a model is billed; what is saved for a model is what
      the table shows, and the ratios saved are those of the prices shown.
    - Channels: a channel that was saved from a form in the shape in which it comes
      back is opened and saved without a change as it was, settings that the form does
      not know included; what is handed on to be
      saved has passed every guard; the text of a mapping means its rows or is
      refused; rows of tags sum up exactly their channels; updates of a field are
      debounced and within limits; a request about upstream models decides about
      each model that was offered.
    - Rules of requests: the text that the editor of parameter overrides saves
      survives the switch between its two forms and a new session of the editor;
      every saved rule is complete; in every state there is a selected rule, and
      a drop moves one rule.
    - Dashboard: nodes and links of the flow diagram hold the sums over the rows
      that pass them, flow is conserved at every node and in every column,
      columns respect their limit, filters keep the rows that they describe, and
      masked labels hide names.
    - Messages and storage: reasoning tags are cut as specified; what is saved is
      loaded; what is loaded is bounded in number and size; the trim by size
      keeps the longest end that fits; the actions on a conversation send exactly
      the messages before the answer.
    - Streaming: callbacks follow the protocol of a request, at most one source
      is open, a cancelled request is silent, an undisturbed stream is delivered
      in full; stopping is final; buffered text is always about to be flushed and
      buffering does not change the text.
    - Images: a generation shows its outstanding requests and, unless it is stopped,
      ends with exactly its record in the history, under every order of answers; it
      ends, writes its
      images one after another and stores itself once; retries that start together
      each settle their own error and repeat the request; the chosen parameters
      always belong to the model, so that a request can be built; a generation that
      starts while nothing is retried can be stopped at any time.
    - Tables: the filters and the page survive the way through the URL, a page out
      of range is corrected once; a text filter applies what was typed with one
      navigation, and in every run the text is applied or about to be; the search
      commits what was typed and a reset clears it; stored widths are bounded.
    - Session: credentials are complete or absent; a refresh that was superseded
      has no effect; refreshes end, within eight requests of which one at a time
      is outstanding; passing failures keep the session; after a sign-out every tab
      that had the session is rid of it or has yet to receive the event, and no late
      answer brings it back; at most one tab refreshes; messages between tabs die
      out.
    - HTTP: a call is sent at most twice, with the refreshed token; GET requests
      in flight are shared, and never between sessions.
    - Where the code does something else than it means to, a theorem shows what
      it does (rules that are printed but not read back, a repeated chunk that is
      lost, text lost at a stop, a refused lock, a booting tab that misses a
      sign-out, a ratio that is converted without having been typed, a quoted
      value that comes back as a number, edits of prune rules that are lost, a
      selection that is kept from one channel to the next, a first row of a mapping
      that vanishes, a redirect that begins with two slashes, a step that is sent
      although it was taken back, retries that
      are counted for another error or lost, a generation that cannot be stopped, a
      text filter that undoes a reset and the Back button).

    ** Fuel

    Recursion that is not structural runs on fuel that is a bound of the data:
    the length of the text for scanners and the loop over a chain of tiers
    ([task_loop_terminates] shows that it is enough), twice the length for
    [JSON.parse] ([json_roundtrip]), the length of the text for the loop over
    reasoning tags ([think_tags_split] holds for every text), the number of
    digits that binary64 can need for printing numbers; the effects of a text
    filter and of the search run in four and two commits ([settle_rests],
    [search_rests]).  State machines have no
    fuel: their runs are sequences of events, and [refresh_ends],
    [generation_ends] and [task_loop_terminates] are the theorems that they come to
    an end.

    ** Not modelled

    React components and hooks that only wire them, routes other than the
    listener named above, styling, translations, the wrappers of API endpoints
    ([api.ts] files), the other charts and exports, the forms of users, keys and settings,
    the actions on channels, and the other languages of the repository (the Go server, the
    desktop shell).  Of modelled files the style strings
    ([message-styles.ts]) and the queries and toasts of
    [use-playground-options.ts] are left out.
*)

From Stdlib Require Export Ascii.
From stdpp Require Export base list strings gmap.
From Stdlib Require Import ZArith NArith Lia.

(** ** Strings

    An ECMAScript string is a sequence of 16-bit code units; here it is a list
    of [N].  Literals are written as UTF-8 Rocq strings and decoded to UTF-16
    by the coercion [js], so that the literals of the source (which contain
    characters such as the full-width comma) read the same here. *)

Abbreviation str := (list N).

Declare Scope js_scope.
Delimit Scope js_scope with js.

Fixpoint utf16_of_utf8 (l : list N) : str :=
  match l with
  | [] => []
  | a :: l1 =>
      if (a <? 128)%N then a :: utf16_of_utf8 l1
      else match l1 with
      | [] => []
      | b :: l2 =>
          if (a <? 224)%N then
            ((a - 192) * 64 + (b - 128))%N :: utf16_of_utf8 l2
          else match l2 with
          | [] => []
          | c :: l3 =>
              if (a <? 240)%N then
                ((a - 224) * 4096 + (b - 128) * 64 + (c - 128))%N
                  :: utf16_of_utf8 l3
              else match l3 with
              | [] => []
              | d :: l4 =>
                  let p := ((a - 240) * 262144 + (b - 128) * 4096
                            + (c - 128) * 64 + (d - 128) - 65536)%N in
                  (55296 + p / 1024)%N :: (56320 + p mod 1024)%N
                    :: utf16_of_utf8 l4
              end
          end
      end
  end.

(** The literal [s] as a sequence of UTF-16 code units. *)
Definition js (s : string) : str :=
  utf16_of_utf8 (map Ascii.N_of_ascii (String.list_ascii_of_string s)).

Coercion js : string >-> list.

(** The code unit of an ASCII character literal, written ["("%char]. *)
Definition chr (a : Ascii.ascii) : N := Ascii.N_of_ascii a.

Coercion chr : Ascii.ascii >-> N.

(** Literals stay folded in goals; they reduce by [vm_compute] and [reflexivity]. *)
Arguments js : simpl never.
Arguments chr : simpl never.

(** The double quote, and literals in which a single quote stands for it. *)
Definition dq : N := 34.

Definition jq (s : string) : str :=
  map (fun c => if (c =? 39)%N then dq else c) (js s).

Fixpoint str_eqb (a b : str) : bool :=
  match a, b with
  | [], [] => true
  | x :: a', y :: b' => (x =? y)%N && str_eqb a' b'
  | _, _ => false
  end.

(** [a === b] on strings. *)
Infix "=?s" := str_eqb (at level 70, no associativity) : js_scope.

Open Scope js_scope.

Lemma str_eqb_eq (a b : str) : (a =?s b) = true <-> a = b.
Proof.
  revert b; induction a as [|x a IH]; intros [|y b]; simpl; split; try done.
  - rewrite andb_true_iff, N.eqb_eq, IH. by intros [-> ->].
  - intros [= -> ->]. by rewrite N.eqb_refl, (proj2 (IH b)).
Qed.

Lemma str_eqb_refl (a : str) : (a =?s a) = true.
Proof. by apply str_eqb_eq. Qed.

Lemma str_eqb_neq (a b : str) : (a =?s b) = false <-> a <> b.
Proof. rewrite <- str_eqb_eq. destruct (a =?s b); split; congruence. Qed.

Lemma str_eqb_sym (a b : str) : (a =?s b) = (b =?s a).
Proof.
  destruct (b =?s a) eqn:E.
  - apply str_eqb_eq in E as ->. apply str_eqb_refl.
  - apply str_eqb_neq in E. apply str_eqb_neq. congruence.
Qed.

Lemma str_eqb_spec (a b : str) : reflect (a = b) (a =?s b).
Proof.
  destruct (a =?s b) eqn:E; constructor.
  - by apply str_eqb_eq.
  - by apply str_eqb_neq.
Qed.

(** JavaScript truthiness of a string: only the empty string is falsy. *)
Definition truthy_str (s : str) : bool :=
  match s with [] => false | _ => true end.

(** [a || b] on strings. *)
Definition str_or (a b : str) : str := if truthy_str a then a else b.

(** [a ?? b] on an optional value. *)
Definition nullish {A} (a : option A) (b : A) : A :=
  match a with Some x => x | None => b end.

(** [a || b] on an optional string: [undefined], [null] and [''] fall through. *)
Definition ostr_or (a : option str) (b : str) : str :=
  match a with Some s => str_or s b | None => b end.

(** [a?.field]. *)
Definition ofield {A B} (f : A -> option B) (a : option A) : option B :=
  match a with Some x => f x | None => None end.

(** JavaScript truthiness of an optional Boolean. *)
Definition truthy_ob (b : option bool) : bool :=
  match b with Some true => true | _ => false end.

Lemma truthy_str_true (s : str) : truthy_str s = true <-> s <> [].
Proof. by destruct s. Qed.

Lemma truthy_str_false (s : str) : truthy_str s = false <-> s = [].
Proof. by destruct s. Qed.

Lemma str_or_nonempty (a b : str) : b <> [] -> str_or a b <> [].
Proof. by destruct a. Qed.

(** ** Exceptions

    A computation that may throw: the console never inspects the exceptions of
    the parsers modelled here, so they carry no value. *)

Inductive res (A : Type) : Type :=
  | Ok (a : A)
  | Throw.
Arguments Ok {A} a.
Arguments Throw {A}.

Definition res_bind {A B} (m : res A) (k : A -> res B) : res B :=
  match m with Ok a => k a | Throw => Throw end.

Notation "'let!' x ':=' m 'in' k" := (res_bind m (fun x => k))
  (at level 200, x pattern, m at level 100, k at level 200,
   right associativity) : js_scope.

(** [try { return m } catch { return d }]. *)
Definition res_catch {A} (m : res A) (d : A) : A :=
  match m with Ok a => a | Throw => d end.

(** [for (const x of l) out.push(f(x))], where [f] may throw. *)
Fixpoint res_map {A B} (f : A -> res B) (l : list A) : res (list B) :=
  match l with
  | [] => Ok []
  | x :: l' => let! y := f x in let! ys := res_map f l' in Ok (y :: ys)
  end.

(** ** Automation

    [js_simp] rewrites Boolean string tests that occur as hypotheses into
    propositions; [js_cases] splits on the Boolean conditions of the goal. *)

Create HintDb js.
Create Rewrite HintDb js_rw.

#[export] Hint Rewrite str_eqb_refl @app_nil_r : js_rw.
#[export] Hint Resolve str_eqb_refl : js.

Ltac js_simp :=
  repeat match goal with
  | H : (_ =?s _) = true |- _ => apply str_eqb_eq in H
  | H : (_ =?s _) = false |- _ => apply str_eqb_neq in H
  | H : _ && _ = true |- _ => apply andb_true_iff in H; destruct H
  | H : _ || _ = false |- _ => apply orb_false_iff in H; destruct H
  | H : negb _ = true |- _ => apply negb_true_iff in H
  | H : negb _ = false |- _ => apply negb_false_iff in H
  | H : (_ =? _)%N = true |- _ => apply N.eqb_eq in H
  | H : (_ =? _)%N = false |- _ => apply N.eqb_neq in H
  | H : truthy_str _ = true |- _ => apply truthy_str_true in H
  | H : truthy_str _ = false |- _ => apply truthy_str_false in H
  end.

(** Split on the first Boolean test of the goal, keeping its equation. *)
Ltac js_case :=
  match goal with
  | |- context [if ?b then _ else _] =>
      lazymatch b with
      | context [if _ then _ else _] => fail
      | _ => let E := fresh "E" in destruct b eqn:E
      end
  end.

Ltac js_cases := repeat (js_case; try done).
