(* ===== verification/JsString.v ===== *)
(** * The string operations of ECMAScript that the console uses

    [String.prototype] methods over sequences of code units: [slice], [at],
    [trim], [startsWith], [endsWith], [includes], [indexOf], [split],
    [replaceAll] of a class, and [Array.prototype.join].  Indices that may be
    negative or out of range are integers and are clamped as the standard
    prescribes. *)

From stdpp Require Import base list strings.
From Stdlib Require Import ZArith NArith Lia.
From S2P Require Import Prelude.

Local Open Scope Z_scope.

(** ** Length, slices and access by index *)

Definition strlen (s : str) : Z := Z.of_nat (length s).

(** A relative index of [slice]: negative values count from the end, and the
    result is clamped to [0, len]. *)
Definition clamp_index (len i : Z) : Z :=
  if i <? 0 then Z.max 0 (len + i) else Z.min i len.

(** [s.slice(i, j)], also on arrays. *)
Definition slice {A} (s : list A) (i j : Z) : list A :=
  let len := Z.of_nat (length s) in
  let a := Z.to_nat (clamp_index len i) in
  let b := Z.to_nat (clamp_index len j) in
  take (b - a) (drop a s).

(** [s.slice(i)]. *)
Definition slice_from {A} (s : list A) (i : Z) : list A :=
  drop (Z.to_nat (clamp_index (Z.of_nat (length s)) i)) s.

(** [s[i]], [None] for [undefined]. *)
Definition index {A} (s : list A) (i : Z) : option A :=
  if i <? 0 then None else s !! Z.to_nat i.

(** [s.at(i)]. *)
Definition at_ {A} (s : list A) (i : Z) : option A :=
  index s (if i <? 0 then Z.of_nat (length s) + i else i).

(** ** White space and trimming *)

(** The code units of [WhiteSpace] and [LineTerminator], which [\s] and [trim]
    share. *)
Definition is_ws (c : N) : bool :=
  ((9 <=? c) && (c <=? 13) || (c =? 32) || (c =? 160) || (c =? 5760)
   || (8192 <=? c) && (c <=? 8202) || (c =? 8232) || (c =? 8233)
   || (c =? 8239) || (c =? 8287) || (c =? 12288) || (c =? 65279))%N.

Fixpoint drop_while {A} (p : A -> bool) (l : list A) : list A :=
  match l with
  | [] => []
  | x :: l' => if p x then drop_while p l' else l
  end.

Definition trimStart (s : str) : str := drop_while is_ws s.
Definition trimEnd (s : str) : str := rev (drop_while is_ws (rev s)).
Definition trim (s : str) : str := trimEnd (trimStart s).

(** ** Searching *)

Fixpoint startsWith (s p : str) : bool :=
  match p, s with
  | [], _ => true
  | x :: p', y :: s' => (x =? y)%N && startsWith s' p'
  | _ :: _, [] => false
  end.

Definition endsWith (s p : str) : bool := startsWith (rev s) (rev p).

(** The offset of the first occurrence of [p] in [s]. *)
Fixpoint find_at (s p : str) : option nat :=
  if startsWith s p then Some O
  else match s with
       | [] => None
       | _ :: s' => option_map S (find_at s' p)
       end.

(** [s.indexOf(p, from)], [-1] when there is no occurrence.  [from] is
    clamped to [0, len]. *)
Definition indexOf (s p : str) (from : Z) : Z :=
  let k := Z.to_nat (Z.min (Z.max 0 from) (strlen s)) in
  match find_at (drop k s) p with
  | Some i => Z.of_nat (k + i)
  | None => -1
  end.

Definition includes (s p : str) : bool :=
  match find_at s p with Some _ => true | None => false end.

(** ** Splitting and joining *)

(** ** Case

    The Unicode case tables are those of the runtime; on ASCII texts they are
    known. *)

Definition is_ascii (c : N) : bool := (c <? 128)%N.

Definition ascii_upper (c : N) : N := if ((97 <=? c) && (c <=? 122))%N then (c - 32)%N else c.
Definition ascii_lower (c : N) : N := if ((65 <=? c) && (c <=? 90))%N then (c + 32)%N else c.

Class CaseMapping : Type := {
  toUpperCase : str -> str;
  toLowerCase : str -> str;
  toUpperCase_ascii s : forallb is_ascii s = true -> toUpperCase s = map ascii_upper s;
  toLowerCase_ascii s : forallb is_ascii s = true -> toLowerCase s = map ascii_lower s;
}.

(** A runtime that maps the ASCII letters only. *)
Definition AsciiCase : CaseMapping := {|
  toUpperCase := map ascii_upper;
  toLowerCase := map ascii_lower;
  toUpperCase_ascii s _ := eq_refl;
  toLowerCase_ascii s _ := eq_refl;
|}.

(** [s.split(sep)] for a separator of one code unit. *)
Fixpoint split_char (sep : N) (s : str) : list str :=
  match s with
  | [] => [[]]
  | c :: s' =>
      if (c =? sep)%N then [] :: split_char sep s'
      else match split_char sep s' with
           | w :: ws => (c :: w) :: ws
           | [] => [[c]]
           end
  end.

(** [parts.join(sep)]. *)
Fixpoint str_join (sep : str) (parts : list str) : str :=
  match parts with
  | [] => []
  | [p] => p
  | p :: ps => p ++ sep ++ str_join sep ps
  end.

(** [s.replaceAll(/[class]/g, w)] for a class of single code units. *)
Definition replace_class (p : N -> bool) (w s : str) : str :=
  flat_map (fun c => if p c then w else [c]) s.

(** [[...new Set(l)]]: the first occurrence of each string, in order. *)
Fixpoint mem_str (x : str) (l : list str) : bool :=
  match l with
  | [] => false
  | y :: l' => (x =?s y) || mem_str x l'
  end.

Fixpoint dedupe_from (seen l : list str) : list str :=
  match l with
  | [] => []
  | x :: l' =>
      if mem_str x seen then dedupe_from seen l'
      else x :: dedupe_from (seen ++ [x]) l'
  end.

Definition dedupe (l : list str) : list str := dedupe_from [] l.

(** [l.filter(Boolean)] on strings. *)
Definition filter_truthy (l : list str) : list str :=
  List.filter truthy_str l.

(** ** Digits *)

Definition is_digit (c : N) : bool := ((48 <=? c) && (c <=? 57))%N.

Definition digit_value (c : N) : Z := Z.of_N c - 48.

(** The value of a string of decimal digits, read from the left. *)
Definition digits_value (s : str) : Z :=
  fold_left (fun acc c => acc * 10 + digit_value c) s 0.

(** The decimal digits of a non-negative integer; [fuel] bounds their number
    and is chosen by [string_of_nonneg]. *)
Fixpoint digits_of (fuel : nat) (n : Z) : str :=
  match fuel with
  | O => []
  | S k =>
      if n <? 10 then [Z.to_N (48 + n)]
      else digits_of k (n / 10) ++ [Z.to_N (48 + n mod 10)]
  end.

Definition string_of_nonneg (n : Z) : str :=
  digits_of (S (Z.to_nat (Z.log2 n))) n.

(** [`${n}`] for an integer of magnitude below 10^21. *)
Definition string_of_Z (n : Z) : str :=
  if n <? 0 then [chr "-"%char] ++ string_of_nonneg (- n)
  else string_of_nonneg n.

(** ** Lemmas *)

Lemma drop_while_id {A} (p : A -> bool) (l : list A) :
  (forall x, head l = Some x -> p x = false) -> drop_while p l = l.
Proof. destruct l as [|x l]; simpl; [done|]. intros H. by rewrite H. Qed.

Lemma drop_while_idem {A} (p : A -> bool) (l : list A) :
  drop_while p (drop_while p l) = drop_while p l.
Proof.
  induction l as [|x l IH]; simpl; [done|]. destruct (p x) eqn:E; [done|].
  simpl. by rewrite E.
Qed.

Lemma drop_while_head {A} (p : A -> bool) (l : list A) (x : A) :
  head (drop_while p l) = Some x -> p x = false.
Proof.
  induction l as [|y l IH]; simpl; [done|]. destruct (p y) eqn:E; [done|].
  simpl. by intros [= <-].
Qed.

Lemma drop_while_suffix {A} (p : A -> bool) (l : list A) :
  exists k, l = k ++ drop_while p l /\ forallb p k = true.
Proof.
  induction l as [|x l (k & Hk & Hp)]; simpl; [by exists []|].
  destruct (p x) eqn:E; [|by exists []].
  exists (x :: k). simpl. rewrite E. by rewrite <- Hk.
Qed.

Lemma head_rev_last {A} (l : list A) : head (rev l) = last l.
Proof.
  destruct l as [|x l] using rev_ind; [done|].
  by rewrite rev_app_distr, last_snoc.
Qed.

(** A string with no white space at either end is its own trimming. *)
Definition trimmed (s : str) : Prop :=
  (forall c, head s = Some c -> is_ws c = false) /\
  (forall c, last s = Some c -> is_ws c = false).

Lemma trim_id (s : str) : trimmed s -> trim s = s.
Proof.
  intros [Hh Hl]. unfold trim, trimEnd, trimStart.
  rewrite (drop_while_id _ s) by done.
  rewrite drop_while_id, rev_involutive; [done|].
  intros c. rewrite head_rev_last. apply Hl.
Qed.

Lemma trimmed_nows (s : str) :
  forallb (fun c => negb (is_ws c)) s = true -> trimmed s.
Proof.
  rewrite forallb_forall. intros H. split; intros c Hc;
    apply negb_true_iff, H.
  - apply list_elem_of_In, head_Some_elem_of. done.
  - apply list_elem_of_In. by apply last_Some_elem_of.
Qed.

Lemma trimmed_trim (s : str) : trimmed (trim s).
Proof.
  unfold trim, trimEnd, trimStart. split; intros c Hc.
  - destruct (drop_while_suffix is_ws (rev (drop_while is_ws s)))
      as (k & Hk & _).
    apply (f_equal (@rev N)) in Hk. rewrite rev_involutive, rev_app_distr in Hk.
    apply (drop_while_head is_ws s). rewrite Hk.
    destruct (rev (drop_while is_ws (rev (drop_while is_ws s)))); [done|].
    exact Hc.
  - rewrite <- head_rev_last, rev_involutive in Hc.
    by apply drop_while_head in Hc.
Qed.

Lemma trim_idem (s : str) : trim (trim s) = trim s.
Proof. apply trim_id, trimmed_trim. Qed.

Lemma trimmed_app (a b : str) :
  a <> [] -> b <> [] -> trimmed a -> trimmed b -> trimmed (a ++ b).
Proof.
  intros Ha Hb [Hh _] [_ Hl]. split; intros c.
  - destruct a; [done|]. apply Hh.
  - destruct b as [|y b] using rev_ind; [done|].
    rewrite app_assoc, last_snoc. intros E. apply Hl. by rewrite last_snoc.
Qed.

(** Only the outer ends of the outer pieces matter. *)
Lemma trimmed_ends (a m z : str) :
  a <> [] -> z <> [] -> trimmed a -> trimmed z -> trimmed (a ++ m ++ z).
Proof.
  intros Ha Hz [Hh _] [_ Hl]. split; intros c.
  - destruct a; [done|]. apply Hh.
  - destruct z as [|y z] using rev_ind; [done|].
    rewrite !app_assoc, last_snoc. intros E. apply Hl. by rewrite last_snoc.
Qed.

Lemma replace_class_id (p : N -> bool) (w s : str) :
  forallb (fun c => negb (p c)) s = true -> replace_class p w s = s.
Proof.
  unfold replace_class. induction s as [|c s IH]; simpl; [done|].
  rewrite andb_true_iff, negb_true_iff. intros [-> H]. simpl. by rewrite IH.
Qed.

Lemma replace_class_remove (p : N -> bool) (s : str) :
  forallb (fun c => negb (p c)) (replace_class p [] s) = true.
Proof.
  unfold replace_class. induction s as [|c s IH]; simpl; [done|].
  rewrite forallb_app, IH. destruct (p c) eqn:E; simpl; [done|]. by rewrite E.
Qed.

Lemma split_char_nonnil (sep : N) (s : str) : split_char sep s <> [].
Proof.
  destruct s as [|c s]; simpl; [done|]. destruct (c =? sep)%N; [done|].
  by destruct (split_char sep s).
Qed.

(** [c] does not occur in [s]. *)
Definition avoids (c : N) (s : str) : bool :=
  forallb (fun x => negb (x =? c)%N) s.

Lemma split_char_cons (sep : N) (p s : str) :
  avoids sep p = true ->
  split_char sep (p ++ sep :: s) = p :: split_char sep s.
Proof.
  unfold avoids. induction p as [|c p IH]; simpl; [by rewrite N.eqb_refl|].
  rewrite andb_true_iff, negb_true_iff. intros [-> Hp]. by rewrite IH.
Qed.

Lemma split_char_nosep (sep : N) (s : str) :
  avoids sep s = true -> split_char sep s = [s].
Proof.
  unfold avoids. induction s as [|c s IH]; simpl; [done|].
  rewrite andb_true_iff, negb_true_iff. intros [-> Hp]. by rewrite IH.
Qed.

(** Splitting undoes joining when no part contains the separator. *)
Lemma split_char_join (sep : N) (ps : list str) :
  ps <> [] -> Forall (fun p => avoids sep p = true) ps ->
  split_char sep (str_join [sep] ps) = ps.
Proof.
  intros Hne H. induction H as [|p ps Hp Hps IH]; [done|].
  destruct ps as [|q ps]; simpl; [by apply split_char_nosep|].
  rewrite split_char_cons by done. f_equal. by apply IH.
Qed.

Lemma join_cons (sep p : str) (ps : list str) :
  ps <> [] -> str_join sep (p :: ps) = p ++ sep ++ str_join sep ps.
Proof. by destruct ps. Qed.

(** *** Decimal digits *)

Lemma digits_value_snoc (s : str) (c : N) :
  digits_value (s ++ [c]) = digits_value s * 10 + digit_value c.
Proof. unfold digits_value. by rewrite fold_left_app. Qed.

Lemma digit_value_of (d : Z) :
  0 <= d < 10 -> digit_value (Z.to_N (48 + d)) = d.
Proof. unfold digit_value. intros. rewrite Z2N.id; lia. Qed.

Lemma is_digit_of (d : Z) : 0 <= d < 10 -> is_digit (Z.to_N (48 + d)) = true.
Proof. unfold is_digit. intros. apply andb_true_iff. rewrite !N.leb_le. lia. Qed.

Lemma digits_of_spec (fuel : nat) (n : Z) :
  0 <= n < 10 ^ Z.of_nat fuel -> (0 < fuel)%nat ->
  digits_value (digits_of fuel n) = n /\ digits_of fuel n <> [] /\ 
  forallb is_digit (digits_of fuel n) = true.
Proof.
  revert n; induction fuel as [|k IH]; intros n Hn Hk; [lia|]. cbn [digits_of].
  destruct (Z.ltb_spec n 10).
  - cbn [forallb]. rewrite is_digit_of by lia. split_and!; [|done..].
    unfold digits_value; cbn [fold_left]. rewrite digit_value_of; lia.
  - rewrite Nat2Z.inj_succ, Z.pow_succ_r in Hn by lia.
    assert (0 < n / 10) by (apply Z.div_str_pos; lia).
    destruct (IH (n / 10)) as (Hv & Hne & Hd).
    { split; [lia|]. apply Z.div_lt_upper_bound; lia. }
    { destruct k; [|lia]. simpl in Hn. lia. }
    pose proof (Z.mod_pos_bound n 10 ltac:(lia)).
    rewrite digits_value_snoc, Hv, digit_value_of, forallb_app, Hd by lia.
    cbn [forallb]. rewrite is_digit_of by lia.
    split_and!; [|by destruct (digits_of k (n / 10))|done].
    pose proof (Z.div_mod n 10). lia.
Qed.

Lemma string_of_nonneg_spec (n : Z) :
  0 <= n ->
  digits_value (string_of_nonneg n) = n /\ string_of_nonneg n <> [] /\ 
  forallb is_digit (string_of_nonneg n) = true.
Proof.
  intros Hn. apply digits_of_spec; [|lia]. split; [done|].
  pose proof (Z.log2_nonneg n). rewrite Nat2Z.inj_succ, Z2Nat.id by done.
  apply Z.lt_le_trans with (2 ^ Z.succ (Z.log2 n)).
  - destruct (Z.eq_dec n 0) as [->|]; [done|]. apply Z.log2_spec. lia.
  - apply Z.pow_le_mono_l. lia.
Qed.

Lemma forallb_impl {A} (p q : A -> bool) (l : list A) :
  (forall x, p x = true -> q x = true) ->
  forallb p l = true -> forallb q l = true.
Proof. intros H. rewrite !forallb_forall. eauto. Qed.

Lemma digit_not_ws (c : N) : is_digit c = true -> negb (is_ws c) = true.
Proof.
  unfold is_digit, is_ws. rewrite andb_true_iff, !N.leb_le, negb_true_iff.
  intros [H1 H2].
  repeat match goal with |- _ || _ = false => apply orb_false_iff; split end;
    try (apply N.eqb_neq; lia); apply andb_false_iff;
    try (left; apply N.leb_gt; lia); right; apply N.leb_gt; lia.
Qed.

Lemma digit_neq (c d : N) :
  is_digit c = true -> is_digit d = false -> negb (c =? d)%N = true.
Proof.
  intros Hc Hd. apply negb_true_iff, N.eqb_neq. intros ->. congruence.
Qed.

Lemma digits_avoid (d : N) (s : str) :
  is_digit d = false -> forallb is_digit s = true -> avoids d s = true.
Proof.
  intros Hd. apply forallb_impl. intros x Hx. by apply digit_neq.
Qed.

Lemma includes_avoids (c : N) (s : str) :
  includes s [c] = negb (avoids c s).
Proof.
  unfold includes, avoids. induction s as [|x s IH]; simpl; [done|].
  rewrite (N.eqb_sym x c). destruct (c =? x)%N; simpl; [by destruct s|].
  rewrite <- IH. by destruct (find_at s [c]).
Qed.

Lemma avoids_app (c : N) (a b : str) :
  avoids c (a ++ b) = avoids c a && avoids c b.
Proof. apply forallb_app. Qed.

Lemma startsWith_In (s p : str) (c : N) :
  startsWith s p = true -> In c p -> In c s.
Proof.
  revert s; induction p as [|x p IH]; intros s H Hc; [done|].
  destruct s as [|y s]; [done|]. simpl in H, Hc |- *.
  apply andb_true_iff in H as [Hx H]. apply N.eqb_eq in Hx as ->.
  destruct Hc as [->|Hc]; [by left|right; by apply IH].
Qed.

Lemma includes_none (c : N) (s p : str) :
  avoids c s = true -> In c p -> includes s p = false.
Proof.
  intros Hs Hc. unfold includes.
  assert (Hn : find_at s p = None); [|by rewrite Hn].
  induction s as [|x s IH].
  - by destruct p.
  - cbn [find_at]. destruct (startsWith (x :: s) p) eqn:Hp.
    + eapply startsWith_In in Hp; [|exact Hc].
      unfold avoids in Hs. rewrite forallb_forall in Hs.
      apply Hs in Hp. by rewrite N.eqb_refl in Hp.
    + apply andb_true_iff in Hs as [_ Hs]. by rewrite IH.
Qed.

Lemma startsWith_app (w s : str) : startsWith (w ++ s) w = true.
Proof.
  induction w as [|x w IH]; simpl; [by destruct s|].
  by rewrite N.eqb_refl.
Qed.

Lemma startsWith_spec (s w : str) :
  startsWith s w = true <-> exists t, s = w ++ t.
Proof.
  split; [|intros [t ->]; apply startsWith_app].
  revert s; induction w as [|x w IH]; intros s H; [by exists s|].
  destruct s as [|y s]; [done|]. simpl in H.
  apply andb_true_iff in H as [Hx [t ->]%IH].
  apply N.eqb_eq in Hx as ->. by exists t.
Qed.

(** *** Searching and slicing in a concatenation *)

Lemma slice_app_mid {A} (a b c : list A) (i j : Z) :
  i = Z.of_nat (length a) -> j = i + Z.of_nat (length b) ->
  slice (a ++ b ++ c) i j = b.
Proof.
  intros -> ->. unfold slice, clamp_index. rewrite !length_app.
  destruct (Z.ltb_spec (Z.of_nat (length a)) 0); [lia|].
  destruct (Z.ltb_spec (Z.of_nat (length a) + Z.of_nat (length b)) 0); [lia|].
  rewrite !Z.min_l by lia. rewrite Nat2Z.id, drop_app_length.
  replace (_ - _)%nat with (length b) by lia. apply take_app_length.
Qed.

Lemma slice_from_app {A} (a b : list A) (i : Z) :
  i = Z.of_nat (length a) -> slice_from (a ++ b) i = b.
Proof.
  intros ->. unfold slice_from, clamp_index. rewrite length_app.
  destruct (Z.ltb_spec (Z.of_nat (length a)) 0); [lia|].
  rewrite Z.min_l by lia. by rewrite Nat2Z.id, drop_app_length.
Qed.

Lemma slice_0 {A} (l : list A) (j : nat) : slice l 0 (Z.of_nat j) = take j l.
Proof.
  unfold slice, clamp_index. destruct (Z.ltb_spec (Z.of_nat j) 0); [lia|].
  change (0 <? 0) with false. cbv iota. rewrite (Z.min_l 0) by lia.
  rewrite drop_0, Nat.sub_0_r.
  destruct (decide (j <= length l)%nat).
  - by rewrite Z.min_l, Nat2Z.id by lia.
  - rewrite Z.min_r, Nat2Z.id by lia. by rewrite !take_ge by lia.
Qed.

Lemma indexOf_app (a s p : str) (i : Z) :
  i = strlen a ->
  indexOf (a ++ s) p i =
  match find_at s p with Some k => strlen a + Z.of_nat k | None => -1 end.
Proof.
  intros ->. unfold indexOf, strlen. rewrite length_app.
  rewrite Z.max_r, Z.min_l, Nat2Z.id, drop_app_length by lia.
  destruct (find_at s p); [lia|done].
Qed.

Lemma find_at_Some (s p : str) (k : nat) :
  p <> [] -> find_at s p = Some k ->
  exists a b, s = a ++ p ++ b /\ length a = k /\ find_at a p = None.
Proof.
  intros Hp0. revert k; induction s as [|c s IH]; intros k; cbn [find_at].
  - by destruct p.
  - destruct (startsWith (c :: s) p) eqn:Hp.
    + intros [= <-]. apply startsWith_spec in Hp as [t Ht].
      exists [], t. split_and!; [done..|]. by destruct p.
    + destruct (find_at s p) as [j|] eqn:Hj; [|done]. intros [= <-].
      destruct (IH j eq_refl) as (a & b & -> & Ha & Hn).
      exists (c :: a), b. split_and!; [done|by simpl; rewrite Ha|].
      cbn [find_at]. rewrite Hn.
      destruct (startsWith (c :: a) p) eqn:Hq; [|done].
      apply startsWith_spec in Hq as [t Ht].
      assert (startsWith (c :: a ++ p ++ b) p = true); [|congruence].
      apply startsWith_spec. exists (t ++ p ++ b).
      rewrite app_comm_cons, Ht. by rewrite <- app_assoc.
Qed.

(** The first unit of [p] does not occur again in it, so an occurrence of [p]
    never overlaps the one that ends a text. *)
Lemma startsWith_overlap (x : N) (w a s : str) :
  avoids x w = true -> startsWith (a ++ x :: s) w = true -> startsWith a w = true.
Proof.
  revert a; induction w as [|y w IH]; intros a Hw H; [by destruct a|].
  simpl in Hw. apply andb_true_iff in Hw as [Hy Hw].
  destruct a as [|z a]; simpl in H |- *; apply andb_true_iff in H as [H1 H2].
  - rewrite H1 in Hy. done.
  - rewrite H1. by apply IH.
Qed.

Lemma find_at_first (x : N) (w a s : str) :
  avoids x w = true -> find_at a (x :: w) = None ->
  find_at (a ++ (x :: w) ++ s) (x :: w) = Some (length a).
Proof.
  intros Hw. induction a as [|c a IH]; intros Ha.
  - simpl. by rewrite N.eqb_refl, startsWith_app.
  - cbn [app find_at] in Ha |- *.
    destruct (startsWith (c :: a) (x :: w)) eqn:Hs; [done|].
    destruct (find_at a (x :: w)) eqn:Hf; [done|].
    destruct (startsWith (c :: a ++ x :: w ++ s) (x :: w)) eqn:Hb.
    + simpl in Hs, Hb. apply andb_true_iff in Hb as [Hx Hb]. rewrite Hx in Hs.
      apply startsWith_overlap in Hb; [|done]. by rewrite Hb in Hs.
    + by rewrite <- app_comm_cons in IH; rewrite IH.
Qed.

(** *** Sets of strings *)

Lemma mem_str_true (x : str) (l : list str) : mem_str x l = true <-> x ∈ l.
Proof.
  induction l as [|y l IH]; simpl.
  - split; [done|]. by intros ?%elem_of_nil.
  - rewrite orb_true_iff, str_eqb_eq, IH, elem_of_cons. done.
Qed.

Lemma mem_str_false (x : str) (l : list str) : mem_str x l = false <-> x ∉ l.
Proof. rewrite <- mem_str_true. destruct (mem_str x l); naive_solver. Qed.

Lemma elem_of_dedupe_from (x : str) (seen l : list str) :
  x ∈ dedupe_from seen l <-> x ∈ l /\ x ∉ seen.
Proof.
  revert seen; induction l as [|y l IH]; intros seen; simpl.
  { rewrite elem_of_nil. tauto. }
  destruct (mem_str y seen) eqn:E.
  - apply mem_str_true in E. rewrite IH, elem_of_cons. naive_solver.
  - apply mem_str_false in E.
    rewrite elem_of_cons, IH, elem_of_cons, elem_of_app, list_elem_of_singleton.
    destruct (decide (x = y)) as [->|]; naive_solver.
Qed.

Lemma elem_of_dedupe (x : str) (l : list str) : x ∈ dedupe l <-> x ∈ l.
Proof.
  unfold dedupe. rewrite elem_of_dedupe_from. split; [tauto|].
  intros H. split; [done|]. apply not_elem_of_nil.
Qed.

Lemma NoDup_dedupe_from (seen l : list str) : NoDup (dedupe_from seen l).
Proof.
  revert seen; induction l as [|y l IH]; intros seen; simpl; [constructor|].
  destruct (mem_str y seen); [done|]. constructor; [|done].
  rewrite elem_of_dedupe_from, elem_of_app, list_elem_of_singleton. tauto.
Qed.

Lemma NoDup_dedupe (l : list str) : NoDup (dedupe l).
Proof. apply NoDup_dedupe_from. Qed.
