(* ===== verification/JsArray.v ===== *)
(** * Arrays

    [Array.prototype] operations beyond the list library: the stable [sort]
    with a comparator, [findIndex] and [find].  A comparator is a function to
    the integers, as in the source; the result is specified for comparators
    that are consistent ([Comparator]): sorted, a permutation, and stable. *)

From stdpp Require Import base list.
From stdpp Require Export sorting.
From Stdlib Require Import ZArith Lia.
From S2P Require Import Prelude.

Local Open Scope Z_scope.

(** ** Sorting *)

Section sort.
Context {A : Type} (cmp : A -> A -> Z).

(** Insert [x], which precedes the elements of [l] in the input, before the
    first element that does not compare below it. *)
Fixpoint insert_by (x : A) (l : list A) : list A :=
  match l with
  | [] => [x]
  | y :: l' => if cmp x y <=? 0 then x :: l else y :: insert_by x l'
  end.

(** [l.sort(cmp)]. *)
Fixpoint sort_by (l : list A) : list A :=
  match l with
  | [] => []
  | x :: l' => insert_by x (sort_by l')
  end.

(** What the standard calls a consistent comparator. *)
Class Comparator : Prop := {
  cmp_total : forall x y, cmp x y <= 0 \/ cmp y x <= 0;
  cmp_trans : forall x y z, cmp x y <= 0 -> cmp y z <= 0 -> cmp x z <= 0;
}.

Lemma insert_by_perm (x : A) (l : list A) : insert_by x l ≡ₚ x :: l.
Proof.
  induction l as [|y l IH]; simpl; [done|].
  destruct (cmp x y <=? 0); [done|]. rewrite IH. apply Permutation_swap.
Qed.

Lemma sort_by_perm (l : list A) : sort_by l ≡ₚ l.
Proof.
  induction l as [|x l IH]; simpl; [done|]. by rewrite insert_by_perm, IH.
Qed.

Lemma sort_by_length (l : list A) : length (sort_by l) = length l.
Proof. apply Permutation_length, sort_by_perm. Qed.

Lemma elem_of_sort_by (x : A) (l : list A) : x ∈ sort_by l <-> x ∈ l.
Proof. by rewrite sort_by_perm. Qed.

Abbreviation cmp_le := (fun x y => cmp x y <= 0).

Lemma insert_by_hd (x y : A) (l : list A) :
  cmp y x <= 0 -> HdRel cmp_le y l -> HdRel cmp_le y (insert_by x l).
Proof.
  intros Hyx Hl. destruct l as [|z l]; simpl; [by constructor|].
  destruct (cmp x z <=? 0); constructor; [done|]. by inversion Hl.
Qed.

Lemma insert_by_sorted `{!Comparator} (x : A) (l : list A) :
  Sorted cmp_le l -> Sorted cmp_le (insert_by x l).
Proof.
  induction l as [|y l IH]; intros Hs; simpl; [by repeat constructor|].
  apply Sorted_inv in Hs as [Hs Hhd].
  destruct (Z.leb_spec (cmp x y) 0).
  - constructor; [by constructor|by constructor].
  - constructor; [by apply IH|]. apply insert_by_hd; [|done].
    destruct (cmp_total x y); [lia|done].
Qed.

Lemma sort_by_sorted `{!Comparator} (l : list A) :
  Sorted cmp_le (sort_by l).
Proof. induction l; simpl; [constructor|by apply insert_by_sorted]. Qed.

Lemma cmp_le_trans `{!Comparator} : Transitive cmp_le.
Proof. intros x y z. apply cmp_trans. Qed.

Lemma sort_by_strongly_sorted `{!Comparator} (l : list A) :
  StronglySorted cmp_le (sort_by l).
Proof.
  apply Sorted_StronglySorted; [apply cmp_le_trans|apply sort_by_sorted].
Qed.

(** A list that is already sorted is left as it is. *)
Lemma sort_by_id (l : list A) : Sorted cmp_le l -> sort_by l = l.
Proof.
  induction 1 as [|x l Hs IH Hhd]; simpl; [done|]. rewrite IH.
  destruct l as [|y l]; simpl; [done|]. inversion Hhd; subst.
  by rewrite (proj2 (Z.leb_le _ _)).
Qed.
End sort.

Arguments Comparator {A} cmp.

(** ** Searching *)

(** [l.findIndex(p)], [None] for [-1]. *)
Fixpoint findIndex {A} (p : A -> bool) (l : list A) : option nat :=
  match l with
  | [] => None
  | x :: l' => if p x then Some O else option_map S (findIndex p l')
  end.

(** [l.find(p)]. *)
Fixpoint find {A} (p : A -> bool) (l : list A) : option A :=
  match l with
  | [] => None
  | x :: l' => if p x then Some x else find p l'
  end.

Lemma findIndex_Some {A} (p : A -> bool) (l : list A) (i : nat) :
  findIndex p l = Some i <->
  exists x, l !! i = Some x /\ p x = true /\
            forall j y, (j < i)%nat -> l !! j = Some y -> p y = false.
Proof.
  revert i; induction l as [|a l IH]; intros i; simpl.
  { split; [done|]. by intros (x & Hx & _). }
  destruct (p a) eqn:Ha.
  - split.
    + intros [= <-]. exists a. split_and!; [done..|]. intros; lia.
    + intros (x & Hx & Hp & Hmin). destruct i as [|i]; [done|].
      rewrite (Hmin O a) in Ha; [done|lia|done].
  - split.
    + destruct (findIndex p l) as [k|]; [|done]. intros [= <-].
      destruct (proj1 (IH k) eq_refl) as (x & Hx & Hp & Hmin). exists x. split_and!; [done..|].
      intros [|j] y Hj Hy; [by injection Hy as <-|]. eapply Hmin; [|done]. lia.
    + intros (x & Hx & Hp & Hmin). destruct i as [|i].
      { injection Hx as ->. congruence. }
      rewrite (proj2 (IH i)); [done|]. exists x. split_and!; [done..|].
      intros j y Hj Hy. apply (Hmin (S j) y); [lia|done].
Qed.

Lemma findIndex_None {A} (p : A -> bool) (l : list A) :
  findIndex p l = None <-> Forall (fun x => p x = false) l.
Proof.
  induction l as [|a l IH]; simpl; [by split; [constructor|]|].
  rewrite Forall_cons, <- IH. destruct (p a).
  - split; [done|]. by intros [? _].
  - destruct (findIndex p l); simpl; naive_solver.
Qed.

Lemma find_Some {A} (p : A -> bool) (l : list A) (x : A) :
  find p l = Some x -> x ∈ l /\ p x = true.
Proof.
  induction l as [|a l IH]; simpl; [done|]. destruct (p a) eqn:Ha.
  - intros [= <-]. split; [by left|done].
  - intros Hx. destruct (IH Hx). split; [by right|done].
Qed.

Lemma find_None {A} (p : A -> bool) (l : list A) :
  find p l = None <-> Forall (fun x => p x = false) l.
Proof.
  induction l as [|a l IH]; simpl; [by split; [constructor|]|].
  rewrite Forall_cons, <- IH. destruct (p a) eqn:E; naive_solver.
Qed.

(** ** The default order of strings *)

(** Lexicographic order of code units, as a comparator. *)
Fixpoint str_cmp (a b : str) : Z :=
  match a, b with
  | [], [] => 0
  | [], _ :: _ => -1
  | _ :: _, [] => 1
  | x :: a', y :: b' =>
      if (x <? y)%N then -1 else if (y <? x)%N then 1 else str_cmp a' b'
  end.

(** [l.sort()] on strings. *)
Definition sort_strings (l : list str) : list str := sort_by str_cmp l.

(** ** Sortedness at the end of a list *)

Lemma Sorted_snoc {A} (R : A -> A -> Prop) (l : list A) (x : A) :
  Sorted R l -> (forall y, last l = Some y -> R y x) -> Sorted R (l ++ [x]).
Proof.
  induction 1 as [|y l Hs IH Hhd]; intros Hl; simpl; [by repeat constructor|].
  constructor.
  - apply IH. intros z Hz. apply Hl. destruct l; [done|exact Hz].
  - destruct l as [|z l]; simpl; constructor; [by apply Hl|].
    by inversion Hhd.
Qed.

Lemma Sorted_rev {A} (R : A -> A -> Prop) (l : list A) :
  Sorted R l -> Sorted (fun a b => R b a) (rev l).
Proof.
  induction 1 as [|x l Hs IH Hhd]; simpl; [constructor|].
  apply Sorted_snoc; [done|]. intros y Hy.
  destruct l as [|z l]; [done|]. simpl in Hy. rewrite last_snoc in Hy.
  injection Hy as <-. by inversion Hhd.
Qed.

Lemma StronglySorted_impl {A} (R S : A -> A -> Prop) (l : list A) :
  (forall x y, R x y -> S x y) -> StronglySorted R l -> StronglySorted S l.
Proof.
  intros H. induction 1; constructor; [done|]. eapply Forall_impl; eauto.
Qed.

(** ** [filter] *)

Lemma filter_none {A} (p : A -> bool) (l : list A) :
  Forall (fun x => p x = false) l -> List.filter p l = [].
Proof. induction 1 as [|x l Hx _ IH]; [done|]. cbn. by rewrite Hx. Qed.

Lemma filter_all {A} (p : A -> bool) (l : list A) :
  Forall (fun x => p x = true) l -> List.filter p l = l.
Proof. induction 1 as [|x l Hx _ IH]; [done|]. cbn. by rewrite Hx, IH. Qed.

Lemma filter_filter {A} (p q : A -> bool) (l : list A) :
  List.filter p (List.filter q l) = List.filter (fun x => q x && p x) l.
Proof.
  induction l as [|x l IH]; simpl; [done|]. destruct (q x); simpl; [|done].
  by destruct (p x); rewrite IH.
Qed.
