(* ===== verification/JsNumber.v ===== *)
(** * Numbers

    An ECMAScript Number is an IEEE 754 binary64 value.  It is modelled by the
    Standard Library's [spec_float] at precision 53 and maximal exponent 1024:
    no rounding is abstracted away, and every operation below computes.  The
    file holds the conversions the console relies on: [Number(text)],
    [parseFloat], [parseInt(text, 10)], [String(number)], and the predicates
    [Number.isFinite] and [Number.isInteger]. *)

From stdpp Require Import base list.
From Stdlib Require Import ZArith NArith Lia SpecFloat.
From S2P Require Import Prelude JsString.

Local Open Scope Z_scope.

Abbreviation num := spec_float.

Definition prec : Z := 53.
Definition emax : Z := 1024.

Definition NaN : num := S754_nan.
Definition num_zero : num := S754_zero false.

(** The nearest Number of an integer. *)
Definition num_of_Z (n : Z) : num := binary_normalize prec emax n 0 false.

Definition num_add (a b : num) : num := SFadd prec emax a b.
Definition num_sub (a b : num) : num := SFsub prec emax a b.
Definition num_mul (a b : num) : num := SFmul prec emax a b.
Definition num_div (a b : num) : num := SFdiv prec emax a b.

(** [a < b], [a <= b] and [a === b]; a comparison with [NaN] is false. *)
Definition num_lt (a b : num) : bool := SFltb a b.
Definition num_le (a b : num) : bool := SFleb a b.
Definition num_eq (a b : num) : bool := SFeqb a b.

Definition isNaN (x : num) : bool :=
  match x with S754_nan => true | _ => false end.

(** [Number.isFinite(x)]. *)
Definition isFinite (x : num) : bool :=
  match x with S754_zero _ | S754_finite _ _ _ => true | _ => false end.

(** [Number.isInteger(x)]. *)
Definition isInteger (x : num) : bool :=
  match x with
  | S754_zero _ => true
  | S754_finite _ m e => (0 <=? e) || (Z.pos m mod 2 ^ (- e) =? 0)
  | _ => false
  end.

(** [Math.trunc(x)] as an integer; meaningful on finite values only. *)
Definition trunc_Z (x : num) : Z :=
  match x with
  | S754_finite s m e =>
      let a := if 0 <=? e then Z.pos m * 2 ^ e else Z.pos m / 2 ^ (- e) in
      if s then - a else a
  | _ => 0
  end.

(** JavaScript truthiness of a Number: [0], [-0] and [NaN] are falsy. *)
Definition truthy_num (x : num) : bool :=
  match x with S754_zero _ | S754_nan => false | _ => true end.

(** [x || 0]. *)
Definition num_or_zero (x : num) : num := if truthy_num x then x else num_zero.

(** Structural equality, used where the model compares representations. *)
Definition num_same (a b : num) : bool :=
  match a, b with
  | S754_zero s, S754_zero t => Bool.eqb s t
  | S754_infinity s, S754_infinity t => Bool.eqb s t
  | S754_nan, S754_nan => true
  | S754_finite s m e, S754_finite t n f =>
      Bool.eqb s t && (m =? n)%positive && (e =? f)
  | _, _ => false
  end.

(** ** Decimal to binary *)

(** The binary64 value nearest to [m * 10^e], for [m >= 0].  Exponents beyond
    the range of binary64 are decided before the power of ten is built. *)
Definition num_of_decimal (neg : bool) (m e : Z) : num :=
  if m <=? 0 then S754_zero neg
  else if 310 <? e then S754_infinity neg
  else if e <? - (Z.log2 m + 1 + 330) then S754_zero neg
  else if 0 <=? e then binary_round prec emax neg (Z.to_pos (m * 10 ^ e)) 0
  else
    let '(q, e', l) := SFdiv_core_binary prec emax m 0 (10 ^ (- e)) 0 in
    binary_round_aux prec emax neg q e' l.

(** ** Lexing *)

(** The longest prefix whose code units satisfy [p], and the rest. *)
Fixpoint span {A} (p : A -> bool) (l : list A) : list A * list A :=
  match l with
  | [] => ([], [])
  | x :: l' =>
      if p x then let '(a, b) := span p l' in (x :: a, b) else ([], l)
  end.

(** An optional sign: [true] for [-]. *)
Definition lex_sign (s : str) : bool * str :=
  match s with
  | c :: s' =>
      if (c =? "-"%char)%N then (true, s')
      else if (c =? "+"%char)%N then (false, s') else (false, s)
  | [] => (false, s)
  end.

(** An optional fraction: the digits after a decimal point. *)
Definition lex_fraction (s : str) : str * str :=
  match s with
  | c :: s' => if (c =? "."%char)%N then span is_digit s' else ([], s)
  | [] => ([], s)
  end.

(** An optional exponent part; nothing is consumed unless a digit follows. *)
Definition lex_exponent (s : str) : Z * str :=
  match s with
  | c :: s' =>
      if ((c =? "e"%char) || (c =? "E"%char))%N then
        let '(neg, s1) := lex_sign s' in
        let '(ds, s2) := span is_digit s1 in
        match ds with
        | [] => (0, s)
        | _ => ((if neg then - digits_value ds else digits_value ds), s2)
        end
      else (0, s)
  | [] => (0, s)
  end.

(** An unsigned decimal literal at the front of [s]: its value and the rest. *)
Definition lex_decimal (neg : bool) (s : str) : option (num * str) :=
  let '(int, s1) := span is_digit s in
  let '(frac, s2) := lex_fraction s1 in
  match int, frac with
  | [], [] => None
  | _, _ =>
      let '(e, s3) := lex_exponent s2 in
      Some (num_of_decimal neg (digits_value (int ++ frac))
              (e - Z.of_nat (length frac)), s3)
  end.

(** A signed decimal literal or [Infinity] at the front of [s]. *)
Definition lex_number (s : str) : option (num * str) :=
  let '(neg, s1) := lex_sign s in
  if startsWith s1 "Infinity" then Some (S754_infinity neg, drop 8 s1)
  else lex_decimal neg s1.

(** The value of a digit in a radix up to 16. *)
Definition hex_value (c : N) : option Z :=
  if is_digit c then Some (digit_value c)
  else if ((97 <=? c) && (c <=? 102))%N then Some (Z.of_N c - 87)
  else if ((65 <=? c) && (c <=? 70))%N then Some (Z.of_N c - 55)
  else None.

Fixpoint radix_value (radix acc : Z) (s : str) : option Z :=
  match s with
  | [] => Some acc
  | c :: s' =>
      match hex_value c with
      | Some d => if d <? radix then radix_value radix (acc * radix + d) s'
                  else None
      | None => None
      end
  end.

(** The radix of a [0x], [0o] or [0b] prefix. *)
Definition radix_prefix (s : str) : option (Z * str) :=
  match s with
  | z :: p :: s' =>
      if (z =? "0"%char)%N then
        if ((p =? "x"%char) || (p =? "X"%char))%N then Some (16, s')
        else if ((p =? "o"%char) || (p =? "O"%char))%N then Some (8, s')
        else if ((p =? "b"%char) || (p =? "B"%char))%N then Some (2, s')
        else None
      else None
  | _ => None
  end.

(** [Number(text)] on a string (StringToNumber). *)
Definition Number (text : str) : num :=
  let s := trim text in
  match s with
  | [] => num_zero
  | _ =>
      match radix_prefix s with
      | Some (_, []) => NaN
      | Some (radix, ds) =>
          match radix_value radix 0 ds with
          | Some n => num_of_Z n
          | None => NaN
          end
      | None =>
          match lex_number s with
          | Some (x, []) => x
          | _ => NaN
          end
      end
  end.

(** [Number.parseFloat(text)]. *)
Definition parseFloat (text : str) : num :=
  match lex_number (trimStart text) with Some (x, _) => x | None => NaN end.

(** [Number.parseInt(text, 10)]; [None] for [NaN]. *)
Definition parseInt10 (text : str) : option Z :=
  let '(neg, s) := lex_sign (trimStart text) in
  match span is_digit s with
  | ([], _) => None
  | (ds, _) => Some (if neg then - digits_value ds else digits_value ds)
  end.

(** ** Binary to decimal *)

(** The exact ratio [m * 2^e]. *)
Definition ratio (m : positive) (e : Z) : Z * Z :=
  if 0 <=? e then (Z.pos m * 2 ^ e, 1) else (Z.pos m, 2 ^ (- e)).

(** [10^n <= p / q]. *)
Definition pow10_le (n p q : Z) : bool :=
  if 0 <=? n then q * 10 ^ n <=? p else q <=? p * 10 ^ (- n).

(** The [n] with [10^(n-1) <= p / q < 10^n], found from an estimate by
    correcting it at most [fuel] times in each direction. *)
Fixpoint raise_exp (fuel : nat) (n p q : Z) : Z :=
  match fuel with
  | O => n
  | S k => if pow10_le n p q then raise_exp k (n + 1) p q else n
  end.

Fixpoint lower_exp (fuel : nat) (n p q : Z) : Z :=
  match fuel with
  | O => n
  | S k => if pow10_le (n - 1) p q then n else lower_exp k (n - 1) p q
  end.

Definition decimal_exp (p q : Z) : Z :=
  let est := (Z.log2 p - Z.log2 q) * 30103 / 100000 in
  lower_exp 4 (raise_exp 4 est p q) p q.

(** [floor (p / q * 10^d)]. *)
Definition scale10 (p q d : Z) : Z :=
  if 0 <=? d then p * 10 ^ d / q else p / (q * 10 ^ (- d)).

(** [p / q * 10^d] compared with the integer [m], exactly. *)
Definition cmp_scaled (p q d m : Z) : comparison :=
  if 0 <=? d then p * 10 ^ d ?= m * q else p ?= m * q * 10 ^ (- d).

(** The closest [k]-digit decimal that reads back as [x], if there is one:
    [Some s] stands for [s * 10^(n-k)]. *)
Definition digits_candidate (x : num) (p q n k : Z) : option Z :=
  let lo := scale10 p q (k - n) in
  let hi := lo + 1 in
  let ok s := num_same (num_of_decimal false s (n - k)) x in
  if ok lo then
    if ok hi then
      match cmp_scaled (2 * p) q (k - n) (lo + hi) with
      | Lt => Some lo
      | Gt => Some hi
      | Eq => if Z.even lo then Some lo else Some hi
      end
    else Some lo
  else if ok hi then Some hi else None.

(** The shortest digits that read back as [x], as [(s, n)] for the decimal
    [0.s * 10^n]; 17 digits always suffice for binary64. *)
Fixpoint shortest (fuel : nat) (x : num) (p q n k : Z) : Z * Z :=
  match fuel with
  | O => (scale10 p q (17 - n), n)
  | S f =>
      match digits_candidate x p q n k with
      | Some s => if s =? 10 ^ k then (1, n + 1) else (s, n)
      | None => shortest f x p q n (k + 1)
      end
  end.

Definition zeros (n : Z) : str := repeat (chr "0"%char) (Z.to_nat n).

(** The layout of [Number::toString]: [s] has [k] digits, and the value is
    [s * 10^(n-k)]. *)
Definition layout_digits (s n : Z) : str :=
  let ds := string_of_nonneg s in
  let k := Z.of_nat (length ds) in
  if (k <=? n) && (n <=? 21) then ds ++ zeros (n - k)
  else if (0 <? n) && (n <=? 21) then
    take (Z.to_nat n) ds ++ "." ++ drop (Z.to_nat n) ds
  else if (-6 <? n) && (n <=? 0) then "0." ++ zeros (- n) ++ ds
  else
    let e := n - 1 in
    let sign : str := if e <? 0 then "-" else "+" in
    let es := string_of_nonneg (Z.abs e) in
    match ds with
    | [d] => [d] ++ "e" ++ sign ++ es
    | d :: ds' => [d] ++ "." ++ ds' ++ "e" ++ sign ++ es
    | [] => []
    end.

(** [String(x)] and [`${x}`]. *)
Definition num_to_string (x : num) : str :=
  match x with
  | S754_nan => "NaN"
  | S754_zero _ => "0"
  | S754_infinity s => if s then "-Infinity" else "Infinity"
  | S754_finite s m e =>
      let '(p, q) := ratio m e in
      let '(ds, n) :=
        shortest 17 (S754_finite false m e) p q (decimal_exp p q) 1 in
      let body := layout_digits ds n in
      if s then "-" ++ body else body
  end.

(** [Math.max] and [Math.min]; [-0] is below [0]. *)
Definition num_max (a b : num) : num :=
  if isNaN a || isNaN b then NaN
  else if num_lt a b then b else if num_lt b a then a
  else match a with S754_zero true => b | _ => a end.

Definition num_min (a b : num) : num :=
  if isNaN a || isNaN b then NaN
  else if num_lt a b then a else if num_lt b a then b
  else match a with S754_zero true => a | _ => b end.

(** [Math.abs(x)]. *)
Definition num_abs (x : num) : num :=
  match x with
  | S754_finite _ m e => S754_finite false m e
  | S754_zero _ => S754_zero false
  | S754_infinity _ => S754_infinity false
  | S754_nan => S754_nan
  end.

(** [Math.trunc(x)]. *)
Definition num_trunc (x : num) : num :=
  match x with
  | S754_finite s m e =>
      if trunc_Z x =? 0 then S754_zero s else num_of_Z (trunc_Z x)
  | _ => x
  end.

(** [Math.round(x)]: the nearest integer, the larger one of two. *)
Definition num_round (x : num) : num :=
  match x with
  | S754_finite s m e =>
      let '(p, q) := ratio m e in
      let p := if s then - p else p in
      let n := (2 * p + q) / (2 * q) in
      if n =? 0 then S754_zero s else num_of_Z n
  | _ => x
  end.

(** [a % b]: the remainder of the truncated quotient, with the sign of [a]. *)
Definition num_rem (a b : num) : num :=
  match a, b with
  | S754_nan, _ | _, S754_nan | S754_infinity _, _ | _, S754_zero _ => NaN
  | S754_zero _, _ | S754_finite _ _ _, S754_infinity _ => a
  | S754_finite sa ma ea, S754_finite _ mb eb =>
      let e := Z.min ea eb in
      let r := (Z.pos ma * 2 ^ (ea - e)) mod (Z.pos mb * 2 ^ (eb - e)) in
      if r =? 0 then S754_zero sa else binary_normalize prec emax (if sa then - r else r) e false
  end.

(** The length of [Array.from({ length: x })]. *)
Definition array_length (x : num) : nat := Z.to_nat (trunc_Z x).

(** [x.toFixed(f)]: the integer [n] for which [n / 10^f] is nearest to [|x|],
    the larger one of two, laid out with [f] decimals. *)
Definition toFixed (x : num) (f : Z) : str :=
  match x with
  | S754_finite s m e =>
      let '(p, q) := ratio m e in
      if 10 ^ 21 * q <=? p then num_to_string x
      else
        let n := (2 * p * 10 ^ f + q) / (2 * q) in
        let ds := string_of_nonneg n in
        let k := Z.of_nat (length ds) in
        let ds' := if k <=? f then zeros (f + 1 - k) ++ ds else ds in
        let cut := (length ds' - Z.to_nat f)%nat in
        let body := if f =? 0 then ds' else take cut ds' ++ "." ++ drop cut ds' in
        if s then "-" ++ body else body
  | S754_zero _ => if f =? 0 then "0" else "0." ++ zeros f
  | _ => num_to_string x
  end.

(** ** Lemmas *)

Lemma span_all {A} (p : A -> bool) (l : list A) :
  forallb p l = true -> span p l = (l, []).
Proof.
  induction l as [|x l IH]; simpl; [done|]. rewrite andb_true_iff.
  intros [-> H]. by rewrite IH.
Qed.

(** The longest prefix in [p] ends where the first element outside [p] is. *)
Lemma span_app {A} (p : A -> bool) (a b : list A) :
  forallb p a = true -> (forall x, head b = Some x -> p x = false) ->
  span p (a ++ b) = (a, b).
Proof.
  intros Ha Hb. induction a as [|x a IH]; simpl in *.
  - destruct b as [|y b]; [done|]. simpl. by rewrite (Hb y).
  - apply andb_true_iff in Ha as [-> Ha]. by rewrite IH.
Qed.

Lemma lex_sign_digits (s : str) :
  forallb is_digit s = true -> lex_sign s = (false, s).
Proof.
  destruct s as [|c s]; simpl; [done|]. rewrite andb_true_iff. intros [Hc _].
  pose proof (digit_neq c "-"%char Hc eq_refl) as H1.
  pose proof (digit_neq c "+"%char Hc eq_refl) as H2.
  apply negb_true_iff in H1 as ->. by apply negb_true_iff in H2 as ->.
Qed.

(** [parseInt] reads a string of digits. *)
Lemma parseInt10_digits (s : str) :
  s <> [] -> forallb is_digit s = true ->
  parseInt10 s = Some (digits_value s).
Proof.
  intros Hne Hd. unfold parseInt10.
  assert (trimStart s = s) as ->.
  { apply drop_while_id. intros c Hc. apply negb_true_iff, digit_not_ws.
    destruct s; [done|]. simpl in Hc, Hd. injection Hc as ->.
    by apply andb_true_iff in Hd as [? _]. }
  rewrite lex_sign_digits, span_all by done. by destruct s.
Qed.

Lemma parseInt10_string_of_nonneg (n : Z) :
  0 <= n -> parseInt10 (string_of_nonneg n) = Some n.
Proof.
  intros Hn. destruct (string_of_nonneg_spec n Hn) as (Hv & Hne & Hd).
  by rewrite parseInt10_digits, Hv.
Qed.

Lemma num_same_eq (a b : num) : num_same a b = true -> a = b.
Proof.
  destruct a as [s|s| |s m e], b as [t|t| |t n f]; cbn; try done.
  - by intros H%Bool.eqb_prop; subst.
  - by intros H%Bool.eqb_prop; subst.
  - intros H. js_simp. by repeat match goal with
    | H : Bool.eqb _ _ = true |- _ => apply Bool.eqb_prop in H as ->
    | H : (_ =? _)%positive = true |- _ => apply Pos.eqb_eq in H as ->
    | H : (_ =? _) = true |- _ => apply Z.eqb_eq in H as -> end.
Qed.

(** ** Order *)

Lemma num_lt_asym (a b : num) : num_lt a b = true -> num_lt b a = false.
Proof.
  unfold num_lt, SFltb, SFcompare.
  destruct a as [[]|[]| |[] m e], b as [[]|[]| |[] n f]; try done; rewrite (Z.compare_antisym e f);
    destruct (e ?= f)%Z; cbn; try done;
    change (Pos.compare_cont Eq m n) with (m ?= n)%positive; change (Pos.compare_cont Eq n m) with (n ?= m)%positive;
    rewrite (Pos.compare_antisym m n); by destruct (m ?= n)%positive.
Qed.

Lemma num_lt_irrefl (a : num) : num_lt a a = false.
Proof. destruct (num_lt a a) eqn:E; [|done]. pose proof (num_lt_asym a a E). congruence. Qed.

Lemma num_lt_nan (a : num) : num_lt NaN a = false /\ num_lt a NaN = false.
Proof. by destruct a as [[]|[]| |[] m e]. Qed.

Lemma num_max_not_below (m v : num) : num_lt (num_max m v) m = false.
Proof.
  unfold num_max. destruct (isNaN m || isNaN v); [apply num_lt_nan|].
  destruct (num_lt m v) eqn:E1; [by apply num_lt_asym|]. destruct (num_lt v m) eqn:E2; [apply num_lt_irrefl|].
  destruct m as [[]| | |]; try apply num_lt_irrefl. done.
Qed.

Lemma num_min_not_above (m v : num) : num_lt m (num_min m v) = false.
Proof.
  unfold num_min. destruct (isNaN m || isNaN v); [apply num_lt_nan|].
  destruct (num_lt m v) eqn:E1; [apply num_lt_irrefl|]. destruct (num_lt v m) eqn:E2; [by apply num_lt_asym|].
  destruct m as [[]| | |]; try done; apply num_lt_irrefl.
Qed.

Lemma num_min_cases (m v : num) : num_min m v = NaN \/ num_min m v = m \/ num_min m v = v.
Proof. unfold num_min. repeat case_match; auto. Qed.

Lemma num_max_cases (m v : num) : num_max m v = NaN \/ num_max m v = m \/ num_max m v = v.
Proof. unfold num_max. repeat case_match; auto. Qed.

(** The order is total away from [NaN]. *)
Lemma num_le_not_lt (a b : num) : isNaN a = false -> isNaN b = false -> num_lt b a = false -> num_le a b = true.
Proof.
  unfold num_lt, num_le, SFltb, SFleb, SFcompare.
  destruct a as [[]|[]| |[] m e], b as [[]|[]| |[] n f]; try done; intros _ _; rewrite (Z.compare_antisym e f);
    destruct (e ?= f)%Z; cbn; try done;
    change (Pos.compare_cont Eq m n) with (m ?= n)%positive; change (Pos.compare_cont Eq n m) with (n ?= m)%positive;
    rewrite (Pos.compare_antisym m n); by destruct (m ?= n)%positive.
Qed.

Lemma num_min_not_nan (a b : num) : isNaN a = false -> isNaN b = false -> isNaN (num_min a b) = false.
Proof. intros Ha Hb. unfold num_min. rewrite Ha, Hb. cbn. repeat case_match; congruence. Qed.

Lemma num_max_not_nan (a b : num) : isNaN a = false -> isNaN b = false -> isNaN (num_max a b) = false.
Proof. intros Ha Hb. unfold num_max. rewrite Ha, Hb. cbn. repeat case_match; congruence. Qed.

(** ** Sums of finite values *)

Lemma shr_1_nonneg (mrs : shr_record) : 0 <= shr_m mrs -> 0 <= shr_m (shr_1 mrs).
Proof. destruct mrs as [[|[]|[]] r s]; cbn; lia. Qed.

Lemma iter_shr_nonneg (p : positive) (mrs : shr_record) : 0 <= shr_m mrs -> 0 <= shr_m (SpecFloat.iter_pos shr_1 p mrs).
Proof.
  revert mrs. induction p as [p IH|p IH|]; intros mrs Hm; cbn [SpecFloat.iter_pos];
    [by apply IH, IH, shr_1_nonneg|by apply IH, IH|by apply shr_1_nonneg].
Qed.

Lemma shr_fexp_nonneg (m e : Z) (l : location) : 0 <= m -> 0 <= shr_m (fst (shr_fexp prec emax m e l)).
Proof.
  intros Hm. unfold shr_fexp, shr. assert (0 <= shr_m (shr_record_of_loc m l)) by by destruct l as [|[]].
  case_match; cbn [fst]; [done|by apply iter_shr_nonneg|done].
Qed.

Lemma binary_round_aux_not_nan (sx : bool) (m e : Z) (l : location) :
  0 <= m -> isNaN (binary_round_aux prec emax sx m e l) = false.
Proof.
  intros Hm. unfold binary_round_aux. pose proof (shr_fexp_nonneg m e l Hm).
  destruct (shr_fexp prec emax m e l) as [mrs e1]. cbn [fst] in *.
  set (r := round_nearest_even _ _). assert (Hr : 0 <= r).
  { unfold r, round_nearest_even. repeat case_match; lia. }
  pose proof (shr_fexp_nonneg r e1 loc_Exact Hr). destruct (shr_fexp prec emax r e1 loc_Exact) as [mrs2 e2]. cbn [fst] in *.
  destruct (shr_m mrs2); [done|by case_match|lia].
Qed.

Lemma binary_normalize_not_nan (m e : Z) (s : bool) : isNaN (binary_normalize prec emax m e s) = false.
Proof.
  unfold binary_normalize, binary_round. destruct m as [|p|p]; [done| |];
    destruct (shl_align p e _); by apply binary_round_aux_not_nan.
Qed.

Lemma num_add_not_nan (a b : num) : isFinite a = true -> isFinite b = true -> isNaN (num_add a b) = false.
Proof.
  destruct a as [s| | |s m e], b as [s'| | |s' m' e']; try done; intros _ _; [by destruct s, s'|].
  apply binary_normalize_not_nan.
Qed.

Lemma num_sub_not_nan (a b : num) : isFinite a = true -> isFinite b = true -> isNaN (num_sub a b) = false.
Proof.
  destruct a as [s| | |s m e], b as [s'| | |s' m' e']; try done; intros _ _; [by destruct s, s'|].
  apply binary_normalize_not_nan.
Qed.

Lemma num_le_finite (x : num) (a b : Z) :
  num_le (num_of_Z a) x = true -> num_le x (num_of_Z b) = true -> isFinite (num_of_Z a) = true -> isFinite (num_of_Z b) = true -> isFinite x = true.
Proof.
  intros Ha Hb Fa Fb. destruct x as [|[]| |]; try done; destruct (num_of_Z a), (num_of_Z b); by try destruct s; try destruct s0.
Qed.
