(* ===== verification/JsRegex.v ===== *)
(** * Regular expressions

    The subset of ECMAScript regular expressions that the console uses, with
    its backtracking semantics.  [run r st] is the list of all the ways [r]
    can match from the state [st], in the order in which a backtracking
    matcher tries them; the match that [exec] reports is the first one.  An
    iteration of a quantifier must consume input, and the groups of its body
    are reset on every iteration, as the standard requires.

    The second half relates [run] to the decompositions of the subject string
    ([in_run_*]); the theorems about parsers are proved from those. *)

From stdpp Require Import base list.
From Stdlib Require Import NArith Lia.
From S2P Require Import Prelude JsString.

(** ** Syntax *)

Inductive regex : Type :=
  | Eps                              (** the empty pattern *)
  | Cls (p : N -> bool)              (** one code unit of a class *)
  | Seq (a b : regex)                (** [ab] *)
  | Alt (a b : regex)                (** [a|b] *)
  | Star (a : regex)                 (** [a*], greedy *)
  | Grp (n : nat) (a : regex)        (** [(a)], capturing group [n] *)
  | Back (n : nat)                   (** [\n] *)
  | Bol                              (** [^] *)
  | Eol                              (** [$] *)
  | MBol                             (** [^] with the [m] flag *)
  | MEol                             (** [$] with the [m] flag *)
  | WordB.                           (** [\b] *)

Infix "·" := Seq (at level 51, right associativity) : js_scope.

(** A literal string. *)
Fixpoint lit (w : str) : regex :=
  match w with
  | [] => Eps
  | c :: w' => Cls (N.eqb c) · lit w'
  end.

(** [a+] and [a?], greedy. *)
Definition Plus (a : regex) : regex := a · Star a.
Definition Opt (a : regex) : regex := Alt a Eps.

(** [w1|w2|...]. *)
Fixpoint alts (ws : list str) : regex :=
  match ws with
  | [] => Cls (fun _ => false)
  | [w] => lit w
  | w :: ws' => Alt (lit w) (alts ws')
  end.

(** The groups of a pattern. *)
Fixpoint groups (r : regex) : list nat :=
  match r with
  | Eps | Cls _ | Back _ | Bol | Eol | MBol | MEol | WordB => []
  | Seq a b | Alt a b => groups a ++ groups b
  | Star a => groups a
  | Grp n a => n :: groups a
  end.

(** ** Character classes *)

Definition c_any (_ : N) : bool := true.
Definition c_digit : N -> bool := is_digit.
Definition c_space : N -> bool := is_ws.

(** [.] without the [s] flag. *)
Definition c_dot (c : N) : bool :=
  negb ((c =? 10) || (c =? 13) || (c =? 8232) || (c =? 8233))%N.

Definition c_not (x c : N) : bool := negb (c =? x)%N.

(** [\w]. *)
Definition c_word (c : N) : bool :=
  (is_digit c || (65 <=? c) && (c <=? 90) || (97 <=? c) && (c <=? 122)
   || (c =? 95))%N.

(** [[\d.eE+-]] and [[\d.eE+]]. *)
Definition c_numch (c : N) : bool :=
  (is_digit c || (c =? "."%char) || (c =? "e"%char) || (c =? "E"%char)
   || (c =? "+"%char) || (c =? "-"%char))%N.

Definition c_unumch (c : N) : bool :=
  (is_digit c || (c =? "."%char) || (c =? "e"%char) || (c =? "E"%char)
   || (c =? "+"%char))%N.

(** ** Matching *)

Record mstate : Type := MS {
  before : str;                      (** the consumed input, reversed *)
  after : str;                       (** the remaining input *)
  caps : list (nat * str);           (** the captures, latest first *)
}.

Fixpoint cap_lookup (n : nat) (cs : list (nat * str)) : option str :=
  match cs with
  | [] => None
  | (k, w) :: cs' => if Nat.eqb n k then Some w else cap_lookup n cs'
  end.

Definition reset_caps (ns : list nat) (st : mstate) : mstate :=
  MS (before st) (after st)
     (List.filter (fun kw => negb (existsb (Nat.eqb (fst kw)) ns)) (caps st)).

(** The iterations of a greedy quantifier: each consumes input, so the length
    of the remaining input bounds their number. *)
Fixpoint star_loop (step : mstate -> list mstate) (ns : list nat) (fuel : nat)
    (st : mstate) : list mstate :=
  match fuel with
  | O => [st]
  | S k =>
      flat_map
        (fun st' =>
           if (length (after st') <? length (after st))%nat
           then star_loop step ns k st' else [])
        (step (reset_caps ns st))
      ++ [st]
  end.

(** Record what the body of group [n] consumed between [st] and [st']. *)
Definition close_group (n : nat) (st st' : mstate) : mstate :=
  MS (before st') (after st')
     ((n, take (length (after st) - length (after st')) (after st))
        :: caps st').

Definition word_at (s : str) : bool :=
  match s with c :: _ => c_word c | [] => false end.

(** The start or the end of the input, or a line terminator. *)
Definition line_edge (s : str) : bool :=
  match s with c :: _ => negb (c_dot c) | [] => true end.

Fixpoint run (r : regex) (st : mstate) : list mstate :=
  match r with
  | Eps => [st]
  | Cls p =>
      match after st with
      | c :: s => if p c then [MS (c :: before st) s (caps st)] else []
      | [] => []
      end
  | Seq a b => flat_map (run b) (run a st)
  | Alt a b => run a st ++ run b st
  | Star a => star_loop (run a) (groups a) (length (after st)) st
  | Grp n a => map (close_group n st) (run a st)
  | Back n =>
      match cap_lookup n (caps st) with
      | None => [st]
      | Some w =>
          if startsWith (after st) w
          then [MS (rev w ++ before st) (drop (length w) (after st)) (caps st)]
          else []
      end
  | Bol => match before st with [] => [st] | _ => [] end
  | Eol => match after st with [] => [st] | _ => [] end
  | MBol => if line_edge (before st) then [st] else []
  | MEol => if line_edge (after st) then [st] else []
  | WordB =>
      if xorb (word_at (before st)) (word_at (after st)) then [st] else []
  end.

(** The result of [exec]: where the match starts, what it covers, its groups
    and the input that follows it. *)
Record mresult : Type := MR {
  m_index : nat;
  m_text : str;
  m_caps : list (nat * str);
  m_before : str;
  m_rest : str;
}.

Definition group (n : nat) (m : mresult) : option str :=
  cap_lookup n (m_caps m).

(** [m[n] || ''], for groups that take part in every match. *)
Definition grp (n : nat) (m : mresult) : str :=
  match group n m with Some w => w | None => [] end.

(** Try the pattern at every position from [i] on. *)
Fixpoint search (r : regex) (i : nat) (bef aft : str) : option mresult :=
  match run r (MS bef aft []) with
  | st :: _ =>
      Some (MR i (take (length aft - length (after st)) aft) (caps st)
               (before st) (after st))
  | [] =>
      match aft with
      | c :: aft' => search r (S i) (c :: bef) aft'
      | [] => None
      end
  end.

(** [s.match(r)] for a pattern without the [g] flag. *)
Definition exec (r : regex) (s : str) : option mresult := search r 0 [] s.

(** [r.test(s)]. *)
Definition test (r : regex) (s : str) : bool :=
  match exec r s with Some _ => true | None => false end.

(** The successive matches of a pattern with the [g] flag.  Every match moves
    the position forward, so the length of the input bounds their number. *)
Fixpoint match_loop (fuel : nat) (r : regex) (i : nat) (bef aft : str)
    : list mresult :=
  match fuel with
  | O => []
  | S k =>
      match search r i bef aft with
      | None => []
      | Some m =>
          match m_text m with
          | _ :: _ =>
              m :: match_loop k r (m_index m + length (m_text m))
                     (m_before m) (m_rest m)
          | [] =>
              match m_rest m with
              | c :: s =>
                  m :: match_loop k r (S (m_index m)) (c :: m_before m) s
              | [] => [m]
              end
          end
      end
  end.

Definition match_all (r : regex) (s : str) : list mresult :=
  match_loop (S (length s)) r 0 [] s.

(** [s.replaceAll(r, w)] for a replacement without [$]. *)
Fixpoint replace_matches (w : str) (pos : nat) (ms : list mresult) (s : str)
    : str :=
  match ms with
  | [] => drop pos s
  | m :: ms' =>
      take (m_index m - pos) (drop pos s) ++ w
        ++ replace_matches w (m_index m + length (m_text m)) ms' s
  end.

Definition replace_all (r : regex) (w s : str) : str :=
  replace_matches w 0 (match_all r s) s.

(** ** What the matches of a pattern are

    [In z (run r st)] says that [r] can match from [st] and leave the state
    [z].  For the pattern shapes of the console this is a statement about how
    the remaining input decomposes. *)

(** The state reached by consuming [w] and leaving [s]. *)
Definition step_to (st : mstate) (w s : str) : mstate :=
  MS (rev w ++ before st) s (caps st).

Lemma in_run_eps (st z : mstate) : In z (run Eps st) <-> z = st.
Proof. simpl. naive_solver. Qed.

Lemma in_run_seq (a b : regex) (st z : mstate) :
  In z (run (a · b) st) <-> exists y, In y (run a st) /\ In z (run b y).
Proof. simpl. apply in_flat_map. Qed.

Lemma in_run_alt (a b : regex) (st z : mstate) :
  In z (run (Alt a b) st) <-> In z (run a st) \/ In z (run b st).
Proof. simpl. apply in_app_iff. Qed.

Lemma in_run_opt (a : regex) (st z : mstate) :
  In z (run (Opt a) st) <-> In z (run a st) \/ z = st.
Proof. unfold Opt. by rewrite in_run_alt, in_run_eps. Qed.

Lemma in_run_cls (p : N -> bool) (st z : mstate) :
  In z (run (Cls p) st) <->
  exists c s, after st = c :: s /\ p c = true /\ z = step_to st [c] s.
Proof.
  simpl. destruct (after st) as [|c s]; simpl.
  { split; [done|]. by intros (? & ? & ? & _). }
  destruct (p c) eqn:E; simpl; split.
  - intros [<-|[]]. by exists c, s.
  - intros (c' & s' & [= <- <-] & _ & ->). by left.
  - done.
  - intros (c' & s' & [= <- <-] & Hc & _). congruence.
Qed.

Lemma in_run_bol (st z : mstate) :
  In z (run Bol st) <-> before st = [] /\ z = st.
Proof. simpl. destruct (before st); simpl; naive_solver. Qed.

Lemma in_run_eol (st z : mstate) :
  In z (run Eol st) <-> after st = [] /\ z = st.
Proof. simpl. destruct (after st); simpl; naive_solver. Qed.

Lemma in_run_grp (n : nat) (a : regex) (st z : mstate) :
  In z (run (Grp n a) st) <->
  exists y, In y (run a st) /\ z = close_group n st y.
Proof. simpl. rewrite in_map_iff. naive_solver. Qed.

Lemma step_to_nil (st : mstate) (s : str) :
  after st = s -> step_to st [] s = st.
Proof. intros <-. by destruct st. Qed.

Lemma step_to_step_to (st : mstate) (v w s t : str) :
  step_to (step_to st v s) w t = step_to st (v ++ w) t.
Proof. unfold step_to; simpl. by rewrite rev_app_distr, app_assoc. Qed.

Lemma in_run_lit (w : str) (st z : mstate) :
  In z (run (lit w) st) <-> exists s, after st = w ++ s /\ z = step_to st w s.
Proof.
  revert st; induction w as [|c w IH]; intros st.
  - simpl. split.
    + intros [<-|[]]. exists (after st). by rewrite step_to_nil.
    + intros (s & Hs & ->). left. by rewrite step_to_nil.
  - cbn [lit]. rewrite in_run_seq. setoid_rewrite in_run_cls.
    setoid_rewrite IH. split.
    + intros (y & (d & s & Hs & Hd & ->) & t & Ht & ->).
      apply N.eqb_eq in Hd as <-. simpl in Ht. subst s.
      exists t. by rewrite step_to_step_to.
    + intros (s & Hs & ->). exists (step_to st [c] (w ++ s)). split.
      * exists c, (w ++ s). by rewrite N.eqb_refl.
      * exists s. by rewrite step_to_step_to.
Qed.

Lemma reset_caps_nil (st : mstate) : reset_caps [] st = st.
Proof.
  destruct st as [b a c]. unfold reset_caps; simpl. f_equal.
  induction c as [|x c IH]; simpl; by f_equal.
Qed.

Lemma in_star_loop_cls (p : N -> bool) (n : nat) (st z : mstate) :
  length (after st) <= n ->
  In z (star_loop (run (Cls p)) [] n st) <->
  exists w s, after st = w ++ s /\ forallb p w = true /\ z = step_to st w s.
Proof.
  revert st; induction n as [|n IH]; intros st Hn.
  { simpl. destruct (after st) eqn:Ha; simpl in Hn; [|lia]. split.
    - intros [<-|[]]. exists [], []. by rewrite step_to_nil.
    - intros (w & s & Hw & _ & ->). symmetry in Hw.
      apply app_eq_nil in Hw as [-> ->]. left. by rewrite step_to_nil. }
  cbn [star_loop]. rewrite reset_caps_nil, in_app_iff, in_flat_map.
  setoid_rewrite in_run_cls. split.
  - intros [(y & (c & s & Ha & Hc & ->) & Hz)|[<-|[]]].
    + rewrite Ha in Hz, Hn. simpl in Hz, Hn.
      rewrite (proj2 (Nat.ltb_lt _ _)) in Hz by lia.
      apply IH in Hz as (w & t & Hs & Hw & ->); [|simpl; lia].
      simpl in Hs. subst s. exists (c :: w), t. simpl. rewrite Hc, Hw.
      by rewrite step_to_step_to.
    + exists [], (after st). by rewrite step_to_nil.
  - intros (w & s & Ha & Hw & ->). destruct w as [|c w].
    + right. left. by rewrite step_to_nil.
    + left. simpl in Hw. apply andb_true_iff in Hw as [Hc Hw].
      exists (step_to st [c] (w ++ s)). split; [by exists c, (w ++ s)|].
      rewrite Ha in Hn |- *. simpl in Hn |- *.
      rewrite (proj2 (Nat.ltb_lt _ _)) by lia. apply IH; [simpl; lia|].
      exists w, s. by rewrite step_to_step_to.
Qed.

Lemma in_run_star_cls (p : N -> bool) (st z : mstate) :
  In z (run (Star (Cls p)) st) <->
  exists w s, after st = w ++ s /\ forallb p w = true /\ z = step_to st w s.
Proof. cbn [run groups]. by apply in_star_loop_cls. Qed.

Lemma in_run_plus_cls (p : N -> bool) (st z : mstate) :
  In z (run (Plus (Cls p)) st) <->
  exists w s, after st = w ++ s /\ w <> [] /\ forallb p w = true
              /\ z = step_to st w s.
Proof.
  unfold Plus. rewrite in_run_seq. setoid_rewrite in_run_cls.
  setoid_rewrite in_run_star_cls. split.
  - intros (y & (c & s & Ha & Hc & ->) & w & t & Hs & Hw & ->).
    simpl in Hs. subst s. exists (c :: w), t. simpl.
    by rewrite Hc, Hw, step_to_step_to.
  - intros (w & s & Ha & Hne & Hw & ->). destruct w as [|c w]; [done|].
    simpl in Hw. apply andb_true_iff in Hw as [Hc Hw].
    exists (step_to st [c] (w ++ s)). split; [by exists c, (w ++ s)|].
    exists w, s. by rewrite step_to_step_to.
Qed.

(** A group around something that consumed [w] captures [w]. *)
Lemma close_group_step (n : nat) (st : mstate) (w s : str) :
  after st = w ++ s ->
  close_group n st (step_to st w s) =
  MS (rev w ++ before st) s ((n, w) :: caps st).
Proof.
  intros Ha. unfold close_group, step_to; simpl. rewrite Ha, length_app.
  replace (length w + length s - length s) with (length w) by lia.
  by rewrite take_app_length.
Qed.

Lemma in_run_grp_plus_cls (n : nat) (p : N -> bool) (st z : mstate) :
  In z (run (Grp n (Plus (Cls p))) st) <->
  exists w s, after st = w ++ s /\ w <> [] /\ forallb p w = true
              /\ z = MS (rev w ++ before st) s ((n, w) :: caps st).
Proof.
  rewrite in_run_grp. setoid_rewrite in_run_plus_cls. split.
  - intros (y & (w & s & Ha & Hne & Hw & ->) & ->).
    exists w, s. by rewrite close_group_step.
  - intros (w & s & Ha & Hne & Hw & ->).
    exists (step_to st w s). rewrite close_group_step by done. eauto 10.
Qed.

(** ** Anchored patterns *)

Lemma search_bol_later (r : regex) (i : nat) (bef aft : str) :
  bef <> [] -> search (Bol · r) i bef aft = None.
Proof.
  revert i bef; induction aft as [|c s IH]; intros i bef Hb;
    destruct bef as [|b bef]; try done; simpl.
  by apply IH.
Qed.

(** A pattern that starts with [^] can only match at the front. *)
Lemma exec_bol (r : regex) (s : str) :
  exec (Bol · r) s =
  match run r (MS [] s []) with
  | st :: _ =>
      Some (MR 0 (take (length s - length (after st)) s) (caps st)
               (before st) (after st))
  | [] => None
  end.
Proof.
  unfold exec. destruct s as [|c s]; simpl; rewrite ?app_nil_r.
  - by destruct (run r _).
  - destruct (run r _); [|done]. by apply search_bol_later.
Qed.

(** If all the ways to match end in the same state, that is the match. *)
Lemma exec_bol_unique (r : regex) (s : str) (z : mstate) :
  In z (run r (MS [] s [])) ->
  (forall z', In z' (run r (MS [] s [])) -> z' = z) ->
  exec (Bol · r) s =
  Some (MR 0 (take (length s - length (after z)) s) (caps z)
           (before z) (after z)).
Proof.
  intros Hz Huniq. rewrite exec_bol. destruct (run r _) as [|y l]; [done|].
  by rewrite (Huniq y (or_introl eq_refl)).
Qed.

Lemma exec_bol_none (r : regex) (s : str) :
  (forall z, ~ In z (run r (MS [] s []))) <-> exec (Bol · r) s = None.
Proof.
  rewrite exec_bol. destruct (run r _) as [|y l]; [naive_solver|].
  split; [|done]. intros H. exfalso. apply (H y). by left.
Qed.

Lemma test_bol (r : regex) (s : str) :
  test (Bol · r) s = true <-> exists z, In z (run r (MS [] s [])).
Proof.
  unfold test. rewrite exec_bol. destruct (run r _) as [|y l].
  - split; [done|]. by intros [z []].
  - split; [|done]. intros _. exists y. by left.
Qed.

(** [/^[class]+$/.test(s)]. *)
Lemma test_all_cls (p : N -> bool) (s : str) :
  test (Bol · Plus (Cls p) · Eol) s = true <-> s <> [] /\ forallb p s = true.
Proof.
  rewrite test_bol. setoid_rewrite in_run_seq. setoid_rewrite in_run_plus_cls.
  setoid_rewrite in_run_eol. split.
  - intros (z & y & (w & t & Ha & Hne & Hw & ->) & Ht & ->).
    simpl in *. subst t. by rewrite app_nil_r in Ha; subst.
  - intros [Hne Hp]. exists (step_to (MS [] s []) s []), (step_to (MS [] s []) s []).
    split; [|done]. exists s, []. by rewrite app_nil_r.
Qed.

(** ** Deterministic steps

    Equations that compute [run] on a subject whose next piece is known: a
    literal that is there, a literal that is not, and a maximal run of a class
    in front of a continuation that cannot start inside the class. *)

Lemma run_seq (a b : regex) (st : mstate) :
  run (a · b) st = flat_map (run b) (run a st).
Proof. done. Qed.

Lemma run_seq_assoc (a b c : regex) (st : mstate) :
  run ((a · b) · c) st = run (a · b · c) st.
Proof.
  simpl. induction (run a st) as [|y l IH]; [done|].
  simpl. by rewrite flat_map_app, IH.
Qed.

Lemma run_alt (a b : regex) (st : mstate) :
  run (Alt a b) st = run a st ++ run b st.
Proof. done. Qed.

Lemma run_eps_seq (r : regex) (st : mstate) : run (Eps · r) st = run r st.
Proof. simpl. apply app_nil_r. Qed.

Lemma run_lit (w : str) (b s : str) (c : list (nat * str)) :
  run (lit w) (MS b (w ++ s) c) = [MS (rev w ++ b) s c].
Proof.
  revert b; induction w as [|x w IH]; intros b; [done|].
  cbn [lit]. rewrite run_seq. cbn -[lit]. rewrite N.eqb_refl. cbn -[lit].
  by rewrite app_nil_r, IH, <- app_assoc.
Qed.

Lemma run_lit_seq (w : str) (r : regex) (b s : str) (c : list (nat * str)) :
  run (lit w · r) (MS b (w ++ s) c) = run r (MS (rev w ++ b) s c).
Proof. rewrite run_seq, run_lit. simpl. apply app_nil_r. Qed.

Lemma run_lit_none (w : str) (st : mstate) :
  startsWith (after st) w = false -> run (lit w) st = [].
Proof.
  destruct st as [b s c]. simpl. revert b s; induction w as [|x w IH]; intros b s H.
  - by destruct s.
  - cbn [lit]. rewrite run_seq. destruct s as [|y s]; [done|]. cbn -[lit].
    simpl in H. destruct (x =? y)%N; [|done].
    cbn -[lit]. rewrite app_nil_r. by apply IH.
Qed.

Lemma run_lit_fail (w : str) (r : regex) (st : mstate) :
  startsWith (after st) w = false -> run (lit w · r) st = [].
Proof. intros H. by rewrite run_seq, run_lit_none. Qed.

Lemma run_eol_end (b : str) (c : list (nat * str)) :
  run Eol (MS b [] c) = [MS b [] c].
Proof. done. Qed.

Lemma run_lit_eol (w b : str) (c : list (nat * str)) :
  run (lit w · Eol) (MS b w c) = [MS (rev w ++ b) [] c].
Proof. rewrite <- (app_nil_r w) at 2. by rewrite run_lit_seq. Qed.

(** A continuation that cannot start with a code unit of the class. *)
Definition stops (p : N -> bool) (k : mstate -> list mstate) : Prop :=
  forall y ch t, after y = ch :: t -> p ch = true -> k y = [].

Lemma stops_lit (p : N -> bool) (q : N) (w : str) (r : regex) :
  p q = false -> stops p (run (lit (q :: w) · r)).
Proof.
  intros Hq y ch t Hy Hch. apply run_lit_fail. rewrite Hy. simpl.
  destruct (N.eqb_spec q ch) as [->|]; [congruence|done].
Qed.

Lemma stops_eol (p : N -> bool) : stops p (run Eol).
Proof. intros y ch t Hy _. simpl. by rewrite Hy. Qed.

(** The head of what follows a maximal run is outside the class. *)
Definition ends_run (p : N -> bool) (s : str) : Prop :=
  match s with [] => True | q :: _ => p q = false end.

(** A greedy loop whose body takes one code unit of the class, and nothing
    else, at every position of [x], and nothing after it. *)
Lemma flat_map_star (p : N -> bool) (step : mstate -> list mstate)
    (k : mstate -> list mstate) (n : nat) (b x s : str) (c : list (nat * str)) :
  (forall b d t, p d = true -> step (MS b (d :: t) c) = [MS (d :: b) t c]) ->
  (forall b, step (MS b s c) = []) ->
  stops p k -> forallb p x = true -> (length (x ++ s) <= n)%nat ->
  flat_map k (star_loop step [] n (MS b (x ++ s) c)) = k (MS (rev x ++ b) s c).
Proof.
  intros Hin Hout Hk. revert n b; induction x as [|d x IH]; intros n b Hx Hn.
  - destruct n as [|n]; cbn [star_loop app]; [simpl; by rewrite app_nil_r|].
    rewrite reset_caps_nil, Hout. simpl. by rewrite app_nil_r.
  - destruct n as [|n]; simpl in Hn; [lia|].
    simpl in Hx. apply andb_true_iff in Hx as [Hd Hx].
    cbn [star_loop]. rewrite reset_caps_nil. cbn [app]. rewrite Hin by done.
    cbn [flat_map after].
    rewrite (proj2 (Nat.ltb_lt _ _)) by (simpl; lia).
    rewrite app_nil_r, flat_map_app. cbn [flat_map].
    rewrite (Hk (MS b (d :: x ++ s) c) d (x ++ s)) by done.
    rewrite !app_nil_r, IH by (done || lia).
    simpl. by rewrite <- app_assoc.
Qed.

Lemma flat_map_star_cls (p : N -> bool) (k : mstate -> list mstate)
    (n : nat) (b x s : str) (c : list (nat * str)) :
  stops p k -> forallb p x = true -> ends_run p s ->
  (length (x ++ s) <= n)%nat ->
  flat_map k (star_loop (run (Cls p)) [] n (MS b (x ++ s) c))
  = k (MS (rev x ++ b) s c).
Proof.
  intros Hk Hx Hs Hn. apply (flat_map_star p); try done.
  - intros b' d t Hd. simpl. by rewrite Hd.
  - intros b'. destruct s as [|q s]; [done|]. simpl in Hs |- *. by rewrite Hs.
Qed.

Lemma flat_map_map {A B C} (f : A -> B) (g : B -> list C) (l : list A) :
  flat_map g (map f l) = flat_map (fun x => g (f x)) l.
Proof. induction l as [|x l IH]; simpl; by rewrite ?IH. Qed.

Lemma flat_map_plus_cls (p : N -> bool) (k : mstate -> list mstate)
    (b x s : str) (c : list (nat * str)) :
  stops p k -> x <> [] -> forallb p x = true -> ends_run p s ->
  flat_map k (run (Plus (Cls p)) (MS b (x ++ s) c)) = k (MS (rev x ++ b) s c).
Proof.
  intros Hk Hne Hx Hs. destruct x as [|d x]; [done|].
  simpl in Hx. apply andb_true_iff in Hx as [Hd Hx].
  unfold Plus. rewrite run_seq. cbn [run after app before caps groups].
  rewrite Hd. cbn [flat_map after before caps]. rewrite app_nil_r.
  etransitivity; [by apply flat_map_star_cls|].
  simpl. by rewrite <- app_assoc.
Qed.

Lemma run_grp_plus (n : nat) (p : N -> bool) (k : regex) (b x s : str)
    (c : list (nat * str)) :
  stops p (run k) -> x <> [] -> forallb p x = true -> ends_run p s ->
  run (Grp n (Plus (Cls p)) · k) (MS b (x ++ s) c)
  = run k (MS (rev x ++ b) s ((n, x) :: c)).
Proof.
  intros Hk Hne Hx Hs. rewrite run_seq. cbn [run]. rewrite flat_map_map.
  rewrite (flat_map_plus_cls p
    (fun y => run k (close_group n (MS b (x ++ s) c) y))); try done.
  - f_equal. by apply (close_group_step n (MS b (x ++ s) c) x s).
  - intros y ch t Hy Hch. by apply (Hk _ ch t).
Qed.

(** A group whose body is known to match in one way. *)
Lemma run_grp_one (n : nat) (a k : regex) (b x s : str) (c : list (nat * str)) :
  run a (MS b (x ++ s) c) = [MS (rev x ++ b) s c] ->
  run (Grp n a · k) (MS b (x ++ s) c)
  = run k (MS (rev x ++ b) s ((n, x) :: c)).
Proof.
  intros Ha. rewrite run_seq. cbn [run]. rewrite Ha. simpl.
  rewrite app_nil_r.
  f_equal. by apply (close_group_step n (MS b (x ++ s) c) x s).
Qed.

Lemma run_grp_none (n : nat) (a k : regex) (st : mstate) :
  run a st = [] -> run (Grp n a · k) st = [].
Proof. intros Ha. rewrite run_seq. cbn [run]. by rewrite Ha. Qed.

(** What a pattern without back references consumes lies in a class if all
    its classes do. *)
Fixpoint within (p : N -> bool) (r : regex) : Prop :=
  match r with
  | Eps | Bol | Eol | MBol | MEol | WordB => True
  | Cls q => forall c, q c = true -> p c = true
  | Seq a b | Alt a b => within p a /\ within p b
  | Star a | Grp _ a => within p a
  | Back _ => False
  end.

(** [z] is reached from [st] by consuming code units of [p]. *)
Definition consumed (p : N -> bool) (st z : mstate) : Prop :=
  exists w, after st = w ++ after z /\ forallb p w = true.

Lemma consumed_refl p st : consumed p st st.
Proof. by exists []. Qed.

Lemma consumed_trans p x y z :
  consumed p x y -> consumed p y z -> consumed p x z.
Proof.
  intros (v & Hv & Pv) (w & Hw & Pw). exists (v ++ w).
  by rewrite Hv, Hw, forallb_app, Pv, Pw, app_assoc.
Qed.

Lemma star_within p (step : mstate -> list mstate) ns n st z :
  (forall x y, In y (step x) -> consumed p x y) ->
  In z (star_loop step ns n st) -> consumed p st z.
Proof.
  intros Hstep. revert st; induction n as [|n IH]; intros st; simpl.
  - intros [<-|[]]. apply consumed_refl.
  - rewrite in_app_iff, in_flat_map. intros [(y & Hy & Hz)|[<-|[]]].
    + destruct (_ <? _)%nat; [|done]. apply Hstep in Hy.
      apply consumed_trans with y; [exact Hy|by apply IH].
    + apply consumed_refl.
Qed.

Lemma run_within (p : N -> bool) (r : regex) (st z : mstate) :
  within p r -> In z (run r st) -> consumed p st z.
Proof.
  revert st z; induction r as [|q|a IHa b IHb|a IHa b IHb|a IHa|n a IHa|n| | | | |];
    intros st z Hr; simpl in Hr |- *.
  - intros [<-|[]]. apply consumed_refl.
  - destruct (after st) as [|c s] eqn:E; [done|].
    destruct (q c) eqn:Hc; [|done]. intros [<-|[]].
    exists [c]. simpl. by rewrite E, (Hr _ Hc).
  - destruct Hr as [Ha Hb]. rewrite in_flat_map. intros (y & Hy & Hz).
    apply consumed_trans with y; eauto.
  - destruct Hr as [Ha Hb]. rewrite in_app_iff. intros [H|H]; eauto.
  - apply star_within. eauto.
  - rewrite in_map_iff. intros (y & <- & Hy).
    destruct (IHa _ _ Hr Hy) as (w & Hw & Pw). by exists w.
  - done.
  - destruct (before st); [|done]. intros [<-|[]]. apply consumed_refl.
  - destruct (after st) eqn:E; [|done]. intros [<-|[]]. apply consumed_refl.
  - destruct (line_edge _); [|done]. intros [<-|[]]. apply consumed_refl.
  - destruct (line_edge _); [|done]. intros [<-|[]]. apply consumed_refl.
  - destruct (xorb _ _); [|done]. intros [<-|[]]. apply consumed_refl.
Qed.

Lemma test_within (p : N -> bool) (r : regex) (s : str) :
  within p r -> test (Bol · r · Eol) s = true -> forallb p s = true.
Proof.
  intros Hr. rewrite test_bol. intros [z Hz].
  apply in_run_seq in Hz as (y & Hy & Hz). apply in_run_eol in Hz as [Hz ->].
  destruct (run_within p r _ _ Hr Hy) as (w & Hw & Pw). simpl in Hw.
  by rewrite Hw, Hz, app_nil_r.
Qed.

(** ** Back references *)

Lemma run_back_seq (n : nat) (w : str) (k : regex) (b s : str)
    (c : list (nat * str)) :
  cap_lookup n c = Some w ->
  run (Back n · k) (MS b (w ++ s) c) = run k (MS (rev w ++ b) s c).
Proof.
  intros Hc. rewrite run_seq. cbn [run caps after]. rewrite Hc, startsWith_app.
  simpl. by rewrite app_nil_r, drop_app_length.
Qed.

Lemma run_back_fail (n : nat) (w : str) (k : regex) (st : mstate) :
  cap_lookup n (caps st) = Some w -> startsWith (after st) w = false ->
  run (Back n · k) st = [].
Proof. intros Hc H. rewrite run_seq. cbn [run]. by rewrite Hc, H. Qed.

(** A loop over a body without groups, as in [flat_map_star]. *)
Lemma run_star_seq (p : N -> bool) (a k : regex) (b x s : str)
    (c : list (nat * str)) :
  groups a = [] ->
  (forall b d t, p d = true -> run a (MS b (d :: t) c) = [MS (d :: b) t c]) ->
  (forall b, run a (MS b s c) = []) ->
  stops p (run k) -> forallb p x = true ->
  run (Star a · k) (MS b (x ++ s) c) = run k (MS (rev x ++ b) s c).
Proof.
  intros Hg Hin Hout Hk Hx. rewrite run_seq. cbn [run after]. rewrite Hg.
  by apply (flat_map_star p).
Qed.

(** All the ways to match give the same captures. *)
Lemma exec_bol_caps (r : regex) (s : str) (c : list (nat * str)) :
  (exists z, In z (run r (MS [] s []))) ->
  (forall z, In z (run r (MS [] s [])) -> caps z = c) ->
  exists m, exec (Bol · r) s = Some m /\ m_caps m = c.
Proof.
  intros [z Hz] Huniq. rewrite exec_bol. destruct (run r _) as [|y l]; [done|].
  eexists. split; [done|]. apply Huniq. by left.
Qed.
