(* ===== verification/JsJson.v ===== *)
(** * JSON

    JSON values, [JSON.parse] and [JSON.stringify].  An object is the list of
    its own properties in the order in which ECMAScript enumerates them: array
    indices in ascending order, then the other keys in the order of their
    insertion.  The parser recurses on fuel; twice the length of the text is
    enough because every second nested call consumes a code unit.

    The theorems show that a quoted string reads back as itself. *)

From stdpp Require Import base list.
From Stdlib Require Import ZArith NArith Lia SpecFloat.
From S2P Require Import Prelude JsString JsNumber.

Local Open Scope Z_scope.

#[warnings="-register-all"]
Inductive json : Type :=
  | JNull
  | JBool (b : bool)
  | JNum (x : num)
  | JStr (s : str)
  | JArr (l : list json)
  | JObj (o : list (str * json)).

(** ** Objects *)

Fixpoint obj_get {A} (k : str) (o : list (str * A)) : option A :=
  match o with
  | [] => None
  | (k', v) :: o' => if k =?s k' then Some v else obj_get k o'
  end.

(** An array index: a canonical integer below 2^32 - 1. *)
Definition array_index (k : str) : option Z :=
  match k with
  | [] => None
  | _ =>
      if forallb is_digit k then
        let n := digits_value k in
        if (n <? 4294967295) && (string_of_nonneg n =?s k) then Some n
        else None
      else None
  end.

(** Whether the key [k] is enumerated before the key [k']. *)
Definition key_before (k k' : str) : bool :=
  match array_index k, array_index k' with
  | Some a, Some b => a <? b
  | Some _, None => true
  | None, _ => false
  end.

Fixpoint obj_insert {A} (k : str) (v : A) (o : list (str * A))
    : list (str * A) :=
  match o with
  | [] => [(k, v)]
  | (k', v') :: o' =>
      if key_before k k' then (k, v) :: o
      else (k', v') :: obj_insert k v o'
  end.

Fixpoint obj_update {A} (k : str) (v : A) (o : list (str * A))
    : list (str * A) :=
  match o with
  | [] => []
  | (k', v') :: o' =>
      if k =?s k' then (k', v) :: o' else (k', v') :: obj_update k v o'
  end.

(** [o[k] = v]. *)
Definition obj_set {A} (k : str) (v : A) (o : list (str * A))
    : list (str * A) :=
  match obj_get k o with
  | Some _ => obj_update k v o
  | None => obj_insert k v o
  end.

(** [delete o[k]]. *)
Definition obj_delete {A} (k : str) (o : list (str * A)) : list (str * A) :=
  List.filter (fun kv => negb (k =?s fst kv)) o.

(** [Object.fromEntries(l)]. *)
Definition obj_from {A} (l : list (str * A)) : list (str * A) :=
  fold_left (fun o kv => obj_set (fst kv) (snd kv) o) l [].

(** [Object.keys(o)] and [Object.values(o)]. *)
Definition obj_keys {A} (o : list (str * A)) : list str := map fst o.
Definition obj_values {A} (o : list (str * A)) : list A := map snd o.

(** ** [JSON.stringify] on strings *)

Definition hex_digit (n : N) : N := if (n <? 10)%N then (48 + n)%N else (87 + n)%N.

(** [\uXXXX]. *)
Definition unicode_escape (c : N) : str :=
  "\u" ++ [hex_digit (c / 4096 mod 16); hex_digit (c / 256 mod 16);
           hex_digit (c / 16 mod 16); hex_digit (c mod 16)]%N.

Definition is_high_surrogate (c : N) : bool :=
  ((55296 <=? c) && (c <=? 56319))%N.
Definition is_low_surrogate (c : N) : bool :=
  ((56320 <=? c) && (c <=? 57343))%N.

(** The escape of one code unit; [None] when it is written as it is. *)
Definition escape_char (c : N) : option str :=
  if (c =? 8)%N then Some (js "\b")
  else if (c =? 9)%N then Some (js "\t")
  else if (c =? 10)%N then Some (js "\n")
  else if (c =? 12)%N then Some (js "\f")
  else if (c =? 13)%N then Some (js "\r")
  else if (c =? dq)%N then Some (92%N :: [dq])
  else if (c =? 92)%N then Some (js "\\")
  else if (c <? 32)%N then Some (unicode_escape c)
  else None.

(** The body of a quoted string; a surrogate that is not part of a pair is
    escaped. *)
Fixpoint quote_body (s : str) : str :=
  match s with
  | [] => []
  | c :: s' =>
      match escape_char c with
      | Some e => e ++ quote_body s'
      | None =>
          if is_high_surrogate c then
            match s' with
            | d :: s'' =>
                if is_low_surrogate d then c :: d :: quote_body s''
                else unicode_escape c ++ quote_body s'
            | [] => unicode_escape c
            end
          else if is_low_surrogate c then unicode_escape c ++ quote_body s'
          else c :: quote_body s'
      end
  end.

(** [JSON.stringify(s)] for a string [s]. *)
Definition quote (s : str) : str := [dq] ++ quote_body s ++ [dq].

(** ** [JSON.stringify] on values *)

Definition stringify_num (x : num) : str :=
  if isFinite x then num_to_string x else "null".

(** [JSON.stringify(v)]. *)
Fixpoint stringify (v : json) : str :=
  match v with
  | JNull => "null"
  | JBool b => if b then "true" else "false"
  | JNum x => stringify_num x
  | JStr s => quote s
  | JArr l => "[" ++ str_join "," (map stringify l) ++ "]"
  | JObj o =>
      "{" ++ str_join "," (map (fun kv => quote (fst kv) ++ ":"
                                        ++ stringify (snd kv)) o) ++ "}"
  end.

Definition newline : str := [10%N].

(** [JSON.stringify(v, null, 2)]; [ind] is the current indentation. *)
Fixpoint stringify_indent (ind : str) (v : json) : str :=
  let ind' := ind ++ "  " in
  match v with
  | JArr ((_ :: _) as l) =>
      "[" ++ newline ++ ind'
        ++ str_join ("," ++ newline ++ ind') (map (stringify_indent ind') l)
        ++ newline ++ ind ++ "]"
  | JObj ((_ :: _) as o) =>
      "{" ++ newline ++ ind'
        ++ str_join ("," ++ newline ++ ind')
             (map (fun kv => quote (fst kv) ++ ": "
                               ++ stringify_indent ind' (snd kv)) o)
        ++ newline ++ ind ++ "}"
  | _ => stringify v
  end.

(** ** [JSON.parse] *)

Definition is_json_ws (c : N) : bool :=
  ((c =? 9) || (c =? 10) || (c =? 13) || (c =? 32))%N.

Definition skip_ws (s : str) : str := drop_while is_json_ws s.

(** Four hexadecimal digits. *)
Definition hex4 (s : str) : option (N * str) :=
  match s with
  | a :: b :: c :: d :: s' =>
      match hex_value a, hex_value b, hex_value c, hex_value d with
      | Some x, Some y, Some z, Some w =>
          Some (Z.to_N (x * 4096 + y * 256 + z * 16 + w), s')
      | _, _, _, _ => None
      end
  | _ => None
  end.

(** What a single-character escape stands for. *)
Definition simple_escape (e : N) : option N :=
  if (e =? dq)%N then Some dq
  else if (e =? 92)%N then Some 92%N
  else if (e =? "/"%char)%N then Some (chr "/"%char)
  else if (e =? "b"%char)%N then Some 8%N
  else if (e =? "f"%char)%N then Some 12%N
  else if (e =? "n"%char)%N then Some 10%N
  else if (e =? "r"%char)%N then Some 13%N
  else if (e =? "t"%char)%N then Some 9%N
  else None.

(** The body of a string up to its closing quote, and what follows it. *)
Fixpoint parse_chars (fuel : nat) (s : str) : option (str * str) :=
  match fuel with
  | O => None
  | S k =>
      match s with
      | [] => None
      | c :: s1 =>
          if (c =? dq)%N then Some ([], s1)
          else if (c =? 92)%N then
            match s1 with
            | [] => None
            | e :: s2 =>
                if (e =? "u"%char)%N then
                  match hex4 s2 with
                  | Some (u, s3) =>
                      match parse_chars k s3 with
                      | Some (w, r) => Some (u :: w, r)
                      | None => None
                      end
                  | None => None
                  end
                else
                  match simple_escape e, parse_chars k s2 with
                  | Some u, Some (w, r) => Some (u :: w, r)
                  | _, _ => None
                  end
            end
          else if (c <? 32)%N then None
          else
            match parse_chars k s1 with
            | Some (w, r) => Some (c :: w, r)
            | None => None
            end
      end
  end.

(** A string literal at the front of [s]. *)
Definition parse_string (s : str) : option (str * str) :=
  match s with
  | c :: s' => if (c =? dq)%N then parse_chars (length s) s' else None
  | [] => None
  end.

(** The parts of a number: an optional minus sign, an integer without leading
    zeros, an optional fraction and an optional exponent. *)
Definition json_minus (s : str) : bool * str :=
  match s with
  | c :: s' => if (c =? "-"%char)%N then (true, s') else (false, s)
  | [] => (false, s)
  end.

Definition json_int (s : str) : str * str :=
  match s with
  | c :: s' => if (c =? "0"%char)%N then ([c], s') else span is_digit s
  | [] => ([], s)
  end.

Definition json_frac (s : str) : option (str * str) :=
  match s with
  | c :: s' =>
      if (c =? "."%char)%N then
        match span is_digit s' with
        | ([], _) => None
        | (f, r) => Some (f, r)
        end
      else Some ([], s)
  | [] => Some ([], s)
  end.

Definition json_exp_ok (s : str) : bool :=
  match s with
  | c :: s' =>
      if ((c =? "e"%char) || (c =? "E"%char))%N then
        match span is_digit (snd (lex_sign s')) with ([], _) => false | _ => true end
      else true
  | [] => true
  end.

Definition parse_num (s : str) : option (num * str) :=
  let '(neg, s0) := json_minus s in
  let '(int, s1) := json_int s0 in
  match int with
  | [] => None
  | _ =>
      match json_frac s1 with
      | None => None
      | Some (frac, s2) =>
          if json_exp_ok s2 then
            let '(e, s3) := lex_exponent s2 in
            Some (num_of_decimal neg (digits_value (int ++ frac))
                    (e - Z.of_nat (length frac)), s3)
          else None
      end
  end.

Fixpoint parse_value (fuel : nat) (s : str) : option (json * str) :=
  match fuel with
  | O => None
  | S k =>
      match skip_ws s with
      | [] => None
      | c :: s1 =>
          if (c =? dq)%N then
            match parse_string (c :: s1) with
            | Some (w, r) => Some (JStr w, r)
            | None => None
            end
          else if (c =? "["%char)%N then
            match skip_ws s1 with
            | d :: s2 =>
                if (d =? "]"%char)%N then Some (JArr [], s2)
                else parse_elems k s1 []
            | [] => None
            end
          else if (c =? "{"%char)%N then
            match skip_ws s1 with
            | d :: s2 =>
                if (d =? "}"%char)%N then Some (JObj [], s2)
                else parse_members k s1 []
            | [] => None
            end
          else if startsWith (c :: s1) "null" then
            Some (JNull, drop 4 (c :: s1))
          else if startsWith (c :: s1) "true" then
            Some (JBool true, drop 4 (c :: s1))
          else if startsWith (c :: s1) "false" then
            Some (JBool false, drop 5 (c :: s1))
          else
            match parse_num (c :: s1) with
            | Some (x, r) => Some (JNum x, r)
            | None => None
            end
      end
  end
with parse_elems (fuel : nat) (s : str) (acc : list json)
    : option (json * str) :=
  match fuel with
  | O => None
  | S k =>
      match parse_value k s with
      | None => None
      | Some (v, r) =>
          match skip_ws r with
          | d :: r' =>
              if (d =? ","%char)%N then parse_elems k r' (acc ++ [v])
              else if (d =? "]"%char)%N then Some (JArr (acc ++ [v]), r')
              else None
          | [] => None
          end
      end
  end
with parse_members (fuel : nat) (s : str) (acc : list (str * json))
    : option (json * str) :=
  match fuel with
  | O => None
  | S k =>
      match parse_string (skip_ws s) with
      | None => None
      | Some (key, r) =>
          match skip_ws r with
          | d :: r1 =>
              if (d =? ":"%char)%N then
                match parse_value k r1 with
                | None => None
                | Some (v, r2) =>
                    match skip_ws r2 with
                    | e :: r3 =>
                        if (e =? ","%char)%N then
                          parse_members k r3 (obj_set key v acc)
                        else if (e =? "}"%char)%N then
                          Some (JObj (obj_set key v acc), r3)
                        else None
                    | [] => None
                    end
                end
              else None
          | [] => None
          end
      end
  end.

(** [JSON.parse(s)]; [None] stands for a thrown [SyntaxError]. *)
Definition json_parse (s : str) : option json :=
  match parse_value (S (2 * length s)) s with
  | Some (v, r) => match skip_ws r with [] => Some v | _ => None end
  | None => None
  end.

(** [String(v)] and [`${v}`] for a JSON value. *)
Fixpoint json_to_string (v : json) : str :=
  match v with
  | JNull => "null"
  | JBool b => if b then "true" else "false"
  | JNum x => num_to_string x
  | JStr s => s
  | JArr l =>
      str_join "," (map (fun e => match e with
                              | JNull => []
                              | _ => json_to_string e
                              end) l)
  | JObj _ => "[object Object]"
  end.


(** ** Reading the fields of a value

    [undefined] is [None]. *)

Definition truthy_json (v : json) : bool :=
  match v with
  | JNull => false
  | JBool b => b
  | JNum x => truthy_num x
  | JStr s => truthy_str s
  | JArr _ | JObj _ => true
  end.

(** [v.k] for a field that no built-in prototype has; reading a field of
    [null] throws. *)
Definition prop (k : str) (v : json) : res (option json) :=
  match v with
  | JNull => Throw
  | JObj o => Ok (obj_get k o)
  | _ => Ok None
  end.

(** [v?.k]. *)
Definition oprop (k : str) (v : option json) : option json :=
  match v with
  | Some (JObj o) => obj_get k o
  | _ => None
  end.

(** [v?.[0]]. *)
Definition ofirst (v : option json) : option json :=
  match v with
  | Some (JArr (x :: _)) => Some x
  | Some (JStr (c :: _)) => Some (JStr [c])
  | Some (JObj o) => obj_get "0" o
  | _ => None
  end.

Definition truthy_ojson (v : option json) : bool :=
  match v with Some x => truthy_json x | None => false end.

(** [a || b] where [b] is a string. *)
Definition ojson_or (a : option json) (b : str) : json :=
  match a with Some v => if truthy_json v then v else JStr b | None => JStr b end.

(** [Number(v)]; arrays and objects are converted through their text. *)
Definition Number_json (v : option json) : num :=
  match v with
  | None => NaN
  | Some JNull => num_zero
  | Some (JBool b) => num_of_Z (if b then 1 else 0)
  | Some (JNum x) => x
  | Some (JStr s) => Number s
  | Some v => Number (json_to_string v)
  end.

(** The entries that the spread of a value copies. *)
Definition spread_entries (v : json) : list (str * json) :=
  match v with
  | JObj o => o
  | JArr l => imap (fun i e => (string_of_Z (Z.of_nat i), e)) l
  | JStr s => imap (fun i c => (string_of_Z (Z.of_nat i), JStr [c])) s
  | _ => []
  end.

(** [{ ...a, ...b }] where [a] is an object. *)
Definition obj_spread (o : list (str * json)) (v : json) : list (str * json) :=
  fold_left (fun a kv => obj_set (fst kv) (snd kv) a) (spread_entries v) o.

(** ** Quoting and parsing

    A quoted string parses back to the string, whatever its code units. *)

Lemma hex_value_digit (n : N) :
  (n < 16)%N -> hex_value (hex_digit n) = Some (Z.of_N n).
Proof.
  intros Hn. assert (Hin : In n (map N.of_nat (seq 0 16))).
  { apply in_map_iff. exists (N.to_nat n). rewrite N2Nat.id, in_seq. lia. }
  revert Hin. clear Hn. revert n. apply List.Forall_forall.
  repeat constructor.
Qed.

Lemma hex4_unicode_escape (c : N) (s : str) :
  (c < 65536)%N ->
  hex4 ([hex_digit (c / 4096 mod 16); hex_digit (c / 256 mod 16);
         hex_digit (c / 16 mod 16); hex_digit (c mod 16)]%N ++ s)
  = Some (c, s).
Proof.
  intros Hc. cbn [hex4 app].
  rewrite !hex_value_digit by (apply N.mod_lt; lia).
  do 2 f_equal. rewrite !N2Z.inj_mod, !N2Z.inj_div. apply N2Z.inj.
  rewrite Z2N.id by (Z.div_mod_to_equations; lia).
  change (Z.of_N 4096) with 4096; change (Z.of_N 256) with 256.
  change (Z.of_N 16) with 16. Z.div_mod_to_equations. lia.
Qed.

(** How [parse_chars] reads the escape of a code unit. *)
Lemma parse_chars_unicode (k : nat) (c : N) (s w r : str) :
  (c < 65536)%N -> parse_chars k s = Some (w, r) ->
  parse_chars (S k) (unicode_escape c ++ s) = Some (c :: w, r).
Proof.
  intros Hc Hs. pose proof (hex4_unicode_escape c s Hc) as Hh.
  unfold unicode_escape. rewrite <- app_assoc. revert Hh.
  match goal with |- hex4 ?l = _ -> _ => generalize l end.
  intros l Hl. change (js "\u") with [92; 117]%N. cbn -[hex4].
  by rewrite Hl, Hs.
Qed.

Lemma escape_char_plain (c : N) :
  escape_char c = None -> (c =? dq)%N = false /\ (c =? 92)%N = false
                          /\ (c <? 32)%N = false.
Proof.
  unfold escape_char. intros H.
  do 5 (destruct (c =? _)%N in H; [discriminate H|]).
  do 2 (destruct (c =? _)%N; [discriminate H|]).
  by destruct (c <? 32)%N.
Qed.

Lemma parse_chars_escape (k : nat) (c : N) (e s w r : str) :
  escape_char c = Some e -> parse_chars k s = Some (w, r) ->
  parse_chars (S k) (e ++ s) = Some (c :: w, r).
Proof.
  unfold escape_char. intros He Hs.
  repeat (destruct (c =? _)%N eqn:Hc;
    [ apply N.eqb_eq in Hc; subst c; injection He as <-; simpl; by rewrite Hs
    | clear Hc ]).
  destruct (c <? 32)%N eqn:Hc; [|done]. injection He as <-.
  apply N.ltb_lt in Hc. apply parse_chars_unicode; [lia|done].
Qed.

Lemma parse_chars_plain (k : nat) (c : N) (s w r : str) :
  escape_char c = None -> parse_chars k s = Some (w, r) ->
  parse_chars (S k) (c :: s) = Some (c :: w, r).
Proof.
  intros (Hq & Hb & Hl)%escape_char_plain Hs. cbn [parse_chars].
  by rewrite Hq, Hb, Hl, Hs.
Qed.

Lemma escape_char_surrogate (c : N) :
  is_high_surrogate c = true \/ is_low_surrogate c = true ->
  escape_char c = None /\ (c < 65536)%N.
Proof.
  unfold is_high_surrogate, is_low_surrogate.
  rewrite !andb_true_iff, !N.leb_le. intros H. split; [|lia].
  unfold escape_char, dq.
  repeat (rewrite (proj2 (N.eqb_neq _ _)) by lia).
  by rewrite (proj2 (N.ltb_ge _ _)) by lia.
Qed.

Lemma length_unicode_escape (c : N) : length (unicode_escape c) = 6%nat.
Proof. done. Qed.

Lemma escape_char_len (c : N) (e : str) :
  escape_char c = Some e -> (1 < length e)%nat.
Proof.
  unfold escape_char. intros He.
  repeat (destruct (c =? _)%N; [injection He as <-; vm_compute; lia|]).
  destruct (c <? 32)%N; [|done]. injection He as <-.
  rewrite length_unicode_escape. lia.
Qed.

(** Enough fuel for the body and the closing quote. *)
Lemma parse_chars_quote_body (s r : str) (k : nat) :
  (length (quote_body s) < k)%nat ->
  parse_chars k (quote_body s ++ dq :: r) = Some (s, r).
Proof.
  revert k. remember (length s) as n eqn:Hn. revert s Hn.
  induction (lt_wf n) as [n _ IH]. intros s -> k Hk.
  destruct k as [|k]; [lia|]. destruct s as [|c s]; [done|].
  assert (IHs : forall k', (length (quote_body s) < k')%nat ->
    parse_chars k' (quote_body s ++ dq :: r) = Some (s, r)).
  { intros k'. apply (IH (length s)); simpl; lia || done. }
  cbn [quote_body] in Hk |- *. destruct (escape_char c) as [e|] eqn:He.
  { rewrite <- app_assoc. apply parse_chars_escape with (1 := He).
    apply IHs. rewrite length_app in Hk. apply escape_char_len in He. lia. }
  destruct (is_high_surrogate c) eqn:Hh;
    [|destruct (is_low_surrogate c) eqn:Hl].
  - destruct s as [|d s'].
    + apply (parse_chars_unicode k c (dq :: r) [] r).
      { apply escape_char_surrogate. by left. }
      by destruct k; [simpl in Hk; lia|].
    + destruct (is_low_surrogate d) eqn:Hd.
      * simpl in Hk. destruct k as [|k]; [lia|].
        apply parse_chars_plain; [done|]. apply parse_chars_plain.
        { apply escape_char_surrogate. by right. }
        apply (IH (length s')); simpl; lia || done.
      * rewrite <- app_assoc. rewrite length_app, length_unicode_escape in Hk.
        apply parse_chars_unicode; [|apply IHs; lia].
        apply escape_char_surrogate. by left.
  - rewrite <- app_assoc. rewrite length_app, length_unicode_escape in Hk.
    apply parse_chars_unicode; [|apply IHs; lia].
    apply escape_char_surrogate. by right.
  - simpl in Hk. apply parse_chars_plain; [done|]. apply IHs. lia.
Qed.

Lemma parse_string_quote (s r : str) :
  parse_string (quote s ++ r) = Some (s, r).
Proof.
  unfold quote. rewrite <- !app_assoc. unfold parse_string. cbn [app].
  rewrite N.eqb_refl. cbn [app]. apply parse_chars_quote_body.
  simpl. rewrite !length_app. simpl. lia.
Qed.

Lemma json_parse_quote (s : str) : json_parse (quote s) = Some (JStr s).
Proof.
  unfold json_parse. cbn [parse_value].
  assert (Hq : skip_ws (quote s) = quote s) by done. rewrite Hq.
  pose proof (parse_string_quote s []) as Hp. rewrite app_nil_r in Hp.
  unfold quote at 1. cbn [app]. rewrite N.eqb_refl.
  change (dq :: quote_body s ++ [dq]) with (quote s). by rewrite Hp.
Qed.

(** ** Laws of objects *)

Section ObjectLaws.
Context {A : Type}.
Implicit Types (o : list (str * A)) (k : str) (v : A).

Lemma obj_get_insert k k' v o :
  obj_get k o = None ->
  obj_get k' (obj_insert k v o) = if k' =?s k then Some v else obj_get k' o.
Proof.
  induction o as [|[j w] o IH]; simpl; [done|].
  destruct (str_eqb_spec k j) as [->|Hkj]; [done|]. intros Hk.
  destruct (key_before k j); simpl; [done|].
  destruct (str_eqb_spec k' j) as [->|]; [|by apply IH].
  destruct (str_eqb_spec j k); [congruence|done].
Qed.

Lemma obj_get_update k k' v o :
  is_Some (obj_get k o) ->
  obj_get k' (obj_update k v o) = if k' =?s k then Some v else obj_get k' o.
Proof.
  induction o as [|[j w] o IH]; simpl; [by intros []|].
  destruct (str_eqb_spec k j) as [->|Hkj]; simpl; [by destruct (k' =?s j)|].
  intros Hk. destruct (str_eqb_spec k' j) as [->|]; [|by apply IH].
  destruct (str_eqb_spec j k); [congruence|done].
Qed.

(** Reading after writing. *)
Lemma obj_get_set k k' v o :
  obj_get k' (obj_set k v o) = if k' =?s k then Some v else obj_get k' o.
Proof.
  unfold obj_set. destruct (obj_get k o) eqn:E.
  - apply obj_get_update. by eexists.
  - by apply obj_get_insert.
Qed.

Lemma in_obj_set k v o (kv : str * A) :
  In kv (obj_set k v o) -> kv = (k, v) \/ In kv o.
Proof.
  assert (Hi : In kv (obj_insert k v o) -> kv = (k, v) \/ In kv o).
  { induction o as [|[j w] o IH]; simpl; [by intros [<-|[]]; left|].
    destruct (key_before k j); simpl; [naive_solver|]. intros [<-|H]; naive_solver. }
  unfold obj_set. destruct (obj_get k o); [|done]. clear Hi.
  induction o as [|[j w] o IH]; simpl; [done|].
  destruct (str_eqb_spec k j) as [->|]; simpl; naive_solver.
Qed.

Lemma obj_get_In k v o : obj_get k o = Some v -> In (k, v) o.
Proof.
  induction o as [|[j w] o IH]; simpl; [done|].
  destruct (str_eqb_spec k j) as [->|]; [|auto]. intros [= ->]. by left.
Qed.

Lemma obj_get_None k o : obj_get k o = None <-> ~ In k (obj_keys o).
Proof.
  induction o as [|[j w] o IH]; simpl; [naive_solver|].
  destruct (str_eqb_spec k j) as [->|]; naive_solver.
Qed.

Lemma in_keys_insert k v o j : In j (obj_keys (obj_insert k v o)) -> j = k \/ In j (obj_keys o).
Proof.
  induction o as [|[i w] o IH]; simpl; [naive_solver|].
  destruct (key_before k i); simpl; naive_solver.
Qed.

Lemma keys_update k v o : obj_keys (obj_update k v o) = obj_keys o.
Proof.
  induction o as [|[i w] o IH]; simpl; [done|].
  destruct (k =?s i); simpl; [done|]. by rewrite IH.
Qed.

(** Writing keeps the keys distinct. *)
Lemma NoDup_obj_set k v o :
  List.NoDup (obj_keys o) -> List.NoDup (obj_keys (obj_set k v o)).
Proof.
  intros Hd. unfold obj_set. destruct (obj_get k o) eqn:E.
  { by rewrite keys_update. }
  apply obj_get_None in E. induction o as [|[i w] o IH]; simpl.
  { constructor; [done|constructor]. }
  simpl in E, Hd. inversion_clear Hd as [|? ? Hi Ho].
  destruct (key_before k i); simpl.
  - constructor; [simpl; tauto|]. by constructor.
  - constructor; [|by apply IH; tauto].
    intros [->|Hin]%in_keys_insert; [tauto|done].
Qed.

Lemma obj_get_In_iff k v o :
  List.NoDup (obj_keys o) -> obj_get k o = Some v <-> In (k, v) o.
Proof.
  intros Hd. split; [apply obj_get_In|].
  induction o as [|[j w] o IH]; simpl; [done|].
  simpl in Hd. inversion_clear Hd as [|? ? Hj Ho].
  intros [[= -> ->]|H]; [by rewrite str_eqb_refl|].
  destruct (str_eqb_spec k j) as [->|]; [|auto].
  destruct Hj. apply in_map_iff. by exists (j, v).
Qed.

Lemma obj_set_nonnil k v o : obj_set k v o <> [].
Proof.
  intros H. pose proof (obj_get_set k k v o) as Hg.
  by rewrite H, str_eqb_refl in Hg.
Qed.

(** [Object.fromEntries]: the last entry of a key wins. *)
Lemma obj_from_snoc (l : list (str * A)) (kv : str * A) :
  obj_from (l ++ [kv]) = obj_set (fst kv) (snd kv) (obj_from l).
Proof. unfold obj_from. by rewrite fold_left_app. Qed.

Lemma NoDup_obj_from (l : list (str * A)) : List.NoDup (obj_keys (obj_from l)).
Proof.
  induction l as [|kv l IH] using rev_ind; [constructor|].
  rewrite obj_from_snoc. by apply NoDup_obj_set.
Qed.

Lemma obj_get_from k (l : list (str * A)) :
  obj_get k (obj_from l) = obj_get k (rev l).
Proof.
  induction l as [|[j w] l IH] using rev_ind; [done|].
  rewrite obj_from_snoc, obj_get_set, rev_app_distr. simpl. by rewrite IH.
Qed.

Lemma obj_get_from_nodup k (l : list (str * A)) :
  List.NoDup (obj_keys l) -> obj_get k (obj_from l) = obj_get k l.
Proof.
  intros Hd. rewrite obj_get_from.
  destruct (obj_get k l) as [v|] eqn:E.
  - apply obj_get_In_iff.
    + unfold obj_keys. rewrite map_rev. by apply List.NoDup_rev.
    + apply in_rev. rewrite rev_involutive. by apply obj_get_In.
  - apply obj_get_None in E. apply obj_get_None. unfold obj_keys.
    by rewrite map_rev, <- in_rev.
Qed.

End ObjectLaws.

(** ** Objects: writes and deletions of different keys commute *)

Section ObjectCommute.
Context {A : Type}.
Implicit Types (o : list (str * A)) (k : str) (v : A).

Lemma obj_get_delete k k' o :
  obj_get k' (obj_delete k o) = if k' =?s k then None else obj_get k' o.
Proof.
  unfold obj_delete. induction o as [|[j w] o IH]; simpl; [by destruct (k' =?s k)|].
  destruct (str_eqb_spec k j) as [->|Hkj]; simpl; rewrite IH;
    destruct (str_eqb_spec k' j) as [->|]; try done.
  by destruct (str_eqb_spec j k).
Qed.

Lemma obj_get_update_any k k' v o :
  obj_get k' (obj_update k v o)
  = if (k' =?s k) then (match obj_get k o with Some _ => Some v | None => None end)
    else obj_get k' o.
Proof.
  induction o as [|[j w] o IH]; simpl; [by destruct (k' =?s k)|].
  destruct (str_eqb_spec k j) as [->|Hkj]; simpl; [by destruct (k' =?s j)|].
  rewrite IH. destruct (str_eqb_spec k' j) as [->|]; [|done].
  by destruct (str_eqb_spec j k).
Qed.

Lemma obj_update_update k v v' o : obj_update k v' (obj_update k v o) = obj_update k v' o.
Proof.
  induction o as [|[j w] o IH]; simpl; [done|].
  destruct (k =?s j) eqn:E; simpl; rewrite E; [done|]. by rewrite IH.
Qed.

Lemma obj_update_comm k k' v v' o :
  k <> k' -> obj_update k v (obj_update k' v' o) = obj_update k' v' (obj_update k v o).
Proof.
  intros Hk. induction o as [|[j w] o IH]; simpl; [done|].
  destruct (k =?s j) eqn:E, (k' =?s j) eqn:E'; simpl; rewrite ?E, ?E'; try done.
  - apply str_eqb_eq in E, E'. congruence.
  - by rewrite IH.
Qed.

Lemma obj_insert_update k v v' o :
  obj_get k o = None -> obj_update k v' (obj_insert k v o) = obj_insert k v' o.
Proof.
  induction o as [|[j w] o IH]; simpl; [by rewrite str_eqb_refl|].
  destruct (str_eqb_spec k j) as [->|Hkj]; [done|]. intros Hn.
  destruct (key_before k j); simpl; [by rewrite str_eqb_refl|].
  destruct (str_eqb_spec k j); [done|]. by rewrite IH.
Qed.

Lemma obj_insert_update_comm k k' v v' o :
  k <> k' ->
  obj_update k v (obj_insert k' v' o) = obj_insert k' v' (obj_update k v o).
Proof.
  intros Hk. induction o as [|[j w] o IH]; simpl; [by destruct (str_eqb_spec k k')|].
  destruct (key_before k' j) eqn:E; simpl.
  - destruct (str_eqb_spec k k'); [done|].
    destruct (k =?s j); simpl; by rewrite E.
  - destruct (k =?s j); simpl; rewrite E; [done|]. by rewrite IH.
Qed.

(** The last write to a key wins. *)
Lemma obj_set_set k v v' o : obj_set k v' (obj_set k v o) = obj_set k v' o.
Proof.
  unfold obj_set at 1. rewrite obj_get_set, str_eqb_refl. unfold obj_set.
  destruct (obj_get k o) eqn:E; [apply obj_update_update|by apply obj_insert_update].
Qed.

(** A write to a known key commutes with a write to another key. *)
Lemma obj_set_comm k k' v v' o :
  k <> k' -> is_Some (obj_get k o) ->
  obj_set k v (obj_set k' v' o) = obj_set k' v' (obj_set k v o).
Proof.
  intros Hk [w Hw]. unfold obj_set. rewrite Hw.
  assert (Hg : forall x, obj_get k (match obj_get k' o with
    | Some _ => obj_update k' x o | None => obj_insert k' x o end) = Some w).
  { intros x. pose proof (obj_get_set k' k x o) as H. unfold obj_set in H. rewrite H.
    by destruct (str_eqb_spec k k'). }
  rewrite Hg, obj_get_update_any.
  destruct (str_eqb_spec k' k); [congruence|].
  destruct (obj_get k' o); [by apply obj_update_comm|by apply obj_insert_update_comm].
Qed.

Lemma obj_delete_update k v o : obj_delete k (obj_update k v o) = obj_delete k o.
Proof.
  unfold obj_delete. induction o as [|[j w] o IH]; simpl; [done|].
  destruct (k =?s j) eqn:E; simpl; rewrite E; simpl; [done|]. by rewrite IH.
Qed.

Lemma obj_delete_update_comm k k' v o :
  k <> k' -> obj_delete k (obj_update k' v o) = obj_update k' v (obj_delete k o).
Proof.
  intros Hk. unfold obj_delete. induction o as [|[j w] o IH]; simpl; [done|].
  destruct (str_eqb_spec k' j) as [->|Hkj]; simpl.
  - destruct (str_eqb_spec k j); [done|]. simpl. by rewrite str_eqb_refl.
  - destruct (k =?s j); simpl; [done|]. destruct (str_eqb_spec k' j); [done|]. by rewrite IH.
Qed.

Lemma obj_delete_comm k k' o : obj_delete k (obj_delete k' o) = obj_delete k' (obj_delete k o).
Proof.
  unfold obj_delete. induction o as [|[j w] o IH]; simpl; [done|].
  destruct (k =?s j) eqn:E, (k' =?s j) eqn:E'; simpl; rewrite ?E, ?E'; simpl; by rewrite IH.
Qed.

Lemma obj_delete_id k o : obj_delete k (obj_delete k o) = obj_delete k o.
Proof.
  unfold obj_delete. induction o as [|[j w] o IH]; simpl; [done|].
  destruct (k =?s j) eqn:E; simpl; rewrite ?E; simpl; by rewrite IH.
Qed.

(** A known key splits a map at its only entry. *)
Lemma obj_update_split k v w o :
  obj_get k o = Some w ->
  exists o1 o2, o = o1 ++ (k, w) :: o2 /\ obj_update k v o = o1 ++ (k, v) :: o2
    /\ obj_get k o1 = None.
Proof.
  induction o as [|[j x] o IH]; simpl; [done|].
  destruct (str_eqb_spec k j) as [->|Hkj].
  - intros [= ->]. by exists [], o.
  - intros (o1 & o2 & -> & Hu & Hn)%IH. exists ((j, x) :: o1), o2.
    rewrite Hu. simpl. by destruct (str_eqb_spec k j).
Qed.
End ObjectCommute.

(** A sequence of writes: the last one to a key is what is read. *)
Lemma obj_get_fold_set {A} (k : str) (l o : list (str * A)) :
  obj_get k (fold_left (fun o kv => obj_set (fst kv) (snd kv) o) l o)
  = match obj_get k (rev l) with Some v => Some v | None => obj_get k o end.
Proof.
  revert o; induction l as [|[j w] l IH] using rev_ind; intros o; [done|].
  rewrite fold_left_app, rev_app_distr. simpl. rewrite obj_get_set.
  destruct (k =?s j); [done|]. apply IH.
Qed.

Lemma obj_get_rev {A} (k : str) (l : list (str * A)) :
  List.NoDup (obj_keys l) -> obj_get k (rev l) = obj_get k l.
Proof. intros Hd. by rewrite <- obj_get_from, obj_get_from_nodup. Qed.
