(* ===== verification/JsonRoundTrip.v ===== *)
(** * [JSON.parse] after [JSON.stringify]

    A JSON value whose objects are in the order that [JSON.parse] builds and
    whose numbers read back is read back from its text, and a value without
    numbers also from its indented text. *)

From stdpp Require Import base list.
From Stdlib Require Import ZArith NArith Lia Sorted.
From S2P Require Import Prelude JsString JsNumber JsJson.

Local Open Scope Z_scope.

Section json_nested_ind.
Context (P : json -> Prop)
  (HNull : P JNull) (HBool : forall b, P (JBool b)) (HNum : forall x, P (JNum x))
  (HStr : forall s, P (JStr s)) (HArr : forall l, Forall P l -> P (JArr l))
  (HObj : forall o, Forall (fun kv => P (snd kv)) o -> P (JObj o)).

Fixpoint json_nested_ind (v : json) : P v :=
  match v with
  | JNull => HNull
  | JBool b => HBool b
  | JNum x => HNum x
  | JStr s => HStr s
  | JArr l =>
      HArr l ((fix go l : Forall P l :=
        match l with
        | [] => Forall_nil_2 _
        | x :: l' => Forall_cons_2 _ _ _ (json_nested_ind x) (go l')
        end) l)
  | JObj o =>
      HObj o ((fix go o : Forall (fun kv => P (snd kv)) o :=
        match o with
        | [] => Forall_nil_2 _
        | kv :: o' => Forall_cons_2 _ _ _ (json_nested_ind (snd kv)) (go o')
        end) o)
  end.
End json_nested_ind.

(** What may follow a value: the end of the text, white space or a separator. *)
Definition delim (r : str) : Prop :=
  match r with
  | [] => True
  | c :: _ => is_json_ws c = true \/ c = chr ","%char \/ c = chr "]"%char \/ c = chr "}"%char
  end.

(** The text of a value is neither white space nor the end of an array or an
    object. *)
Definition opens (s : str) : Prop :=
  match s with
  | [] => False
  | c :: _ => is_json_ws c = false /\ (c =? "]"%char)%N = false /\ (c =? "}"%char)%N = false
  end.

(** The text of the number is read back as a number. *)
Definition num_ok (x : num) : Prop := parse_num (stringify_num x) = Some (x, []).

#[warnings="-register-all"]
Inductive json_ok : json -> Prop :=
  | ok_null : json_ok JNull
  | ok_bool b : json_ok (JBool b)
  | ok_num x : num_ok x -> json_ok (JNum x)
  | ok_str s : json_ok (JStr s)
  | ok_arr l : Forall json_ok l -> json_ok (JArr l)
  | ok_obj o : obj_from o = o -> Forall (fun kv => json_ok (snd kv)) o -> json_ok (JObj o).

Definition reads_back (v : json) : Prop :=
  forall k r, delim r -> (2 * length (stringify v) < k)%nat ->
  parse_value k (stringify v ++ r) = Some (v, r).

(** ** Numbers *)

(** The characters of numbers; none of them is a delimiter. *)
Definition num_char (c : N) : bool :=
  is_digit c || (c =? "-"%char)%N || (c =? "+"%char)%N || (c =? "."%char)%N || (c =? "e"%char)%N || (c =? "E"%char)%N.

Lemma delim_num (c : N) (r : str) : delim (c :: r) -> num_char c = false.
Proof.
  intros [H|[->|[->| ->]]]; [|done..]. unfold is_json_ws in H. js_simp.
  repeat (apply orb_true_iff in H as [H|H]); apply N.eqb_eq in H as ->; done.
Qed.

Lemma span_stop {A} (p : A -> bool) (l r : list A) :
  (forall x, head r = Some x -> p x = false) ->
  span p (l ++ r) = (fst (span p l), snd (span p l) ++ r).
Proof.
  intros Hr. induction l as [|x l IH]; cbn [app span].
  - destruct r as [|y r]; [done|]. cbn. by rewrite (Hr y).
  - rewrite IH. destruct (p x); [|done]. by destruct (span p l).
Qed.

Lemma lex_sign_stop (s r : str) : delim r -> lex_sign (s ++ r) = (fst (lex_sign s), snd (lex_sign s) ++ r).
Proof.
  intros Hr. destruct s as [|c s].
  - destruct r as [|c r]; [done|]. apply delim_num in Hr. unfold num_char in Hr. js_simp.
    cbn. repeat (rewrite (proj2 (N.eqb_neq _ _)) by done). done.
  - cbn. by repeat case_match.
Qed.

Lemma digits_stop (r : str) : delim r -> forall x, head r = Some x -> is_digit x = false.
Proof.
  intros Hr x Hx. destruct r as [|c r]; [done|]. injection Hx as ->.
  apply delim_num in Hr. unfold num_char in Hr. by js_simp.
Qed.

Lemma lex_exponent_stop (s r : str) :
  delim r -> lex_exponent (s ++ r) = (fst (lex_exponent s), snd (lex_exponent s) ++ r).
Proof.
  intros Hr. destruct s as [|c s].
  - destruct r as [|c r]; [done|]. apply delim_num in Hr. unfold num_char in Hr. js_simp.
    cbn. repeat (rewrite (proj2 (N.eqb_neq _ _)) by done). done.
  - cbn [app lex_exponent]. destruct (_ || _); [|done].
    rewrite lex_sign_stop by done. destruct (lex_sign s) as [neg s1]. cbn [fst snd].
    rewrite span_stop by by apply digits_stop. destruct (span is_digit s1) as [ds s2]. by destruct ds.
Qed.


Lemma json_minus_stop (s r : str) :
  delim r -> json_minus (s ++ r) = (fst (json_minus s), snd (json_minus s) ++ r).
Proof.
  intros Hr. destruct s as [|c s]; [|cbn; by case_match].
  destruct r as [|c r]; [done|]. apply delim_num in Hr. unfold num_char in Hr. js_simp.
  cbn. by rewrite (proj2 (N.eqb_neq c "-"%char)).
Qed.

Lemma json_int_stop (s r : str) :
  delim r -> json_int (s ++ r) = (fst (json_int s), snd (json_int s) ++ r).
Proof.
  intros Hr. pose proof (digits_stop r Hr) as Hd. destruct s as [|c s].
  - destruct r as [|c r]; [done|]. specialize (Hd c eq_refl). cbn [app json_int].
    destruct (c =? _)%N eqn:E; [apply N.eqb_eq in E; by subst c|]. cbn [span]. by rewrite Hd.
  - cbn [app json_int]. destruct (c =? _)%N; [done|]. apply (span_stop is_digit (c :: s)), Hd.
Qed.

Lemma json_frac_stop (s r : str) :
  delim r -> json_frac (s ++ r) = (fun x => (fst x, snd x ++ r)) <$> json_frac s.
Proof.
  intros Hr. destruct s as [|c s].
  - destruct r as [|c r]; [done|]. apply delim_num in Hr. unfold num_char in Hr. js_simp.
    cbn. by rewrite (proj2 (N.eqb_neq c "."%char)).
  - cbn [app json_frac]. destruct (c =? _)%N; [|done]. rewrite span_stop by by apply digits_stop.
    destruct (span is_digit s) as [[|d ds] s']; done.
Qed.

Lemma json_exp_stop (s r : str) : delim r -> json_exp_ok (s ++ r) = json_exp_ok s.
Proof.
  intros Hr. destruct s as [|c s].
  - destruct r as [|c r]; [done|]. apply delim_num in Hr. unfold num_char in Hr. js_simp.
    cbn. rewrite !(proj2 (N.eqb_neq c _)) by done. done.
  - cbn [app json_exp_ok]. destruct (_ || _); [|done]. rewrite lex_sign_stop by done. cbn [snd].
    rewrite span_stop by by apply digits_stop. by destruct (span is_digit (snd (lex_sign s))) as [[] ?].
Qed.

(** A number in a text ends at a delimiter. *)
Lemma parse_num_stop (s r : str) :
  delim r -> parse_num (s ++ r) = (fun x => (fst x, snd x ++ r)) <$> parse_num s.
Proof.
  intros Hr. unfold parse_num. rewrite json_minus_stop by done.
  destruct (json_minus s) as [neg s0]. cbn [fst snd]. rewrite json_int_stop by done.
  destruct (json_int s0) as [[|d int] s1]; [done|]. cbn [fst snd]. rewrite json_frac_stop by done.
  destruct (json_frac s1) as [[frac s2]|]; [|done]. cbn [fmap option_fmap option_map fst snd].
  rewrite json_exp_stop by done. destruct (json_exp_ok s2); [|done].
  rewrite lex_exponent_stop by done. by destruct (lex_exponent s2).
Qed.


Lemma parse_num_first (c : N) (s : str) (y : num * str) :
  parse_num (c :: s) = Some y -> c = chr "-"%char \/ is_digit c = true.
Proof.
  unfold parse_num. cbn [json_minus]. destruct (c =? "-"%char)%N eqn:E; [left; by apply N.eqb_eq|].
  cbn [json_int]. destruct (c =? "0"%char)%N eqn:E0; [right; by apply N.eqb_eq in E0 as ->|].
  cbn [span]. destruct (is_digit c); [by right|done].
Qed.

Lemma num_ok_reads (x : num) :
  num_ok x -> opens (stringify_num x) /\
  forall k r, delim r -> parse_value (S k) (stringify_num x ++ r) = Some (JNum x, r).
Proof.
  unfold num_ok. intros Hx. destruct (stringify_num x) as [|c s] eqn:E; [done|].
  assert (Hc : (is_json_ws c || (c =? dq) || (c =? "["%char) || (c =? "]"%char) || (c =? "{"%char)
      || (c =? "}"%char) || (c =? "n"%char) || (c =? "t"%char) || (c =? "f"%char))%N = false).
  { destruct (parse_num_first c s _ Hx) as [->|Hd]; [done|].
    unfold is_digit in Hd. apply andb_true_iff in Hd as [H1 H2]. apply N.leb_le in H1, H2.
    unfold is_json_ws, dq. repeat (apply orb_false_iff; split); apply N.eqb_neq; cbv [chr]; vm_compute Ascii.N_of_ascii; lia. }
  js_simp. split; [split_and!; [done|by apply N.eqb_neq..]|].
  intros k r Hr. pose proof (parse_num_stop (c :: s) r Hr) as Hp. rewrite Hx in Hp. cbn [app fmap option_fmap option_map fst snd] in Hp.
  cbn [parse_value app]. unfold skip_ws. cbn [drop_while].
  repeat match goal with H : is_json_ws c = false |- _ => rewrite H; clear H end.
  repeat match goal with |- context [(c =? ?d)%N] => rewrite (proj2 (N.eqb_neq c d)) by done end.
  change (js "null") with (chr "n"%char :: js "ull"). change (js "true") with (chr "t"%char :: js "rue").
  change (js "false") with (chr "f"%char :: js "alse"). cbn [startsWith].
  repeat match goal with |- context [(?d =? c)%N] => rewrite (proj2 (N.eqb_neq d c)) by congruence end.
  cbn [andb]. by rewrite Hp.
Qed.

(** ** Values *)

Lemma parse_value_string (k : nat) (s r : str) :
  parse_value (S k) (quote s ++ r) = Some (JStr s, r).
Proof.
  pose proof (parse_string_quote s r) as Hp. unfold quote in *.
  rewrite <- !app_assoc in *. cbn [app] in *. cbn [parse_value].
  assert (Hq : forall x, skip_ws (dq :: x) = dq :: x) by done. rewrite Hq.
  rewrite N.eqb_refl. by rewrite Hp.
Qed.

Lemma stringify_opens (v : json) : json_ok v -> opens (stringify v).
Proof. intros Hv. by destruct Hv as [|[]|x Hx%num_ok_reads|s|l|o]; try apply Hx. Qed.

Lemma skip_ws_opens (s r : str) : opens s -> skip_ws (s ++ r) = s ++ r.
Proof. destruct s as [|c s]; [done|]. intros (Hw & _). unfold skip_ws. simpl. by rewrite Hw. Qed.

Lemma skip_ws_cons (c : N) (r : str) : is_json_ws c = false -> skip_ws (c :: r) = c :: r.
Proof. intros Hc. unfold skip_ws. simpl. by rewrite Hc. Qed.

(** ** Arrays *)

(** The text of the elements and the closing bracket. *)
Fixpoint elems_text (l : list json) : str :=
  match l with
  | [] => [chr "]"%char]
  | [v] => stringify v ++ [chr "]"%char]
  | v :: l' => stringify v ++ chr ","%char :: elems_text l'
  end.

Lemma stringify_arr (l : list json) : stringify (JArr l) = chr "["%char :: elems_text l.
Proof.
  change (stringify (JArr l)) with
    (chr "["%char :: str_join "," (map stringify l) ++ [chr "]"%char]).
  f_equal. induction l as [|v [|w l] IH]; [done..|].
  cbn [map str_join] in IH |- *. rewrite <- !app_assoc, IH. done.
Qed.

Lemma parse_elems_back (l : list json) (v : json) (acc : list json) (k : nat) (r : str) :
  Forall reads_back (v :: l) -> (2 * length (elems_text (v :: l)) < k)%nat ->
  parse_elems k (elems_text (v :: l) ++ r) acc = Some (JArr (acc ++ v :: l), r).
Proof.
  revert v acc k. induction l as [|w l IH]; intros v acc k Hl Hk;
    (destruct k as [|k]; [lia|]); inversion Hl as [|? ? Hv Hl']; subst.
  - cbn [elems_text] in Hk |- *. rewrite length_app in Hk. simpl in Hk.
    cbn [parse_elems]. rewrite <- app_assoc.
    rewrite Hv; [|by right; right; left|lia]. cbn [app]. by rewrite skip_ws_cons.
  - change (elems_text (v :: w :: l)) with
      (stringify v ++ chr ","%char :: elems_text (w :: l)) in Hk |- *.
    rewrite length_app in Hk. cbn [length] in Hk.
    cbn [parse_elems]. rewrite <- app_assoc.
    rewrite Hv; [|by right; left|lia]. rewrite <- app_comm_cons, skip_ws_cons by done.
    change (chr "," =? chr ",")%N with true. cbv iota.
    rewrite IH; [by rewrite <- app_assoc|done|lia].
Qed.

Lemma arr_reads_back (l : list json) :
  Forall json_ok l -> Forall reads_back l -> reads_back (JArr l).
Proof.
  intros Ho Hl k r Hr Hk. rewrite stringify_arr in Hk |- *. destruct k as [|k]; [lia|].
  cbn [parse_value]. rewrite <- app_comm_cons, skip_ws_cons by done.
  change (chr "[" =? dq)%N with false. change (chr "[" =? chr "[")%N with true. cbv iota.
  destruct l as [|v l].
  - cbn [elems_text app]. by rewrite skip_ws_cons.
  - assert (Hs : opens (elems_text (v :: l))).
    { inversion Ho as [|? ? Hv _]; subst. apply stringify_opens in Hv.
      destruct l; simpl; by destruct (stringify v). }
    rewrite skip_ws_opens by done.
    destruct (elems_text (v :: l)) as [|c t] eqn:Ht; [done|].
    destruct Hs as (_ & Hc & _). cbn [app]. rewrite Hc, app_comm_cons, <- Ht.
    rewrite parse_elems_back; [done|done|]. simpl length in Hk. rewrite Ht. simpl. lia.
Qed.

(** ** Objects *)

Definition member_text (kv : str * json) : str :=
  quote (fst kv) ++ chr ":"%char :: stringify (snd kv).

(** The text of the members and the closing brace. *)
Fixpoint members_text (o : list (str * json)) : str :=
  match o with
  | [] => [chr "}"%char]
  | [kv] => member_text kv ++ [chr "}"%char]
  | kv :: o' => member_text kv ++ chr ","%char :: members_text o'
  end.

Lemma stringify_obj (o : list (str * json)) :
  stringify (JObj o) = chr "{"%char :: members_text o.
Proof.
  change (stringify (JObj o)) with
    (chr "{"%char :: str_join "," (map member_text o) ++ [chr "}"%char]).
  f_equal. induction o as [|v [|w o] IH]; [done..|].
  cbn [map str_join] in IH |- *. rewrite <- !app_assoc, IH. done.
Qed.

Lemma quote_opens (s : str) : opens (quote s).
Proof. done. Qed.

Definition set_all (o acc : list (str * json)) : list (str * json) :=
  fold_left (fun a kv => obj_set (fst kv) (snd kv) a) o acc.

Lemma parse_members_back (o acc : list (str * json)) (kv : str * json) (k : nat) (r : str) :
  Forall (fun kv => reads_back (snd kv)) (kv :: o) ->
  (2 * length (members_text (kv :: o)) < k)%nat ->
  parse_members k (members_text (kv :: o) ++ r) acc = Some (JObj (set_all (kv :: o) acc), r).
Proof.
  revert kv acc k. induction o as [|kv' o IH]; intros [key v] acc k Hl Hk;
    (destruct k as [|k]; [lia|]); inversion Hl as [|? ? Hv Hl']; subst; simpl in Hv.
  - change (members_text [(key, v)]) with (member_text (key, v) ++ [chr "}"%char]) in *.
    unfold member_text in *. cbn [fst snd] in *. rewrite !length_app in Hk. simpl in Hk.
    cbn [parse_members]. rewrite <- !app_assoc.
    rewrite skip_ws_opens, parse_string_quote by done. cbn [app].
    rewrite skip_ws_cons by done. change (chr ":" =? chr ":")%N with true. cbv iota.
    rewrite Hv; [|by right; right; right|lia]. cbn [app].
    by rewrite skip_ws_cons.
  - change (members_text ((key, v) :: kv' :: o)) with
      (member_text (key, v) ++ chr ","%char :: members_text (kv' :: o)) in *.
    unfold member_text at 1 in Hk. unfold member_text at 1.
    cbn [fst snd] in *. rewrite !length_app in Hk. cbn [length] in Hk.
    cbn [parse_members]. rewrite <- !app_assoc.
    rewrite skip_ws_opens, parse_string_quote by done. cbn [app].
    rewrite skip_ws_cons by done. change (chr ":" =? chr ":")%N with true. cbv iota.
    rewrite Hv; [|by right; left|lia]. cbn [app].
    rewrite skip_ws_cons by done. change (chr "," =? chr ",")%N with true. cbv iota.
    rewrite IH; [done|done|lia].
Qed.

Lemma obj_reads_back (o : list (str * json)) :
  obj_from o = o -> Forall (fun kv => reads_back (snd kv)) o -> reads_back (JObj o).
Proof.
  intros Hf Hl k r Hr Hk. rewrite stringify_obj in Hk |- *. destruct k as [|k]; [lia|].
  cbn [parse_value]. rewrite <- app_comm_cons, skip_ws_cons by done.
  change (chr "{" =? dq)%N with false. change (chr "{" =? chr "[")%N with false.
  change (chr "{" =? chr "{")%N with true. cbv iota.
  destruct o as [|kv o].
  - cbn [members_text app]. by rewrite skip_ws_cons.
  - assert (Hs : opens (members_text (kv :: o))) by (by destruct o).
    rewrite skip_ws_opens by done.
    destruct (members_text (kv :: o)) as [|c t] eqn:Ht; [done|].
    destruct Hs as (_ & _ & Hc). cbn [app]. rewrite Hc, app_comm_cons, <- Ht.
    rewrite parse_members_back; [by change (set_all (kv :: o) []) with (obj_from (kv :: o)); rewrite Hf|done|].
    cbn [length] in Hk. rewrite Ht. cbn [length]. lia.
Qed.

Lemma json_reads_back (v : json) : json_ok v -> reads_back v.
Proof.
  induction v as [| b | x | s | l IH | o IH] using json_nested_ind; intros Hv k r Hr Hk.
  - destruct k as [|k]; [lia|]. by destruct r.
  - destruct k as [|k]; [lia|]. by destruct b, r.
  - destruct k as [|k]; [lia|]. inversion Hv as [| |? Hx| | |]; subst. by apply num_ok_reads.
  - destruct k as [|k]; [lia|]. apply parse_value_string.
  - inversion Hv as [| | | |? Hl|]; subst. apply arr_reads_back; [done| |done..].
    rewrite Forall_forall in IH, Hl |- *. eauto.
  - inversion Hv as [| | | | |? Hf Hl]; subst. apply obj_reads_back; [done| |done..].
    rewrite Forall_forall in IH, Hl |- *. eauto.
Qed.

(** A value is read back from its text. *)
Lemma json_roundtrip (v : json) : json_ok v -> json_parse (stringify v) = Some v.
Proof.
  intros Hv. unfold json_parse.
  pose proof (json_reads_back v Hv (S (2 * length (stringify v))) [] I) as H.
  rewrite app_nil_r in H. by rewrite H by lia.
Qed.

Lemma num_zero_ok : num_ok num_zero.
Proof. reflexivity. Qed.

(** ** Objects in the order they are written *)

Lemma obj_insert_plain {A} (k : str) (v : A) (o : list (str * A)) :
  array_index k = None -> obj_insert k v o = o ++ [(k, v)].
Proof.
  intros Hk. induction o as [|[k' v'] o IH]; [done|]. simpl. unfold key_before.
  by rewrite Hk, IH.
Qed.

Lemma obj_set_new {A} (k : str) (v : A) (o : list (str * A)) :
  array_index k = None -> k ∉ obj_keys o -> obj_set k v o = o ++ [(k, v)].
Proof.
  intros Hk Hn. unfold obj_set.
  rewrite (proj2 (obj_get_None k o)); [by apply obj_insert_plain|].
  by rewrite <- list_elem_of_In.
Qed.

Lemma obj_from_plain {A} (o : list (str * A)) :
  Forall (fun k => array_index k = None) (obj_keys o) -> NoDup (obj_keys o) ->
  obj_from o = o.
Proof.
  induction o as [|[k v] o IH] using rev_ind; [done|]. unfold obj_keys.
  rewrite map_app. intros [Hi Hk]%Forall_app (Hn & Hd & _)%NoDup_app.
  rewrite obj_from_snoc, IH by done. apply obj_set_new.
  - by inversion Hk.
  - intros Hin. apply (Hd k Hin). by left.
Qed.

(** An object whose keys are some of a list of distinct names, in its order. *)
Lemma obj_from_sublist {A} (o : list (str * A)) (ks : list str) :
  obj_keys o `sublist_of` ks -> Forall (fun k => array_index k = None) ks -> NoDup ks ->
  obj_from o = o.
Proof.
  intros Hs Hk Hn. apply obj_from_plain; [|by eapply sublist_NoDup].
  rewrite Forall_forall in Hk |- *. intros k Hin. apply Hk. by eapply elem_of_sublist.
Qed.

Lemma obj_get_app {A} (k : str) (a b : list (str * A)) :
  obj_get k (a ++ b) = match obj_get k a with Some v => Some v | None => obj_get k b end.
Proof. induction a as [|[k' v] a IH]; [done|]. cbn. by destruct (k =?s k'). Qed.

(** Comparisons of literals. *)
Ltac literals :=
  repeat match goal with
  | |- context [js ?a =?s js ?b] =>
      let r := eval vm_compute in (js a =?s js b) in change (js a =?s js b) with r
  end; cbn [andb orb negb].

Definition plain_keys (ks : list str) : bool :=
  forallb (fun k => match array_index k with None => true | Some _ => false end) ks &&
  bool_decide (NoDup ks).

(** An object whose keys are some of a list of names, in its order. *)
Lemma plain_object (o : list (str * json)) (ks : list str) :
  obj_keys o `sublist_of` ks -> plain_keys ks = true ->
  Forall (fun kv => json_ok (snd kv)) o -> json_ok (JObj o).
Proof.
  intros Hs Hk Ho. apply andb_true_iff in Hk as [Hk Hn].
  apply bool_decide_eq_true_1 in Hn. constructor; [|done].
  apply (obj_from_sublist o ks); [done| |done].
  rewrite Forall_forall. rewrite forallb_forall in Hk. intros k Hin%list_elem_of_In.
  specialize (Hk k Hin). by destruct (array_index k).
Qed.

(** ** Indented text

    [JSON.stringify(v, null, 2)] puts white space between the tokens. *)

Definition ws (s : str) : Prop := forallb is_json_ws s = true.

Lemma skip_ws_app (w s : str) : ws w -> skip_ws (w ++ s) = skip_ws s.
Proof.
  unfold ws, skip_ws. induction w as [|c w IH]; [done|]. simpl. intros H. js_simp. rewrite H. by apply IH.
Qed.

Lemma parse_value_ws (k : nat) (w s : str) : ws w -> parse_value k (w ++ s) = parse_value k s.
Proof. intros Hw. destruct k as [|k]; [done|]. cbn [parse_value]. by rewrite skip_ws_app. Qed.

Lemma parse_elems_ws (k : nat) (w s : str) acc : ws w -> parse_elems k (w ++ s) acc = parse_elems k s acc.
Proof. intros Hw. destruct k as [|k]; [done|]. cbn [parse_elems]. by rewrite parse_value_ws. Qed.

Lemma parse_members_ws (k : nat) (w s : str) acc :
  ws w -> parse_members k (w ++ s) acc = parse_members k s acc.
Proof. intros Hw. destruct k as [|k]; [done|]. cbn [parse_members]. by rewrite skip_ws_app. Qed.

Lemma ws_newline (ind : str) : ws ind -> ws (newline ++ ind).
Proof. done. Qed.

Lemma ws_deeper (ind : str) : ws ind -> ws (ind ++ "  ").
Proof. unfold ws. intros H. by rewrite forallb_app, H. Qed.

Lemma delim_ws (e r : str) : ws e -> delim r -> delim (e ++ r).
Proof. destruct e as [|c e]; [done|]. unfold ws. cbn. intros He _. js_simp. by left. Qed.

(** The text [t] of [v] is read back. *)
Definition read_from (t : str) (v : json) : Prop :=
  opens t /\ forall k r, delim r -> (2 * length t < k)%nat -> parse_value k (t ++ r) = Some (v, r).

(** Texts separated by a comma and white space [w], closed by [e] and [c]. *)
Fixpoint listed (w e : str) (c : N) (ts : list str) : str :=
  match ts with
  | [] => e ++ [c]
  | [t] => t ++ e ++ [c]
  | t :: ts' => t ++ chr ","%char :: w ++ listed w e c ts'
  end.

Lemma join_listed (w e : str) (c : N) (ts : list str) :
  ts <> [] -> str_join ("," ++ w) ts ++ e ++ [c] = listed w e c ts.
Proof.
  induction ts as [|t [|u ts] IH]; [done|done|]. intros _.
  cbn [str_join]. change (listed w e c (t :: u :: ts)) with (t ++ chr ","%char :: w ++ listed w e c (u :: ts)).
  rewrite <- IH by done. rewrite <- !app_assoc. done.
Qed.

Lemma parse_elems_listed (w e : str) (tvs : list (str * json)) (acc : list json) (k : nat) (r : str) :
  ws w -> ws e -> tvs <> [] -> Forall (fun tv => read_from (fst tv) (snd tv)) tvs ->
  (2 * length (listed w e (chr "]"%char) (map fst tvs)) < k)%nat ->
  parse_elems k (listed w e (chr "]"%char) (map fst tvs) ++ r) acc =
  Some (JArr (acc ++ map snd tvs), r).
Proof.
  intros Hw He. revert acc k. induction tvs as [|[t v] [|tv tvs] IH]; intros acc k Hne Hl Hk; [done| |];
    (destruct k as [|k]; [lia|]); inversion Hl as [|? ? [_ Hv] Hl']; subst; cbn [fst snd] in Hv.
  - cbn [map fst snd listed] in Hk |- *. rewrite !length_app in Hk. simpl in Hk.
    cbn [parse_elems]. rewrite <- !app_assoc. rewrite Hv; [|apply delim_ws; [done|by right; right; left]|lia].
    rewrite skip_ws_app by done. cbn [app]. by rewrite skip_ws_cons.
  - change (listed w e (chr "]"%char) (map fst ((t, v) :: tv :: tvs))) with
      (t ++ chr ","%char :: w ++ listed w e (chr "]"%char) (map fst (tv :: tvs))) in Hk |- *.
    rewrite length_app in Hk. cbn [length] in Hk. rewrite length_app in Hk.
    cbn [parse_elems]. rewrite <- app_assoc, Hv; [|by right; left|lia].
    rewrite <- app_comm_cons, skip_ws_cons by done. change (chr "," =? chr ",")%N with true. cbv iota.
    rewrite <- app_assoc, parse_elems_ws by done.
    rewrite IH; [by rewrite <- app_assoc|done|done|lia].
Qed.

(** The text of a member from the text of its value. *)
Definition member_from (k t : str) : str := quote k ++ chr ":"%char :: chr " "%char :: t.

Lemma parse_members_listed (w e : str) (ktvs : list (str * str * json)) (acc : list (str * json))
    (k : nat) (r : str) :
  ws w -> ws e -> ktvs <> [] -> Forall (fun x => read_from (x.1.2) (snd x)) ktvs ->
  let ts := map (fun x => member_from (x.1.1) (x.1.2)) ktvs in
  (2 * length (listed w e (chr "}"%char) ts) < k)%nat ->
  parse_members k (listed w e (chr "}"%char) ts ++ r) acc =
  Some (JObj (set_all (map (fun x => (x.1.1, snd x)) ktvs) acc), r).
Proof.
  intros Hw He. revert acc k. induction ktvs as [|[[key t] v] [|x ktvs] IH]; intros acc k Hne Hl ts Hk;
    [done| |]; (destruct k as [|k]; [lia|]); inversion Hl as [|? ? [Ho Hv] Hl']; subst; cbn [fst snd] in Hv.
  - subst ts. cbn [map fst snd listed] in Hk |- *. unfold member_from in *.
    rewrite !length_app in Hk. cbn [length] in Hk.
    cbn [parse_members]. rewrite <- !app_assoc.
    rewrite skip_ws_opens, parse_string_quote by done. cbn [app].
    rewrite skip_ws_cons by done. change (chr ":" =? chr ":")%N with true. cbv iota.
    change (chr " " :: t ++ e ++ chr "}" :: r) with ([chr " "%char] ++ t ++ e ++ chr "}" :: r).
    rewrite parse_value_ws by done. rewrite Hv; [|apply delim_ws; [done|by right; right; right]|lia].
    rewrite skip_ws_app by done. cbn [app]. by rewrite skip_ws_cons.
  - subst ts. cbn [map] in Hk |- *.
    change (listed w e (chr "}"%char) (member_from (((key, t), v).1.1) (((key, t), v).1.2) ::
        member_from (x.1.1) (x.1.2) :: map (fun x => member_from (x.1.1) (x.1.2)) ktvs)) with
      (member_from key t ++ chr ","%char :: w ++ listed w e (chr "}"%char)
         (map (fun x => member_from (x.1.1) (x.1.2)) (x :: ktvs))) in Hk |- *.
    unfold member_from at 1 in Hk. unfold member_from at 1.
    rewrite !length_app in Hk. cbn [length] in Hk. rewrite !length_app in Hk.
    cbn [parse_members]. rewrite <- !app_assoc.
    rewrite skip_ws_opens, parse_string_quote by done. cbn [app].
    rewrite skip_ws_cons by done. change (chr ":" =? chr ":")%N with true. cbv iota.
    match goal with |- context [parse_value k (chr " "%char :: ?s)] =>
      change (chr " "%char :: s) with ([chr " "%char] ++ s) end.
    rewrite parse_value_ws by done. rewrite Hv; [|by right; left|lia].
    rewrite skip_ws_cons by done. change (chr "," =? chr ",")%N with true. cbv iota.
    rewrite <- app_assoc, parse_members_ws by done. rewrite IH; [done|done|done|lia].
Qed.

Lemma indent_arr (ind : str) (v : json) (l : list json) :
  stringify_indent ind (JArr (v :: l)) =
  chr "["%char :: (newline ++ ind ++ "  ") ++
    listed (newline ++ ind ++ "  ") (newline ++ ind) (chr "]"%char)
      (map (stringify_indent (ind ++ "  ")) (v :: l)).
Proof.
  rewrite <- join_listed by done. cbn [stringify_indent]. rewrite <- !app_assoc. done.
Qed.

Lemma indent_obj (ind : str) (kv : str * json) (o : list (str * json)) :
  stringify_indent ind (JObj (kv :: o)) =
  chr "{"%char :: (newline ++ ind ++ "  ") ++
    listed (newline ++ ind ++ "  ") (newline ++ ind) (chr "}"%char)
      (map (fun kv => member_from (fst kv) (stringify_indent (ind ++ "  ") (snd kv))) (kv :: o)).
Proof.
  rewrite <- join_listed by done. cbn [stringify_indent]. rewrite <- !app_assoc. done.
Qed.

Lemma listed_opens (w e : str) (c : N) (t : str) (ts : list str) :
  opens t -> opens (listed w e c (t :: ts)).
Proof. destruct t as [|d t]; [done|]. by destruct ts. Qed.

(** After the opening bracket or brace [c] of a text that is not empty. *)
Lemma skip_to_list (w t r : str) : ws w -> opens t -> skip_ws ((w ++ t) ++ r) = t ++ r.
Proof. intros Hw Ht. by rewrite <- app_assoc, skip_ws_app, skip_ws_opens. Qed.

Lemma indent_arr_reads (l : list json) (ind : str) :
  ws ind -> Forall (fun v => forall ind, ws ind -> read_from (stringify_indent ind v) v) l ->
  read_from (stringify_indent ind (JArr l)) (JArr l).
Proof.
  intros Hi Hl. destruct l as [|v l].
  { split; [done|]. intros [|k] r Hd Hk; [lia|]. done. }
  assert (Hi' : ws (ind ++ "  ")) by (by apply ws_deeper).
  set (tvs := map (fun v => (stringify_indent (ind ++ "  ") v, v)) (v :: l)).
  assert (Hts : map fst tvs = map (stringify_indent (ind ++ "  ")) (v :: l)).
  { subst tvs. by rewrite map_map. }
  assert (Hvs : map snd tvs = v :: l) by (subst tvs; rewrite map_map; apply map_id).
  assert (Hr : Forall (fun tv => read_from (fst tv) (snd tv)) tvs).
  { subst tvs. apply Forall_map. eapply Forall_impl; [exact Hl|]. intros x Hx. by apply Hx. }
  rewrite indent_arr, <- Hts. split; [done|]. intros [|k] r Hd Hk; [lia|].
  set (w := newline ++ ind ++ "  ") in *. set (e := newline ++ ind) in *.
  assert (Ho : opens (listed w e (chr "]"%char) (map fst tvs))).
  { subst tvs. cbn [map fst]. apply listed_opens. by inversion Hr as [|? ? [? _]]. }
  cbn [length] in Hk. rewrite length_app in Hk.
  cbn [parse_value]. rewrite <- app_comm_cons, skip_ws_cons by done.
  change (chr "[" =? dq)%N with false. change (chr "[" =? chr "[")%N with true. cbv iota.
  rewrite skip_to_list by done.
  pose proof (parse_elems_listed w e tvs [] k r Hi' Hi ltac:(by subst tvs) Hr) as Hp.
  rewrite Hvs in Hp. rewrite <- app_assoc, parse_elems_ws by done. rewrite Hp by lia.
  destruct (listed w e (chr "]"%char) (map fst tvs)) as [|c t]; [done|].
  destruct Ho as (_ & Hc & _). cbn [app]. by rewrite Hc.
Qed.

Lemma indent_obj_reads (o : list (str * json)) (ind : str) :
  ws ind -> obj_from o = o ->
  Forall (fun kv => forall ind, ws ind -> read_from (stringify_indent ind (snd kv)) (snd kv)) o ->
  read_from (stringify_indent ind (JObj o)) (JObj o).
Proof.
  intros Hi Hf Hl. destruct o as [|kv o].
  { split; [done|]. intros [|k] r Hd Hk; [lia|]. done. }
  assert (Hi' : ws (ind ++ "  ")) by (by apply ws_deeper).
  set (xs := map (fun kv => (fst kv, stringify_indent (ind ++ "  ") (snd kv), snd kv)) (kv :: o)).
  assert (Hts : map (fun x => member_from (x.1.1) (x.1.2)) xs =
    map (fun kv => member_from (fst kv) (stringify_indent (ind ++ "  ") (snd kv))) (kv :: o)).
  { subst xs. by rewrite map_map. }
  assert (Hvs : map (fun x => (x.1.1, snd x)) xs = kv :: o).
  { subst xs. rewrite map_map. rewrite <- (map_id (kv :: o)) at 2. apply map_ext. by intros []. }
  assert (Hr : Forall (fun x => read_from (x.1.2) (snd x)) xs).
  { subst xs. apply Forall_map. eapply Forall_impl; [exact Hl|]. intros x Hx. by apply Hx. }
  rewrite indent_obj, <- Hts. split; [done|]. intros [|k] r Hd Hk; [lia|].
  set (w := newline ++ ind ++ "  ") in *. set (e := newline ++ ind) in *.
  set (ts := map (fun x => member_from (x.1.1) (x.1.2)) xs) in *.
  assert (Ho : opens (listed w e (chr "}"%char) ts)).
  { rewrite Hts. cbn [map]. apply listed_opens. done. }
  cbn [length] in Hk. rewrite length_app in Hk.
  cbn [parse_value]. rewrite <- app_comm_cons, skip_ws_cons by done.
  change (chr "{" =? dq)%N with false. change (chr "{" =? chr "[")%N with false.
  change (chr "{" =? chr "{")%N with true. cbv iota.
  rewrite skip_to_list by done.
  pose proof (parse_members_listed w e xs [] k r Hi' Hi ltac:(by subst xs) Hr) as Hp.
  cbv zeta in Hp. fold ts in Hp. rewrite Hvs in Hp. change (set_all (kv :: o) []) with (obj_from (kv :: o)) in Hp.
  rewrite Hf in Hp. rewrite <- app_assoc, parse_members_ws by done. rewrite Hp by lia.
  destruct (listed w e (chr "}"%char) ts) as [|c t]; [done|].
  destruct Ho as (_ & _ & Hc). cbn [app]. by rewrite Hc.
Qed.

Lemma indent_reads (v : json) (ind : str) :
  json_ok v -> ws ind -> read_from (stringify_indent ind v) v.
Proof.
  intros Hv. revert ind. induction v as [| b | x | s | l IH | o IH] using json_nested_ind; intros ind Hi.
  - split; [done|]. intros [|k] r Hd Hk; [lia|]. by destruct r.
  - split; [by destruct b|]. intros [|k] r Hd Hk; [lia|]. by destruct b, r.
  - inversion Hv as [| |? Hx| | |]; subst. apply num_ok_reads in Hx as [Ho Hx]. split; [done|].
    intros [|k] r Hd Hk; [lia|]. by apply Hx.
  - split; [done|]. intros [|k] r Hd Hk; [lia|]. apply parse_value_string.
  - inversion Hv as [| | | |? Hl|]; subst. apply indent_arr_reads; [done|].
    rewrite Forall_forall in IH, Hl |- *. auto.
  - inversion Hv as [| | | | |? Hf Hl]; subst. apply indent_obj_reads; [done|done|].
    rewrite Forall_forall in IH, Hl |- *. auto.
Qed.

(** A value is read back from its indented text. *)
Lemma json_roundtrip_indent (v : json) :
  json_ok v -> json_parse (stringify_indent [] v) = Some v.
Proof.
  intros Hv. destruct (indent_reads v [] Hv eq_refl) as [_ H]. unfold json_parse.
  pose proof (H (S (2 * length (stringify_indent [] v))) [] I) as Hp.
  rewrite app_nil_r in Hp. by rewrite Hp by (done || lia).
Qed.

(** ** The text of a value has no white space around it *)

Lemma span_split {A} (p : A -> bool) (l : list A) :
  l = fst (span p l) ++ snd (span p l) /\ forallb p (fst (span p l)) = true.
Proof.
  induction l as [|x l [IH1 IH2]]; [done|]. cbn. destruct (p x) eqn:E; [|done].
  destruct (span p l) as [a b]. cbn in *. rewrite E. by subst l.
Qed.

(** [r] is what is left of [s] after characters of numbers. *)
Definition after_num (s r : str) : Prop := exists t, s = t ++ r /\ forallb num_char t = true.

Lemma after_num_refl (s : str) : after_num s s.
Proof. by exists []. Qed.

Lemma after_num_trans (a b c : str) : after_num a b -> after_num b c -> after_num a c.
Proof.
  intros (t & -> & Ht) (u & -> & Hu). exists (t ++ u). rewrite forallb_app, Ht, Hu. by rewrite app_assoc.
Qed.

Lemma after_num_cons (c : N) (s r : str) : num_char c = true -> after_num s r -> after_num (c :: s) r.
Proof. intros Hc (t & -> & Ht). exists (c :: t). cbn. by rewrite Hc. Qed.

Lemma digit_num_char (c : N) : is_digit c = true -> num_char c = true.
Proof. intros H. unfold num_char. by rewrite H. Qed.

Lemma after_digits (s : str) : after_num s (snd (span is_digit s)).
Proof.
  destruct (span_split is_digit s) as [H1 H2]. exists (fst (span is_digit s)). split; [done|].
  eapply forallb_impl; [|exact H2]. apply digit_num_char.
Qed.

Lemma after_sign (s : str) : after_num s (snd (lex_sign s)).
Proof.
  destruct s as [|c s]; [apply after_num_refl|]. cbn.
  destruct (c =? "-"%char)%N eqn:E; [apply N.eqb_eq in E as ->; by apply after_num_cons, after_num_refl|].
  destruct (c =? "+"%char)%N eqn:E'; [apply N.eqb_eq in E' as ->; by apply after_num_cons, after_num_refl|].
  apply after_num_refl.
Qed.

Lemma after_exponent (s : str) : after_num s (snd (lex_exponent s)).
Proof.
  destruct s as [|c s]; [apply after_num_refl|]. cbn [lex_exponent].
  destruct (_ || _) eqn:E; [|apply after_num_refl].
  pose proof (after_sign s) as H1. destruct (lex_sign s) as [neg s1]. cbn [fst snd] in H1.
  pose proof (after_digits s1) as H2. destruct (span is_digit s1) as [[|d ds] s2]; [apply after_num_refl|].
  cbn [snd] in *. apply after_num_cons; [|by eapply after_num_trans].
  apply orb_true_iff in E as [E|E]; apply N.eqb_eq in E as ->; done.
Qed.

(** What [parse_num] consumes are characters of numbers. *)
Lemma parse_num_chars (s r : str) (x : num) : parse_num s = Some (x, r) -> after_num s r.
Proof.
  unfold parse_num. destruct (json_minus s) as [neg s0] eqn:Em.
  destruct (json_int s0) as [[|d int] s1] eqn:Ei; [done|].
  destruct (json_frac s1) as [[frac s2]|] eqn:Ef; [|done]. destruct (json_exp_ok s2); [|done].
  pose proof (after_exponent s2) as He. destruct (lex_exponent s2) as [e s3]. intros [= _ <-].
  apply after_num_trans with s0; [|apply after_num_trans with s1; [|apply after_num_trans with s2; [|exact He]]].
  - destruct s as [|c s]; cbn in Em; [injection Em as <- <-; apply after_num_refl|].
    destruct (c =? _)%N eqn:E; injection Em as <- <-; [|apply after_num_refl].
    apply N.eqb_eq in E as ->. by apply after_num_cons, after_num_refl.
  - destruct s0 as [|c s0]; [done|]. cbn [json_int] in Ei. destruct (c =? _)%N eqn:E.
    + injection Ei as <- _ <-. apply N.eqb_eq in E as ->. by apply after_num_cons, after_num_refl.
    + pose proof (after_digits (c :: s0)) as H. by rewrite Ei in H.
  - destruct s1 as [|c s1]; cbn in Ef; [injection Ef as <- <-; apply after_num_refl|].
    destruct (c =? _)%N eqn:E; [|injection Ef as <- <-; apply after_num_refl].
    pose proof (after_digits s1) as H. destruct (span is_digit s1) as [[|f fs] r']; [done|].
    injection Ef as <- <-. apply N.eqb_eq in E as ->. by apply after_num_cons.
Qed.

Lemma num_char_ws (c : N) : num_char c = true -> negb (is_ws c) = true.
Proof.
  unfold num_char. intros H. repeat (apply orb_true_iff in H as [H|H]);
    [by apply digit_not_ws|apply N.eqb_eq in H as ->; done..].
Qed.

Lemma stringify_trimmed (v : json) : json_ok v -> trimmed (stringify v).
Proof.
  intros Hv. destruct Hv as [|[]|x Hx|s|l Hl|o Ho Hl]; try (by apply trimmed_nows).
  - destruct (parse_num_chars _ _ _ Hx) as (t & Ht & Hc). rewrite app_nil_r in Ht.
    change (stringify (JNum x)) with (stringify_num x). rewrite Ht. apply trimmed_nows.
    eapply forallb_impl; [|exact Hc]. apply num_char_ws.
  - change (stringify (JStr s)) with ([dq] ++ quote_body s ++ [dq]). apply trimmed_ends; try done; by apply trimmed_nows.
  - change (stringify (JArr l)) with ("[" ++ str_join "," (map stringify l) ++ "]"). apply trimmed_ends; try done; by apply trimmed_nows.
  - change (stringify (JObj o)) with ("{" ++ str_join "," (map member_text o) ++ "}"). apply trimmed_ends; try done; by apply trimmed_nows.
Qed.

(** ** The order of properties

    An object keeps its integer keys in ascending order before the others; an
    object that a program built is the object that its entries build. *)

Definition key_rank (k : str) : Z := match array_index k with Some a => a | None => 4294967295 end.

Lemma array_index_bound (k : str) (a : Z) : array_index k = Some a -> a < 4294967295.
Proof.
  unfold array_index. destruct k; [done|]. destruct (forallb _ _); [|done]. cbv zeta.
  destruct (_ <? _) eqn:E; [|done]. cbn [andb]. destruct (_ =?s _); [|done]. intros [= <-]. lia.
Qed.

Lemma key_before_rank (k k' : str) : key_before k k' = (key_rank k <? key_rank k').
Proof.
  unfold key_before, key_rank. destruct (array_index k) as [a|] eqn:E, (array_index k') as [b|] eqn:E'; try done.
  - apply array_index_bound in E. symmetry. lia.
  - apply array_index_bound in E'. symmetry. lia.
Qed.

Definition key_order {A} (o : list (str * A)) : Prop :=
  NoDup (map fst o) /\ StronglySorted (fun a b => key_rank a <= key_rank b) (map fst o).

Lemma StronglySorted_sublist {A} (R : A -> A -> Prop) (l k : list A) :
  l `sublist_of` k -> StronglySorted R k -> StronglySorted R l.
Proof.
  induction 1 as [|x l k Hs IH|x l k Hs IH]; [done|intros Hk..]; inversion Hk as [|? ? Hk' Hf]; subst; [|auto].
  constructor; [auto|]. rewrite List.Forall_forall in Hf |- *. intros y Hy. apply Hf, list_elem_of_In.
  eapply elem_of_submseteq; [by apply list_elem_of_In|by apply sublist_submseteq].
Qed.

Lemma map_fst_sublist {A B} (o p : list (A * B)) : o `sublist_of` p -> map fst o `sublist_of` map fst p.
Proof. induction 1; cbn; by constructor. Qed.

Lemma key_order_sublist {A} (o p : list (str * A)) : o `sublist_of` p -> key_order p -> key_order o.
Proof.
  intros Hs%map_fst_sublist [Hd Ho]. split; [by eapply sublist_NoDup|by eapply StronglySorted_sublist].
Qed.

Lemma obj_delete_order {A} (k : str) (o : list (str * A)) : key_order o -> key_order (obj_delete k o).
Proof.
  apply key_order_sublist. unfold obj_delete. induction o as [|kv o IH]; cbn; [done|]. destruct (negb _); by constructor.
Qed.

Lemma obj_update_order {A} (k : str) (v : A) (o : list (str * A)) : key_order o -> key_order (obj_update k v o).
Proof. unfold key_order. change (map fst (obj_update k v o)) with (obj_keys (obj_update k v o)). by rewrite keys_update. Qed.

Lemma obj_insert_keys {A} (k : str) (v : A) (o : list (str * A)) : map fst (obj_insert k v o) ≡ₚ k :: map fst o.
Proof. induction o as [|[j w] o IH]; cbn; [done|]. destruct (key_before k j); cbn; [done|]. rewrite IH. constructor. Qed.

Lemma obj_insert_order {A} (k : str) (v : A) (o : list (str * A)) :
  obj_get k o = None -> key_order o -> key_order (obj_insert k v o).
Proof.
  intros Hk [Hd Ho]. split.
  - rewrite obj_insert_keys. constructor; [|done]. intros Hin. apply obj_get_None in Hk. apply Hk. by apply list_elem_of_In.
  - clear Hk Hd. induction o as [|[j w] o IH]; cbn; [repeat constructor|]. inversion Ho as [|? ? Ho' Hf]; subst.
    rewrite key_before_rank. destruct (Z.ltb_spec (key_rank k) (key_rank j)) as [Hlt|Hge]; cbn.
    + constructor; [done|]. constructor; [lia|]. eapply List.Forall_impl; [|exact Hf]. cbn. intros. lia.
    + constructor; [by apply IH|]. rewrite List.Forall_forall in Hf |- *. intros x Hx.
      apply list_elem_of_In in Hx. rewrite obj_insert_keys in Hx. apply elem_of_cons in Hx as [->|Hx]; [done|].
      apply Hf. by apply list_elem_of_In.
Qed.

Lemma obj_set_order {A} (k : str) (v : A) (o : list (str * A)) : key_order o -> key_order (obj_set k v o).
Proof. intros Ho. unfold obj_set. destruct (obj_get k o) eqn:E; [by apply obj_update_order|by apply obj_insert_order]. Qed.

Lemma obj_from_order {A} (o : list (str * A)) : obj_from o = o <-> key_order o.
Proof.
  split.
  - intros <-. unfold obj_from. assert (H : key_order (@nil (str * A))) by (split; constructor). revert H.
    generalize (@nil (str * A)). induction o as [|[k v] o IH]; intros acc Hacc; [done|]. cbn. by apply IH, obj_set_order.
  - induction o as [|[k v] o IH] using rev_ind; [done|]. intros Ho. rewrite obj_from_snoc. rewrite IH.
    + destruct Ho as [Hd Hs]. rewrite map_app in Hd, Hs. apply NoDup_app in Hd as (_ & Hk & _).
      cbn [fst snd]. unfold obj_set. destruct (obj_get k o) as [w|] eqn:E.
      { exfalso. apply obj_get_In in E. apply (Hk k); [|by left]. apply list_elem_of_In. by apply (in_map fst) in E. }
      assert (Hle : Forall (fun j => key_rank j <= key_rank k) (map fst o)).
      { clear -Hs. induction (map fst o) as [|j l IH]; [constructor|]. cbn in Hs. inversion Hs as [|? ? Hs' Hf]; subst.
        constructor; [|by apply IH]. rewrite List.Forall_forall in Hf. apply Hf. apply in_or_app. right. by left. }
      clear -Hle. induction o as [|[j w] o IH]; cbn; [done|]. inversion Hle; subst. rewrite key_before_rank.
      destruct (Z.ltb_spec (key_rank k) (key_rank j)); [cbn in *; lia|]. by rewrite IH.
    + eapply key_order_sublist; [|exact Ho]. apply sublist_inserts_r. done.
Qed.

Lemma json_ok_set (k : str) (v : json) (o : list (str * json)) :
  json_ok (JObj o) -> json_ok v -> json_ok (JObj (obj_set k v o)).
Proof.
  intros Ho Hv. inversion Ho as [| | | | |? Hf Hvs]; subst. constructor.
  - apply obj_from_order, obj_set_order, obj_from_order, Hf.
  - rewrite List.Forall_forall in Hvs |- *. intros kv Hin. apply in_obj_set in Hin as [->|Hin]; [done|by apply Hvs].
Qed.

Lemma json_ok_delete (k : str) (o : list (str * json)) : json_ok (JObj o) -> json_ok (JObj (obj_delete k o)).
Proof.
  intros Ho. inversion Ho as [| | | | |? Hf Hvs]; subst. constructor.
  - apply obj_from_order, obj_delete_order, obj_from_order, Hf.
  - rewrite List.Forall_forall in Hvs |- *. intros kv Hin. apply filter_In in Hin as [Hin _]. by apply Hvs.
Qed.

(** Writing what is there, and deleting what is not, changes nothing. *)
Lemma obj_set_same {A} (k : str) (v : A) (o : list (str * A)) : obj_get k o = Some v -> obj_set k v o = o.
Proof.
  intros H. unfold obj_set. rewrite H. induction o as [|[j w] o IH]; [done|]. cbn in *.
  destruct (str_eqb_spec k j) as [->|]; [by injection H as ->|]. by rewrite IH.
Qed.
