(* ===== verification/AdvancedCustom.v ===== *)
(** * Advanced custom channels

    Models [src/web/src/features/channels/lib/advanced-custom.ts]: the routes of
    a channel that forwards requests by path and model.  A configuration is read
    from JSON text, normalized, validated and written back; the editor replaces
    the routes for management and for forwarding separately.

    [new URL] is the browser's: whether it accepts a text as a URL with a host
    and the protocol http or https is a parameter.  The converter and the type
    of authentication of a route are texts, because they come from JSON; the
    validation rejects those that are not registered.

    The laws are in [AdvancedCustomLaws]. *)

From stdpp Require Import base list gmap.
From Stdlib Require Import ZArith NArith Lia.
From S2P Require Import Prelude JsString JsArray JsNumber JsJson.

Local Open Scope Z_scope.

(** ** Data *)

Record AdvancedCustomRouteAuth : Type := MkRouteAuth {
  auth_type : option str;
  auth_name : option str;
  auth_value : option str;
}.

Record AdvancedCustomRoute : Type := MkRoute {
  incoming_path : option str;
  upstream_path : option str;
  converter : option str;
  models : option (list str);
  route_auth : option AdvancedCustomRouteAuth;
}.

Record AdvancedCustomConfig : Type := MkCustomConfig {
  advanced_routes : option (list AdvancedCustomRoute);
}.

Definition ADVANCED_CUSTOM_MODEL_LIST_PATH : str := js "/v1/models".
Definition ADVANCED_CUSTOM_MODEL_LIST_LABEL : str := js "OpenAI Models".
Definition ADVANCED_CUSTOM_BALANCE_PATH : str := js "/v1/dashboard/billing/credit_grants".
Definition ADVANCED_CUSTOM_BALANCE_LABEL : str := js "Balance Query".

Record ConverterOption : Type := MkConverterOption {
  co_value : str;
  co_label : str;
  co_triggerLabel : str;
}.

Definition ADVANCED_CUSTOM_CONVERTER_OPTIONS : list ConverterOption :=
  [MkConverterOption (js "none") (js "Native forwarding") (js "Native forwarding");
   MkConverterOption (js "anthropic_messages_to_openai_chat_completions")
     (js "Anthropic Messages to OpenAI Chat") (js "To OpenAI Chat");
   MkConverterOption (js "openai_chat_completions_to_anthropic_messages")
     (js "OpenAI Chat to Anthropic Messages") (js "To Anthropic Messages");
   MkConverterOption (js "openai_chat_completions_to_openai_responses")
     (js "OpenAI Chat to OpenAI Responses") (js "To OpenAI Responses");
   MkConverterOption (js "openai_responses_to_openai_chat_completions")
     (js "OpenAI Responses to OpenAI Chat") (js "To OpenAI Chat");
   MkConverterOption (js "openai_responses_to_gemini_generate_content")
     (js "OpenAI Responses to Gemini Generate Content") (js "To Gemini Generate Content");
   MkConverterOption (js "gemini_generate_content_to_openai_chat_completions")
     (js "Gemini Generate Content to OpenAI Chat") (js "To OpenAI Chat");
   MkConverterOption (js "openai_chat_completions_to_gemini_generate_content")
     (js "OpenAI Chat to Gemini Generate Content") (js "To Gemini Generate Content")].

Inductive AdvancedCustomAuthMode : Type := ModeDefault | ModeNone | ModeHeader | ModeQuery.

Definition ADVANCED_CUSTOM_AUTH_MODE_OPTIONS : list (AdvancedCustomAuthMode * str) :=
  [(ModeDefault, js "Default Bearer"); (ModeNone, js "No Auth"); (ModeHeader, js "Header");
   (ModeQuery, js "Query")].

(** Paths that are offered, with their labels. *)
Definition ADVANCED_CUSTOM_INCOMING_PATH_OPTIONS : list (str * str) :=
  [(js "/v1/chat/completions", js "OpenAI Chat");
   (js "/v1/responses", js "OpenAI Responses");
   (js "/v1/responses/compact", js "OpenAI Responses Compact");
   (js "/v1/alpha/search", js "Codex Alpha Search");
   (js "/v1/embeddings", js "OpenAI Embeddings");
   (js "/v1/images/generations", js "OpenAI Image Generations");
   (js "/v1/images/edits", js "OpenAI Image Edits");
   (js "/v1/completions", js "OpenAI Completions");
   (js "/v1/audio/speech", js "OpenAI Audio Speech");
   (js "/v1/audio/transcriptions", js "OpenAI Audio Transcriptions");
   (js "/v1/audio/translations", js "OpenAI Audio Translations");
   (js "/v1/rerank", js "Rerank");
   (js "/v1/realtime", js "OpenAI Realtime");
   (js "/v1/messages", js "Claude Messages");
   (js "/v1beta/models/{model}:generateContent", js "Gemini Generate Content");
   (js "/v1beta/models/{model}:embedContent", js "Gemini Embed Content");
   (js "/v1beta/models/{model}:batchEmbedContents", js "Gemini Batch Embed Contents")].

Definition ADVANCED_CUSTOM_ROUTE_SUMMARY_LABELS : list (str * str) :=
  [(js "/v1/chat/completions", js "OpenAI Chat");
   (ADVANCED_CUSTOM_MODEL_LIST_PATH, ADVANCED_CUSTOM_MODEL_LIST_LABEL);
   (ADVANCED_CUSTOM_BALANCE_PATH, ADVANCED_CUSTOM_BALANCE_LABEL)].

Record AdvancedCustomValidationError : Type := ValidationError {
  ve_message : str;
  ve_routeIndex : option nat;
}.

Definition ADVANCED_CUSTOM_MODEL_REGEX_PREFIX : str := js "re:".

Inductive AdvancedCustomModelRuleKind : Type := ExactRule | RegexRule.

Definition openAIChatPath : str := js "/v1/chat/completions".
Definition openAIResponsesPath : str := js "/v1/responses".
Definition claudeMessagesPath : str := js "/v1/messages".
Definition geminiGenerateContentPath : str := js "/v1beta/models/{model}:generateContent".

Definition bearerHeaderAuth : AdvancedCustomRouteAuth :=
  MkRouteAuth (Some (js "header")) (Some (js "Authorization")) (Some (js "Bearer {api_key}")).

Definition apiKeyHeaderAuth : AdvancedCustomRouteAuth :=
  MkRouteAuth (Some (js "header")) (Some (js "x-api-key")) (Some (js "{api_key}")).

Definition geminiQueryAuth : AdvancedCustomRouteAuth :=
  MkRouteAuth (Some (js "query")) (Some (js "key")) (Some (js "{api_key}")).

(** ** Templates *)

Definition native_route (a : AdvancedCustomRouteAuth) (path : str) : AdvancedCustomRoute :=
  MkRoute (Some path) (Some path) (Some (js "none")) None (Some a).

Definition createOpenAINativeRoutes : list AdvancedCustomRoute :=
  map (native_route bearerHeaderAuth)
    [js "/v1/chat/completions"; js "/v1/completions"; js "/v1/responses";
     js "/v1/responses/compact"; js "/v1/embeddings"; js "/v1/images/generations";
     js "/v1/images/edits"; js "/v1/audio/speech"; js "/v1/audio/transcriptions";
     js "/v1/audio/translations"; js "/v1/realtime"].

Definition createClaudeNativeRoutes : list AdvancedCustomRoute :=
  [native_route apiKeyHeaderAuth (js "/v1/messages")].

Definition createGeminiNativeRoutes : list AdvancedCustomRoute :=
  map (native_route geminiQueryAuth)
    [js "/v1beta/models/{model}:generateContent"; js "/v1beta/models/{model}:embedContent";
     js "/v1beta/models/{model}:batchEmbedContents"].

Definition createGatewayNativeRoutes : list AdvancedCustomRoute :=
  map (native_route bearerHeaderAuth) [js "/v1/alpha/search"; js "/v1/rerank"].

Record AdvancedCustomTemplateOption : Type := MkTemplate {
  to_value : str;
  to_label : str;
  to_config : AdvancedCustomConfig;
}.

Definition all_protocols : AdvancedCustomTemplateOption :=
  MkTemplate (js "all_protocols") (js "All routes")
    (MkCustomConfig (Some (createOpenAINativeRoutes ++ createClaudeNativeRoutes ++
       createGeminiNativeRoutes ++ createGatewayNativeRoutes))).

Definition ADVANCED_CUSTOM_TEMPLATE_OPTIONS : list AdvancedCustomTemplateOption :=
  [all_protocols;
   MkTemplate (js "openai_only") (js "OpenAI only")
     (MkCustomConfig (Some createOpenAINativeRoutes));
   MkTemplate (js "claude_only") (js "Claude only")
     (MkCustomConfig (Some createClaudeNativeRoutes));
   MkTemplate (js "gemini_only") (js "Gemini only")
     (MkCustomConfig (Some createGeminiNativeRoutes))].

(** [getAdvancedCustomTemplateConfig]; the clone of a value is the value. *)
Definition getAdvancedCustomTemplateConfig (templateKey : str) : AdvancedCustomConfig :=
  to_config (nullish (find (fun o => to_value o =?s templateKey) ADVANCED_CUSTOM_TEMPLATE_OPTIONS)
               all_protocols).

(** ** Normalization *)

Definition getAdvancedCustomRouteUpstreamPath (r : AdvancedCustomRoute) : str :=
  trim (ostr_or (upstream_path r) []).

Definition normalizeAdvancedCustomRouteModels (ms : option (list str)) : list str :=
  match ms with
  | None => []
  | Some l => filter_truthy (map trim l)
  end.

Definition normalizeAdvancedCustomRoute (r : AdvancedCustomRoute) : AdvancedCustomRoute :=
  let ms := normalizeAdvancedCustomRouteModels (models r) in
  MkRoute (Some (ostr_or (incoming_path r) []))
    (Some (getAdvancedCustomRouteUpstreamPath r))
    (Some (ostr_or (converter r) "none"))
    (match ms with [] => None | _ => Some ms end)
    (match route_auth r with
     | Some a => Some (MkRouteAuth (auth_type a) (Some (ostr_or (auth_name a) []))
                         (Some (ostr_or (auth_value a) [])))
     | None => None
     end).

(** The routes of a normalized configuration. *)
Definition normalized_routes (c : AdvancedCustomConfig) : list AdvancedCustomRoute :=
  match advanced_routes c with
  | Some rs => map normalizeAdvancedCustomRoute rs
  | None => []
  end.

Definition normalizeAdvancedCustomConfig (c : AdvancedCustomConfig) : AdvancedCustomConfig :=
  MkCustomConfig (Some (normalized_routes c)).

(** [route.incoming_path?.trim() || '']. *)
Definition route_path (r : AdvancedCustomRoute) : str :=
  match incoming_path r with Some p => trim p | None => [] end.

Definition parseAdvancedCustomRouteModels (value : str) : list str :=
  dedupe (filter_truthy (map trim (split_char (chr ",") value))).

Definition getAdvancedCustomModelRuleKind (modelRule : str) : AdvancedCustomModelRuleKind :=
  if startsWith modelRule ADVANCED_CUSTOM_MODEL_REGEX_PREFIX then RegexRule else ExactRule.

Definition getAdvancedCustomRegexModelPattern (modelRule : str) : str :=
  slice_from modelRule (strlen ADVANCED_CUSTOM_MODEL_REGEX_PREFIX).

(** ** Management routes *)

Definition isAdvancedCustomManagementPath (path : str) : bool :=
  (path =?s ADVANCED_CUSTOM_MODEL_LIST_PATH) || (path =?s ADVANCED_CUSTOM_BALANCE_PATH).

Definition getAdvancedCustomManagementRoute (c : AdvancedCustomConfig) (path : str)
    : option AdvancedCustomRoute :=
  find (fun r => bool_decide (option_map trim (incoming_path r) = Some path)) (normalized_routes c).

Definition replaceAdvancedCustomManagementRoute (c : AdvancedCustomConfig) (path : str)
    (route : option AdvancedCustomRoute) : AdvancedCustomConfig :=
  let routes := normalized_routes c in
  let index :=
    findIndex (fun r => bool_decide (option_map trim (incoming_path r) = Some path)) routes in
  MkCustomConfig (Some
    match route with
    | None => match index with Some i => delete i routes | None => routes end
    | Some r =>
        let managementRoute :=
          MkRoute (Some path) (Some (ostr_or (upstream_path r) [])) (Some (js "none"))
            (Some []) (route_auth r) in
        match index with
        | Some i => <[i := managementRoute]> routes
        | None => routes ++ [managementRoute]
        end
    end).

Definition is_management (r : AdvancedCustomRoute) : bool :=
  isAdvancedCustomManagementPath (route_path r).

Definition replaceAdvancedCustomForwardingRoutes (c : AdvancedCustomConfig)
    (forwardingRoutes : list AdvancedCustomRoute) : AdvancedCustomConfig :=
  let routes := normalized_routes c in
  let managementRoutes := List.filter is_management routes in
  MkCustomConfig (Some
    match findIndex (fun r => negb (is_management r)) routes with
    | None => managementRoutes ++ forwardingRoutes
    | Some i =>
        let before := List.filter is_management (slice routes 0 (Z.of_nat i)) in
        let after := List.filter is_management (slice_from routes (Z.of_nat i)) in
        before ++ forwardingRoutes ++ after
    end).

Definition createAdvancedCustomRoute : AdvancedCustomRoute :=
  MkRoute (Some openAIChatPath) (Some openAIChatPath) (Some (js "none")) None None.

Definition createAdvancedCustomConfig : AdvancedCustomConfig :=
  MkCustomConfig (Some [createAdvancedCustomRoute]).

Definition createAdvancedCustomManagementRoute (path : str) : AdvancedCustomRoute :=
  MkRoute (Some path) (Some path) (Some (js "none")) (Some []) None.

(** ** Converters *)

Definition isConverterPathAllowed (incomingPath conv : str) : bool :=
  if conv =?s "none" then true
  else if incomingPath =?s "/v1/alpha/search" then false
  else if conv =?s "anthropic_messages_to_openai_chat_completions"
  then incomingPath =?s "/v1/messages"
  else if (conv =?s "openai_chat_completions_to_anthropic_messages")
          || (conv =?s "openai_chat_completions_to_openai_responses")
          || (conv =?s "openai_chat_completions_to_gemini_generate_content")
  then incomingPath =?s "/v1/chat/completions"
  else if conv =?s "openai_responses_to_openai_chat_completions"
  then incomingPath =?s "/v1/responses"
  else if conv =?s "openai_responses_to_gemini_generate_content"
  then incomingPath =?s "/v1/responses"
  else includes incomingPath ":generateContent" || includes incomingPath ":streamGenerateContent".

Definition getAdvancedCustomIncomingPathOptions (conv : str) : list (str * str) :=
  List.filter (fun o => isConverterPathAllowed (fst o) conv) ADVANCED_CUSTOM_INCOMING_PATH_OPTIONS.

Definition getDefaultAdvancedCustomIncomingPath (conv : str) : str :=
  ostr_or (fst <$> head (getAdvancedCustomIncomingPathOptions conv)) "/v1/chat/completions".

Definition getAdvancedCustomConverterOptions (incomingPath : str) : list ConverterOption :=
  let p := trim incomingPath in
  List.filter (fun o => (co_value o =?s "none") || isConverterPathAllowed p (co_value o))
    ADVANCED_CUSTOM_CONVERTER_OPTIONS.

Definition isAdvancedCustomConverter (value : str) : bool :=
  existsb (fun o => co_value o =?s value) ADVANCED_CUSTOM_CONVERTER_OPTIONS.

Definition getAdvancedCustomNativeAuth (incomingPath : str) : AdvancedCustomRouteAuth :=
  if incomingPath =?s claudeMessagesPath then apiKeyHeaderAuth
  else if includes incomingPath ":generateContent" || includes incomingPath ":streamGenerateContent"
          || includes incomingPath ":embedContent" || includes incomingPath ":batchEmbedContents"
  then geminiQueryAuth
  else bearerHeaderAuth.

Definition getAdvancedCustomConverterDefaults (conv incomingPath : str)
    : str * AdvancedCustomRouteAuth :=
  let p := str_or (trim incomingPath) (getDefaultAdvancedCustomIncomingPath conv) in
  if conv =?s "none" then (p, getAdvancedCustomNativeAuth p)
  else if (conv =?s "anthropic_messages_to_openai_chat_completions")
          || (conv =?s "gemini_generate_content_to_openai_chat_completions")
          || (conv =?s "openai_responses_to_openai_chat_completions")
  then (openAIChatPath, bearerHeaderAuth)
  else if conv =?s "openai_chat_completions_to_openai_responses"
  then (openAIResponsesPath, bearerHeaderAuth)
  else if conv =?s "openai_chat_completions_to_anthropic_messages"
  then (claudeMessagesPath, apiKeyHeaderAuth)
  else if (conv =?s "openai_chat_completions_to_gemini_generate_content")
          || (conv =?s "openai_responses_to_gemini_generate_content")
  then (geminiGenerateContentPath, geminiQueryAuth)
  else (str_or p openAIChatPath, getAdvancedCustomNativeAuth p).

Definition getAdvancedCustomUpstreamPathPlaceholder (conv : str) (incomingPath : option str) : str :=
  fst (getAdvancedCustomConverterDefaults conv
         (nullish incomingPath (getDefaultAdvancedCustomIncomingPath conv))).

Definition getAdvancedCustomIncomingPathLabel (value : str) : str :=
  ostr_or (snd <$> find (fun o => fst o =?s value) ADVANCED_CUSTOM_INCOMING_PATH_OPTIONS) value.

(** The path is looked up among the keys of the table; it is not the name of a
    method of [Object.prototype]. *)
Definition getAdvancedCustomRouteSummaryLabel (r : AdvancedCustomRoute) : option str :=
  let p := route_path r in
  if negb (truthy_str p) then None
  else Some (ostr_or (obj_get p ADVANCED_CUSTOM_ROUTE_SUMMARY_LABELS)
               (getAdvancedCustomIncomingPathLabel p)).

(** ** Authentication *)

Definition getAdvancedCustomAuthMode (r : AdvancedCustomRoute) : str :=
  ostr_or (route_auth r ≫= auth_type) "default".

Definition buildAdvancedCustomAuth (mode : AdvancedCustomAuthMode)
    (previousAuth : option AdvancedCustomRouteAuth) : option AdvancedCustomRouteAuth :=
  match mode with
  | ModeDefault => None
  | ModeNone => Some (MkRouteAuth (Some (js "none")) None None)
  | ModeHeader =>
      Some (MkRouteAuth (Some (js "header"))
        (Some (ostr_or (previousAuth ≫= auth_name) "Authorization"))
        (Some (ostr_or (previousAuth ≫= auth_value) "Bearer {api_key}")))
  | ModeQuery =>
      Some (MkRouteAuth (Some (js "query"))
        (Some (ostr_or (previousAuth ≫= auth_name) "api_key"))
        (Some (ostr_or (previousAuth ≫= auth_value) "{api_key}")))
  end.

(** [!text?.trim()]. *)
Definition blank (text : option str) : bool :=
  match text with Some s => negb (truthy_str (trim s)) | None => true end.

Definition validateRouteAuth (a : option AdvancedCustomRouteAuth) : option str :=
  match a with
  | None => None
  | Some a =>
      if bool_decide (auth_type a = Some (js "none")) then None
      else if negb (bool_decide (auth_type a = Some (js "header")))
              && negb (bool_decide (auth_type a = Some (js "query")))
      then Some (js "Auth type is invalid")
      else if blank (auth_name a) then Some (js "Auth name is required")
      else if blank (auth_value a) then Some (js "Auth value is required")
      else None
  end.

(** ** Validation *)

(** What is known of a path: the index of its catch-all route and the models of
    its routes. *)
Record PathState : Type := MkPathState {
  catchAllIndex : option nat;
  path_models : gmap str nat;
}.

Record ValidationState : Type := MkValidation {
  routeModelsByPath : gmap str PathState;
  modelListRouteIndex : option nat;
  balanceRouteIndex : option nat;
}.

Definition initialValidation : ValidationState := MkValidation ∅ None None.

(** The loop over the models of a route. *)
Fixpoint checkModels (i : nat) (seenInRoute : list str) (known : gmap str nat) (ms : list str)
    : str + gmap str nat :=
  match ms with
  | [] => inr known
  | m :: ms' =>
      if match getAdvancedCustomModelRuleKind m with
         | RegexRule => getAdvancedCustomRegexModelPattern m =?s []
         | ExactRule => false
         end
      then inl (js "Model regex cannot be empty")
      else if mem_str m seenInRoute then inl (js "Duplicate model in route models")
      else if bool_decide (is_Some (known !! m))
      then inl (js "Route models must be unique for the same incoming path")
      else checkModels i (m :: seenInRoute) (<[m := i]> known) ms'
  end.

Definition validateAdvancedCustomRouteModels (i : nat) (incomingPath : str) (ms : list str)
    (byPath : gmap str PathState) : str + gmap str PathState :=
  let st := nullish (byPath !! incomingPath) (MkPathState None ∅) in
  match ms, catchAllIndex st with
  | [], Some _ => inl (js "Only one catch-all route is allowed for the same incoming path")
  | [], None => inr (<[incomingPath := MkPathState (Some i) (path_models st)]> byPath)
  | _, Some _ => inl (js "Catch-all route must be last for the same incoming path")
  | _, None =>
      match checkModels i [] (path_models st) ms with
      | inl e => inl e
      | inr known => inr (<[incomingPath := MkPathState None known]> byPath)
      end
  end.

Section validation.
Context (isHttpURL : str -> bool).

Definition isFullHttpURLOrAbsolutePath (value : str) : bool :=
  if startsWith value "/" then negb (startsWith value "//") else isHttpURL value.

(** The checks of a management route, which give the new indices of the
    management routes. *)
Definition checkManagement (i : nat) (incomingPath upstreamPath conv : str) (ms : list str)
    (st : ValidationState) : str + ValidationState :=
  if negb (isAdvancedCustomManagementPath incomingPath) then inr st
  else
    let isModelListRoute := incomingPath =?s ADVANCED_CUSTOM_MODEL_LIST_PATH in
    let existingIndex :=
      if isModelListRoute then modelListRouteIndex st else balanceRouteIndex st in
    let routeLabel := if isModelListRoute then js "OpenAI Models" else js "Balance Query" in
    match existingIndex with
    | Some _ => inl ("Only one " ++ routeLabel ++ " route is allowed")
    | None =>
        if negb (bool_decide (ms = []))
        then inl (routeLabel ++ " route does not support client model rules")
        else if negb (conv =?s "none") then inl (routeLabel ++ " route must use native forwarding")
        else if includes upstreamPath "{model}"
        then inl (routeLabel ++ " upstream path must not contain {model}")
        else inr (if isModelListRoute
                  then MkValidation (routeModelsByPath st) (Some i) (balanceRouteIndex st)
                  else MkValidation (routeModelsByPath st) (modelListRouteIndex st) (Some i))
    end.

(** The checks after those of the models. *)
Definition checkTarget (incomingPath upstreamPath conv : str)
    (a : option AdvancedCustomRouteAuth) : option str :=
  if negb (truthy_str upstreamPath) then Some (js "Upstream path is required")
  else if negb (isFullHttpURLOrAbsolutePath upstreamPath)
  then Some (js "Upstream path must be a full URL or a path starting with /")
  else if negb (isAdvancedCustomConverter conv) then Some (js "Converter is not registered")
  else if negb (isConverterPathAllowed incomingPath conv)
  then Some (js "Converter does not match incoming path")
  else validateRouteAuth a.

Definition checkRoute (i : nat) (r : AdvancedCustomRoute) (st : ValidationState)
    : str + ValidationState :=
  let incomingPath := route_path r in
  let upstreamPath := getAdvancedCustomRouteUpstreamPath r in
  let conv := ostr_or (converter r) "none" in
  let ms := normalizeAdvancedCustomRouteModels (models r) in
  if negb (truthy_str incomingPath) then inl (js "Incoming path is required")
  else if negb (startsWith incomingPath "/") then inl (js "Incoming path must start with /")
  else if includes incomingPath "?" then inl (js "Incoming path must not include query")
  else match checkManagement i incomingPath upstreamPath conv ms st with
  | inl e => inl e
  | inr st =>
      match validateAdvancedCustomRouteModels i incomingPath ms (routeModelsByPath st) with
      | inl e => inl e
      | inr byPath =>
          match checkTarget incomingPath upstreamPath conv (route_auth r) with
          | Some e => inl e
          | None => inr (MkValidation byPath (modelListRouteIndex st) (balanceRouteIndex st))
          end
      end
  end.

Fixpoint checkRoutes (i : nat) (rs : list AdvancedCustomRoute) (st : ValidationState)
    : option AdvancedCustomValidationError :=
  match rs with
  | [] => None
  | r :: rs' =>
      match checkRoute i r st with
      | inl message => Some (ValidationError message (Some i))
      | inr st' => checkRoutes (S i) rs' st'
      end
  end.

Definition validateAdvancedCustomConfig (config : option AdvancedCustomConfig)
    : option AdvancedCustomValidationError :=
  match config with
  | None => Some (ValidationError (js "Advanced custom configuration is required") None)
  | Some c =>
      match normalized_routes c with
      | [] => Some (ValidationError
                (js "Advanced custom configuration requires at least one route") None)
      | routes => checkRoutes 0 routes initialValidation
      end
  end.

Definition hasValidAdvancedCustomModelListRoute (config : option AdvancedCustomConfig) : bool :=
  match config with
  | None => false
  | Some c =>
      match validateAdvancedCustomConfig (Some c) with
      | Some _ => false
      | None => existsb (fun r =>
          bool_decide (option_map trim (incoming_path r) = Some ADVANCED_CUSTOM_MODEL_LIST_PATH))
          (normalized_routes c)
      end
  end.

Definition advancedCustomConfigUsesRelativeUpstreamPath (config : option AdvancedCustomConfig)
    : bool :=
  match config with
  | None => false
  | Some c =>
      existsb (fun r => startsWith (getAdvancedCustomRouteUpstreamPath r) "/") (normalized_routes c)
  end.

End validation.

(** ** Reading and writing *)

(** The text is read, is not a configuration, or has routes or fields of other
    types than a configuration has (which the code does not check, and this
    model does not follow).  A field that is [null] is treated like one that is
    missing, as the code does, but for the type of an authentication. *)
Inductive Parsed : Type :=
  | ParsedConfig (c : AdvancedCustomConfig)
  | NotConfig
  | IllTyped.

(** An optional field that is a text. *)
Definition opt_string (v : option json) : option (option str) :=
  match v with
  | None | Some JNull => Some None
  | Some (JStr s) => Some (Some s)
  | Some _ => None
  end.

Fixpoint strings_of (l : list json) : option (list str) :=
  match l with
  | [] => Some []
  | JStr s :: l' => cons s <$> strings_of l'
  | _ => None
  end.

Definition auth_of_json (v : json) : option AdvancedCustomRouteAuth :=
  match v with
  | JObj _ =>
      t ← match oprop "type" (Some v) with Some JNull => None | t => opt_string t end;
      n ← opt_string (oprop "name" (Some v));
      x ← opt_string (oprop "value" (Some v));
      Some (MkRouteAuth t n x)
  | _ => None
  end.

Definition route_of_json (v : json) : option AdvancedCustomRoute :=
  match v with
  | JObj _ =>
      p ← opt_string (oprop "incoming_path" (Some v));
      u ← opt_string (oprop "upstream_path" (Some v));
      c ← opt_string (oprop "converter" (Some v));
      ms ← match oprop "models" (Some v) with
           | Some (JArr l) => Some <$> strings_of l
           | _ => Some None
           end;
      a ← match oprop "auth" (Some v) with
          | None | Some JNull => Some None
          | Some x => Some <$> auth_of_json x
          end;
      Some (MkRoute p u c ms a)
  | _ => None
  end.

Fixpoint routes_of (l : list json) : option (list AdvancedCustomRoute) :=
  match l with
  | [] => Some []
  | v :: l' => r ← route_of_json v; rs ← routes_of l'; Some (r :: rs)
  end.

Definition parseAdvancedCustomConfig (value : option str) : Parsed :=
  match value with
  | None => NotConfig
  | Some text =>
      if negb (truthy_str (trim text)) then NotConfig
      else match json_parse text with
      | Some (JObj o) =>
          match obj_get "advanced_routes" o with
          | Some (JArr l) =>
              match routes_of l with
              | Some rs => ParsedConfig (normalizeAdvancedCustomConfig (MkCustomConfig (Some rs)))
              | None => IllTyped
              end
          | _ => ParsedConfig (normalizeAdvancedCustomConfig (MkCustomConfig None))
          end
      | _ => NotConfig
      end
  end.

(** Fields that are [undefined] are not written. *)
Definition field (k : string) (v : option json) : list (str * json) :=
  match v with Some x => [(js k, x)] | None => [] end.

Definition auth_json (a : AdvancedCustomRouteAuth) : json :=
  JObj (field "type" (JStr <$> auth_type a) ++ field "name" (JStr <$> auth_name a) ++
        field "value" (JStr <$> auth_value a)).

Definition route_json (r : AdvancedCustomRoute) : json :=
  JObj (field "incoming_path" (JStr <$> incoming_path r) ++
        field "upstream_path" (JStr <$> upstream_path r) ++
        field "converter" (JStr <$> converter r) ++
        field "models" ((fun ms => JArr (map JStr ms)) <$> models r) ++
        field "auth" (auth_json <$> route_auth r)).

Definition stringifyAdvancedCustomConfig (c : AdvancedCustomConfig) : str :=
  stringify_indent [] (JObj [(js "advanced_routes", JArr (map route_json (normalized_routes c)))]).

(** ** The summary of a configuration *)

(** Labels in the order of their first route. *)
Definition routeTypeLabels (rs : list AdvancedCustomRoute) : list str :=
  dedupe (filter_truthy (omap getAdvancedCustomRouteSummaryLabel rs)).

Record AdvancedCustomStats : Type := MkStats {
  routeCount : nat;
  stats_valid : bool;
  stats_labels : list str;
}.

(** [None] for a text that is outside of the model. *)
Definition getAdvancedCustomStats (isHttpURL : str -> bool) (value : option str)
    : option AdvancedCustomStats :=
  match parseAdvancedCustomConfig value with
  | IllTyped => None
  | NotConfig => Some (MkStats 0 false [])
  | ParsedConfig c =>
      let routes := normalized_routes c in
      Some (MkStats (length routes)
        (bool_decide (validateAdvancedCustomConfig isHttpURL (Some (normalizeAdvancedCustomConfig c)) = None))
        (routeTypeLabels routes))
  end.
