(* ===== verification/AdvancedCustomLaws.v ===== *)
(** * Laws of advanced custom channels

    Proofs about [AdvancedCustom]: a configuration is accepted exactly when
    every route is well formed and the routes of a path are told apart by their
    models, with a catch-all at most at the end; writing and reading a
    configuration normalizes it; the two kinds of routes are edited
    independently; and what the editor offers is accepted. *)

From stdpp Require Import base list gmap.
From Stdlib Require Import ZArith NArith Lia.
From S2P Require Import Prelude JsString JsArray JsNumber JsJson JsonRoundTrip AdvancedCustom.

Local Open Scope Z_scope.

(** ** What an accepted configuration is *)

Definition route_models (r : AdvancedCustomRoute) : list str :=
  normalizeAdvancedCustomRouteModels (models r).

Definition route_converter (r : AdvancedCustomRoute) : str := ostr_or (converter r) "none".

(** A rule of the form [re:] without a pattern. *)
Definition empty_regex (m : str) : Prop := m = ADVANCED_CUSTOM_MODEL_REGEX_PREFIX.

(** Where requests may be sent: to a path of the base address, or to a URL. *)
Definition upstream_ok (isHttpURL : str -> bool) (path : str) : Prop :=
  (startsWith path "/" = true /\ startsWith path "//" = false) \/
  (path <> [] /\ startsWith path "/" = false /\ isHttpURL path = true).

(** The converters that serve one path, with it. *)
Definition converter_paths : list (str * str) :=
  [(js "anthropic_messages_to_openai_chat_completions", js "/v1/messages");
   (js "openai_chat_completions_to_anthropic_messages", js "/v1/chat/completions");
   (js "openai_chat_completions_to_openai_responses", js "/v1/chat/completions");
   (js "openai_chat_completions_to_gemini_generate_content", js "/v1/chat/completions");
   (js "openai_responses_to_openai_chat_completions", js "/v1/responses");
   (js "openai_responses_to_gemini_generate_content", js "/v1/responses")].

(** The path of a request fits its converter: native forwarding serves every path,
    the converter of Gemini those of its two methods. *)
Definition serves (conv path : str) : Prop :=
  conv = js "none" \/ (conv, path) ∈ converter_paths \/
  (conv = js "gemini_generate_content_to_openai_chat_completions" /\
   (includes path ":generateContent" = true \/ includes path ":streamGenerateContent" = true)).

(** Credentials: none, or a header or a query parameter with a name and a value. *)
Definition given (t : option str) : Prop := exists x, t = Some x /\ trim x <> [].

Definition auth_ok (a : AdvancedCustomRouteAuth) : Prop :=
  auth_type a = Some (js "none") \/
  ((auth_type a = Some (js "header") \/ auth_type a = Some (js "query")) /\ given (auth_name a) /\ given (auth_value a)).

Record route_ok (isHttpURL : str -> bool) (r : AdvancedCustomRoute) : Prop := {
  ok_path : startsWith (route_path r) "/" = true /\ includes (route_path r) "?" = false;
  ok_management : is_management r = true ->
    route_models r = [] /\ route_converter r = js "none" /\
    includes (getAdvancedCustomRouteUpstreamPath r) "{model}" = false;
  ok_models : NoDup (route_models r) /\ Forall (fun m => ~ empty_regex m) (route_models r);
  ok_target : upstream_ok isHttpURL (getAdvancedCustomRouteUpstreamPath r);
  ok_converter : serves (route_converter r) (route_path r);
  ok_auth : forall a, route_auth r = Some a -> auth_ok a;
}.

(** ** Targets *)

Lemma upstream_spec (isHttpURL : str -> bool) (path : str) :
  truthy_str path && isFullHttpURLOrAbsolutePath isHttpURL path = true <-> upstream_ok isHttpURL path.
Proof.
  unfold isFullHttpURLOrAbsolutePath, upstream_ok. rewrite andb_true_iff, truthy_str_true.
  destruct (startsWith path "/") eqn:E.
  - rewrite negb_true_iff. split; [tauto|]. intros [[_ H]|(_ & H & _)]; [|done]. split; [|done]. by intros ->.
  - split; [|naive_solver]. intros [H1 H2]. by right.
Qed.

Lemma serves_spec (conv path : str) :
  isAdvancedCustomConverter conv && isConverterPathAllowed path conv = true <-> serves conv path.
Proof.
  unfold serves. split.
  - intros [Hc Hp]%andb_true_iff. apply existsb_exists in Hc as (o & Ho & Hv%str_eqb_eq). subst conv.
    assert (Htab : forall (n : nat) c x, converter_paths !! n = Some (c, x) -> (path =?s x) = true -> (c, path) ∈ converter_paths).
    { intros n c x Hn ->%str_eqb_eq. by eapply list_elem_of_lookup_2. }
    unfold isConverterPathAllowed in Hp. destruct (path =?s "/v1/alpha/search") eqn:Ea.
    { destruct Ho as [<-|Ho]; [left; reflexivity|].
      repeat (destruct Ho as [<-|Ho]; [cbn [co_value] in Hp; revert Hp; literals; cbv iota; discriminate|]). destruct Ho. }
    repeat (destruct Ho as [<-|Ho]; [cbn [co_value] in *; revert Hp; literals; cbv iota; intros Hp|]); [..|destruct Ho].
    1: left; reflexivity.
    6: right; right; split; [reflexivity|by apply orb_true_iff in Hp].
    all: right; left.
    + by apply (Htab 0%nat _ (js "/v1/messages")).
    + by apply (Htab 1%nat _ (js "/v1/chat/completions")).
    + by apply (Htab 2%nat _ (js "/v1/chat/completions")).
    + by apply (Htab 4%nat _ (js "/v1/responses")).
    + by apply (Htab 5%nat _ (js "/v1/responses")).
    + by apply (Htab 3%nat _ (js "/v1/chat/completions")).
  - assert (Hreg : forall c : str, In c (map co_value ADVANCED_CUSTOM_CONVERTER_OPTIONS) -> isAdvancedCustomConverter c = true).
    { intros c (o & <- & Ho)%in_map_iff. apply existsb_exists. exists o. by rewrite str_eqb_refl. }
    intros [->|[H|[-> H]]].
    + rewrite Hreg by (by left). reflexivity.
    + apply list_elem_of_In in H. repeat (destruct H as [[= <- <-]|H]; [vm_compute; reflexivity|]). done.
    + rewrite Hreg by (vm_compute; tauto). unfold isConverterPathAllowed. literals. cbv iota.
      destruct (str_eqb_spec path "/v1/alpha/search") as [->|]; [by destruct H|].
      cbn [andb]. by apply orb_true_iff.
Qed.

Lemma given_spec (t : option str) : blank t = false <-> given t.
Proof.
  unfold given. split.
  - destruct t as [x|]; [|done]. intros H. exists x. split; [done|]. intros E. revert H. unfold blank. cbn. by rewrite E.
  - intros (x & -> & H). unfold blank. cbn. by rewrite (proj2 (truthy_str_true _) H).
Qed.

Lemma auth_spec (a : option AdvancedCustomRouteAuth) :
  validateRouteAuth a = None <-> forall x, a = Some x -> auth_ok x.
Proof.
  destruct a as [a|]; [|done]. unfold validateRouteAuth.
  assert (Ha : (forall x, Some a = Some x -> auth_ok x) <-> auth_ok a) by naive_solver. rewrite Ha. unfold auth_ok. clear Ha.
  rewrite <- !given_spec. case_bool_decide as H1; [by split; [left|]|]. case_bool_decide as H2; case_bool_decide as H3; cbn [negb andb].
  4: naive_solver.
  all: destruct (blank (auth_name a)), (blank (auth_value a)); naive_solver.
Qed.

Lemma target_spec (isHttpURL : str -> bool) (r : AdvancedCustomRoute) :
  checkTarget isHttpURL (route_path r) (getAdvancedCustomRouteUpstreamPath r) (route_converter r) (route_auth r) = None <->
  upstream_ok isHttpURL (getAdvancedCustomRouteUpstreamPath r) /\ serves (route_converter r) (route_path r) /\
  forall a, route_auth r = Some a -> auth_ok a.
Proof.
  unfold checkTarget. rewrite <- upstream_spec, <- serves_spec, <- auth_spec, !andb_true_iff.
  destruct (truthy_str _); cbn [negb]; [|naive_solver]. destruct (isFullHttpURLOrAbsolutePath _ _); cbn [negb]; [|naive_solver].
  destruct (isAdvancedCustomConverter _); cbn [negb]; [|naive_solver].
  destruct (isConverterPathAllowed _ _); cbn [negb]; naive_solver.
Qed.

(** A route before another one of the same path: it is not a catch-all, and
    they have no model in common. *)
Definition compatible (r r' : AdvancedCustomRoute) : Prop :=
  route_path r = route_path r' ->
  route_models r <> [] /\ forall m, m ∈ route_models r -> m ∉ route_models r'.

Lemma mem_str_elem (x : str) (l : list str) : mem_str x l = true <-> x ∈ l.
Proof.
  induction l as [|y l IH]; cbn [mem_str].
  - split; [done|]. intros H. by apply not_elem_of_nil in H.
  - rewrite orb_true_iff, IH, str_eqb_eq, elem_of_cons. done.
Qed.

Lemma empty_regex_spec (m : str) :
  match getAdvancedCustomModelRuleKind m with
  | RegexRule => getAdvancedCustomRegexModelPattern m =?s []
  | ExactRule => false
  end = true <-> empty_regex m.
Proof.
  unfold getAdvancedCustomModelRuleKind, getAdvancedCustomRegexModelPattern, empty_regex.
  destruct (startsWith m ADVANCED_CUSTOM_MODEL_REGEX_PREFIX) eqn:E.
  - apply startsWith_spec in E as [t ->]. rewrite slice_from_app, str_eqb_eq by done.
    split; [intros ->; by rewrite app_nil_r|].
    intros H. apply (f_equal length) in H. rewrite length_app in H. destruct t; [done|simpl in H; lia].
  - split; [done|]. intros ->. done.
Qed.

Lemma checkModels_spec (i : nat) (ms seen : list str) (known : gmap str nat) :
  match checkModels i seen known ms with
  | inr known' =>
      NoDup ms /\ Forall (fun m => ~ empty_regex m) ms /\
      (forall m, m ∈ ms -> (m ∉ seen) /\ known !! m = None) /\
      (forall m, is_Some (known' !! m) <-> is_Some (known !! m) \/ m ∈ ms)
  | inl _ =>
      ~ (NoDup ms /\ Forall (fun m => ~ empty_regex m) ms /\
         (forall m, m ∈ ms -> (m ∉ seen) /\ known !! m = None))
  end.
Proof.
  revert seen known. induction ms as [|m ms IH]; intros seen known; cbn [checkModels].
  { split_and!; [constructor|constructor|intros m Hm; by apply not_elem_of_nil in Hm|].
    intros m. rewrite elem_of_nil. tauto. }
  pose proof (empty_regex_spec m) as He.
  destruct (match getAdvancedCustomModelRuleKind m with RegexRule => _ | ExactRule => _ end).
  { intros (_ & Hr & _). apply Forall_inv in Hr. by apply Hr, He. }
  assert (Hne : ~ empty_regex m) by (intros H; by apply He in H). clear He.
  destruct (mem_str m seen) eqn:Es.
  { apply mem_str_elem in Es. intros (_ & _ & Hs). destruct (Hs m) as [Hn _]; [by left|done]. }
  assert (Hs : m ∉ seen) by (rewrite <- mem_str_elem; by rewrite Es). clear Es.
  destruct (bool_decide_reflect (is_Some (known !! m))) as [[x Hk]|Hk].
  { intros (_ & _ & Ha). destruct (Ha m) as [_ Hn]; [by left|congruence]. }
  apply eq_None_not_Some in Hk. specialize (IH (m :: seen) (<[m := i]> known)).
  destruct (checkModels i (m :: seen) (<[m:=i]> known) ms) as [e|known'].
  - intros (Hn & Hr & Ha). apply IH. inversion Hn as [|? ? Hm Hn']; subst.
    inversion Hr as [|? ? _ Hr']; subst. split_and!; [done|done|].
    intros x Hx. destruct (Ha x) as [H1 H2]; [by right|].
    assert (x <> m) by (intros ->; done). split.
    + rewrite elem_of_cons. tauto.
    + by rewrite lookup_insert_ne.
  - destruct IH as (Hn & Hr & Ha & Hk'). split_and!.
    + constructor; [|done]. intros Hm. destruct (Ha m Hm) as [H _]. apply H. by left.
    + by constructor.
    + intros x Hx. apply elem_of_cons in Hx as [->|Hx]; [done|].
      destruct (Ha x Hx) as [H1 H2]. rewrite elem_of_cons in H1.
      rewrite lookup_insert_ne in H2 by naive_solver. naive_solver.
    + intros x. rewrite Hk', elem_of_cons. destruct (decide (x = m)) as [->|Hxm].
      * rewrite lookup_insert_eq. naive_solver.
      * rewrite lookup_insert_ne by done. naive_solver.
Qed.

(** ** The state of the validation

    What the state knows of the routes that were accepted. *)

Definition of_path (rs : list AdvancedCustomRoute) (p : str) : list AdvancedCustomRoute :=
  List.filter (fun r => route_path r =?s p) rs.

Definition path_state (st : ValidationState) (p : str) : PathState :=
  nullish (routeModelsByPath st !! p) (MkPathState None ∅).

Record tracks (rs : list AdvancedCustomRoute) (st : ValidationState) : Prop := {
  track_catch_all p :
    is_Some (catchAllIndex (path_state st p)) <->
    exists r, r ∈ rs /\ route_path r = p /\ route_models r = [];
  track_models p m :
    is_Some (path_models (path_state st p) !! m) <->
    exists r, r ∈ rs /\ route_path r = p /\ m ∈ route_models r;
  track_list : is_Some (modelListRouteIndex st) <->
    exists r, r ∈ rs /\ route_path r = ADVANCED_CUSTOM_MODEL_LIST_PATH;
  track_balance : is_Some (balanceRouteIndex st) <->
    exists r, r ∈ rs /\ route_path r = ADVANCED_CUSTOM_BALANCE_PATH;
}.

Lemma tracks_initial : tracks [] initialValidation.
Proof.
  assert (Hn : forall P : AdvancedCustomRoute -> Prop, ~ exists r, r ∈ [] /\ P r).
  { intros P (r & Hr & _). by apply not_elem_of_nil in Hr. }
  split; intros; unfold path_state; cbn; rewrite ?lookup_empty; cbn; rewrite ?lookup_empty;
    (split; [by intros [? [=]]|]); intros H; by apply Hn in H.
Qed.

(** The models check accepts a route exactly when it is compatible with the
    routes before it. *)
Definition new_path_state (i : nat) (r : AdvancedCustomRoute) (s s' : PathState) : Prop :=
  (is_Some (catchAllIndex s') <-> is_Some (catchAllIndex s) \/ route_models r = []) /\
  (forall m, is_Some (path_models s' !! m) <-> is_Some (path_models s !! m) \/ m ∈ route_models r).

Lemma validate_models_spec (i : nat) (r : AdvancedCustomRoute) (rs : list AdvancedCustomRoute)
    (st : ValidationState) :
  tracks rs st ->
  match validateAdvancedCustomRouteModels i (route_path r) (route_models r) (routeModelsByPath st) with
  | inr byPath =>
      NoDup (route_models r) /\ Forall (fun m => ~ empty_regex m) (route_models r) /\
      Forall (fun r0 => compatible r0 r) rs /\
      exists s', byPath = <[route_path r := s']> (routeModelsByPath st) /\
        new_path_state i r (path_state st (route_path r)) s'
  | inl _ =>
      ~ (NoDup (route_models r) /\ Forall (fun m => ~ empty_regex m) (route_models r) /\
         Forall (fun r0 => compatible r0 r) rs)
  end.
Proof.
  intros Ht. unfold validateAdvancedCustomRouteModels. fold (path_state st (route_path r)).
  set (s := path_state st (route_path r)).
  pose proof (track_catch_all rs st Ht (route_path r)) as Hc. fold s in Hc.
  pose proof (track_models rs st Ht (route_path r)) as Hm. fold s in Hm.
  assert (Hall : is_Some (catchAllIndex s) -> ~ Forall (fun r0 => compatible r0 r) rs).
  { intros H HF. apply Hc in H as (r0 & Hr0 & Hp & Hn).
    rewrite Forall_forall in HF. by destruct (HF r0 Hr0 Hp). }
  assert (Hdis : catchAllIndex s = None ->
    (forall m, m ∈ route_models r -> path_models s !! m = None) ->
    Forall (fun r0 => compatible r0 r) rs).
  { intros Hn Hd. apply Forall_forall. intros r0 Hr0 Hp. split.
    - intros Hz. destruct (proj2 Hc) as [x Hx]; [by exists r0|congruence].
    - intros m Hm0 Hm1. destruct (proj2 (Hm m)) as [x Hx]; [by exists r0|].
      rewrite (Hd m Hm1) in Hx. done. }
  destruct (catchAllIndex s) as [j|] eqn:Ej.
  { destruct (route_models r); intros (_ & _ & HF); by eapply Hall. }
  destruct (route_models r) as [|m ms] eqn:Em.
  - split_and!; [constructor|constructor|apply Hdis; [done|]|].
    + intros m Hm'. by apply not_elem_of_nil in Hm'.
    + eexists. split; [done|]. unfold new_path_state. rewrite Em, Ej. cbn. split; [naive_solver|].
      intros m. rewrite elem_of_nil. tauto.
  - pose proof (checkModels_spec i (m :: ms) [] (path_models s)) as Hk.
    destruct (checkModels i [] (path_models s) (m :: ms)) as [e|known].
    + intros (Hn & Hr & HF). apply Hk. split_and!; [done|done|]. intros x Hx.
      split; [apply not_elem_of_nil|]. apply eq_None_not_Some. intros Hsx.
      apply Hm in Hsx as (r0 & Hr0 & Hp & Hx0). rewrite Forall_forall in HF.
      destruct (HF r0 Hr0 Hp) as [_ Hd]. apply (Hd x Hx0). by rewrite Em.
    + destruct Hk as (Hn & Hr & Ha & Hk'). split_and!; [done|done|apply Hdis; [done|]|].
      * intros x Hx. by apply Ha.
      * eexists. split; [done|]. unfold new_path_state. rewrite Em, Ej. cbn. split.
        -- split; [by intros [? [=]]|]. intros [[? [=]]|[=]].
        -- done.
Qed.

Section accepted.
Context (isHttpURL : str -> bool).

Definition management_ok (r : AdvancedCustomRoute) : Prop :=
  is_management r = true ->
  route_models r = [] /\ route_converter r = js "none" /\
  includes (getAdvancedCustomRouteUpstreamPath r) "{model}" = false.

Lemma management_taken (r : AdvancedCustomRoute) (rs : list AdvancedCustomRoute) (p : str) :
  Forall (route_ok isHttpURL) rs -> Forall (fun r0 => compatible r0 r) rs ->
  isAdvancedCustomManagementPath p = true -> route_path r = p ->
  ~ exists r0, r0 ∈ rs /\ route_path r0 = p.
Proof.
  intros Hok HF Hp Hr (r0 & Hr0 & Hp0). rewrite Forall_forall in Hok, HF.
  destruct (HF r0 Hr0) as [Hne _]; [congruence|].
  destruct (ok_management _ _ (Hok r0 Hr0)) as [Hz _]; [|done].
  unfold is_management. by rewrite Hp0.
Qed.

Lemma checkManagement_spec (i : nat) (r : AdvancedCustomRoute) (rs : list AdvancedCustomRoute)
    (st : ValidationState) :
  tracks rs st -> Forall (route_ok isHttpURL) rs ->
  match checkManagement i (route_path r) (getAdvancedCustomRouteUpstreamPath r)
          (route_converter r) (route_models r) st with
  | inr st' =>
      management_ok r /\ routeModelsByPath st' = routeModelsByPath st /\
      (is_Some (modelListRouteIndex st') <->
       is_Some (modelListRouteIndex st) \/ route_path r = ADVANCED_CUSTOM_MODEL_LIST_PATH) /\
      (is_Some (balanceRouteIndex st') <->
       is_Some (balanceRouteIndex st) \/ route_path r = ADVANCED_CUSTOM_BALANCE_PATH)
  | inl _ => ~ (management_ok r /\ Forall (fun r0 => compatible r0 r) rs)
  end.
Proof.
  intros Ht Hok. unfold checkManagement, management_ok. fold (is_management r).
  assert (Hbl : ADVANCED_CUSTOM_BALANCE_PATH <> ADVANCED_CUSTOM_MODEL_LIST_PATH) by done.
  destruct (is_management r) eqn:Em; cbn [negb].
  2: { unfold is_management, isAdvancedCustomManagementPath in Em. js_simp.
       split; [done|]. split; [done|]. tauto. }
  set (existing := if (_ =?s _) then _ else _).
  assert (He : is_Some existing -> ~ Forall (fun r0 => compatible r0 r) rs).
  { intros Hs HF. apply (management_taken r rs (route_path r) Hok HF Em eq_refl).
    subst existing. unfold is_management, isAdvancedCustomManagementPath in Em.
    destruct (str_eqb_spec (route_path r) ADVANCED_CUSTOM_MODEL_LIST_PATH) as [->|].
    - by apply (track_list rs st Ht).
    - cbn [orb] in Em. apply str_eqb_eq in Em as ->. by apply (track_balance rs st Ht). }
  destruct existing as [j|]; [intros [_ HF]; by apply He|]. clear He.
  destruct (bool_decide_reflect (route_models r = [])) as [Hm|Hm]; cbn [negb].
  2: { intros [H _]. by destruct (H eq_refl). }
  destruct (str_eqb_spec (route_converter r) "none") as [Hc|Hc]; cbn [negb].
  2: { intros [H _]. by destruct (H eq_refl) as (_ & ? & _). }
  destruct (includes _ _) eqn:Ei.
  { intros [H _]. by destruct (H eq_refl) as (_ & _ & ?). }
  split; [done|]. unfold is_management, isAdvancedCustomManagementPath in Em.
  destruct (str_eqb_spec (route_path r) ADVANCED_CUSTOM_MODEL_LIST_PATH) as [Hp|Hp]; cbn.
  - rewrite Hp. split; [done|]. split; [naive_solver|]. naive_solver.
  - cbn [orb] in Em. apply str_eqb_eq in Em. rewrite Em. split; [done|]. naive_solver.
Qed.

Lemma tracks_snoc (i : nat) (r : AdvancedCustomRoute) (rs : list AdvancedCustomRoute)
    (st : ValidationState) (s' : PathState) (ml bal : option nat) :
  tracks rs st -> new_path_state i r (path_state st (route_path r)) s' ->
  (is_Some ml <-> is_Some (modelListRouteIndex st) \/ route_path r = ADVANCED_CUSTOM_MODEL_LIST_PATH) ->
  (is_Some bal <-> is_Some (balanceRouteIndex st) \/ route_path r = ADVANCED_CUSTOM_BALANCE_PATH) ->
  tracks (rs ++ [r]) (MkValidation (<[route_path r := s']> (routeModelsByPath st)) ml bal).
Proof.
  intros Ht [Hc Hm] Hml Hbal.
  assert (Hsnoc : forall P : AdvancedCustomRoute -> Prop,
    (exists x, x ∈ rs ++ [r] /\ P x) <-> (exists x, x ∈ rs /\ P x) \/ P r).
  { intros P. split.
    - intros (x & Hx & HP). apply elem_of_app in Hx as [Hx|Hx]; [eauto|].
      apply list_elem_of_singleton in Hx as ->. by right.
    - intros [(x & Hx & HP)|HP]; [exists x|exists r]; rewrite elem_of_app, list_elem_of_singleton; tauto. }
  assert (Hps : forall p, path_state (MkValidation (<[route_path r := s']> (routeModelsByPath st)) ml bal) p =
    if decide (route_path r = p) then s' else path_state st p).
  { intros p. unfold path_state. cbn [routeModelsByPath]. case_decide as Hp.
    - subst p. by rewrite lookup_insert_eq.
    - by rewrite lookup_insert_ne. }
  split.
  - intros p. rewrite Hps, (Hsnoc (fun r => route_path r = p /\ route_models r = [])).
    rewrite <- (track_catch_all rs st Ht p). case_decide as Hp; [subst p; rewrite Hc|]; naive_solver.
  - intros p m. rewrite Hps, (Hsnoc (fun r => route_path r = p /\ m ∈ route_models r)).
    rewrite <- (track_models rs st Ht p m). case_decide as Hp; [subst p; rewrite Hm|]; naive_solver.
  - cbn. by rewrite Hml, Hsnoc, (track_list rs st Ht).
  - cbn. by rewrite Hbal, Hsnoc, (track_balance rs st Ht).
Qed.

Lemma checkRoute_spec (i : nat) (r : AdvancedCustomRoute) (rs : list AdvancedCustomRoute)
    (st : ValidationState) :
  tracks rs st -> Forall (route_ok isHttpURL) rs ->
  match checkRoute isHttpURL i r st with
  | inr st' =>
      route_ok isHttpURL r /\ Forall (fun r0 => compatible r0 r) rs /\ tracks (rs ++ [r]) st'
  | inl _ => ~ (route_ok isHttpURL r /\ Forall (fun r0 => compatible r0 r) rs)
  end.
Proof.
  intros Ht Hok. unfold checkRoute. cbv zeta.
  fold (route_models r). fold (route_converter r).
  destruct (truthy_str (route_path r)) eqn:E1; cbn [negb].
  2: { intros [[[Hp _] _ _ _ _ _] _]. apply truthy_str_false in E1. rewrite E1 in Hp. done. }
  destruct (startsWith (route_path r) "/") eqn:E2; cbn [negb].
  2: { intros [[[Hp _] _ _ _ _ _] _]. congruence. }
  destruct (includes (route_path r) "?") eqn:E3.
  { intros [[[_ Hp] _ _ _ _ _] _]. congruence. }
  pose proof (checkManagement_spec i r rs st Ht Hok) as Hman.
  destruct (checkManagement _ _ _ _ _ _) as [e|st1].
  { intros [[_ Hm _ _ _ _] HF]. by apply Hman. }
  destruct Hman as (Hm & Hby & Hml & Hbal). rewrite Hby.
  pose proof (validate_models_spec i r rs st Ht) as Hmod.
  destruct (validateAdvancedCustomRouteModels _ _ _ _) as [e|byPath].
  { intros [[_ _ [Hn Hr] _ _ _] HF]. by apply Hmod. }
  destruct Hmod as (Hn & Hr & HF & s' & -> & Hs').
  destruct (checkTarget _ _ _ _ _) as [e|] eqn:Et.
  { intros [[_ _ _ T1 T2 T3] _]. discriminate (eq_trans (eq_sym Et) (proj2 (target_spec isHttpURL r) (conj T1 (conj T2 T3)))). }
  apply target_spec in Et as (T1 & T2 & T3). split; [by constructor|]. split; [done|]. by eapply tracks_snoc.
Qed.

Lemma checkRoutes_spec (i : nat) (rs pre : list AdvancedCustomRoute) (st : ValidationState) :
  tracks pre st -> Forall (route_ok isHttpURL) pre ->
  (checkRoutes isHttpURL i rs st = None <->
   Forall (route_ok isHttpURL) rs /\ ForallOrdPairs compatible rs /\
   Forall (fun r => Forall (fun r0 => compatible r0 r) pre) rs).
Proof.
  revert i pre st. induction rs as [|r rs IH]; intros i pre st Ht Hok; cbn [checkRoutes].
  { split; [|done]. intros _. split_and!; constructor. }
  pose proof (checkRoute_spec i r pre st Ht Hok) as Hr.
  destruct (checkRoute _ _ _ _) as [e|st'].
  - split; [done|]. intros (H1 & _ & H3). destruct Hr.
    split; [by apply Forall_inv in H1|by apply Forall_inv in H3].
  - destruct Hr as (Hrok & Hcomp & Ht').
    rewrite (IH (S i) (pre ++ [r]) st' Ht') by (apply Forall_app; by split; [|apply Forall_singleton]).
    split.
    + intros (H1 & H2 & H3). split; [by constructor|]. split.
      * constructor; [|done]. eapply Forall_impl; [exact H3|]. intros x Hx.
        apply Forall_app in Hx as [_ Hx]. by apply Forall_inv in Hx.
      * constructor; [done|]. eapply Forall_impl; [exact H3|]. intros x Hx.
        by apply Forall_app in Hx as [Hx _].
    + intros (H1 & H2 & H3). apply Forall_cons in H1 as [_ H1], H3 as [_ H3].
      inversion H2 as [|? ? Hfirst Hrest]; subst. split_and!; [done|done|].
      rewrite Forall_forall in Hfirst, H3. apply Forall_forall. intros x Hx.
      apply Forall_app. split; [by apply H3|]. apply Forall_singleton.
      by apply Hfirst.
Qed.

End accepted.

(** C29: The validation accepts exactly the meaningful configurations: there is a
    route, every route is well formed, and of two routes of the same path the
    earlier one names its models and shares none of them with the later one, so
    that every model has at most one route by name and a catch-all comes last. *)
Theorem accepted_iff_meaningful (isHttpURL : str -> bool) (c : AdvancedCustomConfig) :
  validateAdvancedCustomConfig isHttpURL (Some c) = None <->
  normalized_routes c <> [] /\ Forall (route_ok isHttpURL) (normalized_routes c) /\
  ForallOrdPairs compatible (normalized_routes c).
Proof.
  unfold validateAdvancedCustomConfig. destruct (normalized_routes c) as [|r rs] eqn:E.
  - split; [done|]. by intros [? _].
  - rewrite (checkRoutes_spec isHttpURL 0 (r :: rs) [] initialValidation tracks_initial)
      by constructor.
    split; [naive_solver|]. intros (_ & H1 & H2). split_and!; [done|done|].
    apply Forall_forall. intros x _. constructor.
Qed.

(** ** Normalization is stable *)

Lemma filter_truthy_nonempty (l : list str) : Forall (fun s => s <> []) l -> filter_truthy l = l.
Proof.
  induction 1 as [|s l Hs _ IH]; [done|]. unfold filter_truthy in *. cbn.
  rewrite (proj2 (truthy_str_true s) Hs). by rewrite IH.
Qed.

Lemma filter_truthy_ok (l : list str) : Forall (fun s => s <> []) (filter_truthy l).
Proof.
  apply Forall_forall. intros s Hs. unfold filter_truthy in Hs.
  apply list_elem_of_In, filter_In in Hs as [_ Hs]. by apply truthy_str_true.
Qed.

Lemma normalize_models_stable (ms : option (list str)) :
  normalizeAdvancedCustomRouteModels
    (match normalizeAdvancedCustomRouteModels ms with
     | [] => None
     | _ => Some (normalizeAdvancedCustomRouteModels ms)
     end) = normalizeAdvancedCustomRouteModels ms.
Proof.
  set (l := normalizeAdvancedCustomRouteModels ms).
  assert (Hl : Forall (fun s => s <> []) l /\ map trim l = l).
  { subst l. destruct ms as [l|]; cbn; [|done]. split; [apply filter_truthy_ok|].
    unfold filter_truthy. induction l as [|s l IH]; [done|]. cbn.
    destruct (truthy_str (trim s)); [|done]. cbn. by rewrite trim_idem, IH. }
  clearbody l. destruct Hl as [H1 H2].
  assert (Hn : normalizeAdvancedCustomRouteModels (Some l) = l).
  { cbn. by rewrite H2, filter_truthy_nonempty. }
  destruct l; [done|exact Hn].
Qed.

Lemma ostr_or_stable (o : option str) (d : str) : ostr_or (Some (ostr_or o d)) d = ostr_or o d.
Proof. destruct o as [[|c s]|]; cbn; unfold str_or; try done; by destruct d. Qed.

Lemma normalize_route_idem (r : AdvancedCustomRoute) :
  normalizeAdvancedCustomRoute (normalizeAdvancedCustomRoute r) = normalizeAdvancedCustomRoute r.
Proof.
  destruct r as [p u c ms a]. unfold normalizeAdvancedCustomRoute.
  cbn [models incoming_path converter route_auth]. rewrite normalize_models_stable, !ostr_or_stable.
  f_equal.
  - unfold getAdvancedCustomRouteUpstreamPath. cbn [upstream_path].
    f_equal. destruct (ostr_or u []) as [|x s] eqn:Eu; [done|].
    cbn [ostr_or]. unfold str_or. destruct (truthy_str (trim (x :: s))) eqn:E; [apply trim_idem|].
    by apply truthy_str_false in E as ->.
  - destruct a as [a|]; [|done]. cbn [auth_type auth_name auth_value]. by rewrite !ostr_or_stable.
Qed.

Lemma normalized_routes_normalize (c : AdvancedCustomConfig) :
  normalized_routes (normalizeAdvancedCustomConfig c) = normalized_routes c.
Proof.
  unfold normalized_routes at 1. cbn. unfold normalized_routes.
  destruct (advanced_routes c) as [rs|]; [|done]. rewrite map_map. apply map_ext, normalize_route_idem.
Qed.

Lemma map_normalize_normalized (c : AdvancedCustomConfig) :
  map normalizeAdvancedCustomRoute (normalized_routes c) = normalized_routes c.
Proof. apply (normalized_routes_normalize c). Qed.

(** ** Reading back *)

Lemma strings_back (ms : list str) : strings_of (map JStr ms) = Some ms.
Proof. induction ms as [|m ms IH]; [done|]. cbn. by rewrite IH. Qed.

Lemma auth_back (a : AdvancedCustomRouteAuth) : auth_of_json (auth_json a) = Some a.
Proof. by destruct a as [[] [] []]. Qed.

Lemma opt_string_back (o : option str) : opt_string (JStr <$> o) = Some o.
Proof. by destruct o. Qed.

Lemma route_back (r : AdvancedCustomRoute) : route_of_json (route_json r) = Some r.
Proof.
  destruct r as [p u c ms a].
  assert (H1 : oprop "incoming_path" (Some (route_json (MkRoute p u c ms a))) = JStr <$> p)
    by (by destruct p, u, c, ms, a).
  assert (H2 : oprop "upstream_path" (Some (route_json (MkRoute p u c ms a))) = JStr <$> u)
    by (by destruct p, u, c, ms, a).
  assert (H3 : oprop "converter" (Some (route_json (MkRoute p u c ms a))) = JStr <$> c)
    by (by destruct p, u, c, ms, a).
  assert (H4 : oprop "models" (Some (route_json (MkRoute p u c ms a))) =
               (fun ms => JArr (map JStr ms)) <$> ms) by (by destruct p, u, c, ms, a).
  assert (H5 : oprop "auth" (Some (route_json (MkRoute p u c ms a))) = auth_json <$> a)
    by (by destruct p, u, c, ms, a).
  unfold route_of_json. set (v := route_json _) in *.
  change v with (JObj (match v with JObj o => o | _ => [] end)) at 1. cbv iota.
  rewrite H1, H2, H3, H4, H5, !opt_string_back. cbn [mbind option_bind].
  destruct ms as [ms|]; cbn [fmap option_fmap option_map]; rewrite ?strings_back;
    (destruct a as [a|]; cbn [fmap option_fmap option_map mbind option_bind]; [|done]);
    change (auth_json a) with (JObj (match auth_json a with JObj o => o | _ => [] end)) at 1;
    cbv iota; by rewrite auth_back.
Qed.

Lemma routes_back (rs : list AdvancedCustomRoute) : routes_of (map route_json rs) = Some rs.
Proof. induction rs as [|r rs IH]; [done|]. cbn [map routes_of]. rewrite route_back. cbn. by rewrite IH. Qed.

Lemma auth_text_ok (a : AdvancedCustomRouteAuth) : json_ok (auth_json a).
Proof.
  destruct a as [[] [] []]; (constructor; [vm_compute; reflexivity|]);
    repeat apply Forall_cons_2; try apply ok_str; apply Forall_nil_2.
Qed.

Lemma route_text_ok (r : AdvancedCustomRoute) : json_ok (route_json r).
Proof.
  assert (Hms : forall ms, json_ok (JArr (map JStr ms))).
  { intros ms. constructor. apply Forall_map, Forall_forall. intros s _. apply ok_str. }
  destruct r as [p u c ms a]; destruct p, u, c, ms, a; (constructor; [vm_compute; reflexivity|]);
    cbn; repeat apply Forall_cons_2; try apply ok_str; try apply Hms; try apply auth_text_ok;
    apply Forall_nil_2.
Qed.

Lemma trim_visible (c : N) (s : str) : is_ws c = false -> truthy_str (trim (c :: s)) = true.
Proof.
  intros Hc. apply truthy_str_true. unfold trim, trimEnd, trimStart. cbn [drop_while]. rewrite Hc.
  intros H. apply (f_equal (@rev N)) in H. rewrite rev_involutive in H. cbn in H.
  destruct (drop_while_suffix is_ws (rev s ++ [c])) as (k & Hk & Hw). rewrite H, app_nil_r in Hk.
  rewrite <- Hk, forallb_app in Hw. cbn in Hw. rewrite Hc in Hw. by rewrite andb_false_r in Hw.
Qed.

Lemma config_text_ok (rs : list AdvancedCustomRoute) :
  json_ok (JObj [(js "advanced_routes", JArr (map route_json rs))]).
Proof.
  constructor; [vm_compute; reflexivity|]. apply Forall_singleton. constructor.
  apply Forall_map, Forall_forall. intros r _. apply route_text_ok.
Qed.

Lemma parse_config_text (c : AdvancedCustomConfig) :
  parseAdvancedCustomConfig (Some (stringifyAdvancedCustomConfig c)) =
  ParsedConfig (normalizeAdvancedCustomConfig c).
Proof.
  unfold parseAdvancedCustomConfig, stringifyAdvancedCustomConfig.
  rewrite json_roundtrip_indent by apply config_text_ok.
  rewrite indent_obj at 1. rewrite trim_visible by done. cbn [negb].
  set (o := [(js "advanced_routes", JArr (map route_json (normalized_routes c)))]).
  change (obj_get "advanced_routes" o) with (Some (JArr (map route_json (normalized_routes c)))).
  cbv iota. rewrite routes_back. f_equal. unfold normalizeAdvancedCustomConfig.
  f_equal. f_equal. apply map_normalize_normalized.
Qed.

(** Writing a configuration and reading the text gives the normalized
    configuration: nothing is lost but what normalization drops, and a second
    round changes nothing. *)
Theorem config_text_roundtrip (c : AdvancedCustomConfig) :
  parseAdvancedCustomConfig (Some (stringifyAdvancedCustomConfig c)) =
  ParsedConfig (normalizeAdvancedCustomConfig c) /\
  stringifyAdvancedCustomConfig (normalizeAdvancedCustomConfig c) = stringifyAdvancedCustomConfig c.
Proof.
  split; [apply parse_config_text|]. unfold stringifyAdvancedCustomConfig. by rewrite normalized_routes_normalize.
Qed.

(** ** Editing the two kinds of routes *)

Definition forwarding (c : AdvancedCustomConfig) : list AdvancedCustomRoute :=
  List.filter (fun r => negb (is_management r)) (normalized_routes c).

Definition management (c : AdvancedCustomConfig) : list AdvancedCustomRoute :=
  List.filter is_management (normalized_routes c).

Lemma normalize_path (r : AdvancedCustomRoute) :
  route_path (normalizeAdvancedCustomRoute r) = route_path r.
Proof. destruct r as [[[|x p]|] u c ms a]; done. Qed.

Lemma normalize_management (r : AdvancedCustomRoute) :
  is_management (normalizeAdvancedCustomRoute r) = is_management r.
Proof. unfold is_management. by rewrite normalize_path. Qed.

Lemma filter_map_normalize (p : AdvancedCustomRoute -> bool) (rs : list AdvancedCustomRoute) :
  (forall r, p (normalizeAdvancedCustomRoute r) = p r) ->
  List.filter p (map normalizeAdvancedCustomRoute rs) =
  map normalizeAdvancedCustomRoute (List.filter p rs).
Proof.
  intros Hp. induction rs as [|r rs IH]; [done|]. cbn. rewrite Hp. destruct (p r); cbn; by rewrite IH.
Qed.

Lemma filter_filter_negb {A} (p : A -> bool) (l : list A) :
  List.filter (fun x => negb (p x)) (List.filter p l) = [].
Proof.
  apply filter_none, Forall_forall. intros x Hx. apply list_elem_of_In, filter_In in Hx as [_ Hx].
  by rewrite Hx.
Qed.

Lemma filter_idem {A} (p : A -> bool) (l : list A) :
  List.filter p (List.filter p l) = List.filter p l.
Proof.
  apply filter_all, Forall_forall. intros x Hx. by apply list_elem_of_In, filter_In in Hx as [_ Hx].
Qed.

Lemma slice_from_nat {A} (l : list A) (i : nat) : slice_from l (Z.of_nat i) = drop i l.
Proof.
  unfold slice_from, clamp_index. rewrite (proj2 (Z.ltb_ge _ _)) by lia.
  destruct (decide (i <= length l)%nat).
  - f_equal. lia.
  - rewrite !drop_ge; [done|lia|lia].
Qed.

Lemma findIndex_split {A} (p : A -> bool) (l : list A) (i : nat) :
  findIndex p l = Some i ->
  exists l1 x l2, l = l1 ++ x :: l2 /\ length l1 = i /\ p x = true /\ Forall (fun y => p y = false) l1.
Proof.
  revert i. induction l as [|a l IH]; intros i H; cbn in H; [done|]. destruct (p a) eqn:E.
  - injection H as <-. by exists [], a, l.
  - destruct (findIndex p l) as [k|]; [|done]. injection H as <-.
    destruct (IH k eq_refl) as (l1 & x & l2 & -> & <- & Hx & Hl).
    exists (a :: l1), x, l2. split_and!; [done..|by constructor].
Qed.

Lemma insert_at_length {A} (l1 l2 : list A) (x y : A) :
  <[length l1 := y]> (l1 ++ x :: l2) = l1 ++ y :: l2.
Proof. induction l1 as [|a l1 IH]; [done|]. cbn. f_equal. exact IH. Qed.

Lemma delete_at_length {A} (l1 l2 : list A) (x : A) : delete (length l1) (l1 ++ x :: l2) = l1 ++ l2.
Proof. apply delete_middle. Qed.

Lemma find_app {A} (p : A -> bool) (l1 l2 : list A) :
  find p (l1 ++ l2) = match find p l1 with Some x => Some x | None => find p l2 end.
Proof. induction l1 as [|a l1 IH]; [done|]. cbn. by destruct (p a). Qed.

Definition has_path (p : str) (r : AdvancedCustomRoute) : bool :=
  bool_decide (option_map trim (incoming_path r) = Some p).

Lemma has_path_normalize (p : str) (r : AdvancedCustomRoute) :
  p <> [] -> has_path p (normalizeAdvancedCustomRoute r) = has_path p r.
Proof.
  intros Hp. unfold has_path. destruct r as [[q|] u c ms a]; cbn.
  - by destruct q.
  - rewrite !bool_decide_eq_false_2; [done|done|]. intros [= H]. by subst.
Qed.

Lemma has_path_route_path (p : str) (r : AdvancedCustomRoute) :
  has_path p r = true -> route_path r = p.
Proof.
  unfold has_path, route_path. intros H. apply bool_decide_eq_true in H.
  destruct (incoming_path r); [|done]. by injection H.
Qed.

Lemma find_map_normalize (p : str) (rs : list AdvancedCustomRoute) :
  p <> [] -> find (has_path p) (map normalizeAdvancedCustomRoute rs) =
  normalizeAdvancedCustomRoute <$> find (has_path p) rs.
Proof.
  intros Hp. induction rs as [|r rs IH]; [done|]. cbn. rewrite has_path_normalize by done.
  by destruct (has_path p r).
Qed.

Lemma management_path_cases (p : str) :
  isAdvancedCustomManagementPath p = true ->
  p = ADVANCED_CUSTOM_MODEL_LIST_PATH \/ p = ADVANCED_CUSTOM_BALANCE_PATH.
Proof.
  unfold isAdvancedCustomManagementPath. intros H. apply orb_true_iff in H as [H|H];
    apply str_eqb_eq in H; auto.
Qed.

Lemma management_path_trim (p : str) :
  isAdvancedCustomManagementPath p = true -> p <> [] /\ trim p = p.
Proof. intros H. by destruct (management_path_cases p H) as [-> | ->]. Qed.

(** The route that is stored for the management path [p]. *)
Definition management_route (p : str) (r : AdvancedCustomRoute) : AdvancedCustomRoute :=
  MkRoute (Some p) (Some (ostr_or (upstream_path r) [])) (Some (js "none")) (Some []) (route_auth r).

Lemma replaced_routes (c : AdvancedCustomConfig) (p : str) (ro : option AdvancedCustomRoute) :
  exists l1 l2 new, normalized_routes (replaceAdvancedCustomManagementRoute c p ro) =
      map normalizeAdvancedCustomRoute (l1 ++ new ++ l2) /\
    (exists old, normalized_routes c = l1 ++ old ++ l2 /\ Forall (fun r => has_path p r = true) old) /\
    Forall (fun r => has_path p r = false) l1 /\
    new = match ro with Some r => [management_route p r] | None => [] end.
Proof.
  unfold replaceAdvancedCustomManagementRoute. fold (has_path p).
  set (rs := normalized_routes c). unfold normalized_routes at 1. cbn [advanced_routes].
  destruct (findIndex (has_path p) rs) as [i|] eqn:E.
  - apply findIndex_split in E as (l1 & x & l2 & Hrs & <- & Hx & Hl). rewrite Hrs.
    exists l1, l2. eexists. split; [|split; [exists [x]; by split; [|apply Forall_singleton]|by split]].
    destruct ro as [r|].
    + by rewrite insert_at_length.
    + by rewrite delete_at_length.
  - apply findIndex_None in E. exists rs, []. eexists.
    split; [|split; [exists []; by rewrite app_nil_r|by split]].
    rewrite app_nil_r. destruct ro; [done|]. by rewrite app_nil_r.
Qed.

Lemma has_path_management (p : str) (r : AdvancedCustomRoute) :
  isAdvancedCustomManagementPath p = true -> has_path p r = true -> is_management r = true.
Proof. intros Hp Hr. unfold is_management. by rewrite (has_path_route_path p r Hr). Qed.

Lemma new_route_path (p : str) (ro : option AdvancedCustomRoute) :
  isAdvancedCustomManagementPath p = true ->
  Forall (fun r => has_path p r = true)
    (match ro with Some r => [management_route p r] | None => [] end).
Proof.
  intros Hp. destruct ro; [|constructor]. apply Forall_singleton. unfold has_path. cbn.
  rewrite (proj2 (management_path_trim p Hp)). by apply bool_decide_eq_true_2.
Qed.

Lemma find_other (p q : str) (l : list AdvancedCustomRoute) :
  p <> q -> Forall (fun r => has_path p r = true) l -> find (has_path q) l = None.
Proof.
  intros Hne Hl. apply find_None. eapply Forall_impl; [exact Hl|]. intros r Hr.
  apply has_path_route_path in Hr. apply not_true_iff_false. intros Hq.
  apply has_path_route_path in Hq. congruence.
Qed.

(** Editing a management route leaves everything else alone: the forwarding
    routes and the other management route are as before, and the edited route is
    the one that is found. *)
Theorem management_edit_local (c : AdvancedCustomConfig) (p : str) (ro : option AdvancedCustomRoute) :
  isAdvancedCustomManagementPath p = true ->
  let c' := replaceAdvancedCustomManagementRoute c p ro in
  forwarding c' = forwarding c /\
  (forall q, q <> [] -> p <> q ->
    getAdvancedCustomManagementRoute c' q = getAdvancedCustomManagementRoute c q) /\
  (forall r, ro = Some r -> getAdvancedCustomManagementRoute c' p =
     Some (normalizeAdvancedCustomRoute (management_route p r))).
Proof.
  intros Hp c'. destruct (replaced_routes c p ro) as (l1 & l2 & new & Hc' & (old & Hc & Hold) & Hl1 & Hnew).
  assert (Hnewp : Forall (fun r => has_path p r = true) new) by (subst new; by apply new_route_path).
  assert (Hdrop : forall l, Forall (fun r => has_path p r = true) l ->
    List.filter (fun r => negb (is_management r)) l = []).
  { intros l Hl. apply filter_none. eapply Forall_impl; [exact Hl|]. intros r Hr.
    by rewrite (has_path_management p r Hp Hr). }
  pose proof (map_normalize_normalized c) as Hn.
  split; [|split].
  - unfold forwarding, c'. rewrite Hc', filter_map_normalize by (intros r; by rewrite normalize_management).
    rewrite <- Hn. rewrite filter_map_normalize by (intros r; by rewrite normalize_management).
    by rewrite Hc, !List.filter_app, (Hdrop new), (Hdrop old).
  - intros q Hq Hpq. unfold getAdvancedCustomManagementRoute, c'. fold (has_path q). rewrite Hc'.
    rewrite <- Hn. rewrite !find_map_normalize, Hc, !find_app by done.
    by rewrite (find_other p q new), (find_other p q old).
  - intros r ->. unfold getAdvancedCustomManagementRoute, c'. fold (has_path p). rewrite Hc'.
    rewrite find_map_normalize, find_app by (by apply management_path_trim).
    rewrite (proj2 (find_None _ l1) Hl1), Hnew. cbn [app find].
    subst new. apply Forall_inv in Hnewp. by rewrite Hnewp.
Qed.

(** Editing the forwarding routes leaves the management routes alone, and the
    forwarding routes are then the given ones. *)
Theorem forwarding_edit_local (c : AdvancedCustomConfig) (fw : list AdvancedCustomRoute) :
  Forall (fun r => is_management r = false) fw ->
  let c' := replaceAdvancedCustomForwardingRoutes c fw in
  management c' = management c /\ forwarding c' = map normalizeAdvancedCustomRoute fw.
Proof.
  intros Hfw c'.
  assert (Hc' : exists l1 l2, normalized_routes c' = map normalizeAdvancedCustomRoute (l1 ++ fw ++ l2) /\
    l1 ++ l2 = management c /\ Forall (fun r => is_management r = true) (l1 ++ l2)).
  { unfold c', replaceAdvancedCustomForwardingRoutes. unfold management.
    set (rs := normalized_routes c). unfold normalized_routes at 1. cbn [advanced_routes].
    assert (Hall : forall l, Forall (fun r => is_management r = true) (List.filter is_management l)).
    { intros l. apply Forall_forall. intros r Hr. by apply list_elem_of_In, filter_In in Hr as [_ Hr]. }
    destruct (findIndex _ rs) as [i|].
    - eexists _, _. split; [done|]. rewrite slice_0, slice_from_nat.
      rewrite <- List.filter_app, take_drop. by split.
    - exists (List.filter is_management rs), []. rewrite !app_nil_r. by split_and!. }
  destruct Hc' as (l1 & l2 & Hc' & Hm & Hall). apply Forall_app in Hall as [H1 H2].
  assert (Hneg : Forall (fun r => negb (is_management r) = true) fw).
  { eapply Forall_impl; [exact Hfw|]. intros r Hr. by rewrite Hr. }
  assert (Hno : forall l, Forall (fun r => is_management r = true) l ->
    List.filter (fun r => negb (is_management r)) l = []).
  { intros l Hl. apply filter_none. eapply Forall_impl; [exact Hl|]. intros r Hr. by rewrite Hr. }
  split.
  - unfold management at 1. rewrite Hc', filter_map_normalize by apply normalize_management.
    rewrite !List.filter_app, (filter_none _ fw), (filter_all _ l1), (filter_all _ l2) by done.
    cbn [app]. rewrite Hm. unfold management.
    rewrite <- filter_map_normalize by apply normalize_management. by rewrite map_normalize_normalized.
  - unfold forwarding. rewrite Hc', filter_map_normalize by (intros r; by rewrite normalize_management).
    rewrite !List.filter_app, (Hno l1), (Hno l2), (filter_all _ fw), app_nil_r by done. done.
Qed.

(** ** What the editor offers *)

(** The configuration with one route for [path] and the defaults of [conv]. *)
Definition default_config (conv path : str) : AdvancedCustomConfig :=
  let '(upstream, a) := getAdvancedCustomConverterDefaults conv path in
  MkCustomConfig (Some [MkRoute (Some path) (Some upstream) (Some conv) None (Some a)]).

(** What the editor offers is accepted, whatever URLs are: every template, the
    new configuration, and for every converter the defaults on each path that
    is offered for it. *)
Theorem offered_configs_accepted (isHttpURL : str -> bool) :
  (forall o, o ∈ ADVANCED_CUSTOM_TEMPLATE_OPTIONS ->
    validateAdvancedCustomConfig isHttpURL (Some (to_config o)) = None) /\
  validateAdvancedCustomConfig isHttpURL (Some createAdvancedCustomConfig) = None /\
  (forall o p, o ∈ ADVANCED_CUSTOM_CONVERTER_OPTIONS ->
    p ∈ getAdvancedCustomIncomingPathOptions (co_value o) ->
    validateAdvancedCustomConfig isHttpURL (Some (default_config (co_value o) (fst p))) = None).
Proof.
  set (accepted c := match validateAdvancedCustomConfig isHttpURL (Some c) with
                     | None => true | Some _ => false end).
  assert (Ha : forall c, accepted c = true -> validateAdvancedCustomConfig isHttpURL (Some c) = None).
  { intros c. unfold accepted. by destruct (validateAdvancedCustomConfig _ _). }
  assert (H1 : forallb (fun o => accepted (to_config o)) ADVANCED_CUSTOM_TEMPLATE_OPTIONS = true)
    by (vm_compute; reflexivity).
  assert (H2 : accepted createAdvancedCustomConfig = true) by (vm_compute; reflexivity).
  assert (H3 : forallb (fun o => forallb (fun p => accepted (default_config (co_value o) (fst p)))
      (getAdvancedCustomIncomingPathOptions (co_value o))) ADVANCED_CUSTOM_CONVERTER_OPTIONS = true)
    by (vm_compute; reflexivity).
  clearbody accepted. rewrite forallb_forall in H1, H3. split; [|split; [by apply Ha|]].
  - intros o Ho. apply Ha, H1. by apply list_elem_of_In.
  - intros o p Ho Hp. specialize (H3 o (proj1 (list_elem_of_In _ _) Ho)).
    rewrite forallb_forall in H3. apply Ha, H3. by apply list_elem_of_In.
Qed.

(** ** Concrete configurations *)

Definition sample_config : AdvancedCustomConfig :=
  MkCustomConfig (Some [createAdvancedCustomManagementRoute ADVANCED_CUSTOM_BALANCE_PATH;
                        createAdvancedCustomRoute]).

Lemma management_edit_local_witness :
  let r := createAdvancedCustomManagementRoute (js "/models") in
  let c' := replaceAdvancedCustomManagementRoute sample_config ADVANCED_CUSTOM_MODEL_LIST_PATH (Some r) in
  length (normalized_routes c') = 3%nat /\ forwarding c' = forwarding sample_config.
Proof.
  intros r c'. split; [vm_compute; reflexivity|].
  exact (proj1 (management_edit_local sample_config ADVANCED_CUSTOM_MODEL_LIST_PATH (Some r) eq_refl)).
Defined.

Lemma forwarding_edit_local_witness :
  let c' := replaceAdvancedCustomForwardingRoutes sample_config createClaudeNativeRoutes in
  management c' = management sample_config /\
  forwarding c' = map normalizeAdvancedCustomRoute createClaudeNativeRoutes.
Proof.
  refine (forwarding_edit_local sample_config createClaudeNativeRoutes _).
  apply Forall_cons_2; [vm_compute; reflexivity|apply Forall_nil_2].
Defined.

Lemma offered_configs_accepted_witness :
  validateAdvancedCustomConfig (fun _ => false) (Some (to_config all_protocols)) = None.
Proof.
  refine (proj1 (offered_configs_accepted (fun _ => false)) all_protocols _).
  apply elem_of_cons. left. reflexivity.
Defined.
