(* ===== verification/ParamOverride.v ===== *)
(** * Parameter overrides of a channel

    Models [src/web/src/features/channels/components/dialogs/param-override-editor-dialog.tsx]:
    the rules by which a channel rewrites requests, the drafts of the rules with
    a structured value, the validation, the reading and writing of the JSON text
    of the rules, and the state of the dialog that edits them.

    Rules, conditions and prune rules carry identifiers that the module makes
    from the clock and from a counter, [localIdSeed].  A function that makes
    identifiers is a computation [gen]: it takes the counter and returns the
    next one, and it may throw.  [clock n] is the reading of the clock when
    identifier [n] is made. *)

From stdpp Require Import base list.
From Stdlib Require Import ZArith NArith Lia.
From S2P Require Import Prelude JsString JsArray JsNumber JsJson.

Local Open Scope Z_scope.

(** ** Data *)

Record ParamOverrideCondition : Type := MkCondition {
  c_id : str;
  c_path : str;
  c_mode : str;
  c_value_text : str;
  c_invert : bool;
  c_pass_missing_key : bool;
}.

Record ParamOverrideOperation : Type := MkOperation {
  o_id : str;
  o_description : str;
  o_path : str;
  o_mode : str;
  o_from : str;
  o_to : str;
  o_value_text : str;
  o_keep_origin : bool;
  o_logic : str;
  o_conditions : list ParamOverrideCondition;
}.

(** ** The modes of rules and conditions *)

Definition OPERATION_MODE_OPTIONS : list (str * str) := [
  (js "set", js "Set Field");
  (js "delete", js "Delete Field");
  (js "append", js "Append to End");
  (js "prepend", js "Prepend to Start");
  (js "copy", js "Copy Field");
  (js "move", js "Move Field");
  (js "replace", js "String Replace");
  (js "regex_replace", js "Regex Replace");
  (js "trim_prefix", js "Trim Prefix");
  (js "trim_suffix", js "Trim Suffix");
  (js "ensure_prefix", js "Ensure Prefix");
  (js "ensure_suffix", js "Ensure Suffix");
  (js "trim_space", js "Trim Space");
  (js "to_lower", js "To Lowercase");
  (js "to_upper", js "To Uppercase");
  (js "return_error", js "Return Custom Error");
  (js "prune_objects", js "Prune Object Items");
  (js "pass_headers", js "Pass Through Headers");
  (js "sync_fields", js "Sync Fields");
  (js "set_header", js "Set Request Header");
  (js "delete_header", js "Delete Request Header");
  (js "copy_header", js "Copy Request Header");
  (js "move_header", js "Move Request Header")].

Definition OPERATION_MODE_VALUES : list str := map fst OPERATION_MODE_OPTIONS.

Definition OPERATION_MODE_LABEL_MAP : list (str * str) := OPERATION_MODE_OPTIONS.

Definition CONDITION_MODE_VALUES : list str := [
  js "full"; js "prefix"; js "suffix"; js "contains"; js "gt"; js "gte"; js "lt"; js "lte"].

(** What a mode uses; [m_to] is [Some false] where the source writes
    [to: false], which shows the field without requiring it. *)
Record ModeMeta : Type := MkMeta {
  m_path : bool;
  m_pathOptional : bool;
  m_value : bool;
  m_from : bool;
  m_to : option bool;
  m_keepOrigin : bool;
  m_pathAlias : bool;
}.

Definition meta_path : ModeMeta := MkMeta true false false false None false false.
Definition meta_path_value : ModeMeta := MkMeta true false true false None false false.
Definition meta_path_value_keep : ModeMeta := MkMeta true false true false None true false.
Definition meta_from_to : ModeMeta := MkMeta false false false true (Some true) false false.
Definition meta_replace : ModeMeta := MkMeta true false false true (Some false) false false.
Definition meta_header_pair : ModeMeta := MkMeta false false false true (Some true) true true.

Definition MODE_META : list (str * ModeMeta) := [
  (js "delete", meta_path);
  (js "set", meta_path_value_keep);
  (js "append", meta_path_value_keep);
  (js "prepend", meta_path_value_keep);
  (js "copy", meta_from_to);
  (js "move", meta_from_to);
  (js "replace", meta_replace);
  (js "regex_replace", meta_replace);
  (js "trim_prefix", meta_path_value);
  (js "trim_suffix", meta_path_value);
  (js "ensure_prefix", meta_path_value);
  (js "ensure_suffix", meta_path_value);
  (js "trim_space", meta_path);
  (js "to_lower", meta_path);
  (js "to_upper", meta_path);
  (js "return_error", MkMeta false false true false None false false);
  (js "prune_objects", MkMeta false true true false None false false);
  (js "pass_headers", MkMeta false false true false None true false);
  (js "sync_fields", meta_from_to);
  (js "set_header", meta_path_value_keep);
  (js "delete_header", meta_path);
  (js "copy_header", meta_header_pair);
  (js "move_header", meta_header_pair)].

(** [operation.mode || 'set'] and [MODE_META[mode] || MODE_META.set]. *)
Definition mode_of (o : ParamOverrideOperation) : str := str_or (o_mode o) "set".

Definition meta_of (mode : str) : ModeMeta :=
  nullish (obj_get mode MODE_META) meta_path_value_keep.

Definition VALUE_REQUIRED_MODES : list str := [
  js "trim_prefix"; js "trim_suffix"; js "ensure_prefix"; js "ensure_suffix";
  js "set_header"; js "return_error"; js "prune_objects"; js "pass_headers"].

Definition FROM_REQUIRED_MODES : list str := [
  js "copy"; js "move"; js "replace"; js "regex_replace"; js "copy_header";
  js "move_header"; js "sync_fields"].

Definition TO_REQUIRED_MODES : list str := [
  js "copy"; js "move"; js "copy_header"; js "move_header"; js "sync_fields"].

(** ** Computations that make identifiers *)

Definition gen (A : Type) : Type := Z -> res A * Z.

Definition gret {A} (a : A) : gen A := fun seed => (Ok a, seed).
Definition glift {A} (m : res A) : gen A := fun seed => (m, seed).

Definition gbind {A B} (m : gen A) (k : A -> gen B) : gen B := fun seed =>
  match m seed with
  | (Ok a, seed') => k a seed'
  | (Throw, seed') => (Throw, seed')
  end.

Notation "'let?' x ':=' m 'in' k" := (gbind m (fun x => k))
  (at level 10, x pattern, m at level 100, k at level 200).

(** [l.map(f)]. *)
Fixpoint gmapM {A B} (f : A -> gen B) (l : list A) : gen (list B) :=
  match l with
  | [] => gret []
  | x :: l' => let? y := f x in let? ys := gmapM f l' in gret (y :: ys)
  end.

(** ** Values as text *)

Definition toValueText (value : option json) : str :=
  match value with
  | None => []
  | Some (JStr s) => s
  | Some v => stringify v
  end.

Definition parseLooseValue (valueText : str) : json :=
  let raw := trim valueText in
  if raw =?s [] then JStr []
  else match json_parse raw with
       | Some v => v
       | None => JStr raw
       end.

Definition verifyJSON (text : str) : bool := bool_decide (is_Some (json_parse text)).

(** [typeof v === 'string' ? v : '']. *)
Definition string_or_empty (v : option json) : str :=
  match v with Some (JStr s) => s | _ => [] end.

(** [VALUES.has(v) ? v : d]. *)
Definition choice_or (values : list str) (v : option json) (d : str) : str :=
  match v with
  | Some (JStr s) => if mem_str s values then s else d
  | _ => d
  end.

(** [v === true]. *)
Definition is_true (v : option json) : bool :=
  match v with Some (JBool true) => true | _ => false end.

(** [v === false]. *)
Definition is_false (v : option json) : bool :=
  match v with Some (JBool false) => true | _ => false end.

Section Editor.
Context {CM : CaseMapping}.
Variable clock : Z -> Z.

(** ** Making rules and conditions *)

Definition local_id (n : Z) : str := "po_" ++ string_of_Z (clock n) ++ "_" ++ string_of_Z n.

Definition nextLocalId : gen str := fun seed => (Ok (local_id seed), seed + 1).

Definition normalizeCondition (condition : json) : gen ParamOverrideCondition :=
  let? id := nextLocalId in
  let? path := glift (prop "path" condition) in
  let? mode := glift (prop "mode" condition) in
  let? value := glift (prop "value" condition) in
  let? invert := glift (prop "invert" condition) in
  let? pass_missing_key := glift (prop "pass_missing_key" condition) in
  gret (MkCondition id (string_or_empty path) (choice_or CONDITION_MODE_VALUES mode "full")
          (toValueText value) (is_true invert) (is_true pass_missing_key)).

Definition createDefaultCondition : gen ParamOverrideCondition := normalizeCondition (JObj []).

(** [String(logic || d).toUpperCase() === w ? w : d]. *)
Definition logic_or (w d : str) (logic : option json) : str :=
  if toUpperCase (json_to_string (ojson_or logic d)) =?s w then w else d.

Definition normalizeOperation (operation : json) : gen ParamOverrideOperation :=
  let? id := nextLocalId in
  let? description := glift (prop "description" operation) in
  let? path := glift (prop "path" operation) in
  let? mode := glift (prop "mode" operation) in
  let? value := glift (prop "value" operation) in
  let? keep_origin := glift (prop "keep_origin" operation) in
  let? from := glift (prop "from" operation) in
  let? to := glift (prop "to" operation) in
  let? logic := glift (prop "logic" operation) in
  let? conditions := glift (prop "conditions" operation) in
  let? conditions :=
    match conditions with
    | Some (JArr l) => gmapM normalizeCondition l
    | _ => gret []
    end in
  gret (MkOperation id (string_or_empty description) (string_or_empty path)
          (choice_or OPERATION_MODE_VALUES mode "set") (string_or_empty from) (string_or_empty to)
          (toValueText value) (is_true keep_origin) (logic_or "AND" "OR" logic) conditions).

Definition createDefaultOperation : gen ParamOverrideOperation :=
  normalizeOperation (JObj [(js "mode", JStr "set")]).

(** ** Order, blanks and summaries *)

Inductive Position : Type := Before | After.

Definition reorderOperations (ops : list ParamOverrideOperation) (sourceId targetId : str)
    (position : Position) : list ParamOverrideOperation :=
  if negb (truthy_str sourceId) || negb (truthy_str targetId) || (sourceId =?s targetId) then ops
  else
    match findIndex (fun o => o_id o =?s sourceId) ops with
    | None => ops
    | Some srcIdx =>
        match ops !! srcIdx with
        | None => ops
        | Some moved =>
            let next := take srcIdx ops ++ drop (S srcIdx) ops in
            match findIndex (fun o => o_id o =?s targetId) next with
            | None => ops
            | Some insertIdx =>
                let insertIdx := match position with After => S insertIdx | Before => insertIdx end in
                take insertIdx next ++ moved :: drop insertIdx next
            end
        end
    end.

Definition isOperationBlank (operation : ParamOverrideOperation) : bool :=
  let hasCondition := existsb (fun c =>
    truthy_str (trim (c_path c)) || truthy_str (trim (c_value_text c))
    || negb (c_mode c =?s "full") || c_invert c || c_pass_missing_key c) (o_conditions operation) in
  (o_mode operation =?s "set") && negb (truthy_str (trim (o_path operation)))
  && negb (truthy_str (trim (o_from operation))) && negb (truthy_str (trim (o_to operation)))
  && (trim (o_value_text operation) =?s []) && negb (o_keep_origin operation) && negb hasCondition.

Definition getOperationSummary (operation : ParamOverrideOperation) (index : Z) : str :=
  let mode := mode_of operation in
  let modeLabel := ostr_or (obj_get mode OPERATION_MODE_LABEL_MAP) mode in
  let path := trim (o_path operation) in
  let from := trim (o_from operation) in
  let to := trim (o_to operation) in
  string_of_Z (index + 1) ++ ". " ++ modeLabel ++ " · " ++
  (if mode =?s "sync_fields" then str_or from (str_or to "-") else str_or path (str_or from (str_or to "-"))).

(** ** The endpoints of a sync *)

Record SyncTarget : Type := MkSyncTarget { st_type : str; st_key : str }.

Definition parseSyncTargetSpec (spec : str) : SyncTarget :=
  let raw := trim spec in
  if negb (truthy_str raw) then MkSyncTarget "json" []
  else
    let idx := indexOf raw ":" 0 in
    if idx <? 0 then MkSyncTarget "json" raw
    else
      let prefix := toLowerCase (trim (slice raw 0 idx)) in
      let key := trim (slice_from raw (idx + 1)) in
      if prefix =?s "header" then MkSyncTarget "header" key else MkSyncTarget "json" key.

Definition buildSyncTargetSpec (type key : str) : str :=
  let normalizedType := if type =?s "header" then js "header" else js "json" in
  let normalizedKey := trim key in
  if negb (truthy_str normalizedKey) then [] else normalizedType ++ ":" ++ normalizedKey.

(** ** The draft of a custom error *)

Record ReturnErrorDraft : Type := MkErrorDraft {
  re_message : str;
  re_statusCode : num;
  re_code : str;
  re_type : str;
  re_skipRetry : bool;
  re_simpleMode : bool;
}.

(** [String(a || '').trim()]. *)
Definition text_or_empty (v : option json) : str := trim (json_to_string (ojson_or v [])).

(** [Number.isInteger(n) && n >= 100 && n <= 599 ? n : 400]. *)
Definition http_status_or_400 (n : num) : num :=
  if isInteger n && num_le (num_of_Z 100) n && num_le n (num_of_Z 599) then n else num_of_Z 400.

Definition parseReturnErrorDraft (valueText : str) : ReturnErrorDraft :=
  let raw := trim valueText in
  if negb (truthy_str raw) then MkErrorDraft [] (num_of_Z 400) [] [] true true
  else
    match json_parse raw with
    | Some (JObj parsed) =>
        let statusRaw :=
          match obj_get "status_code" parsed with
          | Some v => Some v
          | None => obj_get "status" parsed
          end in
        let message :=
          if truthy_ojson (obj_get "message" parsed) then obj_get "message" parsed
          else obj_get "msg" parsed in
        MkErrorDraft (text_or_empty message) (http_status_or_400 (Number_json statusRaw))
          (text_or_empty (obj_get "code" parsed)) (text_or_empty (obj_get "type" parsed))
          (negb (is_false (obj_get "skip_retry" parsed))) false
    | _ => MkErrorDraft raw (num_of_Z 400) [] [] true true
    end.

Definition buildReturnErrorValueText (draft : ReturnErrorDraft) : str :=
  let message := trim (re_message draft) in
  if re_simpleMode draft then message
  else
    let payload := [(js "message", JStr message);
                    (js "status_code", JNum (http_status_or_400 (re_statusCode draft)))] in
    let code := trim (re_code draft) in
    let type := trim (re_type draft) in
    let payload := if truthy_str code then obj_set "code" (JStr code) payload else payload in
    let payload := if truthy_str type then obj_set "type" (JStr type) payload else payload in
    let payload := if re_skipRetry draft then payload
                   else obj_set "skip_retry" (JBool false) payload in
    stringify (JObj payload).

(** ** The draft of a prune rule *)

Record PruneRule : Type := MkPruneRule {
  p_id : str;
  p_path : str;
  p_mode : str;
  p_value_text : str;
  p_invert : bool;
  p_pass_missing_key : bool;
}.

Record PruneObjectsDraft : Type := MkPruneDraft {
  pd_simpleMode : bool;
  pd_typeText : str;
  pd_logic : str;
  pd_recursive : bool;
  pd_rules : list PruneRule;
}.

Definition normalizePruneRule (rule : json) : gen PruneRule :=
  let? id := nextLocalId in
  let? path := glift (prop "path" rule) in
  let? mode := glift (prop "mode" rule) in
  let? value := glift (prop "value" rule) in
  let? invert := glift (prop "invert" rule) in
  let? pass_missing_key := glift (prop "pass_missing_key" rule) in
  gret (MkPruneRule id (string_or_empty path) (choice_or CONDITION_MODE_VALUES mode "full")
          (toValueText value) (is_true invert) (is_true pass_missing_key)).

(** [for (const [path, value] of Object.entries(o))
     rules.push(normalizePruneRule({ path, mode: 'full', value }))]. *)
Definition entry_rules (o : list (str * json)) : gen (list PruneRule) :=
  gmapM (fun kv => normalizePruneRule
    (JObj [(js "path", JStr (fst kv)); (js "mode", JStr "full"); (js "value", snd kv)])) o.

(** [item && typeof item === 'object']. *)
Definition is_object (v : json) : bool :=
  match v with JObj _ | JArr _ => true | _ => false end.

Definition whereRules (where_ : option json) : gen (list PruneRule) :=
  match where_ with Some (JObj o) => entry_rules o | _ => gret [] end.

Definition conditionRules (conditions : option json) : gen (list PruneRule) :=
  match conditions with
  | Some (JArr l) => gmapM normalizePruneRule (List.filter is_object l)
  | Some (JObj o) => entry_rules o
  | _ => gret []
  end.

Definition defined {A} (v : option A) : bool := match v with Some _ => true | None => false end.

Definition parsePruneObjectsDraft (valueText : str) : gen PruneObjectsDraft :=
  let raw := trim valueText in
  if negb (truthy_str raw) then gret (MkPruneDraft true [] "AND" true [])
  else
    match json_parse raw with
    | Some (JStr s) => gret (MkPruneDraft true (trim s) "AND" true [])
    | Some (JObj parsed) =>
        let? rules1 := whereRules (obj_get "where" parsed) in
        let? rules2 := conditionRules (obj_get "conditions" parsed) in
        let typeText :=
          match obj_get "type" parsed with None => [] | Some v => trim (json_to_string v) end in
        let hasAdvancedFields :=
          defined (obj_get "logic" parsed) || defined (obj_get "recursive" parsed)
          || defined (obj_get "where" parsed) || defined (obj_get "conditions" parsed) in
        gret (MkPruneDraft (negb hasAdvancedFields) typeText
                (logic_or "OR" "AND" (obj_get "logic" parsed))
                (negb (is_false (obj_get "recursive" parsed))) (rules1 ++ rules2))
    | Some JNull => gret (MkPruneDraft true [] "AND" true [])
    | Some parsed => gret (MkPruneDraft true (trim (json_to_string parsed)) "AND" true [])
    | None => gret (MkPruneDraft true raw "AND" true [])
    end.

Definition prune_condition (rule : PruneRule) : json :=
  let payload := [(js "path", JStr (trim (p_path rule)));
                  (js "mode", JStr (if mem_str (p_mode rule) CONDITION_MODE_VALUES then p_mode rule else js "full"))] in
  let valueRaw := trim (p_value_text rule) in
  let payload := if valueRaw =?s [] then payload
                 else obj_set "value" (parseLooseValue valueRaw) payload in
  let payload := if p_invert rule then obj_set "invert" (JBool true) payload else payload in
  let payload := if p_pass_missing_key rule then obj_set "pass_missing_key" (JBool true) payload
                 else payload in
  JObj payload.

Definition buildPruneObjectsValueText (draft : PruneObjectsDraft) : str :=
  let typeText := trim (pd_typeText draft) in
  if pd_simpleMode draft then typeText
  else
    let payload := if truthy_str typeText then [(js "type", JStr typeText)] else [] in
    let payload := if toUpperCase (str_or (pd_logic draft) "AND") =?s "OR"
                   then obj_set "logic" (JStr "OR") payload else payload in
    let payload := if pd_recursive draft then payload
                   else obj_set "recursive" (JBool false) payload in
    let conditions := map prune_condition
      (List.filter (fun rule => truthy_str (trim (p_path rule))) (pd_rules draft)) in
    let payload := if (0 <? Z.of_nat (length conditions)) then obj_set "conditions" (JArr conditions) payload
                   else payload in
    if negb (truthy_ojson (obj_get "type" payload)) && negb (truthy_ojson (obj_get "conditions" payload))
    then stringify (JObj [(js "logic", JStr "AND")])
    else stringify (JObj payload).

(** ** The headers that are passed *)

(** [String(i ?? '').trim()]. *)
Definition header_text (v : json) : str :=
  match v with JNull => [] | _ => trim (json_to_string v) end.

Definition parsePassHeaderNames (rawValue : json) : list str :=
  match rawValue with
  | JArr l => filter_truthy (map header_text l)
  | JObj obj =>
      match obj_get "headers" obj with
      | Some (JArr l) => filter_truthy (map header_text l)
      | _ =>
          match obj_get "header" obj with
          | Some v => filter_truthy [header_text v]
          | None => []
          end
      end
  | JStr s => filter_truthy (map trim (split_char ","%char s))
  | _ => []
  end.

(** ** Validation *)

Inductive RuleError : Type :=
  | MissingTargetPath | MissingSource | MissingTarget | MissingValue
  | ErrorWithoutMessage | PruneWithoutConditions | NoHeaderNames | HeaderFormat.

(** The checks of one rule, in the order of the source; [None] is a pass. *)
Definition checkValue (mode : str) (value_text : str) : option RuleError :=
  let raw := trim value_text in
  if mem_str mode VALUE_REQUIRED_MODES && (raw =?s []) then Some MissingValue
  else if mode =?s "return_error" then
    if negb (truthy_str raw) then Some MissingValue
    else
      match json_parse raw with
      | Some (JObj parsed) =>
          if negb (truthy_str (text_or_empty (obj_get "message" parsed))) then Some ErrorWithoutMessage
          else None
      | _ => None
      end
  else if mode =?s "prune_objects" then
    if negb (truthy_str raw) then Some PruneWithoutConditions else None
  else if mode =?s "pass_headers" then
    if negb (truthy_str raw) then Some NoHeaderNames
    else if (Z.of_nat (length (parsePassHeaderNames (parseLooseValue raw))) =? 0) then Some HeaderFormat
    else None
  else None.

Definition checkOperation (op : ParamOverrideOperation) : option RuleError :=
  let mode := mode_of op in
  let meta := meta_of mode in
  let pathValue := truthy_str (trim (o_path op)) in
  let fromValue := truthy_str (trim (o_from op)) in
  let toValue := truthy_str (trim (o_to op)) in
  if m_path meta && negb pathValue then Some MissingTargetPath
  else if mem_str mode FROM_REQUIRED_MODES && negb fromValue && negb (m_pathAlias meta && pathValue)
  then Some MissingSource
  else if mem_str mode TO_REQUIRED_MODES && negb toValue && negb (m_pathAlias meta && pathValue)
  then Some MissingTarget
  else checkValue mode (o_value_text op).

(** The error of the first rule that has one, with its line. *)
Fixpoint validateFrom (line : Z) (operations : list ParamOverrideOperation) : option (RuleError * Z) :=
  match operations with
  | [] => None
  | op :: operations' =>
      match checkOperation op with
      | Some e => Some (e, line)
      | None => validateFrom (line + 1) operations'
      end
  end.

Definition validateOperations (operations : list ParamOverrideOperation) : option (RuleError * Z) :=
  validateFrom 1 operations.

(** ** The JSON text of the rules *)

Definition buildConditionPayload (condition : ParamOverrideCondition) : option json :=
  let path := trim (c_path condition) in
  if negb (truthy_str path) then None
  else
    let payload := [(js "path", JStr path); (js "mode", JStr (str_or (c_mode condition) "full"));
                    (js "value", parseLooseValue (c_value_text condition))] in
    let payload := if c_invert condition then obj_set "invert" (JBool true) payload else payload in
    let payload := if c_pass_missing_key condition then obj_set "pass_missing_key" (JBool true) payload
                   else payload in
    Some (JObj payload).

(** [if (b) payload[k] = v]. *)
Definition put_if (b : bool) (k : str) (v : json) (payload : list (str * json)) : list (str * json) :=
  if b then obj_set k v payload else payload.

Definition operationPayload (operation : ParamOverrideOperation) : json :=
  let mode := mode_of operation in
  let meta := meta_of mode in
  let descriptionValue := trim (o_description operation) in
  let pathValue := trim (o_path operation) in
  let fromValue := trim (o_from operation) in
  let toValue := trim (o_to operation) in
  let payload := [(js "mode", JStr mode)] in
  let payload := put_if (truthy_str descriptionValue) "description" (JStr descriptionValue) payload in
  let payload := put_if (m_path meta) "path" (JStr pathValue) payload in
  let payload := put_if (m_pathOptional meta && truthy_str pathValue) "path" (JStr pathValue) payload in
  let payload := put_if (m_value meta) "value" (parseLooseValue (o_value_text operation)) payload in
  let payload := put_if (m_keepOrigin meta && o_keep_origin operation) "keep_origin" (JBool true) payload in
  let payload := put_if (m_from meta) "from" (JStr fromValue) payload in
  let payload := put_if (negb (truthy_ob (m_to meta)) && truthy_str toValue) "to" (JStr toValue) payload in
  let payload := put_if (truthy_ob (m_to meta)) "to" (JStr toValue) payload in
  let payload :=
    if m_pathAlias meta then
      let payload := put_if (negb (truthy_ojson (obj_get "from" payload)) && truthy_str pathValue)
                       "from" (JStr pathValue) payload in
      put_if (negb (truthy_ojson (obj_get "to" payload)) && truthy_str pathValue)
        "to" (JStr pathValue) payload
    else payload in
  let conditions := omap buildConditionPayload (o_conditions operation) in
  let payload :=
    if 0 <? Z.of_nat (length conditions) then
      obj_set "logic" (JStr (if o_logic operation =?s "AND" then js "AND" else js "OR"))
        (obj_set "conditions" (JArr conditions) payload)
    else payload in
  JObj payload.

(** The payload of the rules that are not blank. *)
Definition operationsPayload (ops : list ParamOverrideOperation) : json :=
  JObj [(js "operations", JArr (map operationPayload ops))].

Definition buildOperationsJson (sourceOperations : list ParamOverrideOperation) (validate : bool)
    : (RuleError * Z) + str :=
  let filteredOps := List.filter (fun o => negb (isOperationBlank o)) sourceOperations in
  if Z.of_nat (length filteredOps) =? 0 then inr []
  else
    match (if validate then validateOperations filteredOps else None) with
    | Some message => inl message
    | None => inr (stringify_indent [] (operationsPayload filteredOps))
    end.

(** ** The state of the dialog *)

Inductive EditMode : Type := Visual | JsonText.
Inductive VisualMode : Type := Operations | Legacy.

(** The messages of the dialog. *)
Inductive EditorError : Type :=
  | InvalidJsonFormat          (* Invalid JSON format *)
  | JsonFormatError            (* JSON format error *)
  | OverrideMustBeJson         (* Parameter override must be valid JSON format *)
  | OverrideMustBeObject       (* Parameter override must be a valid JSON object *)
  | LegacyMustBeObject         (* Legacy format must be a JSON object *)
  | LegacyInvalid              (* Current legacy JSON is invalid, cannot append *)
  | RuleInvalid (e : RuleError) (line : Z).

Record EditorState : Type := MkEditorState {
  es_editMode : EditMode;
  es_visualMode : VisualMode;
  es_legacyValue : str;
  es_operations : list ParamOverrideOperation;
  es_jsonText : str;
  es_jsonError : option EditorError;
}.

(** [list.length > 0 ? list.map(normalizeOperation) : [createDefaultOperation()]]. *)
Definition operationsOrDefault (l : list json) : gen (list ParamOverrideOperation) :=
  match l with
  | [] => let? op := createDefaultOperation in gret [op]
  | _ => gmapM normalizeOperation l
  end.

Definition parseInitialState (rawValue : str) : gen EditorState :=
  let trimmed := trim rawValue in
  if negb (truthy_str trimmed) then
    let? op := createDefaultOperation in
    gret (MkEditorState Visual Operations [] [op] [] None)
  else
    match json_parse trimmed with
    | None =>
        let? op := createDefaultOperation in
        gret (MkEditorState JsonText Operations [] [op] rawValue (Some InvalidJsonFormat))
    | Some parsed =>
        let pretty := stringify_indent [] parsed in
        match parsed with
        | JObj o =>
            match obj_get "operations" o with
            | Some (JArr l) =>
                let? ops := operationsOrDefault l in
                gret (MkEditorState Visual Operations [] ops pretty None)
            | _ =>
                let? op := createDefaultOperation in
                gret (MkEditorState Visual Legacy pretty [op] pretty None)
            end
        | _ =>
            let? op := createDefaultOperation in
            gret (MkEditorState JsonText Operations [] [op] pretty None)
        end
    end.

(** The state of the component, with the counter of the module. *)
Record Editor : Type := MkEditor {
  editMode : EditMode;
  visualMode : VisualMode;
  legacyValue : str;
  operations : list ParamOverrideOperation;
  jsonText : str;
  jsonError : option EditorError;
  operationSearch : str;
  selectedOperationId : str;
  expandedConditions : list (str * bool);
  draggedOperationId : str;
  dragOverOperationId : str;
  dragOverPosition : Position;
  templatePresetKey : str;
  localIdSeed : Z;
}.

Definition set_editMode v s := MkEditor v (visualMode s) (legacyValue s) (operations s) (jsonText s) (jsonError s) (operationSearch s) (selectedOperationId s) (expandedConditions s) (draggedOperationId s) (dragOverOperationId s) (dragOverPosition s) (templatePresetKey s) (localIdSeed s).
Definition set_visualMode v s := MkEditor (editMode s) v (legacyValue s) (operations s) (jsonText s) (jsonError s) (operationSearch s) (selectedOperationId s) (expandedConditions s) (draggedOperationId s) (dragOverOperationId s) (dragOverPosition s) (templatePresetKey s) (localIdSeed s).
Definition set_legacyValue v s := MkEditor (editMode s) (visualMode s) v (operations s) (jsonText s) (jsonError s) (operationSearch s) (selectedOperationId s) (expandedConditions s) (draggedOperationId s) (dragOverOperationId s) (dragOverPosition s) (templatePresetKey s) (localIdSeed s).
Definition set_operations v s := MkEditor (editMode s) (visualMode s) (legacyValue s) v (jsonText s) (jsonError s) (operationSearch s) (selectedOperationId s) (expandedConditions s) (draggedOperationId s) (dragOverOperationId s) (dragOverPosition s) (templatePresetKey s) (localIdSeed s).
Definition set_jsonText v s := MkEditor (editMode s) (visualMode s) (legacyValue s) (operations s) v (jsonError s) (operationSearch s) (selectedOperationId s) (expandedConditions s) (draggedOperationId s) (dragOverOperationId s) (dragOverPosition s) (templatePresetKey s) (localIdSeed s).
Definition set_jsonError v s := MkEditor (editMode s) (visualMode s) (legacyValue s) (operations s) (jsonText s) v (operationSearch s) (selectedOperationId s) (expandedConditions s) (draggedOperationId s) (dragOverOperationId s) (dragOverPosition s) (templatePresetKey s) (localIdSeed s).
Definition set_operationSearch v s := MkEditor (editMode s) (visualMode s) (legacyValue s) (operations s) (jsonText s) (jsonError s) v (selectedOperationId s) (expandedConditions s) (draggedOperationId s) (dragOverOperationId s) (dragOverPosition s) (templatePresetKey s) (localIdSeed s).
Definition set_selected v s := MkEditor (editMode s) (visualMode s) (legacyValue s) (operations s) (jsonText s) (jsonError s) (operationSearch s) v (expandedConditions s) (draggedOperationId s) (dragOverOperationId s) (dragOverPosition s) (templatePresetKey s) (localIdSeed s).
Definition set_expanded v s := MkEditor (editMode s) (visualMode s) (legacyValue s) (operations s) (jsonText s) (jsonError s) (operationSearch s) (selectedOperationId s) v (draggedOperationId s) (dragOverOperationId s) (dragOverPosition s) (templatePresetKey s) (localIdSeed s).
Definition set_drag d o p s := MkEditor (editMode s) (visualMode s) (legacyValue s) (operations s) (jsonText s) (jsonError s) (operationSearch s) (selectedOperationId s) (expandedConditions s) d o p (templatePresetKey s) (localIdSeed s).
Definition set_preset v s := MkEditor (editMode s) (visualMode s) (legacyValue s) (operations s) (jsonText s) (jsonError s) (operationSearch s) (selectedOperationId s) (expandedConditions s) (draggedOperationId s) (dragOverOperationId s) (dragOverPosition s) v (localIdSeed s).
Definition set_seed v s := MkEditor (editMode s) (visualMode s) (legacyValue s) (operations s) (jsonText s) (jsonError s) (operationSearch s) (selectedOperationId s) (expandedConditions s) (draggedOperationId s) (dragOverOperationId s) (dragOverPosition s) (templatePresetKey s) v.

(** Runs a computation that makes identifiers; when it throws, the handler ends
    there and leaves the state, but the counter has advanced. *)
Definition run_gen {A} (m : gen A) (s : Editor) (k : A -> Editor -> Editor) : Editor :=
  match m (localIdSeed s) with
  | (Ok a, seed) => k a (set_seed seed s)
  | (Throw, seed) => set_seed seed s
  end.

(** [list[0]?.id || '']. *)
Definition first_id (ops : list ParamOverrideOperation) : str :=
  match ops with o :: _ => o_id o | [] => [] end.

(** The state that the component starts with, and that it returns to when it is
    opened with another value. *)
Definition initialEditor (st : EditorState) (preset : str) (seed : Z) : Editor :=
  MkEditor (es_editMode st) (es_visualMode st) (es_legacyValue st) (es_operations st)
    (es_jsonText st) (es_jsonError st) [] (first_id (es_operations st)) [] [] [] Before preset seed.

Definition openEditor (value : str) (seed : Z) : res Editor :=
  match parseInitialState value seed with
  | (Ok st, seed') => Ok (initialEditor st "operations_default" seed')
  | (Throw, _) => Throw
  end.

Definition resetForValue (value : str) (s : Editor) : res Editor :=
  match parseInitialState value (localIdSeed s) with
  | (Ok st, seed') =>
      Ok (initialEditor st (match es_visualMode st with Legacy => js "legacy_default"
                            | Operations => js "operations_default" end) seed')
  | (Throw, _) => Throw
  end.

(** ** What the dialog shows *)

Definition operationCount (s : Editor) : Z :=
  Z.of_nat (length (List.filter (fun o => negb (isOperationBlank o)) (operations s))).

Definition filteredOperations (s : Editor) : list ParamOverrideOperation :=
  let keyword := toLowerCase (trim (operationSearch s)) in
  if negb (truthy_str keyword) then operations s
  else List.filter (fun op =>
    includes (toLowerCase (str_join " " (filter_truthy
      [o_description op; o_mode op; o_path op; o_from op; o_to op; o_value_text op]))) keyword) (operations s).

Definition effectiveSelectedOperationId (s : Editor) : str :=
  if existsb (fun o => o_id o =?s selectedOperationId s) (operations s) then selectedOperationId s
  else first_id (operations s).

Definition selectedOperation (s : Editor) : option ParamOverrideOperation :=
  find (fun o => o_id o =?s effectiveSelectedOperationId s) (operations s).

Definition returnErrorDraft (s : Editor) : option ReturnErrorDraft :=
  match selectedOperation s with
  | Some op => if o_mode op =?s "return_error" then Some (parseReturnErrorDraft (o_value_text op)) else None
  | None => None
  end.

(** Reading the draft of the selected rule makes identifiers. *)
Definition pruneObjectsDraft (s : Editor) : gen (option PruneObjectsDraft) :=
  match selectedOperation s with
  | Some op =>
      if o_mode op =?s "prune_objects" then
        let? draft := parsePruneObjectsDraft (o_value_text op) in gret (Some draft)
      else gret None
  | None => gret None
  end.

Definition topOperationModes (s : Editor) : list (str * Z) :=
  let counts := fold_left (fun counts op =>
    obj_set (mode_of op) (nullish (obj_get (mode_of op) counts) 0 + 1) counts) (operations s) [] in
  take 4 (sort_by (fun a b => snd b - snd a) counts).

(** ** Rules *)

(** [prev.map((o) => (o.id === operationId ? f(o) : o))]. *)
Definition map_operation (operationId : str) (f : ParamOverrideOperation -> ParamOverrideOperation)
    (ops : list ParamOverrideOperation) : list ParamOverrideOperation :=
  map (fun o => if o_id o =?s operationId then f o else o) ops.

(** A patch of a rule: the fields that the editor of a rule writes. *)
Inductive OperationPatch : Type :=
  | PatchMode (v : str) | PatchPath (v : str) | PatchDescription (v : str) | PatchValueText (v : str)
  | PatchKeepOrigin (v : bool) | PatchFrom (v : str) | PatchTo (v : str) | PatchLogic (v : str)
  | PatchFromTo (from to : str).

Definition patch_operation (p : OperationPatch) (o : ParamOverrideOperation) : ParamOverrideOperation :=
  let '(MkOperation id d pa m f t v k l cs) := o in
  match p with
  | PatchMode m' => MkOperation id d pa m' f t v k l cs
  | PatchPath pa' => MkOperation id d pa' m f t v k l cs
  | PatchDescription d' => MkOperation id d' pa m f t v k l cs
  | PatchValueText v' => MkOperation id d pa m f t v' k l cs
  | PatchKeepOrigin k' => MkOperation id d pa m f t v k' l cs
  | PatchFrom f' => MkOperation id d pa m f' t v k l cs
  | PatchTo t' => MkOperation id d pa m f t' v k l cs
  | PatchLogic l' => MkOperation id d pa m f t v k l' cs
  | PatchFromTo f' t' => MkOperation id d pa m f' t' v k l cs
  end.

Definition updateOperation (operationId : str) (patch : OperationPatch) (s : Editor) : Editor :=
  set_operations (map_operation operationId (patch_operation patch) (operations s)) s.

Definition addOperation (s : Editor) : Editor :=
  run_gen createDefaultOperation s (fun created s =>
    set_selected (o_id created) (set_operations (operations s ++ [created]) s)).

Definition condition_source (c : ParamOverrideCondition) : json :=
  JObj [(js "path", JStr (c_path c)); (js "mode", JStr (c_mode c));
        (js "value", parseLooseValue (c_value_text c)); (js "invert", JBool (c_invert c));
        (js "pass_missing_key", JBool (c_pass_missing_key c))].

Definition operation_source (source : ParamOverrideOperation) : json :=
  JObj [(js "description", JStr (o_description source)); (js "path", JStr (o_path source));
        (js "mode", JStr (o_mode source)); (js "value", parseLooseValue (o_value_text source));
        (js "keep_origin", JBool (o_keep_origin source)); (js "from", JStr (o_from source));
        (js "to", JStr (o_to source)); (js "logic", JStr (o_logic source));
        (js "conditions", JArr (map condition_source (o_conditions source)))].

(** [eager] says whether React runs the updater at once; otherwise
    [insertedId] is still empty when it is tested. *)
Definition duplicateOperation (operationId : str) (eager : bool) (s : Editor) : Editor :=
  match findIndex (fun o => o_id o =?s operationId) (operations s) with
  | None => s
  | Some idx =>
      match operations s !! idx with
      | None => s
      | Some source =>
          run_gen (normalizeOperation (operation_source source)) s (fun cloned s =>
            let s := set_operations (take (S idx) (operations s) ++ cloned :: drop (S idx) (operations s)) s in
            if eager then set_selected (o_id cloned) s else s)
      end
  end.

Definition removeOperation (operationId : str) (s : Editor) : Editor :=
  if Z.of_nat (length (operations s)) <=? 1 then
    run_gen createDefaultOperation s (fun op s => set_operations [op] s)
  else set_operations (List.filter (fun o => negb (o_id o =?s operationId)) (operations s)) s.

(** ** Conditions *)

Definition set_conditions (cs : list ParamOverrideCondition) (o : ParamOverrideOperation) : ParamOverrideOperation :=
  MkOperation (o_id o) (o_description o) (o_path o) (o_mode o) (o_from o) (o_to o) (o_value_text o)
    (o_keep_origin o) (o_logic o) cs.

Definition addCondition (operationId : str) (s : Editor) : Editor :=
  run_gen createDefaultCondition s (fun created s =>
    set_expanded (obj_set (c_id created) true (expandedConditions s))
      (set_operations (map_operation operationId
         (fun op => set_conditions (o_conditions op ++ [created]) op) (operations s)) s)).

Inductive ConditionPatch : Type :=
  | PatchCPath (v : str) | PatchCMode (v : str) | PatchCValueText (v : str)
  | PatchCInvert (v : bool) | PatchCPassMissing (v : bool).

Definition patch_condition (p : ConditionPatch) (c : ParamOverrideCondition) : ParamOverrideCondition :=
  let '(MkCondition id pa m v i k) := c in
  match p with
  | PatchCPath pa' => MkCondition id pa' m v i k
  | PatchCMode m' => MkCondition id pa m' v i k
  | PatchCValueText v' => MkCondition id pa m v' i k
  | PatchCInvert i' => MkCondition id pa m v i' k
  | PatchCPassMissing k' => MkCondition id pa m v i k'
  end.

Definition updateCondition (operationId conditionId : str) (patch : ConditionPatch) (s : Editor) : Editor :=
  set_operations (map_operation operationId (fun op =>
    set_conditions (map (fun c => if c_id c =?s conditionId then patch_condition patch c else c)
      (o_conditions op)) op) (operations s)) s.

Definition removeCondition (operationId conditionId : str) (s : Editor) : Editor :=
  set_operations (map_operation operationId (fun op =>
    set_conditions (List.filter (fun c => negb (c_id c =?s conditionId)) (o_conditions op)) op)
    (operations s)) s.

(** [for (const c of selectedOperation.conditions) map[c.id] = b]. *)
Definition setAllConditions (b : bool) (s : Editor) : Editor :=
  match selectedOperation s with
  | None => s
  | Some op =>
      set_expanded (fold_left (fun m c => obj_set (c_id c) b m) (o_conditions op) (expandedConditions s)) s
  end.

(** ** Structured values *)

Inductive ReturnErrorPatch : Type :=
  | PatchSimple (b : bool) | PatchMessage (v : str) | PatchStatus (text : str) | PatchCode (v : str)
  | PatchType (v : str) | PatchSkipRetry (b : bool) | PatchPreset (status : Z) (code type : str).

(** [Number.parseInt(text, 10) || 400]. *)
Definition status_input (text : str) : num :=
  match parseInt10 text with
  | Some n => if truthy_num (num_of_Z n) then num_of_Z n else num_of_Z 400
  | None => num_of_Z 400
  end.

Definition patch_error (p : ReturnErrorPatch) (d : ReturnErrorDraft) : ReturnErrorDraft :=
  let '(MkErrorDraft m st c ty sk si) := d in
  match p with
  | PatchSimple si' => MkErrorDraft m st c ty sk si'
  | PatchMessage m' => MkErrorDraft m' st c ty sk si
  | PatchStatus text => MkErrorDraft m (status_input text) c ty sk si
  | PatchCode c' => MkErrorDraft m st c' ty sk si
  | PatchType ty' => MkErrorDraft m st c ty' sk si
  | PatchSkipRetry sk' => MkErrorDraft m st c ty sk' si
  | PatchPreset st' c' ty' => MkErrorDraft m (num_of_Z st') c' ty' sk si
  end.

Definition set_value_text (v : str) (o : ParamOverrideOperation) : ParamOverrideOperation :=
  patch_operation (PatchValueText v) o.

Definition updateReturnErrorDraft (operationId : str) (patch : ReturnErrorPatch) (s : Editor) : Editor :=
  set_operations (map_operation operationId (fun op =>
    set_value_text (buildReturnErrorValueText (patch_error patch (parseReturnErrorDraft (o_value_text op)))) op)
    (operations s)) s.

(** The updater of [updatePruneObjectsDraft] reads the draft again, and thereby
    makes new identifiers for its rules. *)
Definition updatePruneObjectsDraft (operationId : str) (updater : PruneObjectsDraft -> gen PruneObjectsDraft)
    (s : Editor) : Editor :=
  run_gen (gmapM (fun op =>
    if o_id op =?s operationId then
      let? draft := parsePruneObjectsDraft (o_value_text op) in
      let? nextDraft := updater draft in
      gret (set_value_text (buildPruneObjectsValueText nextDraft) op)
    else gret op) (operations s)) s (fun ops s => set_operations ops s).

Inductive PrunePatch : Type :=
  | PatchPruneSimple (b : bool) | PatchPruneType (v : str) | PatchPruneLogic (v : str)
  | PatchPruneRecursive (b : bool).

Definition patch_prune (p : PrunePatch) (d : PruneObjectsDraft) : gen PruneObjectsDraft :=
  let '(MkPruneDraft si ty lo re ru) := d in
  gret (match p with
  | PatchPruneSimple si' => MkPruneDraft si' ty lo re ru
  | PatchPruneType ty' => MkPruneDraft si ty' lo re ru
  | PatchPruneLogic lo' => MkPruneDraft si ty (str_or lo' "AND") re ru
  | PatchPruneRecursive re' => MkPruneDraft si ty lo re' ru
  end).

Definition set_rules (rules : list PruneRule) (d : PruneObjectsDraft) : PruneObjectsDraft :=
  MkPruneDraft (pd_simpleMode d) (pd_typeText d) (pd_logic d) (pd_recursive d) rules.

Definition addPruneRule (operationId : str) (s : Editor) : Editor :=
  updatePruneObjectsDraft operationId (fun draft =>
    let? rule := normalizePruneRule (JObj []) in
    gret (MkPruneDraft false (pd_typeText draft) (pd_logic draft) (pd_recursive draft)
            (pd_rules draft ++ [rule]))) s.

Inductive PruneRulePatch : Type :=
  | PatchRPath (v : str) | PatchRMode (v : str) | PatchRValueText (v : str)
  | PatchRInvert (v : bool) | PatchRPassMissing (v : bool).

Definition patch_rule (p : PruneRulePatch) (r : PruneRule) : PruneRule :=
  let '(MkPruneRule id pa m v i k) := r in
  match p with
  | PatchRPath pa' => MkPruneRule id pa' m v i k
  | PatchRMode m' => MkPruneRule id pa m' v i k
  | PatchRValueText v' => MkPruneRule id pa m v' i k
  | PatchRInvert i' => MkPruneRule id pa m v i' k
  | PatchRPassMissing k' => MkPruneRule id pa m v i k'
  end.

Definition updatePruneRule (operationId ruleId : str) (patch : PruneRulePatch) (s : Editor) : Editor :=
  updatePruneObjectsDraft operationId (fun draft =>
    gret (set_rules (map (fun r => if p_id r =?s ruleId then patch_rule patch r else r) (pd_rules draft)) draft)) s.

Definition removePruneRule (operationId ruleId : str) (s : Editor) : Editor :=
  updatePruneObjectsDraft operationId (fun draft =>
    gret (set_rules (List.filter (fun r => negb (p_id r =?s ruleId)) (pd_rules draft)) draft)) s.

(** ** Drag and drop *)

Definition resetDragState (s : Editor) : Editor := set_drag [] [] Before s.

Definition handleDragStart (operationId : str) (s : Editor) : Editor :=
  set_selected operationId (set_drag operationId (dragOverOperationId s) (dragOverPosition s) s).

(** [lowerHalf] says whether the pointer is in the lower half of the rule. *)
Definition handleDragOver (operationId : str) (lowerHalf : bool) (s : Editor) : Editor :=
  if negb (truthy_str (draggedOperationId s)) || (draggedOperationId s =?s operationId) then s
  else set_drag (draggedOperationId s) operationId (if lowerHalf then After else Before) s.

(** [data] is the text of the drag event. *)
Definition handleDrop (operationId data : str) (s : Editor) : Editor :=
  let sourceId := str_or (draggedOperationId s) data in
  let position := if dragOverOperationId s =?s operationId then dragOverPosition s else Before in
  let s :=
    if truthy_str sourceId && truthy_str operationId && negb (sourceId =?s operationId)
    then set_selected sourceId
           (set_operations (reorderOperations (operations s) sourceId operationId position) s)
    else s in
  resetDragState s.

(** ** The text of the dialog *)

Definition buildVisualJson (s : Editor) : EditorError + str :=
  match visualMode s with
  | Legacy =>
      let trimmed := trim (legacyValue s) in
      if negb (truthy_str trimmed) then inr []
      else
        match json_parse trimmed with
        | None => inl OverrideMustBeJson
        | Some (JObj parsed) => inr (stringify_indent [] (JObj parsed))
        | Some _ => inl LegacyMustBeObject
        end
  | Operations =>
      match buildOperationsJson (operations s) true with
      | inl (e, line) => inl (RuleInvalid e line)
      | inr text => inr text
      end
  end.

(** [buildOperationsJson(operations, { validate: false }, t)]. *)
Definition unchecked_text (ops : list ParamOverrideOperation) : str :=
  match buildOperationsJson ops false with inr text => text | inl _ => [] end.

(** The handlers below also return the messages that they show. *)
Definition switchToJsonMode (s : Editor) : Editor * list EditorError :=
  match editMode s with
  | JsonText => (s, [])
  | Visual =>
      match buildVisualJson s with
      | inr text => (set_editMode JsonText (set_jsonError None (set_jsonText text s)), [])
      | inl e =>
          let text := match visualMode s with
                      | Legacy => legacyValue s
                      | Operations => unchecked_text (operations s)
                      end in
          (set_editMode JsonText (set_jsonError (Some e) (set_jsonText text s)), [e])
      end
  end.

(** The visual editor on a single new rule. *)
Definition showDefault (mode : VisualMode) (legacy : str) (s : Editor) : Editor :=
  run_gen createDefaultOperation s (fun fallback s =>
    set_editMode Visual (set_jsonError None (set_legacyValue legacy
      (set_selected (o_id fallback) (set_operations [fallback] (set_visualMode mode s)))))).

Definition switchToVisualMode (s : Editor) : Editor * list EditorError :=
  match editMode s with
  | Visual => (s, [])
  | JsonText =>
      let trimmed := trim (jsonText s) in
      if negb (truthy_str trimmed) then (showDefault Operations [] s, [])
      else
        match json_parse trimmed with
        | None => (s, [OverrideMustBeJson])
        | Some (JObj parsed) =>
            match obj_get "operations" parsed with
            | Some (JArr l) =>
                (run_gen (operationsOrDefault l) s (fun nextOps s =>
                   set_preset "operations_default" (set_editMode Visual (set_jsonError None
                     (set_legacyValue [] (set_selected (first_id nextOps)
                       (set_operations nextOps (set_visualMode Operations s))))))), [])
            | _ =>
                (set_preset "legacy_default" (showDefault Legacy (stringify_indent [] (JObj parsed)) s), [])
            end
        | Some _ => (s, [OverrideMustBeObject])
        end
  end.

Definition resetEditorState (s : Editor) : Editor :=
  set_preset "operations_default" (set_jsonText [] (showDefault Operations [] s)).

Definition handleJsonChange (nextValue : str) (s : Editor) : Editor :=
  let trimmed := trim nextValue in
  set_jsonError
    (if negb (truthy_str trimmed) || verifyJSON trimmed then None else Some JsonFormatError)
    (set_jsonText nextValue s).

Definition visualValidationError (s : Editor) : option EditorError :=
  match editMode s with
  | JsonText => None
  | Visual => match buildVisualJson s with inl e => Some e | inr _ => None end
  end.

(** What [handleSave] gives to [onSave]; the error is shown otherwise. *)
Definition handleSave (s : Editor) : EditorError + str :=
  match editMode s with
  | JsonText =>
      let trimmed := trim (jsonText s) in
      if negb (truthy_str trimmed) then inr []
      else
        match json_parse trimmed with
        | None => inl OverrideMustBeJson
        | Some v => inr (stringify_indent [] v)
        end
  | Visual => buildVisualJson s
  end.

(** ** Templates *)

Definition rule (fields : list (str * json)) : json := JObj fields.
Definition template (ops : list json) : list (str * json) := [(js "operations", JArr ops)].

Definition LEGACY_TEMPLATE : list (str * json) :=
  [(js "temperature", JNum num_zero); (js "max_tokens", JNum (num_of_Z 1000))].

Definition condition (path mode value : str) : json :=
  JObj [(js "path", JStr path); (js "mode", JStr mode); (js "value", JStr value)].

Definition OPERATION_TEMPLATE : list (str * json) := template [rule [
  (js "description", JStr "Set default temperature for openai/* models.");
  (js "path", JStr "temperature"); (js "mode", JStr "set"); (js "value", JNum (Number "0.7"));
  (js "conditions", JArr [condition "model" "prefix" "openai/"]); (js "logic", JStr "AND")]].

Definition HEADER_PASSTHROUGH_TEMPLATE : list (str * json) := template [rule [
  (js "description", JStr "Pass through X-Request-Id header to upstream.");
  (js "mode", JStr "pass_headers"); (js "value", JArr [JStr "X-Request-Id"]);
  (js "keep_origin", JBool true)]].

Definition GEMINI_IMAGE_4K_TEMPLATE : list (str * json) := template [rule [
  (js "description", JStr "Set imageSize to 4K when model contains gemini/image and ends with 4k.");
  (js "mode", JStr "set"); (js "path", JStr "generationConfig.imageConfig.imageSize");
  (js "value", JStr "4K");
  (js "conditions", JArr [condition "original_model" "contains" "gemini";
     condition "original_model" "contains" "image"; condition "original_model" "suffix" "4k"]);
  (js "logic", JStr "AND")]].

Definition CODEX_CLI_HEADER_PASSTHROUGH_HEADERS : list str := [
  js "Originator"; js "Session_id"; js "Thread_id"; js "Session-Id"; js "Thread-Id";
  js "X-Client-Request-Id"; js "User-Agent"; js "X-Codex-Beta-Features"; js "X-Codex-Turn-State";
  js "X-Codex-Turn-Metadata"; js "X-Codex-Window-Id"; js "X-Codex-Parent-Thread-Id";
  js "X-OpenAI-Subagent"; js "X-OpenAI-Memgen-Request"; js "X-ResponsesAPI-Include-Timing-Metrics";
  js "X-OpenAI-Internal-Codex-Responses-Lite"].

Definition CLAUDE_CLI_HEADER_PASSTHROUGH_HEADERS : list str := [
  js "X-Stainless-Arch"; js "X-Stainless-Lang"; js "X-Stainless-Os";
  js "X-Stainless-Package-Version"; js "X-Stainless-Retry-Count"; js "X-Stainless-Runtime";
  js "X-Stainless-Runtime-Version"; js "X-Stainless-Timeout"; js "User-Agent"; js "X-App";
  js "Anthropic-Beta"; js "Anthropic-Dangerous-Direct-Browser-Access"; js "Anthropic-Version"].

Definition buildPassHeadersTemplate (headers : list str) : list (str * json) := template [rule [
  (js "mode", JStr "pass_headers"); (js "value", JArr (map JStr headers)); (js "keep_origin", JBool true)]].

Definition CODEX_CLI_HEADER_PASSTHROUGH_TEMPLATE : list (str * json) :=
  buildPassHeadersTemplate CODEX_CLI_HEADER_PASSTHROUGH_HEADERS.

Definition CLAUDE_CLI_HEADER_PASSTHROUGH_TEMPLATE : list (str * json) :=
  buildPassHeadersTemplate CLAUDE_CLI_HEADER_PASSTHROUGH_HEADERS.

Definition anthropic_betas : list (str * json) := [
  (js "advanced-tool-use-2025-11-20", JStr "tool-search-tool-2025-10-19");
  (js "bash_20241022", JNull); (js "bash_20250124", JNull);
  (js "code-execution-2025-08-25", JNull); (js "compact-2026-01-12", JStr "compact-2026-01-12");
  (js "computer-use-2025-01-24", JStr "computer-use-2025-01-24");
  (js "computer-use-2025-11-24", JStr "computer-use-2025-11-24");
  (js "context-1m-2025-08-07", JStr "context-1m-2025-08-07");
  (js "context-management-2025-06-27", JStr "context-management-2025-06-27");
  (js "effort-2025-11-24", JNull); (js "fast-mode-2026-02-01", JNull);
  (js "files-api-2025-04-14", JNull); (js "fine-grained-tool-streaming-2025-05-14", JNull);
  (js "interleaved-thinking-2025-05-14", JStr "interleaved-thinking-2025-05-14");
  (js "mcp-client-2025-11-20", JNull); (js "mcp-client-2025-04-04", JNull);
  (js "mcp-servers-2025-12-04", JNull); (js "output-128k-2025-02-19", JNull);
  (js "structured-output-2024-03-01", JNull); (js "prompt-caching-scope-2026-01-05", JNull);
  (js "skills-2025-10-02", JNull); (js "structured-outputs-2025-11-13", JNull);
  (js "text_editor_20241022", JNull); (js "text_editor_20250124", JNull);
  (js "token-efficient-tools-2025-02-19", JNull);
  (js "tool-search-tool-2025-10-19", JStr "tool-search-tool-2025-10-19");
  (js "web-fetch-2025-09-10", JNull); (js "web-search-2025-03-05", JNull);
  (js "oauth-2025-04-20", JNull)].

Definition AWS_BEDROCK_ANTHROPIC_COMPAT_TEMPLATE : list (str * json) := template [
  rule [(js "description", JStr "Normalize anthropic-beta header tokens for Bedrock compatibility.");
    (js "mode", JStr "set_header"); (js "path", JStr "anthropic-beta"); (js "value", JObj anthropic_betas)];
  rule [(js "description", JStr "Remove all tools[*].custom.input_examples before upstream relay.");
    (js "mode", JStr "delete"); (js "path", JStr "tools.*.custom.input_examples")]].

Inductive PresetKind : Type := OperationsPreset | LegacyPreset.

Definition TEMPLATE_PRESET_CONFIG : list (str * (PresetKind * list (str * json))) := [
  (js "operations_default", (OperationsPreset, OPERATION_TEMPLATE));
  (js "legacy_default", (LegacyPreset, LEGACY_TEMPLATE));
  (js "pass_headers_auth", (OperationsPreset, HEADER_PASSTHROUGH_TEMPLATE));
  (js "gemini_image_4k", (OperationsPreset, GEMINI_IMAGE_4K_TEMPLATE));
  (js "claude_cli_headers_passthrough", (OperationsPreset, CLAUDE_CLI_HEADER_PASSTHROUGH_TEMPLATE));
  (js "codex_cli_headers_passthrough", (OperationsPreset, CODEX_CLI_HEADER_PASSTHROUGH_TEMPLATE));
  (js "aws_bedrock_anthropic_beta_override", (OperationsPreset, AWS_BEDROCK_ANTHROPIC_COMPAT_TEMPLATE))].

Inductive FillMode : Type := Fill | Append.

(** The visual editor on a legacy text, which is also the JSON text. *)
Definition showLegacy (text : str) (s : Editor) : Editor :=
  run_gen createDefaultOperation s (fun op s =>
    set_editMode Visual (set_jsonError None (set_jsonText text
      (set_operations [op] (set_legacyValue text (set_visualMode Legacy s)))))).

Definition fillLegacy (mode : FillMode) (payload : list (str * json)) (s : Editor) : Editor * list EditorError :=
  match mode, visualMode s with
  | Append, Legacy =>
      let trimmed := trim (legacyValue s) in
      match (if truthy_str trimmed then json_parse trimmed else Some (JObj [])) with
      | None => (s, [LegacyInvalid])
      | Some parsedCurrent =>
          (showLegacy (stringify_indent [] (JObj (obj_spread payload parsedCurrent))) s, [])
      end
  | _, _ => (showLegacy (stringify_indent [] (JObj payload)) s, [])
  end.

Definition fillOperations (mode : FillMode) (l : list json) (s : Editor) : Editor :=
  match mode with
  | Append =>
      run_gen (gmapM normalizeOperation l) s (fun appended s =>
        let existing := match visualMode s with
                        | Operations => List.filter (fun o => negb (isOperationBlank o)) (operations s)
                        | Legacy => []
                        end in
        let nextOps := existing ++ appended in
        set_jsonText [] (set_editMode Visual (set_jsonError None (set_legacyValue []
          (set_selected (str_or (first_id nextOps) (first_id appended))
            (set_operations nextOps (set_visualMode Operations s)))))))
  | Fill =>
      run_gen (operationsOrDefault l) s (fun finalOps s =>
        set_editMode Visual (set_jsonError None
          (set_jsonText (stringify_indent [] (JObj [(js "operations", JArr l)]))
            (set_selected (first_id finalOps) (set_operations finalOps (set_visualMode Operations s))))))
  end.

Definition fillTemplate (mode : FillMode) (s : Editor) : Editor * list EditorError :=
  let '(kind, payload) :=
    nullish (obj_get (templatePresetKey s) TEMPLATE_PRESET_CONFIG) (OperationsPreset, OPERATION_TEMPLATE) in
  match kind with
  | LegacyPreset => fillLegacy mode payload s
  | OperationsPreset =>
      (fillOperations mode (match obj_get "operations" payload with Some (JArr l) => l | _ => [] end) s, [])
  end.

(** ** Events

    What the user can do in the dialog, with what the runtime decides. *)

Inductive Event : Type :=
  | UpdateOperation (id : str) (p : OperationPatch)
  | AddOperation | DuplicateOperation (id : str) (eager : bool) | RemoveOperation (id : str)
  | AddCondition (id : str) | UpdateCondition (id cid : str) (p : ConditionPatch)
  | RemoveCondition (id cid : str) | SetAllConditions (b : bool) | ExpandCondition (cid : str) (b : bool)
  | UpdateReturnError (id : str) (p : ReturnErrorPatch)
  | UpdatePrune (id : str) (p : PrunePatch) | AddPruneRule (id : str)
  | UpdatePruneRule (id rid : str) (p : PruneRulePatch) | RemovePruneRule (id rid : str)
  | DragStart (id : str) | DragOver (id : str) (lowerHalf : bool) | Drop_ (id data : str) | DragEnd
  | SwitchToJson | SwitchToVisual | FillTemplate (mode : FillMode) | ResetEditor
  | JsonChange (v : str) | LegacyChange (v : str) | SearchChange (v : str) | SelectOperation (id : str)
  | SelectPreset (v : str)
  | Render.

Definition step (e : Event) (s : Editor) : Editor :=
  match e with
  | UpdateOperation id p => updateOperation id p s
  | AddOperation => addOperation s
  | DuplicateOperation id eager => duplicateOperation id eager s
  | RemoveOperation id => removeOperation id s
  | AddCondition id => addCondition id s
  | UpdateCondition id cid p => updateCondition id cid p s
  | RemoveCondition id cid => removeCondition id cid s
  | SetAllConditions b => setAllConditions b s
  | ExpandCondition cid b => set_expanded (obj_set cid b (expandedConditions s)) s
  | UpdateReturnError id p => updateReturnErrorDraft id p s
  | UpdatePrune id p => updatePruneObjectsDraft id (patch_prune p) s
  | AddPruneRule id => addPruneRule id s
  | UpdatePruneRule id rid p => updatePruneRule id rid p s
  | RemovePruneRule id rid => removePruneRule id rid s
  | DragStart id => handleDragStart id s
  | DragOver id lowerHalf => handleDragOver id lowerHalf s
  | Drop_ id data => handleDrop id data s
  | DragEnd => resetDragState s
  | SwitchToJson => fst (switchToJsonMode s)
  | SwitchToVisual => fst (switchToVisualMode s)
  | FillTemplate mode => fst (fillTemplate mode s)
  | ResetEditor => resetEditorState s
  | JsonChange v => handleJsonChange v s
  | LegacyChange v => set_legacyValue v s
  | SearchChange v => set_operationSearch v s
  | SelectOperation id => set_selected id s
  | SelectPreset v => set_preset (str_or v "operations_default") s
  | Render => run_gen (pruneObjectsDraft s) s (fun _ s => s)
  end.

End Editor.
