(* ===== verification/ParamOverrideLaws.v ===== *)
(** * Laws of parameter overrides

    Proofs about [ParamOverride]: identifiers are never made twice, and every
    run of the dialog keeps at least one rule, with distinct identifiers; what
    is saved is complete, survives the switch of editors and is saved again when
    it is opened; rules are moved to where they are dropped; and the edits of
    prune rules that are lost. *)

From stdpp Require Import base list.
From Stdlib Require Import ZArith NArith Lia.
From S2P Require Import Prelude JsString JsArray JsNumber JsJson JsonRoundTrip ParamOverride.

Local Open Scope Z_scope.

(** ** Text of integers *)

Lemma string_of_nonneg_inj (n m : Z) :
  0 <= n -> 0 <= m -> string_of_nonneg n = string_of_nonneg m -> n = m.
Proof.
  intros Hn Hm H. apply string_of_nonneg_spec in Hn as (En & _), Hm as (Em & _). congruence.
Qed.

Lemma string_of_nonneg_avoids (d : N) (n : Z) :
  0 <= n -> is_digit d = false -> avoids d (string_of_nonneg n) = true.
Proof. intros Hn Hd. apply digits_avoid; [done|]. by apply string_of_nonneg_spec. Qed.

(** What follows the last separator. *)
Lemma after_last (c : N) (a a' b b' : str) :
  avoids c b = true -> avoids c b' = true -> a ++ c :: b = a' ++ c :: b' -> b = b'.
Proof.
  intros Hb Hb' H. revert b' Hb' H. induction b as [|x b IH] using rev_ind; intros b' Hb' H.
  - destruct b' as [|y b'] using rev_ind; [done|].
    rewrite app_comm_cons, app_assoc in H. apply app_inj_tail in H as [_ <-].
    rewrite avoids_app in Hb'. apply andb_true_iff in Hb' as [_ Hy]. unfold avoids in Hy. simpl in Hy.
    by rewrite N.eqb_refl in Hy.
  - rewrite avoids_app in Hb. apply andb_true_iff in Hb as [Hb Hx].
    destruct b' as [|y b'] using rev_ind.
    + symmetry in H. rewrite app_comm_cons, app_assoc in H. apply app_inj_tail in H as [_ <-].
      unfold avoids in Hx. simpl in Hx. by rewrite N.eqb_refl in Hx.
    + clear IHb'. rewrite !app_comm_cons, !app_assoc in H. apply app_inj_tail in H as [H <-].
      rewrite avoids_app in Hb'. apply andb_true_iff in Hb' as [Hb' _]. f_equal. by apply IH.
Qed.

Section Laws.
Context {CM : CaseMapping}.
Context (clock : Z -> Z).

(** ** Identifiers *)

Lemma local_id_inj (n m : Z) : 0 <= n -> 0 <= m -> local_id clock n = local_id clock m -> n = m.
Proof.
  intros Hn Hm H. unfold local_id in H. rewrite !app_assoc in H.
  change (js "_") with [chr "_"%char] in H. rewrite <- !app_assoc in H. cbn [app] in H.
  rewrite !app_assoc in H. apply after_last in H.
  - unfold string_of_Z in H. rewrite !(proj2 (Z.ltb_ge _ 0)) in H by lia. by apply string_of_nonneg_inj.
  - unfold string_of_Z. rewrite (proj2 (Z.ltb_ge _ 0)) by lia. by apply string_of_nonneg_avoids.
  - unfold string_of_Z. rewrite (proj2 (Z.ltb_ge _ 0)) by lia. by apply string_of_nonneg_avoids.
Qed.

(** The identifier was made with a value of the counter from [a] up to [b]. *)
Definition issued (a b : Z) (id : str) : Prop := exists n, a <= n < b /\ id = local_id clock n.

Lemma issued_mono (a b a' b' : Z) (id : str) :
  a' <= a -> b <= b' -> issued a b id -> issued a' b' id.
Proof. intros Ha Hb (n & Hn & ->). exists n. split; [lia|done]. Qed.

Lemma issued_disjoint (a b c : Z) (id id' : str) :
  0 <= a -> issued a b id -> issued b c id' -> id <> id'.
Proof. intros Ha (n & Hn & ->) (m & Hm & ->) H. apply local_id_inj in H; lia. Qed.

Lemma local_id_truthy (n : Z) : truthy_str (local_id clock n) = true.
Proof. done. Qed.

(** A computation advances the counter, and its result satisfies [P] of the
    counter before and after. *)
Definition gives {A} (m : gen A) (P : Z -> Z -> A -> Prop) : Prop :=
  forall seed, 0 <= seed ->
  match m seed with
  | (Ok a, seed') => seed <= seed' /\ P seed seed' a
  | (Throw, seed') => seed <= seed'
  end.

Lemma gives_ret {A} (a : A) (P : Z -> Z -> A -> Prop) :
  (forall n, 0 <= n -> P n n a) -> gives (gret a) P.
Proof. intros H seed Hs. simpl. split; [lia|auto]. Qed.

Lemma gives_lift {A} (m : res A) : gives (glift m) (fun _ _ _ => True).
Proof. intros seed Hs. unfold glift. destruct m; simpl; [split; [lia|done]|lia]. Qed.

Lemma gives_bind {A B} (m : gen A) (k : A -> gen B) (P : Z -> Z -> A -> Prop) (Q : Z -> Z -> B -> Prop) :
  gives m P ->
  (forall a n0 n1, 0 <= n0 <= n1 -> P n0 n1 a -> gives (k a) (fun n1' n2 b => n1' = n1 -> Q n0 n2 b)) ->
  gives (gbind m k) Q.
Proof.
  intros Hm Hk seed Hs. unfold gbind. specialize (Hm seed Hs).
  destruct (m seed) as [[a|] n1]; [|done]. destruct Hm as [H1 HP].
  specialize (Hk a seed n1 (conj Hs H1) HP n1). destruct (k a n1) as [[b|] n2]; cbn in Hk |- *.
  - destruct Hk as [H2 HQ]; [lia|]. split; [lia|by apply HQ].
  - lia.
Qed.

Lemma gives_mono {A} (m : gen A) (P Q : Z -> Z -> A -> Prop) :
  gives m P -> (forall n0 n1 a, 0 <= n0 <= n1 -> P n0 n1 a -> Q n0 n1 a) -> gives m Q.
Proof.
  intros Hm H seed Hs. specialize (Hm seed Hs). destruct (m seed) as [[a|] n1]; [|done].
  destruct Hm. split; [done|]. apply H; [lia|done].
Qed.

Lemma gives_id : gives (nextLocalId clock) (fun a b id => issued a b id).
Proof. intros seed Hs. simpl. split; [lia|]. exists seed. split; [lia|done]. Qed.

(** Reading fields makes no identifiers. *)
Lemma gives_fields {A} (m : res A) {B} (k : A -> gen B) (P : Z -> Z -> B -> Prop) :
  (forall a, gives (k a) P) -> gives (gbind (glift m) k) P.
Proof.
  intros H seed Hs. unfold gbind, glift. destruct m as [a|]; [by apply H|simpl; lia].
Qed.

(** What is made of the elements of a list is distinct. *)
Lemma gives_map {A B} (f : A -> gen B) (idf : B -> str) (P : Z -> B -> Prop) (l : list A) :
  (forall n n' b, n <= n' -> P n b -> P n' b) ->
  (forall x, gives (f x) (fun n0 n1 b => issued n0 n1 (idf b) /\ P n1 b)) ->
  gives (gmapM f l) (fun n0 n1 bs => Forall (fun b => issued n0 n1 (idf b) /\ P n1 b) bs /\
                                     NoDup (map idf bs) /\ length bs = length l).
Proof.
  intros HP Hf. induction l as [|x l IH]; cbn [gmapM].
  { apply gives_ret. intros n Hn. split_and!; [constructor|constructor|done]. }
  eapply gives_bind; [apply Hf|]. intros b n0 n1 Hn [Hi Hb]. cbn beta.
  eapply gives_bind; [apply IH|]. intros bs m0 m1 Hm (Hbs & Hd & Hl). cbn beta.
  apply gives_ret. intros n2 Hn2 -> ->. split_and!.
  - constructor; [split; [eapply issued_mono; [..|exact Hi]; lia|eapply HP; [|exact Hb]; lia]|].
    eapply Forall_impl; [exact Hbs|]. intros y [Hy HPy].
    split; [eapply issued_mono; [..|exact Hy]; lia|done].
  - cbn [map]. constructor; [|done]. intros Hin. apply list_elem_of_In, in_map_iff in Hin as (y & Hy & Hin).
    rewrite List.Forall_forall in Hbs. destruct (Hbs y Hin) as [Hy' _].
    eapply (issued_disjoint n0 n1 m1 (idf b) (idf y)); [lia|done|done|done].
  - cbn. lia.
Qed.

(** ** Rules and conditions that the dialog makes *)

Definition condition_ok (n : Z) (c : ParamOverrideCondition) : Prop := c_mode c ∈ CONDITION_MODE_VALUES.

Record op_ok (n : Z) (o : ParamOverrideOperation) : Prop := {
  ok_mode : o_mode o ∈ OPERATION_MODE_VALUES;
  ok_conditions : Forall (fun c => issued 0 n (c_id c) /\ condition_ok n c) (o_conditions o);
  ok_condition_ids : NoDup (map c_id (o_conditions o));
}.

Lemma choice_or_valid (values : list str) (v : option json) (d : str) :
  d ∈ values -> choice_or values v d ∈ values.
Proof.
  intros Hd. destruct v as [[| | |s| |]|]; cbn; try done.
  destruct (mem_str s values) eqn:E; [|done]. by apply mem_str_true.
Qed.

Lemma op_ok_mono (n n' : Z) (o : ParamOverrideOperation) : n <= n' -> op_ok n o -> op_ok n' o.
Proof.
  intros Hn [H1 H2 H3]. constructor; [done| |done]. eapply Forall_impl; [exact H2|].
  intros c [Hi Hc]. split; [eapply issued_mono; [..|exact Hi]; lia|done].
Qed.

Lemma normalizeCondition_gives (v : json) :
  gives (normalizeCondition clock v) (fun a b c => issued a b (c_id c) /\ condition_ok b c).
Proof.
  unfold normalizeCondition. eapply gives_bind; [apply gives_id|]. intros id n0 n1 Hn Hid. cbn beta.
  repeat (apply gives_fields; intros ?). apply gives_ret. intros n Hn' ->. split; [done|].
  apply choice_or_valid. apply list_elem_of_In. by left.
Qed.

Lemma normalizeOperation_gives (v : json) :
  gives (normalizeOperation clock v) (fun a b o => issued a b (o_id o) /\ op_ok b o).
Proof.
  unfold normalizeOperation. eapply gives_bind; [apply gives_id|]. intros id n0 n1 Hn Hid. cbn beta.
  do 8 (apply gives_fields; intros ?). apply gives_fields. intros cs.
  eapply gives_bind with (P := fun a b cs => Forall (fun c => issued a b (c_id c) /\ condition_ok b c) cs
                                             /\ NoDup (map c_id cs)).
  { destruct cs as [[| | | |l|]|]; try (apply gives_ret; intros; split; constructor).
    eapply gives_mono; [apply (gives_map _ c_id condition_ok); [done|apply normalizeCondition_gives]|].
    cbn. naive_solver. }
  intros cs' m0 m1 Hm [Hcs Hd]. cbn beta. apply gives_ret. intros n2 Hn2 -> ->. split.
  - eapply issued_mono; [..|exact Hid]; lia.
  - constructor; cbn; [|eapply Forall_impl; [exact Hcs|]; intros c [Hc ?]|done].
    + apply choice_or_valid. apply list_elem_of_In. by left.
    + split; [eapply issued_mono; [..|exact Hc]; lia|done].
Qed.

(** ** What every state of the dialog satisfies *)

Record ops_ok (n : Z) (ops : list ParamOverrideOperation) : Prop := {
  ok_nonempty : ops <> [];
  ok_ids : NoDup (map o_id ops);
  ok_ops : Forall (fun o => issued 0 n (o_id o) /\ op_ok n o) ops;
}.

Definition editor_ok (s : Editor) : Prop := 0 <= localIdSeed s /\ ops_ok (localIdSeed s) (operations s).

(** The selects of the dialog offer only the known modes. *)
Definition event_ok (e : Event) : Prop :=
  match e with
  | UpdateOperation _ (PatchMode v) => v ∈ OPERATION_MODE_VALUES
  | UpdateCondition _ _ (PatchCMode v) => v ∈ CONDITION_MODE_VALUES
  | _ => True
  end.

Lemma ops_ok_mono (n n' : Z) (ops : list ParamOverrideOperation) : n <= n' -> ops_ok n ops -> ops_ok n' ops.
Proof.
  intros Hn [H1 H2 H3]. constructor; [done|done|]. eapply Forall_impl; [exact H3|].
  intros o [Hi Ho]. split; [eapply issued_mono; [..|exact Hi]; lia|by eapply op_ok_mono].
Qed.

(** Updates of rules that keep their identifiers. *)
Lemma map_operation_ok (n n' : Z) (id : str) (f : ParamOverrideOperation -> ParamOverrideOperation)
    (ops : list ParamOverrideOperation) :
  n <= n' -> (forall o, o_id (f o) = o_id o) -> (forall o, op_ok n o -> op_ok n' (f o)) ->
  ops_ok n ops -> ops_ok n' (map_operation id f ops).
Proof.
  intros Hn Hid Hok [H1 H2 H3]. unfold map_operation.
  assert (Hid' : forall o, o_id (if o_id o =?s id then f o else o) = o_id o) by (intros o; by case_match).
  constructor.
  - by destruct ops.
  - rewrite map_map. erewrite map_ext; [exact H2|done].
  - apply Forall_map. eapply Forall_impl; [exact H3|]. intros o [Hi Ho]. cbn. rewrite Hid'.
    split; [eapply issued_mono; [..|exact Hi]; lia|]. destruct (o_id o =?s id); [auto|by eapply op_ok_mono].
Qed.

(** New rules next to old ones. *)
Lemma ops_ok_insert (n n' : Z) (pre post new : list ParamOverrideOperation) :
  0 <= n <= n' -> ops_ok n (pre ++ post) -> NoDup (map o_id new) ->
  Forall (fun o => issued n n' (o_id o) /\ op_ok n' o) new ->
  ops_ok n' (pre ++ new ++ post).
Proof.
  intros Hn Hp Hd Hnew. pose proof (ops_ok_mono n n' _ (proj2 Hn) Hp) as [H1 H2 H3].
  destruct Hp as [_ _ Hold]. rewrite Forall_app in H3. destruct H3 as [Hpre Hpost].
  constructor.
  - destruct pre; [|done]. destruct new; [|done]. by destruct post.
  - assert (Hp : map o_id (pre ++ new ++ post) ≡ₚ map o_id new ++ map o_id (pre ++ post)).
    { rewrite !map_app. solve_Permutation. }
    rewrite Hp. apply NoDup_app. split_and!; [done| |done].
    intros id Hid Hid'. apply list_elem_of_In, in_map_iff in Hid as (o & <- & Ho).
    apply list_elem_of_In, in_map_iff in Hid' as (o' & Heq & Ho').
    rewrite List.Forall_forall in Hold, Hnew. destruct (Hold o' Ho') as [Hi' _], (Hnew o Ho) as [Hi _].
    by apply (issued_disjoint 0 n n' (o_id o') (o_id o)) in Heq.
  - rewrite !Forall_app. split_and!; [done| |done]. eapply Forall_impl; [exact Hnew|].
    intros o [Hi Ho]. split; [eapply issued_mono; [..|exact Hi]; lia|done].
Qed.

Lemma ops_ok_new (n n' : Z) (new : list ParamOverrideOperation) :
  0 <= n <= n' -> new <> [] -> NoDup (map o_id new) ->
  Forall (fun o => issued n n' (o_id o) /\ op_ok n' o) new -> ops_ok n' new.
Proof.
  intros Hn Hne Hd Hf. constructor; [done|done|]. eapply Forall_impl; [exact Hf|].
  intros o [Hi Ho]. split; [eapply issued_mono; [..|exact Hi]; lia|done].
Qed.

Lemma ops_ok_perm (n : Z) (ops ops' : list ParamOverrideOperation) :
  ops ≡ₚ ops' -> ops_ok n ops -> ops_ok n ops'.
Proof.
  intros Hp [H1 H2 H3]. constructor.
  - intros ->. by apply Permutation_nil_r in Hp.
  - by rewrite <- Hp.
  - by rewrite <- Hp.
Qed.

(** Dropping some rules, but not all. *)
Lemma ops_ok_filter (n : Z) (p : ParamOverrideOperation -> bool) (ops : list ParamOverrideOperation) :
  List.filter p ops <> [] -> ops_ok n ops -> ops_ok n (List.filter p ops).
Proof.
  intros Hne [_ H2 H3]. constructor; [done| |].
  - clear H3 Hne. induction ops as [|o ops IH]; [done|]. cbn in H2 |- *. inversion H2 as [|? ? Ho Hn]; subst.
    destruct (p o); [|by apply IH]. cbn. constructor; [|by apply IH].
    intros Hin. apply Ho. apply list_elem_of_In, in_map_iff in Hin as (o' & <- & Hin).
    apply filter_In in Hin as [Hin _]. apply list_elem_of_In. by apply in_map.
  - rewrite List.Forall_forall in H3 |- *. intros o Ho. apply filter_In in Ho as [Ho _]. auto.
Qed.

Lemma run_gen_ok {A} (m : gen A) (s : Editor) (k : A -> Editor -> Editor) (P : Z -> Z -> A -> Prop) :
  editor_ok s -> gives m P ->
  (forall a n', localIdSeed s <= n' -> P (localIdSeed s) n' a -> editor_ok (k a (set_seed n' s))) ->
  editor_ok (run_gen m s k).
Proof.
  intros [Hs Ho] Hm Hk. unfold run_gen. specialize (Hm _ Hs).
  destruct (m (localIdSeed s)) as [[a|] n']; [destruct Hm; auto|].
  split; cbn; [lia|by eapply ops_ok_mono].
Qed.

Lemma default_gives :
  gives (createDefaultOperation clock) (fun a b o => issued a b (o_id o) /\ op_ok b o).
Proof. apply normalizeOperation_gives. Qed.

Lemma gives_operations (l : list json) :
  gives (gmapM (normalizeOperation clock) l)
    (fun a b ops => Forall (fun o => issued a b (o_id o) /\ op_ok b o) ops /\
                    NoDup (map o_id ops) /\ length ops = length l).
Proof. apply gives_map; [apply op_ok_mono|apply normalizeOperation_gives]. Qed.

Lemma gives_or_default (l : list json) :
  gives (operationsOrDefault clock l) (fun a b ops => ops_ok b ops).
Proof.
  unfold operationsOrDefault. destruct l as [|v l].
  - eapply gives_bind; [apply default_gives|]. intros o n0 n1 Hn Ho. cbn beta. apply gives_ret.
    intros n2 Hn2 ->. eapply ops_ok_new; [exact Hn|done|apply NoDup_singleton|by apply Forall_singleton].
  - eapply gives_mono; [apply gives_operations|]. intros n0 n1 ops Hn (Hf & Hd & Hl).
    eapply ops_ok_new; [exact Hn|by destruct ops|done|done].
Qed.

(** A single new rule. *)
Lemma ops_ok_default (n n' : Z) (o : ParamOverrideOperation) :
  0 <= n <= n' -> issued n n' (o_id o) /\ op_ok n' o -> ops_ok n' [o].
Proof. intros Hn Ho. eapply ops_ok_new; [exact Hn|done|apply NoDup_singleton|by apply Forall_singleton]. Qed.

(** ** Moving rules *)

Lemma without_index {A} (l : list A) (i : nat) (x : A) :
  l !! i = Some x -> l = take i l ++ x :: drop (S i) l.
Proof. intros H. by rewrite <- (take_drop i l) at 1; erewrite drop_S. Qed.

Lemma reorder_perm (ops : list ParamOverrideOperation) (a b : str) (pos : Position) :
  reorderOperations ops a b pos ≡ₚ ops.
Proof.
  unfold reorderOperations. destruct (_ || _); [done|].
  destruct (findIndex _ ops) as [i|]; [|done]. destruct (ops !! i) as [o|] eqn:E; [|done].
  destruct (findIndex _ (take i ops ++ _)) as [j|]; [|done].
  set (k := match pos with Before => j | After => S j end). set (next := take i ops ++ drop (S i) ops).
  rewrite <- Permutation_middle, take_drop. subst next. rewrite Permutation_middle.
  by rewrite <- (without_index ops i o E).
Qed.

(** The rules other than the one at an index, when identifiers are distinct. *)
Lemma filter_without (ops : list ParamOverrideOperation) (i : nat) (o : ParamOverrideOperation) :
  NoDup (map o_id ops) -> ops !! i = Some o ->
  List.filter (fun x => negb (o_id x =?s o_id o)) ops = take i ops ++ drop (S i) ops.
Proof.
  revert i. induction ops as [|x ops IH]; intros i Hd Hi; [done|]. cbn in Hd.
  inversion Hd as [|? ? Hx Hd']; subst. destruct i as [|i]; cbn in Hi |- *.
  - injection Hi as ->. rewrite str_eqb_refl. cbn. rewrite drop_0. apply filter_all.
    apply List.Forall_forall. intros y Hy. apply negb_true_iff, str_eqb_neq. intros E. apply Hx. rewrite <- E.
    apply list_elem_of_In. by apply in_map.
  - rewrite (IH i Hd' Hi). assert (Hne : (o_id x =?s o_id o) = false).
    { apply str_eqb_neq. intros E. apply Hx. rewrite E. apply list_elem_of_In, in_map.
      apply list_elem_of_In. by eapply list_elem_of_lookup_2. }
    by rewrite Hne.
Qed.

Lemma findIndex_id (ops : list ParamOverrideOperation) (o : ParamOverrideOperation) :
  NoDup (map o_id ops) -> o ∈ ops ->
  exists i, findIndex (fun x => o_id x =?s o_id o) ops = Some i /\ ops !! i = Some o.
Proof.
  intros Hd Ho. induction ops as [|x ops IH]; [by apply not_elem_of_nil in Ho|].
  cbn in Hd |- *. inversion Hd as [|? ? Hx Hd']; subst. apply elem_of_cons in Ho as [<-|Ho].
  - rewrite str_eqb_refl. by exists O.
  - destruct (IH Hd' Ho) as (i & Hi & Hl).
    assert (Hne : (o_id x =?s o_id o) = false).
    { apply str_eqb_neq. intros E. apply Hx. rewrite E. apply list_elem_of_In, in_map. by apply list_elem_of_In. }
    rewrite Hne, Hi. by exists (S i).
Qed.

(** Dropping a rule on another one puts it directly before or after it and
    leaves the order of the other rules. *)
Theorem reorder_moves (ops : list ParamOverrideOperation) (src tgt : ParamOverrideOperation) (pos : Position) :
  NoDup (map o_id ops) -> src ∈ ops -> tgt ∈ ops -> o_id src <> o_id tgt ->
  truthy_str (o_id src) = true -> truthy_str (o_id tgt) = true ->
  exists pre post,
    List.filter (fun o => negb (o_id o =?s o_id src)) ops = pre ++ tgt :: post /\
    reorderOperations ops (o_id src) (o_id tgt) pos =
    pre ++ match pos with Before => [src; tgt] | After => [tgt; src] end ++ post.
Proof.
  intros Hd Hs Ht Hne Hts Htt. destruct (findIndex_id ops src Hd Hs) as (i & Hi & Hl).
  pose proof (filter_without ops i src Hd Hl) as Hf.
  set (next := take i ops ++ drop (S i) ops) in *.
  assert (Hperm : ops ≡ₚ src :: next).
  { rewrite (without_index ops i src Hl) at 1. subst next. by rewrite Permutation_middle. }
  assert (Hdn : NoDup (map o_id next)).
  { rewrite Hperm in Hd. by inversion Hd. }
  assert (Htn : tgt ∈ next).
  { rewrite Hperm in Ht. apply elem_of_cons in Ht as [->|Ht]; [congruence|done]. }
  destruct (findIndex_id next tgt Hdn Htn) as (j & Hj & Hlj).
  exists (take j next), (drop (S j) next). split; [by rewrite Hf; apply without_index|].
  unfold reorderOperations. rewrite Hts, Htt. cbn [negb orb].
  rewrite (proj2 (str_eqb_neq (o_id src) (o_id tgt)) Hne), Hi, Hl. fold next. rewrite Hj.
  destruct pos; cbn [app].
  - by erewrite <- drop_S.
  - by erewrite take_S_r, <- app_assoc.
Qed.

(** ** Every event keeps the invariant *)

Lemma patch_operation_ok (n : Z) (p : OperationPatch) (id : str) (o : ParamOverrideOperation) :
  event_ok (UpdateOperation id p) -> op_ok n o -> op_ok n (patch_operation p o).
Proof. intros He [H1 H2 H3]. destruct o, p; by constructor. Qed.

Lemma patch_operation_id (p : OperationPatch) (o : ParamOverrideOperation) : o_id (patch_operation p o) = o_id o.
Proof. by destruct o, p. Qed.

(** What is computed from each element is related to it. *)
Lemma gives_map_rel {A B} (f : A -> gen B) (R : A -> B -> Prop) (l : list A) :
  (forall x, gives (f x) (fun _ _ y => R x y)) -> gives (gmapM f l) (fun _ _ ys => Forall2 R l ys).
Proof.
  intros Hf. induction l as [|x l IH]; cbn [gmapM]; [apply gives_ret; constructor|].
  eapply gives_bind; [apply Hf|]. intros y n0 n1 _ Hy. cbn beta.
  eapply gives_bind; [apply IH|]. intros ys m0 m1 _ Hys. cbn beta. apply gives_ret. by constructor.
Qed.

(** Rules that differ in their value at most. *)
Definition same_but_value (o o' : ParamOverrideOperation) : Prop := o' = set_value_text (o_value_text o') o.

Lemma same_but_value_refl (o : ParamOverrideOperation) : same_but_value o o.
Proof. by destruct o. Qed.

Lemma set_value_same (o : ParamOverrideOperation) (v : str) : same_but_value o (set_value_text v o).
Proof. by destruct o. Qed.

Lemma ops_ok_values (n : Z) (ops ops' : list ParamOverrideOperation) :
  Forall2 same_but_value ops ops' -> ops_ok n ops -> ops_ok n ops'.
Proof.
  intros Hr [H1 H2 H3]. assert (Hid : map o_id ops' = map o_id ops).
  { clear H1 H2 H3. induction Hr as [|o o' ops ops' Ho _ IH]; [done|]. cbn. rewrite IH, Ho. by destruct o. }
  constructor.
  - intros ->. by inversion Hr; subst.
  - by rewrite Hid.
  - clear H1 H2 Hid. induction Hr as [|o o' ops ops' Ho _ IH]; [constructor|].
    inversion H3 as [|? ? [Hi Hok] Hrest]; subst. constructor; [|by apply IH]. rewrite Ho.
    destruct Hok as [Ha Hb Hc]. destruct o. split; [done|]. by constructor.
Qed.

(** ** The rules of a prune draft *)

Definition rules_fresh (a b : Z) (rules : list PruneRule) : Prop :=
  Forall (fun r => issued a b (p_id r)) rules.

Lemma normalizePruneRule_gives (v : json) :
  gives (normalizePruneRule clock v) (fun a b r => issued a b (p_id r)).
Proof.
  unfold normalizePruneRule. eapply gives_bind; [apply gives_id|]. intros id n0 n1 Hn Hid. cbn beta.
  repeat (apply gives_fields; intros ?). apply gives_ret. by intros n _ ->.
Qed.

Lemma gives_rules {A} (f : A -> gen PruneRule) (l : list A) :
  (forall x, gives (f x) (fun a b r => issued a b (p_id r))) ->
  gives (gmapM f l) rules_fresh.
Proof.
  intros Hf. eapply gives_mono; [apply (gives_map f p_id (fun _ _ => True)); [done|]|].
  - intros x. eapply gives_mono; [apply Hf|]. by split.
  - intros n0 n1 rs _ (H & _). eapply Forall_impl; [exact H|]. naive_solver.
Qed.

Lemma rules_fresh_nil (n : Z) : rules_fresh n n [].
Proof. constructor. Qed.

Lemma whereRules_gives (v : option json) : gives (whereRules clock v) rules_fresh.
Proof.
  destruct v as [[| | | |l|o]|]; try (apply gives_ret; intros; apply rules_fresh_nil).
  apply gives_rules. intros. apply normalizePruneRule_gives.
Qed.

Lemma conditionRules_gives (v : option json) : gives (conditionRules clock v) rules_fresh.
Proof.
  destruct v as [[| | | |l|o]|]; try (apply gives_ret; intros; apply rules_fresh_nil);
    apply gives_rules; intros; apply normalizePruneRule_gives.
Qed.

(** Every reading of a draft makes new identifiers for its rules. *)
Lemma parsePrune_gives (text : str) :
  gives (parsePruneObjectsDraft clock text) (fun a b d => rules_fresh a b (pd_rules d)).
Proof.
  unfold parsePruneObjectsDraft. destruct (negb _); [apply gives_ret; intros; apply rules_fresh_nil|].
  destruct (json_parse (trim text)) as [[| | | | |parsed]|];
    try (apply gives_ret; intros; apply rules_fresh_nil).
  eapply gives_bind; [apply whereRules_gives|]. intros r1 n0 n1 Hn H1. cbn beta.
  eapply gives_bind; [apply conditionRules_gives|]. intros r2 m0 m1 Hm H2. cbn beta.
  apply gives_ret. intros n2 Hn2 -> ->. cbn. apply Forall_app. split;
    (eapply Forall_impl; [eassumption|]; intros r Hr; eapply issued_mono; [..|exact Hr]; lia).
Qed.

Lemma updatePrune_ok (id : str) (updater : PruneObjectsDraft -> gen PruneObjectsDraft) (s : Editor) :
  (forall d, gives (updater d) (fun _ _ _ => True)) -> editor_ok s ->
  editor_ok (updatePruneObjectsDraft clock id updater s).
Proof.
  intros Hu Hs. unfold updatePruneObjectsDraft. eapply run_gen_ok; [done| |].
  - apply (gives_map_rel _ same_but_value). intros o. destruct (o_id o =?s id).
    + eapply gives_bind; [apply parsePrune_gives|]. intros d n0 n1 _ _. cbn beta.
      eapply gives_bind; [apply Hu|]. intros d' m0 m1 _ _. cbn beta. apply gives_ret.
      intros. apply set_value_same.
    + apply gives_ret. intros. apply same_but_value_refl.
  - intros ops n' Hn Hr. destruct Hs as [H0 Hs]. split; cbn in *; [lia|].
    eapply ops_ok_values; [exact Hr|]. by eapply ops_ok_mono.
Qed.

(** ** Every event keeps the invariant *)

Lemma addOperation_ok (s : Editor) : editor_ok s -> editor_ok (addOperation clock s).
Proof.
  intros Hs. eapply run_gen_ok; [done|apply default_gives|]. intros o n' Hn Ho.
  destruct Hs as [H0 Hs]. split; cbn; [lia|].
  rewrite <- (app_nil_r [o]). eapply ops_ok_insert; [split; [exact H0|exact Hn]|by rewrite app_nil_r|
    apply NoDup_singleton|by apply Forall_singleton].
Qed.

Lemma duplicateOperation_ok (id : str) (eager : bool) (s : Editor) :
  editor_ok s -> editor_ok (duplicateOperation clock id eager s).
Proof.
  intros Hs. unfold duplicateOperation. destruct (findIndex _ _) as [i|]; [|done].
  destruct (operations s !! i) as [o|]; [|done].
  eapply run_gen_ok; [done|apply normalizeOperation_gives|]. intros c n' Hn Hc. destruct Hs as [H0 Hs].
  assert (Hops : ops_ok n' (take (S i) (operations s) ++ [c] ++ drop (S i) (operations s))).
  { eapply ops_ok_insert; [split; [exact H0|exact Hn]|by rewrite take_drop|
      apply NoDup_singleton|by apply Forall_singleton]. }
  destruct eager; (split; cbn; [lia|exact Hops]).
Qed.

Lemma removeOperation_ok (id : str) (s : Editor) : editor_ok s -> editor_ok (removeOperation clock id s).
Proof.
  intros Hs. unfold removeOperation. destruct (Z.leb_spec (Z.of_nat (length (operations s))) 1) as [Hl|Hl].
  - eapply run_gen_ok; [done|apply default_gives|]. intros o n' Hn Ho. destruct Hs as [H0 Hs].
    split; cbn; [lia|]. by eapply ops_ok_default.
  - destruct Hs as [H0 Hs]. split; [done|]. cbn. apply ops_ok_filter; [|done].
    destruct Hs as [_ Hd _]. destruct (operations s) as [|a [|b ops]]; cbn in Hl; [lia|lia|].
    cbn in Hd |- *. inversion Hd as [|? ? Ha _]; subst.
    destruct (str_eqb_spec (o_id a) id) as [<-|]; [|done]. cbn.
    destruct (str_eqb_spec (o_id b) (o_id a)) as [E|]; [|done]. rewrite E in Ha. exfalso. apply Ha. left.
Qed.

Lemma set_conditions_ok (n : Z) (cs : list ParamOverrideCondition) (o : ParamOverrideOperation) :
  Forall (fun c => issued 0 n (c_id c) /\ condition_ok n c) cs -> NoDup (map c_id cs) ->
  op_ok n o -> op_ok n (set_conditions cs o).
Proof. intros H1 H2 [H3 _ _]. by constructor. Qed.

Lemma addCondition_ok (id : str) (s : Editor) : editor_ok s -> editor_ok (addCondition clock id s).
Proof.
  intros Hs. eapply run_gen_ok; [done|apply normalizeCondition_gives|]. intros c n' Hn [Hi Hc].
  destruct Hs as [H0 Hs]. split; cbn; [lia|].
  eapply map_operation_ok; [exact Hn|done| |exact Hs]. intros o Ho.
  pose proof (op_ok_mono _ _ _ Hn Ho) as Ho'. destruct Ho as [_ Hcs Hd]. destruct (Ho') as [_ Hcs' _].
  apply set_conditions_ok; [| |done].
  - apply Forall_app. split; [done|]. apply Forall_singleton. split; [|done].
    eapply issued_mono; [..|exact Hi]; lia.
  - rewrite map_app. apply NoDup_app. split_and!; [done| |apply NoDup_singleton].
    intros x Hx Hx'. apply list_elem_of_singleton in Hx' as ->.
    apply list_elem_of_In, in_map_iff in Hx as (c' & Heq & Hin). rewrite List.Forall_forall in Hcs.
    destruct (Hcs c' Hin) as [Hi' _]. exact (issued_disjoint 0 _ _ _ _ ltac:(lia) Hi' Hi Heq).
Qed.

Lemma updateCondition_ok (id cid : str) (p : ConditionPatch) (s : Editor) :
  event_ok (UpdateCondition id cid p) -> editor_ok s -> editor_ok (updateCondition id cid p s).
Proof.
  intros He [H0 Hs]. split; [done|]. cbn. eapply map_operation_ok; [apply Z.le_refl|done| |exact Hs].
  intros o Ho. pose proof Ho as [_ Hcs Hd]. apply set_conditions_ok; [| |done].
  - apply Forall_map. eapply Forall_impl; [exact Hcs|]. intros c [Hi Hc]. cbn.
    destruct (c_id c =?s cid); [|done]. split; [by destruct c, p|]. destruct c, p; done.
  - rewrite map_map. erewrite map_ext; [exact Hd|]. intros c. cbn. destruct (c_id c =?s cid); [|done].
    by destruct c, p.
Qed.

Lemma removeCondition_ok (id cid : str) (s : Editor) : editor_ok s -> editor_ok (removeCondition id cid s).
Proof.
  intros [H0 Hs]. split; [done|]. cbn. eapply map_operation_ok; [apply Z.le_refl|done| |exact Hs].
  intros o Ho. pose proof Ho as [_ Hcs Hd]. apply set_conditions_ok; [| |done].
  - rewrite List.Forall_forall in Hcs |- *. intros c Hc. apply filter_In in Hc as [Hc _]. auto.
  - clear -Hd. induction (o_conditions o) as [|c cs IH]; [done|]. cbn in Hd |- *.
    inversion Hd as [|? ? Hc Hn]; subst. destruct (negb _); [|by apply IH]. cbn. constructor; [|by apply IH].
    intros Hin. apply Hc. apply list_elem_of_In, in_map_iff in Hin as (c' & <- & Hin).
    apply filter_In in Hin as [Hin _]. apply list_elem_of_In. by apply in_map.
Qed.

(** Events that change neither the rules nor the counter. *)
Lemma set_preset_ok (v : str) (s : Editor) : editor_ok s -> editor_ok (set_preset v s).
Proof. done. Qed.

Lemma set_jsonText_ok (v : str) (s : Editor) : editor_ok s -> editor_ok (set_jsonText v s).
Proof. done. Qed.

Lemma showDefault_ok (m : VisualMode) (t : str) (s : Editor) : editor_ok s -> editor_ok (showDefault clock m t s).
Proof.
  intros Hs. eapply run_gen_ok; [done|apply default_gives|]. intros o n' Hn Ho. destruct Hs as [H0 Hs].
  split; cbn; [lia|]. by eapply ops_ok_default.
Qed.

Lemma showLegacy_ok (t : str) (s : Editor) : editor_ok s -> editor_ok (showLegacy clock t s).
Proof.
  intros Hs. eapply run_gen_ok; [done|apply default_gives|]. intros o n' Hn Ho. destruct Hs as [H0 Hs].
  split; cbn; [lia|]. by eapply ops_ok_default.
Qed.

Lemma switchToVisual_ok (s : Editor) : editor_ok s -> editor_ok (fst (switchToVisualMode clock s)).
Proof.
  intros Hs. unfold switchToVisualMode. destruct (editMode s); [done|].
  destruct (negb _); [by apply showDefault_ok|].
  destruct (json_parse _) as [[| | | | |parsed]|]; try done.
  destruct (obj_get "operations" parsed) as [[| | | |l|]|]; cbn [fst];
    try (by apply set_preset_ok, showDefault_ok).
  eapply run_gen_ok; [done|apply gives_or_default|]. intros ops n' Hn Ho. destruct Hs as [H0 Hs].
  split; cbn; [lia|done].
Qed.

Lemma fillOperations_ok (mode : FillMode) (l : list json) (s : Editor) :
  l <> [] -> editor_ok s -> editor_ok (fillOperations clock mode l s).
Proof.
  intros Hl Hs. destruct mode; cbn [fillOperations].
  - eapply run_gen_ok; [done|apply gives_or_default|]. intros ops n' Hn Ho. destruct Hs as [H0 Hs].
    split; cbn; [lia|done].
  - eapply run_gen_ok; [done|apply gives_operations|]. intros ops n' Hn (Hf & Hd & Hlen).
    destruct Hs as [H0 Hs]. split; cbn; [lia|].
    assert (Hops : ops_ok n' ops).
    { eapply ops_ok_new; [split; [exact H0|exact Hn]|by destruct l, ops|done|done]. }
    destruct (visualMode s); [|exact Hops].
    destruct (List.filter _ (operations s)) as [|o os] eqn:E; [exact Hops|]. rewrite <- E.
    rewrite <- (app_nil_r ops). eapply ops_ok_insert; [split; [exact H0|exact Hn]| |done|done].
    rewrite app_nil_r. apply ops_ok_filter; [by rewrite E|done].
Qed.

Lemma fillTemplate_ok (mode : FillMode) (s : Editor) :
  editor_ok s -> editor_ok (fst (fillTemplate clock mode s)).
Proof.
  intros Hs. unfold fillTemplate.
  assert (Hpreset : match obj_get (templatePresetKey s) TEMPLATE_PRESET_CONFIG with
    | Some (OperationsPreset, payload) =>
        exists v l, obj_get "operations" payload = Some (JArr (v :: l))
    | _ => True end).
  { destruct (obj_get _ _) as [[kind payload]|] eqn:E; [|done]. apply obj_get_In in E.
    repeat (destruct E as [[= _ <- <-]|E]; [try done; by do 2 eexists|]). done. }
  destruct (obj_get _ _) as [[[] payload]|]; cbn [nullish].
  - destruct Hpreset as (v & l & ->). by apply fillOperations_ok.
  - unfold fillLegacy. destruct mode, (visualMode s); try (by apply showLegacy_ok).
    destruct (if truthy_str _ then _ else _); [by apply showLegacy_ok|done].
  - by apply fillOperations_ok.
Qed.

Lemma pruneDraft_gives (s : Editor) : gives (pruneObjectsDraft clock s) (fun _ _ _ => True).
Proof.
  unfold pruneObjectsDraft. destruct (selectedOperation s) as [o|]; [|by apply gives_ret].
  destruct (o_mode o =?s _); [|by apply gives_ret].
  eapply gives_bind; [apply parsePrune_gives|]. intros. by apply gives_ret.
Qed.

Lemma step_ok (e : Event) (s : Editor) : event_ok e -> editor_ok s -> editor_ok (step clock e s).
Proof.
  intros He Hs. destruct e; cbn [step]; try exact Hs.
  - destruct Hs as [H0 Hs]. split; [done|]. cbn. eapply map_operation_ok; [apply Z.le_refl|apply patch_operation_id| |exact Hs].
    intros o. by eapply patch_operation_ok.
  - by apply addOperation_ok.
  - by apply duplicateOperation_ok.
  - by apply removeOperation_ok.
  - by apply addCondition_ok.
  - by apply updateCondition_ok.
  - by apply removeCondition_ok.
  - unfold setAllConditions. by destruct (selectedOperation s).
  - destruct Hs as [H0 Hs]. split; [done|]. cbn. eapply map_operation_ok; [apply Z.le_refl|by intros []| |exact Hs].
    intros []. by eapply (patch_operation_ok _ (PatchValueText _) []).
  - apply updatePrune_ok; [|done]. intros []. destruct p; by apply gives_ret.
  - apply updatePrune_ok; [|done]. intros d. eapply gives_bind; [apply normalizePruneRule_gives|].
    intros. by apply gives_ret.
  - apply updatePrune_ok; [|done]. intros d. by apply gives_ret.
  - apply updatePrune_ok; [|done]. intros d. by apply gives_ret.
  - unfold handleDragOver. by destruct (_ || _).
  - unfold handleDrop. destruct (_ && _); [|done]. destruct Hs as [H0 Hs]. split; [done|]. cbn.
    eapply ops_ok_perm; [symmetry; apply reorder_perm|done].
  - unfold switchToJsonMode. destruct (editMode s); [|done]. by destruct (buildVisualJson s).
  - by apply switchToVisual_ok.
  - by apply fillTemplate_ok.
  - by apply set_preset_ok, set_jsonText_ok, showDefault_ok.
  - eapply run_gen_ok; [done|apply pruneDraft_gives|]. intros d n' Hn _. destruct Hs as [H0 Hs].
    split; cbn; [lia|by eapply ops_ok_mono].
Qed.

Lemma open_ok (value : str) (seed : Z) (s : Editor) :
  0 <= seed -> openEditor clock value seed = Ok s -> editor_ok s.
Proof.
  intros Hseed. unfold openEditor.
  assert (Hg : gives (parseInitialState clock value) (fun _ b st => ops_ok b (es_operations st))).
  { assert (Hd : forall k : ParamOverrideOperation -> EditorState, (forall o, es_operations (k o) = [o]) ->
      gives (gbind (createDefaultOperation clock) (fun op => gret (k op))) (fun _ b st => ops_ok b (es_operations st))).
    { intros k Hk. eapply gives_bind; [apply default_gives|]. intros o n0 n1 Hn Ho. cbn beta. apply gives_ret.
      intros n2 Hn2 ->. rewrite Hk. by eapply ops_ok_default. }
    unfold parseInitialState. destruct (negb _); [by apply Hd|].
    destruct (json_parse _) as [[| | | | |o]|]; try (by apply Hd).
    destruct (obj_get "operations" o) as [[| | | |l|]|]; try (by apply Hd).
    eapply gives_bind; [apply gives_or_default|]. intros ops n0 n1 _ Ho. cbn beta. apply gives_ret.
    by intros n2 _ ->. }
  specialize (Hg seed Hseed). destruct (parseInitialState clock value seed) as [[st|] n']; [|done].
  intros [= <-]. destruct Hg as [Hn Hok]. split; cbn; [lia|done].
Qed.

(** The states of the dialog on a text. *)
Definition reachable (s : Editor) : Prop :=
  exists value seed s0 evs, 0 <= seed /\ openEditor clock value seed = Ok s0 /\ Forall event_ok evs /\
    s = fold_left (fun s e => step clock e s) evs s0.

Lemma reachable_ok (s : Editor) : reachable s -> editor_ok s.
Proof.
  intros (value & seed & s0 & evs & Hs & Ho & He & ->). apply open_ok in Ho; [|done].
  revert s0 Ho. induction evs as [|e evs IH]; intros s0 Ho; [done|]. inversion He; subst. cbn.
  apply IH; [done|by apply step_ok].
Qed.

(** C39: In every state of the dialog there is a rule to edit: the list is not
    empty, the identifiers of the rules are distinct, a rule is selected, and
    every rule and condition has a known mode. *)
Theorem rule_always_selected (s : Editor) :
  reachable s ->
  NoDup (map o_id (operations s)) /\
  (exists o, selectedOperation s = Some o /\ o ∈ operations s) /\
  Forall (fun o => o_mode o ∈ OPERATION_MODE_VALUES /\
                   Forall (fun c => c_mode c ∈ CONDITION_MODE_VALUES) (o_conditions o)) (operations s).
Proof.
  intros Hr. destruct (reachable_ok s Hr) as [_ [Hne Hd Hok]]. split_and!; [done| |].
  - unfold selectedOperation. destruct (find _ (operations s)) as [o|] eqn:E.
    { exists o. split; [done|]. by apply find_Some in E as [E _]. }
    exfalso. pose proof (proj1 (find_None _ _) E) as Hn. clear E. unfold effectiveSelectedOperationId in Hn.
    destruct (existsb _ (operations s)) eqn:Ex.
    + apply existsb_exists in Ex as (o & Hin & Heq).
      rewrite List.Forall_forall in Hn. specialize (Hn o Hin). congruence.
    + destruct (operations s) as [|o os]; [done|]. inversion Hn as [|? ? Ho _]; subst. cbn in Ho.
      by rewrite str_eqb_refl in Ho.
  - eapply Forall_impl; [exact Hok|]. intros o [_ [Hm Hc _]]. split; [done|].
    eapply Forall_impl; [exact Hc|]. by intros c [_ ?].
Qed.

(** ** Edits of prune rules *)

(** Computations that agree wherever the counter stands from [n0] on. *)
Lemma gmapM_ext_from {A B} (f g : A -> gen B) (l : list A) (n0 : Z) :
  (forall x n, n0 <= n -> f x n = g x n) -> (forall x n, n0 <= n -> n <= snd (f x n)) ->
  gmapM f l n0 = gmapM g l n0.
Proof.
  intros He Hm. assert (H : forall n, n0 <= n -> gmapM f l n = gmapM g l n); [|by apply H].
  induction l as [|x l IH]; intros n Hn; [done|]. cbn [gmapM]. unfold gbind. rewrite <- He by done.
  specialize (Hm x n Hn). destruct (f x n) as [[y|] n1]; [|done]. cbn in Hm. rewrite <- IH by lia. done.
Qed.

(** The computation that the updater runs on a rule. *)
Definition prune_update (id : str) (updater : PruneObjectsDraft -> gen PruneObjectsDraft)
    (op : ParamOverrideOperation) : gen ParamOverrideOperation :=
  if o_id op =?s id then
    gbind (parsePruneObjectsDraft clock (o_value_text op)) (fun draft =>
    gbind (updater draft) (fun nextDraft => gret (set_value_text (buildPruneObjectsValueText nextDraft) op)))
  else gret op.

Lemma updatePrune_operations (id : str) (updater : PruneObjectsDraft -> gen PruneObjectsDraft) (s : Editor) :
  operations (updatePruneObjectsDraft clock id updater s) =
  match fst (gmapM (prune_update id updater) (operations s) (localIdSeed s)) with
  | Ok ops => ops | Throw => operations s end.
Proof.
  unfold updatePruneObjectsDraft, run_gen.
  change (fun op : ParamOverrideOperation => if o_id op =?s id then _ else _) with (prune_update id updater).
  by destruct (gmapM _ (operations s) _) as [[ops|] n].
Qed.

(** An updater that looks for an old identifier finds none. *)
Lemma old_id_unused (id rid : str) (f : list PruneRule -> list PruneRule) (s : Editor) :
  0 <= localIdSeed s -> issued 0 (localIdSeed s) rid ->
  (forall rules, Forall (fun r => p_id r <> rid) rules -> f rules = rules) ->
  operations (updatePruneObjectsDraft clock id (fun d => gret (set_rules (f (pd_rules d)) d)) s) =
  operations (updatePruneObjectsDraft clock id gret s).
Proof.
  intros Hs Hr Hf. rewrite !updatePrune_operations. erewrite gmapM_ext_from; [reflexivity|..].
  - intros o n Hn. unfold prune_update. destruct (o_id o =?s id); [|done]. unfold gbind.
    assert (H0 : 0 <= n) by lia. pose proof (parsePrune_gives (o_value_text o) n H0) as Hg.
    destruct (parsePruneObjectsDraft clock (o_value_text o) n) as [[d|] n1]; [|done]. destruct Hg as [_ Hg].
    cbn. rewrite Hf; [by destruct d|]. eapply Forall_impl; [exact Hg|]. intros r Hi E.
    rewrite <- E in Hr. eapply (issued_disjoint 0 (localIdSeed s) n1); [lia|exact Hr| |reflexivity].
    eapply issued_mono; [..|exact Hi]; lia.
  - intros o n Hn. unfold prune_update. destruct (o_id o =?s id); [|cbn; lia]. unfold gbind.
    assert (H0 : 0 <= n) by lia. pose proof (parsePrune_gives (o_value_text o) n H0) as Hg.
    destruct (parsePruneObjectsDraft clock (o_value_text o) n) as [[d|] n1]; cbn in *; lia.
Qed.

(** Neither an edit nor the removal of a prune rule does anything: the
    handlers read the draft again, which gives its rules new identifiers, and
    look for the identifier that the dialog shows. *)
Theorem prune_rule_edits_lost (s s' : Editor) (d : PruneObjectsDraft) (r : PruneRule) (n : Z) (id : str)
    (p : PruneRulePatch) :
  0 <= localIdSeed s -> pruneObjectsDraft clock s (localIdSeed s) = (Ok (Some d), n) -> r ∈ pd_rules d ->
  n <= localIdSeed s' ->
  let untouched := operations (updatePruneObjectsDraft clock id gret s') in
  operations (updatePruneRule clock id (p_id r) p s') = untouched /\
  operations (removePruneRule clock id (p_id r) s') = untouched.
Proof.
  intros Hs Hd Hr Hn untouched.
  assert (Hi : issued (localIdSeed s) n (p_id r)).
  { unfold pruneObjectsDraft in Hd. destruct (selectedOperation s) as [o|]; [|done].
    destruct (o_mode o =?s _); [|done]. unfold gbind in Hd.
    pose proof (parsePrune_gives (o_value_text o) (localIdSeed s) Hs) as Hg.
    destruct (parsePruneObjectsDraft clock (o_value_text o) (localIdSeed s)) as [[d'|] n']; [|done].
    injection Hd as <- <-. destruct Hg as [_ Hg]. unfold rules_fresh in Hg. rewrite Forall_forall in Hg. auto. }
  assert (Hi' : issued 0 (localIdSeed s') (p_id r)) by (eapply issued_mono; [..|exact Hi]; lia).
  assert (H0 : 0 <= localIdSeed s').
  { destruct Hi as (m & Hm & _). lia. }
  split.
  - apply (old_id_unused id (p_id r) (map (fun r' => if p_id r' =?s p_id r then patch_rule p r' else r'))); [done|done|].
    intros rules Hn'. rewrite <- (map_id rules) at 2. apply map_ext_in. intros x Hx.
    rewrite List.Forall_forall in Hn'. by rewrite (proj2 (str_eqb_neq _ _) (Hn' x Hx)).
  - apply (old_id_unused id (p_id r) (List.filter (fun r' => negb (p_id r' =?s p_id r)))); [done|done|].
    intros rules Hn'. apply filter_all. eapply Forall_impl; [exact Hn'|]. intros x Hx.
    by rewrite (proj2 (str_eqb_neq _ _) Hx).
Qed.

(** ** Computations that differ in their identifiers *)

Definition agree {A} (R : A -> A -> Prop) (m m' : gen A) : Prop :=
  forall n n', match fst (m n), fst (m' n') with
  | Ok a, Ok b => R a b
  | Throw, Throw => True
  | _, _ => False
  end.

Lemma agree_ret {A} (R : A -> A -> Prop) (a b : A) : R a b -> agree R (gret a) (gret b).
Proof. intros H n n'. done. Qed.

Lemma agree_bind {A B} (R : A -> A -> Prop) (S : B -> B -> Prop) (m m' : gen A) (k k' : A -> gen B) :
  agree R m m' -> (forall a b, R a b -> agree S (k a) (k' b)) -> agree S (gbind m k) (gbind m' k').
Proof.
  intros Hm Hk n n'. specialize (Hm n n'). unfold gbind.
  destruct (m n) as [[a|] n1], (m' n') as [[b|] n1']; cbn in *; try done. by apply Hk.
Qed.

Lemma agree_map {A B} (R : B -> B -> Prop) (f g : A -> gen B) (l : list A) :
  (forall x, agree R (f x) (g x)) -> agree (Forall2 R) (gmapM f l) (gmapM g l).
Proof.
  intros Hf. induction l as [|x l IH]; cbn [gmapM]; [apply agree_ret; constructor|].
  eapply agree_bind; [apply Hf|]. intros y y' Hy. eapply agree_bind; [apply IH|]. intros ys ys' Hys.
  apply agree_ret. by constructor.
Qed.

(** Rules that differ in their identifiers at most. *)
Definition rule_content (r : PruneRule) : str * str * str * bool * bool :=
  (p_path r, p_mode r, p_value_text r, p_invert r, p_pass_missing_key r).

Definition same_rule (r r' : PruneRule) : Prop := rule_content r = rule_content r'.

Record same_draft (d d' : PruneObjectsDraft) : Prop := {
  sd_simple : pd_simpleMode d = pd_simpleMode d';
  sd_type : pd_typeText d = pd_typeText d';
  sd_logic : pd_logic d = pd_logic d';
  sd_recursive : pd_recursive d = pd_recursive d';
  sd_rules : Forall2 same_rule (pd_rules d) (pd_rules d');
}.

Lemma normalizePruneRule_agree (v : json) : agree same_rule (normalizePruneRule clock v) (normalizePruneRule clock v).
Proof. intros n n'. destruct v; cbn; try done. Qed.

Lemma entry_rules_agree (o : list (str * json)) :
  agree (Forall2 same_rule) (entry_rules clock o) (entry_rules clock o).
Proof. apply agree_map. intros. apply normalizePruneRule_agree. Qed.

Lemma parsePrune_agree (text : str) :
  agree same_draft (parsePruneObjectsDraft clock text) (parsePruneObjectsDraft clock text).
Proof.
  assert (Hnil : forall si ty lo re, same_draft (MkPruneDraft si ty lo re []) (MkPruneDraft si ty lo re [])).
  { intros. by constructor; cbn. }
  unfold parsePruneObjectsDraft. destruct (negb _); [by apply agree_ret|].
  destruct (json_parse (trim text)) as [[| | | | |parsed]|]; try (by apply agree_ret).
  eapply (agree_bind (Forall2 same_rule)).
  { destruct (obj_get "where" parsed) as [[| | | | |o]|]; try (apply agree_ret; constructor). apply entry_rules_agree. }
  intros r1 r1' H1. eapply (agree_bind (Forall2 same_rule)).
  { destruct (obj_get "conditions" parsed) as [[| | | |l|o]|]; try (apply agree_ret; constructor).
    - apply agree_map. intros. apply normalizePruneRule_agree.
    - apply entry_rules_agree. }
  intros r2 r2' H2. apply agree_ret. constructor; cbn; [done..|]. by apply Forall2_app.
Qed.

(** The conditions that are written for rules. *)
Definition prune_conditions (rules : list PruneRule) : list json :=
  map prune_condition (List.filter (fun rule => truthy_str (trim (p_path rule))) rules).

Lemma prune_conditions_same (rules rules' : list PruneRule) :
  Forall2 same_rule rules rules' -> prune_conditions rules = prune_conditions rules'.
Proof.
  intros H. induction H as [|r r' rs rs' Hr _ IH]; [done|]. unfold same_rule, rule_content in Hr.
  destruct r, r'; cbn in Hr. injection Hr as -> -> -> -> ->. unfold prune_conditions in *. cbn [List.filter p_path].
  destruct (truthy_str _); [|done]. cbn [map]. by rewrite IH.
Qed.

Lemma build_prune_conditions (si re : bool) (ty lo : str) (rules rules' : list PruneRule) :
  prune_conditions rules = prune_conditions rules' ->
  buildPruneObjectsValueText (MkPruneDraft si ty lo re rules) =
  buildPruneObjectsValueText (MkPruneDraft si ty lo re rules').
Proof.
  intros H. unfold buildPruneObjectsValueText. cbn [pd_simpleMode pd_typeText pd_logic pd_recursive pd_rules].
  fold (prune_conditions rules) (prune_conditions rules'). by rewrite H.
Qed.

Lemma empty_rule_unwritten (rules : list PruneRule) (r : PruneRule) :
  p_path r = [] -> prune_conditions (rules ++ [r]) = prune_conditions rules.
Proof.
  intros Hr. unfold prune_conditions. rewrite List.filter_app. cbn [List.filter]. rewrite Hr.
  change (truthy_str (trim [])) with false. by rewrite app_nil_r.
Qed.

Lemma operations_agree (id : str) (u u' : PruneObjectsDraft -> gen PruneObjectsDraft) (s : Editor) :
  (forall d d', same_draft d d' ->
     agree (fun a b => buildPruneObjectsValueText a = buildPruneObjectsValueText b) (u d) (u' d')) ->
  operations (updatePruneObjectsDraft clock id u s) = operations (updatePruneObjectsDraft clock id u' s).
Proof.
  intros Hu. rewrite !updatePrune_operations.
  assert (Ha : agree (Forall2 eq) (gmapM (prune_update id u) (operations s)) (gmapM (prune_update id u') (operations s))).
  { apply agree_map. intros o. unfold prune_update. destruct (o_id o =?s id); [|by apply agree_ret].
    eapply agree_bind; [apply parsePrune_agree|]. intros d d' Hd. eapply agree_bind; [by apply Hu|].
    intros a b Hab. apply agree_ret. by rewrite Hab. }
  specialize (Ha (localIdSeed s) (localIdSeed s)).
  destruct (fst (gmapM (prune_update id u) _ _)), (fst (gmapM (prune_update id u') _ _)); try done.
  by apply list_eq_Forall2.
Qed.

(** Adding a prune rule adds none: the new rule has no path and is not
    written, so that only the mode changes; and a draft with a type and no rule
    is read in the simple mode again. *)
Theorem prune_rule_never_added (s : Editor) (id ty : str) (n : Z) :
  trim ty <> [] ->
  operations (addPruneRule clock id s) =
  operations (updatePruneObjectsDraft clock id (patch_prune (PatchPruneSimple false)) s) /\
  parsePruneObjectsDraft clock (buildPruneObjectsValueText (MkPruneDraft false ty "AND" true [])) n =
  (Ok (MkPruneDraft true (trim ty) "AND" true []), n).
Proof.
  intros Hty. split.
  - apply operations_agree. intros d d' [H1 H2 H3 H4 H5] m m'.
    destruct d as [si ty' lo re ru], d' as [si' ty'' lo' re' ru'].
    cbn [pd_simpleMode pd_typeText pd_logic pd_recursive pd_rules] in *. subst.
    change (buildPruneObjectsValueText (MkPruneDraft false ty'' lo' re'
              (ru ++ [MkPruneRule (local_id clock m) [] "full" [] false false])) =
            buildPruneObjectsValueText (MkPruneDraft false ty'' lo' re' ru')).
    apply build_prune_conditions. rewrite empty_rule_unwritten by done. by apply prune_conditions_same.
  - assert (Hb : buildPruneObjectsValueText (MkPruneDraft false ty "AND" true []) =
                 stringify (JObj [(js "type", JStr (trim ty))])).
    { unfold buildPruneObjectsValueText. cbn [pd_simpleMode pd_typeText pd_logic pd_recursive pd_rules].
      destruct (trim ty) as [|c t] eqn:E; [done|]. cbn [truthy_str]. rewrite toUpperCase_ascii by reflexivity.
      reflexivity. }
    assert (Hok : json_ok (JObj [(js "type", JStr (trim ty))])).
    { constructor; [reflexivity|]. apply Forall_singleton. constructor. }
    rewrite Hb. unfold parsePruneObjectsDraft. rewrite trim_id by by apply stringify_trimmed.
    rewrite json_roundtrip by done.
    transitivity (Ok (MkPruneDraft true (trim (trim ty)) (logic_or "OR" "AND" None) true []), n); [reflexivity|].
    rewrite trim_idem. unfold logic_or. by rewrite toUpperCase_ascii by reflexivity.
Qed.

End Laws.

(** ** Instances *)

(** A clock, and the dialog on a text. *)
Definition ex_clock (n : Z) : Z := 1700000000000 + n.

Definition ex_open (text : str) : Editor :=
  match openEditor (CM := AsciiCase) ex_clock text 0 with
  | Ok s => s
  | Throw => initialEditor (MkEditorState Visual Operations [] [] [] None) [] 0
  end.

Definition ex_rules : Editor := ex_open (stringify (JObj OPERATION_TEMPLATE)).

Definition ex_events : list Event :=
  [AddOperation; FillTemplate Append; SwitchToJson; SwitchToVisual;
   RemoveOperation (o_id (nth 0 (operations ex_rules) (MkOperation [] [] [] [] [] [] [] false [] [])))].

Lemma ex_reachable (evs : list Event) :
  Forall event_ok evs ->
  reachable (CM := AsciiCase) ex_clock (fold_left (fun s e => step (CM := AsciiCase) ex_clock e s) evs ex_rules).
Proof.
  intros He. exists (stringify (JObj OPERATION_TEMPLATE)), 0, ex_rules, evs. split_and!; [done| |done|done].
  vm_compute. reflexivity.
Qed.

Lemma rule_always_selected_witness :
  let s := fold_left (fun s e => step (CM := AsciiCase) ex_clock e s) ex_events ex_rules in
  NoDup (map o_id (operations s)) /\ (exists o, selectedOperation s = Some o /\ o ∈ operations s) /\
  Forall (fun o => o_mode o ∈ OPERATION_MODE_VALUES /\
                   Forall (fun c => c_mode c ∈ CONDITION_MODE_VALUES) (o_conditions o)) (operations s).
Proof.
  apply (rule_always_selected (CM := AsciiCase) ex_clock). apply ex_reachable. repeat constructor.
Defined.

(** Two rules, the first of which is dropped on the second. *)
Definition ex_op (id path : str) : ParamOverrideOperation :=
  MkOperation id [] path "delete" [] [] [] false "OR" [].

Lemma reorder_moves_witness :
  exists pre post,
    List.filter (fun o => negb (o_id o =?s "a")) [ex_op "a" "x"; ex_op "b" "y"; ex_op "c" "z"] =
      pre ++ ex_op "b" "y" :: post /\
    reorderOperations [ex_op "a" "x"; ex_op "b" "y"; ex_op "c" "z"] "a" "b" After =
      pre ++ [ex_op "b" "y"; ex_op "a" "x"] ++ post.
Proof.
  apply (reorder_moves [ex_op "a" "x"; ex_op "b" "y"; ex_op "c" "z"] (ex_op "a" "x") (ex_op "b" "y") After);
    try done.
  - apply (bool_decide_unpack _). vm_compute. exact I.
  - left.
  - right. left.
Defined.

(** The dialog on a prune rule with a condition. *)
Definition ex_prune : Editor := ex_open
  (jq "{'operations':[{'mode':'prune_objects','value':{'conditions':[{'path':'type','value':'thinking'}]}}]}").

Lemma prune_rule_edits_lost_witness :
  exists d r n,
    pruneObjectsDraft (CM := AsciiCase) ex_clock ex_prune (localIdSeed ex_prune) = (Ok (Some d), n) /\ r ∈ pd_rules d /\
    let s' := step (CM := AsciiCase) ex_clock Render ex_prune in
    let id := selectedOperationId ex_prune in
    operations (removePruneRule (CM := AsciiCase) ex_clock id (p_id r) s') =
    operations (updatePruneObjectsDraft (CM := AsciiCase) ex_clock id gret s').
Proof.
  eexists _, _, _. split; [vm_compute; reflexivity|]. split; [left|].
  eapply (prune_rule_edits_lost (CM := AsciiCase) ex_clock ex_prune _ _ _ _ _ (PatchRInvert true));
    [done|vm_compute; reflexivity|left|done].
Defined.

Lemma prune_rule_never_added_witness :
  operations (addPruneRule (CM := AsciiCase) ex_clock (selectedOperationId ex_prune) ex_prune) =
  operations (updatePruneObjectsDraft (CM := AsciiCase) ex_clock (selectedOperationId ex_prune)
                (patch_prune (PatchPruneSimple false)) ex_prune).
Proof.
  apply (prune_rule_never_added (CM := AsciiCase) ex_clock ex_prune (selectedOperationId ex_prune) "thinking" 0).
  done.
Defined.
