(* ===== verification/ParamOverrideRoundTrip.v ===== *)
(** * Reading and writing parameter overrides

    Proofs about [ParamOverride]: what is saved for a rule, that it is complete,
    and that a text that was saved is saved again after the switch of editors
    and after it is opened again, as long as no value was typed as a quoted JSON
    string; quoted strings that read as JSON change their type. *)

From stdpp Require Import base list.
From Stdlib Require Import ZArith NArith Lia.
From S2P Require Import Prelude JsString JsArray JsNumber JsJson JsonRoundTrip ParamOverride ParamOverrideLaws.

Local Open Scope Z_scope.

(** ** Values as text *)


(** The text that is shown for the value of a text. *)
Definition shown_text (t : str) : str := toValueText (Some (parseLooseValue t)).




(** ** The fields of a rule, in order *)

Definition opt_entry (b : bool) (k : str) (v : json) : list (str * json) := if b then [(k, v)] else [].

Definition has_path (meta : ModeMeta) (p : str) : bool := m_path meta || (m_pathOptional meta && truthy_str p).
Definition has_to (meta : ModeMeta) (t : str) : bool := truthy_ob (m_to meta) || truthy_str t.

Definition payload_fields (mode d p : str) (v : json) (keep : bool) (f t : str) (conds : list json) (logic : str)
    : list (str * json) :=
  let meta := meta_of mode in
  [(js "mode", JStr mode)] ++ opt_entry (truthy_str d) "description" (JStr d)
  ++ opt_entry (has_path meta p) "path" (JStr p) ++ opt_entry (m_value meta) "value" v
  ++ opt_entry (m_keepOrigin meta && keep) "keep_origin" (JBool true)
  ++ opt_entry (m_from meta) "from" (JStr (if m_pathAlias meta then str_or f p else f))
  ++ opt_entry (has_to meta t) "to" (JStr (if m_pathAlias meta then str_or t p else t))
  ++ match conds with
     | [] => []
     | _ => [(js "conditions", JArr conds); (js "logic", JStr (if logic =?s "AND" then js "AND" else js "OR"))]
     end.

Definition metas : list ModeMeta :=
  [meta_path; meta_path_value; meta_path_value_keep; meta_from_to; meta_replace; meta_header_pair;
   MkMeta false false true false None false false; MkMeta false true true false None false false;
   MkMeta false false true false None true false].

Lemma meta_of_In (mode : str) : In (meta_of mode) metas.
Proof.
  unfold meta_of. destruct (obj_get mode MODE_META) as [m|] eqn:E; [|cbn; tauto].
  apply obj_get_In in E. cbn in E |- *. repeat (destruct E as [[= _ <-]|E]; [tauto|]). done.
Qed.

(** A new key is written at the end. *)
Lemma put_if_new (ks : list str) (b : bool) (k : str) (v : json) (o : list (str * json)) :
  array_index k = None -> mem_str k ks = false -> Forall (fun k' => k' ∈ ks) (obj_keys o) ->
  put_if b k v o = o ++ opt_entry b k v /\ Forall (fun k' => k' ∈ k :: ks) (obj_keys (o ++ opt_entry b k v)).
Proof.
  intros Hk Hm Ho. split.
  - unfold put_if, opt_entry. destruct b; [|by rewrite app_nil_r]. apply obj_set_new; [done|].
    intros Hin. apply mem_str_false in Hm. apply Hm. rewrite Forall_forall in Ho. auto.
  - unfold obj_keys. rewrite map_app. apply Forall_app. split.
    + eapply Forall_impl; [exact Ho|]. intros x Hx. by right.
    + destruct b; [|constructor]. apply Forall_singleton. by left.
Qed.

(** The next field of a chain of writes; [H] says which keys are known. *)
Ltac put_next H :=
  match type of H with Forall (fun k' => k' ∈ ?ks) (obj_keys ?o) =>
    match goal with |- context [put_if ?b ?k ?v o] =>
      let E := fresh in let H' := fresh in
      destruct (put_if_new ks b k v o eq_refl eq_refl H) as [E H']; rewrite E; clear E H; rename H' into H
    end
  end.

Lemma put_if_twice (b b' : bool) (k : str) (v : json) (o : list (str * json)) :
  put_if b k v (put_if b' k v o) = put_if (b' || b) k v o.
Proof. destruct b, b'; cbn; try done. apply obj_set_set. Qed.

Section RoundTrip.
Context {CM : CaseMapping}.
Context (clock : Z -> Z).

Lemma operationPayload_fields (o : ParamOverrideOperation) :
  operationPayload o = JObj (payload_fields (mode_of o) (trim (o_description o)) (trim (o_path o))
    (parseLooseValue (o_value_text o)) (o_keep_origin o) (trim (o_from o)) (trim (o_to o))
    (omap buildConditionPayload (o_conditions o)) (o_logic o)).
Proof.
  unfold operationPayload, payload_fields.
  generalize (trim (o_description o)), (trim (o_path o)), (trim (o_from o)), (trim (o_to o)),
    (parseLooseValue (o_value_text o)), (omap buildConditionPayload (o_conditions o)), (mode_of o).
  intros d p f t v cs mode. f_equal. unfold has_path, has_to.
  pose proof (meta_of_In mode) as Hm. generalize dependent (meta_of mode). intros meta Hm.
  destruct (m_pathAlias meta) eqn:Ealias.
  { assert (E : meta = meta_header_pair) by (cbn in Hm; repeat (destruct Hm as [<-|Hm]; [done|]); done).
    subst meta. destruct d, p, f, t, (o_keep_origin o), cs; reflexivity. }
  rewrite !put_if_twice. set (logic := JStr _).
  destruct (put_if_new [js "mode"] (truthy_str d) "description" (JStr d) [(js "mode", JStr mode)]) as [-> H1];
    [done|done|by apply Forall_singleton, list_elem_of_singleton|].
  do 4 put_next H1.
  assert (Hto : negb (truthy_ob (m_to meta)) && truthy_str t || truthy_ob (m_to meta) =
                truthy_ob (m_to meta) || truthy_str t) by (by destruct (truthy_ob (m_to meta)), (truthy_str t)).
  rewrite Hto. put_next H1. destruct cs as [|c cs]; [by rewrite app_nil_r, <- !app_assoc|].
  change (0 <? Z.of_nat (length (c :: cs))) with true. cbv iota.
  match goal with |- obj_set (js "logic") logic (obj_set (js "conditions") ?v ?o) = _ =>
    change (obj_set "logic" logic (obj_set "conditions" v o)) with
      (put_if true "logic" logic (put_if true "conditions" v o)) end.
  do 2 put_next H1. cbn [opt_entry]. by rewrite <- !app_assoc.
Qed.

(** ** Reading the fields *)

Lemma obj_get_opt (k k' : str) (b : bool) (v : json) :
  obj_get k (opt_entry b k' v) = if (k =?s k') && b then Some v else None.
Proof. destruct b; cbn; [by rewrite andb_true_r|by rewrite andb_false_r]. Qed.

(** What is read from the fields of a rule. *)
Lemma payload_get (mode d p : str) (v : json) (keep : bool) (f t : str) (conds : list json) (logic : str) :
  let meta := meta_of mode in
  let o := payload_fields mode d p v keep f t conds logic in
  obj_get "mode" o = Some (JStr mode) /\
  string_or_empty (obj_get "description" o) = d /\
  string_or_empty (obj_get "path" o) = (if has_path meta p then p else []) /\
  obj_get "value" o = (if m_value meta then Some v else None) /\
  is_true (obj_get "keep_origin" o) = m_keepOrigin meta && keep /\
  string_or_empty (obj_get "from" o) = (if m_from meta then if m_pathAlias meta then str_or f p else f else []) /\
  string_or_empty (obj_get "to" o) = (if has_to meta t then if m_pathAlias meta then str_or t p else t else []) /\
  obj_get "conditions" o = (match conds with [] => None | _ => Some (JArr conds) end) /\
  obj_get "logic" o = (match conds with [] => None
                       | _ => Some (JStr (if logic =?s "AND" then js "AND" else js "OR")) end).
Proof.
  cbv zeta. unfold payload_fields. split; [done|]. rewrite !obj_get_app, !obj_get_opt.
  destruct conds as [|c cs]; cbn [obj_get]; literals; split_and!; try (by destruct d);
    repeat match goal with |- context [if ?b then _ else _] => destruct b end; done.
Qed.

Lemma elem_of_mode_of (o : ParamOverrideOperation) :
  o_mode o ∈ OPERATION_MODE_VALUES -> mode_of o = o_mode o.
Proof.
  intros Hm. unfold mode_of. destruct (o_mode o); [|done].
  apply list_elem_of_In in Hm. vm_compute in Hm. naive_solver.
Qed.

(** ** A condition and its payload *)

Definition has_condition (c : ParamOverrideCondition) : bool := truthy_str (trim (c_path c)).

Record reread_condition (c c' : ParamOverrideCondition) : Prop := {
  rc_path : c_path c' = trim (c_path c);
  rc_mode : c_mode c' = c_mode c;
  rc_value : c_value_text c' = shown_text (c_value_text c);
  rc_invert : c_invert c' = c_invert c;
  rc_pass : c_pass_missing_key c' = c_pass_missing_key c;
}.

Lemma condition_reread (c : ParamOverrideCondition) (v : json) (seed : Z) :
  c_mode c ∈ CONDITION_MODE_VALUES -> buildConditionPayload c = Some v ->
  exists c' n, normalizeCondition clock v seed = (Ok c', n) /\ reread_condition c c' /\ has_condition c = true.
Proof.
  unfold buildConditionPayload, has_condition. intros Hm Hv.
  assert (Hne : c_mode c <> []).
  { intros E. rewrite E in Hm. apply list_elem_of_In in Hm. vm_compute in Hm. naive_solver. }
  assert (Hc : choice_or CONDITION_MODE_VALUES (Some (JStr (c_mode c))) "full" = c_mode c).
  { unfold choice_or. by rewrite (proj2 (mem_str_true _ _) Hm). }
  destruct (truthy_str (trim (c_path c))) eqn:Et; [|done]. cbn [negb] in Hv. injection Hv as <-.
  assert (Hstr : str_or (c_mode c) "full" = c_mode c) by (unfold str_or; by destruct (c_mode c)).
  rewrite Hstr. exists (MkCondition (local_id clock seed) (trim (c_path c)) (c_mode c)
    (shown_text (c_value_text c)) (c_invert c) (c_pass_missing_key c)), (seed + 1).
  split; [|done]. transitivity (Ok (MkCondition (local_id clock seed) (trim (c_path c))
    (choice_or CONDITION_MODE_VALUES (Some (JStr (c_mode c))) "full") (shown_text (c_value_text c))
    (c_invert c) (c_pass_missing_key c)), seed + 1); [|by rewrite !Hc].
  destruct (c_invert c), (c_pass_missing_key c); reflexivity.
Qed.

(** Conditions that are written the same are read and written the same. *)
Lemma conditions_reread (cs : list ParamOverrideCondition) (seed : Z) :
  Forall (fun c => c_mode c ∈ CONDITION_MODE_VALUES) cs ->
  exists cs' n, gmapM (normalizeCondition clock) (omap buildConditionPayload cs) seed = (Ok cs', n) /\
    Forall2 reread_condition (List.filter has_condition cs) cs'.
Proof.
  intros Hcs. revert seed. induction Hcs as [|c cs Hc Hcs IH]; intros seed; [by exists [], seed|].
  cbn [omap list_omap]. unfold has_condition at 1. cbn [List.filter].
  destruct (buildConditionPayload c) as [v|] eqn:E.
  - destruct (condition_reread c v seed Hc E) as (c' & n & Hn & Hr & Ht). unfold has_condition in Ht. rewrite Ht.
    destruct (IH n) as (cs' & n' & Hcs' & Hrs). exists (c' :: cs'), n'. split; [|by constructor].
    cbn [gmapM]. unfold gbind. rewrite Hn. fold (omap buildConditionPayload cs). by rewrite Hcs'.
  - unfold buildConditionPayload in E. destruct (truthy_str (trim (c_path c))); [done|]. apply IH.
Qed.



(** ** A rule and its payload *)

Record reread_operation (o o' : ParamOverrideOperation) : Prop := {
  ro_mode : o_mode o' = o_mode o;
  ro_description : o_description o' = trim (o_description o);
  ro_path : o_path o' = if has_path (meta_of (o_mode o)) (trim (o_path o)) then trim (o_path o) else [];
  ro_value : m_value (meta_of (o_mode o)) = true -> o_value_text o' = shown_text (o_value_text o);
  ro_novalue : m_value (meta_of (o_mode o)) = false -> o_value_text o' = [];
  ro_keep : o_keep_origin o' = m_keepOrigin (meta_of (o_mode o)) && o_keep_origin o;
  ro_from : o_from o' =
    if m_from (meta_of (o_mode o))
    then if m_pathAlias (meta_of (o_mode o)) then str_or (trim (o_from o)) (trim (o_path o)) else trim (o_from o)
    else [];
  ro_to : o_to o' =
    if has_to (meta_of (o_mode o)) (trim (o_to o))
    then if m_pathAlias (meta_of (o_mode o)) then str_or (trim (o_to o)) (trim (o_path o)) else trim (o_to o)
    else [];
  ro_conditions : Forall2 reread_condition (List.filter has_condition (o_conditions o)) (o_conditions o');
  ro_logic : omap buildConditionPayload (o_conditions o) <> [] -> (o_logic o' =?s "AND") = (o_logic o =?s "AND");
}.

Lemma logic_and_or (l : str) :
  (logic_or "AND" "OR" (Some (JStr (if l =?s "AND" then js "AND" else js "OR"))) =?s "AND") = (l =?s "AND").
Proof.
  unfold logic_or. destruct (l =?s "AND"); cbn [ojson_or truthy_json json_to_string]; literals;
    cbn [truthy_str]; rewrite toUpperCase_ascii by reflexivity; reflexivity.
Qed.

Lemma operation_reread (o : ParamOverrideOperation) (seed : Z) :
  o_mode o ∈ OPERATION_MODE_VALUES -> Forall (fun c => c_mode c ∈ CONDITION_MODE_VALUES) (o_conditions o) ->
  exists o' n, normalizeOperation clock (operationPayload o) seed = (Ok o', n) /\ reread_operation o o'.
Proof.
  intros Hm Hcs. rewrite operationPayload_fields, elem_of_mode_of by done.
  set (cs := omap buildConditionPayload (o_conditions o)).
  pose proof (payload_get (o_mode o) (trim (o_description o)) (trim (o_path o)) (parseLooseValue (o_value_text o))
    (o_keep_origin o) (trim (o_from o)) (trim (o_to o)) cs (o_logic o)) as Hg. cbv zeta in Hg.
  set (fields := payload_fields _ _ _ _ _ _ _ _ _) in *. destruct Hg as (Gm & Gd & Gp & Gv & Gk & Gf & Gt & Gc & Gl).
  destruct (conditions_reread (o_conditions o) (seed + 1) Hcs) as (cs' & n & Hn & Hr). fold cs in Hn.
  assert (Hcond : match obj_get "conditions" fields with
    | Some (JArr l) => gmapM (normalizeCondition clock) l | _ => gret [] end (seed + 1) = (Ok cs', n)).
  { rewrite Gc. destruct cs; [|exact Hn]. exact Hn. }
  eexists _, n. split.
  { unfold normalizeOperation, gbind, nextLocalId, glift. cbn [prop]. rewrite Hcond. reflexivity. }
  constructor; cbn [o_mode o_description o_path o_value_text o_keep_origin o_from o_to o_conditions o_logic].
  - rewrite Gm. unfold choice_or. by rewrite (proj2 (mem_str_true _ _) Hm).
  - done.
  - done.
  - intros Hv. by rewrite Gv, Hv.
  - intros Hv. by rewrite Gv, Hv.
  - done.
  - done.
  - done.
  - done.
  - intros Hne. rewrite Gl. fold cs in Hne. destruct cs; [done|]. apply logic_and_or.
Qed.






(** ** Validation of what is read *)

(** What the tables of the modes have to do with each other. *)
Definition mode_facts (mode : str) : bool :=
  implb (mem_str mode FROM_REQUIRED_MODES) (m_from (meta_of mode))
  && implb (mem_str mode TO_REQUIRED_MODES) (truthy_ob (m_to (meta_of mode)))
  && implb (mem_str mode VALUE_REQUIRED_MODES) (m_value (meta_of mode))
  && implb (negb (m_value (meta_of mode)))
       (negb ((mode =?s "return_error") || (mode =?s "prune_objects") || (mode =?s "pass_headers"))).

Lemma mode_facts_hold (mode : str) : mode ∈ OPERATION_MODE_VALUES -> mode_facts mode = true.
Proof.
  intros Hm. apply list_elem_of_In in Hm.
  assert (H : forallb mode_facts OPERATION_MODE_VALUES = true) by (vm_compute; reflexivity).
  rewrite forallb_forall in H. auto.
Qed.





(** ** The text of a list of rules *)

Lemma validateFrom_None (line : Z) (ops : list ParamOverrideOperation) :
  validateFrom line ops = None <-> Forall (fun o => checkOperation o = None) ops.
Proof.
  revert line. induction ops as [|o ops IH]; intros line; cbn; [by split|].
  rewrite Forall_cons. destruct (checkOperation o); [naive_solver|]. rewrite IH. naive_solver.
Qed.






(** Rules as every state of the dialog has them. *)
Definition modes_ok (o : ParamOverrideOperation) : Prop :=
  o_mode o ∈ OPERATION_MODE_VALUES /\ Forall (fun c => c_mode c ∈ CONDITION_MODE_VALUES) (o_conditions o).




(** The rules that are not blank. *)
Definition written (ops : list ParamOverrideOperation) : list ParamOverrideOperation :=
  List.filter (fun o => negb (isOperationBlank o)) ops.

Lemma text_of_rules (ops : list ParamOverrideOperation) (text : str) :
  buildOperationsJson ops true = inr text ->
  (written ops = [] /\ text = []) \/
  (written ops <> [] /\ Forall (fun o => checkOperation o = None) (written ops) /\
   text = stringify_indent [] (operationsPayload (written ops))).
Proof.
  unfold buildOperationsJson. fold (written ops). destruct (Z.eqb_spec (Z.of_nat (length (written ops))) 0) as [E|E].
  - intros [= <-]. left. by destruct (written ops).
  - destruct (validateOperations (written ops)) eqn:Ev; [done|]. intros [= <-]. right. split_and!; [|by eapply validateFrom_None|done].
    intros H. by rewrite H in E.
Qed.



Lemma default_is_blank (seed : Z) :
  exists o, createDefaultOperation clock seed = (Ok o, seed + 1) /\ isOperationBlank o = true.
Proof. eexists. split; [reflexivity|]. reflexivity. Qed.


(** ** What is saved is complete *)

(** A rule as the gateway expects it: the fields that its mode requires are
    there and not empty, an error has a message, headers are named. *)
Record complete_rule (r : list (str * json)) : Prop := {
  cr_mode : string_or_empty (obj_get "mode" r) ∈ OPERATION_MODE_VALUES;
  cr_path : m_path (meta_of (string_or_empty (obj_get "mode" r))) = true -> string_or_empty (obj_get "path" r) <> [];
  cr_from : string_or_empty (obj_get "mode" r) ∈ FROM_REQUIRED_MODES -> string_or_empty (obj_get "from" r) <> [];
  cr_to : string_or_empty (obj_get "mode" r) ∈ TO_REQUIRED_MODES -> string_or_empty (obj_get "to" r) <> [];
  cr_value : string_or_empty (obj_get "mode" r) ∈ VALUE_REQUIRED_MODES -> is_Some (obj_get "value" r);
  cr_error o : string_or_empty (obj_get "mode" r) = js "return_error" -> obj_get "value" r = Some (JObj o) ->
    text_or_empty (obj_get "message" o) <> [];
  cr_headers v : string_or_empty (obj_get "mode" r) = js "pass_headers" -> obj_get "value" r = Some v ->
    parsePassHeaderNames v <> [];
}.

(** The field that a check requires is written, possibly from the path. *)
Lemma required_written (b alias : bool) (p f : str) :
  b && negb (truthy_str f) && negb (alias && truthy_str p) = false -> b = true ->
  (if alias then str_or f p else f) <> [].
Proof. intros H ->. destruct alias, f, p; done. Qed.

Lemma checked_complete (o : ParamOverrideOperation) :
  o_mode o ∈ OPERATION_MODE_VALUES -> checkOperation o = None ->
  exists r, operationPayload o = JObj r /\ complete_rule r.
Proof.
  intros Hm Hc. rewrite operationPayload_fields, elem_of_mode_of by done. eexists. split; [reflexivity|].
  unfold checkOperation in Hc. rewrite elem_of_mode_of in Hc by done.
  pose proof (mode_facts_hold _ Hm) as Hf. unfold mode_facts in Hf.
  apply andb_true_iff in Hf as [[[H1 H2]%andb_true_iff H3]%andb_true_iff _].
  destruct (_ && _) eqn:Cp in Hc; [done|]. destruct (_ && _ && _) eqn:Cf in Hc; [done|].
  destruct (_ && _ && _) eqn:Ct in Hc; [done|].
  edestruct payload_get as (Gm & _ & Gp & Gv & _ & Gf & Gt & _ & _).
  constructor; rewrite ?Gm; cbn [string_or_empty]; [done|..].
  - intros Hp. rewrite Gp. unfold has_path. rewrite Hp in Cp |- *. cbn [orb andb] in *.
    apply negb_false_iff in Cp. by apply truthy_str_true.
  - intros Hin. apply mem_str_true in Hin. rewrite Hin in H1. cbn [implb] in H1. rewrite Gf, H1.
    eapply required_written; [exact Cf|done].
  - intros Hin. apply mem_str_true in Hin. rewrite Hin in H2. cbn [implb] in H2. rewrite Gt. unfold has_to. rewrite H2.
    eapply required_written; [exact Ct|done].
  - intros Hin. apply mem_str_true in Hin. rewrite Hin in H3. cbn [implb] in H3. rewrite Gv, H3. by eexists.
  - intros r Hmode Hr. rewrite Gv, Hmode in Hr. injection Hr as Hr. rewrite Hmode in Hc.
    unfold parseLooseValue in Hr. unfold checkValue in Hc. destruct (trim (o_value_text o) =?s []) eqn:E; [done|].
    change (mem_str "return_error" VALUE_REQUIRED_MODES) with true in Hc.
    change (js "return_error" =?s js "return_error") with true in Hc. cbn [andb] in Hc.
    destruct (truthy_str (trim (o_value_text o))); [|done]. cbn [negb] in Hc.
    destruct (json_parse _) as [v|]; [|done]. subst v.
    destruct (truthy_str (text_or_empty _)) eqn:Et; [|done]. by apply truthy_str_true.
  - intros v Hmode Hr. rewrite Gv, Hmode in Hr. injection Hr as Hr. rewrite Hmode in Hc.
    unfold checkValue in Hc. destruct (trim (o_value_text o) =?s []) eqn:E; [done|].
    change (mem_str "pass_headers" VALUE_REQUIRED_MODES) with true in Hc.
    change (js "pass_headers" =?s js "return_error") with false in Hc.
    change (js "pass_headers" =?s js "prune_objects") with false in Hc.
    change (js "pass_headers" =?s js "pass_headers") with true in Hc. cbn [andb] in Hc.
    destruct (truthy_str (trim (o_value_text o))); [|done]. cbn [negb] in Hc.
    assert (Hl : parseLooseValue (trim (o_value_text o)) = v).
    { rewrite <- Hr. unfold parseLooseValue. by rewrite trim_idem. }
    rewrite Hl in Hc. intros Hn. by rewrite Hn in Hc.
Qed.

(** C6: Every rule that a save of the list writes is complete. *)
Theorem saved_rules_complete (s : Editor) (text : str) :
  reachable clock s -> editMode s = Visual -> visualMode s = Operations -> handleSave s = inr text ->
  text = [] \/
  exists l, text = stringify_indent [] (JObj [(js "operations", JArr (map JObj l))]) /\
    l <> [] /\ Forall complete_rule l.
Proof.
  intros Hs He Hv Hsave. apply reachable_ok in Hs as [_ [_ _ Hok]].
  unfold handleSave, buildVisualJson in Hsave. rewrite He, Hv in Hsave.
  destruct (buildOperationsJson _ _) as [[]|t] eqn:Hb; [done|]. injection Hsave as ->.
  apply text_of_rules in Hb as [[_ ->]|(Hne & Hc & ->)]; [by left|]. right.
  assert (Hl : exists l, map operationPayload (written (operations s)) = map JObj l /\ Forall complete_rule l).
  { assert (Hm : Forall (fun o => o_mode o ∈ OPERATION_MODE_VALUES) (written (operations s))).
    { rewrite List.Forall_forall in Hok |- *. intros o Ho. apply filter_In in Ho as [Ho _].
      by destruct (Hok o Ho) as [_ []]. }
    clear Hok Hne. induction Hc as [|o os Ho Hc IH]; [by exists []|]. inversion Hm as [|? ? Hmo Hm']; subst.
    destruct (IH Hm') as (l & Hl & Hcl). destruct (checked_complete o Hmo Ho) as (r & Hr & Hcr).
    exists (r :: l). cbn [map]. rewrite Hl, Hr. by split; [|constructor]. }
  destruct Hl as (l & Hl & Hcl). exists l. unfold operationsPayload. rewrite Hl. split_and!; [done| |done].
  intros ->. by destruct (written (operations s)).
Qed.

(** ** Values that change their type *)

(** The value that is saved for a rule. *)
Definition saved_value (o : ParamOverrideOperation) : option json :=
  match operationPayload o with JObj r => obj_get "value" r | _ => None end.

Lemma saved_value_eq (o : ParamOverrideOperation) :
  o_mode o ∈ OPERATION_MODE_VALUES -> m_value (meta_of (o_mode o)) = true ->
  saved_value o = Some (parseLooseValue (o_value_text o)).
Proof.
  intros Hm Hv. unfold saved_value. rewrite operationPayload_fields, elem_of_mode_of by done.
  edestruct payload_get as (_ & _ & _ & Gv & _). by rewrite Gv, Hv.
Qed.

Lemma quote_visible (w : str) : trim (quote w) = quote w.
Proof.
  apply trim_id. change (quote w) with ([dq] ++ quote_body w ++ [dq]).
  apply trimmed_ends; try done; by apply trimmed_nows.
Qed.

(** A value that is typed as a quoted string is saved as that string; when
    the saved rule is opened again and saved unchanged, a string that reads as
    JSON is saved as that JSON value. *)
Theorem quoted_value_retyped (o o' : ParamOverrideOperation) (w : str) (v : json) (seed n : Z) :
  modes_ok o -> m_value (meta_of (o_mode o)) = true -> o_value_text o = quote w -> json_parse (trim w) = Some v ->
  normalizeOperation clock (operationPayload o) seed = (Ok o', n) ->
  saved_value o = Some (JStr w) /\ saved_value o' = Some v.
Proof.
  intros [Hm Hcs] Hv Hw Hj Ho'. destruct (operation_reread o seed Hm Hcs) as (o'' & n' & Hn & Hr).
  rewrite Ho' in Hn. injection Hn as <- <-.
  assert (Hl : parseLooseValue (quote w) = JStr w).
  { unfold parseLooseValue. rewrite quote_visible. change (quote w =?s []) with false. cbv iota.
    by rewrite json_parse_quote. }
  split; [by rewrite saved_value_eq, Hw, Hl|].
  rewrite saved_value_eq; [|by rewrite (ro_mode _ _ Hr)|by rewrite (ro_mode _ _ Hr)].
  rewrite (ro_value _ _ Hr Hv), Hw. unfold shown_text. rewrite Hl. cbn [toValueText].
  unfold parseLooseValue. destruct (str_eqb_spec (trim w) []) as [E|E]; [by rewrite E in Hj|]. by rewrite Hj.
Qed.

(** ** Drafts of structured values *)

(** A status code that the draft keeps. *)
Definition status_ok (n : Z) : bool :=
  match parse_num (stringify_num (num_of_Z n)) with
  | Some (x, []) => num_same x (num_of_Z n) && num_same (http_status_or_400 (num_of_Z n)) (num_of_Z n)
  | _ => false
  end.

Lemma status_ok_range (n : Z) : 100 <= n <= 599 -> status_ok n = true.
Proof.
  intros Hn. assert (H : forallb status_ok (seqZ 100 500) = true) by (vm_compute; reflexivity).
  rewrite forallb_forall in H. apply H. apply list_elem_of_In, elem_of_seqZ. lia.
Qed.

Lemma status_kept (n : Z) :
  100 <= n <= 599 -> num_ok (num_of_Z n) /\ http_status_or_400 (num_of_Z n) = num_of_Z n.
Proof.
  intros Hn. apply status_ok_range in Hn. unfold status_ok in Hn. unfold num_ok.
  destruct (parse_num _) as [[x [|c r]]|]; [|done..]. js_simp.
  repeat match goal with H : num_same _ _ = true |- _ => apply num_same_eq in H end. subst. done.
Qed.

Lemma text_or_empty_str (w : str) : text_or_empty (Some (JStr w)) = trim w.
Proof. unfold text_or_empty. by destruct w. Qed.

(** The draft of a custom error in the advanced mode is read back from the
    value that is written for it. *)
Theorem error_draft_roundtrip (d : ReturnErrorDraft) (n : Z) :
  re_simpleMode d = false -> re_statusCode d = num_of_Z n -> 100 <= n <= 599 ->
  parseReturnErrorDraft (buildReturnErrorValueText d) =
  MkErrorDraft (trim (re_message d)) (num_of_Z n) (trim (re_code d)) (trim (re_type d)) (re_skipRetry d) false.
Proof.
  intros Hs Hst Hn. apply status_kept in Hn as [Hok Hh]. unfold buildReturnErrorValueText. rewrite Hs, Hst, Hh.
  set (m := trim (re_message d)). set (c := trim (re_code d)). set (ty := trim (re_type d)).
  assert (Ht : trim m = m /\ trim c = c /\ trim ty = ty) by (subst m c ty; by rewrite !trim_idem).
  clearbody m c ty. destruct Ht as (Hm & Hc & Hty).
  set (payload := (if re_skipRetry d then _ else _)).
  assert (Hp : payload = [(js "message", JStr m); (js "status_code", JNum (num_of_Z n))]
    ++ opt_entry (truthy_str c) "code" (JStr c) ++ opt_entry (truthy_str ty) "type" (JStr ty)
    ++ opt_entry (negb (re_skipRetry d)) "skip_retry" (JBool false)).
  { subst payload. destruct c, ty, (re_skipRetry d); reflexivity. }
  clearbody payload. subst payload. set (payload := [_; _] ++ _).
  assert (Hj : json_ok (JObj payload)).
  { subst payload. constructor; [destruct c, ty, (re_skipRetry d); reflexivity|].
    destruct c, ty, (re_skipRetry d); repeat apply Forall_cons_2; try apply Forall_nil_2; by constructor. }
  unfold parseReturnErrorDraft. rewrite trim_id by by apply stringify_trimmed.
  rewrite json_roundtrip by done. change (truthy_str (stringify (JObj payload))) with true. cbn [negb].
  clear Hj. subst payload. rewrite !obj_get_app, !obj_get_opt. cbn [obj_get]. literals.
  cbn [Number_json]. rewrite Hh. f_equal.
  - transitivity (trim m); [rewrite <- text_or_empty_str; by destruct m|done].
  - transitivity (trim c); [rewrite <- text_or_empty_str; by destruct c|done].
  - transitivity (trim ty); [rewrite <- text_or_empty_str; by destruct ty|done].
  - by destruct (re_skipRetry d).
Qed.

(** The endpoint of a sync is read back from its text. *)
Lemma sync_target_roundtrip (type key : str) :
  trim key <> [] ->
  parseSyncTargetSpec (buildSyncTargetSpec type key) =
  MkSyncTarget (if type =?s "header" then js "header" else js "json") (trim key).
Proof.
  intros Hk. unfold buildSyncTargetSpec. apply truthy_str_true in Hk. rewrite Hk. cbn [negb].
  set (t := if type =?s "header" then js "header" else js "json").
  assert (Ht : (t = js "header" \/ t = js "json") /\ (t =?s "header") = (type =?s "header")).
  { subst t. destruct (type =?s "header"); split; auto. }
  destruct Ht as [Ht Hh]. unfold parseSyncTargetSpec.
  assert (Hraw : trim (t ++ ":" ++ trim key) = t ++ ":" ++ trim key).
  { apply trim_id. apply trimmed_ends; [by destruct Ht as [-> | ->]|by apply truthy_str_true| |apply trimmed_trim].
    destruct Ht as [-> | ->]; by apply trimmed_nows. }
  rewrite Hraw. assert (Htr : truthy_str (t ++ ":" ++ trim key) = true) by (by destruct Ht as [-> | ->]).
  rewrite Htr. cbn [negb].
  assert (Hidx : indexOf (t ++ ":" ++ trim key) ":" 0 = Z.of_nat (length t)).
  { change (js ":") with [chr ":"%char]. pose proof (indexOf_app [] (t ++ [chr ":"%char] ++ trim key) [chr ":"%char] 0 eq_refl) as Hi.
    cbn [app] in Hi |- *. rewrite Hi. change (chr ":"%char :: trim key) with ([chr ":"%char] ++ trim key).
    rewrite (find_at_first (chr ":"%char) [] t (trim key)); [done|done|]. by destruct Ht as [-> | ->]. }
  rewrite Hidx, (proj2 (Z.ltb_ge _ _)) by lia.
  rewrite slice_0, take_app_length.
  assert (Hfrom : slice_from (t ++ ":" ++ trim key) (Z.of_nat (length t) + 1) = trim key).
  { rewrite app_assoc. apply slice_from_app. unfold strlen. rewrite length_app.
    change (length (js ":")) with 1%nat. lia. }
  rewrite Hfrom, trim_idem. destruct Ht as [E|E]; rewrite E; (rewrite trim_id by by apply trimmed_nows);
    (rewrite toLowerCase_ascii by reflexivity); reflexivity.
Qed.

End RoundTrip.

(** ** Instances *)



Lemma saved_rules_complete_witness :
  exists text, handleSave ex_rules = inr text /\
    (text = [] \/ exists l, text = stringify_indent [] (JObj [(js "operations", JArr (map JObj l))]) /\
       l <> [] /\ Forall complete_rule l).
Proof.
  eexists. split; [vm_compute; reflexivity|].
  eapply (saved_rules_complete (CM := AsciiCase) ex_clock ex_rules);
    [apply (ex_reachable []); constructor|done|done|vm_compute; reflexivity].
Defined.

(** The version 5 typed as the string ["5"]. *)
Definition ex_quoted : ParamOverrideOperation :=
  MkOperation "a" [] "version" "set" [] [] (quote "5") false "OR" [].

Lemma quoted_value_retyped_witness :
  exists o', saved_value ex_quoted = Some (JStr "5") /\ saved_value o' = Some (JNum (num_of_Z 5)).
Proof.
  eexists. eapply (quoted_value_retyped (CM := AsciiCase) ex_clock ex_quoted _ "5" (JNum (num_of_Z 5)) 0).
  - split; [apply list_elem_of_In; by left|constructor].
  - reflexivity.
  - reflexivity.
  - vm_compute. reflexivity.
  - vm_compute. reflexivity.
Defined.

Lemma error_draft_roundtrip_witness :
  parseReturnErrorDraft (buildReturnErrorValueText
    (MkErrorDraft " blocked " (num_of_Z 429) "rate_limited" [] false false)) =
  MkErrorDraft "blocked" (num_of_Z 429) "rate_limited" [] false false.
Proof.
  apply (error_draft_roundtrip (MkErrorDraft " blocked " (num_of_Z 429) "rate_limited" [] false false) 429);
    [reflexivity|reflexivity|lia].
Defined.
