(* ===== verification/UpstreamSync.v ===== *)
(** * Synchronizing prices with upstream channels

    Models [src/web/src/features/system-settings/models/]:
    [upstream-ratio-sync-helpers.ts] (which differences are offered and how a
    choice is recorded), the rows and bulk actions of
    [upstream-ratio-sync-table.tsx], and the screen [upstream-ratio-sync.tsx]
    that keeps the differences and the choices, asks before a change of the way
    a model is billed, and writes the settings.

    Objects are association lists with the order of their keys, a [Map] is an
    association list in the order of insertion.  A number or a string is a
    [value].  Field names are texts, since they come from the server.  A value
    of an upstream is [None] when it is [null] or missing; the code never tells
    the two apart.  [toLowerCase] and the translation function are parameters.

    The laws are in [UpstreamSyncLaws]. *)

From stdpp Require Import base list.
From Stdlib Require Import ZArith NArith Lia.
From S2P Require Import Prelude JsString JsArray JsNumber JsJson.

Local Open Scope Z_scope.

(** ** Data *)

Inductive value : Type := VNum (x : num) | VStr (s : str).

(** [a === b]. *)
Definition value_eqb (a b : value) : bool :=
  match a, b with
  | VNum x, VNum y => num_eq x y
  | VStr s, VStr t => s =?s t
  | _, _ => false
  end.

(** [Number(v)] and [String(v)]. *)
Definition value_Number (v : value) : num :=
  match v with VNum x => x | VStr s => Number s end.

Definition value_String (v : value) : str :=
  match v with VNum x => num_to_string x | VStr s => s end.

Definition value_json (v : value) : json :=
  match v with VNum x => JNum x | VStr s => JStr s end.

Definition same : value := VStr "same".

Record RatioDifferenceEntry : Type := MkDifference {
  current : option value;
  upstreams : list (str * option value);
  confidence : list (str * bool);
}.

(** [Partial<Record<RatioType, RatioDifferenceEntry>>]. *)
Abbreviation ratio_types := (list (str * RatioDifferenceEntry)).

Abbreviation DifferencesMap := (list (str * ratio_types)).

(** The fields chosen for one model, and for all models. *)
Abbreviation resolution := (list (str * value)).
Abbreviation ResolutionsMap := (list (str * resolution)).

Record ResolutionSelection : Type := MkSelection {
  sel_model : str;
  sel_ratioType : str;
  sel_value : value;
  sel_sourceName : str;
}.

Record ResolutionRemoval : Type := MkRemoval {
  rem_model : str;
  rem_ratioType : str;
}.

Abbreviation ResolutionRemovalPlan := (list (str * list str)).

(** [map.set(k, v)] of a [Map]: a known key keeps its place. *)
Definition map_set {A} (k : str) (v : A) (m : list (str * A)) : list (str * A) :=
  match obj_get k m with
  | Some _ => obj_update k v m
  | None => m ++ [(k, v)]
  end.

(** [set.add(x)]. *)
Definition set_add (x : str) (s : list str) : list str :=
  if mem_str x s then s else s ++ [x].

(** ** Fields *)

Definition model_ratio : str := js "model_ratio".
Definition model_price : str := js "model_price".
Definition billing_mode : str := js "billing_mode".
Definition billing_expr : str := js "billing_expr".
Definition tiered_expr : value := VStr (js "tiered_expr").

Definition RATIO_SYNC_FIELDS : list str :=
  [model_ratio; js "completion_ratio"; js "cache_ratio"; js "create_cache_ratio";
   js "image_ratio"; js "audio_ratio"; js "audio_completion_ratio"].

Definition SYNC_FIELD_ORDER : list str :=
  RATIO_SYNC_FIELDS ++ [model_price; billing_mode; billing_expr].

Definition NUMERIC_SYNC_FIELDS : list str := RATIO_SYNC_FIELDS ++ [model_price].

Definition RATIO_TYPE_OPTIONS : list (str * str) :=
  [(js "Model ratio", model_ratio); (js "Completion ratio", js "completion_ratio");
   (js "Cache ratio", js "cache_ratio"); (js "Create cache ratio", js "create_cache_ratio");
   (js "Image ratio", js "image_ratio"); (js "Audio ratio", js "audio_ratio");
   (js "Audio completion ratio", js "audio_completion_ratio");
   (js "Fixed price", model_price); (js "Expression billing", billing_expr)].

Definition OFFICIAL_CHANNEL_ID : Z := -100.
Definition OFFICIAL_CHANNEL_NAME : str := js "官方倍率预设".
Definition MODELS_DEV_PRESET_ID : Z := -101.
Definition MODELS_DEV_PRESET_NAME : str := js "models.dev 价格预设".

Definition getSyncFieldLabel (t : str -> str) (ratioType : str) : str :=
  match find (fun o => snd o =?s ratioType) RATIO_TYPE_OPTIONS with
  | Some o => t (fst o)
  | None => ratioType
  end.

(** [!filter || filter === '__all__']. *)
Definition noFilter (filter : option str) : bool :=
  match filter with
  | None => true
  | Some f => negb (truthy_str f) || (f =?s "__all__")
  end.

Definition getOrderedRatioTypes (ratioTypes : ratio_types) (filter : option str)
    : list str :=
  let keys := obj_keys ratioTypes in
  let ordered := List.filter (fun f => mem_str f keys) SYNC_FIELD_ORDER
                 ++ List.filter (fun f => negb (mem_str f SYNC_FIELD_ORDER)) keys in
  if noFilter filter then ordered
  else List.filter (fun f => f =?s nullish filter []) ordered.

(** [ratioTypes[ratioType]?.upstreams?.[sourceName]]. *)
Definition upstreamOf (ratioTypes : ratio_types) (ratioType sourceName : str)
    : option value :=
  match obj_get ratioType ratioTypes with
  | Some e => mjoin (obj_get sourceName (upstreams e))
  | None => None
  end.

Definition isSelectableUpstreamValue (v : option value) : bool :=
  match v with
  | Some x => negb (value_eqb x same)
  | None => false
  end.

Definition getPreferredSyncField (ratioTypes : ratio_types) (ratioType sourceName : str)
    : str :=
  let exprValue := upstreamOf ratioTypes billing_expr sourceName in
  if negb (ratioType =?s billing_expr) && isSelectableUpstreamValue exprValue
  then billing_expr else ratioType.

Definition getVisibleRatioTypesForSource (ratioTypes : ratio_types) (sourceName : str)
    (filter : option str) : list str :=
  List.filter (fun rt => getPreferredSyncField ratioTypes rt sourceName =?s rt)
    (getOrderedRatioTypes ratioTypes filter).

Definition getAlignedRatioTypes (ratioTypes : ratio_types) (sourceNames : list str)
    (filter : option str) : list str :=
  let ordered := getOrderedRatioTypes ratioTypes filter in
  match sourceNames with
  | [] => ordered
  | _ =>
      let visible :=
        flat_map (fun s => getVisibleRatioTypesForSource ratioTypes s filter) sourceNames in
      List.filter (fun rt => mem_str rt visible) ordered
  end.

Inductive category : Type := price | ratio | tiered.

Definition category_eqb (a b : category) : bool :=
  match a, b with
  | price, price | ratio, ratio | tiered, tiered => true
  | _, _ => false
  end.

Definition getBillingCategory (ratioType : str) : category :=
  if ratioType =?s model_price then price
  else if (ratioType =?s billing_mode) || (ratioType =?s billing_expr) then tiered
  else ratio.

Definition getUpstreamDisplayName (sourceName : str) : str :=
  let presets := [(OFFICIAL_CHANNEL_NAME, OFFICIAL_CHANNEL_ID);
                  (MODELS_DEV_PRESET_NAME, MODELS_DEV_PRESET_ID)] in
  match find (fun p => sourceName =?s fst p ++ "(" ++ num_to_string (num_of_Z (snd p)) ++ ")")
          presets with
  | Some p => fst p
  | None => sourceName
  end.

(** ** Choices *)

(** [resolutions[model]?.[ratioType]]. *)
Definition selectedValue (resolutions : ResolutionsMap) (model ratioType : str)
    : option value :=
  match obj_get model resolutions with
  | Some r => obj_get ratioType r
  | None => None
  end.

Definition isSelectedResolutionValue (resolutions : ResolutionsMap) (model ratioType : str)
    (upstreamValue : option value) : bool :=
  match upstreamValue, selectedValue resolutions model ratioType with
  | Some up, Some selected =>
      isSelectableUpstreamValue upstreamValue &&
      (if mem_str ratioType NUMERIC_SYNC_FIELDS then
         let selectedNumber := value_Number selected in
         let upstreamNumber := value_Number up in
         isFinite selectedNumber && isFinite upstreamNumber
         && num_eq selectedNumber upstreamNumber
       else value_eqb selected up)
  | _, _ => false
  end.

Definition getDraftModelResolution (drafts : list (str * resolution))
    (resolutions : ResolutionsMap) (model : str) : resolution :=
  match obj_get model drafts with
  | Some draft => draft
  | None => nullish (obj_get model resolutions) []
  end.

Definition resolveResolutionSelection (differences : DifferencesMap)
    (selection : ResolutionSelection) : ResolutionSelection :=
  let modelDiffs := nullish (obj_get (sel_model selection) differences) [] in
  let preferredType :=
    getPreferredSyncField modelDiffs (sel_ratioType selection) (sel_sourceName selection) in
  let preferredValue :=
    if preferredType =?s sel_ratioType selection then sel_value selection
    else nullish (upstreamOf modelDiffs preferredType (sel_sourceName selection))
           (sel_value selection) in
  MkSelection (sel_model selection) preferredType preferredValue (sel_sourceName selection).

(** Whether a choice of the category [c] removes the field [rt]. *)
Definition conflicts (c : category) (rt : str) : bool :=
  negb (category_eqb c tiered) && negb (category_eqb (getBillingCategory rt) tiered)
  && negb (category_eqb (getBillingCategory rt) c).

(** The mode and the expression that the source of a tiered choice offers. *)
Definition setTiered (modelDiffs : ratio_types) (sourceName finalType : str)
    (draft : resolution) : resolution :=
  let modeVal := upstreamOf modelDiffs billing_mode sourceName in
  let exprVal := upstreamOf modelDiffs billing_expr sourceName in
  let draft :=
    match modeVal with
    | Some v =>
        if isSelectableUpstreamValue modeVal then obj_set billing_mode v draft
        else if finalType =?s billing_expr then obj_set billing_mode tiered_expr draft
        else draft
    | None =>
        if finalType =?s billing_expr then obj_set billing_mode tiered_expr draft
        else draft
    end in
  match exprVal with
  | Some v =>
      if isSelectableUpstreamValue exprVal then obj_set billing_expr v draft else draft
  | None => draft
  end.

(** What a choice does to the draft of its model. *)
Definition selectInDraft (differences : DifferencesMap) (selection : ResolutionSelection)
    (draft : resolution) : resolution :=
  let resolved := resolveResolutionSelection differences selection in
  let finalType := sel_ratioType resolved in
  let c := getBillingCategory finalType in
  let draft :=
    fold_left (fun d rt => if conflicts c rt then obj_delete rt d else d)
      (obj_keys draft) draft in
  let draft := obj_set finalType (sel_value resolved) draft in
  match obj_get (sel_model selection) differences with
  | Some modelDiffs =>
      if category_eqb c tiered
      then setTiered modelDiffs (sel_sourceName selection) finalType draft
      else draft
  | None => draft
  end.

Definition applyResolutionSelectionToDraft (drafts : list (str * resolution))
    (resolutions : ResolutionsMap) (differences : DifferencesMap)
    (selection : ResolutionSelection) : list (str * resolution) :=
  let draft := getDraftModelResolution drafts resolutions (sel_model selection) in
  map_set (sel_model selection) (selectInDraft differences selection draft) drafts.

(** The key of a choice: the model, a zero, the field. *)
Definition selection_key (s : ResolutionSelection) : str :=
  sel_model s ++ 0%N :: sel_ratioType s.

Definition addEffective (differences : DifferencesMap)
    (effectiveByKey : list (str * ResolutionSelection)) (selection : ResolutionSelection)
    : list (str * ResolutionSelection) :=
  let resolved := resolveResolutionSelection differences selection in
  let c := getBillingCategory (sel_ratioType resolved) in
  let kept :=
    List.filter (fun kv => negb ((sel_model (snd kv) =?s sel_model resolved)
                            && conflicts c (sel_ratioType (snd kv)))) effectiveByKey in
  map_set (selection_key resolved) resolved kept.

Definition getEffectiveResolutionSelections (differences : DifferencesMap)
    (selections : list ResolutionSelection) : list ResolutionSelection :=
  map snd (fold_left (addEffective differences) selections []).

(** The drafts are written back: an empty one removes its model. *)
Definition writeDraft (next : ResolutionsMap) (model : str) (draft : resolution)
    : ResolutionsMap :=
  match draft with
  | [] => obj_delete model next
  | _ => obj_set model draft next
  end.

Definition applyResolutionSelections (resolutions : ResolutionsMap)
    (differences : DifferencesMap) (selections : list ResolutionSelection)
    : ResolutionsMap :=
  match selections with
  | [] => resolutions
  | _ =>
      let drafts :=
        fold_left (fun ds s => applyResolutionSelectionToDraft ds resolutions differences s)
          selections [] in
      fold_left (fun next kv => writeDraft next (fst kv) (snd kv)) drafts resolutions
  end.

Definition applyResolutionSelection (resolutions : ResolutionsMap)
    (differences : DifferencesMap) (selection : ResolutionSelection) : ResolutionsMap :=
  applyResolutionSelections resolutions differences [selection].

(** The mode and the expression are removed together. *)
Definition removeField (draft : resolution) (ratioType : str) : resolution :=
  let draft := obj_delete ratioType draft in
  let draft := if ratioType =?s billing_expr then obj_delete billing_mode draft else draft in
  if ratioType =?s billing_mode then obj_delete billing_expr draft else draft.

Definition applyResolutionRemovalPlan (resolutions : ResolutionsMap)
    (plan : ResolutionRemovalPlan) : ResolutionsMap :=
  fold_left (fun next '(model, ratioTypes) =>
      match obj_get model resolutions with
      | None => next
      | Some current => writeDraft next model (fold_left removeField ratioTypes current)
      end)
    plan resolutions.

(** The plan with one more field. *)
Definition planRemoval (plan : ResolutionRemovalPlan) (model ratioType : str)
    : ResolutionRemovalPlan :=
  match obj_get model plan with
  | Some ratioTypes => map_set model (set_add ratioType ratioTypes) plan
  | None => map_set model [ratioType] plan
  end.

Definition applyResolutionRemovals (resolutions : ResolutionsMap)
    (removals : list ResolutionRemoval) : ResolutionsMap :=
  match removals with
  | [] => resolutions
  | _ =>
      applyResolutionRemovalPlan resolutions
        (fold_left (fun plan r => planRemoval plan (rem_model r) (rem_ratioType r))
           removals [])
  end.

Definition deleteResolutionField (resolutions : ResolutionsMap) (model ratioType : str)
    : ResolutionsMap :=
  applyResolutionRemovals resolutions [MkRemoval model ratioType].

(** ** The table

    One row per model with differences; a column per upstream with a bulk
    action over the rows that the search and the filter keep. *)

Record ModelRow : Type := MkModelRow {
  row_key : str;
  row_model : str;
  row_ratioTypes : ratio_types;
  row_billingConflict : bool;
}.

Definition dataSource (differences : DifferencesMap) : list ModelRow :=
  map (fun '(model, ratioTypes) =>
      let keys := obj_keys ratioTypes in
      let hasPrice := mem_str model_price keys in
      let hasOtherRatio := existsb (fun rt => mem_str rt keys) RATIO_SYNC_FIELDS in
      MkModelRow model model ratioTypes (hasPrice && hasOtherRatio))
    differences.

Section Table.
Variable toLowerCase : str -> str.

Definition filteredData (differences : DifferencesMap) (search ratioTypeFilter : str)
    : list ModelRow :=
  let data := dataSource differences in
  let data :=
    if truthy_str (trim search) then
      let lower := toLowerCase search in
      List.filter (fun row => includes (toLowerCase (row_model row)) lower) data
    else data in
  if truthy_str ratioTypeFilter && negb (ratioTypeFilter =?s "__all__") then
    List.filter (fun row => mem_str ratioTypeFilter (obj_keys (row_ratioTypes row))) data
  else data.

End Table.

Definition upstreamNames (rows : list ModelRow) (ratioTypeFilter : str) : list str :=
  dedupe
    (flat_map (fun row =>
       flat_map (fun rt =>
           match obj_get rt (row_ratioTypes row) with
           | Some e => obj_keys (upstreams e)
           | None => []
           end)
         (getOrderedRatioTypes (row_ratioTypes row) (Some ratioTypeFilter)))
       rows).

Record UpstreamBulkSelectState : Type := MkBulk {
  bulk_displayName : str;
  bulk_selections : list ResolutionSelection;
  bulk_removalPlan : ResolutionRemovalPlan;
  bulk_selectableCount : nat;
  bulk_selectedCount : nat;
}.

(** The choices that the rows offer for one upstream. *)
Definition rowSelections (upstreamName ratioTypeFilter : str) (row : ModelRow)
    : list ResolutionSelection :=
  omap (fun ratioType =>
      let upstreamVal := upstreamOf (row_ratioTypes row) ratioType upstreamName in
      if isSelectableUpstreamValue upstreamVal
      then option_map (fun v => MkSelection (row_model row) ratioType v upstreamName) upstreamVal
      else None)
    (getAlignedRatioTypes (row_ratioTypes row) [upstreamName] (Some ratioTypeFilter)).

(** The upstream's entry of [bulkSelectStateByUpstream]. *)
Definition bulkSelectState (differences : DifferencesMap) (resolutions : ResolutionsMap)
    (rows : list ModelRow) (ratioTypeFilter upstreamName : str) : UpstreamBulkSelectState :=
  let selections := flat_map (rowSelections upstreamName ratioTypeFilter) rows in
  let removalPlan :=
    fold_left (fun plan s => planRemoval plan (sel_model s) (sel_ratioType s)) selections [] in
  let effectiveSelections := getEffectiveResolutionSelections differences selections in
  let selectedCount :=
    length (List.filter (fun s =>
        isSelectedResolutionValue resolutions (sel_model s) (sel_ratioType s)
          (Some (sel_value s))) effectiveSelections) in
  MkBulk (getUpstreamDisplayName upstreamName) effectiveSelections removalPlan
    (length effectiveSelections) selectedCount.

(** ** The channels to fetch from *)

Record UpstreamChannel : Type := MkUpstreamChannel {
  ch_id : Z;
  ch_name : str;
  ch_base_url : str;
  ch_type : option Z;
}.

Record UpstreamConfig : Type := MkUpstreamConfig {
  up_id : Z;
  up_name : str;
  up_base_url : str;
  up_endpoint : str;
}.

Definition DEFAULT_ENDPOINT : str := js "/api/pricing".
Definition OFFICIAL_CHANNEL_ENDPOINT : str :=
  js "/llm-metadata/api/newapi/ratio_config-v1-base.json".
Definition MODELS_DEV_PRESET_ENDPOINT : str := js "https://models.dev/api.json".
Definition OPENROUTER_ENDPOINT : str := js "openrouter".
Definition OPENROUTER_CHANNEL_TYPE : Z := 20.

Definition getDefaultEndpointForChannel (channel : UpstreamChannel) : str :=
  if ch_id channel =? MODELS_DEV_PRESET_ID then MODELS_DEV_PRESET_ENDPOINT
  else if ch_id channel =? OFFICIAL_CHANNEL_ID then OFFICIAL_CHANNEL_ENDPOINT
  else match ch_type channel with
       | Some ty => if ty =? OPENROUTER_CHANNEL_TYPE then OPENROUTER_ENDPOINT
                    else DEFAULT_ENDPOINT
       | None => DEFAULT_ENDPOINT
       end.

(** The effect that gives each loaded channel an endpoint. *)
Definition fillEndpoints (prev : Z -> option str) (channels : list UpstreamChannel)
    : Z -> option str :=
  fold_left (fun next channel id =>
      if (id =? ch_id channel) && negb (truthy_str (ostr_or (next (ch_id channel)) []))
      then Some (getDefaultEndpointForChannel channel) else next id)
    channels prev.

(** What is fetched; [None] when nothing is selected. *)
Definition handleConfirmChannelSelection (channels : list UpstreamChannel)
    (channelEndpoints : Z -> option str) (selectedIds : list Z)
    : option (list UpstreamConfig) :=
  let selectedChannels :=
    List.filter (fun ch => existsb (fun id => id =? ch_id ch) selectedIds) channels in
  match selectedChannels with
  | [] => None
  | _ => Some (map (fun ch =>
           MkUpstreamConfig (ch_id ch) (ch_name ch) (ch_base_url ch)
             (ostr_or (channelEndpoints (ch_id ch)) DEFAULT_ENDPOINT)) selectedChannels)
  end.

(** ** The settings

    The ten options of the server, each a JSON object from models to values. *)

Definition RATIO_OPTIONS : list str :=
  [js "ModelRatio"; js "CompletionRatio"; js "CacheRatio"; js "CreateCacheRatio";
   js "ImageRatio"; js "AudioRatio"; js "AudioCompletionRatio"].

Definition PRICE_OPTION : str := js "ModelPrice".
Definition MODE_OPTION : str := js "billing_setting.billing_mode".
Definition EXPR_OPTION : str := js "billing_setting.billing_expr".

Definition OPTION_KEYS : list str :=
  RATIO_OPTIONS ++ [PRICE_OPTION; MODE_OPTION; EXPR_OPTION].

(** [word.charAt(0).toUpperCase() + word.slice(1)] on ASCII words. *)
Definition capitalize (word : str) : str :=
  match word with
  | [] => []
  | c :: w => (if (97 <=? c)%N && (c <=? 122)%N then (c - 32)%N else c) :: w
  end.

Definition optionKeyBySyncField (ratioType : str) : str :=
  if ratioType =?s billing_mode then MODE_OPTION
  else if ratioType =?s billing_expr then EXPR_OPTION
  else str_join [] (map capitalize (split_char (chr "_") ratioType)).

Definition parseJsonRecord (raw : option str) : json :=
  match json_parse (ostr_or raw "{}") with
  | Some v => v
  | None => JObj []
  end.

(** The parsed options, in the order of [OPTION_KEYS]. *)
Definition parsedRatios (modelRatios : str -> option str) : list (str * json) :=
  map (fun k => (k, parseJsonRecord (modelRatios k))) OPTION_KEYS.

(** [currentRatios[option][model]]; an option is always there. *)
Definition settingOf (currentRatios : list (str * json)) (option model : str)
    : res (Datatypes.option json) :=
  match obj_get option currentRatios with
  | Some v => prop model v
  | None => Throw
  end.

(** The first option of the list that has the model decides. *)
Fixpoint anySetting (currentRatios : list (str * json)) (model : str) (options : list str)
    : res bool :=
  match options with
  | [] => Ok false
  | o :: os =>
      res_bind (settingOf currentRatios o model) (fun v =>
        match v with
        | Some _ => Ok true
        | None => anySetting currentRatios model os
        end)
  end.

Definition getLocalBillingCategory (model : str) (currentRatios : list (str * json))
    : res (option category) :=
  res_bind (settingOf currentRatios PRICE_OPTION model) (fun p =>
    match p with
    | Some _ => Ok (Some price)
    | None =>
        res_bind (anySetting currentRatios model RATIO_OPTIONS) (fun b =>
          Ok (if b : bool then Some ratio else None))
    end).

(** [{...v}] of a parsed option. *)
Definition spread (v : json) : list (str * json) :=
  match v with
  | JObj o => o
  | JArr l => imap (fun i x => (num_to_string (num_of_Z (Z.of_nat i)), x)) l
  | JStr s => imap (fun i c => (num_to_string (num_of_Z (Z.of_nat i)), JStr [c])) s
  | _ => []
  end.

Abbreviation settings := (list (str * list (str * json))).

(** [delete finalRatios[option][model]] for the given options. *)
Definition deleteSettings (model : str) (options : list str) (s : settings) : settings :=
  map (fun kv => if mem_str (fst kv) options then (fst kv, obj_delete model (snd kv)) else kv) s.

(** [finalRatios[option][model] = v]; an unknown option throws. *)
Definition putSetting (option model : str) (v : json) (s : settings) : res settings :=
  match obj_get option s with
  | Some o => Ok (obj_update option (obj_set model v o) s)
  | None => Throw
  end.

Definition putResolution (model : str) (s : res settings) (field : str * value)
    : res settings :=
  let '(ratioType, v) := field in
  res_bind s (fun s =>
    putSetting (optionKeyBySyncField ratioType) model
      (if mem_str ratioType NUMERIC_SYNC_FIELDS then JNum (value_Number v) else value_json v) s).

(** The settings after the choices of one model. *)
Definition syncModel (s : res settings) (entry : str * resolution) : res settings :=
  let '(model, ratios) := entry in
  res_bind s (fun s =>
    let selectedTypes := obj_keys ratios in
    let hasPrice := mem_str model_price selectedTypes in
    let hasRatio := existsb (fun rt => mem_str rt RATIO_SYNC_FIELDS) selectedTypes in
    let s := if hasPrice then deleteSettings model RATIO_OPTIONS s else s in
    let s := if hasRatio then deleteSettings model [PRICE_OPTION] s else s in
    fold_left (putResolution model) ratios (Ok s)).

Definition finalRatios (resolutions : ResolutionsMap) (currentRatios : list (str * json))
    : res settings :=
  fold_left syncModel resolutions
    (Ok (map (fun kv => (fst kv, spread (snd kv))) currentRatios)).

(** The requests of [performSync]. *)
Definition performSync (resolutions : ResolutionsMap) (currentRatios : list (str * json))
    : res (list (str * str)) :=
  res_bind (finalRatios resolutions currentRatios) (fun s =>
    Ok (map (fun kv => (fst kv, stringify_indent [] (JObj (snd kv)))) s)).

(** [mutationFn]: the requests that are sent, in order, until one fails, and
    whether all succeeded. *)
Fixpoint sendUpdates (accepts : str * str -> bool) (updates : list (str * str))
    : list (str * str) * bool :=
  match updates with
  | [] => ([], true)
  | u :: us =>
      if accepts u then
        let '(sent, ok) := sendUpdates accepts us in (u :: sent, ok)
      else ([u], false)
  end.

(** ** The screen *)

Record ConflictItem : Type := MkConflictItem {
  conflict_channel : str;
  conflict_model : str;
  conflict_current : str;
  conflict_newVal : str;
}.

Definition findSourceChannel (differences : DifferencesMap) (model ratioType : str)
    (v : value) : str :=
  match obj_get model differences with
  | Some rts =>
      match obj_get ratioType rts with
      | Some e =>
          match find (fun kv => match snd kv with
                                | Some x => value_eqb x v
                                | None => false
                                end) (upstreams e) with
          | Some kv => fst kv
          | None => "Unknown"
          end
      | None => "Unknown"
      end
  | None => "Unknown"
  end.

Definition newCategory (ratios : resolution) : category :=
  let selectedTypes := obj_keys ratios in
  if mem_str model_price selectedTypes then price
  else if existsb (fun rt => mem_str rt selectedTypes) RATIO_SYNC_FIELDS then ratio
  else tiered.

(** [${v ?? '-'}]. *)
Definition json_or_dash (v : option json) : str :=
  match v with Some JNull | None => "-" | Some v => json_to_string v end.

Definition value_or_dash (v : option value) : str :=
  match v with Some v => value_String v | None => "-" end.

(** [${ratios.model_price}], and the same of a parsed option. *)
Definition json_shown (v : option json) : str :=
  match v with Some v => json_to_string v | None => "undefined" end.

Definition value_shown (v : option value) : str :=
  match v with Some v => value_String v | None => "undefined" end.

Section Screen.
Variable t : str -> str.

Definition conflictOf (differences : DifferencesMap) (currentRatios : list (str * json))
    (entry : str * resolution) : res (option ConflictItem) :=
  let '(model, ratios) := entry in
  res_bind (getLocalBillingCategory model currentRatios) (fun localCat =>
    let newCat := newCategory ratios in
    match localCat with
    | None => Ok None
    | Some l =>
        if negb (category_eqb newCat tiered) && negb (category_eqb l newCat) then
          res_bind (match l with
            | price =>
                res_bind (settingOf currentRatios PRICE_OPTION model) (fun p =>
                  Ok (t "Fixed price" ++ ": " ++ json_shown p))
            | _ =>
                res_bind (settingOf currentRatios "ModelRatio" model) (fun r =>
                  res_bind (settingOf currentRatios "CompletionRatio" model) (fun c =>
                    Ok (t "Model ratio" ++ ": " ++ json_or_dash r ++ newline
                        ++ t "Completion ratio" ++ ": " ++ json_or_dash c)))
            end) (fun currentDesc =>
            let newDesc :=
              match newCat with
              | price => t "Fixed price" ++ ": " ++ value_shown (obj_get model_price ratios)
              | _ => t "Model ratio" ++ ": " ++ value_or_dash (obj_get model_ratio ratios)
                     ++ newline ++ t "Completion ratio" ++ ": "
                     ++ value_or_dash (obj_get "completion_ratio" ratios)
              end in
            let channelNames :=
              str_join ", "
                (dedupe (map (fun kv => findSourceChannel differences model (fst kv) (snd kv))
                   ratios)) in
            Ok (Some (MkConflictItem channelNames model currentDesc newDesc)))
        else Ok None
    end).

(** What "Apply Sync" does: ask about the conflicts, or write the settings. *)
Inductive sync_action : Type :=
  | AskConfirm (items : list ConflictItem)
  | SendUpdates (updates : list (str * str)).

Definition handleApplySync (differences : DifferencesMap) (resolutions : ResolutionsMap)
    (currentRatios : list (str * json)) : res sync_action :=
  res_bind (res_map (conflictOf differences currentRatios) resolutions) (fun found =>
    match omap id found with
    | [] => res_bind (performSync resolutions currentRatios) (fun u => Ok (SendUpdates u))
    | items => Ok (AskConfirm items)
    end).

End Screen.

(** The state of the screen that the handlers change. *)
Record SyncState : Type := MkSyncState {
  differences : DifferencesMap;
  resolutions : ResolutionsMap;
  conflictItems : list ConflictItem;
  conflictDialogOpen : bool;
}.

Definition initialSync : SyncState := MkSyncState [] [] [] false.

(** The differences without the fields that were written. *)
Definition clearField (model : str) (d : DifferencesMap) (ratioType : str) : DifferencesMap :=
  match obj_get model d with
  | Some rts =>
      match obj_get ratioType rts with
      | Some _ =>
          let rts := obj_delete ratioType rts in
          match rts with
          | [] => obj_delete model d
          | _ => obj_update model rts d
          end
      | None => d
      end
  | None => d
  end.

Definition clearResolved (d : DifferencesMap) (r : ResolutionsMap) : DifferencesMap :=
  fold_left (fun d entry =>
      fold_left (clearField (fst entry)) (obj_keys (snd entry)) d) r d.

(** [setResolutions(f)]. *)
Definition setResolutions (f : ResolutionsMap -> ResolutionsMap) (s : SyncState) : SyncState :=
  MkSyncState (differences s) (f (resolutions s)) (conflictItems s) (conflictDialogOpen s).

(** The answer to a fetch; one without success changes nothing. *)
Definition fetchSucceeded (success : bool) (diffs : DifferencesMap) (s : SyncState)
    : SyncState :=
  if success then MkSyncState diffs [] (conflictItems s) (conflictDialogOpen s) else s.

Definition syncSucceeded (s : SyncState) : SyncState :=
  MkSyncState (clearResolved (differences s) (resolutions s)) [] (conflictItems s)
    (conflictDialogOpen s).

Definition handleSelectValue (model ratioType : str) (v : value) (sourceName : str)
    (s : SyncState) : SyncState :=
  setResolutions (fun prev => applyResolutionSelection prev (differences s)
    (MkSelection model ratioType v sourceName)) s.

Definition handleSelectValues (selections : list ResolutionSelection) (s : SyncState)
    : SyncState :=
  match selections with
  | [] => s
  | _ => setResolutions (fun prev => applyResolutionSelections prev (differences s) selections) s
  end.

Definition handleUnselectValue (model ratioType : str) (s : SyncState) : SyncState :=
  setResolutions (fun prev => deleteResolutionField prev model ratioType) s.

Definition handleUnselectValues (plan : ResolutionRemovalPlan) (s : SyncState) : SyncState :=
  match plan with
  | [] => s
  | _ => setResolutions (fun prev => applyResolutionRemovalPlan prev plan) s
  end.

(** The bulk actions of the table. *)
Definition handleBulkSelect (rows : list ModelRow) (ratioTypeFilter upstreamName : str)
    (s : SyncState) : SyncState :=
  handleSelectValues
    (bulk_selections (bulkSelectState (differences s) (resolutions s) rows ratioTypeFilter
       upstreamName)) s.

Definition handleBulkUnselect (rows : list ModelRow) (ratioTypeFilter upstreamName : str)
    (s : SyncState) : SyncState :=
  handleUnselectValues
    (bulk_removalPlan (bulkSelectState (differences s) (resolutions s) rows ratioTypeFilter
       upstreamName)) s.

(** "Apply Sync" on the state: a conflict opens the dialog, nothing else is
    changed until the server has answered. *)
Definition applySync (t : str -> str) (currentRatios : list (str * json)) (s : SyncState)
    : res (SyncState * list (str * str)) :=
  res_bind (handleApplySync t (differences s) (resolutions s) currentRatios) (fun a =>
    match a with
    | AskConfirm items => Ok (MkSyncState (differences s) (resolutions s) items true, [])
    | SendUpdates u => Ok (s, u)
    end).

(** [handleConfirmConflict]: the dialog closes when the updates succeed. *)
Definition confirmConflict (accepts : str * str -> bool) (currentRatios : list (str * json))
    (s : SyncState) : res (SyncState * list (str * str)) :=
  res_bind (performSync (resolutions s) currentRatios) (fun u =>
    let '(sent, ok) := sendUpdates accepts u in
    if ok then
      let s := syncSucceeded s in
      Ok (MkSyncState (differences s) (resolutions s) (conflictItems s) false, sent)
    else Ok (s, sent)).
