(* ===== verification/UpstreamSyncLaws.v ===== *)
(** * Synchronizing prices: the laws

    - [selections_batch], [removals_batch]: the batch routines of
      [upstream-ratio-sync-helpers.ts] are the single ones, one after the other.
    - [choices_consistent_always]: the choices stay consistent, by induction on
      the runs of the screen ([sync_step]).
    - [bulk_checkbox]: the bulk actions of a column and its counts agree.
    - [sync_writes], [unasked_sync_keeps_billing]: what a sync does to the
      settings, and that it asks before a model is billed in another way. *)

From stdpp Require Import base list.
From Stdlib Require Import ZArith NArith Lia.
From S2P Require Import Prelude JsString JsArray JsNumber JsJson UpstreamSync.

Lemma map_get_set {A} k k' (v : A) o :
  obj_get k' (map_set k v o) = if k' =?s k then Some v else obj_get k' o.
Proof.
  unfold map_set. destruct (obj_get k o) eqn:E.
  - rewrite obj_get_update_any, E. done.
  - induction o as [|[j w] o IH]; simpl; [done|]. simpl in E.
    destruct (str_eqb_spec k j); [done|]. rewrite IH by done.
    destruct (str_eqb_spec k' j) as [->|]; [|done]. by destruct (str_eqb_spec j k).
Qed.


(** ** One choice after the other *)

Section Choices.
Context (d : DifferencesMap).
Implicit Types (r : ResolutionsMap) (s : ResolutionSelection) (D : list (str * resolution)).

(** [writeDraft] of drafts that are not empty. *)
Definition writes D r : ResolutionsMap :=
  fold_left (fun o kv => obj_set (fst kv) (snd kv) o) D r.

Definition drafts_ok D : Prop :=
  List.NoDup (obj_keys D) /\ Forall (fun kv => snd kv <> []) D.

Lemma setTiered_nonnil rts src ft (o : resolution) : o <> [] -> setTiered rts src ft o <> [].
Proof.
  intros Ho. unfold setTiered.
  repeat (first [apply obj_set_nonnil | case_match]); try done.
Qed.

Lemma selectInDraft_nonnil s o : selectInDraft d s o <> [].
Proof.
  unfold selectInDraft. repeat case_match; try apply setTiered_nonnil; apply obj_set_nonnil.
Qed.

Lemma NoDup_map_set {A} k (v : A) o : List.NoDup (obj_keys o) -> List.NoDup (obj_keys (map_set k v o)).
Proof.
  intros Ho. unfold map_set. destruct (obj_get k o) eqn:E; [by rewrite keys_update|].
  unfold obj_keys in *. rewrite map_app. simpl. apply List.NoDup_app; [done|repeat constructor; auto|].
  intros x Hx [<-|[]]. apply obj_get_None in E. done.
Qed.

Lemma Forall_map_set {A} (P : str * A -> Prop) k (v : A) o :
  Forall P o -> P (k, v) -> Forall P (map_set k v o).
Proof.
  intros Ho Hv. unfold map_set. destruct (obj_get k o) eqn:E.
  - clear E. induction Ho as [|[j w] o Hj Ho IH]; simpl; [constructor|].
    destruct (str_eqb_spec k j) as [->|]; by constructor.
  - apply Forall_app. auto.
Qed.

Lemma drafts_step r D s :
  drafts_ok D -> drafts_ok (applyResolutionSelectionToDraft D r d s).
Proof.
  intros [Hn Hf]. split; [by apply NoDup_map_set|]. apply Forall_map_set; [done|].
  apply selectInDraft_nonnil.
Qed.

Lemma writeDraft_nonnil r m o : o <> [] -> writeDraft r m o = obj_set m o r.
Proof. by destruct o. Qed.

Lemma writes_eq D r :
  drafts_ok D -> fold_left (fun next kv => writeDraft next (fst kv) (snd kv)) D r = writes D r.
Proof.
  intros [_ Hf]. unfold writes. revert r. induction Hf as [|[m o] D Ho Hf IH]; intros r; [done|].
  simpl. rewrite writeDraft_nonnil by done. apply IH.
Qed.

Lemma writes_get D r m :
  drafts_ok D ->
  obj_get m (writes D r) = match obj_get m D with Some o => Some o | None => obj_get m r end.
Proof. intros [Hn _]. unfold writes. by rewrite obj_get_fold_set, obj_get_rev. Qed.

Lemma writes_other D r m x :
  obj_get m D = None -> is_Some (obj_get m r) ->
  writes D (obj_set m x r) = obj_set m x (writes D r).
Proof.
  unfold writes. revert r. induction D as [|[j w] D IH]; intros r; simpl; [done|].
  destruct (str_eqb_spec m j) as [->|Hmj]; [done|]. intros Hn Hr.
  rewrite <- IH; [by rewrite (obj_set_comm m j)|done|].
  rewrite obj_get_set. by destruct (str_eqb_spec m j).
Qed.

Lemma writes_set D r m x :
  drafts_ok D -> writes (map_set m x D) r = obj_set m x (writes D r).
Proof.
  intros [Hn _]. unfold map_set. destruct (obj_get m D) as [w|] eqn:E.
  - destruct (obj_update_split m x w D E) as (D1 & D2 & -> & -> & _). unfold writes in *.
    rewrite !fold_left_app. simpl.
    assert (HD2 : obj_get m D2 = None).
    { apply obj_get_None. unfold obj_keys in *. rewrite map_app in Hn. simpl in Hn.
      apply NoDup_remove_2 in Hn. rewrite in_app_iff in Hn. tauto. }
    rewrite <- (obj_set_set m w x). apply writes_other; [done|].
    rewrite obj_get_set, str_eqb_refl. by eexists.
  - unfold writes. by rewrite fold_left_app.
Qed.

(** A single choice. *)
Lemma single_choice r s :
  applyResolutionSelection r d s
  = obj_set (sel_model s)
      (selectInDraft d s (nullish (obj_get (sel_model s) r) [])) r.
Proof.
  unfold applyResolutionSelection, applyResolutionSelections. simpl.
  unfold applyResolutionSelectionToDraft, getDraftModelResolution, map_set. simpl.
  apply writeDraft_nonnil, selectInDraft_nonnil.
Qed.

Lemma selections_seq r sels :
  exists D, drafts_ok D
    /\ fold_left (fun ds s => applyResolutionSelectionToDraft ds r d s) sels [] = D
    /\ writes D r = fold_left (fun r s => applyResolutionSelection r d s) sels r.
Proof.
  induction sels as [|s sels IH] using rev_ind.
  { exists []. repeat split; constructor. }
  destruct IH as (D & HD & HeqD & Hw). rewrite !fold_left_app, HeqD. simpl.
  eexists. split; [by apply drafts_step|]. split; [done|].
  rewrite single_choice, <- Hw. unfold applyResolutionSelectionToDraft.
  rewrite writes_set, writes_get by done. do 2 f_equal.
  unfold getDraftModelResolution. by destruct (obj_get (sel_model s) D).
Qed.

End Choices.

(** Many choices at once, worked out on drafts of the models they touch and
    written back at the end, give exactly the choices that result from making
    them one after the other, the order of the models included. *)
Theorem selections_batch (r : ResolutionsMap) (d : DifferencesMap)
    (sels : list ResolutionSelection) :
  applyResolutionSelections r d sels
  = fold_left (fun r s => applyResolutionSelection r d s) sels r.
Proof.
  destruct (selections_seq d r sels) as (D & HD & HeqD & Hw). rewrite <- Hw.
  unfold applyResolutionSelections. destruct sels; [by subst D|].
  rewrite HeqD. by apply writes_eq.
Qed.

(** ** One removal after the other *)

(** Whether the removal of the field [t] removes the field [k]. *)
Definition removes (t k : str) : bool :=
  (t =?s k) || ((t =?s billing_expr) && (billing_mode =?s k))
  || ((t =?s billing_mode) && (billing_expr =?s k)).

Lemma removeField_filter (o : resolution) t :
  removeField o t = List.filter (fun kv => negb (removes t (fst kv))) o.
Proof.
  unfold removeField, removes, obj_delete.
  destruct (t =?s billing_expr) eqn:E1, (t =?s billing_mode) eqn:E2; rewrite ?filter_filter;
    apply List.filter_ext; intros [k v]; cbn [fst];
    by destruct (t =?s k), (billing_mode =?s k), (billing_expr =?s k).
Qed.

Lemma removeFields_filter (T : list str) (o : resolution) :
  fold_left removeField T o
  = List.filter (fun kv => negb (existsb (fun t => removes t (fst kv)) T)) o.
Proof.
  revert o. induction T as [|t T IH]; intros o; simpl.
  { induction o as [|x o IHo]; simpl; [done|]. by rewrite <- IHo. }
  rewrite IH, removeField_filter, filter_filter. apply List.filter_ext. intros [k v]. simpl.
  by rewrite negb_orb.
Qed.

(** What an entry of a plan does. *)
Definition remove_step (r : ResolutionsMap) (entry : str * list str) : ResolutionsMap :=
  match obj_get (fst entry) r with
  | None => r
  | Some cur => writeDraft r (fst entry) (fold_left removeField (snd entry) cur)
  end.

Lemma writeDraft_get (r : ResolutionsMap) m j o :
  obj_get j (writeDraft r m o)
  = if j =?s m then (match o with [] => None | _ => Some o end) else obj_get j r.
Proof. destruct o; [apply obj_get_delete|apply obj_get_set]. Qed.

Lemma remove_step_get (r : ResolutionsMap) m T j :
  obj_get j (remove_step r (m, T))
  = if j =?s m then
      match obj_get m r with
      | Some cur => match fold_left removeField T cur with [] => None | o => Some o end
      | None => None
      end
    else obj_get j r.
Proof.
  unfold remove_step. cbn [fst snd]. destruct (obj_get m r) as [cur|] eqn:E.
  { rewrite writeDraft_get. by destruct (fold_left removeField T cur). }
  by destruct (str_eqb_spec j m) as [->|].
Qed.

Lemma remove_step_other (r : ResolutionsMap) m T j :
  j <> m -> obj_get j (remove_step r (m, T)) = obj_get j r.
Proof. intros H. rewrite remove_step_get. by destruct (str_eqb_spec j m). Qed.

Lemma writeDraft_comm (r : ResolutionsMap) m j o o' :
  m <> j -> is_Some (obj_get m r) -> is_Some (obj_get j r) ->
  writeDraft (writeDraft r j o') m o = writeDraft (writeDraft r m o) j o'.
Proof.
  intros Hmj Hm Hj.
  assert (Hu : forall k x (q : ResolutionsMap), is_Some (obj_get k q) ->
    obj_set k x q = obj_update k x q) by (intros k x q [y Hy]; unfold obj_set; by rewrite Hy).
  assert (Hd : forall k l (q : ResolutionsMap), k <> l -> is_Some (obj_get k q) ->
    is_Some (obj_get k (obj_delete l q))).
  { intros k l q Hkl Hk. rewrite obj_get_delete. by destruct (str_eqb_spec k l). }
  destruct o, o'; cbn [writeDraft].
  - apply obj_delete_comm.
  - rewrite !Hu by auto. by apply obj_delete_update_comm.
  - rewrite !Hu by auto. symmetry. by apply obj_delete_update_comm.
  - by apply obj_set_comm.
Qed.

Lemma remove_step_comm (r : ResolutionsMap) m T j T' :
  m <> j -> remove_step (remove_step r (j, T')) (m, T) = remove_step (remove_step r (m, T)) (j, T').
Proof.
  intros Hmj. unfold remove_step at 1 3. cbn [fst snd].
  rewrite !remove_step_other by done. unfold remove_step. cbn [fst snd].
  destruct (obj_get m r) eqn:Em, (obj_get j r) eqn:Ej; try done.
  apply writeDraft_comm; by rewrite ?Em, ?Ej.
Qed.

Lemma remove_step_more (r : ResolutionsMap) m T t :
  remove_step (remove_step r (m, T)) (m, [t]) = remove_step r (m, set_add t T).
Proof.
  assert (Hadd : forall o : resolution,
    fold_left removeField (set_add t T) o = removeField (fold_left removeField T o) t).
  { intros o. unfold set_add. destruct (mem_str t T) eqn:E; [|by rewrite fold_left_app].
    rewrite removeField_filter, removeFields_filter, filter_filter.
    apply List.filter_ext. intros [k v]. cbn [fst].
    destruct (removes t k) eqn:Et; [|by rewrite andb_true_r]. simpl. rewrite andb_false_r.
    apply negb_false_iff, existsb_exists. exists t. split; [|done].
    by apply list_elem_of_In, mem_str_true. }
  unfold remove_step at 2 3. cbn [fst snd]. destruct (obj_get m r) as [cur|] eqn:Em.
  2: { unfold remove_step. cbn. by rewrite Em. }
  rewrite Hadd. unfold remove_step. cbn [fst snd fold_left]. rewrite writeDraft_get, str_eqb_refl.
  destruct (fold_left removeField T cur) as [|x o]; [by rewrite removeField_filter|].
  destruct (removeField (x :: o) t); cbn [writeDraft]; [|apply obj_set_set].
  unfold obj_set. rewrite Em. apply obj_delete_update.
Qed.

Lemma plan_steps (plan : ResolutionRemovalPlan) (r : ResolutionsMap) :
  List.NoDup (obj_keys plan) ->
  applyResolutionRemovalPlan r plan = fold_left remove_step plan r.
Proof.
  intros Hn. unfold applyResolutionRemovalPlan.
  assert (H : forall next, (forall m, In m (obj_keys plan) -> obj_get m next = obj_get m r) ->
    fold_left (fun next '(model, ratioTypes) =>
      match obj_get model r with
      | None => next
      | Some current => writeDraft next model (fold_left removeField ratioTypes current)
      end) plan next = fold_left remove_step plan next); [|by apply H].
  induction plan as [|[m T] plan IH]; intros next Hnext; [done|]. simpl.
  simpl in Hn. inversion_clear Hn as [|? ? Hm Hp].
  rewrite <- (Hnext m) by (simpl; auto).
  change (match obj_get m next with
    | Some current => writeDraft next m (fold_left removeField T current)
    | None => next end) with (remove_step next (m, T)).
  apply IH; [done|]. intros j Hj. rewrite remove_step_other; [by apply Hnext; right|].
  by intros ->.
Qed.

Lemma step_past (plan : ResolutionRemovalPlan) (r : ResolutionsMap) m T :
  obj_get m plan = None ->
  fold_left remove_step plan (remove_step r (m, T))
  = remove_step (fold_left remove_step plan r) (m, T).
Proof.
  revert r. induction plan as [|[j U] plan IH]; intros r; simpl; [done|].
  destruct (str_eqb_spec m j) as [|Hmj]; [done|]. intros Hn.
  by rewrite <- IH, (remove_step_comm _ m) by done.
Qed.

Lemma plan_more (plan : ResolutionRemovalPlan) (r : ResolutionsMap) m t :
  List.NoDup (obj_keys plan) ->
  fold_left remove_step (planRemoval plan m t) r
  = remove_step (fold_left remove_step plan r) (m, [t]).
Proof.
  intros Hn. unfold planRemoval, map_set. destruct (obj_get m plan) as [T|] eqn:E.
  2: by rewrite fold_left_app.
  destruct (obj_update_split m (set_add t T) T plan E) as (P1 & P2 & -> & -> & _).
  rewrite !fold_left_app. simpl. rewrite <- remove_step_more.
  apply step_past, obj_get_None. unfold obj_keys in *. rewrite map_app in Hn. simpl in Hn.
  apply NoDup_remove_2 in Hn. rewrite in_app_iff in Hn. tauto.
Qed.

Lemma NoDup_planRemoval (plan : ResolutionRemovalPlan) m t :
  List.NoDup (obj_keys plan) -> List.NoDup (obj_keys (planRemoval plan m t)).
Proof. intros Hn. unfold planRemoval. case_match; by apply NoDup_map_set. Qed.

Lemma single_removal (r : ResolutionsMap) m t :
  deleteResolutionField r m t = remove_step r (m, [t]).
Proof.
  unfold deleteResolutionField, applyResolutionRemovals. rewrite plan_steps; [done|].
  repeat constructor. by intros [].
Qed.

Lemma removals_seq (r : ResolutionsMap) (removals : list ResolutionRemoval) :
  exists plan, List.NoDup (obj_keys plan)
    /\ fold_left (fun plan x => planRemoval plan (rem_model x) (rem_ratioType x)) removals []
       = plan
    /\ fold_left remove_step plan r
       = fold_left (fun r x => deleteResolutionField r (rem_model x) (rem_ratioType x)) removals r.
Proof.
  induction removals as [|x removals IH] using rev_ind.
  { exists []. repeat split; constructor. }
  destruct IH as (plan & Hn & Hp & Hr). rewrite !fold_left_app, Hp. simpl.
  eexists. split; [by apply NoDup_planRemoval|]. split; [done|].
  by rewrite plan_more, Hr, single_removal.
Qed.

(** Removing many fields at once, grouped by model, gives exactly the
    choices that result from removing them one after the other. *)
Theorem removals_batch (r : ResolutionsMap) (removals : list ResolutionRemoval) :
  applyResolutionRemovals r removals
  = fold_left (fun r x => deleteResolutionField r (rem_model x) (rem_ratioType x)) removals r.
Proof.
  destruct (removals_seq r removals) as (plan & Hn & Hp & <-).
  unfold applyResolutionRemovals. destruct removals; [by subst plan|].
  rewrite Hp. by apply plan_steps.
Qed.

(** ** The choices stay consistent *)

Definition has {A} (k : str) (o : list (str * A)) : Prop := is_Some (obj_get k o).

(** The choices of one model: a fixed price excludes ratios, and an expression
    comes with a mode. *)
Record consistent (o : resolution) : Prop := {
  con_nonnil : o <> [];
  con_keys : List.NoDup (obj_keys o);
  con_exclusive : forall k, has model_price o -> has k o -> getBillingCategory k <> ratio;
  con_mode : has billing_expr o -> has billing_mode o;
}.

Record choices_ok (r : ResolutionsMap) : Prop := {
  choices_keys : List.NoDup (obj_keys r);
  choices_consistent : Forall (fun kv => consistent (snd kv)) r;
}.

Lemma has_keys {A} k (o : list (str * A)) : has k o <-> In k (obj_keys o).
Proof.
  unfold has. destruct (obj_get k o) as [v|] eqn:E.
  - split; [|by eexists]. intros _. apply obj_get_In in E. by apply (in_map fst) in E.
  - apply obj_get_None in E. split; [by intros []|done].
Qed.

Lemma has_mem {A} k (o : list (str * A)) : has k o <-> mem_str k (obj_keys o) = true.
Proof. by rewrite has_keys, mem_str_true, list_elem_of_In. Qed.

Lemma has_set {A} k k' (v : A) o : has k' (obj_set k v o) <-> k' = k \/ has k' o.
Proof.
  unfold has. rewrite obj_get_set. destruct (str_eqb_spec k' k) as [->|]; [by split; eauto|].
  naive_solver.
Qed.

Lemma has_delete {A} k k' (o : list (str * A)) : has k' (obj_delete k o) <-> k' <> k /\ has k' o.
Proof.
  unfold has. rewrite obj_get_delete. destruct (str_eqb_spec k' k) as [->|]; [|naive_solver].
  split; [by intros []|naive_solver].
Qed.

Lemma has_filter (p : str -> bool) k (o : resolution) :
  obj_get k (List.filter (fun kv => p (fst kv)) o) = if p k then obj_get k o else None.
Proof.
  induction o as [|[j w] o IH]; simpl; [by destruct (p k)|].
  destruct (p j) eqn:Ej; simpl; rewrite IH; destruct (str_eqb_spec k j) as [->|]; try done;
    by rewrite Ej.
Qed.

Lemma NoDup_filter_keys {A} (p : str * A -> bool) (o : list (str * A)) :
  List.NoDup (obj_keys o) -> List.NoDup (obj_keys (List.filter p o)).
Proof.
  induction o as [|[j w] o IH]; simpl; [done|]. intros Hn. inversion_clear Hn as [|? ? Hj Ho].
  destruct (p (j, w)); simpl; [|by apply IH]. constructor; [|by apply IH].
  unfold obj_keys in *. intros (kv & Hk & Hin)%in_map_iff. apply filter_In in Hin.
  apply Hj, in_map_iff. exists kv. tauto.
Qed.

Lemma category_eqb_spec a b : reflect (a = b) (category_eqb a b).
Proof. by destruct a, b; constructor. Qed.

(** A choice drops the fields of the other way to bill. *)
Lemma drop_conflicts (c : category) (o : resolution) :
  fold_left (fun d rt => if conflicts c rt then obj_delete rt d else d) (obj_keys o) o
  = List.filter (fun kv => negb (conflicts c (fst kv))) o.
Proof.
  assert (H : forall ks (q : resolution),
    fold_left (fun d rt => if conflicts c rt then obj_delete rt d else d) ks q
    = List.filter (fun kv => negb (conflicts c (fst kv) && mem_str (fst kv) ks)) q).
  { induction ks as [|k ks IH]; intros q; simpl.
    - induction q as [|x q IHq]; simpl; [done|]. rewrite andb_false_r. simpl. by rewrite <- IHq.
    - rewrite IH. destruct (conflicts c k) eqn:Ek; unfold obj_delete; rewrite ?filter_filter;
        apply List.filter_ext; intros [j w]; cbn [fst]; rewrite (str_eqb_sym j k);
        destruct (str_eqb_spec k j) as [->|]; simpl; rewrite ?Ek; done. }
  rewrite H. apply List.filter_ext_in. intros [k v] Hin. cbn [fst].
  replace (mem_str k (obj_keys o)) with true; [by rewrite andb_true_r|].
  symmetry. apply (in_map fst) in Hin. by apply mem_str_true, list_elem_of_In.
Qed.

(** The draft before the mode and the expression of the source are added. *)
Definition chosen (c : category) (ft : str) (v : value) (o : resolution) : resolution :=
  obj_set ft v (List.filter (fun kv => negb (conflicts c (fst kv))) o).

Lemma selectInDraft_eq d s o :
  selectInDraft d s o =
  let q := resolveResolutionSelection d s in
  let c := getBillingCategory (sel_ratioType q) in
  match obj_get (sel_model s) d with
  | Some rts =>
      if category_eqb c tiered
      then setTiered rts (sel_sourceName s) (sel_ratioType q)
             (chosen c (sel_ratioType q) (sel_value q) o)
      else chosen c (sel_ratioType q) (sel_value q) o
  | None => chosen c (sel_ratioType q) (sel_value q) o
  end.
Proof. unfold selectInDraft, chosen. by rewrite drop_conflicts. Qed.

Lemma chosen_get c ft v o k :
  obj_get k (chosen c ft v o)
  = if k =?s ft then Some v else if conflicts c k then None else obj_get k o.
Proof.
  unfold chosen. rewrite obj_get_set, (has_filter (fun k => negb (conflicts c k))).
  by destruct (k =?s ft), (conflicts c k).
Qed.

(** [setTiered] writes a mode and an expression, whatever they are. *)
Lemma setTiered_cases rts src ft o :
  exists o1, (o1 = o /\ ft <> billing_expr \/ exists v, o1 = obj_set billing_mode v o)
    /\ (setTiered rts src ft o = o1 \/ exists v, setTiered rts src ft o = obj_set billing_expr v o1
        /\ upstreamOf rts billing_expr src = Some v /\ isSelectableUpstreamValue (Some v) = true).
Proof.
  unfold setTiered.
  set (o1 := match upstreamOf rts billing_mode src with Some _ => _ | None => _ end).
  exists o1. split.
  - subst o1. destruct (str_eqb_spec ft billing_expr) as [->|Hft];
      repeat case_match; eauto.
  - destruct (upstreamOf rts billing_expr src) as [v|]; [|by left].
    destruct (isSelectableUpstreamValue (Some v)) eqn:E; [|by left]. right. eauto.
Qed.

Lemma consistent_expr v o :
  consistent o -> has billing_mode o -> consistent (obj_set billing_expr v o).
Proof.
  intros [Ho Hk Hx Hm] Hmode. split.
  - apply obj_set_nonnil.
  - by apply NoDup_obj_set.
  - intros k Hp [->|Hk']%has_set; [done|].
    apply has_set in Hp as [?|Hp]; [done|]. by apply Hx.
  - intros _. apply has_set. by right.
Qed.

(** What may be in a draft: the choices of a model, or nothing. *)
Definition draft_ok (o : resolution) : Prop := o = [] \/ consistent o.

Lemma draft_facts o :
  draft_ok o -> List.NoDup (obj_keys o)
    /\ (forall k, has model_price o -> has k o -> getBillingCategory k <> ratio)
    /\ (has billing_expr o -> has billing_mode o).
Proof.
  intros [->|[? ? ? ?]]; [|done]. split; [constructor|]. split.
  - intros k [? [=]].
  - by intros [? [=]].
Qed.

(** The choice of a price or of a ratio. *)
Lemma chosen_consistent c ft v o :
  draft_ok o -> getBillingCategory ft = c -> c <> tiered -> consistent (chosen c ft v o).
Proof.
  intros (Hk & Hx & Hm)%draft_facts Hc Ht.
  assert (Htiered : forall k, getBillingCategory k = tiered ->
    obj_get k (chosen c ft v o) = obj_get k o).
  { intros k Hkt. rewrite chosen_get. unfold conflicts. rewrite Hkt.
    destruct (str_eqb_spec k ft) as [->|]; [congruence|]. simpl. by rewrite andb_false_r. }
  assert (Hcat : forall k, has k (chosen c ft v o) -> getBillingCategory k = tiered
    \/ getBillingCategory k = c).
  { intros k. unfold has. rewrite chosen_get. destruct (str_eqb_spec k ft) as [->|]; [by right|].
    unfold conflicts. destruct (category_eqb_spec c tiered); [done|].
    destruct (category_eqb_spec (getBillingCategory k) tiered); [by left|].
    destruct (category_eqb_spec (getBillingCategory k) c); [by right|]. by intros []. }
  split.
  - apply obj_set_nonnil.
  - by apply NoDup_obj_set, NoDup_filter_keys.
  - intros k Hp Hk' Hr. apply Hcat in Hp as [Hp|Hp]; [done|].
    apply Hcat in Hk' as [Hk'|Hk']; [congruence|].
    change (getBillingCategory model_price) with price in Hp. congruence.
  - unfold has. rewrite !Htiered by done. apply Hm.
Qed.

Lemma select_consistent d s o :
  draft_ok o -> has (sel_model s) d -> consistent (selectInDraft d s o).
Proof.
  intros Ho [rts Hd]. rewrite selectInDraft_eq, Hd. cbv zeta.
  set (q := resolveResolutionSelection d s). set (ft := sel_ratioType q).
  destruct (category_eqb_spec (getBillingCategory ft) tiered) as [Ht|Ht];
    [|by apply chosen_consistent]. rewrite Ht.
  destruct (draft_facts o Ho) as (Hk & Hx & Hm).
  assert (Hget : forall k, has k (chosen tiered ft (sel_value q) o) <-> k = ft \/ has k o).
  { intros k. unfold has. rewrite chosen_get. unfold conflicts. simpl.
    destruct (str_eqb_spec k ft) as [->|]; [by split; eauto|]. naive_solver. }
  assert (Hcon : forall w, consistent (obj_set billing_mode w (chosen tiered ft (sel_value q) o))).
  { intros w. split.
    - apply obj_set_nonnil.
    - by apply NoDup_obj_set, NoDup_obj_set, NoDup_filter_keys.
    - intros k [?|Hp%Hget]%has_set [->|Hk']%has_set; try done. apply Hget in Hk' as [->|Hk'].
      + by rewrite Ht.
      + destruct Hp as [Hp|Hp]; [by rewrite <- Hp in Ht|]. by apply Hx.
    - intros _. apply has_set. by left. }
  assert (Hft : ft = billing_mode \/ ft = billing_expr).
  { revert Ht. clear. unfold getBillingCategory. destruct (ft =?s model_price); [done|].
    destruct (str_eqb_spec ft billing_mode); [by left|].
    destruct (str_eqb_spec ft billing_expr); [by right|done]. }
  assert (H1 : ft = billing_mode -> consistent (chosen tiered ft (sel_value q) o)).
  { intros Hmode. pose proof (Hcon (sel_value q)) as Hc. rewrite <- Hmode in Hc.
    unfold chosen in *. by rewrite obj_set_set in Hc. }
  destruct (setTiered_cases rts (sel_sourceName s) ft (chosen tiered ft (sel_value q) o))
    as (o1 & Ho1 & Hres).
  assert (Hc1 : consistent o1 /\ has billing_mode o1).
  { destruct Ho1 as [[-> Hne]|[v ->]].
    - destruct Hft as [Hft|Hft]; [|done]. split; [by apply H1|]. apply Hget. auto.
    - split; [apply Hcon|]. apply has_set. by left. }
  destruct Hc1 as [Hc1 Hmo].
  destruct Hres as [->|(v & -> & _)]; [done|by apply consistent_expr].
Qed.

Lemma choices_get r m : choices_ok r -> draft_ok (nullish (obj_get m r) []).
Proof.
  intros [_ Hr]. destruct (obj_get m r) as [o|] eqn:E; simpl; [right|by left].
  rewrite Forall_forall in Hr. apply obj_get_In, list_elem_of_In in E. exact (Hr _ E).
Qed.

Lemma choices_set r m o : choices_ok r -> consistent o -> choices_ok (obj_set m o r).
Proof.
  intros [Hn Hr] Ho. split; [by apply NoDup_obj_set|].
  rewrite Forall_forall in Hr |- *. intros kv Hin%list_elem_of_In%in_obj_set.
  destruct Hin as [->|Hin]; [done|]. by apply Hr, list_elem_of_In.
Qed.

Lemma choices_delete r m : choices_ok r -> choices_ok (obj_delete m r).
Proof.
  intros [Hn Hr]. split; [by apply NoDup_filter_keys|].
  rewrite Forall_forall in Hr |- *. intros kv [Hin _]%list_elem_of_In%filter_In.
  by apply Hr, list_elem_of_In.
Qed.

Lemma choices_select r d s :
  choices_ok r -> has (sel_model s) d -> choices_ok (applyResolutionSelection r d s).
Proof.
  intros Hr Hd. rewrite single_choice. apply choices_set; [done|].
  apply select_consistent; [by apply choices_get|done].
Qed.

Lemma choices_selections r d sels :
  choices_ok r -> Forall (fun s => has (sel_model s) d) sels ->
  choices_ok (applyResolutionSelections r d sels).
Proof.
  intros Hr Hs. destruct (selections_seq d r sels) as (D & HD & HeqD & Hw).
  replace (applyResolutionSelections r d sels) with (writes D r).
  - rewrite Hw. clear -Hr Hs. revert r Hr. induction Hs as [|s sels Hs Hl IH]; intros r Hr; [done|].
    apply IH, choices_select; done.
  - unfold applyResolutionSelections. destruct sels; [by subst D|].
    rewrite HeqD. symmetry. by apply writes_eq.
Qed.

Lemma removal_consistent T o :
  consistent o -> fold_left removeField T o <> [] -> consistent (fold_left removeField T o).
Proof.
  intros [Ho Hk Hx Hm] Hne.
  assert (Hget : forall k, obj_get k (fold_left removeField T o)
    = if existsb (fun t => removes t k) T then None else obj_get k o).
  { intros k. rewrite removeFields_filter.
    rewrite (has_filter (fun k => negb (existsb (fun t => removes t k) T))).
    by destruct (existsb (fun t => removes t k) T). }
  assert (Hhas : forall k, has k (fold_left removeField T o) ->
    has k o /\ existsb (fun t => removes t k) T = false).
  { intros k. unfold has. rewrite Hget. destruct (existsb _ T); [by intros []|done]. }
  split; [done| | |].
  - rewrite removeFields_filter. by apply NoDup_filter_keys.
  - intros k [Hp _]%Hhas [Hk' _]%Hhas. by apply Hx.
  - intros [He Hne']%Hhas. unfold has. rewrite Hget.
    destruct (existsb (fun t => removes t billing_mode) T) eqn:E; [|by apply Hm].
    apply existsb_exists in E as (t & Ht & Hrm). assert (Hc : removes t billing_expr = false).
    { destruct (removes t billing_expr) eqn:Ec; [|done].
      rewrite <- Hne'. symmetry. apply existsb_exists. by exists t. }
    exfalso. revert Hc Hrm. clear. unfold removes.
    destruct (str_eqb_spec t billing_expr) as [->|]; [done|].
    destruct (str_eqb_spec t billing_mode) as [->|]; done.
Qed.

Lemma choices_remove r m T : choices_ok r -> choices_ok (remove_step r (m, T)).
Proof.
  intros Hr. unfold remove_step. cbn [fst snd].
  destruct (obj_get m r) as [o|] eqn:E; [|done].
  assert (Ho : consistent o).
  { destruct Hr as [_ Hr]. rewrite Forall_forall in Hr.
    apply obj_get_In, list_elem_of_In in E. exact (Hr _ E). }
  pose proof (removal_consistent T o Ho) as Hc. revert Hc.
  destruct (fold_left removeField T o); intros Hc; [by apply choices_delete|].
  by apply choices_set; [|apply Hc].
Qed.

Lemma choices_plan r plan :
  List.NoDup (obj_keys plan) -> choices_ok r -> choices_ok (applyResolutionRemovalPlan r plan).
Proof.
  intros Hn Hr. rewrite plan_steps by done. clear Hn. revert r Hr.
  induction plan as [|[m T] plan IH]; intros r Hr; [done|]. by apply IH, choices_remove.
Qed.

(** ** What the table offers *)

Lemma effective_subset d sels s :
  In s (getEffectiveResolutionSelections d sels) ->
  exists s0, In s0 sels /\ s = resolveResolutionSelection d s0.
Proof.
  unfold getEffectiveResolutionSelections. intros (kv & <- & Hin)%in_map_iff.
  assert (H : Forall (fun kv => exists s0, In s0 sels /\ snd kv = resolveResolutionSelection d s0)
    (fold_left (addEffective d) sels [])).
  { clear. induction sels as [|x sels IH] using rev_ind; [constructor|].
    rewrite fold_left_app. simpl. unfold addEffective at 1. apply Forall_map_set.
    - rewrite Forall_forall in IH |- *. intros kv [Hin _]%list_elem_of_In%filter_In.
      destruct (IH kv) as (s0 & Hs0 & Heq); [by apply list_elem_of_In|].
      exists s0. split; [apply in_app_iff; auto|done].
    - exists x. split; [apply in_app_iff; simpl; auto|done]. }
  rewrite Forall_forall in H. apply H. by apply list_elem_of_In.
Qed.

Section Rows.
Context (toLowerCase : str -> str) (search ratioTypeFilter : str) (d : DifferencesMap).

Lemma row_in_data row :
  In row (filteredData toLowerCase d search ratioTypeFilter) ->
  In (row_model row, row_ratioTypes row) d.
Proof.
  intros Hin. assert (Hds : In row (dataSource d)).
  { unfold filteredData in Hin. cbv zeta in Hin. revert Hin.
    repeat case_match; rewrite ?filter_In; tauto. }
  unfold dataSource in Hds. apply in_map_iff in Hds as ([m rts] & <- & Hd). done.
Qed.

(** Every choice of a bulk action is a visible value of its upstream. *)
Record offered (u : str) (s : ResolutionSelection) (off_rts : ratio_types) : Prop := {
  off_row : In (sel_model s, off_rts) d;
  off_source : sel_sourceName s = u;
  off_value : upstreamOf off_rts (sel_ratioType s) u = Some (sel_value s);
  off_selectable : isSelectableUpstreamValue (Some (sel_value s)) = true;
  off_visible : getPreferredSyncField off_rts (sel_ratioType s) u = sel_ratioType s;
}.

Lemma rows_offered u s :
  In s (flat_map (rowSelections u ratioTypeFilter)
          (filteredData toLowerCase d search ratioTypeFilter)) ->
  exists rts, offered u s rts.
Proof.
  intros (row & Hrow%row_in_data & Hin)%in_flat_map. unfold rowSelections in Hin.
  apply list_elem_of_In, list_elem_of_omap in Hin as (rt & Hrt & Hs).
  destruct (upstreamOf (row_ratioTypes row) rt u) as [v|] eqn:Eu; [|done].
  destruct (isSelectableUpstreamValue (Some v)) eqn:Es; [|done]. injection Hs as <-.
  exists (row_ratioTypes row). split; try done. cbn [sel_ratioType].
  unfold getAlignedRatioTypes in Hrt. simpl in Hrt. rewrite app_nil_r in Hrt.
  apply list_elem_of_In, filter_In in Hrt as [_ Hv].
  assert (Hin : In rt (getVisibleRatioTypesForSource (row_ratioTypes row) u (Some ratioTypeFilter))).
  { by apply list_elem_of_In, mem_str_true. }
  apply filter_In in Hin as [_ H]. by apply str_eqb_eq.
Qed.

End Rows.

(** ** The screen *)

Section Screen.
Context (toLowerCase t : str -> str).

(** What can happen on the screen: an answer of the server, a checkbox of a
    cell or of a column, "Apply Sync", the confirmation of the dialog, an
    answer to the updates. *)
Inductive sync_step (s : SyncState) : SyncState -> Prop :=
  | step_fetched (success : bool) (diffs : DifferencesMap) :
      sync_step s (fetchSucceeded success diffs s)
  | step_select (row : ModelRow) (rt src : str) (v : value) :
      In row (dataSource (differences s)) ->
      upstreamOf (row_ratioTypes row) rt src = Some v ->
      isSelectableUpstreamValue (Some v) = true ->
      sync_step s (handleSelectValue (row_model row) rt v src s)
  | step_unselect (m rt : str) : sync_step s (handleUnselectValue m rt s)
  | step_bulk_select (search filter u : str) :
      sync_step s (handleBulkSelect
        (filteredData toLowerCase (differences s) search filter) filter u s)
  | step_bulk_unselect (search filter u : str) :
      sync_step s (handleBulkUnselect
        (filteredData toLowerCase (differences s) search filter) filter u s)
  | step_apply (currentRatios : list (str * json)) (s' : SyncState) (sent : list (str * str)) :
      applySync t currentRatios s = Ok (s', sent) -> sync_step s s'
  | step_confirm (accepts : str * str -> bool) (currentRatios : list (str * json))
      (s' : SyncState) (sent : list (str * str)) :
      confirmConflict accepts currentRatios s = Ok (s', sent) -> sync_step s s'
  | step_synced : sync_step s (syncSucceeded s).

Lemma choices_nil : choices_ok [].
Proof. split; constructor. Qed.

Lemma offered_known d u s rts : offered d u s rts -> has (sel_model s) d.
Proof.
  intros [Hin _ _ _ _]. apply has_keys. by apply (in_map fst) in Hin.
Qed.

Lemma bulk_known d r search filter u :
  Forall (fun s => has (sel_model s) d)
    (bulk_selections (bulkSelectState d r (filteredData toLowerCase d search filter) filter u)).
Proof.
  apply List.Forall_forall. intros s (s0 & Hin & ->)%effective_subset.
  apply rows_offered in Hin as (rts & Ho). exact (offered_known _ _ _ _ Ho).
Qed.

Lemma NoDup_plan (sels : list ResolutionSelection) :
  List.NoDup (obj_keys (fold_left (fun plan s => planRemoval plan (sel_model s) (sel_ratioType s))
    sels [])).
Proof.
  induction sels as [|s sels IH] using rev_ind; [constructor|].
  rewrite fold_left_app. simpl. by apply NoDup_planRemoval.
Qed.

Lemma res_bind_Ok {A B} (m : res A) (k : A -> res B) (b : B) :
  res_bind m k = Ok b -> exists a, m = Ok a /\ k a = Ok b.
Proof. destruct m; simpl; [eauto|done]. Qed.

Lemma step_choices s s' :
  sync_step s s' -> choices_ok (resolutions s) -> choices_ok (resolutions s').
Proof.
  intros Hs Hr. destruct Hs as [success diffs|row rt src v Hrow Hv _|m rt|search f u|search f u
    |cur s' sent H|accepts cur s' sent H|].
  - destruct success; [apply choices_nil|done].
  - apply choices_select; [done|]. unfold dataSource in Hrow.
    apply in_map_iff in Hrow as ([m rts] & <- & Hin). cbn. apply has_keys.
    by apply (in_map fst) in Hin.
  - unfold handleUnselectValue, setResolutions. cbn [resolutions]. rewrite single_removal.
    by apply choices_remove.
  - unfold handleBulkSelect, handleSelectValues.
    pose proof (bulk_known (differences s) (resolutions s) search f u) as Hk. revert Hk.
    destruct (bulk_selections _); [done|]. intros Hk. by apply choices_selections.
  - unfold handleBulkUnselect, handleUnselectValues.
    set (b := bulkSelectState _ _ _ _ _).
    assert (Hn : List.NoDup (obj_keys (bulk_removalPlan b))) by apply NoDup_plan. revert Hn.
    destruct (bulk_removalPlan b); [done|]. intros Hn. by apply choices_plan.
  - apply res_bind_Ok in H as (a & _ & Ha). by destruct a; injection Ha as <- _.
  - apply res_bind_Ok in H as (u & _ & Hu). destruct (sendUpdates accepts u) as [x []];
      injection Hu as <- _; [apply choices_nil|done].
  - apply choices_nil.
Qed.

End Screen.

(** C33: whatever the user does on the screen, the choices of a model never mix a
    fixed price with ratios, an expression is never chosen without a mode, and no
    model is left without a choice. *)
Theorem choices_consistent_always (toLowerCase t : str -> str) (s : SyncState)
    (m : str) (o : resolution) :
  rtc (sync_step toLowerCase t) initialSync s -> obj_get m (resolutions s) = Some o ->
  o <> []
  /\ ~ (has model_price o /\ exists k, has k o /\ getBillingCategory k = ratio)
  /\ (has billing_expr o -> has billing_mode o).
Proof.
  intros Hrun Hm. assert (Hr : choices_ok (resolutions s)).
  { revert Hrun. generalize choices_nil. change [] with (resolutions initialSync) at 1.
    intros H0 Hrun. induction Hrun as [|x y z Hxy _ IH]; [done|].
    apply IH; [done|]. by eapply step_choices. }
  destruct (choices_get _ m Hr) as [H|[Hne _ Hx Hmode]]; rewrite Hm in *; cbn in *.
  - subst o. destruct Hr as [_ Hr]. rewrite Forall_forall in Hr.
    apply obj_get_In, list_elem_of_In in Hm. by destruct (Hr _ Hm) as [? _ _ _].
  - split; [done|]. split; [|done]. intros (Hp & k & Hk & Hc). by eapply Hx.
Qed.

(** ** The bulk actions *)

(** A value that is equal to itself when it is compared as its field is. *)
Definition sane (rt : str) (v : value) : bool :=
  if mem_str rt NUMERIC_SYNC_FIELDS then isFinite (value_Number v)
  else match v with VStr _ => true | VNum x => negb (isNaN x) end.

Definition diffs_sane (d : DifferencesMap) : bool :=
  forallb (fun '(_, rts) =>
    forallb (fun '(rt, e) =>
      forallb (fun '(_, ov) => match ov with
                                | Some v => value_eqb v same || sane rt v
                                | None => true
                                end)
        (upstreams e)) rts) d.

Lemma upstreamOf_sane d m (rts : ratio_types) rt u v :
  diffs_sane d = true -> In (m, rts) d -> upstreamOf rts rt u = Some v ->
  isSelectableUpstreamValue (Some v) = true -> sane rt v = true.
Proof.
  intros Hd Hin. unfold diffs_sane in Hd. rewrite forallb_forall in Hd.
  specialize (Hd _ Hin). cbn in Hd. rewrite forallb_forall in Hd.
  unfold upstreamOf. destruct (obj_get rt rts) as [e|] eqn:Ee; [|done].
  apply obj_get_In in Ee. specialize (Hd _ Ee). cbn in Hd. rewrite forallb_forall in Hd.
  destruct (obj_get u (upstreams e)) as [ov|] eqn:Eu; [|done].
  apply obj_get_In in Eu. specialize (Hd _ Eu). cbn in Hd |- *. intros -> Hs.
  apply negb_true_iff in Hs. by rewrite Hs in Hd.
Qed.

Lemma num_eq_refl x : isNaN x = false -> num_eq x x = true.
Proof.
  unfold num_eq, SpecFloat.SFeqb, SpecFloat.SFcompare. destruct x as [[]|[]| |[] m e]; try done;
    intros _; by rewrite Z.compare_refl, Pos.compare_cont_refl.
Qed.

Lemma selected_sane r m rt v :
  sane rt v = true -> isSelectableUpstreamValue (Some v) = true ->
  selectedValue r m rt = Some v -> isSelectedResolutionValue r m rt (Some v) = true.
Proof.
  intros Hs Hv Hr. unfold isSelectedResolutionValue. rewrite Hr, Hv. cbn [andb].
  unfold sane in Hs. destruct (mem_str rt NUMERIC_SYNC_FIELDS).
  - rewrite Hs, num_eq_refl; [done|]. by destruct (value_Number v).
  - destruct v as [x|]; simpl; [|apply str_eqb_refl]. apply num_eq_refl. by apply negb_true_iff.
Qed.

Lemma setTiered_get rts src ft o k :
  obj_get k (setTiered rts src ft o)
  = let offers f := match upstreamOf rts f src with
                    | Some v => if isSelectableUpstreamValue (Some v) then Some v else None
                    | None => None
                    end in
    if k =?s billing_expr then
      match offers billing_expr with Some v => Some v | None => obj_get k o end
    else if k =?s billing_mode then
      match offers billing_mode with
      | Some v => Some v
      | None => if ft =?s billing_expr then Some tiered_expr else obj_get k o
      end
    else obj_get k o.
Proof.
  unfold setTiered. cbv zeta.
  destruct (upstreamOf rts billing_mode src) as [v|];
    [destruct (isSelectableUpstreamValue (Some v))|];
    (destruct (upstreamOf rts billing_expr src) as [w|];
      [destruct (isSelectableUpstreamValue (Some w))|]);
    destruct (ft =?s billing_expr); rewrite ?obj_get_set;
    destruct (str_eqb_spec k billing_expr) as [->|]; try done;
    by destruct (str_eqb_spec k billing_mode) as [->|].
Qed.

Section Bulk.
Context (d : DifferencesMap) (u : str).
Context (Hd : List.NoDup (obj_keys d)).

Lemma offered_get s rts : offered d u s rts -> obj_get (sel_model s) d = Some rts.
Proof. intros Ho. apply obj_get_In_iff; [done|]. by destruct Ho. Qed.

(** What a column offers is not redirected to another field. *)
Lemma offered_resolved s rts : offered d u s rts -> resolveResolutionSelection d s = s.
Proof.
  intros Ho. unfold resolveResolutionSelection. rewrite (offered_get s rts Ho). cbn [nullish].
  destruct Ho as [_ Hsrc _ _ Hvis]. rewrite Hsrc, Hvis, str_eqb_refl. by destruct s; simpl in *; subst.
Qed.

(** Two choices that can be made together. *)
Definition compatible (s s' : ResolutionSelection) : Prop :=
  sel_model s = sel_model s' ->
  conflicts (getBillingCategory (sel_ratioType s)) (sel_ratioType s') = false.

Lemma compatible_sym s s' : compatible s s' -> compatible s' s.
Proof.
  unfold compatible, conflicts. intros H Hm. specialize (H (eq_sym Hm)).
  destruct (getBillingCategory (sel_ratioType s)), (getBillingCategory (sel_ratioType s')); done.
Qed.

Lemma choose_selected r s s' rts rts' :
  offered d u s rts -> offered d u s' rts' -> compatible s' s ->
  (s' = s \/ selectedValue r (sel_model s) (sel_ratioType s) = Some (sel_value s)) ->
  selectedValue (applyResolutionSelection r d s') (sel_model s) (sel_ratioType s)
  = Some (sel_value s).
Proof.
  intros Ho Ho' Hc Hor. rewrite single_choice. unfold selectedValue. rewrite obj_get_set.
  destruct (str_eqb_spec (sel_model s) (sel_model s')) as [Hm|Hm]; [|naive_solver].
  rewrite selectInDraft_eq, (offered_resolved s' rts' Ho'), (offered_get s' rts' Ho'). cbv zeta.
  assert (Hrts : rts = rts').
  { pose proof (offered_get s rts Ho) as H1. rewrite Hm in H1.
    rewrite (offered_get s' rts' Ho') in H1. congruence. } subst rts'.
  set (o := nullish (obj_get (sel_model s') r) []).
  set (q := chosen _ _ _ o).
  destruct Ho as [_ _ Hval Hsel Hvis], Ho' as [_ Hsrc' Hval' _ _].
  assert (Hq : obj_get (sel_ratioType s) q = Some (sel_value s)).
  { subst q. rewrite chosen_get.
    destruct (str_eqb_spec (sel_ratioType s) (sel_ratioType s')) as [Ht|Ht].
    - rewrite <- Ht in Hval'. congruence.
    - rewrite Hc by done. destruct Hor as [->|Hsv]; [done|]. subst o. unfold selectedValue in Hsv.
      rewrite Hm in Hsv. by destruct (obj_get (sel_model s') r). }
  destruct (category_eqb (getBillingCategory (sel_ratioType s')) tiered); [|done].
  rewrite setTiered_get, Hsrc'. cbv zeta.
  destruct (str_eqb_spec (sel_ratioType s) billing_expr) as [He|He].
  { rewrite <- He, Hval, Hsel. done. }
  destruct (str_eqb_spec (sel_ratioType s) billing_mode) as [He'|He']; [|done].
  by rewrite <- He', Hval, Hsel.
Qed.

Lemma choose_all_selected (l : list ResolutionSelection) r s :
  (exists rts, offered d u s rts) ->
  (forall s', In s' l -> (exists rts, offered d u s' rts) /\ compatible s' s) ->
  (In s l \/ selectedValue r (sel_model s) (sel_ratioType s) = Some (sel_value s)) ->
  selectedValue (fold_left (fun r s => applyResolutionSelection r d s) l r)
    (sel_model s) (sel_ratioType s) = Some (sel_value s).
Proof.
  intros [rts Ho]. revert r. induction l as [|x l IH]; intros r Hl Hor; simpl.
  { by destruct Hor. }
  destruct (Hl x) as [[rtsx Hx] Hcx]; [by left|].
  assert (Hl' : forall s', In s' l -> (exists rts, offered d u s' rts) /\ compatible s' s).
  { intros s' Hs'. apply Hl. by right. }
  assert (Hstep := choose_selected r s x rts rtsx Ho Hx Hcx).
  apply IH; [done|]. destruct Hor as [[->|Hin]|Hsel]; auto.
Qed.

(** The effective choices of a column can be made together. *)
Lemma effective_compatible (l : list ResolutionSelection) s s' :
  In s (getEffectiveResolutionSelections d l) -> In s' (getEffectiveResolutionSelections d l) ->
  compatible s s'.
Proof.
  unfold getEffectiveResolutionSelections.
  intros (kv & <- & Hin)%in_map_iff (kv' & <- & Hin')%in_map_iff.
  assert (H : forall kv kv', In kv (fold_left (addEffective d) l []) ->
    In kv' (fold_left (addEffective d) l []) -> compatible (snd kv) (snd kv')); [|by apply H].
  clear. induction l as [|x l IH] using rev_ind; [done|].
  rewrite fold_left_app. simpl. unfold addEffective at 1 3.
  set (q := resolveResolutionSelection d x).
  set (kept := List.filter _ (fold_left (addEffective d) l [])).
  assert (Hset : forall kv, In kv (map_set (selection_key q) q kept) ->
    kv = (selection_key q, q) \/ In kv kept).
  { intros kv Hkv. enough (Forall (fun kv => kv = (selection_key q, q) \/ In kv kept)
      (map_set (selection_key q) q kept)) as Hf by (rewrite List.Forall_forall in Hf; auto).
    apply Forall_map_set; [|by left]. apply List.Forall_forall. auto. }
  assert (Hq : forall kv, In kv kept -> compatible q (snd kv)).
  { intros kv [_ Hk]%filter_In Hm. apply negb_true_iff in Hk.
    rewrite Hm, str_eqb_refl in Hk. exact Hk. }
  intros kv kv' [->|Hk]%Hset [->|Hk']%Hset; cbn [snd].
  - intros _. unfold conflicts. by destruct (getBillingCategory _).
  - by apply Hq.
  - by apply compatible_sym, Hq.
  - apply filter_In in Hk as [Hk _], Hk' as [Hk' _]. by apply IH.
Qed.

(** What was removed is not chosen. *)
Lemma removed_none r m t m' t' :
  (m = m' /\ t = t') \/ selectedValue r m t = None ->
  selectedValue (remove_step r (m', [t'])) m t = None.
Proof.
  unfold selectedValue. intros Hor. rewrite remove_step_get.
  destruct (str_eqb_spec m m') as [->|Hm]; [|destruct Hor as [[]|]; [done|done]].
  destruct (obj_get m' r) as [o|]; [|done].
  assert (Hg : obj_get t (fold_left removeField [t'] o) = None).
  { rewrite removeFields_filter.
    rewrite (has_filter (fun k => negb (existsb (fun t => removes t k) [t']))).
    destruct Hor as [[_ ->]|Hn]; [|by destruct (negb _)].
    simpl. unfold removes. by rewrite str_eqb_refl. }
  by destruct (fold_left removeField [t'] o).
Qed.

End Bulk.

Section BulkActions.
Context (toLowerCase : str -> str) (search filter u : str).

(** The state of the checkbox of a column. *)
Definition column (s : SyncState) : UpstreamBulkSelectState :=
  bulkSelectState (differences s) (resolutions s)
    (filteredData toLowerCase (differences s) search filter) filter u.

Definition selectAll (s : SyncState) : SyncState :=
  handleBulkSelect (filteredData toLowerCase (differences s) search filter) filter u s.

Definition unselectAll (s : SyncState) : SyncState :=
  handleBulkUnselect (filteredData toLowerCase (differences s) search filter) filter u s.

Lemma column_offered s x :
  List.NoDup (obj_keys (differences s)) ->
  In x (bulk_selections (column s)) ->
  (exists rts, offered (differences s) u x rts)
  /\ In x (flat_map (rowSelections u filter)
            (filteredData toLowerCase (differences s) search filter)).
Proof.
  intros Hd (x0 & Hin & ->)%effective_subset.
  destruct (rows_offered _ _ _ _ _ _ Hin) as [rts Ho].
  rewrite (offered_resolved _ _ Hd _ _ Ho). eauto.
Qed.

Lemma selectAll_selected s x :
  List.NoDup (obj_keys (differences s)) -> In x (bulk_selections (column s)) ->
  selectedValue (resolutions (selectAll s)) (sel_model x) (sel_ratioType x) = Some (sel_value x).
Proof.
  intros Hd Hx. unfold selectAll, handleBulkSelect. fold (column s).
  destruct (column_offered s x Hd Hx) as [Ho _].
  assert (Hall : forall s', In s' (bulk_selections (column s)) ->
    (exists rts, offered (differences s) u s' rts) /\ compatible s' x).
  { intros s' Hs'. split; [by apply column_offered|].
    exact (effective_compatible (differences s) _ _ _ Hs' Hx). }
  unfold handleSelectValues. destruct (bulk_selections (column s)) as [|y l] eqn:E; [done|].
  rewrite <- E in *. unfold setResolutions. cbn [resolutions].
  destruct (selections_seq (differences s) (resolutions s) (bulk_selections (column s)))
    as (D & HD & HeqD & Hw).
  unfold applyResolutionSelections. rewrite E at 1. rewrite HeqD, writes_eq, Hw by done.
  apply (choose_all_selected _ u Hd); auto.
Qed.

Lemma unselectAll_none s x :
  In x (flat_map (rowSelections u filter)
          (filteredData toLowerCase (differences s) search filter)) ->
  selectedValue (resolutions (unselectAll s)) (sel_model x) (sel_ratioType x) = None.
Proof.
  intros Hx. unfold unselectAll, handleBulkUnselect.
  set (l := flat_map _ _) in Hx.
  change (bulk_removalPlan _) with
    (fold_left (fun plan s => planRemoval plan (sel_model s) (sel_ratioType s)) l []).
  assert (H : selectedValue (fold_left remove_step (fold_left (fun plan s =>
    planRemoval plan (sel_model s) (sel_ratioType s)) l []) (resolutions s))
    (sel_model x) (sel_ratioType x) = None).
  { revert Hx. generalize l. clear. intros l. induction l as [|y l IH] using rev_ind; [done|].
    intros Hx. rewrite !fold_left_app. simpl. rewrite plan_more by apply NoDup_plan.
    apply removed_none. apply in_app_iff in Hx as [Hx|[->|[]]]; auto. }
  unfold handleUnselectValues. pose proof (NoDup_plan l) as Hn.
  destruct (fold_left (fun plan s => planRemoval plan _ _) l []) eqn:E; [done|].
  rewrite <- E in *. unfold setResolutions. cbn [resolutions]. by rewrite plan_steps.
Qed.

(** Choosing leaves the differences, and so the choices offered, as they are. *)
Lemma selectAll_differences s : differences (selectAll s) = differences s.
Proof. unfold selectAll, handleBulkSelect, handleSelectValues. by case_match. Qed.

Lemma unselectAll_differences s : differences (unselectAll s) = differences s.
Proof. unfold unselectAll, handleBulkUnselect, handleUnselectValues. by case_match. Qed.

Lemma column_count s s' :
  differences s' = differences s ->
  bulk_selections (column s') = bulk_selections (column s)
  /\ bulk_selectableCount (column s') = length (bulk_selections (column s))
  /\ bulk_selectedCount (column s')
     = length (List.filter (fun x => isSelectedResolutionValue (resolutions s')
         (sel_model x) (sel_ratioType x) (Some (sel_value x))) (bulk_selections (column s))).
Proof. intros Hs. unfold column. by rewrite Hs. Qed.

End BulkActions.

(** After "select all" on the column of an upstream every choice that the
    column offers is selected, so its checkbox is checked, and after "unselect
    all" none is; when models are distinct and numbers are finite. *)
Theorem bulk_checkbox (toLowerCase : str -> str) (search filter u : str) (s : SyncState) :
  List.NoDup (obj_keys (differences s)) -> diffs_sane (differences s) = true ->
  (let b := column toLowerCase search filter u (selectAll toLowerCase search filter u s) in
   bulk_selectedCount b = bulk_selectableCount b)
  /\ bulk_selectedCount (column toLowerCase search filter u
       (unselectAll toLowerCase search filter u s)) = 0%nat.
Proof.
  intros Hd Hs. cbv zeta.
  destruct (column_count toLowerCase search filter u s _
    (selectAll_differences toLowerCase search filter u s)) as (_ & -> & ->).
  destruct (column_count toLowerCase search filter u s _
    (unselectAll_differences toLowerCase search filter u s)) as (_ & _ & ->).
  split.
  - f_equal. apply filter_all, List.Forall_forall. intros x Hx.
    destruct (column_offered _ _ _ _ s x Hd Hx) as [[rts [Hin _ Hv Hsel _]] _].
    apply selected_sane; [by eapply upstreamOf_sane|done|by apply selectAll_selected].
  - rewrite filter_none; [done|]. apply List.Forall_forall. intros x Hx.
    destruct (column_offered _ _ _ _ s x Hd Hx) as [_ Hin].
    unfold isSelectedResolutionValue. by rewrite unselectAll_none.
Qed.

(** ** Writing the settings *)

(** [settings[option][model]]. *)
Definition setting (S : settings) (option model : str) : Datatypes.option json :=
  match obj_get option S with Some o => obj_get model o | None => None end.

(** The options as the screen holds them: ten objects. *)
Definition as_json (S : settings) : list (str * json) :=
  map (fun kv => (fst kv, JObj (snd kv))) S.

(** What is stored for a chosen value. *)
Definition stored (rt : str) (v : value) : json :=
  if mem_str rt NUMERIC_SYNC_FIELDS then JNum (value_Number v) else value_json v.

Definition known (rt : str) : Prop := mem_str rt SYNC_FIELD_ORDER = true.

(** A fact about all fields, by computation. *)
Lemma known_ind (p : str -> bool) :
  forallb p SYNC_FIELD_ORDER = true -> forall rt, known rt -> p rt = true.
Proof.
  intros Hp rt Hk. rewrite forallb_forall in Hp. apply Hp, list_elem_of_In, mem_str_true, Hk.
Qed.

Lemma option_key_inj rt rt' :
  known rt -> known rt' -> optionKeyBySyncField rt = optionKeyBySyncField rt' -> rt = rt'.
Proof.
  intros Hk Hk' Heq.
  pose proof (known_ind (fun a => forallb (fun b =>
    implb (optionKeyBySyncField a =?s optionKeyBySyncField b) (a =?s b)) SYNC_FIELD_ORDER)
    eq_refl rt Hk) as H.
  apply (fun H => known_ind _ H rt' Hk') in H.
  rewrite Heq, str_eqb_refl in H. by apply str_eqb_eq.
Qed.

(** Every field has its option, and the options of ratios are those of the
    fields of ratios. *)
Lemma option_key_facts rt :
  known rt ->
  mem_str (optionKeyBySyncField rt) OPTION_KEYS = true
  /\ mem_str (optionKeyBySyncField rt) RATIO_OPTIONS = category_eqb (getBillingCategory rt) ratio
  /\ mem_str (optionKeyBySyncField rt) [PRICE_OPTION]
     = category_eqb (getBillingCategory rt) price
  /\ mem_str rt RATIO_SYNC_FIELDS = category_eqb (getBillingCategory rt) ratio
  /\ (rt =?s model_price) = category_eqb (getBillingCategory rt) price.
Proof.
  intros Hk.
  pose proof (known_ind (fun rt =>
    mem_str (optionKeyBySyncField rt) OPTION_KEYS
    && eqb (mem_str (optionKeyBySyncField rt) RATIO_OPTIONS)
         (category_eqb (getBillingCategory rt) ratio)
    && eqb (mem_str (optionKeyBySyncField rt) [PRICE_OPTION])
         (category_eqb (getBillingCategory rt) price)
    && eqb (mem_str rt RATIO_SYNC_FIELDS) (category_eqb (getBillingCategory rt) ratio)
    && eqb (rt =?s model_price) (category_eqb (getBillingCategory rt) price))
    eq_refl rt Hk) as H.
  rewrite !andb_true_iff, !eqb_true_iff in H. tauto.
Qed.

Lemma setting_delete S m options option m' :
  setting (deleteSettings m options S) option m'
  = if mem_str option options && (m' =?s m) then None else setting S option m'.
Proof.
  unfold setting, deleteSettings. induction S as [|[k o] S IH]; simpl; [by case_match|].
  destruct (str_eqb_spec option k) as [->|Hk].
  - destruct (mem_str k options) eqn:E; simpl; rewrite str_eqb_refl; [|done].
    rewrite obj_get_delete. by destruct (m' =?s m).
  - destruct (mem_str k options); simpl; destruct (str_eqb_spec option k); done.
Qed.

Lemma keys_delete S m options : obj_keys (deleteSettings m options S) = obj_keys S.
Proof.
  unfold deleteSettings, obj_keys. induction S as [|[k o] S IH]; simpl; [done|].
  rewrite IH. by destruct (mem_str k options).
Qed.

Lemma put_setting S option m v :
  In option (obj_keys S) ->
  exists S', putSetting option m v S = Ok S' /\ obj_keys S' = obj_keys S
    /\ forall option' m', setting S' option' m'
       = if (option' =?s option) && (m' =?s m) then Some v else setting S option' m'.
Proof.
  intros Hin. unfold putSetting. destruct (obj_get option S) as [o|] eqn:E.
  2: by apply obj_get_None in E.
  eexists. split; [done|]. split; [apply keys_update|]. intros option' m'.
  unfold setting. rewrite obj_get_update_any, E.
  destruct (str_eqb_spec option' option) as [->|]; simpl; [|done].
  by rewrite obj_get_set, E.
Qed.

Section Sync.
Context (S0 : settings) (HS0 : obj_keys S0 = OPTION_KEYS).

Lemma put_fields m (ratios : resolution) S :
  obj_keys S = OPTION_KEYS -> List.NoDup (obj_keys ratios) ->
  Forall (fun kv => known (fst kv)) ratios ->
  exists S', fold_left (putResolution m) ratios (Ok S) = Ok S' /\ obj_keys S' = OPTION_KEYS
    /\ forall rt m', known rt -> setting S' (optionKeyBySyncField rt) m'
       = if m' =?s m then
           match obj_get rt ratios with
           | Some v => Some (stored rt v)
           | None => setting S (optionKeyBySyncField rt) m'
           end
         else setting S (optionKeyBySyncField rt) m'.
Proof.
  revert S. induction ratios as [|[k v] ratios IH]; intros S HS Hn Hk.
  { exists S. split; [done|]. split; [done|]. intros rt m' _. by destruct (m' =?s m). }
  inversion_clear Hk as [|? ? Hkk Hkr]. cbn [fst] in Hkk.
  simpl in Hn. inversion_clear Hn as [|? ? Hni Hn'].
  destruct (put_setting S (optionKeyBySyncField k) m (stored k v)) as (S1 & HS1 & HkS1 & Hg1).
  { rewrite HS. apply list_elem_of_In, mem_str_true, option_key_facts, Hkk. }
  cbn [fold_left]. unfold putResolution at 2. cbn [res_bind].
  fold (stored k v). rewrite HS1. rewrite HS in HkS1.
  destruct (IH S1 HkS1 Hn' Hkr) as (S' & HS' & HkS' & Hg'). exists S'.
  split; [done|]. split; [done|]. intros rt m' Hrt. rewrite (Hg' rt m' Hrt), Hg1. simpl.
  destruct (str_eqb_spec rt k) as [->|Hne].
  - rewrite str_eqb_refl. rewrite (proj2 (obj_get_None k ratios)) by done.
    by destruct (m' =?s m).
  - replace (optionKeyBySyncField rt =?s optionKeyBySyncField k) with false; [done|].
    symmetry. apply str_eqb_neq. intros He. by apply Hne, option_key_inj.
Qed.

(** The choices of a model drop its settings of the other way to bill. *)
Definition drops (o : resolution) (rt : str) : bool :=
  match getBillingCategory rt with
  | ratio => mem_str model_price (obj_keys o)
  | price => existsb (fun k => category_eqb (getBillingCategory k) ratio) (obj_keys o)
  | tiered => false
  end.

(** The setting of a field after a sync. *)
Definition synced (r : ResolutionsMap) (S : settings) (rt m : str) : option json :=
  match obj_get m r with
  | Some o =>
      match obj_get rt o with
      | Some v => Some (stored rt v)
      | None => if drops o rt then None else setting S (optionKeyBySyncField rt) m
      end
  | None => setting S (optionKeyBySyncField rt) m
  end.

Lemma existsb_ratio (o : resolution) :
  Forall (fun kv => known (fst kv)) o ->
  existsb (fun rt => mem_str rt RATIO_SYNC_FIELDS) (obj_keys o)
  = existsb (fun k => category_eqb (getBillingCategory k) ratio) (obj_keys o).
Proof.
  induction 1 as [|[k v] o Hk Ho IH]; [done|]. unfold obj_keys in *. cbn [map fst existsb].
  rewrite IH. by destruct (option_key_facts k Hk) as (_ & _ & _ & -> & _).
Qed.

Lemma sync_model m (o : resolution) S :
  obj_keys S = OPTION_KEYS -> List.NoDup (obj_keys o) ->
  Forall (fun kv => known (fst kv)) o ->
  exists S', syncModel (Ok S) (m, o) = Ok S' /\ obj_keys S' = OPTION_KEYS
    /\ forall rt m', known rt -> setting S' (optionKeyBySyncField rt) m' = synced [(m, o)] S rt m'.
Proof.
  intros HS Hn Hk. cbv beta iota zeta delta [syncModel res_bind]. rewrite existsb_ratio by done.
  set (P := mem_str model_price (obj_keys o)). set (R := existsb _ (obj_keys o)).
  set (S1 := if P then deleteSettings m RATIO_OPTIONS S else S).
  set (S2 := if R then deleteSettings m [PRICE_OPTION] S1 else S1).
  destruct (put_fields m o S2) as (S' & HS' & HkS' & Hg'); [|done..|].
  { subst S2 S1. destruct R, P; by rewrite ?keys_delete. }
  exists S'. split; [done|]. split; [done|]. intros rt m' Hrt. rewrite (Hg' rt m' Hrt).
  unfold synced. simpl.
  assert (Hg2 : setting S2 (optionKeyBySyncField rt) m'
    = if drops o rt && (m' =?s m) then None else setting S (optionKeyBySyncField rt) m').
  { destruct (option_key_facts rt Hrt) as (_ & HR & HP & _ & _).
    subst S2 S1. unfold drops. fold P R.
    destruct (getBillingCategory rt); cbn [category_eqb] in HR, HP;
      destruct R, P; rewrite ?setting_delete, ?HR, ?HP; cbn [andb]; try done;
      by destruct (m' =?s m). }
  destruct (str_eqb_spec m' m) as [->|]; rewrite Hg2;
    [by destruct (obj_get rt o), (drops o rt)|by rewrite andb_false_r].
Qed.

Lemma sync_all (r : ResolutionsMap) S :
  obj_keys S = OPTION_KEYS -> List.NoDup (obj_keys r) ->
  Forall (fun kv => List.NoDup (obj_keys (snd kv)) /\ Forall (fun f => known (fst f)) (snd kv)) r ->
  exists S', fold_left syncModel r (Ok S) = Ok S' /\ obj_keys S' = OPTION_KEYS
    /\ forall rt m, known rt -> setting S' (optionKeyBySyncField rt) m = synced r S rt m.
Proof.
  revert S. induction r as [|[m o] r IH]; intros S HS Hn Hr; [by exists S|].
  inversion_clear Hr as [|? ? [Hno Hko] Hr']. simpl in Hn. inversion_clear Hn as [|? ? Hm Hn'].
  destruct (sync_model m o S HS Hno Hko) as (S1 & HS1 & Hk1 & Hg1).
  cbn [fold_left]. rewrite HS1.
  destruct (IH S1 Hk1 Hn' Hr') as (S' & HS' & Hk' & Hg'). exists S'.
  split; [done|]. split; [done|]. intros rt m' Hrt. rewrite (Hg' rt m' Hrt).
  unfold synced. simpl. rewrite (Hg1 rt m' Hrt). unfold synced. simpl.
  destruct (str_eqb_spec m' m) as [->|]; [|by destruct (obj_get m' r)].
  by rewrite (proj2 (obj_get_None m r)).
Qed.

End Sync.

(** The choices concern fields that the options have. *)
Definition fields_known (r : ResolutionsMap) : Prop :=
  Forall (fun kv => Forall (fun f => known (fst f)) (snd kv)) r.

Lemma final_settings (S : settings) (r : ResolutionsMap) :
  obj_keys S = OPTION_KEYS -> choices_ok r -> fields_known r ->
  exists S', finalRatios r (as_json S) = Ok S'
    /\ forall rt m, known rt -> setting S' (optionKeyBySyncField rt) m = synced r S rt m.
Proof.
  intros HS [Hn Hc] Hk. unfold finalRatios, as_json. rewrite map_map. cbn [fst snd spread].
  replace (map (fun x => (fst x, snd x)) S) with S
    by (symmetry; rewrite <- (map_id S) at 2; apply map_ext; by intros []).
  destruct (sync_all r S HS Hn) as (S' & HS' & _ & Hg).
  - unfold fields_known in Hk. rewrite Forall_forall in Hc, Hk |- *. intros kv Hkv.
    split; [by destruct (Hc kv Hkv)|by apply Hk].
  - by exists S'.
Qed.

(** C32: a sync writes exactly the choices: a chosen field gets its value (as a
    number for ratios and prices), a fixed price clears the ratios of its model
    and a ratio clears its price, and every other setting of every model stays. *)
Theorem sync_writes (S : settings) (r : ResolutionsMap) :
  obj_keys S = OPTION_KEYS -> choices_ok r -> fields_known r ->
  exists S', performSync r (as_json S)
      = Ok (map (fun kv => (fst kv, stringify_indent [] (JObj (snd kv)))) S')
    /\ (forall rt m, known rt -> setting S' (optionKeyBySyncField rt) m = synced r S rt m)
    /\ (forall m o rt rt', obj_get m r = Some o -> has rt o -> known rt -> known rt' ->
          getBillingCategory rt <> tiered -> getBillingCategory rt' <> tiered ->
          getBillingCategory rt' <> getBillingCategory rt ->
          setting S' (optionKeyBySyncField rt') m = None).
Proof.
  intros HS Hc Hk. destruct (final_settings S r HS Hc Hk) as (S' & HS' & Hg).
  exists S'. unfold performSync. rewrite HS'. split; [done|]. split; [done|].
  intros m o rt rt' Hm Hrt Hkr Hkr' Ht Ht' Hne. rewrite Hg by done. unfold synced. rewrite Hm.
  destruct (choices_get r m Hc) as [H|[_ _ Hx _]]; rewrite Hm in *; cbn in *.
  { subst o. by destruct Hrt. }
  assert (Hin : In rt (obj_keys o)) by by apply has_keys.
  destruct (option_key_facts rt Hkr) as (_ & _ & _ & _ & Hp).
  destruct (option_key_facts rt' Hkr') as (_ & _ & _ & _ & Hp').
  unfold drops. destruct (getBillingCategory rt) eqn:E, (getBillingCategory rt') eqn:E'; try done.
  - apply str_eqb_eq in Hp. subst rt.
    replace (mem_str model_price (obj_keys o)) with true
      by (symmetry; by apply mem_str_true, list_elem_of_In).
    destruct (obj_get rt' o) eqn:Eo; [|done]. exfalso. apply (Hx rt'); [done| |done]. by eexists.
  - apply str_eqb_eq in Hp'. subst rt'.
    replace (existsb _ (obj_keys o)) with true
      by (symmetry; apply existsb_exists; exists rt; by rewrite E).
    destruct (obj_get model_price o) eqn:Eo; [|done]. exfalso. apply (Hx rt); [|done|done].
    by eexists.
Qed.

(** ** The question before a change of the way to bill *)

Lemma settingOf_json (S : settings) opt m :
  In opt (obj_keys S) -> settingOf (as_json S) opt m = Ok (setting S opt m).
Proof.
  unfold settingOf, as_json, setting. induction S as [|[k o] S IH]; simpl; [done|].
  rewrite (str_eqb_sym opt k). destruct (str_eqb_spec k opt) as [->|Hk]; [done|].
  intros [?|H]; [done|]. by apply IH.
Qed.

Lemma anySetting_json (S : settings) m opts :
  (forall o, In o opts -> In o (obj_keys S)) ->
  exists b, anySetting (as_json S) m opts = Ok b
    /\ (b = true <-> exists o, In o opts /\ is_Some (setting S o m)).
Proof.
  induction opts as [|o opts IH]; intros Ho; simpl.
  { exists false. split; [done|]. split; [done|by intros (? & [] & _)]. }
  rewrite settingOf_json by (apply Ho; by left). simpl.
  destruct (setting S o m) as [v|] eqn:E.
  { exists true. split; [done|]. split; [|done]. intros _. exists o. rewrite E. eauto. }
  destruct IH as (b & -> & Hb); [intros; apply Ho; by right|].
  exists b. split; [done|]. rewrite Hb. split; intros (x & Hx & Hs); exists x; [tauto|].
  destruct Hx as [<-|Hx]; [|done]. rewrite E in Hs. by destruct Hs.
Qed.

Lemma option_of_ratio rt :
  known rt -> getBillingCategory rt = ratio -> In (optionKeyBySyncField rt) RATIO_OPTIONS.
Proof.
  intros Hk Hr. destruct (option_key_facts rt Hk) as (_ & H & _). rewrite Hr in H.
  by apply list_elem_of_In, mem_str_true.
Qed.

Lemma option_of_price rt :
  known rt -> getBillingCategory rt = price -> optionKeyBySyncField rt = PRICE_OPTION.
Proof.
  intros Hk Hr. destruct (option_key_facts rt Hk) as (_ & _ & H & _). rewrite Hr in H.
  apply mem_str_true, list_elem_of_singleton in H. done.
Qed.

(** The category of a model before a sync. *)
Lemma local_category (S : settings) m :
  obj_keys S = OPTION_KEYS ->
  exists l, getLocalBillingCategory m (as_json S) = Ok l
    /\ (l = Some price <-> is_Some (setting S PRICE_OPTION m))
    /\ (forall o, In o RATIO_OPTIONS -> is_Some (setting S o m) ->
        ~ is_Some (setting S PRICE_OPTION m) -> l = Some ratio).
Proof.
  intros HS. unfold getLocalBillingCategory.
  rewrite settingOf_json by (rewrite HS; vm_compute; tauto). cbn [res_bind].
  destruct (setting S PRICE_OPTION m) as [p|] eqn:Ep.
  { exists (Some price). split; [done|]. split; [by split; eauto|]. intros o _ _ []. eauto. }
  destruct (anySetting_json S m RATIO_OPTIONS) as (b & -> & Hb).
  { rewrite HS. intros o Ho. apply in_app_iff. by left. }
  exists (if b then Some ratio else None). split; [done|]. split.
  - split; [by destruct b|by intros []].
  - intros o Ho Hs _. rewrite (proj2 Hb); [done|]. eauto.
Qed.

(** A model that is not asked about keeps its category. *)
Lemma no_conflict t d (S : settings) m o :
  obj_keys S = OPTION_KEYS -> conflictOf t d (as_json S) (m, o) = Ok None ->
  exists l, getLocalBillingCategory m (as_json S) = Ok l
    /\ (l = None \/ newCategory o = tiered \/ l = Some (newCategory o)).
Proof.
  intros HS Hc. destruct (local_category S m HS) as (l & Hl & _). exists l. split; [done|].
  unfold conflictOf in Hc. rewrite Hl in Hc. cbn [res_bind] in Hc.
  destruct l as [l|]; [right|by left].
  destruct (category_eqb_spec (newCategory o) tiered) as [|Ht]; [by left|right].
  destruct (category_eqb_spec l (newCategory o)) as [Heq|Hne]; [by rewrite Heq|exfalso].
  cbn [negb andb] in Hc. apply res_bind_Ok in Hc as (a & _ & Ha). done.
Qed.

Lemma res_map_Ok {A B} (f : A -> res B) (l : list A) (l' : list B) :
  res_map f l = Ok l' -> Forall2 (fun x y => f x = Ok y) l l'.
Proof.
  revert l'. induction l as [|x l IH]; intros l'; simpl; [by intros [= <-]|].
  intros (y & Hy & H)%res_bind_Ok. apply res_bind_Ok in H as (ys & Hys & [= <-]).
  constructor; [done|]. by apply IH.
Qed.

Lemma unasked_conflicts t d r cur u :
  handleApplySync t d r cur = Ok (SendUpdates u) ->
  performSync r cur = Ok u /\ Forall (fun e => conflictOf t d cur e = Ok None) r.
Proof.
  intros (found & Hf%res_map_Ok & H)%res_bind_Ok.
  destruct (omap id found) as [|] eqn:E; [|done].
  apply res_bind_Ok in H as (u' & Hu & [= ->]). split; [done|]. clear Hu.
  induction Hf as [|x y l l' Hx Hl IH]; [constructor|].
  destruct y; [done|]. constructor; [done|]. by apply IH.
Qed.

(** The choices of a ratio are not those of a price. *)
Lemma newCategory_ratio o :
  consistent o -> Forall (fun f => known (fst f)) o -> drops o model_price = true ->
  newCategory o = ratio.
Proof.
  intros [_ _ Hx _] Hk Hd. apply existsb_exists in Hd as (k & Hin & Hr).
  destruct (category_eqb_spec (getBillingCategory k) ratio) as [Hc|]; [|done].
  assert (Hkk : known k).
  { rewrite List.Forall_forall in Hk. apply in_map_iff in Hin as (f & <- & Hf). by apply Hk. }
  unfold newCategory. destruct (mem_str model_price (obj_keys o)) eqn:Ep.
  { apply has_mem in Ep. apply has_keys in Hin. by destruct (Hx k Ep Hin). }
  replace (existsb _ RATIO_SYNC_FIELDS) with true; [done|]. symmetry. apply existsb_exists.
  destruct (option_key_facts k Hkk) as (_ & _ & _ & H & _). rewrite Hc in H. exists k.
  split; [by apply list_elem_of_In, mem_str_true|by apply mem_str_true, list_elem_of_In].
Qed.

Lemma newCategory_price o : mem_str model_price (obj_keys o) = true -> newCategory o = price.
Proof. intros H. unfold newCategory. by rewrite H. Qed.

Lemma choices_entry r m o : choices_ok r -> obj_get m r = Some o -> consistent o.
Proof.
  intros [_ Hr] Hm. rewrite List.Forall_forall in Hr. apply obj_get_In in Hm. exact (Hr _ Hm).
Qed.

(** A sync that does not ask first removes nothing that a model is billed
    by: every setting it removes is a ratio of a model that has a fixed price,
    before and after. *)
Theorem unasked_sync_keeps_billing (t : str -> str) (d : DifferencesMap) (S : settings)
    (r : ResolutionsMap) (u : list (str * str)) :
  obj_keys S = OPTION_KEYS -> choices_ok r -> fields_known r ->
  handleApplySync t d r (as_json S) = Ok (SendUpdates u) ->
  exists S', finalRatios r (as_json S) = Ok S'
    /\ forall rt m, known rt -> is_Some (setting S (optionKeyBySyncField rt) m) ->
       setting S' (optionKeyBySyncField rt) m = None ->
       getBillingCategory rt = ratio /\ is_Some (setting S PRICE_OPTION m)
       /\ is_Some (setting S' PRICE_OPTION m).
Proof.
  intros HS Hc Hk (_ & Hq)%unasked_conflicts.
  destruct (final_settings S r HS Hc Hk) as (S' & HS' & Hg). exists S'. split; [done|].
  intros rt m Hrt Hs Hn. rewrite Hg in Hn by done. unfold synced in Hn.
  destruct (obj_get m r) as [o|] eqn:Em; [|by rewrite Hn in Hs; destruct Hs].
  destruct (obj_get rt o) eqn:Eo; [done|].
  destruct (drops o rt) eqn:Ed; [|by rewrite Hn in Hs; destruct Hs].
  assert (Hin : In (m, o) r) by by apply obj_get_In.
  rewrite List.Forall_forall in Hq. destruct (no_conflict t d S m o HS (Hq _ Hin)) as (l & Hl & Hor).
  destruct (local_category S m HS) as (l' & Hl' & Hprice & Hratio).
  rewrite Hl in Hl'. injection Hl' as <-.
  pose proof (Hg model_price m eq_refl) as Hgp. unfold synced in Hgp. rewrite Em in Hgp.
  unfold drops in Ed. destruct (getBillingCategory rt) eqn:Ec; [| |done].
  - exfalso. rewrite option_of_price in Hs by done. apply Hprice in Hs. subst l.
    assert (Hkn : Forall (fun f => known (fst f)) o).
    { unfold fields_known in Hk. rewrite List.Forall_forall in Hk. exact (Hk _ Hin). }
    rewrite (newCategory_ratio o (choices_entry r m o Hc Em) Hkn Ed) in Hor. naive_solver.
  - split; [done|]. rewrite (newCategory_price o Ed) in Hor.
    assert (Hp : is_Some (setting S PRICE_OPTION m)).
    { destruct (setting S PRICE_OPTION m) eqn:Ep; [by eexists|]. exfalso.
      assert (l = Some ratio) as ->.
      { apply (Hratio (optionKeyBySyncField rt)); [by apply option_of_ratio|done|by intros []]. }
      naive_solver. }
    split; [done|]. change PRICE_OPTION with (optionKeyBySyncField model_price). rewrite Hgp.
    apply has_mem in Ed as [v ->]. by eexists.
Qed.

(** ** Instances *)

Definition num1 : num := num_of_Z 1.
Definition num3 : num := num_of_Z 3.

(** One model with a price and a ratio upstream, one billed by expression. *)
Definition sample_diffs : DifferencesMap :=
  [(js "gpt", [(model_ratio, MkDifference (Some (VNum num1)) [(js "up", Some (VNum num3))] []);
               (model_price, MkDifference None [(js "up", Some (VNum num3)); (js "other", Some same)] [])]);
   (js "tiered", [(billing_expr, MkDifference None [(js "up", Some (VStr (js "p * 2")))] [])])].

Definition sample_state : SyncState :=
  handleSelectValue "gpt" model_price (VNum num3) "up" (fetchSucceeded true sample_diffs initialSync).

(** The model is billed by its ratio. *)
Definition sample_settings : settings :=
  map (fun k => (k, if k =?s "ModelRatio" then [(js "gpt", JNum num1)] else [])) OPTION_KEYS.

Definition sample_choices : ResolutionsMap := [(js "gpt", [(model_ratio, VNum num3)])].

Lemma sample_choices_ok : choices_ok sample_choices.
Proof.
  apply (choices_select [] sample_diffs
    (MkSelection (js "gpt") model_ratio (VNum num3) (js "up"))).
  - apply choices_nil.
  - apply has_mem. reflexivity.
Qed.

Lemma sample_known : fields_known sample_choices.
Proof. repeat constructor. Qed.

Lemma choices_consistent_always_witness :
  obj_get "gpt" (resolutions sample_state) = Some [(model_price, VNum num3)]
  /\ ~ (has model_price [(model_price, VNum num3)] /\
        exists k, has k [(model_price, VNum num3)] /\ getBillingCategory k = ratio).
Proof.
  split; [vm_compute; reflexivity|].
  refine (proj1 (proj2 (choices_consistent_always id id sample_state "gpt" _ _ _)));
    [|vm_compute; reflexivity].
  eapply rtc_l; [apply (step_fetched _ _ _ true sample_diffs)|].
  eapply rtc_l; [|apply rtc_refl].
  apply (step_select id id _ (MkModelRow (js "gpt") (js "gpt") (nullish (obj_get "gpt" sample_diffs) []) true)
           model_price "up" (VNum num3)).
  - left. vm_compute. reflexivity.
  - vm_compute. reflexivity.
  - vm_compute. reflexivity.
Defined.

Lemma bulk_checkbox_witness :
  bulk_selectedCount (column id [] [] "up" (selectAll id [] [] "up" sample_state)) = 2%nat
  /\ bulk_selectedCount (column id [] [] "up" (unselectAll id [] [] "up" sample_state)) = 0%nat.
Proof.
  destruct (bulk_checkbox id [] [] "up" sample_state) as [H1 H2].
  - apply NoDup_ListNoDup. by apply (bool_decide_unpack _).
  - vm_compute. reflexivity.
  - split; [rewrite H1; vm_compute; reflexivity|exact H2].
Defined.

Lemma sync_writes_witness :
  exists S', performSync sample_choices (as_json sample_settings)
      = Ok (map (fun kv => (fst kv, stringify_indent [] (JObj (snd kv)))) S')
    /\ setting S' "ModelRatio" "gpt" = Some (JNum num3).
Proof.
  destruct (sync_writes sample_settings sample_choices) as (S' & H & Hg & _).
  - vm_compute. reflexivity.
  - exact sample_choices_ok.
  - exact sample_known.
  - exists S'. split; [exact H|]. transitivity (synced sample_choices sample_settings model_ratio "gpt");
      [exact (Hg model_ratio "gpt" eq_refl)|vm_compute; reflexivity].
Defined.

Lemma unasked_sync_keeps_billing_witness :
  exists u S', handleApplySync id sample_diffs sample_choices (as_json sample_settings)
      = Ok (SendUpdates u)
    /\ finalRatios sample_choices (as_json sample_settings) = Ok S'
    /\ setting S' "ModelRatio" "gpt" <> None.
Proof.
  destruct (handleApplySync id sample_diffs sample_choices (as_json sample_settings))
    as [[|u]|] eqn:E; [vm_compute in E; discriminate E| |vm_compute in E; discriminate E].
  destruct (unasked_sync_keeps_billing id sample_diffs sample_settings sample_choices u)
    as (S' & H & Hg).
  - vm_compute. reflexivity.
  - exact sample_choices_ok.
  - exact sample_known.
  - exact E.
  - exists u, S'. split; [reflexivity|]. split; [exact H|]. intros Hn.
    destruct (Hg model_ratio "gpt" eq_refl) as (_ & [p Hp] & _).
    + vm_compute. by eexists.
    + exact Hn.
    + vm_compute in Hp. discriminate Hp.
Defined.
