(* ===== verification/StatusCodes.v ===== *)
(** * Status-code rules

    - [Rules] models [src/web/src/lib/http-status-code-rules.ts]: the parser
      of the comma-separated lists of status codes and ranges that decide when
      a channel is disabled or a request retried, and the merging of ranges.
    - [RiskGuard] models
      [src/web/src/features/channels/lib/status-code-risk-guard.ts]: the check
      of a channel's status-code mapping for malformed and disallowed entries.

    The theorems show that merging ranges keeps exactly the covered codes and
    yields separated ranges in increasing order, that the parser accepts only
    codes in [100, 599], and that its normalized output parses to itself. *)

From stdpp Require Import base list.
From Stdlib Require Import ZArith NArith Lia SpecFloat.
From S2P Require Import Prelude JsString JsArray JsNumber JsRegex JsJson.

Local Open Scope Z_scope.

Module Rules.

Record StatusCodeRange : Type := Range { start : Z; end_ : Z }.

Record ParsedHttpStatusCodeRules : Type := {
  ok : bool;
  ranges : list StatusCodeRange;
  tokens : list str;
  normalized : str;
  invalidTokens : list str;
}.

(** [/^\d+$/.test(s)]. *)
Definition isNumber (s : str) : bool :=
  test (Bol · Plus (Cls c_digit) · Eol) s.

Definition isValidCode (code : Z) : bool := (100 <=? code) && (code <=? 599).

(** The elements [0] and [1] of [cleaned.split('-')]; a missing element is
    [undefined], which [isNumber] refuses. *)
Definition parseToken (token : str) : option StatusCodeRange :=
  let cleaned := replace_class is_ws [] (trim token) in
  match cleaned with
  | [] => None
  | _ =>
      if includes cleaned "-" then
        match split_char "-"%char cleaned with
        | a :: b :: _ =>
            if negb (isNumber a) || negb (isNumber b) then None
            else
              match parseInt10 a, parseInt10 b with
              | Some start, Some end_ =>
                  if negb (isValidCode start) || negb (isValidCode end_)
                     || (end_ <? start)
                  then None else Some (Range start end_)
              | _, _ => None
              end
        | _ => None
        end
      else if negb (isNumber cleaned) then None
      else
        match parseInt10 cleaned with
        | Some code =>
            if negb (isValidCode code) then None else Some (Range code code)
        | None => None
        end
  end.

Definition compareRanges (a b : StatusCodeRange) : Z :=
  if negb (start a =? start b) then start a - start b else end_ a - end_ b.

(** One step of the [reduce]: [last] is the last range of [merged], which is
    kept reversed here; extending it replaces its end. *)
Definition mergeStep (merged : list StatusCodeRange)
    (current : StatusCodeRange) : list StatusCodeRange :=
  match merged with
  | [] => [current]
  | last :: merged' =>
      if end_ last + 1 <? start current then current :: merged
      else Range (start last) (Z.max (end_ last) (end_ current)) :: merged'
  end.

Definition mergeRanges (rs : list StatusCodeRange) : list StatusCodeRange :=
  match rs with
  | [] => []
  | _ => rev (fold_left mergeStep (sort_by compareRanges rs) [])
  end.

Definition rangeToken (r : StatusCodeRange) : str :=
  if start r =? end_ r then string_of_Z (start r)
  else string_of_Z (start r) ++ "-" ++ string_of_Z (end_ r).

(** The full-width comma U+FF0C. *)
Definition fullwidthComma (c : N) : bool := (c =? 65292)%N.

(** [(input ?? '').toString()] is a string here: the callers pass form
    values, [None] stands for [null] and [undefined]. *)
Definition parseHttpStatusCodeRules (input : option str)
    : ParsedHttpStatusCodeRules :=
  let raw := trim (nullish input []) in
  match raw with
  | [] => {| ok := true; ranges := []; tokens := []; normalized := [];
             invalidTokens := [] |}
  | _ =>
      let sanitized := replace_class fullwidthComma "," raw in
      let segments :=
        filter_truthy (map trim (split_char ","%char sanitized)) in
      let parsed := map (fun s => (s, parseToken s)) segments in
      let ranges := omap snd parsed in
      let invalid :=
        omap (fun sp => match snd sp with
                        | None => Some (fst sp)
                        | Some _ => None
                        end) parsed in
      match invalid with
      | _ :: _ =>
          {| ok := false; ranges := []; tokens := []; normalized := raw;
             invalidTokens := invalid |}
      | [] =>
          let merged := mergeRanges ranges in
          let tokens := map rangeToken merged in
          {| ok := true; ranges := merged; tokens := tokens;
             normalized := str_join "," tokens; invalidTokens := [] |}
      end
  end.

(** ** The set of codes that a list of ranges covers *)

Definition in_range (r : StatusCodeRange) (c : Z) : Prop :=
  start r <= c <= end_ r.

Definition covers (rs : list StatusCodeRange) (c : Z) : Prop :=
  Exists (fun r => in_range r c) rs.

Definition wf_range (r : StatusCodeRange) : Prop :=
  100 <= start r /\ start r <= end_ r /\ end_ r <= 599.

(** Consecutive ranges are separated by at least one code. *)
Definition separated (a b : StatusCodeRange) : Prop := end_ a + 1 < start b.

#[export] Instance compareRanges_comparator : Comparator compareRanges.
Proof.
  split; unfold compareRanges.
  - intros x y. destruct (Z.eqb_spec (start x) (start y)),
      (Z.eqb_spec (start y) (start x)); simpl; lia.
  - intros x y z. destruct (Z.eqb_spec (start x) (start y)),
      (Z.eqb_spec (start y) (start z)), (Z.eqb_spec (start x) (start z));
      simpl; lia.
Qed.

(** *** Merging *)

Lemma covers_cons (r : StatusCodeRange) (rs : list StatusCodeRange) (c : Z) :
  covers (r :: rs) c <-> in_range r c \/ covers rs c.
Proof. apply Exists_cons. Qed.

Lemma covers_perm (rs rs' : list StatusCodeRange) (c : Z) :
  rs ≡ₚ rs' -> covers rs c <-> covers rs' c.
Proof. intros Hp. unfold covers. by rewrite Hp. Qed.

Lemma covers_rev (rs : list StatusCodeRange) (c : Z) :
  covers (rev rs) c <-> covers rs c.
Proof. apply covers_perm. symmetry. apply Permutation_rev. Qed.

(** What holds of the reversed accumulator of [mergeRanges] before the ranges
    of [rest] are added: well-formed, separated, and not past [rest]. *)
Record merge_inv (acc rest : list StatusCodeRange) : Prop := {
  mi_wf : Forall wf_range acc;
  mi_sep : Sorted (fun a b => separated b a) acc;
  mi_le : forall last, head acc = Some last ->
          Forall (fun r => start last <= start r) rest;
}.

Lemma mergeStep_inv (acc rest : list StatusCodeRange) (r : StatusCodeRange) :
  wf_range r -> Forall (fun r' => start r <= start r') rest ->
  merge_inv acc (r :: rest) -> merge_inv (mergeStep acc r) rest.
Proof.
  intros Hr Hrest [Hwf Hsep Hle]. destruct acc as [|a acc]; simpl.
  { split; [by constructor|by repeat constructor|]. by intros ? [= <-]. }
  specialize (Hle a eq_refl). inversion Hle as [|? ? Hle1 Hle2]; subst.
  inversion Hwf as [|? ? Ha Hacc]; subst. unfold wf_range in *.
  destruct (Z.ltb_spec (end_ a + 1) (start r)); split.
  - by constructor.
  - constructor; [done|]. by constructor.
  - by intros ? [= <-].
  - constructor; [unfold wf_range; simpl; lia|done].
  - apply Sorted_inv in Hsep as [Hsep Hhd]. constructor; [done|].
    destruct acc; constructor. by inversion Hhd.
  - by intros ? [= <-].
Qed.

Lemma mergeStep_covers (acc rest : list StatusCodeRange)
    (r : StatusCodeRange) (c : Z) :
  wf_range r -> merge_inv acc (r :: rest) ->
  covers (mergeStep acc r) c <-> covers acc c \/ in_range r c.
Proof.
  intros Hr [Hwf _ Hle]. destruct acc as [|a acc]; simpl.
  { unfold covers. rewrite Exists_cons, !Exists_nil. tauto. }
  specialize (Hle a eq_refl). inversion Hle as [|? ? Hle1 Hle2]; subst.
  inversion Hwf as [|? ? Ha Hacc]; subst. unfold wf_range in *.
  destruct (Z.ltb_spec (end_ a + 1) (start r)).
  - rewrite !covers_cons. tauto.
  - rewrite !covers_cons. unfold in_range; simpl.
    assert (start a <= c <= Z.max (end_ a) (end_ r) <->
            start a <= c <= end_ a \/ start r <= c <= end_ r) by lia.
    tauto.
Qed.

Lemma fold_merge (l acc : list StatusCodeRange) :
  Forall wf_range l -> StronglySorted (fun a b => start a <= start b) l ->
  merge_inv acc l ->
  merge_inv (fold_left mergeStep l acc) [] /\
  forall c, covers (fold_left mergeStep l acc) c <-> covers acc c \/ covers l c.
Proof.
  revert acc; induction l as [|r l IH]; intros acc Hwf Hs Hinv; simpl.
  { split; [done|]. intros c. unfold covers. rewrite (Exists_nil _). tauto. }
  inversion Hwf; subst. apply StronglySorted_inv in Hs as [Hs Hr].
  destruct (IH (mergeStep acc r)) as [HI Hc]; [done..|by apply mergeStep_inv|].
  split; [done|]. intros c.
  rewrite Hc, (mergeStep_covers _ l), covers_cons by done. tauto.
Qed.

Lemma sorted_starts (rs : list StatusCodeRange) :
  StronglySorted (fun a b => start a <= start b) (sort_by compareRanges rs).
Proof.
  eapply StronglySorted_impl; [|apply sort_by_strongly_sorted; apply _].
  intros x y. simpl. unfold compareRanges.
  destruct (Z.eqb_spec (start x) (start y)); simpl; lia.
Qed.

Lemma mergeRanges_spec (rs : list StatusCodeRange) :
  Forall wf_range rs ->
  Forall wf_range (mergeRanges rs) /\ Sorted separated (mergeRanges rs) /\
  forall c, covers (mergeRanges rs) c <-> covers rs c.
Proof.
  intros Hwf. destruct (decide (rs = [])) as [->|Hne]; [by repeat constructor|].
  assert (mergeRanges rs = rev (fold_left mergeStep (sort_by compareRanges rs) []))
    as -> by (by destruct rs).
  destruct (fold_merge (sort_by compareRanges rs) []) as [[Hw Hs _] Hc].
  - by rewrite sort_by_perm.
  - apply sorted_starts.
  - by split; try constructor.
  - split_and!.
    + by rewrite <- Permutation_rev.
    + by apply Sorted_rev in Hs.
    + intros c. rewrite covers_rev, Hc.
      rewrite (covers_perm (sort_by compareRanges rs) rs) by apply sort_by_perm.
      unfold covers. rewrite (Exists_nil _). tauto.
Qed.

(** C: merging keeps the set of covered codes and leaves separated, increasing
    ranges. *)
Theorem mergeRanges_canonical (rs : list StatusCodeRange)
    (Hwf : Forall wf_range rs) :
  (forall c, covers (mergeRanges rs) c <-> covers rs c) /\
  Sorted separated (mergeRanges rs).
Proof. destruct (mergeRanges_spec rs Hwf) as (_ & Hs & Hc). done. Qed.

Lemma mergeRanges_canonical_witness :
  Sorted separated (mergeRanges [Range 500 503; Range 429 429; Range 504 599]).
Proof.
  apply (mergeRanges_canonical [Range 500 503; Range 429 429; Range 504 599]).
  repeat constructor; simpl; lia.
Defined.

(** *** Parsing *)

Lemma isNumber_spec (s : str) :
  isNumber s = true <-> s <> [] /\ forallb is_digit s = true.
Proof. apply test_all_cls. Qed.

Lemma isValidCode_spec (c : Z) : isValidCode c = true <-> 100 <= c <= 599.
Proof. unfold isValidCode. by rewrite andb_true_iff, !Z.leb_le. Qed.

(** A token is accepted only as a range inside [100, 599]. *)
Lemma parseToken_wf (t : str) (r : StatusCodeRange) :
  parseToken t = Some r -> wf_range r.
Proof.
  unfold parseToken, wf_range. destruct (replace_class _ _ _); [done|].
  destruct (includes _ _).
  - destruct (split_char _ _) as [|a [|b ?]]; [done..|].
    destruct (_ || _); [done|].
    destruct (parseInt10 a) as [x|]; [|done].
    destruct (parseInt10 b) as [y|]; [|done].
    destruct (_ || _) eqn:E; [done|]. intros [= <-]. simpl. js_simp.
    apply Z.ltb_ge in H0. rewrite isValidCode_spec in *. lia.
  - destruct (negb _); [done|]. destruct (parseInt10 _) as [x|]; [|done].
    destruct (negb _) eqn:E; [done|]. intros [= <-]. simpl. js_simp.
    rewrite isValidCode_spec in *. lia.
Qed.

Lemma digits_clean (s : str) :
  forallb is_digit s = true ->
  forallb (fun c => negb (is_ws c)) s = true.
Proof. apply forallb_impl, digit_not_ws. Qed.

(** The text of a range: digits and at most one dash. *)
Lemma rangeToken_chars (r : StatusCodeRange) :
  wf_range r ->
  let a := string_of_nonneg (start r) in
  let b := string_of_nonneg (end_ r) in
  rangeToken r = if start r =? end_ r then a else a ++ "-" ++ b.
Proof.
  unfold wf_range, rangeToken, string_of_Z. intros Hr.
  destruct (Z.ltb_spec (start r) 0), (Z.ltb_spec (end_ r) 0); try lia. done.
Qed.

Lemma rangeToken_clean (r : StatusCodeRange) :
  wf_range r ->
  rangeToken r <> [] /\
  forallb (fun c => negb (is_ws c)) (rangeToken r) = true /\
  avoids ","%char (rangeToken r) = true /\
  forallb (fun c => negb (fullwidthComma c)) (rangeToken r) = true.
Proof.
  intros Hr. rewrite rangeToken_chars by done. unfold wf_range in Hr.
  destruct (string_of_nonneg_spec (start r)) as (_ & Hna & Hda); [lia|].
  destruct (string_of_nonneg_spec (end_ r)) as (_ & Hnb & Hdb); [lia|].
  assert (forall s, forallb is_digit s = true ->
            forallb (fun c => negb (fullwidthComma c)) s = true) as Hfw.
  { intros s. apply forallb_impl. intros c Hc. by apply digit_neq. }
  destruct (start r =? end_ r).
  - split_and!; [done|by apply digits_clean|by apply digits_avoid|by apply Hfw].
  - split_and!.
    + by destruct (string_of_nonneg (start r)).
    + rewrite !forallb_app, (digits_clean _ Hda), (digits_clean _ Hdb). reflexivity.
    + unfold avoids. rewrite !forallb_app.
      change (avoids ","%char (string_of_nonneg (start r)) &&
              (true && avoids ","%char (string_of_nonneg (end_ r))) = true).
      by rewrite !digits_avoid.
    + rewrite !forallb_app, (Hfw _ Hda), (Hfw _ Hdb). reflexivity.
Qed.

Lemma includes_dash_app (a b : str) : includes (a ++ "-" ++ b) "-" = true.
Proof.
  change (js "-") with [chr "-"%char]. rewrite includes_avoids.
  apply negb_true_iff. unfold avoids. rewrite !forallb_app. simpl.
  by rewrite andb_false_r.
Qed.

(** The canonical text of a range reads back as the range. *)
Lemma parseToken_rangeToken (r : StatusCodeRange) :
  wf_range r -> parseToken (rangeToken r) = Some r.
Proof.
  intros Hr. destruct (rangeToken_clean r Hr) as (Hne & Hws & _ & _).
  unfold parseToken. rewrite trim_id by (by apply trimmed_nows).
  rewrite replace_class_id by done.
  rewrite rangeToken_chars in Hne |- * by done. unfold wf_range in Hr.
  destruct (string_of_nonneg_spec (start r)) as (_ & Hna & Hda); [lia|].
  destruct (string_of_nonneg_spec (end_ r)) as (_ & Hnb & Hdb); [lia|].
  destruct (Z.eqb_spec (start r) (end_ r)) as [He|He].
  - destruct (string_of_nonneg (start r)) eqn:E; [done|]. rewrite <- E in *.
    change (js "-") with [chr "-"%char].
    rewrite includes_avoids, digits_avoid by done. simpl negb.
    rewrite (proj2 (isNumber_spec _)), parseInt10_string_of_nonneg by (done || lia).
    simpl. rewrite (proj2 (isValidCode_spec _)) by lia.
    destruct r; simpl in *; by subst.
  - destruct (string_of_nonneg (start r) ++ _) eqn:E; [done|]. rewrite <- E in *.
    rewrite includes_dash_app.
    change ((string_of_nonneg (start r) ++ "-" ++ string_of_nonneg (end_ r)))
      with (string_of_nonneg (start r) ++ chr "-"%char :: string_of_nonneg (end_ r)).
    rewrite split_char_cons, split_char_nosep by (by apply digits_avoid).
    rewrite !(proj2 (isNumber_spec _)), !parseInt10_string_of_nonneg by (done || lia).
    simpl. rewrite !(proj2 (isValidCode_spec _)) by lia. simpl.
    destruct (Z.ltb_spec (end_ r) (start r)); [lia|]. by destruct r.
Qed.

(** C: a token with a second dash is accepted and everything after it is
    dropped: [100-200-x] parses as the range 100 to 200. *)
Theorem parseToken_drops_tail (r : StatusCodeRange) (tail : str)
    (Hr : wf_range r)
    (Htail : forallb (fun c => negb (is_ws c)) tail = true) :
  parseToken (string_of_nonneg (start r) ++ "-"
                ++ string_of_nonneg (end_ r) ++ "-" ++ tail) = Some r.
Proof.
  unfold wf_range in Hr.
  destruct (string_of_nonneg_spec (start r)) as (_ & Hna & Hda); [lia|].
  destruct (string_of_nonneg_spec (end_ r)) as (_ & Hnb & Hdb); [lia|].
  set (t := string_of_nonneg (start r) ++ _).
  assert (forallb (fun c => negb (is_ws c)) t = true) as Hws.
  { unfold t. rewrite !forallb_app, (digits_clean _ Hda), (digits_clean _ Hdb),
      Htail. reflexivity. }
  unfold parseToken. rewrite trim_id by (by apply trimmed_nows).
  rewrite replace_class_id by done.
  destruct t eqn:E; [by destruct (string_of_nonneg (start r))|].
  rewrite <- E. unfold t at 1. rewrite includes_dash_app. unfold t.
  change (js "-" ++ string_of_nonneg (end_ r) ++ "-" ++ tail)
    with (chr "-"%char :: string_of_nonneg (end_ r) ++ chr "-"%char :: tail).
  rewrite !split_char_cons by (by apply digits_avoid).
  rewrite (proj2 (isNumber_spec _)) by done.
  rewrite (proj2 (isNumber_spec (string_of_nonneg (end_ r)))) by done.
  rewrite !parseInt10_string_of_nonneg by lia.
  rewrite (proj2 (isValidCode_spec (start r))) by lia.
  rewrite (proj2 (isValidCode_spec (end_ r))) by lia. simpl.
  destruct (Z.ltb_spec (end_ r) (start r)); [lia|]. by destruct r.
Qed.

Lemma parseToken_drops_tail_witness :
  parseToken "100-200-abc" = Some (Range 100 200).
Proof.
  apply (parseToken_drops_tail (Range 100 200) "abc");
    [unfold wf_range; simpl; lia|vm_compute; reflexivity].
Defined.

(** *** Normal forms *)

Lemma fold_merge_separated (l acc : list StatusCodeRange) :
  (forall a r, head acc = Some a -> head l = Some r -> separated a r) ->
  Sorted separated l -> fold_left mergeStep l acc = rev l ++ acc.
Proof.
  revert acc; induction l as [|r l IH]; intros acc Hhd Hs; simpl; [done|].
  apply Sorted_inv in Hs as [Hs Hr].
  assert (mergeStep acc r = r :: acc) as ->.
  { destruct acc as [|a acc]; simpl; [done|].
    specialize (Hhd a r eq_refl eq_refl). unfold separated in Hhd.
    by rewrite (proj2 (Z.ltb_lt _ _)). }
  rewrite IH, <- app_assoc; [done| |done].
  intros a r' [= <-] Hr'. destruct l; [done|]. injection Hr' as <-.
  by inversion Hr.
Qed.

Lemma separated_sorted (rs : list StatusCodeRange) :
  Forall wf_range rs -> Sorted separated rs ->
  Sorted (fun a b => compareRanges a b <= 0) rs.
Proof.
  intros Hwf. induction 1 as [|r l Hs IH Hhd]; [constructor|].
  inversion Hwf as [|? ? Hr Hl]; subst. constructor; [by apply IH|].
  destruct Hhd as [|r' l Hrr]; constructor.
  unfold separated, wf_range, compareRanges in *.
  destruct (Z.eqb_spec (start r) (start r')); simpl; lia.
Qed.

(** Separated ranges in increasing order are already merged. *)
Lemma mergeRanges_id (rs : list StatusCodeRange) :
  Forall wf_range rs -> Sorted separated rs -> mergeRanges rs = rs.
Proof.
  intros Hwf Hs. destruct rs as [|r rs]; [done|]. unfold mergeRanges.
  rewrite sort_by_id by (by apply separated_sorted).
  by rewrite fold_merge_separated, app_nil_r, rev_involutive.
Qed.

(** The text of a list of ranges: what [normalized] holds. *)
Definition rangesText (rs : list StatusCodeRange) : str :=
  str_join "," (map rangeToken rs).

Lemma rangesText_clean (p : N -> bool) (rs : list StatusCodeRange) :
  p (chr ","%char) = true ->
  Forall (fun r => forallb p (rangeToken r) = true) rs ->
  forallb p (rangesText rs) = true.
Proof.
  intros Hc. induction 1 as [|r rs Hr Hrs IH]; [done|].
  destruct rs as [|r' rs]; [done|].
  change (rangesText (r :: r' :: rs))
    with (rangeToken r ++ [chr ","%char] ++ rangesText (r' :: rs)).
  rewrite !forallb_app, Hr, IH. cbn [forallb]. by rewrite Hc.
Qed.

Lemma rangesText_nonempty (r : StatusCodeRange) (rs : list StatusCodeRange) :
  wf_range r -> rangesText (r :: rs) <> [].
Proof.
  intros Hr. destruct (rangeToken_clean r Hr) as (Hne & _). unfold rangesText.
  destruct rs; cbn [map]; [done|]. rewrite join_cons by done.
  by destruct (rangeToken r).
Qed.

Lemma map_trim_tokens (rs : list StatusCodeRange) :
  Forall wf_range rs ->
  filter_truthy (map trim (map rangeToken rs)) = map rangeToken rs.
Proof.
  induction 1 as [|r rs Hr Hrs IH]; [done|]. cbn [map].
  destruct (rangeToken_clean r Hr) as (Hne & Hws & _).
  rewrite trim_id by (by apply trimmed_nows). unfold filter_truthy in *.
  cbn [List.filter]. apply truthy_str_true in Hne as ->. by rewrite IH.
Qed.

Lemma omap_tokens (rs : list StatusCodeRange) :
  Forall wf_range rs ->
  let parsed := map (fun s => (s, parseToken s)) (map rangeToken rs) in
  omap snd parsed = rs /\
  omap (fun sp => match snd sp with
                  | None => Some (fst sp)
                  | Some _ => None
                  end) parsed = [].
Proof.
  induction 1 as [|r rs Hr Hrs [IH1 IH2]]; [done|]. cbn [map].
  rewrite parseToken_rangeToken by done. simpl.
  split; [by f_equal|done].
Qed.

(** Parsing the text of canonical ranges yields those ranges. *)
Lemma parse_rangesText (rs : list StatusCodeRange) :
  Forall wf_range rs -> Sorted separated rs ->
  parseHttpStatusCodeRules (Some (rangesText rs)) =
  {| ok := true; ranges := rs; tokens := map rangeToken rs;
     normalized := rangesText rs; invalidTokens := [] |}.
Proof.
  intros Hwf Hs. destruct (decide (rs = [])) as [->|Hne]; [done|].
  unfold parseHttpStatusCodeRules. cbn [nullish].
  assert (trim (rangesText rs) = rangesText rs) as ->.
  { apply trim_id, trimmed_nows, rangesText_clean; [done|].
    eapply Forall_impl; [exact Hwf|]. intros r Hr.
    by destruct (rangeToken_clean r Hr) as (_ & ? & _). }
  destruct (rangesText rs) eqn:E.
  { exfalso. revert E. destruct rs; [done|]. apply rangesText_nonempty.
    by inversion Hwf. }
  rewrite <- E. rewrite replace_class_id.
  2:{ apply rangesText_clean; [done|].
      eapply Forall_impl; [exact Hwf|]. intros r Hr.
      by destruct (rangeToken_clean r Hr) as (_ & _ & _ & ?). }
  assert (split_char ","%char (rangesText rs) = map rangeToken rs) as ->.
  { apply split_char_join; [by destruct rs|].
    apply Forall_map. eapply Forall_impl; [exact Hwf|]. intros r Hr.
      by destruct (rangeToken_clean r Hr) as (_ & _ & ? & _). }
  rewrite map_trim_tokens by done.
  destruct (omap_tokens rs Hwf) as [H1 H2]. cbv zeta in H1, H2.
  rewrite H2, H1, mergeRanges_id; done.
Qed.

(** What the parser returns on an accepted input. *)
Lemma parse_ok (input : option str) :
  ok (parseHttpStatusCodeRules input) = true ->
  exists rs, Forall wf_range rs /\ Sorted separated rs /\
    parseHttpStatusCodeRules input =
    {| ok := true; ranges := rs; tokens := map rangeToken rs;
       normalized := rangesText rs; invalidTokens := [] |}.
Proof.
  unfold parseHttpStatusCodeRules. cbv zeta.
  destruct (trim (nullish input [])) as [|c raw].
  { intros _. exists []. by repeat constructor. }
  generalize (filter_truthy (map trim (split_char ","%char
    (replace_class fullwidthComma "," (c :: raw))))) as segs. intros segs.
  destruct (omap _ _) as [|t ts]; [|done]. intros _.
  eexists. split_and!; [..|reflexivity]; apply mergeRanges_spec;
    apply Forall_forall; intros r Hr;
    apply list_elem_of_omap in Hr as ((s & o) & Hin & Ho); simpl in Ho; subst o;
    apply list_elem_of_fmap in Hin as (s' & [= -> Hp] & _);
    symmetry in Hp; by apply parseToken_wf in Hp.
Qed.

(** A normalized rule list is a fixed point of the parser: parsing the
    text that an accepted input is normalized to gives the same ranges,
    tokens and text. *)
Theorem normalized_reparses (input : option str)
    (Hok : ok (parseHttpStatusCodeRules input) = true) :
  parseHttpStatusCodeRules
    (Some (normalized (parseHttpStatusCodeRules input))) =
  parseHttpStatusCodeRules input.
Proof.
  destruct (parse_ok input Hok) as (rs & Hwf & Hs & ->).
  by apply parse_rangesText.
Qed.

Lemma normalized_reparses_witness :
  normalized (parseHttpStatusCodeRules (Some (js " 500-503,429， 504 - 599")))
    = js "429,500-599" /\
  parseHttpStatusCodeRules (Some (js "429,500-599")) =
  parseHttpStatusCodeRules (Some (js " 500-503,429， 504 - 599")).
Proof.
  split; [vm_compute; reflexivity|].
  apply (normalized_reparses (Some (js " 500-503,429， 504 - 599"))).
  vm_compute; reflexivity.
Defined.

End Rules.

Module RiskGuard.

(** [new Set([504, 524])]. *)
Definition NON_REDIRECTABLE_STATUS_CODES : list Z := [504; 524].

(** [/^[1-5]\d{2}$/.test(s)]. *)
Definition isStatusCodeText (s : str) : bool :=
  test (Bol · Cls (fun c => (49 <=? c) && (c <=? 53))%N
            · Cls c_digit · Cls c_digit · Eol) s.

Definition parseStatusCodeKey (rawKey : str) : option Z :=
  let normalized := trim rawKey in
  if isStatusCodeText normalized then parseInt10 normalized else None.

Definition parseStatusCodeMappingTarget (rawValue : json) : option Z :=
  match rawValue with
  | JNum x =>
      if isInteger x then
        if num_le (num_of_Z 100) x && num_le x (num_of_Z 599)
        then Some (trunc_Z x) else None
      else None
  | JStr s =>
      let normalized := trim s in
      if isStatusCodeText normalized then
        match parseInt10 normalized with
        | Some code =>
            if (100 <=? code) && (code <=? 599) then Some code else None
        | None => None
        end
      else None
  | _ => None
  end.

(** The entries of the mapping; [None] when the text is empty, is not JSON or
    is not an object, where both collectors return [[]]. *)
Definition mappingEntries (text : str) : option (list (str * json)) :=
  match trim text with
  | [] => None
  | _ =>
      match json_parse text with
      | Some (JObj o) => Some o
      | _ => None
      end
  end.

Definition collectInvalidStatusCodeEntries (text : str) : list str :=
  match mappingEntries text with
  | None => []
  | Some o =>
      omap (fun kv =>
        match parseStatusCodeKey (fst kv),
              parseStatusCodeMappingTarget (snd kv) with
        | Some _, Some _ => None
        | _, _ => Some (fst kv ++ " → " ++ json_to_string (snd kv))
        end) o
  end.

(** The text of one risky entry, if the entry is risky. *)
Definition riskyEntry (kv : str * json) : option str :=
  match parseStatusCodeKey (fst kv), parseStatusCodeMappingTarget (snd kv) with
  | Some fromCode, Some toCode =>
      if negb (existsb (Z.eqb fromCode) NON_REDIRECTABLE_STATUS_CODES) then None
      else if fromCode =? toCode then None
      else Some (string_of_Z fromCode ++ " -> " ++ string_of_Z toCode)
  | _, _ => None
  end.

Definition collectDisallowedStatusCodeRedirects (text : str) : list str :=
  match mappingEntries text with
  | None => []
  | Some o => sort_strings (dedupe (omap riskyEntry o))
  end.

Definition collectNewDisallowedStatusCodeRedirects
    (originalStr currentStr : str) : list str :=
  let currentRisky := collectDisallowedStatusCodeRedirects currentStr in
  match currentRisky with
  | [] => []
  | _ =>
      let originalRisky := collectDisallowedStatusCodeRedirects originalStr in
      List.filter (fun m => negb (mem_str m originalRisky)) currentRisky
  end.

(** *** The reported redirects are exactly the risky entries *)

Lemma elem_of_risky (text m : str) :
  m ∈ collectDisallowedStatusCodeRedirects text <->
  exists o kv, mappingEntries text = Some o /\ kv ∈ o /\
               riskyEntry kv = Some m.
Proof.
  unfold collectDisallowedStatusCodeRedirects, sort_strings.
  destruct (mappingEntries text) as [o|].
  - rewrite elem_of_sort_by, elem_of_dedupe, list_elem_of_omap. naive_solver.
  - rewrite elem_of_nil. naive_solver.
Qed.

(** A redirect is reported as newly disallowed exactly when it comes from
    an entry of the current mapping that redirects 504 or 524 to another code
    and the original mapping has no such redirect. *)
Theorem new_redirects_exact (originalStr currentStr m : str) :
  m ∈ collectNewDisallowedStatusCodeRedirects originalStr currentStr <->
  m ∈ collectDisallowedStatusCodeRedirects currentStr /\
  m ∉ collectDisallowedStatusCodeRedirects originalStr.
Proof.
  unfold collectNewDisallowedStatusCodeRedirects.
  rewrite <- mem_str_false.
  destruct (collectDisallowedStatusCodeRedirects currentStr) as [|x l] eqn:E.
  { rewrite elem_of_nil. tauto. }
  rewrite list_elem_of_In, filter_In, <- list_elem_of_In, negb_true_iff. done.
Qed.

End RiskGuard.
