(* ===== verification/ChannelFormLaws.v ===== *)
(** * Laws of the form of a channel

    Proofs about [ChannelForm]: a form that passes the checks is always turned
    into a payload; the settings that are written are those of the type of the
    channel, and what the form does not know is kept; a channel that is opened
    again and saved without a change is saved as it was; nothing is sent that the
    guards of the drawer object to. *)

From stdpp Require Import base list.
From Stdlib Require Import ZArith NArith Lia.
From S2P Require Import Prelude JsString JsArray JsNumber JsRegex JsJson JsonRoundTrip AdvancedCustom AdvancedCustomLaws StatusCodes ChannelForm.

Local Open Scope Z_scope.

(** ** Lists of names *)

Lemma dedupe_from_id (seen l : list str) :
  NoDup l -> (forall x, x ∈ l -> x ∉ seen) -> dedupe_from seen l = l.
Proof.
  revert seen. induction l as [|x l IH]; intros seen Hd Hs; [done|]. cbn. inversion Hd as [|? ? Hx Hl]; subst.
  rewrite (proj2 (mem_str_false x seen)) by (apply Hs; left). f_equal. apply IH; [done|].
  intros y Hy [Hin | ->%list_elem_of_singleton]%elem_of_app; [|done]. by apply (Hs y); [right|].
Qed.

Lemma dedupe_id (l : list str) : NoDup l -> dedupe l = l.
Proof. intros H. apply dedupe_from_id; [done|]. intros x _. apply not_elem_of_nil. Qed.

(** A name that survives a list that is written with commas. *)
Definition name_ok (s : str) : Prop := s <> [] /\ trim s = s /\ avoids (chr ",") s = true.

Lemma comma_list_join (l : list str) : Forall name_ok l -> comma_list (str_join "," l) = l.
Proof.
  intros H. unfold comma_list. destruct l as [|x l]; [reflexivity|].
  change (js ",") with [chr ","]. rewrite split_char_join by (done || by eapply Forall_impl; [exact H|]; intros ? (_ & _ & ?)).
  rewrite (map_ext_in _ id), map_id.
  - apply filter_truthy_nonempty. eapply Forall_impl; [exact H|]. by intros ? [].
  - intros s Hs. rewrite List.Forall_forall in H. by destruct (H s Hs) as (_ & ? & _).
Qed.

Lemma split_pieces (sep : N) (s : str) : Forall (fun p => avoids sep p = true) (split_char sep s).
Proof.
  induction s as [|c s IH]; cbn [split_char]; [constructor; [reflexivity|constructor]|].
  destruct (c =? sep)%N eqn:E; [by constructor|].
  pose proof (split_char_nonnil sep s). destruct (split_char sep s) as [|p ps]; [done|]. inversion IH; subst. constructor; [|done].
  unfold avoids in *. cbn. by rewrite E.
Qed.

Lemma in_drop_while {A} (p : A -> bool) (l : list A) (x : A) : In x (drop_while p l) -> In x l.
Proof. induction l as [|y l IH]; cbn; [done|]. destruct (p y); [|done]. intros Hx. right. by apply IH. Qed.

Lemma trim_avoids (c : N) (s : str) : avoids c s = true -> avoids c (trim s) = true.
Proof.
  unfold avoids. rewrite !forallb_forall. intros Hs x Hx. apply Hs. unfold trim, trimEnd, trimStart in Hx.
  by apply in_rev, in_drop_while, in_rev, in_drop_while in Hx.
Qed.

Lemma comma_list_ok (s : str) : Forall name_ok (comma_list s).
Proof.
  apply Forall_forall. intros x Hx. unfold comma_list, filter_truthy in Hx. apply list_elem_of_In, filter_In in Hx as [Hx Ht].
  apply in_map_iff in Hx as (p & <- & Hp). pose proof (split_pieces (chr ",") s) as Hs. rewrite List.Forall_forall in Hs.
  split_and!; [by apply truthy_str_true|apply trim_idem|by apply trim_avoids, Hs].
Qed.

Lemma dedupe_names (l : list str) : Forall name_ok l -> Forall name_ok (dedupe l).
Proof. rewrite !Forall_forall. intros H x Hx. apply H. by apply elem_of_dedupe. Qed.

(** ** Settings of the types *)

Lemma mem_type_spec (t : Z) (l : list Z) : mem_type t l = true <-> t ∈ l.
Proof.
  unfold mem_type. rewrite existsb_exists, list_elem_of_In. split.
  - intros (x & Hx & ->%Z.eqb_eq). done.
  - intros Hx. exists t. split; [done|apply Z.eqb_refl].
Qed.

(** A field that is to have a value, or not to be there. *)
Definition set_opt (o : list (str * json)) (kv : str * option json) : list (str * json) :=
  match snd kv with Some v => obj_set (fst kv) v o | None => obj_delete (fst kv) o end.

Lemma put_or_drop_opt (c : bool) (k : str) (v : json) (o : list (str * json)) :
  put_or_drop c k v o = set_opt o (k, if c then Some v else None).
Proof. by destruct c. Qed.

Lemma obj_set_opt (k : str) (v : json) (o : list (str * json)) : obj_set k v o = set_opt o (k, Some v).
Proof. done. Qed.

Lemma set_opt_get (o : list (str * json)) (kv : str * option json) (k : str) :
  obj_get k (set_opt o kv) = if k =?s fst kv then snd kv else obj_get k o.
Proof. unfold set_opt. destruct kv as [j [v|]]; cbn [fst snd]; [apply obj_get_set|apply obj_get_delete]. Qed.

Lemma set_opts_get (kvs : list (str * option json)) (o : list (str * json)) (k : str) :
  NoDup (map fst kvs) ->
  obj_get k (fold_left set_opt kvs o) = match obj_get k kvs with Some v => v | None => obj_get k o end.
Proof.
  revert o. induction kvs as [|[j v] kvs IH]; intros o Hd; [done|]. cbn [fold_left obj_get].
  inversion Hd as [|? ? Hj Hd']; subst. rewrite IH by done. rewrite set_opt_get. cbn [fst snd].
  destruct (str_eqb_spec k j) as [->|]; [|done].
  rewrite (proj2 (obj_get_None j kvs)); [done|]. intros Hin. apply Hj. by apply list_elem_of_In.
Qed.

Lemma obj_delete_absent {A} (k : str) (o : list (str * A)) : obj_get k o = None -> obj_delete k o = o.
Proof.
  intros H. apply JsArray.filter_all, List.Forall_forall. intros [j v] Hin. cbn. apply negb_true_iff, str_eqb_neq.
  intros ->. apply obj_get_None in H. apply H. apply (in_map fst _ _ Hin).
Qed.

Lemma set_opt_same (o : list (str * json)) (kv : str * option json) : obj_get (fst kv) o = snd kv -> set_opt o kv = o.
Proof. unfold set_opt. destruct kv as [k [v|]]; cbn; intros H; [by apply obj_set_same|by apply obj_delete_absent]. Qed.

Lemma set_opts_same (kvs : list (str * option json)) (o : list (str * json)) :
  Forall (fun kv => obj_get (fst kv) o = snd kv) kvs -> fold_left set_opt kvs o = o.
Proof. induction 1 as [|kv kvs Hkv _ IH]; [done|]. cbn [fold_left]. by rewrite set_opt_same. Qed.

Lemma set_opts_ok (kvs : list (str * option json)) (o : list (str * json)) :
  json_ok (JObj o) -> Forall (fun kv => forall v, snd kv = Some v -> json_ok v) kvs ->
  json_ok (JObj (fold_left set_opt kvs o)).
Proof.
  intros Ho H. revert o Ho. induction H as [|[k [v|]] kvs Hkv _ IH]; intros o Ho; cbn [fold_left]; [done|..];
    apply IH; [apply json_ok_set; [done|by apply Hkv]|by apply json_ok_delete].
Qed.

Definition when (c : bool) (v : json) : option json := if c then Some v else None.

(** The fields that belong to types of channels, with the values that the form
    gives them. *)
Definition type_fields (f : ChannelFormValues) : list (str * option json) :=
  let t := f_type f in
  let openai := mem_type t OPENAI_FIELD_PASSTHROUGH_TYPES in
  let claude := mem_type t CLAUDE_FIELD_PASSTHROUGH_TYPES in [
  (js "vertex_key_type", when (t =? 41) (ojson_or (f_vertex_key_type f) "json"));
  (js "azure_responses_version", when ((t =? 3) && truthy_ojson (f_azure_responses_version f))
                                   (nullish (f_azure_responses_version f) JNull));
  (js "openrouter_enterprise", when (t =? 20) (JBool (on (f_is_enterprise_account f))));
  (js "aws_key_type", when (t =? 33) (ojson_or (f_aws_key_type f) "ak_sk"));
  (js "allow_service_tier", when (mem_type t FIELD_PASSTHROUGH_TYPES) (JBool (on (f_allow_service_tier f))));
  (js "disable_store", when openai (JBool (on (f_disable_store f))));
  (js "allow_safety_identifier", when openai (JBool (on (f_allow_safety_identifier f))));
  (js "allow_include_obfuscation", when openai (JBool (on (f_allow_include_obfuscation f))));
  (js "allow_inference_geo", when (openai || claude) (JBool (on (f_allow_inference_geo f))));
  (js "allow_speed", when claude (JBool (on (f_allow_speed f))));
  (js "claude_beta_query", when (t =? 14) (JBool (on (f_claude_beta_query f))));
  (js "disable_task_polling_sleep", Some (JBool (on (f_disable_task_polling_sleep f))))].

Lemma typeSettings_fields (f : ChannelFormValues) (o : list (str * json)) :
  typeSettings f o = fold_left set_opt (type_fields f) o.
Proof. unfold typeSettings, type_fields, when. cbv zeta. rewrite !put_or_drop_opt, obj_set_opt. cbn [fold_left]. exact eq_refl. Qed.

Definition type_keys : list str := [
  js "vertex_key_type"; js "azure_responses_version"; js "openrouter_enterprise"; js "aws_key_type";
  js "allow_service_tier"; js "disable_store"; js "allow_safety_identifier"; js "allow_include_obfuscation";
  js "allow_inference_geo"; js "allow_speed"; js "claude_beta_query"; js "disable_task_polling_sleep"].

Lemma type_keys_eq (f : ChannelFormValues) : map fst (type_fields f) = type_keys.
Proof. unfold type_fields. cbv zeta. cbn [map fst]. exact eq_refl. Qed.

Lemma type_keys_nodup : NoDup type_keys.
Proof. apply (bool_decide_unpack _). vm_compute. exact I. Qed.

(** ** Settings of upstream models and routes *)

Definition is_arr (v : option json) : bool := match v with Some (JArr _) => true | _ => false end.
Definition is_num (v : option json) : bool := match v with Some (JNum _) => true | _ => false end.

(** The fields of upstream models; the two last are kept where they are of the
    right kind. *)
Definition upstream_fields (f : ChannelFormValues) (o : list (str * json)) : list (str * option json) :=
  if mem_type (f_type f) MODEL_FETCHABLE_TYPES then
    let check := on (f_upstream_model_update_check_enabled f) in
    let detected := obj_get "upstream_model_update_last_detected_models" o in
    let time := obj_get "upstream_model_update_last_check_time" o in [
    (js "upstream_model_update_check_enabled", Some (JBool check));
    (js "upstream_model_update_auto_sync_enabled", Some (JBool (check && on (f_upstream_model_update_auto_sync_enabled f))));
    (js "upstream_model_update_ignored_models", Some (JArr (map JStr (ignoredModels f))));
    (js "upstream_model_update_last_detected_models", if is_arr detected && check then detected else Some (JArr []));
    (js "upstream_model_update_last_check_time", if is_num time then time else Some (JNum num_zero))]
  else [].

Lemma set_opt_keep (c : bool) (k : str) (v : json) (o : list (str * json)) :
  (c = true -> obj_get k o <> None) ->
  set_opt o (k, if c then obj_get k o else Some v) = if c then o else obj_set k v o.
Proof.
  intros Hc. destruct c; [|done]. destruct (obj_get k o) as [w|] eqn:E; [|by destruct Hc].
  by apply obj_set_same.
Qed.

Lemma set_opt_other (o : list (str * json)) (kv : str * option json) (k : str) :
  k <> fst kv -> obj_get k (set_opt o kv) = obj_get k o.
Proof. intros Hk. rewrite set_opt_get. by rewrite (proj2 (str_eqb_neq k (fst kv)) Hk). Qed.

(** Fields that are kept where they are of the right kind. *)
Lemma kept_fields (o o3 : list (str * json)) (kd kt : str) (check : bool) :
  obj_get kd o3 = obj_get kd o -> obj_get kt o3 = obj_get kt o -> kt <> kd ->
  (let o4 := match obj_get kd o3 with
             | Some (JArr _) => if check then o3 else obj_set kd (JArr []) o3
             | _ => obj_set kd (JArr []) o3
             end in
   match obj_get kt o4 with Some (JNum _) => o4 | _ => obj_set kt (JNum num_zero) o4 end) =
  set_opt (set_opt o3 (kd, if is_arr (obj_get kd o) && check then obj_get kd o else Some (JArr [])))
    (kt, if is_num (obj_get kt o) then obj_get kt o else Some (JNum num_zero)).
Proof.
  intros Hd Ht Hk. cbv zeta. set (o4 := match obj_get kd o3 with Some (JArr _) => _ | _ => _ end).
  assert (H4 : o4 = set_opt o3 (kd, if is_arr (obj_get kd o) && check then obj_get kd o else Some (JArr []))).
  { unfold o4. rewrite <- Hd, set_opt_keep; [|by intros ?; destruct (obj_get kd o3)].
    destruct (obj_get kd o3) as [[]|], check; done. }
  rewrite <- H4. assert (E4 : obj_get kt o4 = obj_get kt o) by (rewrite H4; by rewrite set_opt_other).
  rewrite <- E4, set_opt_keep; [|by intros ?; destruct (obj_get kt o4)].
  destruct (obj_get kt o4) as [[]|]; done.
Qed.

Lemma upstreamSettings_fields (f : ChannelFormValues) (o : list (str * json)) :
  upstreamSettings f o = fold_left set_opt (upstream_fields f o) o.
Proof.
  unfold upstreamSettings, upstream_fields. destruct (mem_type _ _); [|done]. cbv zeta. cbn [fold_left].
  rewrite <- !obj_set_opt. rewrite kept_fields with (o := o); [done|..].
  - rewrite !obj_get_set. literals. done.
  - rewrite !obj_get_set. literals. done.
  - apply str_eqb_neq. literals. done.
Qed.

Definition form_config (f : ChannelFormValues) : option AdvancedCustomConfig :=
  match parseAdvancedCustomConfig (f_advanced_custom f) with ParsedConfig c => Some c | _ => None end.

(** All the fields of the settings that the form writes. *)
Definition settings_fields (f : ChannelFormValues) (o : list (str * json)) : list (str * option json) :=
  type_fields f ++ upstream_fields f o ++
  [(js "advanced_custom", if f_type f =? CHANNEL_TYPE_ADVANCED_CUSTOM then config_json <$> form_config f else None)].

(** The routes of a channel that has routes are read. *)
Definition routes_read (f : ChannelFormValues) : Prop :=
  f_type f = CHANNEL_TYPE_ADVANCED_CUSTOM -> form_config f <> None.

Definition upstream_keys (t : Z) : list str :=
  if mem_type t MODEL_FETCHABLE_TYPES then [
    js "upstream_model_update_check_enabled"; js "upstream_model_update_auto_sync_enabled";
    js "upstream_model_update_ignored_models"; js "upstream_model_update_last_detected_models";
    js "upstream_model_update_last_check_time"]
  else [].

Definition settings_keys (t : Z) : list str := type_keys ++ upstream_keys t ++ [js "advanced_custom"].

Lemma settings_keys_eq (f : ChannelFormValues) (o : list (str * json)) :
  map fst (settings_fields f o) = settings_keys (f_type f).
Proof.
  unfold settings_fields, settings_keys. rewrite !map_app, type_keys_eq. f_equal. f_equal.
  unfold upstream_fields, upstream_keys. by destruct (mem_type _ _).
Qed.

Lemma settings_keys_nodup (t : Z) : NoDup (settings_keys t).
Proof.
  unfold settings_keys, upstream_keys.
  destruct (mem_type t MODEL_FETCHABLE_TYPES); apply (bool_decide_unpack _); vm_compute; exact I.
Qed.

Lemma typeSettings_other (f : ChannelFormValues) (o : list (str * json)) (k : str) :
  mem_str k type_keys = false -> obj_get k (fold_left set_opt (type_fields f) o) = obj_get k o.
Proof.
  intros Hk. rewrite set_opts_get by (rewrite type_keys_eq; apply type_keys_nodup).
  rewrite (proj2 (obj_get_None k (type_fields f))); [done|]. unfold obj_keys. rewrite type_keys_eq.
  rewrite <- list_elem_of_In. by apply mem_str_false.
Qed.

Lemma upstream_fields_type (f : ChannelFormValues) (o : list (str * json)) :
  upstream_fields f (fold_left set_opt (type_fields f) o) = upstream_fields f o.
Proof. unfold upstream_fields. by rewrite !typeSettings_other by reflexivity. Qed.

Lemma settingsObject_fields (f : ChannelFormValues) (o : list (str * json)) :
  routes_read f -> settingsObject f o = Some (fold_left set_opt (settings_fields f o) o).
Proof.
  unfold settingsObject, settings_fields, routeSettings, routes_read, form_config. intros Hr.
  rewrite typeSettings_fields, upstreamSettings_fields, upstream_fields_type, !fold_left_app. cbn [fold_left].
  destruct (Z.eqb_spec (f_type f) CHANNEL_TYPE_ADVANCED_CUSTOM) as [E|E]; [|done].
  specialize (Hr E). by destruct (parseAdvancedCustomConfig (f_advanced_custom f)).
Qed.

(** What the settings hold after a save: the fields of the form, and all the
    others as they were. *)
Lemma settings_get (f : ChannelFormValues) (o : list (str * json)) (k : str) :
  obj_get k (fold_left set_opt (settings_fields f o) o) =
  match obj_get k (settings_fields f o) with Some v => v | None => obj_get k o end.
Proof. apply set_opts_get. rewrite settings_keys_eq. apply settings_keys_nodup. Qed.

(** ** A channel that is opened again *)

Section Reopen.
Context `{CaseMapping}.

(** The columns of a channel in its form. *)
Lemma opened_columns (c : Channel) (f : ChannelFormValues) :
  transformChannelToFormDefaults c = Some f ->
  f_name f = ch_name c /\ f_type f = ch_type c /\ f_base_url f = Some (ostr_or (ch_base_url c) []) /\
  f_key f = [] /\ f_openai_organization f = Some (ostr_or (ch_openai_organization c) []) /\
  f_models f = ch_models c /\ f_group f = parseGroups (str_or (ch_group c) "default") /\
  f_model_mapping f = Some (ostr_or (ch_model_mapping c) []) /\
  f_priority f = Some (num_or_zero (nullish (ch_priority c) num_zero)) /\
  f_weight f = Some (num_or_zero (nullish (ch_weight c) num_zero)) /\
  f_test_model f = Some (ostr_or (ch_test_model c) []) /\ f_auto_ban f = Some (nullish (ch_auto_ban c) one) /\
  f_status_code_mapping f = Some (ostr_or (ch_status_code_mapping c) []) /\
  f_tag f = Some (ostr_or (ch_tag c) []) /\ f_remark f = Some (ch_remark c) /\
  f_param_override f = Some (ostr_or (ch_param_override c) []) /\
  f_header_override f = Some (ostr_or (ch_header_override c) []) /\
  f_settings f = Some (str_or (ch_settings c) "{}") /\ f_other f = Some (ch_other c).
Proof.
  unfold transformChannelToFormDefaults. cbv zeta. destruct (routes_text _) as [t|]; [|done].
  cbn [mbind option_bind]. intros Hf. apply (inj Some) in Hf as <-. by split_and!.
Qed.

(** The object of the column [setting] in the form. *)
Lemma opened_setting (c : Channel) (f : ChannelFormValues) (o : list (str * json)) :
  transformChannelToFormDefaults c = Some f -> object_of (ostr_or (ch_setting c) []) = o ->
  f_task_plugin_key f = Some (ojson_or (obj_get "task_plugin_key" o) []) /\
  f_force_format f = Some (or_false (obj_get "force_format" o)) /\
  f_thinking_to_content f = Some (or_false (obj_get "thinking_to_content" o)) /\
  f_proxy f = Some (ojson_or (obj_get "proxy" o) []) /\
  f_http_protocol f = Some (normalizeHttpProtocol (obj_get "http_protocol" o)) /\
  f_http2_connection_shards f =
    Some (match normalizeHttpProtocol (obj_get "http_protocol" o) with
          | Http1 => JNum one
          | HttpAuto => normalizeHttp2ConnectionShards (obj_get "http2_connection_shards" o)
          end) /\
  f_pass_through_body_enabled f = Some (or_false (obj_get "pass_through_body_enabled" o)) /\
  f_system_prompt f = Some (ojson_or (obj_get "system_prompt" o) []) /\
  f_system_prompt_override f = Some (or_false (obj_get "system_prompt_override" o)).
Proof.
  unfold transformChannelToFormDefaults, extraSettings. cbv zeta. destruct (routes_text _) as [t|]; [|done].
  cbn [mbind option_bind]. intros Hf <-. apply (inj Some) in Hf as <-. by split_and!.
Qed.

(** The object of the column [settings] in the form. *)
Lemma opened_settings (c : Channel) (f : ChannelFormValues) (o : list (str * json)) :
  transformChannelToFormDefaults c = Some f -> object_of (ch_settings c) = o ->
  let flag k := Some (json_is_true (obj_get k o)) in
  f_is_enterprise_account f = flag (js "openrouter_enterprise") /\
  f_vertex_key_type f = Some (ojson_or (obj_get "vertex_key_type" o) "json") /\
  f_aws_key_type f = Some (ojson_or (obj_get "aws_key_type" o) "ak_sk") /\
  f_azure_responses_version f = Some (ojson_or (obj_get "azure_responses_version" o) []) /\
  f_allow_service_tier f = flag (js "allow_service_tier") /\ f_disable_store f = flag (js "disable_store") /\
  f_allow_safety_identifier f = flag (js "allow_safety_identifier") /\
  f_allow_include_obfuscation f = flag (js "allow_include_obfuscation") /\
  f_allow_inference_geo f = flag (js "allow_inference_geo") /\ f_allow_speed f = flag (js "allow_speed") /\
  f_claude_beta_query f = flag (js "claude_beta_query") /\
  f_disable_task_polling_sleep f = flag (js "disable_task_polling_sleep") /\
  f_upstream_model_update_check_enabled f = flag (js "upstream_model_update_check_enabled") /\
  f_upstream_model_update_auto_sync_enabled f = flag (js "upstream_model_update_auto_sync_enabled") /\
  f_upstream_model_update_ignored_models f =
    Some (match obj_get "upstream_model_update_ignored_models" o with Some (JArr l) => json_to_string (JArr l) | _ => [] end) /\
  f_advanced_custom f = routes_text (obj_get "advanced_custom" o).
Proof.
  unfold transformChannelToFormDefaults. cbv zeta. destruct (routes_text _) as [t|] eqn:E; [|done].
  cbn [mbind option_bind]. intros Hf Ho. rewrite Ho in *. apply (inj Some) in Hf as <-. by split_and!.
Qed.

Lemma opens_when (c : Channel) :
  routes_text (obj_get "advanced_custom" (object_of (ch_settings c))) <> None ->
  exists f, transformChannelToFormDefaults c = Some f.
Proof.
  unfold transformChannelToFormDefaults. cbv zeta. destruct (routes_text _) as [t|]; [|done]. intros _. by eexists.
Qed.

Lemma ojson_or_stable (v : option json) (d : str) : ojson_or (Some (ojson_or v d)) d = ojson_or v d.
Proof. unfold ojson_or. destruct v as [v|]; [|by destruct d]. destruct (truthy_json v) eqn:E; [by rewrite E|by destruct d]. Qed.

Lemma or_false_stable (v : option json) : or_false (Some (or_false v)) = or_false v.
Proof. unfold or_false. destruct v as [v|]; [|done]. by destruct (truthy_json v) eqn:E; [rewrite E|]. Qed.

Lemma ignored_stable (f g : ChannelFormValues) :
  f_upstream_model_update_ignored_models g = Some (json_to_string (JArr (map JStr (ignoredModels f)))) ->
  ignoredModels g = ignoredModels f.
Proof.
  intros Hg. unfold ignoredModels at 1. rewrite Hg.
  assert (Ht : json_to_string (JArr (map JStr (ignoredModels f))) = str_join "," (ignoredModels f)).
  { cbn [json_to_string]. rewrite map_map. cbn. by rewrite map_id. }
  rewrite Ht. unfold ostr_or, str_or.
  replace (if truthy_str (str_join "," (ignoredModels f)) then _ else _) with (str_join "," (ignoredModels f))
    by (destruct (truthy_str _) eqn:E; [done|by apply truthy_str_false in E]).
  rewrite comma_list_join.
  - apply dedupe_id. unfold ignoredModels. apply NoDup_dedupe.
  - apply dedupe_names, comma_list_ok.
Qed.

(** The routes that are read from the settings are those that were written. *)
Lemma routes_text_config (c : AdvancedCustomConfig) :
  routes_text (Some (config_json c)) = Some (stringifyAdvancedCustomConfig c).
Proof.
  unfold routes_text, config_json, oprop. cbn [truthy_ojson truthy_json negb].
  change (obj_get "advanced_routes" _) with (Some (JArr (map route_json (normalized_routes c)))). cbv iota.
  rewrite routes_back. cbn [mbind option_bind]. f_equal.
  change (MkCustomConfig (Some (normalized_routes c))) with (normalizeAdvancedCustomConfig c).
  unfold stringifyAdvancedCustomConfig. by rewrite normalized_routes_normalize.
Qed.

Lemma config_json_normalize (c : AdvancedCustomConfig) : config_json (normalizeAdvancedCustomConfig c) = config_json c.
Proof. unfold config_json. by rewrite normalized_routes_normalize. Qed.

(** The field of the settings with a given name, after a save. *)
Ltac read_field := rewrite !settings_get; unfold settings_fields, type_fields; cbv zeta; cbn [app obj_get]; literals; cbv iota.

Lemma on_true (b : bool) : on (Some b) = b.
Proof. by destruct b. Qed.

Lemma is_true_when (c b : bool) : when c (JBool (json_is_true (when c (JBool b)))) = when c (JBool b).
Proof. by destruct c, b. Qed.

Lemma is_true_bool (b : bool) : json_is_true (Some (JBool b)) = b.
Proof. by destruct b. Qed.

Lemma or_when (c : bool) (v : option json) (d : str) :
  when c (ojson_or (Some (ojson_or (when c (ojson_or v d)) d)) d) = when c (ojson_or v d).
Proof. destruct c; [|done]. cbn [when]. by rewrite !ojson_or_stable. Qed.

Lemma truthy_when (c : bool) (v : option json) :
  let w := Some (ojson_or (when (c && truthy_ojson v) (nullish v JNull)) []) in
  when (c && truthy_ojson w) (nullish w JNull) = when (c && truthy_ojson v) (nullish v JNull).
Proof.
  destruct c; [|done]. destruct v as [v|]; [|done]. cbn [andb truthy_ojson nullish].
  destruct (truthy_json v) eqn:E; cbn [when ojson_or]; [|done]. by rewrite !E.
Qed.

Lemma type_fields_stable (f g : ChannelFormValues) (c : Channel) (o : list (str * json)) :
  transformChannelToFormDefaults c = Some g -> ch_type c = f_type f ->
  object_of (ch_settings c) = fold_left set_opt (settings_fields f o) o ->
  type_fields g = type_fields f.
Proof.
  intros Hg Ht Ho. destruct (opened_columns c g Hg) as (_ & Hgt & _). rewrite Ht in Hgt.
  destruct (opened_settings c g _ Hg Ho) as (H1 & H2 & H3 & H4 & H5 & H6 & H7 & H8 & H9 & H10 & H11 & H12 & _).
  unfold type_fields at 1. cbv zeta. rewrite Hgt, H1, H2, H3, H4, H5, H6, H7, H8, H9, H10, H11, H12, !on_true.
  read_field. rewrite !is_true_when, is_true_bool, !or_when, truthy_when. exact eq_refl.
Qed.

Lemma settings_upstream (f : ChannelFormValues) (o : list (str * json)) (k : str) (v : option json) :
  mem_str k type_keys = false -> obj_get k (upstream_fields f o) = Some v ->
  obj_get k (fold_left set_opt (settings_fields f o) o) = v.
Proof.
  intros Hn Hk. rewrite settings_get. unfold settings_fields. rewrite !obj_get_app.
  rewrite (proj2 (obj_get_None k (type_fields f))); [by rewrite Hk|].
  unfold obj_keys. rewrite type_keys_eq, <- list_elem_of_In. by apply mem_str_false.
Qed.

Lemma is_arr_detected (c : bool) (v : option json) :
  let w := if is_arr v && c then v else Some (JArr []) in (if is_arr w && c then w else Some (JArr [])) = w.
Proof. cbv zeta. by destruct (is_arr v) eqn:E, c; cbn [andb]; rewrite ?E. Qed.

Lemma is_num_time (v : option json) :
  let w := if is_num v then v else Some (JNum num_zero) in (if is_num w then w else Some (JNum num_zero)) = w.
Proof. cbv zeta. destruct (is_num v) eqn:E; [by rewrite E|done]. Qed.

Lemma upstream_fields_stable (f g : ChannelFormValues) (c : Channel) (o : list (str * json)) :
  transformChannelToFormDefaults c = Some g -> ch_type c = f_type f ->
  object_of (ch_settings c) = fold_left set_opt (settings_fields f o) o ->
  upstream_fields g (fold_left set_opt (settings_fields f o) o) = upstream_fields f o.
Proof.
  intros Hg Ht Ho. destruct (opened_columns c g Hg) as (_ & Hgt & _). rewrite Ht in Hgt.
  destruct (opened_settings c g _ Hg Ho) as (_ & _ & _ & _ & _ & _ & _ & _ & _ & _ & _ & _ & H1 & H2 & H3 & _).
  pose proof (settings_upstream f o) as Hf. set (s := fold_left set_opt _ o) in *. clearbody s.
  unfold upstream_fields in *. rewrite Hgt. destruct (mem_type (f_type f) MODEL_FETCHABLE_TYPES); [|done].
  cbv zeta in *. rewrite H1, H2, !on_true.
  erewrite (Hf (js "upstream_model_update_check_enabled")) in * by reflexivity.
  erewrite (Hf (js "upstream_model_update_auto_sync_enabled")) in * by reflexivity.
  erewrite (Hf (js "upstream_model_update_ignored_models")) in * by reflexivity.
  erewrite (Hf (js "upstream_model_update_last_detected_models")) by reflexivity.
  erewrite (Hf (js "upstream_model_update_last_check_time")) by reflexivity.
  rewrite !is_true_bool, (ignored_stable f g H3), is_arr_detected, is_num_time.
  by destruct (on (f_upstream_model_update_check_enabled f)).
Qed.

(** The routes of a channel that is saved and opened. *)
Lemma settings_routes (f : ChannelFormValues) (o : list (str * json)) :
  obj_get "advanced_custom" (fold_left set_opt (settings_fields f o) o) =
  if f_type f =? CHANNEL_TYPE_ADVANCED_CUSTOM then config_json <$> form_config f else None.
Proof.
  rewrite settings_get. unfold settings_fields. rewrite !obj_get_app.
  replace (obj_get "advanced_custom" (type_fields f)) with (@None (option json)) by reflexivity.
  unfold upstream_fields. destruct (mem_type _ _); reflexivity.
Qed.

Lemma opens_again (f : ChannelFormValues) (c : Channel) (o : list (str * json)) :
  routes_read f -> ch_type c = f_type f -> object_of (ch_settings c) = fold_left set_opt (settings_fields f o) o ->
  exists g, transformChannelToFormDefaults c = Some g /\ routes_read g /\
    settings_fields g (object_of (ch_settings c)) = settings_fields f o.
Proof.
  intros Hr Ht Ho.
  destruct (opens_when c) as [g Hg].
  { rewrite Ho, settings_routes. unfold routes_read in Hr. destruct (Z.eqb_spec (f_type f) CHANNEL_TYPE_ADVANCED_CUSTOM); [|done].
    destruct (form_config f); [|by destruct Hr]. cbn [fmap option_fmap option_map]. by rewrite routes_text_config. }
  destruct (opened_columns c g Hg) as (_ & Hgt & _). rewrite Ht in Hgt.
  pose proof (opened_settings c g _ Hg Ho) as Hs. cbv zeta in Hs. do 15 (destruct Hs as [_ Hs]).
  rewrite settings_routes in Hs. unfold routes_read in *.
  assert (Hc : f_type f = CHANNEL_TYPE_ADVANCED_CUSTOM -> exists a, form_config f = Some a /\
                form_config g = Some (normalizeAdvancedCustomConfig a)).
  { intros E. rewrite (proj2 (Z.eqb_eq _ _) E) in Hs. destruct (form_config f) as [a|]; [|by destruct (Hr E)].
    exists a. split; [done|]. cbn [fmap option_fmap option_map] in Hs. rewrite routes_text_config in Hs.
    unfold form_config. by rewrite Hs, parse_config_text. }
  exists g. split_and!; [done| |].
  - rewrite Hgt. intros E. by destruct (Hc E) as (a & _ & ->).
  - rewrite Ho. unfold settings_fields at 1.
    rewrite (type_fields_stable f g c o), (upstream_fields_stable f g c o), Hgt by done.
    unfold settings_fields. f_equal. f_equal. f_equal. f_equal.
    destruct (Z.eqb_spec (f_type f) CHANNEL_TYPE_ADVANCED_CUSTOM) as [E|]; [|done].
    destruct (Hc E) as (a & -> & ->). cbn [fmap option_fmap option_map]. by rewrite config_json_normalize.
Qed.

Lemma settings_field_get (f : ChannelFormValues) (o : list (str * json)) (k : str) (v : option json) :
  (k, v) ∈ settings_fields f o -> obj_get k (settings_fields f o) = Some v.
Proof.
  intros Hin%list_elem_of_In. apply obj_get_In_iff; [|done]. unfold obj_keys.
  rewrite settings_keys_eq. apply NoDup_ListNoDup, settings_keys_nodup.
Qed.

(** Saving the settings that were read changes nothing. *)
Lemma settings_saved_again (f : ChannelFormValues) (o s : list (str * json)) (g : ChannelFormValues) :
  routes_read g -> s = fold_left set_opt (settings_fields f o) o -> settings_fields g s = settings_fields f o ->
  settingsObject g s = Some s.
Proof.
  intros Hr Hs Hg. rewrite (settingsObject_fields g s Hr), Hg. f_equal. apply set_opts_same.
  apply List.Forall_forall. intros [k v] Hin. cbn [fst snd]. rewrite Hs, settings_get.
  by rewrite (settings_field_get f o k v) by (by apply list_elem_of_In).
Qed.

(** ** The object of [setting] *)

Definition shards_value (p : HttpProtocol) (v : option json) : list (str * json) :=
  match p with
  | Http1 => [(js "http_protocol", JStr HTTP_PROTOCOL_HTTP1)]
  | HttpAuto => let shards := normalizeHttp2ConnectionShards v in
                if num_lt one (Number_json (Some shards)) then [(js "http2_connection_shards", shards)] else []
  end.

Definition trimmed_text (v : option json) : str := match v with Some (JStr s) => trim s | _ => [] end.

Definition setting_fields (f : ChannelFormValues) : list (str * json) :=
  opt_field "task_plugin_key"
    (if f_type f =? CHANNEL_TYPE_TASK_PLUGIN then Some (JStr (trimmed_text (f_task_plugin_key f))) else None) ++ [
  (js "force_format", or_false (f_force_format f)); (js "thinking_to_content", or_false (f_thinking_to_content f));
  (js "proxy", JStr (trimmed_text (f_proxy f))); (js "pass_through_body_enabled", or_false (f_pass_through_body_enabled f));
  (js "system_prompt", ojson_or (f_system_prompt f) []); (js "system_prompt_override", or_false (f_system_prompt_override f))]
  ++ shards_value (form_protocol f) (f_http2_connection_shards f).

Lemma trim_value_text (v : option json) : is_text v = true -> trim_value v = Ok (trimmed_text v).
Proof. by destruct v as [[]|]. Qed.

Lemma settingObject_fields (f : ChannelFormValues) :
  is_text (f_task_plugin_key f) = true -> is_text (f_proxy f) = true -> settingObject f = Ok (setting_fields f).
Proof.
  intros Hk Hp. unfold settingObject, setting_fields, shards_value. cbv zeta.
  rewrite (trim_value_text _ Hk), (trim_value_text _ Hp).
  by destruct (f_type f =? CHANNEL_TYPE_TASK_PLUGIN), (form_protocol f).
Qed.

(** The kinds of the values that the schema asks for. *)
Definition typed (f : ChannelFormValues) : Prop :=
  is_text (f_task_plugin_key f) = true /\ is_text (f_proxy f) = true /\ is_text (f_system_prompt f) = true /\
  is_switch (f_force_format f) = true /\ is_switch (f_thinking_to_content f) = true /\
  is_switch (f_pass_through_body_enabled f) = true /\ is_switch (f_system_prompt_override f) = true /\
  (forall v, f_http2_connection_shards f = Some v -> json_ok v).

Lemma switch_ok (v : option json) : is_switch v = true -> json_ok (or_false v).
Proof. destruct v as [[]|]; cbn; try done; intros _; [destruct b|]; apply ok_bool. Qed.

Lemma one_ok : num_ok one.
Proof. vm_compute. reflexivity. Qed.

Lemma eight_ok : num_ok (num_of_Z MAX_HTTP2_CONNECTION_SHARDS).
Proof. vm_compute. reflexivity. Qed.

Lemma shards_ok (v : option json) : (forall w, v = Some w -> json_ok w) -> json_ok (normalizeHttp2ConnectionShards v).
Proof.
  intros Hv. unfold normalizeHttp2ConnectionShards. destruct v as [v|]; [|apply ok_num, one_ok].
  specialize (Hv v eq_refl). destruct v; repeat case_match; try done; apply ok_num; (apply one_ok || apply eight_ok).
Qed.

Definition setting_keys : list str := [
  js "task_plugin_key"; js "force_format"; js "thinking_to_content"; js "proxy"; js "pass_through_body_enabled";
  js "system_prompt"; js "system_prompt_override"; js "http_protocol"; js "http2_connection_shards"].

Lemma sublist_app_front (a b ks : list str) (k : str) (x : bool) :
  a = (if x then [k] else []) -> b `sublist_of` ks -> a ++ b `sublist_of` k :: ks.
Proof. intros -> Hb. destruct x; cbn [app]; by constructor. Qed.

Lemma setting_fields_ok (f : ChannelFormValues) : typed f -> json_ok (JObj (setting_fields f)).
Proof.
  intros (_ & _ & H3 & H4 & H5 & H6 & H7 & H8). apply (plain_object _ setting_keys).
  - unfold obj_keys, setting_fields. rewrite !map_app.
    apply (sublist_app_front _ _ _ _ (f_type f =? CHANNEL_TYPE_TASK_PLUGIN)); [by destruct (_ =? _)|].
    cbn [map fst app]. do 6 apply sublist_skip. unfold shards_value. cbv zeta.
    destruct (form_protocol f); [destruct (num_lt _ _)|]; repeat constructor.
  - vm_compute. reflexivity.
  - unfold setting_fields. apply Forall_app_2; [destruct (_ =? _); cbn [opt_field]; repeat constructor|].
    apply Forall_app_2.
    + repeat apply Forall_cons_2; try apply Forall_nil_2; cbn [snd]; try apply ok_str; try by apply switch_ok.
      unfold ojson_or. destruct (f_system_prompt f) as [[]|]; try done; try case_match; apply ok_str.
    + unfold shards_value. cbv zeta. destruct (form_protocol f); [destruct (num_lt _ _)|]; repeat constructor.
      cbn [snd]. by apply shards_ok.
Qed.

Lemma shards_cases (v : option json) :
  normalizeHttp2ConnectionShards v = JNum one \/
  normalizeHttp2ConnectionShards v = JNum (num_of_Z MAX_HTTP2_CONNECTION_SHARDS) \/
  exists w, v = Some w /\ normalizeHttp2ConnectionShards v = w.
Proof. unfold normalizeHttp2ConnectionShards. repeat case_match; eauto. Qed.

Lemma shards_stable (v : option json) :
  normalizeHttp2ConnectionShards (Some (normalizeHttp2ConnectionShards v)) = normalizeHttp2ConnectionShards v.
Proof. by destruct (shards_cases v) as [->|[->|(w & -> & Hw)]]; [..|rewrite !Hw]. Qed.

Lemma shards_value_stable (p : HttpProtocol) (v : option json) :
  shards_value p (Some (match p with
    | Http1 => JNum one
    | HttpAuto => normalizeHttp2ConnectionShards (obj_get "http2_connection_shards" (shards_value p v)) end)) =
  shards_value p v.
Proof.
  destruct p; [|done]. unfold shards_value. cbv zeta.
  destruct (num_lt one (Number_json (Some (normalizeHttp2ConnectionShards v)))) eqn:E; [|reflexivity].
  change (obj_get "http2_connection_shards" [(js "http2_connection_shards", normalizeHttp2ConnectionShards v)])
    with (Some (normalizeHttp2ConnectionShards v)). by rewrite !shards_stable, E.
Qed.

Lemma protocol_back (p : HttpProtocol) : normalizeHttpProtocol (Some (protocol_json p)) = p.
Proof. unfold normalizeHttpProtocol. destruct p; cbn [protocol_json]; by rewrite toLowerCase_ascii by reflexivity. Qed.

Lemma form_protocol_of (f : ChannelFormValues) (p : HttpProtocol) : f_http_protocol f = Some p -> form_protocol f = p.
Proof. intros Hp. unfold form_protocol. rewrite Hp. apply protocol_back. Qed.

(** What is read from the object that was written. *)
Lemma setting_get (f : ChannelFormValues) :
  let o := setting_fields f in
  obj_get "task_plugin_key" o = (if f_type f =? CHANNEL_TYPE_TASK_PLUGIN then Some (JStr (trimmed_text (f_task_plugin_key f))) else None) /\
  obj_get "force_format" o = Some (or_false (f_force_format f)) /\
  obj_get "thinking_to_content" o = Some (or_false (f_thinking_to_content f)) /\
  obj_get "proxy" o = Some (JStr (trimmed_text (f_proxy f))) /\
  obj_get "pass_through_body_enabled" o = Some (or_false (f_pass_through_body_enabled f)) /\
  obj_get "system_prompt" o = Some (ojson_or (f_system_prompt f) []) /\
  obj_get "system_prompt_override" o = Some (or_false (f_system_prompt_override f)) /\
  normalizeHttpProtocol (obj_get "http_protocol" o) = form_protocol f /\
  obj_get "http2_connection_shards" o =
    obj_get "http2_connection_shards" (shards_value (form_protocol f) (f_http2_connection_shards f)).
Proof.
  cbv zeta. unfold setting_fields.
  assert (Ho : forall k c v, obj_get k (opt_field "task_plugin_key" (if c : bool then Some v else None)) =
                 if (k =?s "task_plugin_key") && c then Some v else None).
  { intros k [] v; cbn [opt_field obj_get]; [by rewrite andb_true_r|by rewrite andb_false_r]. }
  rewrite !obj_get_app, !Ho. cbn [obj_get]. literals. cbv iota.
  split_and!; try reflexivity.
  - destruct (f_type f =? CHANNEL_TYPE_TASK_PLUGIN); [done|]. unfold shards_value.
    destruct (form_protocol f); [cbv zeta; destruct (num_lt _ _)|]; reflexivity.
  - unfold shards_value. cbv zeta. destruct (form_protocol f).
    + destruct (num_lt _ _); unfold normalizeHttpProtocol; by rewrite toLowerCase_ascii by reflexivity.
    + change (obj_get "http_protocol" [(js "http_protocol", JStr HTTP_PROTOCOL_HTTP1)]) with (Some (protocol_json Http1)).
      apply protocol_back.
Qed.

Lemma trimmed_text_stable (v : option json) :
  trimmed_text (Some (ojson_or (Some (JStr (trimmed_text v))) [])) = trimmed_text v.
Proof.
  unfold ojson_or. destruct (truthy_json _) eqn:E; cbn [trimmed_text].
  - destruct v as [[]|]; try reflexivity. cbn. apply trim_idem.
  - cbn [truthy_json] in E. by apply truthy_str_false in E as ->.
Qed.

(** The object of a channel that is opened again is the one that was written. *)
Lemma setting_saved_again (f g : ChannelFormValues) (c : Channel) :
  transformChannelToFormDefaults c = Some g -> ch_type c = f_type f -> typed f ->
  object_of (ostr_or (ch_setting c) []) = setting_fields f ->
  settingObject g = Ok (setting_fields f).
Proof.
  intros Hg Ht Hf Ho. destruct (opened_columns c g Hg) as (_ & Hgt & _). rewrite Ht in Hgt.
  destruct (opened_setting c g _ Hg Ho) as (H1 & H2 & H3 & H4 & H5 & H6 & H7 & H8 & H9).
  destruct (setting_get f) as (G1 & G2 & G3 & G4 & G5 & G6 & G7 & G8 & G9).
  rewrite G1 in H1. rewrite G2 in H2. rewrite G3 in H3. rewrite G4 in H4. rewrite G8 in H5. rewrite G8, G9 in H6.
  rewrite G5 in H7. rewrite G6 in H8. rewrite G7 in H9. clear G1 G2 G3 G4 G5 G6 G7 G8 G9.
  rewrite settingObject_fields.
  - f_equal. unfold setting_fields. rewrite Hgt, (form_protocol_of g _ H5), H1, H2, H3, H4, H6, H7, H8, H9.
    rewrite !or_false_stable, !ojson_or_stable, trimmed_text_stable, shards_value_stable.
    destruct (f_type f =? CHANNEL_TYPE_TASK_PLUGIN); [|done]. by rewrite trimmed_text_stable.
  - rewrite H1. destruct (_ =? _); [|done]. unfold ojson_or. by destruct (truthy_json _).
  - rewrite H4. unfold ojson_or. by destruct (truthy_json _).
Qed.

(** ** Texts of the settings *)

Lemma object_of_text (o : list (str * json)) : json_ok (JObj o) -> object_of (stringify (JObj o)) = o.
Proof. intros Ho. unfold object_of. by rewrite json_roundtrip. Qed.

Lemma stringify_truthy (o : list (str * json)) : truthy_str (stringify (JObj o)) = true.
Proof. by rewrite stringify_obj. Qed.

Lemma settingsValue_text (o : list (str * json)) :
  json_ok (JObj o) -> settingsValue (Some (stringify (JObj o))) = JObj o.
Proof.
  intros Ho. unfold settingsValue, ostr_or, str_or. rewrite !stringify_truthy. cbn [andb].
  destruct (str_eqb_spec (stringify (JObj o)) "{}") as [E|E]; cbn [negb].
  - pose proof (json_roundtrip (JObj o) Ho) as Hj. rewrite E in Hj.
    assert (Hn : json_parse "{}" = Some (JObj [])) by reflexivity. congruence.
  - by rewrite json_roundtrip.
Qed.

Lemma json_ok_get (k : str) (v : json) (o : list (str * json)) : json_ok (JObj o) -> obj_get k o = Some v -> json_ok v.
Proof.
  intros Ho Hk. inversion Ho as [| | | | |? _ Hf]; subst. rewrite List.Forall_forall in Hf.
  apply (Hf (k, v)), obj_get_In, Hk.
Qed.

Lemma settings_fields_ok (f : ChannelFormValues) (o : list (str * json)) :
  json_ok (JObj o) ->
  (forall v, f_vertex_key_type f = Some v -> json_ok v) -> (forall v, f_aws_key_type f = Some v -> json_ok v) ->
  (forall v, f_azure_responses_version f = Some v -> json_ok v) ->
  json_ok (JObj (fold_left set_opt (settings_fields f o) o)).
Proof.
  intros Ho H1 H2 H3. apply set_opts_ok; [done|]. unfold settings_fields.
  assert (Hor : forall v d, (forall w, v = Some w -> json_ok w) -> json_ok (ojson_or v d)).
  { intros v d Hv. unfold ojson_or. destruct v as [v|]; [|apply ok_str]. destruct (truthy_json v); [by apply Hv|apply ok_str]. }
  assert (Hw : forall b v, json_ok v -> forall w, when b v = Some w -> json_ok w) by (intros [] v Hv w [= <-]; done).
  assert (Hb : forall c b w, when c (JBool b) = Some w -> json_ok w) by (intros [] b w [= <-]; apply ok_bool).
  apply Forall_app_2; [|apply Forall_app_2].
  - unfold type_fields. cbv zeta. repeat apply Forall_cons_2; try apply Forall_nil_2; cbn [snd]; try apply Hb.
    + apply Hw. by apply Hor.
    + intros w. destruct (f_azure_responses_version f) as [a|]; [|by rewrite andb_false_r].
      unfold when. cbn [nullish]. case_match; [intros [= <-]; by apply H3|done].
    + apply Hw. by apply Hor.
    + intros w [= <-]. apply ok_bool.
  - unfold upstream_fields. destruct (mem_type _ _); [|apply Forall_nil_2]. cbv zeta.
    repeat apply Forall_cons_2; try apply Forall_nil_2; cbn [snd]; intros w Hx.
    + injection Hx as <-. apply ok_bool.
    + injection Hx as <-. apply ok_bool.
    + injection Hx as <-. apply ok_arr, Forall_map, Forall_forall. intros s _. apply ok_str.
    + destruct (is_arr _ && _); [by eapply json_ok_get|]. injection Hx as <-. by apply ok_arr.
    + destruct (is_num _); [by eapply json_ok_get|]. injection Hx as <-. apply ok_num, num_zero_ok.
  - apply Forall_singleton. intros w. cbn [snd]. destruct (_ =? _); [|done].
    destruct (form_config f) as [a|]; [|done]. intros [= <-]. apply config_text_ok.
Qed.

(** ** The payload of an update *)

Lemma obj_get_clean (k : str) (o : list (str * json)) :
  obj_get k (clean o) = (fun v => match v with JStr [] => JNull | w => w end) <$> obj_get k o.
Proof.
  induction o as [|[j v] o IH]; [done|]. unfold clean in *. cbn [map fst snd obj_get].
  destruct (k =?s j); [by destruct v as [| | |[]| |]|exact IH].
Qed.

Lemma cleared_get (k : str) (kvs : list (str * str)) (o : list (str * json)) :
  NoDup (map fst kvs) ->
  obj_get k (fold_left (fun o kv => obj_set (fst kv) (JStr (snd kv)) o) kvs o) =
  match obj_get k kvs with Some v => Some (JStr v) | None => obj_get k o end.
Proof.
  revert o. induction kvs as [|[j v] kvs IH]; intros o Hd; [done|]. cbn [fold_left obj_get fst snd].
  inversion Hd as [|? ? Hj Hd']; subst. rewrite IH by done. rewrite obj_get_set.
  destruct (str_eqb_spec k j) as [->|]; [|done].
  rewrite (proj2 (obj_get_None j kvs)); [done|]. intros Hin. apply Hj. by apply list_elem_of_In.
Qed.

(** The text of a field, where [null] counts as empty. *)
Definition text_of (k : str) (p : list (str * json)) : str :=
  match obj_get k p with Some (JStr s) => s | _ => [] end.

Definition number_of (k : str) (p : list (str * json)) : option num :=
  match obj_get k p with Some (JNum x) => Some x | _ => None end.

(** The columns of a channel hold what was sent; an empty text may be stored as
    a missing one. *)
Record stores (p : list (str * json)) (c : Channel) : Prop := MkStores {
  st_name : ch_name c = text_of "name" p;
  st_type : trunc_Z <$> number_of "type" p = Some (ch_type c);
  st_base_url : ostr_or (ch_base_url c) [] = text_of "base_url" p;
  st_openai_organization : ostr_or (ch_openai_organization c) [] = text_of "openai_organization" p;
  st_models : ch_models c = text_of "models" p;
  st_group : ch_group c = text_of "group" p;
  st_model_mapping : ostr_or (ch_model_mapping c) [] = text_of "model_mapping" p;
  st_priority : ch_priority c = number_of "priority" p;
  st_weight : ch_weight c = number_of "weight" p;
  st_test_model : ostr_or (ch_test_model c) [] = text_of "test_model" p;
  st_auto_ban : ch_auto_ban c = number_of "auto_ban" p;
  st_status_code_mapping : ostr_or (ch_status_code_mapping c) [] = text_of "status_code_mapping" p;
  st_tag : ostr_or (ch_tag c) [] = text_of "tag" p;
  st_remark : ch_remark c = text_of "remark" p;
  st_setting : ostr_or (ch_setting c) [] = text_of "setting" p;
  st_param_override : ostr_or (ch_param_override c) [] = text_of "param_override" p;
  st_header_override : ostr_or (ch_header_override c) [] = text_of "header_override" p;
  st_settings : ch_settings c = text_of "settings" p;
  st_other : ch_other c = text_of "other" p;
}.

Lemma text_of_clean (k : str) (o : list (str * json)) : text_of k (clean o) = text_of k o.
Proof. unfold text_of. rewrite obj_get_clean. by destruct (obj_get k o) as [[| | |[]| |]|]. Qed.

Lemma number_of_clean (k : str) (o : list (str * json)) : number_of k (clean o) = number_of k o.
Proof. unfold number_of. rewrite obj_get_clean. by destruct (obj_get k o) as [[| | |[]| |]|]. Qed.

(** What the payload of a form says of the columns, with a new key or without. *)
Lemma payload_columns (f : ChannelFormValues) (id : num) (setting settings : str) :
  let p := updatePayload f id setting settings in
  text_of "name" p = f_name f /\ number_of "type" p = Some (num_of_Z (f_type f)) /\
  text_of "base_url" p = normalizeBaseUrl (f_base_url f) /\
  text_of "openai_organization" p = ostr_or (f_openai_organization f) [] /\
  text_of "models" p = f_models f /\ text_of "group" p = formatGroups (f_group f) /\
  text_of "model_mapping" p = ostr_or (f_model_mapping f) [] /\
  number_of "priority" p = Some (nullish (f_priority f) num_zero) /\
  number_of "weight" p = Some (nullish (f_weight f) num_zero) /\
  text_of "test_model" p = ostr_or (f_test_model f) [] /\
  number_of "auto_ban" p = Some (nullish (f_auto_ban f) one) /\
  text_of "status_code_mapping" p = ostr_or (f_status_code_mapping f) [] /\
  text_of "tag" p = ostr_or (f_tag f) [] /\ text_of "remark" p = ostr_or (f_remark f) [] /\
  text_of "setting" p = setting /\ text_of "param_override" p = ostr_or (f_param_override f) [] /\
  text_of "header_override" p = ostr_or (f_header_override f) [] /\
  text_of "settings" p = settings /\ text_of "other" p = ostr_or (f_other f) [].
Proof.
  unfold updatePayload. cbv zeta. set (q := clean _). set (p := fold_left _ _ q).
  assert (Hn : NoDup (map fst (clearedFields f))) by (apply (bool_decide_unpack _); vm_compute; exact I).
  assert (Ht : forall k, text_of k p = match obj_get k (clearedFields f) with Some v => v | None => text_of k q end).
  { intros k. unfold p, text_of. rewrite cleared_get by exact Hn. by destruct (obj_get k (clearedFields f)). }
  assert (Hm : forall k, number_of k p = match obj_get k (clearedFields f) with Some v => None | None => number_of k q end).
  { intros k. unfold p, number_of. rewrite cleared_get by exact Hn. by destruct (obj_get k (clearedFields f)). }
  clearbody p. unfold q in *. clear q Hn. rewrite !Ht, !Hm. unfold clearedFields. cbn [obj_get]. literals. cbv iota.
  rewrite ?text_of_clean, ?number_of_clean. unfold text_of, number_of.
  destruct (truthy_str (trim (f_key f))); rewrite ?obj_get_set; literals; cbv iota; unfold updateEntries;
    cbn [obj_get]; literals; cbv iota; by split_and!.
Qed.

(** The payload without the key. *)
Definition keylessPayload (f : ChannelFormValues) (id : num) (setting settings : str) : list (str * json) :=
  fold_left (fun o kv => obj_set (fst kv) (JStr (snd kv)) o) (clearedFields f) (clean (updateEntries f id setting settings)).

Lemma obj_delete_set {A} (k k' : str) (v : A) (o : list (str * A)) :
  k <> k' -> array_index k' = None -> obj_delete k (obj_set k' v o) = obj_set k' v (obj_delete k o).
Proof.
  intros Hk Hi. unfold obj_set. rewrite obj_get_delete, (proj2 (str_eqb_neq k' k)) by done.
  destruct (obj_get k' o); [by apply obj_delete_update_comm|]. rewrite !obj_insert_plain by done.
  unfold obj_delete. rewrite List.filter_app. cbn [List.filter fst]. by rewrite (proj2 (str_eqb_neq k k')).
Qed.

Lemma obj_delete_cleared (k : str) (kvs : list (str * str)) (o : list (str * json)) :
  Forall (fun kv => k <> fst kv /\ array_index (fst kv) = None) kvs ->
  obj_delete k (fold_left (fun o kv => obj_set (fst kv) (JStr (snd kv)) o) kvs o) =
  fold_left (fun o kv => obj_set (fst kv) (JStr (snd kv)) o) kvs (obj_delete k o).
Proof.
  intros Hk. revert o. induction Hk as [|kv kvs [H1 H2] _ IH]; intros o; [done|]. cbn [fold_left].
  rewrite IH. by rewrite obj_delete_set.
Qed.

Lemma delete_key (f : ChannelFormValues) (id : num) (setting settings : str) :
  obj_delete "key" (updatePayload f id setting settings) = keylessPayload f id setting settings.
Proof.
  unfold updatePayload, keylessPayload. cbv zeta. rewrite obj_delete_cleared.
  2: { repeat constructor; cbn [fst]; try discriminate; vm_compute; done. }
  f_equal. destruct (truthy_str (trim (f_key f))); reflexivity.
Qed.

(** The payload is made of the columns, and of the key when there is a new one. *)
Lemma updatePayload_ext (f g : ChannelFormValues) (id : num) (setting settings : str) :
  truthy_str (trim (f_key g)) = false ->
  f_name g = f_name f -> f_type g = f_type f -> normalizeBaseUrl (f_base_url g) = normalizeBaseUrl (f_base_url f) ->
  ostr_or (f_openai_organization g) [] = ostr_or (f_openai_organization f) [] -> f_models g = f_models f ->
  f_group g = f_group f -> ostr_or (f_model_mapping g) [] = ostr_or (f_model_mapping f) [] ->
  nullish (f_priority g) num_zero = nullish (f_priority f) num_zero ->
  nullish (f_weight g) num_zero = nullish (f_weight f) num_zero ->
  ostr_or (f_test_model g) [] = ostr_or (f_test_model f) [] ->
  nullish (f_auto_ban g) one = nullish (f_auto_ban f) one ->
  ostr_or (f_status_code_mapping g) [] = ostr_or (f_status_code_mapping f) [] ->
  ostr_or (f_tag g) [] = ostr_or (f_tag f) [] -> ostr_or (f_remark g) [] = ostr_or (f_remark f) [] ->
  ostr_or (f_param_override g) [] = ostr_or (f_param_override f) [] ->
  ostr_or (f_header_override g) [] = ostr_or (f_header_override f) [] ->
  ostr_or (f_other g) [] = ostr_or (f_other f) [] ->
  updatePayload g id setting settings = obj_delete "key" (updatePayload f id setting settings).
Proof.
  intros Hk H1 H2 H3 H4 H5 H6 H7 H8 H9 H10 H11 H12 H13 H14 H15 H16 H17.
  rewrite delete_key. unfold updatePayload, keylessPayload, updateEntries, clearedFields. cbv zeta.
  by rewrite Hk, H1, H2, H3, H4, H5, H6, H7, H8, H9, H10, H11, H12, H13, H14, H15, H16, H17.
Qed.

(** A form whose values are in the shape in which a channel gives them back: the
    address has no white space before its last slashes, the names of groups are not
    empty and have no commas and no white space around them, priority and weight are
    numbers other than NaN and -0, and the type and the numbers of the settings are
    read back as they are written. *)
Record plain_form (f : ChannelFormValues) : Prop := MkPlain {
  pf_base_url : trim (normalizeBaseUrl (f_base_url f)) = normalizeBaseUrl (f_base_url f);
  pf_group : Forall name_ok (f_group f);
  pf_priority : num_or_zero (nullish (f_priority f) num_zero) = nullish (f_priority f) num_zero;
  pf_weight : num_or_zero (nullish (f_weight f) num_zero) = nullish (f_weight f) num_zero;
  pf_type : trunc_Z (num_of_Z (f_type f)) = f_type f;
  pf_shards : forall v, f_http2_connection_shards f = Some v -> json_ok v;
  pf_settings : json_ok (settingsValue (f_settings f));
}.

Lemma ostr_or_nil (s : str) : ostr_or (Some s) [] = s.
Proof. unfold ostr_or, str_or. destruct (truthy_str s) eqn:E; [done|]. by apply truthy_str_false in E. Qed.

Lemma base_url_stable (s : str) (v : option str) :
  trim (normalizeBaseUrl v) = normalizeBaseUrl v -> s = normalizeBaseUrl v -> normalizeBaseUrl (Some s) = s.
Proof.
  intros Ht ->. unfold normalizeBaseUrl at 1. rewrite ostr_or_nil, Ht. unfold normalizeBaseUrl.
  by rewrite rev_involutive, drop_while_idem.
Qed.

Lemma groups_back (l : list str) :
  Forall name_ok l -> l <> [] -> parseGroups (str_or (formatGroups l) "default") = l.
Proof.
  intros Hl Hn. unfold formatGroups.
  assert (Ht : truthy_str (str_join "," l) = true).
  { destruct l as [|x l]; [done|]. inversion Hl as [|? ? [Hx _] _]; subst. apply truthy_str_true.
    destruct l as [|y l]; cbn [str_join]; [done|]. by destruct x. }
  unfold parseGroups, str_or. rewrite Ht, Ht. by apply comma_list_join.
Qed.

(** Saving a form, and the form of the channel that stores it. *)
Lemma resave (f : ChannelFormValues) (id : num) (o : list (str * json)) :
  plain_form f -> typed f -> routes_read f -> f_group f <> [] -> settingsValue (f_settings f) = JObj o ->
  (forall v, f_vertex_key_type f = Some v -> json_ok v) -> (forall v, f_aws_key_type f = Some v -> json_ok v) ->
  (forall v, f_azure_responses_version f = Some v -> json_ok v) ->
  exists p, transformFormDataToUpdatePayload f id = Some (Ok p) /\
    forall c, stores p c ->
      exists g, transformChannelToFormDefaults c = Some g /\
        transformFormDataToUpdatePayload g id = Some (Ok (obj_delete "key" p)).
Proof.
  intros Hf Ht Hr Hg Ho K1 K2 K3. destruct (Hf) as [P2 P3 P4 P5 P6 _ P8]. rewrite Ho in P8.
  pose proof (settings_fields_ok f o P8 K1 K2 K3) as Hs. pose proof (setting_fields_ok f Ht) as He.
  set (s := fold_left set_opt (settings_fields f o) o) in *.
  exists (updatePayload f id (stringify (JObj (setting_fields f))) (stringify (JObj s))). split.
  { unfold transformFormDataToUpdatePayload, with_settings, buildSettingJSON, buildSettingsJSON.
    rewrite settingObject_fields, Ho, settingsObject_fields by (done || apply Ht). done. }
  intros c Hc. destruct (payload_columns f id (stringify (JObj (setting_fields f))) (stringify (JObj s)))
    as (C1 & C2 & C3 & C4 & C5 & C6 & C7 & C8 & C9 & C10 & C11 & C12 & C13 & C14 & C15 & C16 & C17 & C18 & C19).
  destruct Hc. rewrite C1, C2, C3, C4, C5, C6, C7, C8, C9, C10, C11, C12, C13, C14, C15, C16, C17, C18, C19 in *.
  clear C1 C2 C3 C4 C5 C6 C7 C8 C9 C10 C11 C12 C13 C14 C15 C16 C17 C18 C19.
  cbn [fmap option_fmap option_map] in st_type0. apply (inj Some) in st_type0. rewrite P6 in st_type0. symmetry in st_type0.
  assert (Hs' : object_of (ch_settings c) = s) by (rewrite st_settings0; by apply object_of_text).
  destruct (opens_again f c o Hr st_type0 Hs') as (g & Hg' & Hrg & Hfg). rewrite Hs' in Hfg.
  exists g. split; [done|].
  destruct (opened_columns c g Hg') as (O1 & O2 & O3 & O4 & O5 & O6 & O7 & O8 & O9 & O10 & O11 & O12 & O13 & O14 & O15 & O16 & O17 & O18 & O19).
  unfold transformFormDataToUpdatePayload, with_settings, buildSettingJSON, buildSettingsJSON.
  rewrite (setting_saved_again f g c), O18, st_settings0 by (done || by rewrite st_setting0; apply object_of_text).
  replace (str_or (stringify (JObj s)) "{}") with (stringify (JObj s)) by (unfold str_or; by rewrite stringify_truthy).
  rewrite settingsValue_text, (settings_saved_again f o s g) by done. cbn [mbind option_bind]. f_equal. f_equal.
  apply updatePayload_ext; try done; try congruence.
  - by rewrite O4.
  - rewrite O3, st_base_url0. by eapply base_url_stable.
  - by rewrite O5, ostr_or_nil.
  - rewrite O7, st_group0. by apply groups_back.
  - by rewrite O8, ostr_or_nil.
  - by rewrite O9, st_priority0.
  - by rewrite O10, st_weight0.
  - by rewrite O11, ostr_or_nil.
  - by rewrite O12, st_auto_ban0.
  - by rewrite O13, ostr_or_nil.
  - by rewrite O14, ostr_or_nil.
  - by rewrite O15, ostr_or_nil.
  - by rewrite O16, ostr_or_nil.
  - by rewrite O17, ostr_or_nil.
  - by rewrite O19, ostr_or_nil.
Qed.

(** What the schema accepts. *)
Lemma accepted_routes (isHttpURL : str -> bool) (newURL : str -> option URL) (f : ChannelFormValues) :
  channelFormAccepts newURL isHttpURL f = true -> routes_read f.
Proof.
  unfold channelFormAccepts, routes_read, form_config. intros [_ Hi]%andb_true_iff Ht.
  apply Z.eqb_eq in Hi. unfold channelFormIssues in Hi. cbv zeta in Hi. rewrite Ht in Hi. cbn [Z.eqb] in Hi.
  assert (Hr : routeIssues isHttpURL f = []).
  { destruct (routeIssues isHttpURL f); [done|]. rewrite !length_app in Hi. cbn in Hi. lia. }
  unfold routeIssues in Hr. destruct (parseAdvancedCustomConfig (f_advanced_custom f)); [done|..]; done.
Qed.

Lemma text_ok (v : option json) (w : json) : is_text v = true -> v = Some w -> json_ok w.
Proof. intros Hv ->. destruct w; try done. apply ok_str. Qed.

Lemma choice_ok (l : list str) (v : option json) (w : json) : is_choice l v = true -> v = Some w -> json_ok w.
Proof. intros Hv ->. destruct w; try done. apply ok_str. Qed.

Lemma drop_while_nil {A} (p : A -> bool) (l : list A) : drop_while p l = [] -> forallb p l = true.
Proof. intros Hd. destruct (drop_while_suffix p l) as (k & Hk & Hp). rewrite Hd, app_nil_r in Hk. by subst. Qed.

Lemma trim_nil_ws (s : str) : trim s = [] -> forall c, In c s -> is_ws c = true.
Proof.
  unfold trim, trimEnd, trimStart. intros Ht%(f_equal (@rev N)) c Hc. rewrite rev_involutive in Ht.
  apply drop_while_nil in Ht. rewrite forallb_forall in Ht.
  destruct (drop_while_suffix is_ws s) as (k & Hk & Hp). rewrite Hk in Hc. apply in_app_or in Hc as [Hc|Hc].
  - rewrite forallb_forall in Hp. by apply Hp.
  - apply Ht. by apply -> in_rev.
Qed.

(** A text of white space is not JSON. *)
Lemma blank_not_json (s : str) : trim s = [] -> json_parse s = None.
Proof.
  intros Ht. unfold json_parse. cbn [parse_value]. destruct (skip_ws s) as [|c r] eqn:E; [done|].
  assert (Hc : is_ws c = true).
  { apply (trim_nil_ws s Ht). unfold skip_ws in E. apply (in_drop_while is_json_ws). rewrite E. by left. }
  assert (Hn : forall x, is_ws x = false -> (c =? x)%N = false).
  { intros x Hx. apply N.eqb_neq. intros ->. by rewrite Hc in Hx. }
  assert (Hs : forall p, match p with x :: _ => is_ws x | [] => true end = false -> startsWith (c :: r) p = false).
  { intros [|x y] Hx; [done|]. cbn [startsWith]. by rewrite N.eqb_sym, (Hn x Hx). }
  rewrite !Hn by reflexivity. rewrite (Hs "null"), (Hs "true"), (Hs "false") by reflexivity.
  destruct (parse_num (c :: r)) as [[x q]|] eqn:En; [|done].
  apply parse_num_first in En as [->|Hd]; [done|].
  apply digit_not_ws in Hd. by rewrite Hc in Hd.
Qed.

Lemma accepted_settings (v : option str) : isOptionalJsonObject v = true -> exists o, settingsValue v = JObj o.
Proof.
  unfold isOptionalJsonObject, parseOptionalJson, settingsValue. destruct v as [s|]; [|by eexists].
  rewrite ostr_or_nil. destruct (truthy_str s && negb (s =?s "{}")); [|by eexists].
  destruct (json_parse s) as [j|] eqn:E; [|by eexists].
  destruct (truthy_str (trim s)) eqn:Et; cbn [negb].
  - intros Hj. destruct j; try done. by eexists.
  - intros _. rewrite blank_not_json in E by (by apply truthy_str_false). done.
Qed.

Lemma accepted_typed (newURL : str -> option URL) (f : ChannelFormValues) :
  fields_ok newURL f = true -> (forall v, f_http2_connection_shards f = Some v -> json_ok v) ->
  typed f /\ f_group f <> [] /\ (exists o, settingsValue (f_settings f) = JObj o) /\
  (forall v, f_vertex_key_type f = Some v -> json_ok v) /\ (forall v, f_aws_key_type f = Some v -> json_ok v) /\
  (forall v, f_azure_responses_version f = Some v -> json_ok v).
Proof.
  unfold fields_ok. intros Hf Hs. rewrite !andb_true_iff in Hf. destruct_and! Hf. split_and!; try done.
  - by destruct (f_group f).
  - by apply accepted_settings.
  - intros v. by eapply choice_ok.
  - intros v. by eapply choice_ok.
  - intros v. by apply text_ok.
Qed.

(** C16: A form that the schema accepts and whose values are in the shape in which a
    channel gives them back ([plain_form]: no white space before the last slashes of
    the address, names of groups that are not empty, trimmed and without commas,
    numbers that are read back as they are written) is turned into a payload; and when
    a channel stores that payload, opening the channel and saving it without a change
    sends the same payload again, less the key, which is sent only when it is typed:
    nothing of a channel is lost or changed by an edit that does not touch it, neither
    in the columns nor in the two texts of settings. *)
Theorem saved_form_reopens (newURL : str -> option URL) (isHttpURL : str -> bool) (f : ChannelFormValues) (id : num) :
  channelFormAccepts newURL isHttpURL f = true -> plain_form f ->
  exists p, transformFormDataToUpdatePayload f id = Some (Ok p) /\
    forall c, stores p c ->
      exists g, transformChannelToFormDefaults c = Some g /\
        transformFormDataToUpdatePayload g id = Some (Ok (obj_delete "key" p)).
Proof.
  intros Ha Hp. pose proof (accepted_routes _ _ _ Ha) as Hr. apply andb_true_iff in Ha as [Ha _].
  destruct (accepted_typed newURL f Ha (pf_shards f Hp)) as (Ht & Hg & [o Ho] & H1 & H2 & H3).
  by apply (resave f id o).
Qed.

(** The settings of an accepted form are written field by field: a field that
    belongs to the type of the channel gets the value of the form, a field of
    another type is removed, and every field that the form does not know is kept
    as it was. *)
Theorem settings_written (newURL : str -> option URL) (isHttpURL : str -> bool) (f : ChannelFormValues)
    (o : list (str * json)) :
  channelFormAccepts newURL isHttpURL f = true -> settingsValue (f_settings f) = JObj o ->
  exists s, buildSettingsJSON f = Some (Ok (stringify (JObj s))) /\
    (forall k v, (k, v) ∈ settings_fields f o -> obj_get k s = v) /\
    (forall k, k ∉ settings_keys (f_type f) -> obj_get k s = obj_get k o).
Proof.
  intros Ha Ho. pose proof (accepted_routes _ _ _ Ha) as Hr.
  exists (fold_left set_opt (settings_fields f o) o). split_and!.
  - unfold buildSettingsJSON. rewrite Ho, settingsObject_fields by done. done.
  - intros k v Hk. rewrite settings_get, (settings_field_get f o k v Hk). done.
  - intros k Hk. rewrite settings_get, (proj2 (obj_get_None k (settings_fields f o))); [done|].
    unfold obj_keys. by rewrite settings_keys_eq, <- list_elem_of_In.
Qed.

(** ** Sending an update *)

Lemma deletes_get {A} (ks : list str) (o : list (str * A)) (k : str) :
  obj_get k (fold_left (fun o field => obj_delete field o) ks o) = if mem_str k ks then None else obj_get k o.
Proof.
  revert o. induction ks as [|j ks IH]; intros o; [done|]. cbn [fold_left]. rewrite IH, obj_get_delete.
  change (mem_str k (j :: ks)) with ((k =?s j) || mem_str k ks). by destruct (k =?s j), (mem_str k ks).
Qed.

(** Without the right to edit sensitive fields, an update holds none of them,
    no key and no mode of the keys; all the other fields are those of the form. *)
Theorem locked_update (isMultiKeyChannel : bool) (f : ChannelFormValues) (id : num) (q : list (str * json)) :
  transformFormDataToUpdatePayload f id = Some (Ok q) ->
  exists p, sentUpdate false isMultiKeyChannel f id = Some (Ok p) /\
    forall k, obj_get k p = if mem_str k SENSITIVE_UPDATE_FIELDS then None else obj_get k q.
Proof.
  intros Hq. unfold sentUpdate. rewrite Hq. cbv zeta. cbn [andb].
  eexists. split; [by destruct (f_key_mode f)|]. intros k. rewrite deletes_get.
  destruct (mem_str k SENSITIVE_UPDATE_FIELDS) eqn:E; [done|].
  destruct (truthy_str (trim (f_key f))); [done|]. rewrite obj_get_delete.
  destruct (str_eqb_spec k "key") as [->|]; [done|done].
Qed.

End Reopen.

(** ** The guards of a save *)

(** The names that a mapping maps. *)
Definition mapping_sources (mapping : str) : list str :=
  match json_parse mapping with Some (JObj o) => filter_truthy (map trim (obj_keys o)) | _ => [] end.

Lemma elem_of_filter_truthy (x : str) (l : list str) : x ∈ filter_truthy l <-> x ∈ l /\ x <> [].
Proof. unfold filter_truthy. rewrite !list_elem_of_In, filter_In, truthy_str_true. done. Qed.

Lemma missing_spec (mapping : str) (models : list str) (x : str) :
  truthy_str (trim mapping) = true -> Forall (fun m => trim m = m) models ->
  x ∈ findMissingModelsInMapping mapping models <-> x ∈ mapping_sources mapping /\ x ∉ models.
Proof.
  intros Ht Hm. unfold findMissingModelsInMapping, mapping_sources.
  assert (Hs : truthy_str mapping = true) by (by destruct mapping).
  rewrite Hs. destruct (trim mapping =?s []) eqn:E; [by apply str_eqb_eq in E; rewrite E in Ht|]. cbn [negb orb].
  destruct (json_parse mapping) as [[| | | | |o]|]; try (by split; [intros []%not_elem_of_nil|intros [[]%not_elem_of_nil _]]).
  rewrite elem_of_dedupe, list_elem_of_In, filter_In, elem_of_filter_truthy, list_elem_of_In.
  rewrite andb_true_iff, negb_true_iff, truthy_str_true, mem_str_false.
  replace (map normalizeModelName models) with models; [tauto|].
  symmetry. rewrite (map_ext_in _ id), map_id; [done|]. intros y Hy. rewrite List.Forall_forall in Hm. by apply Hm.
Qed.

Lemma models_trimmed (s : str) : Forall (fun m => trim m = m) (parseModelsString s).
Proof.
  unfold parseModelsString. destruct (truthy_str s); [|done].
  eapply Forall_impl; [apply comma_list_ok|]. by intros x (_ & ? & _).
Qed.

Lemma set_models_models (m : str) (d : ChannelFormValues) : f_models (set_models m d) = m.
Proof. by destruct d. Qed.

Lemma set_models_other (m : str) (d : ChannelFormValues) :
  f_key (set_models m d) = f_key d /\ f_model_mapping (set_models m d) = f_model_mapping d /\
  f_status_code_mapping (set_models m d) = f_status_code_mapping d /\ set_models (f_models d) (set_models m d) = d.
Proof. by destruct d. Qed.

(** The models that are added are in the text of the models. *)
Lemma models_added (models missing : list str) (x : str) :
  Forall name_ok models -> Forall name_ok missing -> x ∈ models ++ missing ->
  x ∈ parseModelsString (formatModelsArray (dedupe (models ++ missing))).
Proof.
  intros H1 H2 Hx. unfold parseModelsString, formatModelsArray.
  rewrite (dedupe_id (dedupe _)) by apply NoDup_dedupe. set (l := dedupe (models ++ missing)).
  assert (Hl : x ∈ l) by (by apply elem_of_dedupe).
  assert (Hn : Forall name_ok l) by (apply dedupe_names; by apply Forall_app_2).
  destruct (truthy_str (str_join "," l)) eqn:E; [by rewrite comma_list_join|].
  apply truthy_str_false in E. pose proof (comma_list_join l Hn) as Hj. rewrite E in Hj. by rewrite <- Hj in Hl.
Qed.

(** What the check of a mapping lets pass. *)
Lemma checkMapping_passes (o : Opened) (answers : Answers) (data d : ChannelFormValues) :
  let mapping := ostr_or (f_model_mapping data) [] in
  let models := parseModelsString (f_models data) in
  let missing := findMissingModelsInMapping mapping models in
  checkMapping o answers data = inr d -> truthy_str (trim mapping) = true ->
  validateModelMappingJson mapping = None /\
  (d = data /\ (missing = [] \/ hasModelConfigChanged models mapping (op_models o) (op_model_mapping o) = false \/
                missingAction answers missing = SubmitAnyway) \/
   d = set_models (formatModelsArray (dedupe (models ++ missing))) data).
Proof.
  cbv zeta. unfold checkMapping. intros Hd Ht. destruct (trim _ =?s []) eqn:E; [by apply str_eqb_eq in E; rewrite E in Ht|].
  destruct (validateModelMappingJson _); [done|]. split; [done|]. cbv zeta in Hd.
  destruct (findMissingModelsInMapping _ _) as [|m ms] eqn:Em; cbn [length] in Hd.
  { replace (0 <? Z.of_nat 0) with false in Hd by reflexivity. injection Hd as <-. auto. }
  replace (0 <? Z.of_nat (S (length ms))) with true in Hd by (symmetry; apply Z.ltb_lt; lia). cbn [andb] in Hd.
  destruct (hasModelConfigChanged _ _ _ _); [|injection Hd as <-; auto].
  destruct (missingAction answers (m :: ms)); [done|..]; injection Hd as <-; auto.
Qed.

Lemma sources_listed (o : Opened) (answers : Answers) (data d : ChannelFormValues) (x : str) :
  let mapping := ostr_or (f_model_mapping data) [] in
  let models := parseModelsString (f_models data) in
  checkMapping o answers data = inr d -> truthy_str (trim mapping) = true ->
  hasModelConfigChanged models mapping (op_models o) (op_model_mapping o) = true ->
  missingAction answers (findMissingModelsInMapping mapping models) <> SubmitAnyway ->
  Forall (fun x => avoids (chr ",") x = true) (mapping_sources mapping) ->
  x ∈ mapping_sources mapping -> x ∈ parseModelsString (f_models d).
Proof.
  cbv zeta. intros Hd Ht Hch Hact Hcomma Hx.
  pose proof (missing_spec _ (parseModelsString (f_models data)) x Ht (models_trimmed _)) as Hm.
  assert (Hnames : Forall name_ok (findMissingModelsInMapping (ostr_or (f_model_mapping data) []) (parseModelsString (f_models data)))).
  { apply Forall_forall. intros y Hy. apply (missing_spec _ _ y Ht (models_trimmed _)) in Hy as [Hy _].
    rewrite Forall_forall in Hcomma. pose proof (Hcomma y Hy). unfold mapping_sources in Hy.
    destruct (json_parse _) as [[]|]; try by apply not_elem_of_nil in Hy.
    apply elem_of_filter_truthy in Hy as [Hy Hne]. apply list_elem_of_In, in_map_iff in Hy as (z & <- & _).
    split_and!; [done|apply trim_idem|done]. }
  assert (Hok : Forall name_ok (parseModelsString (f_models data))).
  { unfold parseModelsString. destruct (truthy_str (f_models data)); [apply comma_list_ok|done]. }
  destruct (checkMapping_passes o answers data d Hd Ht) as [_ [[-> [E|[E|E]]]| ->]].
  - rewrite E in Hm. destruct (decide (x ∈ parseModelsString (f_models data))); [done|]. exfalso. by eapply not_elem_of_nil, Hm.
  - by rewrite E in Hch.
  - done.
  - rewrite set_models_models. apply models_added; [done|done|]. apply elem_of_app.
    destruct (decide (x ∈ parseModelsString (f_models data))); [by left|]. right. by apply Hm.
Qed.

(** What the check of the status codes lets pass. *)
Lemma checkStatusCodes_passes (o : Opened) (answers : Answers) (data : ChannelFormValues) :
  let mapping := ostr_or (f_status_code_mapping data) [] in
  let risky := RiskGuard.collectNewDisallowedStatusCodeRedirects (op_status_code_mapping o) mapping in
  checkStatusCodes o answers data = None -> truthy_str (trim mapping) = true ->
  RiskGuard.collectInvalidStatusCodeEntries mapping = [] /\ (risky = [] \/ confirmsRisk answers risky = true).
Proof.
  cbv zeta. unfold checkStatusCodes. intros Hd Ht. rewrite Ht in Hd. cbn [negb] in Hd.
  destruct (RiskGuard.collectInvalidStatusCodeEntries _); [|done]. split; [done|].
  destruct (RiskGuard.collectNewDisallowedStatusCodeRedirects _ _) as [|r rs]; [by left|]. right.
  by destruct (confirmsRisk answers (r :: rs)).
Qed.

(** C17: What the drawer hands on to be saved has passed its guards: a new channel
    has a key, a locked channel has no sensitive field that was changed, the
    status codes are valid and each new risky redirect was confirmed, the mapping
    of models is valid; and unless the user chose to submit anyway, all the names
    that a changed mapping maps are models of the channel. *)
Theorem submit_guarded (isEditing canEditSensitive : bool) (dirtyFields : list str) (o : Opened) (answers : Answers)
    (data d : ChannelFormValues) :
  let mapping := ostr_or (f_model_mapping data) [] in
  let codes := ostr_or (f_status_code_mapping data) [] in
  let risky := RiskGuard.collectNewDisallowedStatusCodeRedirects (op_status_code_mapping o) codes in
  let models := parseModelsString (f_models data) in
  onSubmit isEditing canEditSensitive dirtyFields o answers data = inr d ->
  (isEditing = false -> truthy_str (trim (f_key d)) = true) /\
  (isEditing = true -> canEditSensitive = false -> forall k, k ∈ SENSITIVE_FORM_FIELDS -> k ∉ dirtyFields) /\
  set_models (f_models data) d = data /\
  (truthy_str (trim codes) = true ->
     RiskGuard.collectInvalidStatusCodeEntries codes = [] /\ (risky = [] \/ confirmsRisk answers risky = true)) /\
  (truthy_str (trim mapping) = true ->
     validateModelMappingJson mapping = None /\
     (hasModelConfigChanged models mapping (op_models o) (op_model_mapping o) = true ->
      missingAction answers (findMissingModelsInMapping mapping models) <> SubmitAnyway ->
      Forall (fun x => avoids (chr ",") x = true) (mapping_sources mapping) ->
      forall x, x ∈ mapping_sources mapping -> x ∈ parseModelsString (f_models d))).
Proof.
  cbv zeta. unfold onSubmit. intros Hd.
  destruct (negb isEditing && negb (truthy_str (trim (f_key data)))) eqn:Ek; [done|].
  destruct (isEditing && negb canEditSensitive && _) eqn:Es; [done|].
  destruct (checkStatusCodes o answers data) eqn:Ec; [done|].
  assert (Hsame : d = data \/ exists m, d = set_models m data).
  { destruct (truthy_str (trim (ostr_or (f_model_mapping data) []))) eqn:Et.
    - destruct (checkMapping_passes o answers data d Hd Et) as [_ [[-> _]| ->]]; eauto.
    - unfold checkMapping in Hd. apply truthy_str_false in Et. rewrite Et in Hd. injection Hd as <-. by left. }
  split_and!.
  - intros ->. cbn [negb andb] in Ek. apply negb_false_iff in Ek. destruct Hsame as [->|[m ->]]; [done|].
    by destruct (set_models_other m data) as [-> _].
  - intros -> -> k Hk Hin. cbn [negb andb] in Es. apply not_true_iff_false in Es. apply Es, existsb_exists.
    exists k. split; [by apply list_elem_of_In|by apply mem_str_true].
  - destruct Hsame as [->|[m ->]]; [by destruct data|]. apply set_models_other.
  - by apply checkStatusCodes_passes.
  - intros Ht. destruct (checkMapping_passes o answers data d Hd Ht) as [Hv Hc]. split; [done|].
    intros Hch Hact Hcomma x Hx. by eapply sources_listed.
Qed.

(** ** Connection info on the clipboard *)

(** What is copied is read back, with white space around it. *)
Lemma connection_info_roundtrip (key url : str) :
  parseChannelConnectionInfo (Some (encodeChannelConnectionInfo key url)) = Some (MkConnection key url).
Proof.
  unfold parseChannelConnectionInfo, encodeChannelConnectionInfo. rewrite ostr_or_nil.
  set (o := [_; _; _]). assert (Ho : json_ok (JObj o)).
  { constructor; [vm_compute; reflexivity|]. repeat constructor. }
  rewrite trim_id by (by apply stringify_trimmed). rewrite json_roundtrip by done. reflexivity.
Qed.

(** ** Instances *)

(** A channel that stores a payload. *)
Definition store (p : list (str * json)) : Channel :=
  MkChannel (text_of "name" p) (match number_of "type" p with Some x => trunc_Z x | None => 0 end)
    (Some (text_of "base_url" p)) (Some (text_of "openai_organization" p)) (text_of "models" p) (text_of "group" p)
    (Some (text_of "model_mapping" p)) (number_of "priority" p) (number_of "weight" p) (Some (text_of "test_model" p))
    (number_of "auto_ban" p) one (Some (text_of "status_code_mapping" p)) (Some (text_of "tag" p)) (text_of "remark" p)
    (Some (text_of "setting" p)) (Some (text_of "param_override" p)) (Some (text_of "header_override" p))
    (text_of "settings" p) (text_of "other" p) None.

Lemma store_stores (p : list (str * json)) (x : num) : number_of "type" p = Some x -> stores p (store p).
Proof. intros Hx. constructor; cbn [store ch_name ch_type]; rewrite ?Hx, ?ostr_or_nil; try done; apply ostr_or_nil. Qed.

Definition sampleForm : ChannelFormValues :=
  let d := set_models "gpt-4o,gpt-4" CHANNEL_FORM_DEFAULT_VALUES in
  MkForm "one" 1 (Some (js "https://api.example.com/")) (f_task_plugin_key d) "sk-1" (f_openai_organization d)
    (f_models d) [js "default"; js "vip"] (f_model_mapping d) (f_priority d) (f_weight d) (f_test_model d) (f_auto_ban d)
    (f_status d) (f_status_code_mapping d) (f_tag d) (f_remark d) (f_setting d) (f_param_override d) (f_header_override d)
    (Some (js "{}")) (f_advanced_custom d) (f_other d) (f_multi_key_mode d) (f_multi_key_type d)
    (f_batch_add_set_key_prefix_2_name d) (f_key_mode d) (f_force_format d) (f_thinking_to_content d)
    (Some (JStr " http://proxy:1 ")) (f_http_protocol d) (Some (JNum (num_of_Z 4))) (f_pass_through_body_enabled d)
    (f_system_prompt d) (f_system_prompt_override d) (f_is_enterprise_account d) (f_vertex_key_type d) (f_aws_key_type d)
    (f_azure_responses_version d) (Some true) (f_disable_store d) (f_allow_safety_identifier d)
    (f_allow_include_obfuscation d) (f_allow_inference_geo d) (f_allow_speed d) (f_claude_beta_query d)
    (f_disable_task_polling_sleep d) (Some true) (f_upstream_model_update_auto_sync_enabled d)
    (Some (js "gpt-3.5, o1 ,o1")).

Definition sampleURL (s : str) : option URL := Some (MkURL "http:" "proxy" "1").

Lemma saved_form_reopens_witness :
  exists p g, @transformFormDataToUpdatePayload AsciiCase sampleForm (num_of_Z 7) = Some (Ok p) /\
    stores p (store p) /\ @transformChannelToFormDefaults AsciiCase (store p) = Some g /\
    @transformFormDataToUpdatePayload AsciiCase g (num_of_Z 7) = Some (Ok (obj_delete "key" p)) /\
    obj_get "key" p = Some (JStr "sk-1").
Proof.
  destruct (@saved_form_reopens AsciiCase sampleURL (fun _ => true) sampleForm (num_of_Z 7)) as (p & Hp & Hall).
  - vm_compute. reflexivity.
  - constructor; try (vm_compute; reflexivity).
    + repeat constructor; try done.
    + intros v Hv. injection Hv as <-. apply ok_num. vm_compute. reflexivity.
    + constructor; [reflexivity|]. apply Forall_nil_2.
  - assert (Hs : stores p (store p)).
    { apply (store_stores p one). vm_compute in Hp. injection Hp as <-. vm_compute. reflexivity. }
    destruct (Hall (store p) Hs) as (g & Hg & Hg'). exists p, g. refine (conj Hp (conj Hs (conj Hg (conj Hg' _)))).
    vm_compute in Hp. injection Hp as <-. vm_compute. reflexivity.
Defined.

Lemma settings_written_witness :
  exists s, @buildSettingsJSON sampleForm = Some (Ok (stringify (JObj s))) /\
    obj_get "allow_service_tier" s = Some (JBool true) /\ obj_get "vertex_key_type" s = None /\
    obj_get "other" s = None.
Proof.
  destruct (@settings_written AsciiCase sampleURL (fun _ => true) sampleForm []) as (s & Hs & Hf & Hk).
  - vm_compute. reflexivity.
  - vm_compute. reflexivity.
  - exists s. split_and!; [done|..].
    + apply Hf, list_elem_of_In, obj_get_In. vm_compute. reflexivity.
    + apply Hf, list_elem_of_In, obj_get_In. vm_compute. reflexivity.
    + rewrite Hk; [done|]. apply mem_str_false. vm_compute. reflexivity.
Defined.

Lemma locked_update_witness :
  exists q p, @transformFormDataToUpdatePayload AsciiCase sampleForm (num_of_Z 7) = Some (Ok q) /\
    @sentUpdate AsciiCase false false sampleForm (num_of_Z 7) = Some (Ok p) /\
    obj_get "settings" p = None /\ obj_get "models" p = obj_get "models" q.
Proof.
  destruct (@transformFormDataToUpdatePayload AsciiCase sampleForm (num_of_Z 7)) as [[q|]|] eqn:E;
    [|vm_compute in E; discriminate E|vm_compute in E; discriminate E].
  destruct (@locked_update AsciiCase false sampleForm (num_of_Z 7) q E) as (p & Hp & Hk).
  exists q, p. split_and!; [done|done|by rewrite Hk|by rewrite Hk].
Defined.

(** The mapping of a model that is not listed: the user lets the drawer add it. *)
Definition mappedForm : ChannelFormValues :=
  let d := sampleForm in
  MkForm (f_name d) (f_type d) (f_base_url d) (f_task_plugin_key d) "sk-1" (f_openai_organization d)
    (f_models d) (f_group d) (Some (stringify (JObj [(js "gpt-5", JStr "gpt-4o")]))) (f_priority d) (f_weight d)
    (f_test_model d) (f_auto_ban d) (f_status d) (Some (stringify (JObj [(js "500", JStr "502")]))) (f_tag d) (f_remark d)
    (f_setting d) (f_param_override d) (f_header_override d) (f_settings d) (f_advanced_custom d) (f_other d)
    (f_multi_key_mode d) (f_multi_key_type d) (f_batch_add_set_key_prefix_2_name d) (f_key_mode d) (f_force_format d)
    (f_thinking_to_content d) (f_proxy d) (f_http_protocol d) (f_http2_connection_shards d) (f_pass_through_body_enabled d)
    (f_system_prompt d) (f_system_prompt_override d) (f_is_enterprise_account d) (f_vertex_key_type d) (f_aws_key_type d)
    (f_azure_responses_version d) (f_allow_service_tier d) (f_disable_store d) (f_allow_safety_identifier d)
    (f_allow_include_obfuscation d) (f_allow_inference_geo d) (f_allow_speed d) (f_claude_beta_query d)
    (f_disable_task_polling_sleep d) (f_upstream_model_update_check_enabled d) (f_upstream_model_update_auto_sync_enabled d)
    (f_upstream_model_update_ignored_models d).

Definition yes : Answers := MkAnswers (fun _ => true) (fun _ => AddModels).

Lemma submit_guarded_witness :
  exists d, onSubmit false true [] openNew yes mappedForm = inr d /\ (f_models d =?s "gpt-4o,gpt-4,gpt-5") = true /\
    (js "gpt-5") ∈ parseModelsString (f_models d).
Proof.
  destruct (onSubmit false true [] openNew yes mappedForm) as [r|d] eqn:E; [vm_compute in E; discriminate E|].
  exists d. split; [done|]. destruct (submit_guarded false true [] openNew yes mappedForm d E) as (_ & _ & _ & _ & Hm).
  split; [vm_compute in E; injection E as <-; vm_compute; reflexivity|].
  apply Hm; [vm_compute; reflexivity|vm_compute; reflexivity|done| |].
  - apply List.Forall_forall, forallb_forall. vm_compute. reflexivity.
  - apply mem_str_true. vm_compute. reflexivity.
Defined.

(** A mapped name with a comma is added to the text of the models as two names, and
    is still missing afterwards. *)
Lemma comma_source_stays_missing :
  let mapping := stringify (JObj [(js "a,b", JStr "c")]) in
  let models := parseModelsString "c" in
  let missing := findMissingModelsInMapping mapping models in
  missing = [js "a,b"] /\
  findMissingModelsInMapping mapping (parseModelsString (formatModelsArray (dedupe (models ++ missing)))) = missing.
Proof. vm_compute. split; reflexivity. Qed.
