(* ===== verification/ChannelFields.v ===== *)
(** * Fields of a channel that are edited in place

    - [MappingEditor]: [src/web/src/features/channels/components/model-mapping-editor.tsx],
      the table of the models that a channel renames.  The editor hands a text to
      the form that holds it, and the form gives it back as a property; when the
      property changes, an effect reads the rows from the text again.
    - [FieldCell]: the priority and the weight of a channel in the list of
      channels: [components/numeric-spinner-input.tsx] over
      [lib/channel-field-update.ts], put together by [ChannelFieldCell] of
      [components/channels-columns.tsx].  Timers are those of the browser: a timer
      that was cleared does not fire. *)

From stdpp Require Import base list.
From Stdlib Require Import ZArith NArith Lia.
From S2P Require Import Prelude JsString JsArray JsNumber JsRegex JsJson JsonRoundTrip AdvancedCustom AdvancedCustomLaws StatusCodes ChannelForm ChannelFormLaws.

Local Open Scope Z_scope.

Module MappingEditor.

Record MappingRow : Type := MkRow { row_id : str; row_from : str; row_to : str }.

Inductive JsonError : Type := NotObject | NotStrings | NotJson | Duplicates.

Inductive Mode : Type := Visual | Json.

Record Editor : Type := MkEditor {
  mode : Mode;
  rows : list MappingRow;
  jsonValue : str;
  jsonError : option JsonError;
  nextRowId : Z;
  value : str;
}.

Definition DUPLICATE_MAPPING_SENTINEL : str := js "{ " ++ quote "duplicate_source_models" ++ js ": ".

(** One row of [getDuplicateSources]: the sources seen and the duplicates. *)
Definition duplicateStep (acc : list str * list str) (row : MappingRow) : list str * list str :=
  let '(seen, duplicates) := acc in
  let source := trim (row_from row) in
  if negb (truthy_str source) then acc
  else if mem_str source seen then (seen, if mem_str source duplicates then duplicates else duplicates ++ [source])
  else (seen ++ [source], duplicates).

Definition getDuplicateSources (rs : list MappingRow) : list str := snd (fold_left duplicateStep rs ([], [])).

Definition rowIdText (n : Z) : str := js "mapping-" ++ string_of_Z n.

(** The rows of the entries: a row that is there keeps its identifier. *)
Fixpoint entryRows (previousRows remainingRows : list MappingRow) (index : nat) (n : Z) (entries : list (str * str))
    : list MappingRow * Z :=
  match entries with
  | [] => ([], n)
  | (from, to) :: entries' =>
      let taken row := (row_from row =?s from) ||
        match previousRows !! index with Some p => row_id p =?s row_id row | None => false end in
      match findIndex taken remainingRows with
      | Some i =>
          let existing := nullish (row_id <$> remainingRows !! i) [] in
          let '(rs, n') := entryRows previousRows (delete i remainingRows) (S index) n entries' in
          (MkRow existing from to :: rs, n')
      | None =>
          let '(rs, n') := entryRows previousRows remainingRows (S index) (n + 1) entries' in
          (MkRow (rowIdText (n + 1)) from to :: rs, n')
      end
  end.

Definition setRows (rs : list MappingRow) (n : Z) (e : option JsonError) (st : Editor) : Editor :=
  MkEditor (mode st) rs (jsonValue st) e n (value st).
Definition setJsonError (e : option JsonError) (st : Editor) : Editor := setRows (rows st) (nextRowId st) e st.
Definition setJsonValue (v : str) (st : Editor) : Editor :=
  MkEditor (mode st) (rows st) v (jsonError st) (nextRowId st) (value st).
Definition setMode (m : Mode) (st : Editor) : Editor :=
  MkEditor m (rows st) (jsonValue st) (jsonError st) (nextRowId st) (value st).
Definition setValue (v : str) (st : Editor) : Editor :=
  MkEditor (mode st) (rows st) (jsonValue st) (jsonError st) (nextRowId st) v.

Definition text_value (v : json) : option str := match v with JStr s => Some s | _ => None end.

(** The entries of an object whose values are texts. *)
Definition text_entries (o : list (str * json)) : option (list (str * str)) :=
  mapM (fun kv => pair (fst kv) <$> text_value (snd kv)) o.

Definition parseJsonToRows (text : str) (st : Editor) : Editor :=
  if negb (truthy_str (trim text)) then setRows [] (nextRowId st) None st
  else match json_parse text with
       | None => setJsonError (Some NotJson) st
       | Some (JObj o) =>
           match text_entries o with
           | None => setJsonError (Some NotStrings) st
           | Some entries =>
               let '(rs, n) := entryRows (rows st) (rows st) 0 (nextRowId st) entries in setRows rs n None st
           end
       | Some _ => setJsonError (Some NotObject) st
       end.

(** The effect of a new value. *)
Definition readValue (st : Editor) : Editor := parseJsonToRows (value st) (setJsonValue (value st) st).

(** [props.onChange(v)]: the form holds the text, and the effect runs when it is
    another one. *)
Definition onChange (v : str) (st : Editor) : Editor :=
  if v =?s value st then st else readValue (setValue v st).

(** The editor when it is shown. *)
Definition mount (v : str) : Editor := readValue (MkEditor Visual [] v None 0 v).

(** The setter of [__proto__] ignores a text. *)
Definition assign (k v : str) (o : list (str * json)) : list (str * json) :=
  if k =?s "__proto__" then o else obj_set k (JStr v) o.

Definition rowsObject (rs : list MappingRow) : list (str * json) :=
  fold_left (fun o row => if truthy_str (trim (row_from row)) then assign (trim (row_from row)) (trim (row_to row)) o else o) rs [].

Definition convertRowsToJson (updatedRows : list MappingRow) : str :=
  match updatedRows with
  | [] => []
  | _ => stringify_indent [] (JObj (rowsObject updatedRows))
  end.

Definition syncRows (updatedRows : list MappingRow) (st : Editor) : Editor :=
  let st := setRows updatedRows (nextRowId st) (jsonError st) st in
  match getDuplicateSources updatedRows with
  | _ :: _ => onChange DUPLICATE_MAPPING_SENTINEL (setJsonValue DUPLICATE_MAPPING_SENTINEL (setJsonError (Some Duplicates) st))
  | [] => let json := convertRowsToJson updatedRows in onChange json (setJsonValue json (setJsonError None st))
  end.

Definition handleAddRow (st : Editor) : Editor :=
  let n := nextRowId st + 1 in
  let st := setRows (rows st) n (jsonError st) st in
  syncRows (MkRow (rowIdText n) [] [] :: rows st) st.

Definition handleDeleteRow (id : str) (st : Editor) : Editor :=
  syncRows (List.filter (fun row => negb (row_id row =?s id)) (rows st)) st.

Inductive Field : Type := From | To.

Definition setField (f : Field) (v : str) (row : MappingRow) : MappingRow :=
  match f with From => MkRow (row_id row) v (row_to row) | To => MkRow (row_id row) (row_from row) v end.

Definition handleRowChange (id : str) (field : Field) (newValue : str) (st : Editor) : Editor :=
  syncRows (map (fun row => if row_id row =?s id then setField field newValue row else row) (rows st)) st.

(** The change of the text is read twice: by the handler and by the effect. *)
Definition handleJsonChange (newJson : str) (st : Editor) : Editor :=
  onChange newJson (parseJsonToRows newJson (setJsonValue newJson st)).

Definition template : str := stringify_indent [] (JObj [(js "gpt-3.5-turbo", JStr "gpt-3.5-turbo-0125")]).

Definition handleFillTemplate (st : Editor) : Editor := handleJsonChange template st.

Definition handleModeChange (nextMode : Mode) (st : Editor) : Editor :=
  match nextMode with
  | Json =>
      setMode Json
        (match getDuplicateSources (rows st) with
         | [] => let json := convertRowsToJson (rows st) in onChange json (setJsonValue json st)
         | _ => st
         end)
  | Visual => setMode Visual (parseJsonToRows (jsonValue st) st)
  end.

End MappingEditor.

Module FieldCell.

(** ** The scheduler of updates ([channel-field-update.ts]) *)

(** The variables of the closure, the timers of the browser that have not fired,
    and the updates that were made. *)
Record Scheduler : Type := MkScheduler {
  timeoutId : option nat;
  pendingValue : option num;
  timers : list nat;
  nextTimer : nat;
  updates : list num;
}.

Definition createChannelFieldUpdateScheduler : Scheduler := MkScheduler None None [] 0 [].

Definition clearPendingTimer (s : Scheduler) : Scheduler :=
  match timeoutId s with
  | None => s
  | Some t => MkScheduler None (pendingValue s) (List.filter (fun x => negb (x =? t)%nat) (timers s)) (nextTimer s) (updates s)
  end.

Definition commitPendingValue (s : Scheduler) : Scheduler :=
  let s := clearPendingTimer s in
  match pendingValue s with
  | None => s
  | Some v => MkScheduler (timeoutId s) None (timers s) (nextTimer s) (updates s ++ [v])
  end.

Definition schedule (v : num) (s : Scheduler) : Scheduler :=
  let s := clearPendingTimer s in
  MkScheduler (Some (nextTimer s)) (Some v) (timers s ++ [nextTimer s]) (S (nextTimer s)) (updates s).

Definition flush (s : Scheduler) : Scheduler := commitPendingValue s.

(** A timer of the browser fires, once. *)
Definition fire (t : nat) (s : Scheduler) : Scheduler :=
  if existsb (Nat.eqb t) (timers s) then
    commitPendingValue (MkScheduler (timeoutId s) (pendingValue s) (List.filter (fun x => negb (x =? t)%nat) (timers s))
      (nextTimer s) (updates s))
  else s.

(** ** The input ([numeric-spinner-input.tsx]) *)

Record Limits : Type := MkLimits { lim_min : option num; lim_max : option num; lim_step : num }.

Definition clamp (l : Limits) (v : num) : num :=
  let result := match lim_min l with Some m => num_max m v | None => v end in
  match lim_max l with Some m => num_min m result | None => result end.

(** The cell: the state of the input, its property [value] and the scheduler. *)
Record Cell : Type := MkCell {
  localValue : str;
  editing : bool;
  cell_value : num;
  scheduler : Scheduler;
}.

Definition newCell (v : num) : Cell := MkCell (num_to_string v) false v createChannelFieldUpdateScheduler.

Definition with_local (s : str) (c : Cell) : Cell := MkCell s (editing c) (cell_value c) (scheduler c).
Definition with_editing (b : bool) (c : Cell) : Cell := MkCell (localValue c) b (cell_value c) (scheduler c).
Definition with_scheduler (s : Scheduler) (c : Cell) : Cell := MkCell (localValue c) (editing c) (cell_value c) s.

Definition changed (v : num) (c : Cell) : Cell := with_scheduler (schedule v (scheduler c)) c.

(** The effect of [value] and [editing]. *)
Definition showValue (c : Cell) : Cell := if editing c then c else with_local (num_to_string (cell_value c)) c.

Definition stepBy (l : Limits) (next : num -> num) (c : Cell) : Cell :=
  let v := clamp l (next (num_or_zero (Number (localValue c)))) in
  changed v (with_local (num_to_string v) c).

Definition handleIncrement (l : Limits) (c : Cell) : Cell := stepBy l (fun v => num_add v (lim_step l)) c.
Definition handleDecrement (l : Limits) (c : Cell) : Cell := stepBy l (fun v => num_sub v (lim_step l)) c.

Definition handleStartEdit (c : Cell) : Cell := with_editing true c.

(** [/^-?\d+$/]. *)
Definition re_integer : regex := (Bol · Opt (Cls (N.eqb (chr "-"))) · Plus (Cls c_digit) · Eol)%js.

Definition handleInputChange (raw : str) (c : Cell) : Cell :=
  if (raw =?s []) || (raw =?s "-") then with_local raw c
  else if negb (test re_integer raw) then c
  else with_local raw c.

(** The input loses the focus; the effect of [editing] shows the property again. *)
Definition commitValue (l : Limits) (c : Cell) : Cell :=
  let c := with_editing false c in
  let v := Number (localValue c) in
  if isNaN v || (localValue c =?s []) || (localValue c =?s "-") then showValue (with_local (num_to_string (cell_value c)) c)
  else
    let clamped := clamp l v in
    let c := with_local (num_to_string clamped) c in
    showValue (if negb (num_eq clamped (cell_value c)) then changed clamped c else c).

Definition handleEscape (c : Cell) : Cell := with_local (num_to_string (cell_value c)) (with_editing false c).

(** The list of channels was loaded again. *)
Definition newValue (v : num) (c : Cell) : Cell :=
  showValue (MkCell (localValue c) (editing c) v (scheduler c)).

Definition unmount (c : Cell) : Cell := with_scheduler (flush (scheduler c)) c.

Inductive Event : Type :=
  | Increment | Decrement | StartEdit | Type_ (raw : str) | Blur | Escape | Fire (t : nat) | Reload (v : num) | Unmount.

(** A click on a button takes the focus from the input. *)
Definition leaveInput (l : Limits) (c : Cell) : Cell := if editing c then commitValue l c else c.

(** The focus leaves the control: the input first, when it has the focus. *)
Definition handleControlBlur (l : Limits) (c : Cell) : Cell :=
  let c := leaveInput l c in
  with_scheduler (flush (scheduler c)) c.

(** The buttons are off at their limits, and typing needs the input. *)
Definition atMin (l : Limits) (c : Cell) : bool :=
  match lim_min l with Some m => num_le (Number (localValue c)) m | None => false end.
Definition atMax (l : Limits) (c : Cell) : bool :=
  match lim_max l with Some m => num_le m (Number (localValue c)) | None => false end.

Definition step (l : Limits) (c : Cell) (e : Event) : Cell :=
  match e with
  | Increment => if atMax l c then c else handleIncrement l (leaveInput l c)
  | Decrement => if atMin l c then c else handleDecrement l (leaveInput l c)
  | StartEdit => if editing c then c else handleStartEdit c
  | Type_ raw => if editing c then handleInputChange raw c else c
  | Blur => handleControlBlur l c
  | Escape => if editing c then handleEscape c else c
  | Fire t => with_scheduler (fire t (scheduler c)) c
  | Reload v => newValue v c
  | Unmount => unmount c
  end.

Definition run (l : Limits) (es : list Event) (c : Cell) : Cell := fold_left (step l) es c.

End FieldCell.
