(* ===== verification/ChannelFieldsLaws.v ===== *)
(** * Laws of the fields that are edited in place

    Proofs about [ChannelFields]: what the editor of model mappings hands to the
    form means its rows, or is refused by every check of the form; which rows the
    editor shows; an update of a priority or a weight is sent once, after the last
    change, and within its limits. *)

From stdpp Require Import base list.
From Stdlib Require Import ZArith NArith Lia.
From S2P Require Import Prelude JsString JsArray JsNumber JsRegex JsJson JsonRoundTrip AdvancedCustom AdvancedCustomLaws StatusCodes ChannelForm ChannelFormLaws ChannelFields.

Local Open Scope Z_scope.

Import MappingEditor.

(** ** The rows of a mapping *)

Definition source (r : MappingRow) : str := trim (row_from r).

Definition sources (rs : list MappingRow) : list str := filter_truthy (map source rs).

Lemma sources_cons (r : MappingRow) (rs : list MappingRow) :
  sources (r :: rs) = (if truthy_str (source r) then [source r] else []) ++ sources rs.
Proof. unfold sources, filter_truthy. cbn [map List.filter]. by destruct (truthy_str (source r)). Qed.

Lemma duplicates_from (rs : list MappingRow) (seen dups : list str) :
  NoDup seen ->
  snd (fold_left duplicateStep rs (seen, dups)) = [] <-> dups = [] /\ NoDup (seen ++ sources rs).
Proof.
  revert seen dups. induction rs as [|r rs IH]; intros seen dups Hs.
  { cbn. rewrite app_nil_r. tauto. }
  cbn [fold_left]. rewrite sources_cons. unfold duplicateStep at 2. cbv zeta. fold (source r).
  destruct (truthy_str (source r)) eqn:E; cbn [negb app]; [|by rewrite IH].
  destruct (mem_str (source r) seen) eqn:Em.
  - rewrite IH by done. apply mem_str_true in Em. split.
    + intros [Hd _]. destruct (mem_str (source r) dups) eqn:Ed; [|by destruct dups]. subst. done.
    + intros [_ Hn]. apply NoDup_app in Hn as (_ & Hn & _). destruct (Hn (source r) Em). by left.
  - apply mem_str_false in Em. rewrite IH.
    + by rewrite <- app_assoc.
    + apply NoDup_app. split_and!; [done| |apply NoDup_singleton]. intros x Hx ->%list_elem_of_singleton. done.
Qed.

Lemma duplicates_spec (rs : list MappingRow) : getDuplicateSources rs = [] <-> NoDup (sources rs).
Proof. unfold getDuplicateSources. rewrite duplicates_from by apply NoDup_nil_2. naive_solver. Qed.

(** What a list of rows renames a model to. *)
Definition target (k : str) (rs : list MappingRow) : option str :=
  row_to <$> find (fun r => source r =?s k) rs.

Definition addRow (o : list (str * json)) (r : MappingRow) : list (str * json) :=
  if truthy_str (source r) then assign (source r) (trim (row_to r)) o else o.

Lemma rowsObject_fold (rs : list MappingRow) : rowsObject rs = fold_left addRow rs [].
Proof. reflexivity. Qed.

Lemma rows_get (rs : list MappingRow) (o : list (str * json)) (k : str) :
  NoDup (sources rs) -> (js "__proto__") ∉ sources rs -> k <> [] ->
  obj_get k (fold_left addRow rs o) =
  match target k rs with Some v => Some (JStr (trim v)) | None => obj_get k o end.
Proof.
  revert o. induction rs as [|r rs IH]; intros o Hn Hp Hk; [done|]. cbn [fold_left]. rewrite sources_cons in Hn, Hp.
  unfold target. cbn [find]. unfold addRow at 2. destruct (truthy_str (source r)) eqn:E; cbn [app] in Hn, Hp.
  - inversion Hn as [|? ? Hr Hn']; subst. apply not_elem_of_cons in Hp as [Hp Hp'].
    rewrite IH by done. unfold assign. rewrite (proj2 (str_eqb_neq (source r) "__proto__")) by congruence.
    rewrite obj_get_set. destruct (str_eqb_spec (source r) k) as [<-|Hne].
    + cbn [fmap option_fmap option_map]. rewrite str_eqb_refl. unfold target.
      destruct (find _ rs) as [r'|] eqn:Ef; [|done]. exfalso. apply find_Some in Ef as [Hin Hs%str_eqb_eq].
      apply Hr. unfold sources. apply elem_of_filter_truthy. split; [|by apply truthy_str_true].
      rewrite <- Hs. apply list_elem_of_In, in_map, list_elem_of_In, Hin.
    + rewrite (proj2 (str_eqb_neq k (source r))) by congruence. done.
  - apply truthy_str_false in E. rewrite IH by done. by rewrite E, (proj2 (str_eqb_neq [] k)) by congruence.
Qed.

Lemma rows_ok (rs : list MappingRow) (o : list (str * json)) :
  json_ok (JObj o) -> json_ok (JObj (fold_left addRow rs o)).
Proof.
  revert o. induction rs as [|r rs IH]; intros o Ho; [done|]. cbn [fold_left]. apply IH. unfold addRow, assign.
  destruct (truthy_str (source r)); [|done]. destruct (_ =?s _); [done|]. apply json_ok_set; [done|apply ok_str].
Qed.

Lemma empty_ok : json_ok (JObj []).
Proof. constructor; [reflexivity|apply Forall_nil_2]. Qed.

Definition all_texts (o : list (str * json)) : Prop := Forall (fun kv => exists s, snd kv = JStr s) o.

Lemma all_texts_set (k s : str) (o : list (str * json)) : all_texts o -> all_texts (obj_set k (JStr s) o).
Proof.
  unfold all_texts. rewrite !List.Forall_forall. intros Ho kv Hin.
  apply in_obj_set in Hin as [->|Hin]; [by eexists|by apply Ho].
Qed.

Lemma rows_texts (rs : list MappingRow) (o : list (str * json)) : all_texts o -> all_texts (fold_left addRow rs o).
Proof.
  revert o. induction rs as [|r rs IH]; intros o Ho; [done|]. cbn [fold_left]. apply IH. unfold addRow, assign.
  destruct (truthy_str (source r)); [|done]. destruct (_ =?s _); [done|]. by apply all_texts_set.
Qed.

(** ** What the form is given *)

(** The text that the editor hands on for some rows. *)
Definition handed (rs : list MappingRow) : str :=
  match getDuplicateSources rs with [] => convertRowsToJson rs | _ => DUPLICATE_MAPPING_SENTINEL end.

Lemma parse_keeps_value (t : str) (st : Editor) : value (parseJsonToRows t st) = value st.
Proof.
  unfold parseJsonToRows. destruct (negb _); [done|]. destruct (json_parse t) as [[| | | | |o]|]; try done.
  destruct (text_entries o) as [es|]; [|done]. by destruct (entryRows _ _ _ _ _).
Qed.

Lemma onChange_value (v : str) (st : Editor) : value (onChange v st) = v.
Proof.
  unfold onChange. destruct (str_eqb_spec v (value st)) as [->|]; [done|]. unfold readValue. by rewrite parse_keeps_value.
Qed.

Lemma syncRows_value (rs : list MappingRow) (st : Editor) : value (syncRows rs st) = handed rs.
Proof. unfold syncRows, handed. cbv zeta. destruct (getDuplicateSources rs); apply onChange_value. Qed.

Lemma sentinel_not_json : json_parse DUPLICATE_MAPPING_SENTINEL = None.
Proof. vm_compute. reflexivity. Qed.

Lemma convert_object (rs : list MappingRow) : object_of (convertRowsToJson rs) = rowsObject rs.
Proof.
  destruct rs as [|r rs]; [reflexivity|]. unfold object_of, convertRowsToJson. rewrite json_roundtrip_indent; [done|].
  rewrite rowsObject_fold. apply rows_ok, empty_ok.
Qed.

Lemma texts_strings (o : list (str * json)) :
  all_texts o -> existsb (fun v => match v with JStr _ => false | _ => true end) (obj_values o) = false /\
                 forallb (fun v => match v with JStr _ => true | _ => false end) (obj_values o) = true.
Proof.
  unfold obj_values. induction 1 as [|[k v] o [s Hs] _ [IH1 IH2]]; [done|]. cbn [snd] in Hs. subst. cbn [map snd existsb forallb].
  by rewrite IH1, IH2.
Qed.

(** The text of rows passes the checks of a mapping. *)
Lemma convert_accepted (rs : list MappingRow) :
  validateModelMappingJson (convertRowsToJson rs) = None /\ isOptionalModelMapping (Some (convertRowsToJson rs)) = true.
Proof.
  destruct rs as [|r rs]; [split; reflexivity|]. unfold convertRowsToJson.
  set (o := rowsObject (r :: rs)).
  assert (Ho : json_ok (JObj o)) by (unfold o; rewrite rowsObject_fold; apply rows_ok, empty_ok).
  assert (Ht : all_texts o) by (unfold o; rewrite rowsObject_fold; apply rows_texts; apply Forall_nil_2).
  destruct (texts_strings o Ht) as [H1 H2].
  unfold validateModelMappingJson, isOptionalModelMapping, parseOptionalJson. rewrite (json_roundtrip_indent _ Ho).
  split.
  - by destruct (negb _ || _); [|rewrite H1].
  - by destruct (negb _).
Qed.

(** C18: What an edit of the rows hands to the form means the rows: when two rows
    rename the same model, the text is not JSON and both the schema and the guard
    of the drawer refuse it; otherwise it is accepted and renames each model as
    its row says, and no other model. *)
Theorem edits_mean_rows (rs : list MappingRow) (st : Editor) :
  (js "__proto__") ∉ sources rs ->
  let text := value (syncRows rs st) in
  (~ NoDup (sources rs) ->
     validateModelMappingJson text = Some MappingNotJson /\ isOptionalModelMapping (Some text) = false) /\
  (NoDup (sources rs) ->
     validateModelMappingJson text = None /\ isOptionalModelMapping (Some text) = true /\
     forall k, k <> [] -> obj_get k (object_of text) = (fun to => JStr (trim to)) <$> target k rs).
Proof.
  intros Hp. cbv zeta. rewrite syncRows_value. unfold handed. rewrite <- duplicates_spec.
  destruct (getDuplicateSources rs) as [|d ds] eqn:E.
  - split; [by intros []|]. intros _. split_and!; [apply convert_accepted..|]. intros k Hk.
    rewrite convert_object, rowsObject_fold, rows_get by (done || by apply duplicates_spec).
    by destruct (target k rs).
  - split; [intros _; split; vm_compute; reflexivity|done].
Qed.

(** ** Which rows are shown *)

Lemma entryRows_entries (prev rem : list MappingRow) (i : nat) (n : Z) (es : list (str * str)) :
  map (fun r => (row_from r, row_to r)) (fst (entryRows prev rem i n es)) = es.
Proof.
  revert rem i n. induction es as [|[k v] es IH]; intros rem i n; [done|]. cbn [entryRows].
  destruct (findIndex _ rem) as [j|].
  - specialize (IH (delete j rem) (S i) n). destruct (entryRows prev (delete j rem) (S i) n es). cbn in *. by rewrite IH.
  - specialize (IH rem (S i) (n + 1)). destruct (entryRows prev rem (S i) (n + 1) es). cbn in *. by rewrite IH.
Qed.

Lemma text_entries_all (o : list (str * json)) :
  all_texts o -> exists es, text_entries o = Some es /\ map fst es = obj_keys o.
Proof.
  induction 1 as [|[k v] o [s Hs] _ (es & He & Hk)]; [by exists []|]. cbn [snd] in Hs. subst.
  exists ((k, s) :: es). unfold text_entries in *. cbn. rewrite He. cbn. by rewrite Hk.
Qed.

Lemma rows_keys (rs : list MappingRow) (o : list (str * json)) :
  Forall (fun k => trim k <> []) (obj_keys o) -> Forall (fun k => trim k <> []) (obj_keys (fold_left addRow rs o)).
Proof.
  revert o. induction rs as [|r rs IH]; intros o Ho; [done|]. cbn [fold_left]. apply IH. unfold addRow, assign.
  destruct (truthy_str (source r)) eqn:E; [|done]. destruct (_ =?s _); [done|].
  rewrite List.Forall_forall in Ho |- *. intros k Hk. unfold obj_keys in Hk. apply in_map_iff in Hk as (kv & <- & Hin).
  apply in_obj_set in Hin as [->|Hin]; cbn [fst].
  - unfold source in *. rewrite trim_idem. by apply truthy_str_true.
  - apply Ho. by apply in_map.
Qed.

(** The rows that are read from the text of rows are those with a source. *)
Lemma read_converted (r : MappingRow) (rs : list MappingRow) (st : Editor) :
  Forall (fun r => source r <> []) (rows (parseJsonToRows (convertRowsToJson (r :: rs)) st)).
Proof.
  unfold parseJsonToRows, convertRowsToJson.
  destruct (negb _); [apply Forall_nil_2|].
  set (o := rowsObject (r :: rs)).
  assert (Ho : json_ok (JObj o)) by (unfold o; rewrite rowsObject_fold; apply rows_ok, empty_ok).
  assert (Ht : all_texts o) by (unfold o; rewrite rowsObject_fold; apply rows_texts; apply Forall_nil_2).
  assert (Hk : Forall (fun k => trim k <> []) (obj_keys o)) by (unfold o; rewrite rowsObject_fold; apply rows_keys; apply Forall_nil_2).
  rewrite (json_roundtrip_indent _ Ho). destruct (text_entries_all o Ht) as (es & -> & Hes).
  pose proof (entryRows_entries (rows st) (rows st) 0 (nextRowId st) es) as He.
  destruct (entryRows _ _ _ _ es) as [rs' n]. cbn [fst rows setRows] in *.
  rewrite <- Hes, <- He, map_map in Hk. cbn [fst] in Hk. rewrite List.Forall_forall in Hk |- *.
  intros x Hx. apply (Hk (row_from x)). by apply in_map.
Qed.

Definition blankRow (st : Editor) : MappingRow := MkRow (rowIdText (nextRowId st + 1)) [] [].

Lemma add_handed (st : Editor) : getDuplicateSources (rows st) = [] -> getDuplicateSources (blankRow st :: rows st) = [].
Proof. rewrite !duplicates_spec, sources_cons. done. Qed.

(** A row that is added is shown exactly when the text of the rows is the one that
    the form has. *)
Lemma added_row_shown (st : Editor) :
  getDuplicateSources (rows st) = [] ->
  (value st = convertRowsToJson (blankRow st :: rows st) -> rows (handleAddRow st) = blankRow st :: rows st) /\
  (value st <> convertRowsToJson (blankRow st :: rows st) -> Forall (fun r => source r <> []) (rows (handleAddRow st))).
Proof.
  intros Hd. pose proof (add_handed st Hd) as Hd'. unfold handleAddRow, syncRows. cbv zeta.
  cbn [rows setRows]. change (MkRow (rowIdText (nextRowId st + 1)) [] []) with (blankRow st). rewrite Hd'.
  unfold onChange. cbn [value setJsonValue setJsonError setRows].
  split; intros Hv.
  - rewrite <- Hv, str_eqb_refl. done.
  - rewrite (proj2 (str_eqb_neq _ _)) by congruence. unfold readValue. cbn [value setValue]. apply read_converted.
Qed.

(** The first row that is added to a mapping without text vanishes at once: the
    text becomes an empty object, from which the rows are read again.  A second
    row stays. *)
Theorem first_row_vanishes (v : str) :
  trim v = [] ->
  let st := handleAddRow (mount v) in
  rows st = [] /\ value st = js "{}" /\ rows (handleAddRow st) = [blankRow st].
Proof.
  intros Hv. cbv zeta. unfold mount, readValue, parseJsonToRows. cbn [value setJsonValue]. rewrite Hv. cbn [truthy_str negb].
  set (st0 := setRows _ _ _ _). assert (H0 : value st0 = v) by done.
  assert (Hne : v <> js "{}") by (intros ->; vm_compute in Hv; discriminate Hv).
  assert (Hst : handleAddRow st0 = MkEditor Visual [] (js "{}") None 1 (js "{}")).
  { unfold handleAddRow, syncRows, onChange. cbv zeta. cbn [rows setRows getDuplicateSources].
    change (getDuplicateSources _) with (@nil str). cbv iota. change (convertRowsToJson _) with (js "{}").
    cbn [value setJsonValue setJsonError setRows]. rewrite H0, (proj2 (str_eqb_neq _ _)) by congruence. reflexivity. }
  rewrite Hst. split_and!; [done|done|]. apply (added_row_shown (MkEditor Visual [] (js "{}") None 1 (js "{}"))); reflexivity.
Qed.

(** ** Updates of a field *)

Module FieldCellLaws.
Import FieldCell.

(** A value is pending exactly when its timer runs, and no other timer runs. *)
Definition scheduled (s : Scheduler) : Prop :=
  match timeoutId s with
  | Some t => timers s = [t] /\ pendingValue s <> None
  | None => timers s = [] /\ pendingValue s = None
  end.

Lemma clear_timers (s : Scheduler) : scheduled s -> timeoutId (clearPendingTimer s) = None /\ timers (clearPendingTimer s) = [].
Proof.
  unfold scheduled, clearPendingTimer. destruct (timeoutId s) as [t|] eqn:E; intros [Ht _]; cbn; rewrite Ht, ?E; [|done].
  cbn. by rewrite Nat.eqb_refl.
Qed.

Lemma clear_rest (s : Scheduler) :
  pendingValue (clearPendingTimer s) = pendingValue s /\ updates (clearPendingTimer s) = updates s /\
  nextTimer (clearPendingTimer s) = nextTimer s.
Proof. unfold clearPendingTimer. by destruct (timeoutId s). Qed.

Lemma commit_scheduled (s : Scheduler) :
  timeoutId (clearPendingTimer s) = None -> timers (clearPendingTimer s) = [] -> scheduled (commitPendingValue s).
Proof.
  intros Hi Ht. unfold commitPendingValue, scheduled. cbv zeta.
  destruct (pendingValue (clearPendingTimer s)) eqn:E; cbn; rewrite Hi; [done|]. by rewrite E.
Qed.

Lemma commit_updates (s : Scheduler) :
  updates (commitPendingValue s) = updates s ++ option_list (pendingValue s) /\ pendingValue (commitPendingValue s) = None.
Proof.
  unfold commitPendingValue. cbv zeta. destruct (clear_rest s) as (Hp & Hu & _). rewrite Hp.
  destruct (pendingValue s) eqn:E; cbn [updates pendingValue]; rewrite Hu; [done|]. rewrite Hp. by rewrite app_nil_r.
Qed.

Inductive Op : Type := Schedule (v : num) | Flush | FireTimer (t : nat).

Definition apply (s : Scheduler) (o : Op) : Scheduler :=
  match o with Schedule v => schedule v s | Flush => flush s | FireTimer t => fire t s end.

Definition requested (os : list Op) : list num := omap (fun o => match o with Schedule v => Some v | _ => None end) os.

(** What was sent and what will be. *)
Definition outgoing (s : Scheduler) : list num := updates s ++ option_list (pendingValue s).

Lemma fire_live (t : nat) (s : Scheduler) :
  scheduled s -> In t (timers s) -> timeoutId s = Some t /\ fire t s = commitPendingValue (MkScheduler (Some t) (pendingValue s) [] (nextTimer s) (updates s)).
Proof.
  unfold scheduled. destruct (timeoutId s) as [u|] eqn:E; intros [Ht _] Hin; rewrite Ht in Hin; [|done].
  destruct Hin as [->|[]]. split; [done|]. unfold fire. rewrite Ht. cbn. by rewrite Nat.eqb_refl, E.
Qed.

Lemma apply_scheduled (s : Scheduler) (o : Op) : scheduled s -> scheduled (apply s o).
Proof.
  intros Hs. destruct (clear_timers s Hs) as [Hi Ht]. destruct o as [v| |t]; cbn [apply].
  - unfold schedule, scheduled. cbv zeta. cbn [timeoutId timers pendingValue]. by rewrite Ht.
  - by apply commit_scheduled.
  - destruct (existsb (Nat.eqb t) (timers s)) eqn:E; [|unfold fire; by rewrite E].
    apply existsb_exists in E as (u & Hu & ->%Nat.eqb_eq). destruct (fire_live u s Hs Hu) as [_ ->]. by apply commit_scheduled.
Qed.

Lemma apply_outgoing (s : Scheduler) (o : Op) :
  scheduled s ->
  match o with
  | Schedule v => updates (apply s o) = updates s /\ pendingValue (apply s o) = Some v
  | _ => outgoing (apply s o) = outgoing s
  end.
Proof.
  intros Hs. unfold outgoing. destruct o as [v| |t]; cbn [apply].
  - unfold schedule. cbv zeta. cbn [updates pendingValue]. by destruct (clear_rest s) as (_ & -> & _).
  - unfold flush. destruct (commit_updates s) as [-> ->]. cbn. by rewrite app_nil_r.
  - destruct (existsb (Nat.eqb t) (timers s)) eqn:E; [|unfold fire; by rewrite E].
    apply existsb_exists in E as (u & Hu & ->%Nat.eqb_eq). destruct (fire_live u s Hs Hu) as [_ ->].
    destruct (commit_updates (MkScheduler (Some u) (pendingValue s) [] (nextTimer s) (updates s))) as [-> ->]. cbn. by rewrite app_nil_r.
Qed.

(** C22: Updates of a field are debounced: in every run the values that were sent
    are some of those that were asked for, in their order; the last value that was
    asked for is the last one that was sent, or is pending with one running timer
    that sends it when it fires; nothing else is pending and no other timer runs. *)
Theorem updates_debounced (os : list Op) :
  let s := fold_left apply os createChannelFieldUpdateScheduler in
  outgoing s `sublist_of` requested os /\ last (outgoing s) = last (requested os) /\ scheduled s /\
  forall v, pendingValue s = Some v ->
    exists t, timers s = [t] /\ updates (fire t s) = updates s ++ [v] /\ timers (fire t s) = [].
Proof.
  cbv zeta. induction os as [|o os IH] using rev_ind.
  { split_and!; try done. }
  rewrite fold_left_app. cbn [fold_left]. set (s := fold_left apply os createChannelFieldUpdateScheduler) in *.
  destruct IH as (Hsub & Hlast & Hs & _). pose proof (apply_scheduled s o Hs) as Hs'.
  pose proof (apply_outgoing s o Hs) as Ho. unfold requested in *. rewrite omap_app.
  split_and!.
  - destruct o as [v| |t]; cbn [omap list_omap]; rewrite ?app_nil_r; [|by rewrite Ho..].
    unfold outgoing. destruct Ho as [-> ->]. apply sublist_app; [|done].
    etransitivity; [|exact Hsub]. unfold outgoing. by apply sublist_inserts_r.
  - destruct o as [v| |t]; cbn [omap list_omap]; rewrite ?app_nil_r; [|by rewrite Ho..].
    unfold outgoing. destruct Ho as [_ ->]. cbn. by rewrite !last_snoc.
  - done.
  - intros v Hv. unfold scheduled in Hs'. destruct (timeoutId (apply s o)) as [t|] eqn:E; [|by destruct Hs' as [_ Hn]; rewrite Hn in Hv].
    destruct Hs' as [Ht _]. exists t. split; [done|].
    destruct (fire_live t (apply s o) ltac:(unfold scheduled; rewrite E; by rewrite Hv) ltac:(rewrite Ht; by left)) as [_ ->].
    destruct (commit_updates (MkScheduler (Some t) (pendingValue (apply s o)) [] (nextTimer (apply s o)) (updates (apply s o)))) as [-> _].
    cbn [updates pendingValue]. rewrite Hv. split; [done|]. reflexivity.
Qed.

(** ** Limits *)

(** Not outside of the limits. *)
Definition within (l : Limits) (v : num) : Prop :=
  (forall m, lim_min l = Some m -> num_lt v m = false) /\ (forall m, lim_max l = Some m -> num_lt m v = false).

(** The limits are in their order. *)
Definition ordered (l : Limits) : Prop :=
  forall a b, lim_min l = Some a -> lim_max l = Some b -> num_lt b a = false.

Lemma clamp_within (l : Limits) (v : num) : ordered l -> within l (clamp l v).
Proof.
  unfold ordered, within, clamp. intros Ho. destruct (lim_min l) as [a|], (lim_max l) as [b|]; split; intros m Hm;
    try discriminate Hm; try (apply (inj Some) in Hm as <-).
  - destruct (num_min_cases b (num_max a v)) as [->|[->| ->]]; [apply num_lt_nan|by apply Ho|apply num_max_not_below].
  - apply num_min_not_above.
  - apply num_max_not_below.
  - apply num_min_not_above.
Qed.

Definition sends_within (l : Limits) (c : Cell) : Prop := Forall (within l) (outgoing (scheduler c)).

Lemma schedule_within (l : Limits) (v : num) (s : Scheduler) :
  within l v -> Forall (within l) (outgoing s) -> Forall (within l) (outgoing (schedule v s)).
Proof.
  unfold outgoing, schedule. cbv zeta. cbn [updates pendingValue]. destruct (clear_rest s) as (_ & -> & _).
  intros Hv [Hu _]%Forall_app. apply Forall_app. split; [done|]. by apply Forall_singleton.
Qed.

Lemma commit_within (l : Limits) (s : Scheduler) :
  Forall (within l) (outgoing s) -> Forall (within l) (outgoing (commitPendingValue s)).
Proof. unfold outgoing. destruct (commit_updates s) as [-> ->]. cbn. by rewrite app_nil_r. Qed.

Lemma fire_within (l : Limits) (t : nat) (s : Scheduler) :
  Forall (within l) (outgoing s) -> Forall (within l) (outgoing (fire t s)).
Proof. intros Hs. unfold fire. destruct (existsb _ _); [|done]. by apply commit_within. Qed.

Lemma show_within (l : Limits) (c : Cell) : sends_within l c -> sends_within l (showValue c).
Proof. unfold showValue. by destruct (editing c). Qed.

Lemma leave_within (l : Limits) (c : Cell) : ordered l -> sends_within l c -> sends_within l (leaveInput l c).
Proof.
  intros Ho Hc. unfold leaveInput. destruct (editing c); [|done]. unfold commitValue. cbv zeta.
  destruct (isNaN _ || _ || _); apply show_within; [done|]. destruct (negb _); [|done].
  apply schedule_within; [by apply clamp_within|done].
Qed.

Lemma stepBy_within (l : Limits) (next : num -> num) (c : Cell) :
  ordered l -> sends_within l c -> sends_within l (stepBy l next c).
Proof. intros Ho Hc. apply schedule_within; [by apply clamp_within|done]. Qed.

Lemma step_within (l : Limits) (c : Cell) (e : Event) : ordered l -> sends_within l c -> sends_within l (step l c e).
Proof.
  intros Ho Hc. destruct e; cbn [step].
  - destruct (atMax l c); [done|]. by apply stepBy_within, leave_within.
  - destruct (atMin l c); [done|]. by apply stepBy_within, leave_within.
  - by destruct (editing c).
  - destruct (editing c); [|done]. unfold handleInputChange. repeat case_match; done.
  - apply commit_within. by apply leave_within.
  - by destruct (editing c).
  - by apply fire_within.
  - by apply show_within.
  - by apply commit_within.
Qed.

(** Whatever is typed, clicked or loaded, and whenever timers fire, no value
    outside of the limits of a field is sent. *)
Theorem sent_within_limits (l : Limits) (es : list Event) (v x : num) :
  ordered l -> x ∈ updates (scheduler (run l es (newCell v))) -> within l x.
Proof.
  intros Ho Hx. assert (Hr : sends_within l (run l es (newCell v))).
  { clear Hx. unfold run. induction es as [|e es IH] using rev_ind; [apply Forall_nil_2|].
    rewrite fold_left_app. cbn [fold_left]. by apply step_within. }
  unfold sends_within, outgoing in Hr. apply Forall_app in Hr as [Hr _]. rewrite Forall_forall in Hr. by apply Hr.
Qed.

Definition weightLimits : Limits := MkLimits (Some num_zero) None (num_of_Z 1).

Lemma sent_within_limits_witness :
  within weightLimits num_zero /\ updates (scheduler (run weightLimits [StartEdit; Type_ "-7"; Blur] (newCell (num_of_Z 5)))) = [num_zero].
Proof.
  assert (Hu : updates (scheduler (run weightLimits [StartEdit; Type_ "-7"; Blur] (newCell (num_of_Z 5)))) = [num_zero])
    by (vm_compute; reflexivity).
  split; [|exact Hu].
  apply (sent_within_limits weightLimits [StartEdit; Type_ "-7"; Blur] (num_of_Z 5)).
  - intros a b _ Hb. discriminate Hb.
  - rewrite Hu. by left.
Defined.

(** A step that is taken back by typing the old number is sent all the same:
    the number that was typed equals the saved one, so no new value replaces the
    pending step, and leaving the field sends it. *)
Theorem reverted_step_sent :
  let c := run weightLimits [Increment; StartEdit; Type_ "5"; Blur] (newCell (num_of_Z 5)) in
  localValue c = js "5" /\ updates (scheduler c) = [num_of_Z 6].
Proof. vm_compute. split; reflexivity. Qed.

End FieldCellLaws.

Lemma edits_mean_rows_witness :
  let rs := [MkRow "mapping-1" " gpt-4 " "gpt-4o"; MkRow "mapping-2" "o1" "o3 "] in
  obj_get "gpt-4" (object_of (value (syncRows rs (mount [])))) = Some (JStr "gpt-4o").
Proof.
  cbv zeta. set (rs := [_; _]).
  assert (Hp : (js "__proto__") ∉ sources rs) by (apply mem_str_false; vm_compute; reflexivity).
  destruct (edits_mean_rows rs (mount []) Hp) as [_ Hm].
  destruct Hm as (_ & _ & Hm); [apply (bool_decide_unpack _); vm_compute; exact I|].
  rewrite Hm by done. vm_compute. reflexivity.
Defined.

Lemma first_row_vanishes_witness : rows (handleAddRow (mount " ")) = [].
Proof. apply (first_row_vanishes " "). reflexivity. Defined.

(** The message about duplicate rows is replaced at once by the one about invalid
    JSON, when the text of the duplicates is read. *)
Lemma duplicate_message_replaced :
  jsonError (syncRows [MkRow "mapping-1" "a" "b"; MkRow "mapping-2" "a" "c"] (mount [])) = Some NotJson.
Proof. vm_compute. reflexivity. Qed.
