(* ===== verification/ChannelList.v ===== *)
(** * The list of channels and its dialogs

    - [Tags]: the rows of the list when channels are grouped by their tags, and
      the small readings of a channel, [src/web/src/features/channels/lib/channel-utils.ts].
    - [Keys]: the keys of a channel, in the same file and in
      [components/drawers/channel-mutate-drawer.tsx].
    - [Categories]: [lib/model-categories.ts].
    - [Upstream]: [lib/upstream-update-utils.ts],
      [hooks/use-channel-upstream-updates.ts] and
      [components/dialogs/upstream-update-dialog.tsx], which
      [components/channels-dialogs.tsx] keeps mounted.
    - [FetchModels]: [components/dialogs/fetch-models-dialog.tsx]. *)

From stdpp Require Import base list.
From Stdlib Require Import ZArith NArith Lia.
From S2P Require Import Prelude JsString JsArray JsNumber JsRegex JsJson AdvancedCustom StatusCodes ChannelForm.

Local Open Scope Z_scope.

Module Tags.

(** The fields of a channel that the list reads. *)
Record Channel : Type := MkChannel {
  id : Z;
  tag : option str;
  status : num;
  priority : option num;
  weight : option num;
  used_quota : num;
  response_time : num;
  balance : num;
  group : str;
  is_multi_key : bool;
  multi_key_size : num;
  multi_key_status_count : option Z;
}.

(** The row of a tag; what is set to constants is left out. *)
Record TagRow : Type := MkTagRow {
  tr_tag : str;
  tr_status : option num;
  tr_priority : option num;
  tr_weight : option num;
  tr_used_quota : num;
  tr_response_time : num;
  tr_group : str;
  tr_children : list Channel;
}.

Definition minus_one : num := num_of_Z (-1).

Definition newTagRow (t : str) : TagRow :=
  MkTagRow t None (Some minus_one) (Some minus_one) num_zero num_zero [] [].

Definition tag_of (c : Channel) : str := ostr_or (tag c) [].

(** [a === b] for a number or [null]. *)
Definition same_number (a b : option num) : bool :=
  match a, b with
  | None, None => true
  | Some x, Some y => num_eq x y
  | _, _ => false
  end.

(** The same value, or [null] when they differ. *)
Definition mergeNumber (row channel : option num) : option num :=
  if same_number row (Some minus_one) then channel
  else if negb (same_number row channel) then None
  else row.

Definition mergeGroup (row channel : str) : str :=
  if row =?s [] then channel
  else
    let existingGroups := filter_truthy (split_char (chr ",") row) in
    let newGroups := filter_truthy (split_char (chr ",") channel) in
    fold_left (fun g x => if mem_str x existingGroups then g else g ++ js "," ++ x) newGroups row.

Definition mergeStatus (row : option num) (channel : num) : option num :=
  if num_eq channel (num_of_Z 1) then Some (num_of_Z 1)
  else match row with None => Some channel | Some _ => row end.

Definition addChild (r : TagRow) (c : Channel) : TagRow :=
  let children := tr_children r ++ [c] in
  let childCount := num_of_Z (Z.of_nat (length children)) in
  MkTagRow (tr_tag r) (mergeStatus (tr_status r) (status c)) (mergeNumber (tr_priority r) (priority c))
    (mergeNumber (tr_weight r) (weight c)) (num_add (tr_used_quota r) (used_quota c))
    (num_div (num_add (num_mul (tr_response_time r) (num_sub childCount (num_of_Z 1))) (response_time c)) childCount)
    (mergeGroup (tr_group r) (group c)) children.

(** The map of the tags and the list of results hold the same rows. *)
Fixpoint updateRow (t : str) (c : Channel) (rows : list TagRow) : list TagRow :=
  match rows with
  | [] => [addChild (newTagRow t) c]
  | r :: rows' => if tr_tag r =?s t then addChild r c :: rows' else r :: updateRow t c rows'
  end.

Definition aggregateChannelsByTag (channels : list Channel) : list TagRow :=
  fold_left (fun rows c => updateRow (tag_of c) c rows) channels [].

Definition tagRowId (r : TagRow) : str := js "tag:" ++ tr_tag r.
Definition channelRowId (c : Channel) : str := js "channel:" ++ string_of_Z (id c).

Inductive AttentionReason : Type := AutoDisabled | LowBalance | AllKeysDisabled.

Definition getAttentionReason (c : Channel) : option AttentionReason :=
  if num_eq (status c) (num_of_Z 3) then Some AutoDisabled
  else if num_lt num_zero (balance c) && num_lt (balance c) (num_of_Z 1) then Some LowBalance
  else if is_multi_key c && match multi_key_status_count c with
                            | Some n => num_le (multi_key_size c) (num_of_Z n)
                            | None => false
                            end then Some AllKeysDisabled
  else None.

Definition channelNeedsAttention (c : Channel) : bool :=
  if num_eq (status c) (num_of_Z 3) then true
  else if num_lt num_zero (balance c) && num_lt (balance c) (num_of_Z 1) then true
  else if is_multi_key c && match multi_key_status_count c with
                            | Some n => num_le (multi_key_size c) (num_of_Z n)
                            | None => false
                            end then true
  else false.

(** The order of groups: [default] first; [localeCompare] is a parameter. *)
Definition compareGroups (localeCompare : str -> str -> Z) (a b : str) : Z :=
  if a =?s "default" then -1 else if b =?s "default" then 1 else localeCompare a b.

Definition parseGroupsList (localeCompare : str -> str -> Z) (groups : str) : list str :=
  if negb (truthy_str groups) then [] else sort_by (compareGroups localeCompare) (comma_list groups).

Definition parseModelsList (models : str) : list str := if negb (truthy_str models) then [] else comma_list models.

End Tags.

Module Keys.

Definition newline : N := 10%N.

(** The lines that are not blank. *)
Definition key_lines (key : str) : list str := List.filter (fun k => truthy_str (trim k)) (split_char newline key).

Definition countKeys (key : str) : Z := if negb (truthy_str key) then 0 else Z.of_nat (length (key_lines key)).

Definition formatChannelKey (key : str) (isMultiKey : bool) : str :=
  if negb (truthy_str key) then []
  else if isMultiKey then string_of_Z (Z.of_nat (length (key_lines key))) ++ js " keys"
  else if strlen key <=? 16 then slice key 0 4 ++ js "..." ++ slice_from key (-4)
  else slice key 0 8 ++ js "..." ++ slice_from key (-8).

Definition formatKeyPreview (key : str) (maxLength : Z) : str :=
  if negb (truthy_str key) then []
  else if strlen key <=? maxLength then key
  else slice key 0 maxLength ++ js "...".

Record Deduplicated : Type := MkDeduplicated {
  deduplicatedText : str;
  beforeCount : Z;
  afterCount : Z;
  removedCount : Z;
}.

(** One line: the set and the list of keys hold the same. *)
Definition addKey (keys : list str) (line : str) : list str :=
  let trimmedLine := trim line in
  if truthy_str trimmedLine && negb (mem_str trimmedLine keys) then keys ++ [trimmedLine] else keys.

Definition deduplicateKeys (keysText : str) : Deduplicated :=
  if negb (truthy_str keysText) || (trim keysText =?s []) then MkDeduplicated [] 0 0 0
  else
    let keyLines := split_char newline keysText in
    let beforeCount := Z.of_nat (length keyLines) in
    let deduplicatedKeys := fold_left addKey keyLines [] in
    let afterCount := Z.of_nat (length deduplicatedKeys) in
    MkDeduplicated (str_join [newline] deduplicatedKeys) beforeCount afterCount (beforeCount - afterCount).

(** The button of the drawer: the new text of the key. *)
Definition handleDeduplicateKeys (key : str) : str :=
  if negb (truthy_str (trim key)) then key
  else let result := deduplicateKeys key in
       if removedCount result =? 0 then key else deduplicatedText result.

End Keys.

Module Categories.

Record ModelCategoryRule : Type := MkRule {
  cat_name : str;
  cat_keywords : list str;
  cat_pattern : option regex;
}.

Definition one_of (chars : str) : regex := Cls (fun c => existsb (N.eqb c) chars).

(** [(?:^|[/.:])]. *)
Definition starts (chars : str) : regex := Alt Bol (one_of chars).

(** [(?:$|[-.:])]; a look-ahead at the end of a pattern is tested like this too. *)
Definition ends (chars : str) : regex := Alt Eol (one_of chars).

Definition digit : regex := Cls c_digit.

Definition words (ws : list string) : list str := map js ws.

Definition plainRule (name : string) (ws : list string) : ModelCategoryRule := MkRule (js name) (words ws) None.
Definition patternRule (name : string) (ws : list string) (r : regex) : ModelCategoryRule := MkRule (js name) (words ws) (Some r).

Local Open Scope js_scope.

Definition MODEL_CATEGORY_RULES : list ModelCategoryRule := [
  plainRule "Perplexity" ["perplexity"; "sonar-"];
  plainRule "NVIDIA" ["nvidia/"; "nvidia."; "nemotron"];
  patternRule "OpenAI" ["openai/"; "openai."; "gpt-"; "chatgpt-"; "codex-"; "dall-e-"; "whisper-"; "omni-moderation-";
      "text-moderation-"; "text-embedding-ada-"; "text-embedding-3-"; "text-ada-"; "text-babbage-"; "text-curie-";
      "davinci-"; "babbage-"; "computer-use-preview"; "sora"]
    (starts "/.:" · Alt (lit "o" · alts (words ["1"; "3"; "4"]) · ends "-.:") (lit "tts-"));
  plainRule "Anthropic" ["anthropic"; "claude"];
  patternRule "Gemini" ["gemini"; "gemma"; "learnlm"; "imagen"; "veo"; "nano-banana"; "palm-"] (starts "/.:" · lit "aqa" · Eol);
  plainRule "xAI" ["x-ai/"; "xai/"; "xai-"; "grok"];
  plainRule "DeepSeek" ["deepseek"];
  patternRule "Qwen" ["qwen"; "qwq-"; "qvq-"; "tongyi"; "gte-"]
    (starts "/.:" · Alt (lit "text-embedding-v" · Plus digit) (Alt (lit "gui-plus") (lit "z-image")) · ends "-_.:");
  patternRule "Wan" [] (starts "/.:" · lit "wan" · Alt (Opt (lit "x") · digit) (one_of "-_"));
  plainRule "Moonshot" ["moonshot"; "kimi-"];
  patternRule "MiniMax" ["minimax"; "abab"; "hailuo"]
    (Bol · alts (words ["t2v"; "i2v"; "s2v"]) · lit "-01" · Alt (lit "-") Eol);
  plainRule "Doubao" ["doubao"; "volcengine"; "seedance"; "seedream"; "seed-1-"];
  patternRule "Zhipu" ["zhipu"; "zai-org"; "thudm"; "chatglm"; "cogview"; "cogvideo"]
    (starts "/._-" · lit "glm" · ends "-._");
  plainRule "Baidu" ["baidu"; "wenxin"; "ernie"];
  patternRule "Yi" ["01-ai/"] (starts "/.:" · lit "yi" · ends "-_");
  plainRule "iFlytek" ["iflytek"; "sparkdesk"];
  patternRule "Tencent" ["tencent"; "hunyuan"] (starts "/.:" · lit "hy" · Star digit · ends "-_.:");
  plainRule "Baichuan" ["baichuan"];
  plainRule "InternLM" ["internlm"];
  plainRule "StepFun" ["stepfun"; "step-"];
  plainRule "MiMo" ["xiaomi"; "mimo-"];
  plainRule "Mistral" ["mistral"; "mixtral"; "codestral"; "ministral"; "pixtral"; "magistral"];
  plainRule "Meta" ["meta-llama"; "llama-"; "llama2"; "llama3"];
  patternRule "Cohere" ["cohere"; "command-"; "c4ai-aya"; "aya-"] (starts "/.:" · lit "command" · Eol);
  plainRule "Jina" ["jinaai"; "jina-"];
  plainRule "BAAI" ["baai/"; "bge-"];
  plainRule "Black Forest Labs" ["black-forest-labs"; "flux."];
  patternRule "Microsoft" ["microsoft/"] (starts "/.:" · lit "phi" · ends "-._");
  plainRule "Amazon" ["amazon/"; "amazon."; "nova-"; "titan-"];
  plainRule "AI21 Labs" ["ai21"; "jamba"];
  plainRule "Stability AI" ["stabilityai"; "stable-diffusion"; "stable-image"; "sdxl-"];
  plainRule "Nous Research" ["nousresearch"; "hermes-"];
  plainRule "360 AI" ["360gpt"; "360zhinao"];
  plainRule "Midjourney" ["midjourney"; "mj_"; "mj-"; "swap_face"];
  plainRule "Kling" ["kling"];
  plainRule "Vidu" ["vidu"];
  plainRule "Suno" ["suno"];
  plainRule "Jimeng" ["jimeng"]].

Section Names.
Context `{CaseMapping}.

Definition ruleMatches (name : str) (rule : ModelCategoryRule) : bool :=
  existsb (fun keyword => includes name keyword) (cat_keywords rule)
  || match cat_pattern rule with Some r => test r name | None => false end.

Definition getModelCategory (modelName : str) : str :=
  let normalizedName := toLowerCase (trim modelName) in
  match find (ruleMatches normalizedName) MODEL_CATEGORY_RULES with
  | Some rule => cat_name rule
  | None => js "Other"
  end.

Definition addToCategory (categories : list (str * list str)) (model : str) : list (str * list str) :=
  let category := getModelCategory model in
  obj_set category (nullish (obj_get category categories) [] ++ [model]) categories.

Definition categorizeModels (models : list str) : list (str * list str) := fold_left addToCategory models [].

End Names.

End Categories.

Module Upstream.

(** ** Reading the settings ([upstream-update-utils.ts]) *)

(** [String(model || '').trim()]. *)
Definition modelText (v : json) : str := trim (if truthy_json v then json_to_string v else []).

(** A value that is not an array has no [map]. *)
Definition normalizeModelList (models : option json) : res (list str) :=
  match models with
  | Some v => if truthy_json v then match v with
                                    | JArr l => Ok (dedupe (filter_truthy (map modelText l)))
                                    | _ => Throw
                                    end
              else Ok []
  | None => Ok []
  end.

(** The same on a list of texts. *)
Definition normalizeNames (models : list str) : list str := dedupe (filter_truthy (map trim models)).

Record Meta : Type := MkMeta { enabled : bool; pendingAddModels : list str; pendingRemoveModels : list str }.

Definition parseUpstreamUpdateMeta (settings : json) : res Meta :=
  let parsed := match settings with
                | JObj o => Some (JObj o)
                | JStr s => json_parse s
                | _ => None
                end in
  match parsed with
  | Some (JObj o) =>
      match normalizeModelList (obj_get "upstream_model_update_last_detected_models" o),
            normalizeModelList (obj_get "upstream_model_update_last_removed_models" o) with
      | Ok add, Ok remove => Ok (MkMeta (json_is_true (obj_get "upstream_model_update_check_enabled" o)) add remove)
      | _, _ => Throw
      end
  | _ => Ok (MkMeta false [] [])
  end.

(** ** The hook and the dialog *)

Inductive Tab : Type := AddTab | RemoveTab.

(** The state of the hook, and that of the dialog, which stays mounted: its
    selections are sets in the order of insertion. *)
Record UpdatesState : Type := MkUpdates {
  showModal : bool;
  channel : option num;
  addModels : list str;
  removeModels : list str;
  preferredTab : Tab;
  applying : bool;
  applyingAll : bool;
  detecting : bool;
  detectingAll : bool;
  activeTab : Tab;
  searchAdd : str;
  searchRemove : str;
  selectedAdd : list str;
  selectedRemove : list str;
  partialConfirmOpen : bool;
}.

(** The page is shown: the initial values of the dialog are those of its
    properties at this time. *)
Definition initialUpdates : UpdatesState :=
  MkUpdates false None [] [] AddTab false false false false AddTab [] [] [] [] false.

Inductive UpdatesOut : Type :=
  | PostApply (id : num) (add ignore remove : list str)
  | PostApplyAll
  | PostDetect (id : num)
  | PostDetectAll
  | Refresh
  | Success
  | Failure
  | NothingToDo.

Definition with_modal (show : bool) (ch : option num) (add remove : list str) (t : Tab) (s : UpdatesState) : UpdatesState :=
  MkUpdates show ch add remove t (applying s) (applyingAll s) (detecting s) (detectingAll s) (activeTab s) (searchAdd s)
    (searchRemove s) (selectedAdd s) (selectedRemove s) (partialConfirmOpen s).
Definition with_busy (a aa d da : bool) (s : UpdatesState) : UpdatesState :=
  MkUpdates (showModal s) (channel s) (addModels s) (removeModels s) (preferredTab s) a aa d da (activeTab s) (searchAdd s)
    (searchRemove s) (selectedAdd s) (selectedRemove s) (partialConfirmOpen s).
Definition with_selected (add remove : list str) (s : UpdatesState) : UpdatesState :=
  MkUpdates (showModal s) (channel s) (addModels s) (removeModels s) (preferredTab s) (applying s) (applyingAll s) (detecting s)
    (detectingAll s) (activeTab s) (searchAdd s) (searchRemove s) add remove (partialConfirmOpen s).
Definition with_partial (b : bool) (s : UpdatesState) : UpdatesState :=
  MkUpdates (showModal s) (channel s) (addModels s) (removeModels s) (preferredTab s) (applying s) (applyingAll s) (detecting s)
    (detectingAll s) (activeTab s) (searchAdd s) (searchRemove s) (selectedAdd s) (selectedRemove s) b.
Definition with_view (t : Tab) (a r : str) (s : UpdatesState) : UpdatesState :=
  MkUpdates (showModal s) (channel s) (addModels s) (removeModels s) (preferredTab s) (applying s) (applyingAll s) (detecting s)
    (detectingAll s) t a r (selectedAdd s) (selectedRemove s) (partialConfirmOpen s).

Definition truthy_id (id : option num) : bool := match id with Some x => truthy_num x | None => false end.

Definition openModal (record : option num) (pendingAdd pendingRemove : list str) (t : Tab) (s : UpdatesState) : UpdatesState * list UpdatesOut :=
  let normAdd := normalizeNames pendingAdd in
  let normRemove := normalizeNames pendingRemove in
  if negb (truthy_id record) || (bool_decide (normAdd = []) && bool_decide (normRemove = [])) then (s, [NothingToDo])
  else (with_modal true record normAdd normRemove t s, []).

Definition closeModal (s : UpdatesState) : UpdatesState := with_modal false None [] [] AddTab s.

(** [applyUpdates] up to its request. *)
Definition applyUpdates (selAdd selRemove : list str) (s : UpdatesState) : UpdatesState * list UpdatesOut :=
  if applying s then (s, [])
  else match channel s with
       | Some id =>
           if negb (truthy_num id) then (closeModal s, [])
           else
             let normSelectedAdd := normalizeNames selAdd in
             let ignoreModels := List.filter (fun m => negb (mem_str m normSelectedAdd)) (addModels s) in
             (with_busy true (applyingAll s) (detecting s) (detectingAll s) s,
              [PostApply id normSelectedAdd ignoreModels (normalizeNames selRemove)])
       | None => (closeModal s, [])
       end.

(** The answer of the request: a success waits for the list to be loaded again. *)
Definition applyAnswered (success : bool) (s : UpdatesState) : UpdatesState * list UpdatesOut :=
  if success then (closeModal s, [Success; Refresh])
  else (with_busy false (applyingAll s) (detecting s) (detectingAll s) s, [Failure]).

Definition applyRefreshed (s : UpdatesState) : UpdatesState * list UpdatesOut :=
  (with_busy false (applyingAll s) (detecting s) (detectingAll s) s, []).

Definition applyAllUpdates (s : UpdatesState) : UpdatesState * list UpdatesOut :=
  if applyingAll s then (s, []) else (with_busy (applying s) true (detecting s) (detectingAll s) s, [PostApplyAll]).

Definition detectChannelUpdates (ch : option num) (s : UpdatesState) : UpdatesState * list UpdatesOut :=
  match ch with
  | Some id => if detecting s || negb (truthy_num id) then (s, [])
               else (with_busy (applying s) (applyingAll s) true (detectingAll s) s, [PostDetect id])
  | None => (s, [])
  end.

Definition detectAllUpdates (s : UpdatesState) : UpdatesState * list UpdatesOut :=
  if detectingAll s then (s, []) else (with_busy (applying s) (applyingAll s) (detecting s) true s, [PostDetectAll]).

Section Dialog.
Context `{CaseMapping}.

Definition filtered (models : list str) (search : str) : list str :=
  List.filter (fun m => includes (toLowerCase m) (toLowerCase search)) models.

Definition toggleModel (model : str) (set : list str) : list str :=
  if mem_str model set then List.filter (fun m => negb (m =?s model)) set else set ++ [model].

Definition addAll (models set : list str) : list str :=
  fold_left (fun s m => if mem_str m s then s else s ++ [m]) models set.

Definition toggleAllVisible (models set : list str) : list str :=
  if forallb (fun m => mem_str m set) models then List.filter (fun m => negb (mem_str m models)) set
  else addAll models set.

Definition nonempty {A} (l : list A) : bool := match l with [] => false | _ => true end.

(** The button is off while a request runs or when there is nothing to do. *)
Definition handleConfirm (s : UpdatesState) : UpdatesState * list UpdatesOut :=
  if applying s || (negb (nonempty (addModels s)) && negb (nonempty (removeModels s))) then (s, [])
  else if nonempty (addModels s) && nonempty (removeModels s)
          && negb (Bool.eqb (nonempty (selectedAdd s)) (nonempty (selectedRemove s)))
  then (with_partial true s, [])
  else applyUpdates (selectedAdd s) (selectedRemove s) s.

Definition confirmPartial (s : UpdatesState) : UpdatesState * list UpdatesOut :=
  applyUpdates (selectedAdd s) (selectedRemove s) (with_partial false s).

Inductive Event : Type :=
  | Open (record : option num) (add remove : list str) (t : Tab)
  | Cancel
  | Select (t : Tab) (model : str)
  | SelectAll (t : Tab)
  | Search (t : Tab) (text : str)
  | ShowTab (t : Tab)
  | Confirm
  | ConfirmPartial
  | CancelPartial
  | ApplyAnswer (success : bool)
  | ApplyRefreshed.

(** Models are selected where they are shown. *)
Definition step (s : UpdatesState) (e : Event) : UpdatesState * list UpdatesOut :=
  match e with
  | Open record add remove t => openModal record add remove t s
  | Cancel => (closeModal s, [])
  | Select AddTab m =>
      (if mem_str m (filtered (addModels s) (searchAdd s)) then with_selected (toggleModel m (selectedAdd s)) (selectedRemove s) s
       else s, [])
  | Select RemoveTab m =>
      (if mem_str m (filtered (removeModels s) (searchRemove s))
       then with_selected (selectedAdd s) (toggleModel m (selectedRemove s)) s else s, [])
  | SelectAll AddTab =>
      (with_selected (toggleAllVisible (filtered (addModels s) (searchAdd s)) (selectedAdd s)) (selectedRemove s) s, [])
  | SelectAll RemoveTab =>
      (with_selected (selectedAdd s) (toggleAllVisible (filtered (removeModels s) (searchRemove s)) (selectedRemove s)) s, [])
  | Search AddTab x => (with_view (activeTab s) x (searchRemove s) s, [])
  | Search RemoveTab x => (with_view (activeTab s) (searchAdd s) x s, [])
  | ShowTab t => (with_view t (searchAdd s) (searchRemove s) s, [])
  | Confirm => if showModal s then handleConfirm s else (s, [])
  | ConfirmPartial => if partialConfirmOpen s then confirmPartial s else (s, [])
  | CancelPartial => (with_partial false s, [])
  | ApplyAnswer b => if applying s then applyAnswered b s else (s, [])
  | ApplyRefreshed => if applying s then applyRefreshed s else (s, [])
  end.

Definition run (es : list Event) : UpdatesState * list UpdatesOut :=
  fold_left (fun acc e => let '(s, out) := acc in let '(s', o) := step s e in (s', out ++ o)) es (initialUpdates, []).

End Dialog.

End Upstream.

Module FetchModels.

(** The dialog in its own mode: it fetches the models of the channel of the
    current row and saves them. *)
Record FetchState : Type := MkFetch {
  row : option (num * str);
  opened : bool;
  isFetching : bool;
  isSaving : bool;
  fetchedModels : list str;
  selectedModels : list str;
  searchKeyword : str;
  fetches : list (list str);
}.

Definition initialFetch : FetchState := MkFetch None false false false [] [] [] [].

Definition existingModels (s : FetchState) : list str :=
  match row s with Some (_, models) => parseModelsString models | None => [] end.

Definition with_open (r : option (num * str)) (b : bool) (s : FetchState) : FetchState :=
  MkFetch r b (isFetching s) (isSaving s) (fetchedModels s) (selectedModels s) (searchKeyword s) (fetches s).
Definition with_models (fetching : bool) (fetched selected : list str) (pending : list (list str)) (s : FetchState) : FetchState :=
  MkFetch (row s) (opened s) fetching (isSaving s) fetched selected (searchKeyword s) pending.
Definition with_saving (b : bool) (s : FetchState) : FetchState :=
  MkFetch (row s) (opened s) (isFetching s) b (fetchedModels s) (selectedModels s) (searchKeyword s) (fetches s).

Inductive FetchOut : Type := Fetch (id : num) | Update (id : num) (models : str) | Loaded | Failed.

(** A request keeps the models of the channel from when it was made. *)
Definition handleFetchModels (s : FetchState) : FetchState * list FetchOut :=
  match row s with
  | Some (id, _) => (with_models true (fetchedModels s) (selectedModels s) (fetches s ++ [existingModels s]) s, [Fetch id])
  | None => (s, [])
  end.

(** The dialog is opened for a channel, and the effect fetches. *)
Definition openFor (id : num) (models : str) (s : FetchState) : FetchState * list FetchOut :=
  handleFetchModels (with_open (Some (id, models)) true s).

(** The answer of the [i]-th outstanding request. *)
Definition fetchAnswered (i : nat) (answer : option (list str)) (s : FetchState) : FetchState * list FetchOut :=
  match fetches s !! i with
  | None => (s, [])
  | Some existing =>
      match answer with
      | Some models => (with_models false models existing (delete i (fetches s)) s, [Loaded])
      | None => (with_models false [] (selectedModels s) (delete i (fetches s)) s, [Failed])
      end
  end.

Definition toggleFetched (model : str) (s : FetchState) : FetchState :=
  with_models (isFetching s) (fetchedModels s)
    (if mem_str model (selectedModels s) then List.filter (fun m => negb (m =?s model)) (selectedModels s)
     else selectedModels s ++ [model]) (fetches s) s.

Definition toggleCategory (categoryModels : list str) (isChecked : bool) (s : FetchState) : FetchState :=
  with_models (isFetching s) (fetchedModels s)
    (if isChecked then fold_left (fun l m => if mem_str m l then l else l ++ [m]) categoryModels (selectedModels s)
     else List.filter (fun m => negb (mem_str m categoryModels)) (selectedModels s)) (fetches s) s.

Section Keyword.
Context `{CaseMapping}.

Definition normalizeModelNameList (models : list str) : list str := dedupe (filter_truthy (map normalizeModelName models)).

(** The selected models that the channel does not offer any more; models that are
    renamed count as offered. *)
Definition removedModels (redirectSourceModels : list str) (s : FetchState) : list str :=
  let kw := trim (toLowerCase (searchKeyword s)) in
  let fetchedModelSet := normalizeModelNameList (fetchedModels s) in
  let redirectSourceKeysSet := normalizeModelNameList redirectSourceModels in
  List.filter (fun model =>
    if mem_str model fetchedModelSet then false
    else if mem_str model redirectSourceKeysSet then false
    else if negb (truthy_str kw) then true
    else includes (toLowerCase model) kw) (normalizeModelNameList (selectedModels s)).

Definition filteredModels (s : FetchState) : list str :=
  if negb (truthy_str (searchKeyword s)) then fetchedModels s
  else List.filter (fun model => includes (toLowerCase model) (toLowerCase (searchKeyword s))) (fetchedModels s).

(** The models that are new and those that the channel has. *)
Definition splitModels (redirectModels : list str) (s : FetchState) : list str * list str :=
  let known := classificationSet (categorizeModelsWithRedirect (existingModels s) redirectModels) in
  (List.filter (fun m => negb (mem_str (normalizeModelName m) known)) (filteredModels s),
   List.filter (fun m => mem_str (normalizeModelName m) known) (filteredModels s)).

Definition showFooterActions (s : FetchState) : bool :=
  match row s with Some _ => true | None => false end && negb (isFetching s)
  && ((0 <? Z.of_nat (length (fetchedModels s))) || (0 <? Z.of_nat (length (removedModels [] s)))).

(** [handleSave] up to its request; the button is in the footer, and is off while a
    save runs. *)
Definition handleSave (s : FetchState) : FetchState * list FetchOut :=
  if negb (showFooterActions s) || isSaving s then (s, [])
  else match row s with
       | Some (id, _) => (with_saving true s, [Update id (str_join "," (selectedModels s))])
       | None => (s, [])
       end.

End Keyword.

(** A save that succeeds closes the dialog. *)
Definition saveAnswered (success : bool) (s : FetchState) : FetchState :=
  let s := with_saving false s in if success then with_open (row s) false s else s.

Definition handleClose (s : FetchState) : FetchState :=
  MkFetch (row s) false (isFetching s) (isSaving s) [] [] [] (fetches s).

End FetchModels.
