(* ===== verification/ChannelListLaws.v ===== *)
(** * Laws of the list of channels and its dialogs

    Proofs about [ChannelList]: channels are grouped by their tags and the row of a
    tag sums them up; keys lose their duplicates only; models are in one category
    each; what the dialogs of upstream models send, and two ways in which they send
    what was chosen for another channel. *)

From stdpp Require Import base list.
From Stdlib Require Import ZArith NArith Lia.
From S2P Require Import Prelude JsString JsArray JsNumber JsRegex JsJson JsonRoundTrip AdvancedCustom AdvancedCustomLaws StatusCodes ChannelForm ChannelFormLaws ChannelList.

Local Open Scope Z_scope.

Module TagLaws.
Import Tags.

(** ** Grouping *)










(** ** The values of a row *)















(** ** Groups *)








(** A priority of -1 is taken for no priority: the row shows the priority of the
    next channel although they differ. *)
Lemma sentinel_priority_lost :
  let c p := MkChannel 1 (Some (js "t")) (num_of_Z 1) (Some (num_of_Z p)) None num_zero num_zero num_zero [] false num_zero None in
  map tr_priority (aggregateChannelsByTag [c (-1); c 5]) = [Some (num_of_Z 5)].
Proof. vm_compute. reflexivity. Qed.

End TagLaws.

(** ** Keys *)

Module KeyLaws.
Import Keys.

Definition keys_of (text : str) : list str := filter_truthy (map trim (split_char newline text)).

Lemma addKeys (lines keys : list str) :
  NoDup keys -> let r := fold_left addKey lines keys in
  NoDup r /\ (forall x, x ∈ r <-> x ∈ keys \/ x ∈ filter_truthy (map trim lines)).
Proof.
  cbv zeta. revert keys. induction lines as [|l lines IH]; intros keys Hk.
  { split; [done|]. intros x. cbn. rewrite elem_of_nil. tauto. }
  cbn [fold_left]. unfold addKey at 2 4. cbv zeta.
  change (filter_truthy (map trim (l :: lines))) with
    (if truthy_str (trim l) then trim l :: filter_truthy (map trim lines) else filter_truthy (map trim lines)).
  destruct (truthy_str (trim l)); cbn [andb]; [|by apply IH].
  destruct (mem_str (trim l) keys) eqn:E; cbn [negb].
  - apply mem_str_true in E. destruct (IH keys Hk) as [H1 H2]. split; [done|]. intros x. rewrite H2, elem_of_cons. naive_solver.
  - apply mem_str_false in E. destruct (IH (keys ++ [trim l])) as [H1 H2].
    + apply NoDup_app. split_and!; [done| |apply NoDup_singleton]. intros x Hx ->%list_elem_of_singleton. done.
    + split; [done|]. intros x. rewrite H2, elem_of_cons, elem_of_app, list_elem_of_singleton. naive_solver.
Qed.

(** Removing duplicates keeps the set of keys, each of them once; the counts are
    those of the lines and of the keys. *)
Lemma deduplicated_keys (text : str) :
  trim text <> [] -> exists keys,
  NoDup keys /\ (forall x, x ∈ keys <-> x ∈ keys_of text) /\
  deduplicateKeys text = MkDeduplicated (str_join [newline] keys) (Z.of_nat (length (split_char newline text)))
    (Z.of_nat (length keys)) (Z.of_nat (length (split_char newline text)) - Z.of_nat (length keys)).
Proof.
  intros Ht. destruct (addKeys (split_char newline text) [] (NoDup_nil_2)) as [H1 H2]. cbv zeta in *.
  exists (fold_left addKey (split_char newline text) []). split_and!; [done| |].
  - intros x. rewrite H2. unfold keys_of. rewrite elem_of_nil. tauto.
  - unfold deduplicateKeys. rewrite (proj2 (str_eqb_neq (trim text) [])) by done.
    replace (truthy_str text) with true; [done|]. symmetry. apply truthy_str_true. by intros ->.
Qed.

(** A line without a key counts as a duplicate. *)
Lemma blank_line_counted : removedCount (deduplicateKeys (js "a" ++ [newline; newline] ++ js "b")) = 1.
Proof. vm_compute. reflexivity. Qed.

End KeyLaws.

(** ** Categories *)

Module CategoryLaws.
Import Categories.

(** Each model is in its category and in no other, in the order of the list. *)
Lemma categories_partition `{CaseMapping} (models : list str) (k : str) :
  obj_get k (categorizeModels models) =
  match List.filter (fun m => getModelCategory m =?s k) models with [] => None | l => Some l end.
Proof.
  unfold categorizeModels. induction models as [|m models IH] using rev_ind; [done|].
  rewrite fold_left_app, List.filter_app. cbn [fold_left List.filter]. unfold addToCategory at 1. cbv zeta. rewrite obj_get_set.
  destruct (str_eqb_spec k (getModelCategory m)) as [->|Hne].
  - rewrite str_eqb_refl, IH. by destruct (List.filter _ models).
  - rewrite (proj2 (str_eqb_neq (getModelCategory m) k)) by congruence. by rewrite app_nil_r.
Qed.

End CategoryLaws.

(** ** Upstream models *)

Module UpstreamLaws.
Import Upstream.

Section Runs.
Context `{CaseMapping}.

Definition fst_run (es : list Event) : UpdatesState := fst (run es).

Lemma run_snoc (es : list Event) (e : Event) :
  run (es ++ [e]) = (fst (step (fst (run es)) e), snd (run es) ++ snd (step (fst (run es)) e)).
Proof.
  unfold run. rewrite fold_left_app. cbn [fold_left]. destruct (fold_left _ es _) as [s out]. cbn [fst snd].
  by destruct (step s e).
Qed.

Definition is_apply (o : UpdatesOut) : bool := match o with PostApply _ _ _ _ => true | _ => false end.

Lemma apply_out (a r : list str) (s : UpdatesState) (id : num) (add ignore remove : list str) :
  (PostApply id add ignore remove) ∈ snd (applyUpdates a r s) ->
  applying s = false /\ applying (fst (applyUpdates a r s)) = true /\ channel s = Some id /\
  add = normalizeNames a /\ ignore = List.filter (fun m => negb (mem_str m add)) (addModels s) /\ remove = normalizeNames r.
Proof.
  unfold applyUpdates. destruct (applying s); [by intros ?%not_elem_of_nil|].
  destruct (channel s) as [i|]; [|by intros ?%not_elem_of_nil]. destruct (negb (truthy_num i)); [by intros ?%not_elem_of_nil|].
  cbn [fst snd]. intros Ho%list_elem_of_singleton. injection Ho as <- <- <- <-. by split_and!.
Qed.

(** What a request says: it is for the channel of the dialog, no other request runs,
    and each model that was offered is added or ignored, and not both. *)
Definition decides (s : UpdatesState) (id : num) (add ignore : list str) : Prop :=
  applying s = false /\ channel s = Some id /\
  forall m, m ∈ addModels s -> ((m ∈ add) /\ ~ (m ∈ ignore)) \/ (~ (m ∈ add) /\ (m ∈ ignore)).

Lemma apply_decides (a r : list str) (s : UpdatesState) (id : num) (add ignore remove : list str) :
  (PostApply id add ignore remove) ∈ snd (applyUpdates a r s) -> decides s id add ignore.
Proof.
  intros Ho. destruct (apply_out a r s id add ignore remove Ho) as (H1 & _ & H3 & _ & -> & _). split_and!; [done..|].
  intros m Hm. destruct (mem_str m add) eqn:E.
  - left. split; [by apply mem_str_true|]. rewrite list_elem_of_In, filter_In, E. naive_solver.
  - right. split; [by apply mem_str_false|]. rewrite list_elem_of_In, filter_In, E. split; [by apply list_elem_of_In|done].
Qed.

Lemma step_decides (s : UpdatesState) (e : Event) (id : num) (add ignore remove : list str) :
  (PostApply id add ignore remove) ∈ snd (step s e) -> decides s id add ignore.
Proof.
  destruct e as [rec x y t| |[] m|[]|[] x|t| | | |b|]; cbn [step snd]; try (by intros ?%not_elem_of_nil).
  - unfold openModal. cbv zeta. destruct (negb _ || _); [|by intros ?%not_elem_of_nil]. by intros ?%list_elem_of_singleton.
  - destruct (showModal s); [|by intros ?%not_elem_of_nil]. unfold handleConfirm.
    destruct (applying s || _); [by intros ?%not_elem_of_nil|]. destruct (nonempty _ && _ && _); [by intros ?%not_elem_of_nil|].
    apply apply_decides.
  - destruct (partialConfirmOpen s); [|by intros ?%not_elem_of_nil]. unfold confirmPartial. apply apply_decides.
  - destruct (applying s); [|by intros ?%not_elem_of_nil]. destruct b; cbn [applyAnswered snd].
    + by intros [?|[?|?%not_elem_of_nil]%elem_of_cons]%elem_of_cons.
    + by intros ?%list_elem_of_singleton.
  - destruct (applying s); by intros ?%not_elem_of_nil.
Qed.

(** Every request to apply updates is made by the dialog of one channel while no
    other such request runs, and decides about every model that was offered for
    that channel: it is added or ignored, and not both. *)
Theorem updates_decided (es : list Event) (id : num) (add ignore remove : list str) :
  (PostApply id add ignore remove) ∈ snd (run es) ->
  exists es1 e es2, es = es1 ++ e :: es2 /\ decides (fst (run es1)) id add ignore.
Proof.
  induction es as [|e es IH] using rev_ind; [by intros ?%not_elem_of_nil|].
  rewrite run_snoc. cbn [snd]. intros [Ho|Ho]%elem_of_app.
  - destruct (IH Ho) as (es1 & e1 & es2 & -> & Hd). exists es1, e1, (es2 ++ [e]). by rewrite <- app_assoc.
  - exists es, e, []. split; [done|]. by eapply step_decides.
Qed.

Lemma includes_nil (s : str) : includes s [] = true.
Proof. unfold includes. by destruct s. Qed.

(** The dialog keeps the selection of its first showing: opened for a channel, it
    has nothing selected, so that a confirmation ignores all the models that are
    offered; and what was selected for one channel is sent for the next one. *)
Theorem selection_not_reset (a b : num) (m n : str) :
  truthy_num a = true -> truthy_num b = true -> trim m = m -> m <> [] -> trim n = n -> n <> [] -> m <> n ->
  snd (run [Open (Some a) [m] [] AddTab; Confirm]) = [PostApply a [] [m] []] /\
  snd (run [Open (Some a) [m] [] AddTab; SelectAll AddTab; Confirm; ApplyAnswer true; ApplyRefreshed;
            Open (Some b) [n] [] AddTab; Confirm]) =
    [PostApply a [m] [] []; Success; Refresh; PostApply b [m] [n] []].
Proof.
  intros Ha Hb Hm Hmn Hn Hnn Hne.
  assert (Hnorm : forall x, trim x = x -> x <> [] -> normalizeNames [x] = [x]).
  { intros x Hx Hx0. unfold normalizeNames, filter_truthy. cbn [map List.filter]. rewrite Hx.
    by rewrite (proj2 (truthy_str_true x) Hx0). }
  assert (Hopen : forall (i : num) x s, truthy_num i = true -> trim x = x -> x <> [] ->
    openModal (Some i) [x] [] AddTab s = (with_modal true (Some i) [x] [] AddTab s, [])).
  { intros i x s Hi Hx Hx0. unfold openModal. cbv zeta. cbn [truthy_id]. rewrite Hi, (Hnorm x Hx Hx0). reflexivity. }
  assert (Hsel : forall x, filtered [x] [] = [x]).
  { intros x. unfold filtered. cbn [List.filter]. rewrite (toLowerCase_ascii []) by done. cbn [map]. by rewrite includes_nil. }
  assert (Hmem : forall x, mem_str x [x] = true) by (intros x; cbn; by rewrite str_eqb_refl).
  assert (Hother : mem_str n [m] = false) by (apply mem_str_false; intros ->%list_elem_of_singleton; done).
  split.
  - unfold run. cbn [fold_left step]. rewrite (Hopen a m) by done. cbn [app step showModal with_modal].
    unfold handleConfirm, applyUpdates. cbn. rewrite Ha. reflexivity.
  - unfold run. cbn [fold_left step]. rewrite (Hopen a m) by done.
    cbn [app step addModels searchAdd selectedAdd selectedRemove with_modal initialUpdates]. rewrite (Hsel m).
    change (toggleAllVisible [m] []) with [m].
    unfold handleConfirm, applyUpdates. cbn [showModal applying addModels removeModels with_modal with_selected initialUpdates nonempty orb andb negb selectedAdd selectedRemove Bool.eqb channel].
    rewrite Ha. cbn [negb]. rewrite (Hnorm m) by done. cbn [List.filter]. rewrite (Hmem m). cbn [negb].
    cbn [applying with_busy applyAnswered closeModal with_modal fst snd app].
    unfold applyRefreshed. cbn [app]. rewrite (Hopen b n) by done.
    cbn [showModal applying addModels removeModels with_modal with_selected with_busy closeModal nonempty orb andb negb selectedAdd selectedRemove Bool.eqb channel initialUpdates].
    rewrite Hb. cbn [negb]. rewrite (Hnorm m) by done. cbn [List.filter]. rewrite Hother. reflexivity.
Qed.

End Runs.
End UpstreamLaws.

(** ** Fetched models *)

Module FetchLaws.
Import FetchModels.

Section Runs.
Context `{CaseMapping}.

Lemma names_kept (l : list str) : Forall name_ok l -> l <> [] -> normalizeModelNameList l <> [].
Proof.
  intros Hl Hn He. destruct l as [|x l]; [done|]. inversion Hl as [|? ? (Hx & Ht & _) _]; subst.
  assert (Hin : x ∈ normalizeModelNameList (x :: l)).
  { unfold normalizeModelNameList. apply elem_of_dedupe, elem_of_filter_truthy. split; [|done].
    cbn [map]. unfold normalizeModelName at 1. rewrite Ht. by left. }
  rewrite He in Hin. by apply not_elem_of_nil in Hin.
Qed.

(** Without a keyword every selected model that was not fetched is listed, so that
    there is something to save. *)
Lemma footer_shown (id : num) (models : str) (o saving : bool) (fetched selected : list str) (pending : list (list str)) :
  Forall name_ok selected -> selected <> [] -> fetched = [] ->
  showFooterActions (MkFetch (Some (id, models)) o false saving fetched selected [] pending) = true.
Proof.
  intros Hs Hn ->. unfold showFooterActions. cbn [row isFetching fetchedModels negb andb length Z.of_nat].
  unfold removedModels. cbn [searchKeyword fetchedModels selectedModels]. rewrite (toLowerCase_ascii []) by done. cbn [map].
  change (trim []) with (@nil N). cbn [truthy_str negb]. change (normalizeModelNameList []) with (@nil str). cbn [mem_str].
  rewrite JsArray.filter_all by (apply List.Forall_forall; done).
  pose proof (names_kept selected Hs Hn). destruct (normalizeModelNameList selected); [done|]. cbn [length]. apply Z.ltb_lt. lia.
Qed.

Lemma models_names (models : str) : Forall name_ok (parseModelsString models).
Proof. unfold parseModelsString. destruct (truthy_str models); [apply comma_list_ok|done]. Qed.

(** After a save the dialog keeps its selection.  When it is opened for another
    channel and the models of that channel cannot be fetched, the selection of the
    first channel is still there and can be saved: the second channel gets the
    models of the first. *)
Theorem failed_fetch_saves_other (a b : num) (ma mb : str) (fetched : list str) :
  parseModelsString ma <> [] -> fetched <> [] ->
  let s1 := fst (openFor a ma initialFetch) in
  let s2 := fst (fetchAnswered 0 (Some fetched) s1) in
  let saved := handleSave s2 in
  let s3 := saveAnswered true (fst saved) in
  let s4 := fst (openFor b mb s3) in
  let s5 := fst (fetchAnswered 0 None s4) in
  snd saved = [Update a (str_join "," (parseModelsString ma))] /\
  snd (handleSave s5) = [Update b (str_join "," (parseModelsString ma))].
Proof.
  intros Hm Hf. cbv zeta. set (s2 := fst (fetchAnswered 0 (Some fetched) (fst (openFor a ma initialFetch)))).
  assert (E2 : s2 = MkFetch (Some (a, ma)) true false false fetched (parseModelsString ma) [] []) by reflexivity.
  assert (H2 : handleSave s2 = (with_saving true s2, [Update a (str_join "," (parseModelsString ma))])).
  { unfold handleSave. assert (Hs : showFooterActions s2 = true).
    { unfold showFooterActions. rewrite E2. cbn [row isFetching fetchedModels negb andb].
      destruct fetched; [done|]. cbn [length]. by rewrite (proj2 (Z.ltb_lt 0 _)) by lia. }
    rewrite Hs, E2. done. }
  rewrite H2. split; [done|]. cbn [fst].
  assert (E5 : fst (fetchAnswered 0 None (fst (openFor b mb (saveAnswered true (with_saving true s2))))) =
               MkFetch (Some (b, mb)) true false false [] (parseModelsString ma) [] []) by (rewrite E2; reflexivity).
  rewrite E5. unfold handleSave. rewrite footer_shown by (apply models_names || done). done.
Qed.

End Runs.
End FetchLaws.

(** ** Instances *)

Lemma updates_decided_witness :
  exists es1 e es2, [Upstream.Open (Some (num_of_Z 1)) [js "m"] [] Upstream.AddTab; Upstream.Confirm] = es1 ++ e :: es2 /\
    UpstreamLaws.decides (fst (@Upstream.run AsciiCase es1)) (num_of_Z 1) [] [js "m"].
Proof.
  apply (@UpstreamLaws.updates_decided AsciiCase
    [Upstream.Open (Some (num_of_Z 1)) [js "m"] [] Upstream.AddTab; Upstream.Confirm] (num_of_Z 1) [] [js "m"] []).
  vm_compute. left.
Defined.

Lemma selection_not_reset_witness :
  snd (@Upstream.run AsciiCase [Upstream.Open (Some (num_of_Z 1)) [js "m"] [] Upstream.AddTab; Upstream.Confirm]) =
  [Upstream.PostApply (num_of_Z 1) [] [js "m"] []].
Proof. apply (@UpstreamLaws.selection_not_reset AsciiCase (num_of_Z 1) (num_of_Z 2) "m" "n"); try done; vm_compute; reflexivity. Defined.

Lemma failed_fetch_saves_other_witness :
  exists s, snd (@FetchModels.handleSave AsciiCase s) = [FetchModels.Update (num_of_Z 2) "gpt-4,o1"].
Proof.
  eexists. rewrite (proj2 (@FetchLaws.failed_fetch_saves_other AsciiCase (num_of_Z 1) (num_of_Z 2) "gpt-4,o1" "claude" [js "gpt-4"]
    ltac:(done) ltac:(done))). vm_compute. reflexivity.
Defined.
