(* ===== verification/RequestRules.v ===== *)
(** * Request rules of a billing expression

    Models the request-rule half of
    [src/web/src/features/pricing/lib/billing-expr.ts]: the conditional
    multipliers on request parameters, headers and time, their parser
    ([tryParseRequestRuleExpr]), their printer ([buildRequestRuleExpr]), and
    how a rule expression is combined with and split from a base expression.

    The regular expressions are those of the source, run by the matcher of
    [JsRegex].  A parser that calls [JSON.parse] outside a [try] block may
    throw, so its result is in [res]. *)

From stdpp Require Import base list.
From Stdlib Require Import ZArith NArith Lia SpecFloat.
From S2P Require Import Prelude JsString JsArray JsNumber JsRegex JsJson.

Local Open Scope Z_scope.

(** ** Constants and data *)

Definition SOURCE_PARAM : str := "param".
Definition SOURCE_HEADER : str := "header".
Definition SOURCE_TIME : str := "time".

Definition MATCH_EQ : str := "eq".
Definition MATCH_CONTAINS : str := "contains".
Definition MATCH_GT : str := "gt".
Definition MATCH_GTE : str := "gte".
Definition MATCH_LT : str := "lt".
Definition MATCH_LTE : str := "lte".
Definition MATCH_EXISTS : str := "exists".
Definition MATCH_RANGE : str := "range".

Inductive TimeFunc : Type := hour | minute | weekday | month | day.

Definition TIME_FUNCS : list TimeFunc := [hour; minute; weekday; month; day].

Definition timeFuncName (f : TimeFunc) : str :=
  match f with
  | hour => "hour" | minute => "minute" | weekday => "weekday"
  | month => "month" | day => "day"
  end.

(** The time function a name stands for. *)
Definition timeFuncOf (s : str) : option TimeFunc :=
  find (fun f => timeFuncName f =?s s) TIME_FUNCS.

(** [COMMON_TIMEZONES], as value and label. *)
Definition COMMON_TIMEZONES : list (str * str) :=
  [ (js "Asia/Shanghai", js "UTC+8 Shanghai (Asia/Shanghai)");
    (js "UTC", js "UTC");
    (js "America/New_York", js "UTC-5 New York (America/New_York)");
    (js "America/Los_Angeles", js "UTC-8 Los Angeles (America/Los_Angeles)");
    (js "America/Chicago", js "UTC-6 Chicago (America/Chicago)");
    (js "Europe/London", js "UTC+0 London (Europe/London)");
    (js "Europe/Berlin", js "UTC+1 Berlin (Europe/Berlin)");
    (js "Asia/Tokyo", js "UTC+9 Tokyo (Asia/Tokyo)");
    (js "Asia/Singapore", js "UTC+8 Singapore (Asia/Singapore)");
    (js "Asia/Seoul", js "UTC+9 Seoul (Asia/Seoul)");
    (js "Australia/Sydney", js "UTC+10 Sydney (Australia/Sydney)") ].

(** An optional minus sign, digits with an optional point and fraction or a
    point and digits, and an optional exponent: [NUMERIC_LITERAL_REGEX]. *)
Definition c_sign (c : N) : bool := ((c =? "+"%char) || (c =? "-"%char))%N.
Definition c_exp (c : N) : bool := ((c =? "e"%char) || (c =? "E"%char))%N.

Definition re_mantissa : regex :=
  Alt (Plus (Cls c_digit) · Opt (lit ".") · Star (Cls c_digit))
      (lit "." · Plus (Cls c_digit)).

Definition re_exponent : regex :=
  Cls c_exp · Opt (Cls c_sign) · Plus (Cls c_digit).

Definition re_numeric : regex :=
  Opt (lit "-") · re_mantissa · Opt re_exponent.

Definition NUMERIC_LITERAL_REGEX : regex := Bol · re_numeric · Eol.

(** The [source] of a condition that is not a time condition. *)
Inductive Source : Type := FromParam | FromHeader.

Definition sourceName (s : Source) : str :=
  match s with FromParam => SOURCE_PARAM | FromHeader => SOURCE_HEADER end.

Record ParamHeaderCondition : Type := PH {
  source : Source;
  path : str;
  ph_mode : str;
  ph_value : str;
}.

Record TimeCondition : Type := TC {
  timeFunc : TimeFunc;
  timezone : str;
  t_mode : str;
  t_value : str;
  rangeStart : str;
  rangeEnd : str;
}.

Inductive RequestCondition : Type :=
  | CTime (t : TimeCondition)
  | CPH (c : ParamHeaderCondition).

Record RequestRuleGroup : Type := Group {
  conditions : list RequestCondition;
  multiplier : str;
  conditionText : option str;
  matched : option bool;
}.

Record RequestRuleTrace : Type := Trace {
  cond : str;
  tr_multiplier : num;
  tr_matched : bool;
}.

(** ** Splitting at the top level *)

(** The loop shared by [splitTopLevelMultiply] and [splitTopLevelAnd]: [cur]
    is [expr.slice(start, index)] reversed, [skip] the number of code units of
    a separator that are still to be passed over. *)
Fixpoint split_loop (sep : str) (l cur : str) (depth : Z) (skip : nat)
    : list str :=
  match l with
  | [] => [trim (rev cur)]
  | c :: l' =>
      match skip with
      | S k => split_loop sep l' cur depth k
      | O =>
          let depth :=
            if (c =? "("%char)%N then depth + 1
            else if (c =? ")"%char)%N then depth - 1 else depth in
          if (depth =? 0) && startsWith l sep
          then trim (rev cur) :: split_loop sep l' [] depth (length sep - 1)
          else split_loop sep l' (c :: cur) depth O
      end
  end.

Definition splitTopLevelMultiply (expr : str) : list str :=
  filter_truthy (split_loop " * " expr [] 0 O).

Definition splitTopLevelAnd (expr : str) : list str :=
  filter_truthy (split_loop " && " expr [] 0 O).

(** ** Literals and time values *)

(** [null] is [None]; a JSON value that is not a string is kept as it is. *)
Definition parseExprLiteral (raw : str) : option json :=
  let text := trim raw in
  if (text =?s "true") || (text =?s "false") then Some (JStr text)
  else if test NUMERIC_LITERAL_REGEX text then Some (JStr text)
  else
    match json_parse text with
    | Some JNull => None
    | Some v => Some v
    | None => None
    end.

Definition TIME_FUNC_RANGES (f : TimeFunc) : Z * Z :=
  match f with
  | hour => (0, 23)
  | minute => (0, 59)
  | weekday => (0, 6)
  | month => (1, 12)
  | day => (1, 31)
  end.

Definition isTimeValueInRange (f : TimeFunc) (text : str) : bool :=
  if negb (test NUMERIC_LITERAL_REGEX text) then false
  else
    let value := Number text in
    if negb (isInteger value) then false
    else
      let '(min, max) := TIME_FUNC_RANGES f in
      num_le (num_of_Z min) value && num_le value (num_of_Z max).

(** ** Parsing a condition *)

Definition not_quote : regex := Plus (Cls (c_not dq)).
Definition re_numch : regex := Plus (Cls c_numch).

(** [(hour|minute|weekday|month|day)]. *)
Definition re_timeFunc : regex := alts (map timeFuncName TIME_FUNCS).

(** The two bounds of a range, joined by either operator; the function and the
    time zone of the second are back references.  [k] is the rest of the
    pattern. *)
Definition re_timeRange (k : regex) : regex :=
  Grp 1 re_timeFunc · lit (jq "('") · Grp 2 not_quote · lit (jq "') >= ")
  · Grp 3 re_numch · lit " " · alts [js "&&"; js "||"] · lit " "
  · Back 1 · lit (jq "('") · Back 2 · lit (jq "') < ") · Grp 4 re_numch · k.

(** One comparison of a time function. *)
Definition re_timeScalar : regex :=
  Grp 1 re_timeFunc · lit (jq "('") · Grp 2 not_quote · lit (jq "') ")
  · Grp 3 (alts [js "=="; js ">="; js "<"]) · lit " " · Grp 4 re_numch · Eol.

Definition timeOpMode (op : str) : str :=
  if op =?s "==" then MATCH_EQ
  else if op =?s ">=" then MATCH_GTE
  else if op =?s "<" then MATCH_LT
  else MATCH_EQ.

Definition tryParseTimeCondition (expr : str) : option TimeCondition :=
  let m :=
    match exec (Bol · re_timeRange Eol) expr with
    | Some m => Some m
    | None => exec (Bol · lit "(" · re_timeRange (lit ")" · Eol)) expr
    end in
  match m with
  | Some m =>
      match timeFuncOf (grp 1 m) with
      | Some f =>
          if negb (isTimeValueInRange f (grp 3 m))
             || negb (isTimeValueInRange f (grp 4 m))
          then None
          else Some (TC f (grp 2 m) MATCH_RANGE [] (grp 3 m) (grp 4 m))
      | None => None
      end
  | None =>
      match exec (Bol · re_timeScalar) expr with
      | Some m =>
          match timeFuncOf (grp 1 m) with
          | Some f =>
              if negb (isTimeValueInRange f (grp 4 m)) then None
              else Some (TC f (grp 2 m) (timeOpMode (grp 3 m)) (grp 4 m) [] [])
          | None => None
          end
      | None => None
      end
  end.

(** A quoted literal, whose backslashes escape the next code unit. *)
Definition re_quoted : regex :=
  lit [dq] · Star (Alt (Cls (fun c => negb (c =? dq) && negb (c =? 92))%N)
                       (lit "\" · Cls c_dot)) · lit [dq].

Definition re_headerExists : regex :=
  Bol · lit (jq "header('") · Grp 1 not_quote · lit (jq "') != ''") · Eol.

Definition re_paramExists : regex :=
  Bol · lit (jq "param('") · Grp 1 not_quote · lit (jq "') != nil") · Eol.

Definition re_headerContains : regex :=
  Bol · lit (jq "has(header('") · Grp 1 not_quote · lit (jq "'), ")
  · Grp 2 re_quoted · lit ")" · Eol.

Definition re_paramContains : regex :=
  Bol · lit (jq "param('") · Grp 1 not_quote
  · lit (jq "') != nil && has(param('") · Grp 2 not_quote · lit (jq "'), ")
  · Grp 3 re_quoted · lit ")" · Eol.

Definition re_paramCompare : regex :=
  Bol · lit (jq "param('") · Grp 1 not_quote
  · lit (jq "') != nil && param('") · Grp 2 not_quote · lit (jq "') ")
  · Grp 3 (alts [js ">"; js ">="; js "<"; js "<="]) · lit " "
  · Grp 4 re_numch · Eol.

Definition re_equals : regex :=
  Bol · Grp 1 (alts [js "param"; js "header"]) · lit (jq "('")
  · Grp 2 not_quote · lit (jq "') == ") · Grp 3 (Plus (Cls c_dot)) · Eol.

Definition compareOpMode (op : str) : str :=
  if op =?s ">" then MATCH_GT
  else if op =?s ">=" then MATCH_GTE
  else if op =?s "<" then MATCH_LT
  else MATCH_LTE.

(** [JSON.parse(text) as string], stored where a string is expected: a value
    of another type cannot come from a quoted literal. *)
Definition parseQuoted (text : str) : res str :=
  match json_parse text with
  | Some v => Ok (json_to_string v)
  | None => Throw
  end.

(** The six attempts of the source, in order; each falls through to the next. *)
Definition tryParseRequestCondition (expr : str)
    : res (option RequestCondition) :=
  match tryParseTimeCondition expr with
  | Some tc => Ok (Some (CTime tc))
  | None =>
  match exec re_headerExists expr with
  | Some m => Ok (Some (CPH (PH FromHeader (grp 1 m) MATCH_EXISTS [])))
  | None =>
  match exec re_paramExists expr with
  | Some m => Ok (Some (CPH (PH FromParam (grp 1 m) MATCH_EXISTS [])))
  | None =>
  match exec re_headerContains expr with
  | Some m =>
      let! v := parseQuoted (grp 2 m) in
      Ok (Some (CPH (PH FromHeader (grp 1 m) MATCH_CONTAINS v)))
  | None =>
  let contains :=
    match exec re_paramContains expr with
    | Some m => if grp 1 m =?s grp 2 m then Some m else None
    | None => None
    end in
  match contains with
  | Some m =>
      let! v := parseQuoted (grp 3 m) in
      Ok (Some (CPH (PH FromParam (grp 1 m) MATCH_CONTAINS v)))
  | None =>
  let compare :=
    match exec re_paramCompare expr with
    | Some m => if grp 1 m =?s grp 2 m then Some m else None
    | None => None
    end in
  match compare with
  | Some m =>
      Ok (Some (CPH (PH FromParam (grp 1 m) (compareOpMode (grp 3 m))
                       (grp 4 m))))
  | None =>
  match exec re_equals expr with
  | Some m =>
      match parseExprLiteral (grp 3 m) with
      | None => Ok None
      | Some v =>
          let src := if grp 1 m =?s "header" then FromHeader else FromParam in
          Ok (Some (CPH (PH src (grp 2 m) MATCH_EQ (json_to_string v))))
      end
  | None => Ok None
  end end end end end end end.

Definition tryParseTimeRangePair (lower upper : str) : option TimeCondition :=
  match tryParseTimeCondition lower, tryParseTimeCondition upper with
  | Some ta, Some tb =>
      if negb (timeFuncName (timeFunc ta) =?s timeFuncName (timeFunc tb))
         || negb (timezone ta =?s timezone tb) then None
      else if negb (t_mode ta =?s MATCH_GTE) || negb (t_mode tb =?s MATCH_LT)
      then None
      else Some (TC (timeFunc ta) (timezone ta) MATCH_RANGE []
                    (t_value ta) (t_value tb))
  | _, _ => None
  end.

(** The loop over [andParts]: a pair of adjacent bounds is merged. *)
Fixpoint parseAndParts (parts : list str)
    : res (option (list RequestCondition)) :=
  match parts with
  | [] => Ok (Some [])
  | part0 :: rest =>
      let part := trim part0 in
      let single :=
        let! c := tryParseRequestCondition part in
        match c with
        | None => Ok None
        | Some condition =>
            let! cs := parseAndParts rest in
            Ok (option_map (cons condition) cs)
        end in
      match rest with
      | [] => single
      | next0 :: rest' =>
          let next := trim next0 in
          match (if truthy_str next then tryParseTimeRangePair part next
                 else None) with
          | Some merged =>
              let! cs := parseAndParts rest' in
              Ok (option_map (cons (CTime merged)) cs)
          | None => single
          end
      end
  end.

Definition tryParseRequestConditions (conditionStr : str)
    : res (option (list RequestCondition)) :=
  match tryParseTimeCondition (trim conditionStr) with
  | Some whole => Ok (Some [CTime whole])
  | None =>
      let! cs := parseAndParts (splitTopLevelAnd conditionStr) in
      Ok (match cs with
          | Some (c :: cs') => Some (c :: cs')
          | _ => None
          end)
  end.

(** A parenthesized conditional whose else branch is 1 (flag [s]). *)
Definition re_ruleFactor : regex :=
  Bol · lit "(" · Grp 1 (Plus (Cls c_any)) · lit " ? " · Grp 2 re_numch
  · lit " : 1)" · Eol.

Definition tryParseRuleGroupFactor (part : str)
    : res (option RequestRuleGroup) :=
  match exec re_ruleFactor part with
  | None => Ok None
  | Some m =>
      let! cs := tryParseRequestConditions (grp 1 m) in
      Ok (option_map (fun cs => Group cs (grp 2 m) None None) cs)
  end.

Definition requestRuleGroupFromTrace (rule : RequestRuleTrace)
    : res RequestRuleGroup :=
  let text := trim (cond rule) in
  let! cs := tryParseRequestConditions text in
  Ok (Group (nullish cs []) (num_to_string (tr_multiplier rule))
            (Some text) (Some (tr_matched rule))).

Definition requestRuleGroupsFromTrace (rules : list RequestRuleTrace)
    : res (list RequestRuleGroup) :=
  res_map requestRuleGroupFromTrace rules.

(** The loop over the factors: the first one that does not parse ends it. *)
Fixpoint parseFactors (parts : list str)
    : res (option (list RequestRuleGroup)) :=
  match parts with
  | [] => Ok (Some [])
  | part :: rest =>
      let! g := tryParseRuleGroupFactor part in
      match g with
      | None => Ok None
      | Some group =>
          let! gs := parseFactors rest in
          Ok (option_map (cons group) gs)
      end
  end.

Definition tryParseRequestRuleExpr (expr : str)
    : res (option (list RequestRuleGroup)) :=
  match trim expr with
  | [] => Ok (Some [])
  | trimmed => parseFactors (splitTopLevelMultiply trimmed)
  end.

(** ** Combining and splitting *)

(** The loop of [hasFullOuterParens] over the rest of the expression. *)
Fixpoint outer_loop (l : str) (depth : Z) : bool :=
  match l with
  | [] => depth =? 0
  | c :: l' =>
      let depth := if (c =? "("%char)%N then depth + 1 else depth in
      let depth := if (c =? ")"%char)%N then depth - 1 else depth in
      if (depth =? 0) && truthy_str l' then false else outer_loop l' depth
  end.

Definition hasFullOuterParens (expr : str) : bool :=
  if negb (startsWith expr "(") || negb (endsWith expr ")") then false
  else outer_loop expr 0.

(** Every round removes two code units, so the length bounds the rounds. *)
Fixpoint unwrap_loop (fuel : nat) (current : str) : str :=
  match fuel with
  | O => current
  | S k =>
      if hasFullOuterParens current
      then unwrap_loop k (trim (slice current 1 (-1)))
      else current
  end.

Definition unwrapOuterParens (expr : str) : str :=
  let current := trim expr in unwrap_loop (length current) current.

Record SplitExpr : Type := Split {
  billingExpr : str;
  requestRuleExpr : str;
}.

(** Whether a factor is a rule; its text goes to the rules or to the base. *)
Definition isRulePart (part : str) : res bool :=
  let! parsed := tryParseRequestRuleExpr part in
  Ok (match parsed with Some (_ :: _) => true | _ => false end).

Definition splitBillingExprAndRequestRules (expr : str) : res SplitExpr :=
  match trim expr with
  | [] => Ok (Split [] [])
  | trimmed =>
      let parts := splitTopLevelMultiply trimmed in
      if (length parts <=? 1)%nat then Ok (Split trimmed [])
      else
        let! flags := res_map isRulePart parts in
        let tagged := combine flags parts in
        let ruleParts := map snd (List.filter fst tagged) in
        let baseParts :=
          map snd (List.filter (fun t => negb (fst t)) tagged) in
        match ruleParts, baseParts with
        | _ :: _, [base] =>
            Ok (Split (unwrapOuterParens base) (str_join " * " ruleParts))
        | _, _ => Ok (Split trimmed [])
        end
  end.

Definition combineBillingExpr (baseExpr ruleExpr : str) : str :=
  let base := trim baseExpr in
  let rules := trim ruleExpr in
  match base, rules with
  | [], _ => []
  | _, [] => base
  | _, _ => "(" ++ base ++ ") * " ++ rules
  end.

(** ** Empty conditions and groups *)

Definition createEmptyCondition : ParamHeaderCondition :=
  PH FromParam [] MATCH_EQ [].

Definition createEmptyTimeCondition : TimeCondition :=
  TC hour "Asia/Shanghai" MATCH_GTE [] [] [].

Definition createEmptyRuleGroup : RequestRuleGroup :=
  Group [CPH createEmptyCondition] [] None None.

Definition createEmptyTimeRuleGroup : RequestRuleGroup :=
  Group [CTime createEmptyTimeCondition] [] None None.

(** ** Match options and normalization *)

Record MatchOption : Type := Opt_ { o_value : str; o_labelKey : str }.

Definition getRequestRuleMatchOptions (src : str) : list MatchOption :=
  if src =?s SOURCE_TIME then
    [ Opt_ MATCH_EQ "Equals"; Opt_ MATCH_GTE "Greater than or equal";
      Opt_ MATCH_LT "Less than"; Opt_ MATCH_RANGE "Overnight range" ]
  else
    let base :=
      [ Opt_ MATCH_EQ "Equals"; Opt_ MATCH_CONTAINS "Contains";
        Opt_ MATCH_EXISTS "Exists" ] in
    if src =?s SOURCE_HEADER then base
    else base ++
      [ Opt_ MATCH_GT "Greater than"; Opt_ MATCH_GTE "Greater than or equal";
        Opt_ MATCH_LT "Less than"; Opt_ MATCH_LTE "Less than or equal" ].

(** [Partial<RequestCondition> | null | undefined]: the value [null] has no
    field at all. *)
Record PartialCondition : Type := Partial {
  pc_source : option str;
  pc_path : option str;
  pc_mode : option str;
  pc_value : option str;
  pc_timeFunc : option str;
  pc_timezone : option str;
  pc_rangeStart : option str;
  pc_rangeEnd : option str;
}.

Definition partialOf (c : RequestCondition) : PartialCondition :=
  match c with
  | CTime t =>
      Partial (Some SOURCE_TIME) None (Some (t_mode t)) (Some (t_value t))
        (Some (timeFuncName (timeFunc t))) (Some (timezone t))
        (Some (rangeStart t)) (Some (rangeEnd t))
  | CPH c =>
      Partial (Some (sourceName (source c))) (Some (path c))
        (Some (ph_mode c)) (Some (ph_value c)) None None None None
  end.

(** [options.some((item) => item.value === mode) ? mode : fallback]. *)
Definition validMode (src : str) (mode : option str) (fallback : str) : str :=
  match mode with
  | Some m =>
      if existsb (fun o => o_value o =?s m) (getRequestRuleMatchOptions src)
      then m else fallback
  | None => fallback
  end.

Definition isTimeFunc (value : option str) : option TimeFunc :=
  ofield timeFuncOf value.

Definition ostr_eqb (a : option str) (b : str) : bool :=
  match a with Some s => s =?s b | None => false end.

Definition normalizeCondition (c : PartialCondition) : RequestCondition :=
  if ostr_eqb (pc_source c) SOURCE_TIME then
    CTime (TC (nullish (isTimeFunc (pc_timeFunc c)) hour)
              (ostr_or (pc_timezone c) "Asia/Shanghai")
              (validMode SOURCE_TIME (pc_mode c) MATCH_GTE)
              (nullish (pc_value c) [])
              (nullish (pc_rangeStart c) [])
              (nullish (pc_rangeEnd c) []))
  else
    let src := if ostr_eqb (pc_source c) SOURCE_HEADER
               then FromHeader else FromParam in
    CPH (PH src (ostr_or (pc_path c) [])
            (validMode (sourceName src) (pc_mode c) MATCH_EQ)
            (nullish (pc_value c) [])).

(** ** Building expressions *)

Definition buildExprLiteral (mode value : str) : str :=
  let text := trim value in
  if mode =?s MATCH_CONTAINS then quote text
  else if (text =?s "true") || (text =?s "false") then text
  else if test NUMERIC_LITERAL_REGEX text then text
  else quote text.

(** [opMap[mode] || '==']. *)
Definition timeModeOp (mode : str) : str :=
  if mode =?s MATCH_EQ then "=="
  else if mode =?s MATCH_GTE then ">="
  else if mode =?s MATCH_LT then "<"
  else "==".

Definition normalizeTime (t : TimeCondition) : TimeCondition :=
  match normalizeCondition (partialOf (CTime t)) with
  | CTime t' => t'
  | CPH _ => t
  end.

Definition buildTimeConditionExpr (c : TimeCondition) : str :=
  let n := normalizeTime c in
  let fn := timeFuncName (timeFunc n) ++ "(" ++ quote (timezone n) ++ ")" in
  if t_mode n =?s MATCH_RANGE then
    let s := trim (rangeStart n) in
    let e := trim (rangeEnd n) in
    if negb (isTimeValueInRange (timeFunc n) s)
       || negb (isTimeValueInRange (timeFunc n) e) then []
    else if num_lt (Number e) (Number s)
    then fn ++ " >= " ++ s ++ " || " ++ fn ++ " < " ++ e
    else fn ++ " >= " ++ s ++ " && " ++ fn ++ " < " ++ e
  else
    let v := trim (t_value n) in
    if negb (isTimeValueInRange (timeFunc n) v) then []
    else fn ++ " " ++ timeModeOp (t_mode n) ++ " " ++ v.

Definition normalizePH (c : ParamHeaderCondition) : ParamHeaderCondition :=
  match normalizeCondition (partialOf (CPH c)) with
  | CPH c' => c'
  | CTime _ => c
  end.

(** [opMap[mode]] of the comparisons. *)
Definition compareModeOp (mode : str) : str :=
  if mode =?s MATCH_GT then ">"
  else if mode =?s MATCH_GTE then ">="
  else if mode =?s MATCH_LT then "<"
  else "<=".

Definition buildPHExpr (c : ParamHeaderCondition) : str :=
  let n := normalizePH c in
  match trim (path n) with
  | [] => []
  | p =>
      let isHeader :=
        match source n with FromHeader => true | FromParam => false end in
      let sourceExpr : str :=
        if isHeader then "header(" ++ quote p ++ ")"
        else "param(" ++ quote p ++ ")" in
      let mode := ph_mode n in
      if mode =?s MATCH_EXISTS then
        if isHeader then sourceExpr ++ jq " != ''"
        else sourceExpr ++ " != nil"
      else if mode =?s MATCH_CONTAINS then
        let value := buildExprLiteral mode (ph_value n) in
        if isHeader then "has(" ++ sourceExpr ++ ", " ++ value ++ ")"
        else sourceExpr ++ " != nil && has(" ++ sourceExpr ++ ", "
               ++ value ++ ")"
      else if (mode =?s MATCH_GT) || (mode =?s MATCH_GTE)
              || (mode =?s MATCH_LT) || (mode =?s MATCH_LTE) then
        let numText := trim (ph_value n) in
        if negb (test NUMERIC_LITERAL_REGEX numText) then []
        else sourceExpr ++ " != nil && " ++ sourceExpr ++ " "
               ++ compareModeOp mode ++ " " ++ numText
      else sourceExpr ++ " == " ++ buildExprLiteral mode (ph_value n)
  end.

Definition buildRequestConditionExpr (c : RequestCondition) : str :=
  match c with
  | CTime t => buildTimeConditionExpr t
  | CPH c => buildPHExpr c
  end.

(** An overnight range needs parentheses inside a conjunction. *)
Definition parenthesizeOr (e : str) : str :=
  if includes e " || " then "(" ++ e ++ ")" else e.

Definition buildRuleGroupFactor (g : RequestRuleGroup) : str :=
  let mult := trim (multiplier g) in
  if negb (test NUMERIC_LITERAL_REGEX mult) then []
  else
    let condExprs :=
      filter_truthy (map buildRequestConditionExpr (conditions g)) in
    match condExprs with
    | [] => []
    | [e] => "(" ++ e ++ " ? " ++ mult ++ " : 1)"
    | _ => "(" ++ str_join " && " (map parenthesizeOr condExprs) ++ " ? "
             ++ mult ++ " : 1)"
    end.

Definition buildRequestRuleExpr (groups : list RequestRuleGroup) : str :=
  str_join " * " (filter_truthy (map buildRuleGroupFactor groups)).

(** ** Normalization *)

Definition condSource (c : RequestCondition) : str :=
  match c with CTime _ => SOURCE_TIME | CPH c => sourceName (source c) end.

Definition condMode (c : RequestCondition) : str :=
  match c with CTime t => t_mode t | CPH c => ph_mode c end.

Definition offeredModes (src : str) : list str :=
  map o_value (getRequestRuleMatchOptions src).

Lemma validMode_offered (src : str) (m : option str) (fallback : str) :
  In fallback (offeredModes src) -> In (validMode src m fallback) (offeredModes src).
Proof.
  intros Hf. unfold validMode. destruct m as [m|]; [|done].
  destruct (existsb _ _) eqn:E; [|done].
  apply existsb_exists in E as (o & Ho & He). apply str_eqb_eq in He as <-.
  apply in_map_iff. by exists o.
Qed.

Lemma validMode_id (src m fallback : str) :
  In m (offeredModes src) -> validMode src (Some m) fallback = m.
Proof.
  intros (o & <- & Ho)%in_map_iff. unfold validMode.
  assert (existsb (fun o' => o_value o' =?s o_value o)
            (getRequestRuleMatchOptions src) = true) as ->; [|done].
  apply existsb_exists. exists o. by rewrite str_eqb_refl.
Qed.

Lemma timeFuncOf_timeFuncName (f : TimeFunc) : timeFuncOf (timeFuncName f) = Some f.
Proof. by destruct f. Qed.

Lemma normalize_mode_offered (p : PartialCondition) :
  let c := normalizeCondition p in In (condMode c) (offeredModes (condSource c)).
Proof.
  unfold normalizeCondition. destruct (ostr_eqb (pc_source p) SOURCE_TIME);
    cbn [condMode condSource t_mode ph_mode source]; apply validMode_offered.
  - vm_compute. tauto.
  - destruct (ostr_eqb _ _); vm_compute; tauto.
Qed.

(** Normalization gives a condition whose mode is one of the modes offered
    for its source, whatever the fields of the input were, and is idempotent:
    a normalized condition is its own normalization. *)
Theorem normalize_canonical (p : PartialCondition) :
  let c := normalizeCondition p in
  In (condMode c) (offeredModes (condSource c))
  /\ normalizeCondition (partialOf c) = c.
Proof.
  cbn zeta. pose proof (normalize_mode_offered p) as Hm. split; [exact Hm|].
  destruct (normalizeCondition p) as [t|c] eqn:E; cbn [condMode condSource] in Hm.
  - assert (Hz : timezone t <> []).
    { unfold normalizeCondition in E. destruct (ostr_eqb _ _); [|done].
      injection E as <-. cbn [timezone]. unfold ostr_or.
      destruct (pc_timezone p) as [[|]|]; done. }
    unfold normalizeCondition, partialOf. cbn [pc_source ostr_eqb].
    rewrite str_eqb_refl. cbn [pc_timeFunc pc_timezone pc_mode pc_value
      pc_rangeStart pc_rangeEnd nullish isTimeFunc ofield].
    rewrite timeFuncOf_timeFuncName, validMode_id by exact Hm.
    destruct t as [f tz m v s e]. cbn in Hz |- *. by destruct tz.
  - unfold normalizeCondition, partialOf. cbn [pc_source ostr_eqb].
    destruct c as [src pa m v]. cbn [source path ph_mode ph_value] in *.
    assert (Ht : (sourceName src =?s SOURCE_TIME) = false) by (by destruct src).
    assert (Hh : (if sourceName src =?s SOURCE_HEADER then FromHeader else FromParam)
      = src) by (by destruct src).
    rewrite Ht, Hh. cbn [pc_path pc_mode pc_value nullish].
    rewrite validMode_id by exact Hm. by destruct pa.
Qed.
