(* ===== verification/RequestRoundTrip.v ===== *)
(** * Printing and parsing request rules

    The visual editor of request rules prints the rules with
    [buildRequestRuleExpr] and reads a stored expression back with
    [tryParseRequestRuleExpr] ([RequestRules]).  This file shows that reading
    back is the inverse of printing on the rules the parser supports, that a
    rule expression is recovered from the combined billing expression, and
    which rules that the editor prints are not read back. *)

From stdpp Require Import base list.
From Stdlib Require Import ZArith NArith Lia SpecFloat.
From S2P Require Import Prelude JsString JsArray JsNumber JsRegex JsJson RequestRules.

Local Open Scope Z_scope.

(** ** The fragment that is read back *)

(** Text that has no meaning to the splitters and is quoted as it is: the
    parser looks for parentheses and operators inside quoted text too. *)
Definition plain_char (c : N) : bool :=
  (c_dot c && negb (c =? dq) && negb (c =? 92) && negb (c =? "("%char)
   && negb (c =? ")"%char) && negb (c =? "&"%char) && negb (c =? "|"%char))%N.

Definition plain (s : str) : bool :=
  forallb plain_char s && (quote_body s =?s s).

Definition isTrimmed (s : str) : bool := trim s =?s s.

Definition wf_time (t : TimeCondition) : bool :=
  truthy_str (timezone t) && plain (timezone t)
  && (if t_mode t =?s MATCH_RANGE then
        (t_value t =?s []) && isTimeValueInRange (timeFunc t) (rangeStart t)
        && isTimeValueInRange (timeFunc t) (rangeEnd t)
      else
        mem_str (t_mode t) [MATCH_EQ; MATCH_GTE; MATCH_LT]
        && isTimeValueInRange (timeFunc t) (t_value t)
        && (rangeStart t =?s []) && (rangeEnd t =?s [])).

Definition wf_ph (c : ParamHeaderCondition) : bool :=
  truthy_str (path c) && plain (path c) && isTrimmed (path c)
  && (if ph_mode c =?s MATCH_EXISTS then ph_value c =?s []
      else
        plain (ph_value c) && isTrimmed (ph_value c)
        && ((ph_mode c =?s MATCH_EQ)
            || (ph_mode c =?s MATCH_CONTAINS)
               && match source c with FromHeader => true | _ => false end)).

Definition wf_cond (c : RequestCondition) : bool :=
  match c with CTime t => wf_time t | CPH c => wf_ph c end.

(** A lower bound followed by an upper bound of the same time function is read
    back as one range. *)
Definition mergeable (a b : RequestCondition) : bool :=
  match a, b with
  | CTime s, CTime t =>
      (timeFuncName (timeFunc s) =?s timeFuncName (timeFunc t))
      && (timezone s =?s timezone t)
      && (t_mode s =?s MATCH_GTE) && (t_mode t =?s MATCH_LT)
  | _, _ => false
  end.

Fixpoint no_merge (cs : list RequestCondition) : bool :=
  match cs with
  | a :: ((b :: _) as cs') => negb (mergeable a b) && no_merge cs'
  | _ => true
  end.

Definition wf_group (g : RequestRuleGroup) : bool :=
  match conditions g with [] => false | _ => true end
  && forallb wf_cond (conditions g) && no_merge (conditions g)
  && test NUMERIC_LITERAL_REGEX (multiplier g)
  && match conditionText g, matched g with None, None => true | _, _ => false end.

(** ** Numeric text *)

Lemma numeric_numch (v : str) :
  test NUMERIC_LITERAL_REGEX v = true -> forallb c_numch v = true.
Proof.
  apply test_within. unfold c_numch, c_digit, c_exp, c_sign.
  cbn -[chr c_numch is_digit N.eqb]. unfold c_digit, c_exp, c_sign, c_numch.
  repeat split; intros c H;
    repeat (rewrite ?orb_true_iff, ?N.eqb_eq in * ); naive_solver.
Qed.

Lemma numeric_nonempty (v : str) :
  test NUMERIC_LITERAL_REGEX v = true -> v <> [].
Proof. by intros H ->. Qed.

Lemma numch_not_ws (c : N) : c_numch c = true -> negb (is_ws c) = true.
Proof.
  unfold c_numch. rewrite !orb_true_iff, !N.eqb_eq.
  intros [[[[[H| ->]| ->]| ->]| ->]| ->]; [by apply digit_not_ws|..]; done.
Qed.

Lemma numeric_trim (v : str) :
  test NUMERIC_LITERAL_REGEX v = true -> trim v = v.
Proof.
  intros H%numeric_numch. apply trim_id, trimmed_nows.
  by apply (forallb_impl c_numch); [apply numch_not_ws|].
Qed.

Lemma in_range_numeric (f : TimeFunc) (v : str) :
  isTimeValueInRange f v = true -> test NUMERIC_LITERAL_REGEX v = true.
Proof. unfold isTimeValueInRange. by destruct (test _ v). Qed.

(** ** Reading time conditions *)

(** The text of a comparison and of a range, as printed. *)
Definition scalarText (f : TimeFunc) (tz op v : str) : str :=
  timeFuncName f ++ jq "('" ++ tz ++ jq "') " ++ op ++ " " ++ v.

Definition rangeText (f : TimeFunc) (tz op s e : str) : str :=
  scalarText f tz ">=" s ++ " " ++ op ++ " " ++ scalarText f tz "<" e.

Definition no_dq (s : str) : Prop := forallb (c_not dq) s = true.

Lemma run_timeFunc (f : TimeFunc) (b s : str) (c : list (nat * str)) :
  run re_timeFunc (MS b (timeFuncName f ++ s) c)
  = [MS (rev (timeFuncName f) ++ b) s c].
Proof. by destruct f. Qed.

(** The common front of the time patterns. *)
Lemma run_time_front (f : TimeFunc) (tz w b s : str) (k : regex) :
  tz <> [] -> no_dq tz ->
  run (Grp 1 re_timeFunc · lit (jq "('") · Grp 2 not_quote · lit (dq :: w) · k)
      (MS b (timeFuncName f ++ jq "('" ++ tz ++ dq :: s) [])
  = run (lit (dq :: w) · k)
      (MS (rev tz ++ rev (jq "('") ++ rev (timeFuncName f) ++ b) (dq :: s)
          [(2%nat, tz); (1%nat, timeFuncName f)]).
Proof.
  intros Hne Hq. rewrite run_grp_one by apply run_timeFunc.
  rewrite run_lit_seq. unfold not_quote. rewrite run_grp_plus; try done.
  by apply stops_lit.
Qed.

Lemma exec_front (r : regex) (s b : str) (c : list (nat * str)) :
  run r (MS [] s []) = [MS b [] c] ->
  exec (Bol · r) s = Some (MR 0 (take (length s - 0) s) c b []).
Proof. intros H. by rewrite exec_bol, H. Qed.

Lemma exec_front_none (r : regex) (s : str) :
  run r (MS [] s []) = [] -> exec (Bol · r) s = None.
Proof. intros H. by rewrite exec_bol, H. Qed.

Lemma timeFuncOf_name (f : TimeFunc) : timeFuncOf (timeFuncName f) = Some f.
Proof. by destruct f. Qed.

Definition timeOps : list str := [js "=="; js ">="; js "<"].

Lemma exec_timeScalar (f : TimeFunc) (tz op v : str) :
  tz <> [] -> no_dq tz -> In op timeOps ->
  v <> [] -> forallb c_numch v = true ->
  exists m, exec (Bol · re_timeScalar) (scalarText f tz op v) = Some m
    /\ m_caps m = [(4%nat, v); (3%nat, op); (2%nat, tz);
                   (1%nat, timeFuncName f)].
Proof.
  intros Hne Hq Hop Hv Hn. eexists. split; [apply exec_front|reflexivity].
  unfold re_timeScalar, scalarText.
  change (jq "') ") with (dq :: js ") "). cbn [app].
  rewrite run_time_front by done.
  rewrite (run_lit_seq (dq :: js ") ") _ _ (op ++ " " ++ v)).
  rewrite run_grp_one by (destruct Hop as [<-|[<-|[<-|[]]]]; done).
  rewrite run_lit_seq. rewrite <- (app_nil_r v) at 1.
  unfold re_numch. rewrite run_grp_plus by (done || apply stops_eol).
  apply run_eol_end.
Qed.

(** What remains to be matched after the lower bound of a range. *)
Definition re_upperBound (k : regex) : regex :=
  Back 1 · lit (jq "('") · Back 2 · lit (jq "') < ") · Grp 4 re_numch · k.

Definition boundCaps (f : TimeFunc) (tz v : str) : list (nat * str) :=
  [(3%nat, v); (2%nat, tz); (1%nat, timeFuncName f)].

Lemma run_range_lower (f : TimeFunc) (tz v b s : str) (k : regex) :
  tz <> [] -> no_dq tz -> v <> [] -> forallb c_numch v = true ->
  ends_run c_numch s ->
  exists b', run (re_timeRange k) (MS b (scalarText f tz ">=" v ++ s) [])
  = run (lit " " · alts [js "&&"; js "||"] · lit " " · re_upperBound k)
        (MS b' s (boundCaps f tz v)).
Proof.
  intros Hne Hq Hv Hn Hs. eexists. unfold re_timeRange, scalarText.
  change (jq "') >= ") with (dq :: js ") >= ").
  rewrite <- !app_assoc. change (jq "') ") with (dq :: js ") ").
  cbn [app]. rewrite run_time_front by done.
  rewrite (run_lit_seq (dq :: js ") >= ") _ _ (v ++ s)).
  unfold re_numch. rewrite run_grp_plus; try done. by apply stops_lit.
Qed.

Lemma run_range_other (f : TimeFunc) (tz op v b s : str) (k : regex) :
  tz <> [] -> no_dq tz -> In op [js "=="; js "<"] ->
  run (re_timeRange k) (MS b (scalarText f tz op v ++ s) []) = [].
Proof.
  intros Hne Hq Hop. unfold re_timeRange, scalarText.
  change (jq "') >= ") with (dq :: js ") >= ").
  rewrite <- !app_assoc. change (jq "') ") with (dq :: js ") ").
  cbn [app]. rewrite run_time_front by done.
  apply run_lit_fail. by destruct Hop as [<-|[<-|[]]].
Qed.

Definition boundJoin (op : str) : Prop := In op [js "&&"; js "||"].

Lemma run_range_join (op b s : str) (c : list (nat * str)) (k : regex) :
  boundJoin op ->
  exists b', run (lit " " · alts [js "&&"; js "||"] · lit " " · k)
                 (MS b (" " ++ op ++ " " ++ s) c)
  = run k (MS b' s c).
Proof.
  intros Hop. eexists. rewrite run_lit_seq. rewrite run_seq.
  assert (forall b, run (alts [js "&&"; js "||"]) (MS b (op ++ " " ++ s) c)
    = [MS (rev op ++ b) (" " ++ s) c]) as ->
    by (intros ?; by destruct Hop as [<-|[<-|[]]]).
  cbn [flat_map]. rewrite app_nil_r. apply run_lit_seq.
Qed.

(** The upper bound is there. *)
Lemma run_upper (f : TimeFunc) (tz v w b s : str) (k : regex) :
  w <> [] -> forallb c_numch w = true -> ends_run c_numch s ->
  stops c_numch (run k) ->
  exists b', run (re_upperBound k)
                 (MS b (scalarText f tz "<" w ++ s) (boundCaps f tz v))
  = run k (MS b' s ((4%nat, w) :: boundCaps f tz v)).
Proof.
  intros Hne Hw Hs Hk. eexists. unfold re_upperBound, scalarText.
  rewrite <- !app_assoc. rewrite (run_back_seq 1 (timeFuncName f)) by done.
  rewrite run_lit_seq, (run_back_seq 2 tz) by done.
  rewrite (run_lit_seq (jq "') < ") _ _ (w ++ s)).
  unfold re_numch. by rewrite run_grp_plus.
Qed.

Lemma exec_timeRange (f : TimeFunc) (tz op s e : str) :
  tz <> [] -> no_dq tz -> boundJoin op ->
  s <> [] -> forallb c_numch s = true -> e <> [] -> forallb c_numch e = true ->
  exists m, exec (Bol · re_timeRange Eol) (rangeText f tz op s e) = Some m
    /\ m_caps m = (4%nat, e) :: boundCaps f tz s.
Proof.
  intros Hne Hq Hop Hs Hsn He Hen. unfold rangeText.
  destruct (run_range_lower f tz s [] (" " ++ op ++ " " ++ scalarText f tz "<" e)
    Eol) as [b1 H1]; try done.
  destruct (run_range_join op b1 (scalarText f tz "<" e) (boundCaps f tz s)
    (re_upperBound Eol)) as [b2 H2]; [done|].
  destruct (run_upper f tz s e b2 [] Eol) as [b3 H3]; try done.
  { apply stops_eol. }
  rewrite app_nil_r in H3. eexists. split; [apply exec_front|reflexivity].
  rewrite H1, H2, H3. apply run_eol_end.
Qed.

(** The same in parentheses. *)
Lemma exec_timeRangeParen (f : TimeFunc) (tz op s e : str) :
  tz <> [] -> no_dq tz -> boundJoin op ->
  s <> [] -> forallb c_numch s = true -> e <> [] -> forallb c_numch e = true ->
  exists m, exec (Bol · lit "(" · re_timeRange (lit ")" · Eol))
                 ("(" ++ rangeText f tz op s e ++ ")") = Some m
    /\ m_caps m = (4%nat, e) :: boundCaps f tz s.
Proof.
  intros Hne Hq Hop Hs Hsn He Hen. unfold rangeText.
  destruct (run_range_lower f tz s (rev (js "(") ++ [])
    (" " ++ op ++ " " ++ scalarText f tz "<" e ++ ")")
    (lit ")" · Eol)) as [b1 H1]; try done.
  destruct (run_range_join op b1 (scalarText f tz "<" e ++ ")") (boundCaps f tz s)
    (re_upperBound (lit ")" · Eol))) as [b2 H2]; [done|].
  destruct (run_upper f tz s e b2 ")" (lit ")" · Eol)) as [b3 H3]; try done.
  { by apply stops_lit. }
  eexists. split; [apply exec_front|reflexivity].
  rewrite run_lit_seq. rewrite <- !app_assoc, H1, H2, H3.
  apply run_lit_eol.
Qed.

(** The time zone and the numbers of a condition, as the patterns need them. *)
Definition tz_ok (tz : str) : Prop := tz <> [] /\ no_dq tz.
Definition num_ok (v : str) : Prop := v <> [] /\ forallb c_numch v = true.

Lemma in_range_num_ok (f : TimeFunc) (v : str) :
  isTimeValueInRange f v = true -> num_ok v.
Proof.
  intros H%in_range_numeric. split; [by apply numeric_nonempty|].
  by apply numeric_numch.
Qed.

(** Text that no time pattern matches from its first code unit on. *)
Lemma time_none_front (s : str) :
  run re_timeFunc (MS [] s []) = [] -> startsWith s "(" = false ->
  tryParseTimeCondition s = None.
Proof.
  intros Hf Hp. unfold tryParseTimeCondition.
  rewrite exec_front_none by (by apply run_grp_none).
  rewrite exec_front_none by (by apply run_lit_fail).
  by rewrite exec_front_none by (by apply run_grp_none).
Qed.

Lemma scalarText_no_paren (f : TimeFunc) (tz op v s : str) :
  startsWith (scalarText f tz op v ++ s) "(" = false.
Proof. by destruct f. Qed.

Lemma time_scalar (f : TimeFunc) (tz op v : str) :
  tz_ok tz -> In op timeOps -> isTimeValueInRange f v = true ->
  tryParseTimeCondition (scalarText f tz op v)
  = Some (TC f tz (timeOpMode op) v [] []).
Proof.
  intros [Hne Hq] Hop Hv. destruct (in_range_num_ok f v Hv) as [Hv0 Hn].
  destruct (exec_timeScalar f tz op v) as (m & Hm & Hc); try done.
  unfold tryParseTimeCondition. rewrite (exec_front_none (re_timeRange Eol)).
  2: { rewrite <- (app_nil_r (scalarText f tz op v)).
       destruct Hop as [<-|[<-|[<-|[]]]].
       - by apply run_range_other; [..|left].
       - destruct (run_range_lower f tz v [] [] Eol) as [b ->]; try done.
       - by apply run_range_other; [..|right; left]. }
  rewrite exec_front_none.
  2: { apply run_lit_fail. simpl.
       rewrite <- (app_nil_r (scalarText f tz op v)).
       apply scalarText_no_paren. }
  rewrite Hm. unfold grp, group. rewrite Hc. simpl.
  by rewrite timeFuncOf_name, Hv.
Qed.

Lemma time_range (f : TimeFunc) (tz op s e : str) :
  tz_ok tz -> boundJoin op ->
  isTimeValueInRange f s = true -> isTimeValueInRange f e = true ->
  tryParseTimeCondition (rangeText f tz op s e)
  = Some (TC f tz MATCH_RANGE [] s e).
Proof.
  intros [Hne Hq] Hop Hs He.
  destruct (in_range_num_ok f s Hs), (in_range_num_ok f e He).
  destruct (exec_timeRange f tz op s e) as (m & Hm & Hc); try done.
  unfold tryParseTimeCondition. rewrite Hm. unfold grp, group. rewrite Hc.
  simpl. by rewrite timeFuncOf_name, Hs, He.
Qed.

Lemma run_timeFunc_paren (b s : str) (c : list (nat * str)) :
  run re_timeFunc (MS b ("(" ++ s) c) = [].
Proof. reflexivity. Qed.

Lemma time_range_paren (f : TimeFunc) (tz op s e : str) :
  tz_ok tz -> boundJoin op ->
  isTimeValueInRange f s = true -> isTimeValueInRange f e = true ->
  tryParseTimeCondition ("(" ++ rangeText f tz op s e ++ ")")
  = Some (TC f tz MATCH_RANGE [] s e).
Proof.
  intros [Hne Hq] Hop Hs He.
  destruct (in_range_num_ok f s Hs), (in_range_num_ok f e He).
  destruct (exec_timeRangeParen f tz op s e) as (m & Hm & Hc); try done.
  unfold tryParseTimeCondition.
  rewrite (exec_front_none (re_timeRange Eol))
    by apply run_grp_none, run_timeFunc_paren.
  rewrite Hm. unfold grp, group. rewrite Hc. simpl.
  by rewrite timeFuncOf_name, Hs, He.
Qed.

(** A conjunction is not one time condition, unless it is the two bounds of a
    range. *)
Lemma scalar_then_none (f : TimeFunc) (tz op v rest : str) :
  tz_ok tz -> In op timeOps -> num_ok v ->
  (op = ">=" -> forall b, run (re_upperBound Eol) (MS b rest (boundCaps f tz v)) = []) ->
  tryParseTimeCondition (scalarText f tz op v ++ " && " ++ rest) = None.
Proof.
  intros [Hne Hq] Hop [Hv Hn] Hup. unfold tryParseTimeCondition.
  rewrite (exec_front_none (re_timeRange Eol)).
  2: { destruct Hop as [<-|[<-|[<-|[]]]].
       - by apply run_range_other; [..|left].
       - destruct (run_range_lower f tz v [] (" && " ++ rest) Eol) as [b ->];
           try done.
         change (js " && ") with (js " " ++ js "&&" ++ js " ").
         rewrite <- !app_assoc.
         destruct (run_range_join "&&" b rest (boundCaps f tz v)
           (re_upperBound Eol)) as [b' ->]; [by left|]. by apply Hup.
       - by apply run_range_other; [..|right; left]. }
  rewrite exec_front_none by (apply run_lit_fail, scalarText_no_paren).
  rewrite exec_front_none; [done|]. unfold re_timeScalar, scalarText.
  rewrite <- !app_assoc. change (jq "') ") with (dq :: js ") "). cbn [app].
  rewrite run_time_front by done.
  rewrite (run_lit_seq (dq :: js ") ") _ _ (op ++ " " ++ v ++ " && " ++ rest)).
  rewrite run_grp_one by (destruct Hop as [<-|[<-|[<-|[]]]]; done).
  rewrite run_lit_seq.
  unfold re_numch. rewrite run_grp_plus by (done || apply stops_eol). done.
Qed.

Lemma paren_then_none (f : TimeFunc) (tz op s e rest : str) :
  tz_ok tz -> boundJoin op -> num_ok s -> num_ok e ->
  tryParseTimeCondition (("(" ++ rangeText f tz op s e ++ ")") ++ " && " ++ rest)
  = None.
Proof.
  intros [Hne Hq] Hop [Hs Hsn] [He Hen]. unfold tryParseTimeCondition.
  rewrite <- app_assoc.
  rewrite (exec_front_none (re_timeRange Eol))
    by apply run_grp_none, run_timeFunc_paren.
  rewrite (exec_front_none re_timeScalar)
    by apply run_grp_none, run_timeFunc_paren.
  rewrite exec_front_none; [done|]. rewrite run_lit_seq.
  unfold rangeText. rewrite <- !app_assoc.
  edestruct (run_range_lower f tz s) as [b1 ->]; try done.
  edestruct (run_range_join op) as [b2 ->]; [done|].
  edestruct (run_upper f tz s e) as [b3 ->]; try done. by apply stops_lit.
Qed.

(** ** Reading parameter and header conditions *)

(** A quoted literal without escapes. *)
Definition unescaped (v : str) : Prop :=
  forallb (fun c => negb (c =? dq) && negb (c =? 92))%N v = true.

Lemma run_quoted (v b s : str) (c : list (nat * str)) :
  unescaped v ->
  run re_quoted (MS b (([dq] ++ v ++ [dq]) ++ s) c)
  = [MS (rev ([dq] ++ v ++ [dq]) ++ b) s c].
Proof.
  intros Hv. unfold re_quoted. rewrite <- !app_assoc, run_lit_seq.
  rewrite (run_star_seq (fun c => negb (c =? dq) && negb (c =? 92))%N); try done.
  - rewrite run_lit. by rewrite !rev_app_distr, <- !app_assoc.
  - intros b' d t Hd. rewrite run_alt, (run_lit_fail "\").
    { simpl. by rewrite Hd. }
    change (js "\") with [92%N]. cbn -[N.eqb]. apply andb_true_iff in Hd as [_ Hd].
    rewrite N.eqb_sym. by destruct (d =? 92)%N.
  - intros y ch t Hy Hc. apply run_lit_none. rewrite Hy. cbn -[N.eqb].
    rewrite N.eqb_sym. by destruct (ch =? dq)%N.
Qed.

(** The patterns up to the closing quote of the path: [t] is the text and [w]
    the literal that follow it. *)
Lemma run_path (w0 p w b t : str) (k : regex) :
  head w = Some dq -> head t = Some dq -> p <> [] -> no_dq p ->
  exists b', run (lit w0 · Grp 1 not_quote · lit w · k) (MS b (w0 ++ p ++ t) [])
  = run (lit w · k) (MS b' t [(1%nat, p)]).
Proof.
  destruct w as [|q w], t as [|q' t]; try done.
  intros [= ->] [= ->] Hne Hq. eexists. rewrite run_lit_seq. unfold not_quote.
  rewrite run_grp_plus; try done. by apply stops_lit.
Qed.

(** The literal after the path does not match the text. *)
Lemma exec_path_none (w0 p w t : str) (k : regex) :
  head w = Some dq -> head t = Some dq -> p <> [] -> no_dq p ->
  startsWith t w = false ->
  exec (Bol · lit w0 · Grp 1 not_quote · lit w · k) (w0 ++ p ++ t) = None.
Proof.
  intros Hw Ht Hne Hq Hs. apply exec_front_none.
  destruct (run_path w0 p w [] t k) as [b ->]; try done.
  by apply run_lit_fail.
Qed.

(** The text after the path is matched in one way, with captures [c]. *)
Lemma exec_path (w0 p w t : str) (k : regex) (c : list (nat * str)) :
  head w = Some dq -> head t = Some dq -> p <> [] -> no_dq p ->
  (forall b, exists b', run (lit w · k) (MS b t [(1%nat, p)]) = [MS b' [] c]) ->
  exists m, exec (Bol · lit w0 · Grp 1 not_quote · lit w · k) (w0 ++ p ++ t)
            = Some m /\ m_caps m = c.
Proof.
  intros Hw Ht Hne Hq Hrun. destruct (run_path w0 p w [] t k) as [b Hb]; try done.
  destruct (Hrun b) as [b' Hb']. rewrite Hb' in Hb.
  eexists. split; [by apply exec_front|done].
Qed.

Lemma exec_lit_none (w s : str) (k : regex) :
  startsWith s w = false -> exec (Bol · lit w · k) s = None.
Proof. intros H. by apply exec_front_none, run_lit_fail. Qed.

Definition headerExistsText (p : str) : str := jq "header('" ++ p ++ jq "') != ''".
Definition paramExistsText (p : str) : str := jq "param('" ++ p ++ jq "') != nil".
Definition headerContainsText (p v : str) : str :=
  jq "has(header('" ++ p ++ jq "'), " ++ ([dq] ++ v ++ [dq]) ++ ")".
Definition eqText (src : Source) (p l : str) : str :=
  (sourceName src ++ jq "('") ++ p ++ jq "') == " ++ l.

Ltac not_time := rewrite time_none_front by reflexivity.

Lemma parse_headerExists (p : str) :
  p <> [] -> no_dq p ->
  tryParseRequestCondition (headerExistsText p)
  = Ok (Some (CPH (PH FromHeader p MATCH_EXISTS []))).
Proof.
  intros Hne Hq. unfold tryParseRequestCondition, headerExistsText. not_time.
  unfold re_headerExists.
  destruct (exec_path (jq "header('") p (jq "') != ''") (jq "') != ''") Eol [(1%nat, p)]) as (m & -> & Hc); try done.
  { intros b. eexists. apply run_lit_eol. }
  unfold grp, group. by rewrite Hc.
Qed.

Lemma parse_paramExists (p : str) :
  p <> [] -> no_dq p ->
  tryParseRequestCondition (paramExistsText p)
  = Ok (Some (CPH (PH FromParam p MATCH_EXISTS []))).
Proof.
  intros Hne Hq. unfold tryParseRequestCondition, paramExistsText. not_time.
  unfold re_headerExists. rewrite exec_lit_none by reflexivity.
  unfold re_paramExists.
  destruct (exec_path (jq "param('") p (jq "') != nil") (jq "') != nil") Eol [(1%nat, p)]) as (m & -> & Hc); try done.
  { intros b. eexists. apply run_lit_eol. }
  unfold grp, group. by rewrite Hc.
Qed.

Lemma parse_headerContains (p v : str) :
  p <> [] -> no_dq p -> unescaped v -> quote v = [dq] ++ v ++ [dq] ->
  tryParseRequestCondition (headerContainsText p v)
  = Ok (Some (CPH (PH FromHeader p MATCH_CONTAINS v))).
Proof.
  intros Hne Hq Hv Hqv. unfold tryParseRequestCondition, headerContainsText.
  not_time. unfold re_headerExists, re_paramExists.
  rewrite !exec_lit_none by reflexivity. unfold re_headerContains.
  destruct (exec_path (jq "has(header('") p (jq "'), ")
    (jq "'), " ++ ([dq] ++ v ++ [dq]) ++ ")") (Grp 2 re_quoted · lit ")" · Eol)
    [(2%nat, [dq] ++ v ++ [dq]); (1%nat, p)]) as (m & -> & Hc); try done.
  { intros b. eexists. rewrite run_lit_seq, run_grp_one by (by apply run_quoted).
    apply run_lit_eol. }
  unfold grp, group, parseQuoted. rewrite Hc. cbn [cap_lookup Nat.eqb].
  by rewrite <- Hqv, json_parse_quote.
Qed.

(** The value of an equality, printed by [buildExprLiteral]. *)
Lemma parse_eq (src : Source) (p l : str) (v : json) :
  p <> [] -> no_dq p -> l <> [] -> forallb c_dot l = true ->
  parseExprLiteral l = Some v ->
  tryParseRequestCondition (eqText src p l)
  = Ok (Some (CPH (PH src p MATCH_EQ (json_to_string v)))).
Proof.
  intros Hne Hq Hl Hd Hv. unfold tryParseRequestCondition, eqText.
  rewrite time_none_front by (by destruct src).
  unfold re_headerExists, re_paramExists, re_headerContains, re_paramContains,
    re_paramCompare, re_equals.
  assert (Hm : exists m, exec (Bol · Grp 1 (alts [js "param"; js "header"])
      · lit (jq "('") · Grp 2 not_quote · lit (jq "') == ")
      · Grp 3 (Plus (Cls c_dot)) · Eol)
      ((sourceName src ++ jq "('") ++ p ++ jq "') == " ++ l) = Some m
    /\ m_caps m = [(3%nat, l); (2%nat, p); (1%nat, sourceName src)]).
  { eexists. split; [apply exec_front|reflexivity].
    rewrite <- app_assoc. rewrite run_grp_one by (by destruct src).
    rewrite run_lit_seq. unfold not_quote.
    rewrite run_grp_plus by (done || by apply stops_lit).
    rewrite run_lit_seq. rewrite <- (app_nil_r l) at 1.
    rewrite run_grp_plus by (done || apply stops_eol). apply run_eol_end. }
  destruct Hm as (m & Hm & Hc).
  destruct src; cbn [sourceName] in *;
    [ rewrite exec_lit_none by reflexivity;
      rewrite (exec_path_none (jq "param('")) by done;
      rewrite (exec_lit_none (jq "has(header('")) by reflexivity;
      rewrite !(exec_path_none (jq "param('")) by done
    | rewrite (exec_path_none (jq "header('")) by done;
      rewrite !exec_lit_none by reflexivity ];
    rewrite Hm; unfold grp, group; rewrite Hc; cbn [cap_lookup Nat.eqb];
    by rewrite Hv.
Qed.

(** ** What plain text gives *)

Lemma plain_forallb (q : N -> bool) (s : str) :
  (forall c, plain_char c = true -> q c = true) ->
  plain s = true -> forallb q s = true.
Proof.
  intros H [Hp _]%andb_true_iff. by apply (forallb_impl plain_char).
Qed.

Ltac plain_class :=
  apply plain_forallb; intros c; unfold plain_char, avoids, c_not;
  rewrite !andb_true_iff; intros [[[[[[? ?] ?] ?] ?] ?] ?];
  rewrite ?andb_true_iff; auto.

Lemma plain_no_dq (s : str) : plain s = true -> no_dq s.
Proof. plain_class. Qed.

Lemma plain_unescaped (s : str) : plain s = true -> unescaped s.
Proof. plain_class. Qed.

Lemma plain_dot (s : str) : plain s = true -> forallb c_dot s = true.
Proof. plain_class. Qed.

Lemma plain_quote (s : str) : plain s = true -> quote s = [dq] ++ s ++ [dq].
Proof.
  intros [_ H]%andb_true_iff. apply str_eqb_eq in H. unfold quote. by rewrite H.
Qed.

(** The literal of an equality is read back. *)
Lemma parse_literal (v : str) :
  plain v = true -> trim v = v ->
  exists j, parseExprLiteral (buildExprLiteral MATCH_EQ v) = Some j
            /\ json_to_string j = v.
Proof.
  intros Hp Ht. unfold buildExprLiteral. rewrite Ht.
  change (MATCH_EQ =?s MATCH_CONTAINS) with false. cbv iota.
  destruct ((v =?s "true") || (v =?s "false")) eqn:Hb.
  { exists (JStr v). unfold parseExprLiteral. by rewrite Ht, Hb. }
  destruct (test NUMERIC_LITERAL_REGEX v) eqn:Hn.
  { exists (JStr v). unfold parseExprLiteral. by rewrite Ht, Hb, Hn. }
  exists (JStr v). split; [|done]. unfold parseExprLiteral.
  assert (Htq : trim (quote v) = quote v).
  { apply trim_id. unfold quote. split; [by intros c [= <-]|].
    intros c. rewrite app_assoc, last_snoc. by intros [= <-]. }
  rewrite Htq.
  destruct (test NUMERIC_LITERAL_REGEX (quote v)) eqn:Hq.
  { apply numeric_numch in Hq. done. }
  unfold quote at 1 2. simpl. change (dq :: quote_body v ++ [dq]) with (quote v).
  by rewrite json_parse_quote.
Qed.

Lemma literal_shape (v : str) :
  plain v = true -> trim v = v ->
  (buildExprLiteral MATCH_EQ v = v /\ v <> [])
  \/ buildExprLiteral MATCH_EQ v = [dq] ++ v ++ [dq].
Proof.
  intros Hp Ht. unfold buildExprLiteral. rewrite Ht, (plain_quote _ Hp).
  change (MATCH_EQ =?s MATCH_CONTAINS) with false. cbv iota.
  destruct (str_eqb_spec v "true") as [->|_]; [by left|].
  destruct (str_eqb_spec v "false") as [->|_]; [by left|]. cbn [orb].
  destruct (test NUMERIC_LITERAL_REGEX v) eqn:Hn; [|by right].
  left. split; [done|]. by apply numeric_nonempty.
Qed.

(** ** What is printed *)

Lemma normalize_time_id (t : TimeCondition) :
  timezone t <> [] ->
  In (t_mode t) [MATCH_EQ; MATCH_GTE; MATCH_LT; MATCH_RANGE] ->
  normalizeTime t = t.
Proof.
  intros Hz Hm. destruct t as [f tz m v s e]. simpl in *.
  destruct tz as [|z tz]; [done|].
  by destruct Hm as [<-|[<-|[<-|[<-|[]]]]]; destruct f.
Qed.

Lemma normalize_ph_id (c : ParamHeaderCondition) :
  In (ph_mode c) [MATCH_EQ; MATCH_CONTAINS; MATCH_EXISTS] ->
  normalizePH c = c.
Proof.
  intros Hm. destruct c as [src p m v]. simpl in *.
  by destruct Hm as [<-|[<-|[<-|[]]]]; destruct src; destruct p.
Qed.

Definition overnight (t : TimeCondition) : bool :=
  num_lt (Number (rangeEnd t)) (Number (rangeStart t)).

Definition timeOp (t : TimeCondition) : str := timeModeOp (t_mode t).

(** The text of a condition inside a conjunction: the conjuncts the splitter
    sees. *)
Definition timeParts (t : TimeCondition) : list str :=
  let f := timeFunc t in let tz := timezone t in
  if t_mode t =?s MATCH_RANGE then
    if overnight t
    then [js "(" ++ rangeText f tz "||" (rangeStart t) (rangeEnd t) ++ js ")"]
    else [scalarText f tz ">=" (rangeStart t); scalarText f tz "<" (rangeEnd t)]
  else [scalarText f tz (timeOp t) (t_value t)].

Definition phText (c : ParamHeaderCondition) : str :=
  if ph_mode c =?s MATCH_EXISTS then
    match source c with
    | FromHeader => headerExistsText (path c)
    | FromParam => paramExistsText (path c)
    end
  else if ph_mode c =?s MATCH_CONTAINS then headerContainsText (path c) (ph_value c)
  else eqText (source c) (path c) (buildExprLiteral MATCH_EQ (ph_value c)).

Definition parts (c : RequestCondition) : list str :=
  match c with CTime t => timeParts t | CPH c => [phText c] end.

(** The parts of a well-formed time condition. *)
Inductive time_shape (t : TimeCondition) : Prop :=
  | TSScalar :
      tz_ok (timezone t) -> plain (timezone t) = true ->
      In (t_mode t) [MATCH_EQ; MATCH_GTE; MATCH_LT] ->
      isTimeValueInRange (timeFunc t) (t_value t) = true ->
      t = TC (timeFunc t) (timezone t) (t_mode t) (t_value t) [] [] ->
      time_shape t
  | TSRange :
      tz_ok (timezone t) -> plain (timezone t) = true ->
      isTimeValueInRange (timeFunc t) (rangeStart t) = true ->
      isTimeValueInRange (timeFunc t) (rangeEnd t) = true ->
      t = TC (timeFunc t) (timezone t) MATCH_RANGE [] (rangeStart t) (rangeEnd t) ->
      time_shape t.

Lemma wf_time_shape (t : TimeCondition) : wf_time t = true -> time_shape t.
Proof.
  unfold wf_time. rewrite !andb_true_iff, truthy_str_true. intros [[Hne Hp] H].
  pose proof (plain_no_dq _ Hp) as Hq.
  destruct (str_eqb_spec (t_mode t) MATCH_RANGE) as [Hm|Hm].
  - rewrite !andb_true_iff, str_eqb_eq in H. destruct H as [[Hv Hs] He].
    apply TSRange; try done. destruct t; simpl in *; by subst.
  - rewrite !andb_true_iff, !str_eqb_eq, mem_str_true, list_elem_of_In in H.
    destruct H as [[[Hi Hv] Hs] He].
    apply TSScalar; try done. destruct t; simpl in *; by subst.
Qed.

Lemma fn_text (f : TimeFunc) (tz op v : str) :
  plain tz = true ->
  (timeFuncName f ++ "(" ++ quote tz ++ ")") ++ " " ++ op ++ " " ++ v
  = scalarText f tz op v.
Proof.
  intros Hp. rewrite (plain_quote _ Hp). unfold scalarText.
  by rewrite <- !app_assoc.
Qed.

Lemma build_scalar (t : TimeCondition) :
  time_shape t -> t_mode t <> MATCH_RANGE ->
  buildTimeConditionExpr t
  = scalarText (timeFunc t) (timezone t) (timeOp t) (t_value t).
Proof.
  intros [[Hz _] Hp Hm Hv Ht|? ? ? ? Ht] Hr; [|by rewrite Ht in Hr].
  unfold buildTimeConditionExpr.
  rewrite normalize_time_id by (done || (simpl in *; tauto)).
  apply str_eqb_neq in Hr. rewrite Hr.
  rewrite (numeric_trim (t_value t)) by (by eapply in_range_numeric).
  rewrite Hv. cbn [negb]. by apply fn_text.
Qed.

Lemma build_range (t : TimeCondition) :
  time_shape t -> t_mode t = MATCH_RANGE ->
  buildTimeConditionExpr t
  = rangeText (timeFunc t) (timezone t) (if overnight t then js "||" else js "&&")
      (rangeStart t) (rangeEnd t).
Proof.
  intros [_ _ Hm _ _|[Hz _] Hp Hs He Ht] Hr.
  { rewrite Hr in Hm. by destruct Hm as [|[|[|[]]]]. }
  unfold buildTimeConditionExpr.
  rewrite normalize_time_id by (done || (rewrite Hr; simpl; tauto)).
  rewrite Hr, str_eqb_refl, !numeric_trim by (by eapply in_range_numeric).
  rewrite Hs, He. cbn [negb orb]. fold (overnight t).
  unfold rangeText.
  rewrite <- !(fn_text _ _ _ _ Hp).
  destruct (overnight t); by rewrite <- !app_assoc.
Qed.

(** Decide the comparisons of constants. *)
Ltac modes :=
  repeat match goal with
    |- context [?a =?s ?b] =>
      let v := eval vm_compute in (a =?s b) in
      match v with true => idtac | false => idtac end;
      change (a =?s b) with v
    end; cbn [orb]; cbv iota.

Inductive ph_shape (c : ParamHeaderCondition) : Prop :=
  | PSExists :
      c = PH (source c) (path c) MATCH_EXISTS [] -> ph_shape c
  | PSContains :
      c = PH FromHeader (path c) MATCH_CONTAINS (ph_value c) ->
      plain (ph_value c) = true -> trim (ph_value c) = ph_value c -> ph_shape c
  | PSEq :
      c = PH (source c) (path c) MATCH_EQ (ph_value c) ->
      plain (ph_value c) = true -> trim (ph_value c) = ph_value c -> ph_shape c.

Lemma wf_ph_shape (c : ParamHeaderCondition) :
  wf_ph c = true ->
  path c <> [] /\ plain (path c) = true /\ trim (path c) = path c /\ ph_shape c.
Proof.
  unfold wf_ph, isTrimmed.
  rewrite !andb_true_iff, truthy_str_true, str_eqb_eq.
  intros [[[Hne Hp] Ht] H]. repeat split; try done.
  destruct c as [src p m v]. simpl in *.
  destruct (str_eqb_spec m MATCH_EXISTS) as [->|_].
  { apply str_eqb_eq in H as ->. by apply PSExists. }
  rewrite !andb_true_iff, orb_true_iff, andb_true_iff, !str_eqb_eq in H.
  destruct H as [[Hv Hvt] [-> |[-> Hs]]].
  - by apply PSEq.
  - destruct src; [done|]. by apply PSContains.
Qed.

Lemma build_ph (c : ParamHeaderCondition) :
  wf_ph c = true -> buildPHExpr c = phText c.
Proof.
  intros (Hne & Hp & Ht & Hs)%wf_ph_shape. unfold buildPHExpr.
  rewrite normalize_ph_id by (destruct Hs as [-> | -> | ->]; simpl; tauto).
  rewrite Ht. destruct (path c) as [|x p] eqn:Hpath; [done|].
  rewrite (plain_quote _ Hp).
  destruct Hs as [Hc|Hc Hv Hvt|Hc Hv Hvt]; rewrite Hc; cbn [source ph_mode path ph_value];
    unfold phText; cbn [source ph_mode path ph_value]; rewrite Hpath.
  - modes. destruct (source c); cbv iota;
      unfold headerExistsText, paramExistsText; by rewrite <- !app_assoc.
  - modes. unfold headerContainsText, buildExprLiteral. modes. rewrite Hvt.
    rewrite (plain_quote _ Hv). by rewrite <- !app_assoc.
  - modes. unfold eqText. destruct (source c); by rewrite <- !app_assoc.
Qed.

Lemma parse_ph (c : ParamHeaderCondition) :
  wf_ph c = true -> tryParseRequestCondition (phText c) = Ok (Some (CPH c)).
Proof.
  intros (Hne & Hp & Ht & Hs)%wf_ph_shape.
  pose proof (plain_no_dq _ Hp) as Hq.
  destruct Hs as [Hc|Hc Hv Hvt|Hc Hv Hvt]; rewrite Hc; unfold phText;
    cbn [source ph_mode path ph_value].
  - destruct (source c); [by apply parse_paramExists|by apply parse_headerExists].
  - apply parse_headerContains; try done.
    + by apply plain_unescaped.
    + by apply plain_quote.
  - destruct (parse_literal _ Hv Hvt) as (j & Hj & Hjs).
    modes. etransitivity; [apply (parse_eq _ _ _ j); try done|by rewrite Hjs].
    + destruct (literal_shape _ Hv Hvt) as [[-> ?]| ->]; done.
    + destruct (literal_shape _ Hv Hvt) as [[-> ?]| ->]; [by apply plain_dot|].
      by rewrite !forallb_app, (plain_dot _ Hv).
Qed.

Lemma ph_not_time (c : ParamHeaderCondition) (s : str) :
  tryParseTimeCondition (phText c ++ s) = None.
Proof.
  unfold phText.
  destruct (_ =?s _); [|destruct (_ =?s _)]; destruct (source c);
    by apply time_none_front.
Qed.

(** ** Splitting at the top level *)

(** The nesting depth after a text; [None] when a parenthesis is closed that
    was not opened. *)
Fixpoint scan (d : nat) (s : str) : option nat :=
  match s with
  | [] => Some d
  | c :: s' =>
      if (c =? "("%char)%N then scan (S d) s'
      else if (c =? ")"%char)%N then
        match d with O => None | S k => scan k s' end
      else scan d s'
  end.

Definition balanced (s : str) : Prop := forall d, scan d s = Some d.

Lemma scan_app (d : nat) (a b : str) :
  scan d (a ++ b) = match scan d a with Some k => scan k b | None => None end.
Proof.
  revert d; induction a as [|c a IH]; intros d; [done|]. simpl.
  destruct (c =? _)%N; [done|]. destruct (c =? _)%N; [|done]. by destruct d.
Qed.

Lemma balanced_app (a b : str) : balanced a -> balanced b -> balanced (a ++ b).
Proof. intros Ha Hb d. by rewrite scan_app, Ha. Qed.

Lemma balanced_paren (a : str) : balanced a -> balanced ("(" ++ a ++ ")").
Proof. intros Ha d. simpl. by rewrite scan_app, Ha. Qed.

Definition no_paren (c : N) : bool := (negb (c =? "("%char) && negb (c =? ")"%char))%N.

Lemma balanced_no_paren (a : str) : forallb no_paren a = true -> balanced a.
Proof.
  intros H d. induction a as [|c a IH]; [done|]. simpl in H |- *.
  apply andb_true_iff in H as [[Ho Hc]%andb_true_iff H].
  destruct (c =? _)%N; [done|]. destruct (c =? _)%N; [done|]. by apply IH.
Qed.

Lemma depth_step (d : nat) (c : N) :
  (if (c =? "("%char)%N then Z.of_nat d + 1
   else if (c =? ")"%char)%N then Z.of_nat d - 1 else Z.of_nat d)
  = if (c =? "("%char)%N then Z.of_nat (S d)
    else if (c =? ")"%char)%N then Z.of_nat d - 1 else Z.of_nat d.
Proof. destruct (c =? "("%char)%N; lia. Qed.

(** Inside parentheses nothing is split. *)
Lemma split_deep (sep a r cur : str) (d d' : nat) :
  scan d a = Some d' ->
  split_loop sep (a ++ r) cur (Z.of_nat (S d)) O
  = split_loop sep r (rev a ++ cur) (Z.of_nat (S d')) O.
Proof.
  revert d cur; induction a as [|c a IH]; intros d cur H.
  { by injection H as ->. }
  cbn [scan app split_loop] in H |- *. rewrite depth_step.
  assert (Hz : forall n, (Z.of_nat (S n) =? 0) = false) by (intros n; apply Z.eqb_neq; lia).
  cbn [rev]. rewrite <- app_assoc. cbn [app].
  destruct (c =? "("%char)%N; [rewrite Hz; by apply IH|].
  destruct (c =? ")"%char)%N; [|rewrite Hz; by apply IH].
  destruct d as [|d]; [done|].
  replace (Z.of_nat (S (S d)) - 1) with (Z.of_nat (S d)) by lia.
  rewrite Hz. by apply IH.
Qed.

(** Text without an ampersand is not split. *)
Lemma split_and_atom (a r cur : str) (d d' : nat) :
  avoids "&"%char a = true -> scan d a = Some d' ->
  (forall c r', r = c :: r' -> c = chr " "%char) ->
  split_loop " && " (a ++ r) cur (Z.of_nat d) O
  = split_loop " && " r (rev a ++ cur) (Z.of_nat d') O.
Proof.
  intros Ha H Hr. revert d cur H Ha; induction a as [|c a IH]; intros d cur H Ha.
  { by injection H as ->. }
  assert (Hsep : startsWith (c :: a ++ r) " && " = false).
  { apply not_true_is_false. intros [t Ht]%startsWith_spec.
    change (js " && ") with [32; 38; 38; 32]%N in Ht.
    destruct a as [|c' a]; simpl in Ht.
    - destruct r as [|c' r]; [done|]. injection Ht as _ -> _.
      by specialize (Hr _ _ eq_refl).
    - injection Ht as _ -> _. simpl in Ha. by rewrite andb_false_r in Ha. }
  simpl in Ha. apply andb_true_iff in Ha as [_ Ha].
  cbn [app split_loop]. change (c :: (a ++ r)) with (c :: a ++ r).
  rewrite Hsep, depth_step. cbn [scan rev] in H |- *. rewrite <- app_assoc.
  cbn [app].
  destruct (c =? "("%char)%N; [rewrite andb_false_r; by apply IH|].
  destruct (c =? ")"%char)%N; rewrite andb_false_r; [|by apply IH].
  destruct d as [|d]; [done|].
  replace (Z.of_nat (S d) - 1) with (Z.of_nat d) by lia. by apply IH.
Qed.

(** A conjunct that the splitter returns as it is. *)
Record atom (a : str) : Prop := Atom {
  atom_and : avoids "&"%char a = true;
  atom_bal : balanced a;
  atom_trim : trim a = a;
  atom_ne : a <> [];
}.

Lemma split_and_sep (r cur : str) :
  split_loop " && " (" && " ++ r) cur 0 O
  = trim (rev cur) :: split_loop " && " r [] 0 O.
Proof. by destruct r. Qed.

Lemma split_and_join (ps : list str) :
  Forall atom ps -> ps <> [] ->
  split_loop " && " (str_join " && " ps) [] 0 O = ps.
Proof.
  induction ps as [|p ps IH]; intros Hps Hne; [done|].
  apply Forall_cons in Hps as [[Ha Hb Ht Hn] Hps].
  destruct ps as [|q ps].
  - change (str_join " && " [p]) with p. rewrite <- (app_nil_r p) at 1.
    change 0 with (Z.of_nat 0). rewrite (split_and_atom p [] [] 0 0) by done.
    simpl. by rewrite app_nil_r, rev_involutive, Ht.
  - rewrite join_cons by done. change 0 with (Z.of_nat 0).
    rewrite (split_and_atom p _ [] 0 0); [|done..|by intros ? ? [= <- _]].
    change (Z.of_nat 0) with 0. rewrite split_and_sep, app_nil_r, rev_involutive, Ht.
    by rewrite IH.
Qed.

Lemma filter_truthy_id (ps : list str) :
  Forall (fun p => p <> []) ps -> filter_truthy ps = ps.
Proof.
  induction 1 as [|p ps Hp _ IH]; [done|]. unfold filter_truthy in *. simpl.
  apply truthy_str_true in Hp. by rewrite Hp, IH.
Qed.

Lemma splitTopLevelAnd_join (ps : list str) :
  Forall atom ps -> ps <> [] ->
  splitTopLevelAnd (str_join " && " ps) = ps.
Proof.
  intros Hps Hne. unfold splitTopLevelAnd. rewrite split_and_join by done.
  apply filter_truthy_id. eapply Forall_impl; [exact Hps|]. by intros p [].
Qed.

(** ** The conjuncts that are printed *)

(** Code units that mean nothing to the splitters. *)
Definition quiet (c : N) : bool :=
  no_paren c && negb (c =? "&"%char)%N && negb (c =? "|"%char)%N.

Lemma quiet_avoids (x : N) (s : str) :
  (x = "&"%char \/ x = "|"%char) -> forallb quiet s = true -> avoids x s = true.
Proof.
  intros Hx. apply forallb_impl. intros c.
  unfold quiet. rewrite !andb_true_iff. intros [[_ Ha] Ho].
  by destruct Hx as [-> | ->].
Qed.

Lemma quiet_balanced (s : str) : forallb quiet s = true -> balanced s.
Proof.
  intros H. apply balanced_no_paren. eapply forallb_impl; [|exact H].
  intros c. unfold quiet. rewrite !andb_true_iff. by intros [[H' _] _].
Qed.

Lemma plain_quiet (s : str) : plain s = true -> forallb quiet s = true.
Proof. unfold quiet, no_paren. plain_class. Qed.

Lemma numch_quiet (s : str) :
  forallb c_numch s = true -> forallb quiet s = true.
Proof.
  apply forallb_impl. intros c. unfold c_numch, is_digit.
  rewrite !orb_true_iff, !N.eqb_eq, andb_true_iff, !N.leb_le.
  intros [[[[[H| ->]| ->]| ->]| ->]| ->]; try done.
  unfold quiet, no_paren.
  repeat rewrite andb_true_iff. rewrite !negb_true_iff, !N.eqb_neq.
  unfold chr; simpl. repeat split; lia.
Qed.

(** Text of the shape of a call followed by quiet text. *)
Lemma call_balanced (f a r : str) :
  forallb quiet f = true -> forallb quiet a = true -> balanced r ->
  balanced (f ++ ("(" ++ ([dq] ++ a ++ [dq]) ++ ")") ++ r).
Proof.
  intros Hf Ha Hr. apply balanced_app; [by apply quiet_balanced|].
  apply balanced_app; [|done]. apply balanced_paren, quiet_balanced.
  by rewrite !forallb_app, Ha.
Qed.

Lemma call_avoids (x : N) (f a r : str) :
  x = "&"%char \/ x = "|"%char ->
  forallb quiet f = true -> forallb quiet a = true -> avoids x r = true ->
  avoids x (f ++ ("(" ++ ([dq] ++ a ++ [dq]) ++ ")") ++ r) = true.
Proof.
  intros Hx Hf Ha Hr. rewrite !avoids_app, Hr.
  rewrite (quiet_avoids x f), (quiet_avoids x a) by done.
  by destruct Hx as [-> | ->].
Qed.

Lemma timeOps_quiet (op : str) : In op timeOps -> forallb quiet op = true.
Proof. by intros [<-|[<-|[<-|[]]]]. Qed.

Lemma timeFuncName_quiet (f : TimeFunc) : forallb quiet (timeFuncName f) = true.
Proof. by destruct f. Qed.

Lemma scalarText_call (f : TimeFunc) (tz op v : str) :
  scalarText f tz op v
  = timeFuncName f ++ ("(" ++ ([dq] ++ tz ++ [dq]) ++ ")")
    ++ " " ++ op ++ " " ++ v.
Proof. unfold scalarText. by rewrite <- !app_assoc. Qed.

Lemma num_ok_trimmed (v : str) : num_ok v -> trimmed v.
Proof.
  intros [_ Hn]. apply trimmed_nows.
  by apply (forallb_impl c_numch); [apply numch_not_ws|].
Qed.

Lemma timeFuncName_ends (f : TimeFunc) :
  timeFuncName f <> [] /\ trimmed (timeFuncName f).
Proof. split; [by destruct f|]. apply trimmed_nows. by destruct f. Qed.

Lemma scalar_tail_quiet (op v : str) :
  In op timeOps -> num_ok v -> forallb quiet (" " ++ op ++ " " ++ v) = true.
Proof.
  intros Hop [_ Hn].
  by rewrite !forallb_app, (timeOps_quiet op), (numch_quiet v).
Qed.

Lemma scalar_avoids (x : N) (f : TimeFunc) (tz op v : str) :
  x = "&"%char \/ x = "|"%char -> plain tz = true -> In op timeOps -> num_ok v ->
  avoids x (scalarText f tz op v) = true.
Proof.
  intros Hx Hp Hop Hn. rewrite scalarText_call.
  apply call_avoids; [done|apply timeFuncName_quiet|by apply plain_quiet|].
  by apply quiet_avoids, scalar_tail_quiet.
Qed.

Lemma scalar_balanced (f : TimeFunc) (tz op v : str) :
  plain tz = true -> In op timeOps -> num_ok v ->
  balanced (scalarText f tz op v).
Proof.
  intros Hp Hop Hn. rewrite scalarText_call.
  apply call_balanced; [apply timeFuncName_quiet|by apply plain_quiet|].
  by apply quiet_balanced, scalar_tail_quiet.
Qed.

Lemma atom_scalar (f : TimeFunc) (tz op v : str) :
  plain tz = true -> In op timeOps -> num_ok v -> atom (scalarText f tz op v).
Proof.
  intros Hp Hop Hn. destruct (timeFuncName_ends f) as [Hf Hft]. split.
  - apply scalar_avoids; auto.
  - by apply scalar_balanced.
  - apply trim_id. replace (scalarText f tz op v) with
      (timeFuncName f ++ (jq "('" ++ tz ++ jq "') " ++ op ++ " ") ++ v)
      by (unfold scalarText; by rewrite <- !app_assoc).
    apply trimmed_ends; try done; [by destruct Hn|by apply num_ok_trimmed].
  - by destruct f.
Qed.

Lemma range_balanced (f : TimeFunc) (tz op s e : str) :
  plain tz = true -> boundJoin op -> num_ok s -> num_ok e ->
  balanced (rangeText f tz op s e).
Proof.
  intros Hp Hop Hs He. unfold rangeText.
  apply balanced_app; [by apply scalar_balanced; simpl; auto|].
  do 3 (apply balanced_app;
    [apply balanced_no_paren; by destruct Hop as [<-|[<-|[]]]|]).
  by apply scalar_balanced; simpl; auto.
Qed.

Lemma atom_overnight (f : TimeFunc) (tz s e : str) :
  plain tz = true -> num_ok s -> num_ok e ->
  atom (js "(" ++ rangeText f tz "||" s e ++ js ")").
Proof.
  intros Hp Hs He. split.
  - unfold rangeText. rewrite !avoids_app, !scalar_avoids; simpl; auto.
  - by apply balanced_paren, range_balanced; [|right; left|..].
  - apply trim_id. by apply trimmed_ends; try apply trimmed_nows.
  - done.
Qed.

(** A call followed by quiet text, as a conjunct. *)
Lemma atom_call (f a r : str) :
  f <> [] -> trimmed f -> forallb quiet f = true -> forallb quiet a = true ->
  r <> [] -> forallb quiet r = true ->
  (forall c, last r = Some c -> is_ws c = false) ->
  atom (f ++ ("(" ++ ([dq] ++ a ++ [dq]) ++ ")") ++ r)
  /\ avoids "|"%char (f ++ ("(" ++ ([dq] ++ a ++ [dq]) ++ ")") ++ r) = true.
Proof.
  intros Hne Hft Hf Ha Hr Hrq Hrl. split; [split|].
  - apply call_avoids; auto. by apply quiet_avoids; [left|].
  - apply call_balanced; auto. by apply quiet_balanced.
  - apply trim_id. destruct Hft as [Hfh _]. split; intros c.
    + destruct f; [done|]. apply Hfh.
    + destruct r as [|y r] using rev_ind; [done|].
      rewrite !app_assoc, last_snoc. intros E. apply Hrl. by rewrite last_snoc.
  - by destruct f.
  - apply call_avoids; auto. by apply quiet_avoids; [right|].
Qed.

Lemma literal_quiet (v : str) :
  plain v = true -> trim v = v ->
  let l := buildExprLiteral MATCH_EQ v in
  forallb quiet l = true /\ l <> [] /\ (forall c, last l = Some c -> is_ws c = false).
Proof.
  intros Hp Ht l. subst l. destruct (literal_shape _ Hp Ht) as [[-> Hne]| ->].
  - repeat split; [by apply plain_quiet|done|].
    rewrite <- Ht. apply trimmed_trim.
  - repeat split; [by rewrite !forallb_app, (plain_quiet v)|done|].
    intros c. rewrite app_assoc, last_snoc. by intros [= <-].
Qed.

(** Solve the ends of a literal prefix or suffix. *)
Ltac ends := try done; try (by apply trimmed_nows); try (by intros ? [= <-]).

Lemma atom_ph (c : ParamHeaderCondition) :
  wf_ph c = true -> atom (phText c) /\ avoids "|"%char (phText c) = true.
Proof.
  intros (_ & Hp & _ & Hs)%wf_ph_shape.
  pose proof (plain_quiet _ Hp) as Hq.
  destruct Hs as [Hc|Hc Hv Hvt|Hc Hv Hvt]; rewrite Hc; unfold phText;
    cbn [source ph_mode path ph_value]; modes.
  - destruct (source c).
    + change (paramExistsText (path c))
        with ("param" ++ jq "('" ++ path c ++ jq "') != nil").
      replace (jq "('" ++ path c ++ jq "') != nil") with
        (("(" ++ ([dq] ++ path c ++ [dq]) ++ ")") ++ js " != nil")
        by (by rewrite <- !app_assoc).
      apply atom_call; ends.
    + change (headerExistsText (path c))
        with ("header" ++ jq "('" ++ path c ++ jq "') != ''").
      replace (jq "('" ++ path c ++ jq "') != ''") with
        (("(" ++ ([dq] ++ path c ++ [dq]) ++ ")") ++ jq " != ''")
        by (by rewrite <- !app_assoc).
      apply atom_call; ends.
  - set (inner := "header" ++ ("(" ++ ([dq] ++ path c ++ [dq]) ++ ")")
      ++ (", " ++ ([dq] ++ ph_value c ++ [dq]))).
    assert (Hi : atom inner /\ avoids "|"%char inner = true).
    { apply atom_call; ends.
      - by rewrite !forallb_app, (plain_quiet (ph_value c)).
      - intros x. rewrite !app_assoc, last_snoc. by intros [= <-]. }
    destruct Hi as [[Ha Hb _ _] Ho].
    replace (headerContainsText (path c) (ph_value c))
      with ("has" ++ ("(" ++ inner ++ ")"))
      by (unfold headerContainsText, inner; by rewrite <- !app_assoc).
    split; [split|].
    + by rewrite !avoids_app, Ha.
    + apply balanced_app; [by apply balanced_no_paren|by apply balanced_paren].
    + apply trim_id. rewrite app_assoc. by apply trimmed_ends; ends.
    + done.
    + by rewrite !avoids_app, Ho.
  - destruct (literal_quiet _ Hv Hvt) as (Hlq & Hln & Hll).
    replace (eqText (source c) (path c) (buildExprLiteral MATCH_EQ (ph_value c)))
      with (sourceName (source c) ++ ("(" ++ ([dq] ++ path c ++ [dq]) ++ ")")
            ++ (" == " ++ buildExprLiteral MATCH_EQ (ph_value c)))
      by (unfold eqText; by rewrite <- !app_assoc).
    apply atom_call; [by destruct (source c)|by destruct (source c); ends
      |by destruct (source c)|done|done|by rewrite forallb_app, Hlq|].
    intros x. destruct (buildExprLiteral _ _) as [|y l _] using rev_ind; [done|].
    rewrite app_assoc, last_snoc. intros E. apply Hll. by rewrite last_snoc.
Qed.

(** ** Reading a conjunction *)

Lemma timeOp_In (t : TimeCondition) : In (timeOp t) timeOps.
Proof.
  unfold timeOp, timeModeOp.
  repeat (destruct (_ =?s _); [simpl; tauto|]). simpl; tauto.
Qed.

Lemma timeOpMode_timeOp (t : TimeCondition) :
  In (t_mode t) [MATCH_EQ; MATCH_GTE; MATCH_LT] ->
  timeOpMode (timeOp t) = t_mode t.
Proof. unfold timeOp. by intros [<-|[<-|[<-|[]]]]. Qed.

Definition timeView (c : RequestCondition) : option TimeCondition :=
  match c with CTime t => Some t | CPH _ => None end.

(** How the parts of a condition are read: a range within a day is two
    conjuncts, everything else is one. *)
Inductive parts_view (c : RequestCondition) : Prop :=
  | VPair f tz s e :
      c = CTime (TC f tz MATCH_RANGE [] s e) ->
      parts c = [scalarText f tz ">=" s; scalarText f tz "<" e] ->
      tryParseTimeCondition (scalarText f tz ">=" s)
        = Some (TC f tz MATCH_GTE s [] []) ->
      tryParseTimeCondition (scalarText f tz "<" e)
        = Some (TC f tz MATCH_LT e [] []) -> parts_view c
  | VOne p :
      parts c = [p] -> tryParseRequestCondition p = Ok (Some c) ->
      tryParseTimeCondition p = timeView c -> parts_view c.

Lemma parse_time_condition (p : str) (t : TimeCondition) :
  tryParseTimeCondition p = Some t ->
  tryParseRequestCondition p = Ok (Some (CTime t)).
Proof. intros H. unfold tryParseRequestCondition. by rewrite H. Qed.

Lemma scalar_not_range (t : TimeCondition) :
  In (t_mode t) [MATCH_EQ; MATCH_GTE; MATCH_LT] ->
  (t_mode t =?s MATCH_RANGE) = false.
Proof. by intros [<-|[<-|[<-|[]]]]. Qed.

Lemma wf_parts_view (c : RequestCondition) : wf_cond c = true -> parts_view c.
Proof.
  destruct c as [t|c]; cbn [wf_cond]; intros Hwf.
  2: { apply (VOne _ (phText c)); [done|by apply parse_ph|].
       rewrite <- (app_nil_r (phText c)). apply ph_not_time. }
  apply wf_time_shape in Hwf as [Hz Hp Hm Hv Ht|Hz Hp Hs He Ht].
  - assert (Hparse : tryParseTimeCondition
      (scalarText (timeFunc t) (timezone t) (timeOp t) (t_value t)) = Some t).
    { rewrite time_scalar by (done || apply timeOp_In).
      by rewrite timeOpMode_timeOp, <- Ht. }
    eapply VOne; [|by apply parse_time_condition|exact Hparse].
    cbn [parts]. unfold timeParts. by rewrite scalar_not_range.
  - destruct (overnight t) eqn:Ho.
    + assert (Hparse : tryParseTimeCondition ("(" ++ rangeText (timeFunc t)
        (timezone t) "||" (rangeStart t) (rangeEnd t) ++ ")") = Some t).
      { rewrite time_range_paren; try done; [by rewrite <- Ht|by right; left]. }
      eapply VOne; [|by apply parse_time_condition|exact Hparse].
      cbn [parts]. unfold timeParts. rewrite Ho. by rewrite Ht.
    + eapply VPair; [by rewrite Ht at 1|..].
      * cbn [parts]. unfold timeParts. rewrite Ho. by rewrite Ht.
      * rewrite time_scalar; simpl; auto.
      * rewrite time_scalar; simpl; auto.
Qed.

(** The first conjunct of a condition is an upper bound only if the condition
    is one. *)
Lemma head_part (c : RequestCondition) :
  wf_cond c = true ->
  exists q qs, parts c = q :: qs /\
    forall t, tryParseTimeCondition q = Some t -> t_mode t = MATCH_LT ->
              c = CTime t.
Proof.
  intros [f tz s e Hc Hps H1 H2|p Hps H1 H2]%wf_parts_view;
    rewrite Hps; do 2 eexists; (split; [done|]); intros t Ht Hm.
  - rewrite Ht in H1. by injection H1 as ->.
  - rewrite Ht in H2. destruct c; simpl in H2; congruence.
Qed.

Lemma pair_none (c1 c2 : RequestCondition) (p q : str) :
  tryParseTimeCondition p = timeView c1 ->
  (forall t, tryParseTimeCondition q = Some t -> t_mode t = MATCH_LT ->
             c2 = CTime t) ->
  mergeable c1 c2 = false -> tryParseTimeRangePair p q = None.
Proof.
  intros H1 H2 Hm. unfold tryParseTimeRangePair. rewrite H1.
  destruct c1 as [t1|]; [|done]. cbn [timeView].
  destruct (tryParseTimeCondition q) as [t2|]; [|done].
  destruct (timeFuncName (timeFunc t1) =?s _) eqn:Ef; [|done].
  destruct (timezone t1 =?s _) eqn:Ez; [|done].
  destruct (t_mode t1 =?s _) eqn:Eg; [|done].
  destruct (str_eqb_spec (t_mode t2) MATCH_LT) as [El|]; [|done].
  rewrite (H2 t2) in Hm by done. simpl in Hm.
  by rewrite Ef, Ez, Eg, El in Hm.
Qed.

Lemma wf_parts_atoms (c : RequestCondition) :
  wf_cond c = true -> Forall atom (parts c).
Proof.
  destruct c as [t|c]; cbn [wf_cond parts].
  2: { intros [H _]%atom_ph. by constructor. }
  intros [Hz Hp Hm Hv Ht|Hz Hp Hs He Ht]%wf_time_shape; unfold timeParts.
  - rewrite scalar_not_range by done. constructor; [|done].
    apply atom_scalar; [done|apply timeOp_In|by eapply in_range_num_ok].
  - rewrite Ht. cbn -[scalarText rangeText overnight].
    apply in_range_num_ok in Hs, He. destruct (overnight _).
    + constructor; [|done]. by apply atom_overnight.
    + repeat constructor; apply atom_scalar; simpl; auto.
Qed.

Lemma parse_parts (cs : list RequestCondition) :
  forallb wf_cond cs = true -> no_merge cs = true ->
  parseAndParts (flat_map parts cs) = Ok (Some cs).
Proof.
  induction cs as [|c cs IH]; intros Hwf Hm; [done|].
  cbn [forallb] in Hwf. apply andb_true_iff in Hwf as [Hc Hcs].
  assert (Hm' : no_merge cs = true).
  { destruct cs; [done|]. by apply andb_true_iff in Hm as [_ Hm]. }
  specialize (IH Hcs Hm'). cbn [flat_map].
  pose proof (wf_parts_atoms c Hc) as Hat.
  destruct (wf_parts_view c Hc) as [f tz s e Hceq Hps H1 H2|p Hps H1 H2];
    rewrite Hps in *; cbn [app].
  - inversion_clear Hat as [|? ? [_ _ Ht1 _] Hat'].
    inversion_clear Hat' as [|? ? [_ _ Ht2 Hn2] _].
    cbn [parseAndParts]. rewrite Ht1, Ht2.
    apply truthy_str_true in Hn2. rewrite Hn2.
    unfold tryParseTimeRangePair. rewrite H1, H2.
    cbn [timeFunc timezone t_mode t_value]. rewrite !str_eqb_refl. modes.
    cbn [negb orb]. by rewrite IH, Hceq.
  - inversion_clear Hat as [|? ? [_ _ Ht1 _] _]. cbn [parseAndParts].
    rewrite Ht1, H1. destruct cs as [|c2 cs]; [by rewrite IH|].
    cbn [forallb] in Hcs. apply andb_true_iff in Hcs as [Hc2 _].
    destruct (head_part c2 Hc2) as (q & qs & Hq & Hlt).
    cbn [flat_map] in IH |- *. rewrite Hq in IH |- *. cbn [app] in IH |- *.
    pose proof (wf_parts_atoms c2 Hc2) as Hat2. rewrite Hq in Hat2.
    inversion_clear Hat2 as [|? ? [_ _ Ht2 _] _]. rewrite Ht2.
    rewrite (pair_none c c2 p q) by
      (done || by apply andb_true_iff in Hm as [?%negb_true_iff _]).
    destruct (truthy_str q); by rewrite IH.
Qed.

(** Two quoted texts that agree up to the closing quote are equal. *)
Lemma until_dq (a b s t : str) :
  no_dq a -> no_dq b -> a ++ dq :: s = b ++ dq :: t -> a = b.
Proof.
  revert b; induction a as [|x a IH]; intros [|y b] Ha Hb; simpl; try done.
  - intros [= <- _]. done.
  - intros [= -> _]. done.
  - intros [= -> H]. apply andb_true_iff in Ha as [_ Ha].
    apply andb_true_iff in Hb as [_ Hb]. f_equal. by apply IH.
Qed.

(** The text is not the upper bound of [f] in [tz]. *)
Lemma upper_scalar_none (f f2 : TimeFunc) (tz tz2 op v w b s : str) :
  no_dq tz -> no_dq tz2 -> In op timeOps ->
  ~ (f2 = f /\ tz2 = tz /\ op = "<") ->
  run (re_upperBound Eol) (MS b (scalarText f2 tz2 op w ++ s) (boundCaps f tz v))
  = [].
Proof.
  intros Hq Hq2 Hop Hno. unfold re_upperBound.
  destruct (timeFuncName f =?s timeFuncName f2) eqn:Hf.
  2: { apply run_back_fail with (timeFuncName f); [done|]. by destruct f, f2. }
  assert (f2 = f) as -> by (by destruct f, f2). unfold scalarText.
  rewrite <- !app_assoc, (run_back_seq 1 (timeFuncName f)), run_lit_seq by done.
  change (jq "') ") with (dq :: js ") "). cbn [app].
  destruct (startsWith (tz2 ++ dq :: js ") " ++ op ++ " " ++ w ++ s) tz) eqn:Hz.
  2: { by apply run_back_fail with tz. }
  apply startsWith_spec in Hz as [t Ht]. rewrite Ht.
  rewrite (run_back_seq 2 tz) by done.
  destruct (startsWith t (jq "') < ")) eqn:Hl; [|by apply run_lit_fail].
  exfalso. apply startsWith_spec in Hl as [t' ->].
  assert (tz2 = tz) as ->.
  { eapply until_dq; [done..|]. rewrite Ht. reflexivity. }
  apply app_inv_head in Ht. apply Hno. repeat split.
  by destruct Hop as [<-|[<-|[<-|[]]]].
Qed.

Lemma upper_none (f : TimeFunc) (tz v b s q : str) (qs : list str)
    (c : RequestCondition) :
  no_dq tz -> wf_cond c = true -> parts c = q :: qs ->
  (forall t, c = CTime t -> ~ (timeFunc t = f /\ timezone t = tz
                               /\ t_mode t = MATCH_LT)) ->
  run (re_upperBound Eol) (MS b (q ++ s) (boundCaps f tz v)) = [].
Proof.
  intros Hq Hwf Hps Hno. destruct c as [t|c]; cbn [wf_cond parts] in *.
  2: { injection Hps as <- _. apply run_back_fail with (timeFuncName f); [done|].
       unfold phText. destruct (_ =?s _); [|destruct (_ =?s _)];
         destruct (source c); by destruct f. }
  apply wf_time_shape in Hwf as [[_ Hz] Hp Hm Hv Ht|[_ Hz] Hp Hs He Ht];
    unfold timeParts in Hps.
  - rewrite scalar_not_range in Hps by done. injection Hps as <- _.
    apply upper_scalar_none; try done; [apply timeOp_In|].
    intros (Hf & Htz & Hop). apply (Hno t); [done|]. repeat split; try done.
    unfold timeOp in Hop. by destruct Hm as [E|[E|[E|[]]]]; rewrite <- E in *.
  - rewrite (f_equal t_mode Ht), str_eqb_refl in Hps. destruct (overnight t).
    + injection Hps as <- _. apply run_back_fail with (timeFuncName f); [done|].
      by destruct f.
    + injection Hps as <- _. apply upper_scalar_none; simpl; try done; [tauto|].
      by intros (_ & _ & ?).
Qed.

Lemma join_app_cons (sep p q : str) (qs : list str) :
  str_join sep (p :: q :: qs) = p ++ sep ++ str_join sep (q :: qs).
Proof. done. Qed.

Lemma join_head (sep q : str) (qs : list str) :
  exists s, str_join sep (q :: qs) = q ++ s.
Proof.
  destruct qs as [|q' qs]; [exists []; simpl; by rewrite app_nil_r|].
  by eexists.
Qed.

Lemma whole_none (c1 c2 : RequestCondition) (cs : list RequestCondition) :
  forallb wf_cond (c1 :: c2 :: cs) = true -> mergeable c1 c2 = false ->
  tryParseTimeCondition (str_join " && " (flat_map parts (c1 :: c2 :: cs))) = None.
Proof.
  cbn [forallb]. rewrite !andb_true_iff. intros (H1 & H2 & _) Hm.
  destruct (head_part c2 H2) as (q & qs & Hq & _).
  change (flat_map parts (c1 :: c2 :: cs))
    with (parts c1 ++ (parts c2 ++ flat_map parts cs)).
  rewrite Hq. cbn [app]. set (rest := qs ++ flat_map parts cs).
  destruct (join_head " && " q rest) as [s Hs].
  destruct c1 as [t|c]; cbn [wf_cond parts] in *.
  2: { cbn [app]. rewrite join_app_cons. apply ph_not_time. }
  pose proof (wf_time_shape t H1) as [Hz Hp Hmode Hv Ht|Hz Hp Hst He Ht];
    unfold timeParts.
  - rewrite scalar_not_range by done. cbn [app]. rewrite join_app_cons.
    apply scalar_then_none; try done.
    { apply timeOp_In. } { by eapply in_range_num_ok. }
    intros Hop b. rewrite Hs. eapply upper_none; try done; [by destruct Hz|].
    intros t2 -> (Hf & Htz & Hlt). simpl in Hm.
    rewrite Hf, Htz, Hlt, !str_eqb_refl in Hm. unfold timeOp in Hop.
    by destruct Hmode as [E|[E|[E|[]]]]; rewrite <- E in *.
  - rewrite (f_equal t_mode Ht), str_eqb_refl.
    apply in_range_num_ok in Hst, He. destruct (overnight t); cbn [app].
    + rewrite join_app_cons. apply paren_then_none; try done. by right; left.
    + rewrite !join_app_cons. apply scalar_then_none; [done|simpl; auto|done|].
      intros _ b. destruct He as [He1 He2].
      edestruct (run_upper (timeFunc t) (timezone t)) as [b' ->]; try done.
      apply stops_eol.
Qed.

(** The condition text of a group, as [buildRuleGroupFactor] prints it. *)
Definition condText (cs : list RequestCondition) : str :=
  match cs with
  | [c] => buildRequestConditionExpr c
  | _ => str_join " && " (flat_map parts cs)
  end.

Lemma range_or (f : TimeFunc) (tz s e : str) :
  includes (rangeText f tz "||" s e) " || " = true.
Proof.
  unfold rangeText. generalize (scalarText f tz ">=" s). intros a.
  unfold includes. change (" " ++ js "||" ++ " " ++ scalarText f tz "<" e)
    with (" || " ++ scalarText f tz "<" e).
  induction a as [|x a IH].
  - rewrite app_nil_l. unfold find_at. destruct (js " || " ++ _) eqn:E; [done|].
    rewrite <- E, startsWith_app. done.
  - cbn [app find_at]. destruct (startsWith _ _); [done|].
    by destruct (find_at _ _).
Qed.

Lemma parenthesize_parts (c : RequestCondition) :
  wf_cond c = true ->
  parenthesizeOr (buildRequestConditionExpr c) = str_join " && " (parts c).
Proof.
  destruct c as [t|c]; cbn [wf_cond parts buildRequestConditionExpr]; intros Hwf.
  2: { rewrite build_ph by done. unfold parenthesizeOr.
       destruct (atom_ph c Hwf) as [_ Ho].
       by rewrite (includes_none "|"%char) by (done || (vm_compute; tauto)). }
  apply wf_time_shape in Hwf as Hsh. unfold timeParts, parenthesizeOr.
  destruct (str_eqb_spec (t_mode t) MATCH_RANGE) as [Hr|Hr].
  - rewrite build_range by done.
    destruct Hsh as [_ _ Hm _ _|Hz Hp Hs He Ht].
    { rewrite Hr in Hm. by destruct Hm as [|[|[|[]]]]. }
    apply in_range_num_ok in Hs, He.
    destruct (overnight t); [by rewrite range_or|].
    rewrite (includes_none "|"%char).
    + reflexivity.
    + unfold rangeText. rewrite !avoids_app, !scalar_avoids; simpl; auto.
    + vm_compute; tauto.
  - rewrite build_scalar by done.
    destruct Hsh as [Hz Hp Hm Hv Ht|? ? ? ? Ht]; [|by rewrite Ht in Hr].
    rewrite (includes_none "|"%char); [done| |vm_compute; tauto].
    apply scalar_avoids; [by right|done|apply timeOp_In|by eapply in_range_num_ok].
Qed.

Lemma join_app (sep : str) (a b : list str) :
  a <> [] -> b <> [] ->
  str_join sep (a ++ b) = str_join sep a ++ sep ++ str_join sep b.
Proof.
  induction a as [|x a IH]; intros Ha Hb; [done|].
  destruct a as [|y a]; cbn [app]; [by rewrite join_cons|].
  rewrite !join_app_cons. change (y :: a ++ b) with ((y :: a) ++ b).
  rewrite IH by done. by rewrite <- !app_assoc.
Qed.

Lemma parts_nonnil (c : RequestCondition) : wf_cond c = true -> parts c <> [].
Proof. intros (q & qs & -> & _)%head_part. done. Qed.

Lemma flat_parts_nonnil (c : RequestCondition) (cs : list RequestCondition) :
  wf_cond c = true -> flat_map parts (c :: cs) <> [].
Proof.
  intros H%parts_nonnil. cbn [flat_map]. by destruct (parts c).
Qed.

Lemma join_flat_parts (cs : list RequestCondition) :
  forallb wf_cond cs = true ->
  str_join " && " (map parenthesizeOr (map buildRequestConditionExpr cs))
  = str_join " && " (flat_map parts cs).
Proof.
  induction cs as [|c cs IH]; [done|]. cbn [forallb map]. rewrite andb_true_iff.
  intros [Hc Hcs]. rewrite (parenthesize_parts c Hc).
  destruct cs as [|c2 cs]; [simpl; by rewrite app_nil_r|].
  cbn [map] in IH |- *. rewrite join_app_cons, IH by done.
  change (flat_map parts (c :: c2 :: cs))
    with (parts c ++ flat_map parts (c2 :: cs)).
  cbn [forallb] in Hcs. apply andb_true_iff in Hcs as [Hc2 _].
  by rewrite join_app by auto using parts_nonnil, flat_parts_nonnil.
Qed.

Lemma build_truthy (c : RequestCondition) :
  wf_cond c = true -> buildRequestConditionExpr c <> [].
Proof.
  destruct c as [t|c]; cbn [wf_cond buildRequestConditionExpr]; intros H.
  - apply wf_time_shape in H.
    destruct (str_eqb_spec (t_mode t) MATCH_RANGE) as [Hr|Hr].
    + rewrite build_range by done. by destruct (timeFunc t).
    + rewrite build_scalar by done. by destruct (timeFunc t).
  - rewrite build_ph by done. by destruct (atom_ph c H) as [[] _].
Qed.

Lemma build_group (g : RequestRuleGroup) :
  wf_group g = true ->
  buildRuleGroupFactor g
  = "(" ++ condText (conditions g) ++ " ? " ++ multiplier g ++ " : 1)".
Proof.
  unfold wf_group. rewrite !andb_true_iff. intros [[[[Hne Hwf] _] Hm] _].
  unfold buildRuleGroupFactor. rewrite numeric_trim, Hm by done. cbn [negb].
  rewrite filter_truthy_id.
  2: { apply List.Forall_forall. intros e (c & <- & Hc)%in_map_iff.
       rewrite forallb_forall in Hwf. by apply build_truthy, Hwf. }
  unfold condText. destruct (conditions g) as [|c [|c2 cs]]; [done..|].
  cbn [map]. by rewrite <- (join_flat_parts (c :: c2 :: cs) Hwf).
Qed.

(** ** Reading a group *)

Lemma rangeText_trim (f : TimeFunc) (tz op s e : str) :
  num_ok e -> trim (rangeText f tz op s e) = rangeText f tz op s e.
Proof.
  intros He. apply trim_id. destruct (timeFuncName_ends f) as [Hf Hft].
  replace (rangeText f tz op s e) with (timeFuncName f
    ++ ((jq "('" ++ tz ++ jq "') " ++ ">=" ++ " " ++ s) ++ " " ++ op ++ " "
        ++ timeFuncName f ++ jq "('" ++ tz ++ jq "') " ++ "<" ++ " ") ++ e)
    by (unfold rangeText, scalarText; by rewrite <- !app_assoc).
  apply trimmed_ends; try done; [by destruct He|by apply num_ok_trimmed].
Qed.

Lemma parse_one_time (t : TimeCondition) :
  wf_time t = true ->
  tryParseTimeCondition (trim (buildTimeConditionExpr t)) = Some t.
Proof.
  intros Hsh%wf_time_shape.
  destruct (str_eqb_spec (t_mode t) MATCH_RANGE) as [Hr|Hr].
  - rewrite build_range by done. destruct Hsh as [_ _ Hm _ _|Hz Hp Hs He Ht].
    { rewrite Hr in Hm. by destruct Hm as [|[|[|[]]]]. }
    rewrite rangeText_trim by (by eapply in_range_num_ok).
    rewrite time_range; try done; [by rewrite <- Ht|].
    destruct (overnight t); [by right; left|by left].
  - rewrite build_scalar by done.
    destruct Hsh as [Hz Hp Hm Hv Ht|? ? ? ? Ht]; [|by rewrite Ht in Hr].
    destruct (atom_scalar (timeFunc t) (timezone t) (timeOp t) (t_value t))
      as [_ _ -> _]; [done|apply timeOp_In|by eapply in_range_num_ok|].
    rewrite time_scalar by (done || apply timeOp_In).
    by rewrite timeOpMode_timeOp, <- Ht.
Qed.

Lemma flat_parts_atoms (cs : list RequestCondition) :
  forallb wf_cond cs = true -> Forall atom (flat_map parts cs).
Proof.
  intros Hwf. rewrite forallb_forall in Hwf. apply List.Forall_forall.
  intros p (c & Hc & Hp)%in_flat_map. specialize (Hwf c Hc).
  apply wf_parts_atoms in Hwf. rewrite List.Forall_forall in Hwf. auto.
Qed.

Lemma join_head_trim (ps : list str) :
  Forall atom ps -> trim (str_join " && " ps) = str_join " && " ps.
Proof.
  intros Hps. apply trim_id.
  induction Hps as [|p ps [_ _ Ht Hn] Hps IH]; [by apply trimmed_nows|].
  assert (Hp : trimmed p) by (rewrite <- Ht; apply trimmed_trim).
  destruct ps as [|q ps]; [done|]. rewrite join_app_cons.
  apply trimmed_ends; try done.
  inversion_clear Hps as [|? ? [_ _ _ Hq] _]. destruct ps; simpl; by destruct q.
Qed.

Lemma parse_conditions (cs : list RequestCondition) :
  cs <> [] -> forallb wf_cond cs = true -> no_merge cs = true ->
  tryParseRequestConditions (condText cs) = Ok (Some cs).
Proof.
  intros Hne Hwf Hm. unfold tryParseRequestConditions.
  assert (Hps : parseAndParts (splitTopLevelAnd
    (str_join " && " (flat_map parts cs))) = Ok (Some cs)).
  { rewrite splitTopLevelAnd_join.
    - by apply parse_parts.
    - by apply flat_parts_atoms.
    - destruct cs as [|c cs]; [done|]. cbn [forallb] in Hwf.
      apply andb_true_iff in Hwf as [Hc _]. by apply flat_parts_nonnil. }
  pose proof (flat_parts_atoms cs Hwf) as Hat.
  destruct cs as [|c [|c2 cs]]; [done|..].
  - cbn [condText]. cbn [forallb] in Hwf. rewrite andb_true_r in Hwf.
    destruct c as [t|c]; cbn [buildRequestConditionExpr wf_cond] in *.
    + by rewrite parse_one_time.
    + rewrite build_ph by done. cbn [flat_map parts app str_join] in Hps, Hat.
      inversion_clear Hat as [|? ? [_ _ Ht _] _]. rewrite Ht.
      rewrite <- (app_nil_r (phText c)) at 1. rewrite ph_not_time.
      by rewrite Hps.
  - cbn [condText]. rewrite join_head_trim by done.
    rewrite whole_none, Hps by
      (done || by apply andb_true_iff in Hm as [?%negb_true_iff _]). done.
Qed.

(** The last two pieces of a factor contain no space. *)
Lemma last_space (a b n m : str) :
  avoids " "%char n = true -> avoids " "%char m = true ->
  a ++ " " ++ n = b ++ " " ++ m -> a = b /\ n = m.
Proof.
  intros Hn Hm H. apply (f_equal (@rev N)) in H.
  rewrite !rev_app_distr in H. cbn [rev app] in H. rewrite <- !app_assoc in H.
  assert (Hr : forall x, avoids " "%char x = true -> avoids " "%char (rev x) = true).
  { intros x. unfold avoids. rewrite !forallb_forall.
    intros Hx c Hc%in_rev. auto. }
  apply Hr in Hn, Hm. rewrite <- (rev_involutive n), <- (rev_involutive m).
  rewrite <- (rev_involutive a), <- (rev_involutive b).
  revert H Hn Hm. generalize (rev a) (rev b) (rev n) (rev m). clear.
  intros a b n. revert a b; induction n as [|x n IH]; intros a b [|y m] H Hn Hm.
  - by injection H as ->.
  - by injection H as <- _.
  - by injection H as -> _.
  - injection H as -> H. apply andb_true_iff in Hn as [_ Hn], Hm as [_ Hm].
    destruct (IH a b m H Hn Hm) as [Ha Hn']. split; [done|].
    simpl. by rewrite Hn'.
Qed.

Lemma numch_no_space (v : str) :
  forallb c_numch v = true -> avoids " "%char v = true.
Proof.
  apply forallb_impl. intros c Hc%numch_not_ws.
  destruct (N.eqb_spec c " "%char) as [->|]; done.
Qed.

Lemma exec_ruleFactor (x n : str) :
  x <> [] -> num_ok n ->
  exists m, exec re_ruleFactor ("(" ++ x ++ " ? " ++ n ++ " : 1)") = Some m
    /\ m_caps m = [(2%nat, n); (1%nat, x)].
Proof.
  intros Hx [Hn Hnum]. unfold re_ruleFactor. apply exec_bol_caps.
  - eexists. apply in_run_seq. eexists. split.
    { apply in_run_lit. by eexists. }
    apply in_run_seq. eexists. split.
    { apply in_run_grp_plus_cls. exists x. eexists. simpl. repeat split; try done.
      by apply forallb_forall. }
    apply in_run_seq. eexists. split.
    { apply in_run_lit. simpl. by eexists. }
    apply in_run_seq. eexists. split.
    { apply in_run_grp_plus_cls. simpl. exists n. eexists. by repeat split. }
    apply in_run_seq. eexists. split.
    { apply in_run_lit. exists []. simpl. by split. }
    by apply in_run_eol.
  - intros z (y1 & H1 & H2)%in_run_seq.
    apply in_run_lit in H1 as (s1 & Hs1 & ->).
    apply in_run_seq in H2 as (y2 & H2 & H3).
    apply in_run_grp_plus_cls in H2 as (x' & s2 & Hs2 & _ & _ & ->).
    apply in_run_seq in H3 as (y3 & H3 & H4).
    apply in_run_lit in H3 as (s3 & Hs3 & ->).
    apply in_run_seq in H4 as (y4 & H4 & H5).
    apply in_run_grp_plus_cls in H4 as (n' & s4 & Hs4 & _ & Hn' & ->).
    apply in_run_seq in H5 as (y5 & H5 & H6).
    apply in_run_lit in H5 as (s5 & Hs5 & ->).
    apply in_run_eol in H6 as [H6 ->]. unfold step_to in *.
    cbn [after caps] in *. subst s5 s4 s3 s2 s1.
    apply app_inv_head in Hs1.
    assert (Hs2 : (x ++ " ?") ++ " " ++ n = (x' ++ " ?") ++ " " ++ n').
    { apply (app_inv_tail (js " : 1)")). rewrite app_nil_r in Hs1.
      rewrite <- !app_assoc. exact Hs1. }
    apply last_space in Hs2 as [E <-]; try by apply numch_no_space.
    by apply app_inv_tail in E as <-.
Qed.

Lemma parse_group (g : RequestRuleGroup) :
  wf_group g = true ->
  tryParseRuleGroupFactor (buildRuleGroupFactor g) = Ok (Some g).
Proof.
  intros Hg. rewrite build_group by done.
  unfold wf_group in Hg. rewrite !andb_true_iff in Hg.
  destruct Hg as [[[[Hne Hwf] Hnm] Hm] Htail].
  unfold tryParseRuleGroupFactor.
  destruct (exec_ruleFactor (condText (conditions g)) (multiplier g))
    as (m & -> & Hc).
  { destruct (conditions g) as [|c [|c2 cs]]; [done|..].
    - cbn [forallb] in Hwf. rewrite andb_true_r in Hwf. by apply build_truthy.
    - intros E. pose proof (whole_none c c2 cs Hwf) as _.
      cbn [forallb] in Hwf. apply andb_true_iff in Hwf as [Hcw _].
      destruct (head_part c Hcw) as (q & qs & Hq & _).
      apply wf_parts_atoms in Hcw. cbn [condText flat_map] in E.
      rewrite Hq in E, Hcw. inversion_clear Hcw as [|? ? [_ _ _ Hqn] _].
      destruct (join_head " && " q (qs ++ parts c2 ++ flat_map parts cs)) as [s Hs].
      cbn [app] in E. rewrite Hs in E. by apply app_eq_nil in E as [-> _]. }
  { split; [by apply numeric_nonempty|by apply numeric_numch]. }
  unfold grp, group. rewrite Hc. cbn [cap_lookup Nat.eqb].
  rewrite parse_conditions; [|by destruct (conditions g)|done..].
  destruct g as [cs mu [ct|] [ma|]]; try done.
Qed.

(** ** Reading a product of factors *)

(** A text in parentheses that are closed only at its end. *)
Definition factor (s : str) : Prop :=
  exists inner, s = "(" ++ inner ++ ")" /\ balanced inner.

Lemma split_mul_factor (p r : str) :
  factor p -> split_loop " * " (p ++ r) [] 0 O = split_loop " * " r (rev p) 0 O.
Proof.
  intros (inner & -> & Hb). rewrite <- !app_assoc.
  change (split_loop " * " ("(" ++ inner ++ ")" ++ r) [] 0 O)
    with (split_loop " * " (inner ++ ")" ++ r) (rev (js "(")) (Z.of_nat 1) O).
  rewrite (split_deep " * " inner _ _ 0 0) by done.
  rewrite !rev_app_distr. by rewrite <- app_assoc.
Qed.

Lemma factor_trim (p : str) : factor p -> trim p = p.
Proof.
  intros (inner & -> & _). apply trim_id.
  by apply trimmed_ends; try apply trimmed_nows.
Qed.

Lemma split_mul_join (ps : list str) :
  Forall factor ps -> ps <> [] ->
  split_loop " * " (str_join " * " ps) [] 0 O = ps.
Proof.
  induction ps as [|p ps IH]; intros Hps Hne; [done|].
  apply Forall_cons in Hps as [Hp Hps]. pose proof (factor_trim p Hp) as Ht.
  destruct ps as [|q ps].
  - change (str_join " * " [p]) with p. rewrite <- (app_nil_r p) at 1.
    rewrite split_mul_factor by done. simpl. by rewrite rev_involutive, Ht.
  - rewrite join_app_cons, split_mul_factor by done.
    assert (Hsep : forall r cur, split_loop " * " (" * " ++ r) cur 0 O
      = trim (rev cur) :: split_loop " * " r [] 0 O) by (by intros []).
    by rewrite Hsep, rev_involutive, Ht, IH.
Qed.

Lemma splitTopLevelMultiply_join (ps : list str) :
  Forall factor ps -> ps <> [] ->
  splitTopLevelMultiply (str_join " * " ps) = ps.
Proof.
  intros Hps Hne. unfold splitTopLevelMultiply. rewrite split_mul_join by done.
  apply filter_truthy_id. eapply Forall_impl; [exact Hps|].
  by intros p (inner & -> & _).
Qed.

Lemma split_mul_one (p : str) : factor p -> splitTopLevelMultiply p = [p].
Proof. intros Hp. apply (splitTopLevelMultiply_join [p]); [by constructor|done]. Qed.

Lemma condText_balanced (cs : list RequestCondition) :
  forallb wf_cond cs = true -> balanced (condText cs).
Proof.
  assert (Hj : forall ps, Forall atom ps -> balanced (str_join " && " ps)).
  { induction 1 as [|p ps [_ Hb _ _] _ IH]; [by intros d|].
    destruct ps as [|q ps]; [done|]. rewrite join_app_cons.
    apply balanced_app; [done|]. apply balanced_app; [by apply balanced_no_paren|done]. }
  intros Hwf. pose proof (Hj _ (flat_parts_atoms cs Hwf)) as Hb.
  destruct cs as [|c [|c2 cs]]; [done| |done].
  cbn [forallb] in Hwf. rewrite andb_true_r in Hwf. cbn [condText].
  destruct c as [t|c]; cbn [wf_cond buildRequestConditionExpr] in *.
  2: { rewrite build_ph by done. by destruct (atom_ph c Hwf) as [[] _]. }
  apply wf_time_shape in Hwf as Hsh.
  destruct (str_eqb_spec (t_mode t) MATCH_RANGE) as [Hr|Hr].
  - rewrite build_range by done. destruct Hsh as [_ _ Hm _ _|Hz Hp Hs He _].
    { rewrite Hr in Hm. by destruct Hm as [|[|[|[]]]]. }
    apply range_balanced; [done| |by eapply in_range_num_ok..].
    destruct (overnight t); [by right; left|by left].
  - rewrite build_scalar by done.
    destruct Hsh as [Hz Hp Hm Hv _|? ? ? ? Ht]; [|by rewrite Ht in Hr].
    apply scalar_balanced; [done|apply timeOp_In|by eapply in_range_num_ok].
Qed.

Lemma group_factor (g : RequestRuleGroup) :
  wf_group g = true -> factor (buildRuleGroupFactor g).
Proof.
  intros Hg. rewrite build_group by done.
  unfold wf_group in Hg. rewrite !andb_true_iff in Hg.
  destruct Hg as [[[[_ Hwf] _] Hm] _].
  exists (condText (conditions g) ++ " ? " ++ multiplier g ++ " : 1").
  split; [by rewrite <- !app_assoc|].
  apply balanced_app; [by apply condText_balanced|].
  apply balanced_app; [by apply balanced_no_paren|].
  apply balanced_app; [|by apply balanced_no_paren].
  by apply quiet_balanced, numch_quiet, numeric_numch.
Qed.

Lemma groups_factors (gs : list RequestRuleGroup) :
  forallb wf_group gs = true -> Forall factor (map buildRuleGroupFactor gs).
Proof.
  rewrite forallb_forall. intros H. apply List.Forall_forall.
  intros p (g & <- & Hg)%in_map_iff. by apply group_factor, H.
Qed.

Lemma build_rules (gs : list RequestRuleGroup) :
  forallb wf_group gs = true ->
  buildRequestRuleExpr gs = str_join " * " (map buildRuleGroupFactor gs).
Proof.
  intros H%groups_factors. unfold buildRequestRuleExpr.
  rewrite filter_truthy_id; [done|]. eapply Forall_impl; [exact H|].
  by intros p (inner & -> & _).
Qed.

Lemma parse_factors (gs : list RequestRuleGroup) :
  forallb wf_group gs = true ->
  parseFactors (map buildRuleGroupFactor gs) = Ok (Some gs).
Proof.
  induction gs as [|g gs IH]; [done|]. cbn [forallb map parseFactors].
  rewrite andb_true_iff. intros [Hg Hgs].
  by rewrite parse_group, IH.
Qed.

(** A product of factors is its own trimming and is not empty. *)
Lemma join_factors (ps : list str) :
  Forall factor ps -> ps <> [] ->
  trim (str_join " * " ps) = str_join " * " ps /\ str_join " * " ps <> [].
Proof.
  intros Hps Hne. assert (H : trimmed (str_join " * " ps)
    /\ str_join " * " ps <> []).
  { induction Hps as [|p ps Hp Hps IH]; [done|].
    assert (Htp : trimmed p)
      by (rewrite <- (factor_trim p Hp); apply trimmed_trim).
    assert (Hpn : p <> []) by (by destruct Hp as (inner & -> & _)).
    destruct ps as [|q ps]; [done|]. rewrite join_app_cons.
    destruct IH as [Ht Hn]; [done|]. split; [by apply trimmed_ends|].
    by destruct p. }
  destruct H as [Ht Hn]. split; [by apply trim_id|done].
Qed.

(** C1: the request-rule parser inverts the printer: for every list of
    well-formed rule groups, parsing the printed expression succeeds and
    gives back exactly the groups.  Ranges, scalar time bounds, parameter and
    header conditions and any number of conditions and groups are covered. *)
Theorem request_rules_roundtrip (gs : list RequestRuleGroup) :
  forallb wf_group gs = true ->
  tryParseRequestRuleExpr (buildRequestRuleExpr gs) = Ok (Some gs).
Proof.
  intros H. rewrite build_rules by done. pose proof (groups_factors gs H) as Hf.
  destruct gs as [|g gs]; [done|]. set (ps := map buildRuleGroupFactor (g :: gs)) in *.
  destruct (join_factors ps Hf) as [Ht Hn]; [done|].
  unfold tryParseRequestRuleExpr. rewrite Ht.
  destruct (str_join " * " ps) as [|x s] eqn:E; [done|]. rewrite <- E.
  rewrite splitTopLevelMultiply_join by done. by apply parse_factors.
Qed.

Definition sampleGroups : list RequestRuleGroup :=
  [ Group [ CPH (PH FromParam "stream" MATCH_EQ "true");
            CTime (TC hour "Asia/Shanghai" MATCH_RANGE [] "21" "6");
            CTime (TC weekday "UTC" MATCH_RANGE [] "1" "5");
            CPH (PH FromHeader "anthropic-beta" MATCH_CONTAINS "fast mode") ]
      "1.5" None None;
    Group [ CPH (PH FromHeader "x-tier" MATCH_EXISTS []) ] "2e1" None None ].

Lemma request_rules_roundtrip_witness :
  forallb wf_group sampleGroups = true /\
  tryParseRequestRuleExpr (buildRequestRuleExpr sampleGroups)
  = Ok (Some sampleGroups).
Proof.
  split; [reflexivity|].
  apply (request_rules_roundtrip sampleGroups). reflexivity.
Defined.

(** ** Combining with and splitting from a base expression *)

Lemma scan_shift (k d d' : nat) (s : str) :
  scan d s = Some d' -> scan (k + d) s = Some (k + d')%nat.
Proof.
  revert d; induction s as [|c s IH]; intros d; simpl.
  - by intros [= ->].
  - destruct (c =? _)%N; [rewrite plus_n_Sm; apply IH|].
    destruct (c =? _)%N; [|apply IH]. destruct d as [|d]; [done|].
    rewrite <- plus_n_Sm. apply IH.
Qed.

Lemma scan_balanced (s : str) : scan 0 s = Some O -> balanced s.
Proof.
  intros H d. apply (scan_shift d) in H. by rewrite !Nat.add_0_r in H.
Qed.

(** A base expression that the splitter keeps apart from the rules. *)
Definition wf_base (base : str) : bool :=
  truthy_str base && isTrimmed base
  && match scan 0 base with Some O => true | _ => false end
  && negb (hasFullOuterParens base) && negb (endsWith base " : 1").

Lemma wf_base_spec (base : str) :
  wf_base base = true ->
  base <> [] /\ trim base = base /\ balanced base
  /\ hasFullOuterParens base = false /\ endsWith base " : 1" = false.
Proof.
  unfold wf_base, isTrimmed. rewrite !andb_true_iff, truthy_str_true, str_eqb_eq.
  rewrite !negb_true_iff. intros [[[[Hne Ht] Hs] Ho] He].
  repeat split; try done. apply scan_balanced.
  by destruct (scan 0 base) as [[|]|].
Qed.

Lemma endsWith_app (s w : str) : endsWith (s ++ w) w = true.
Proof. unfold endsWith. rewrite rev_app_distr. apply startsWith_app. Qed.

(** A factor that is read as a rule ends like one. *)
Lemma rule_factor_ends (p : str) :
  (forall q, p <> q ++ " : 1)") -> exec re_ruleFactor p = None.
Proof.
  intros Hp. unfold re_ruleFactor. apply exec_bol_none.
  intros z (y1 & H1 & H2)%in_run_seq.
  apply in_run_lit in H1 as (s1 & Hs1 & ->).
  apply in_run_seq in H2 as (y2 & H2 & H3).
  apply in_run_grp_plus_cls in H2 as (x' & s2 & Hs2 & _ & _ & ->).
  apply in_run_seq in H3 as (y3 & H3 & H4).
  apply in_run_lit in H3 as (s3 & Hs3 & ->).
  apply in_run_seq in H4 as (y4 & H4 & H5).
  apply in_run_grp_plus_cls in H4 as (n' & s4 & Hs4 & _ & _ & ->).
  apply in_run_seq in H5 as (y5 & H5 & H6).
  apply in_run_lit in H5 as (s5 & Hs5 & ->).
  apply in_run_eol in H6 as [H6 ->]. unfold step_to in *.
  cbn [after caps] in *. subst s5 s4 s3 s2 s1.
  apply (Hp ("(" ++ x' ++ " ? " ++ n')). rewrite Hs1, app_nil_r, <- !app_assoc. reflexivity.
Qed.

Lemma base_not_rule (base : str) :
  wf_base base = true -> isRulePart ("(" ++ base ++ ")") = Ok false.
Proof.
  intros (Hne & Ht & Hb & Ho & He)%wf_base_spec. unfold isRulePart.
  assert (Hf : factor ("(" ++ base ++ ")")) by (by exists base).
  unfold tryParseRequestRuleExpr. rewrite factor_trim by done.
  destruct ("(" ++ base ++ ")") as [|x s] eqn:E; [done|]. rewrite <- E in *.
  rewrite split_mul_one by done.
  cbn [parseFactors]. unfold tryParseRuleGroupFactor.
  assert (Hx : exec re_ruleFactor ("(" ++ base ++ ")") = None); [|by rewrite Hx].
  apply rule_factor_ends. intros q Hq. rewrite app_assoc in Hq.
  change (js " : 1)") with (js " : 1" ++ js ")") in Hq. rewrite app_assoc in Hq. apply app_inv_tail in Hq.
  destruct q as [|c q]; [done|]. apply (f_equal (drop 1)) in Hq. change (base = q ++ " : 1") in Hq.
  by rewrite Hq, endsWith_app in He.
Qed.

Lemma group_is_rule (g : RequestRuleGroup) :
  wf_group g = true -> isRulePart (buildRuleGroupFactor g) = Ok true.
Proof.
  intros Hg. unfold isRulePart.
  assert (Hp : tryParseRequestRuleExpr (buildRuleGroupFactor g) = Ok (Some [g]));
    [|by rewrite Hp].
  pose proof (group_factor g Hg) as Hf. unfold tryParseRequestRuleExpr.
  rewrite factor_trim by done.
  destruct (buildRuleGroupFactor g) as [|x s] eqn:E.
  { by destruct Hf as (? & ? & _). }
  rewrite split_mul_one by done.
  cbn [parseFactors]. by rewrite <- E, parse_group.
Qed.

Lemma groups_are_rules (gs : list RequestRuleGroup) :
  forallb wf_group gs = true ->
  res_map isRulePart (map buildRuleGroupFactor gs) = Ok (map (fun _ => true) gs).
Proof.
  induction gs as [|g gs IH]; [done|]. cbn [forallb]. rewrite andb_true_iff.
  intros [Hg Hgs]. cbn [map res_map]. by rewrite group_is_rule, IH.
Qed.

(** Outer parentheses of a balanced text are full. *)
Lemma outer_deep (a r : str) (d d' : nat) :
  scan d a = Some d' ->
  outer_loop (a ++ r) (Z.of_nat (S d)) = outer_loop r (Z.of_nat (S d')).
Proof.
  revert d; induction a as [|c a IH]; intros d H; [by injection H as ->|].
  assert (Hz : forall n, (Z.of_nat (S n) =? 0) = false)
    by (intros n; apply Z.eqb_neq; lia).
  cbn [scan app outer_loop] in H |- *.
  destruct (N.eqb_spec c "("%char) as [->|_].
  - change ((chr "("%char =? ")"%char)%N) with false. cbv iota.
    replace (Z.of_nat (S d) + 1) with (Z.of_nat (S (S d))) by lia.
    rewrite Hz. by apply IH.
  - destruct (c =? ")"%char)%N; [|rewrite Hz; by apply IH].
    destruct d as [|d]; [done|].
    replace (Z.of_nat (S (S d)) - 1) with (Z.of_nat (S d)) by lia.
    rewrite Hz. by apply IH.
Qed.

Lemma full_parens (base : str) :
  balanced base -> hasFullOuterParens ("(" ++ base ++ ")") = true.
Proof.
  intros Hb. unfold hasFullOuterParens.
  rewrite startsWith_app, app_assoc, endsWith_app. cbn [negb orb].
  rewrite <- app_assoc.
  change (outer_loop ("(" ++ base ++ ")") 0)
    with (outer_loop (base ++ ")") (Z.of_nat 1)).
  by rewrite (outer_deep base _ 0 0).
Qed.

Lemma slice_parens (base : str) : slice ("(" ++ base ++ ")") 1 (-1) = base.
Proof.
  unfold slice, clamp_index. rewrite !length_app.
  change (length (js "(")) with 1%nat. change (length (js ")")) with 1%nat.
  replace (Z.to_nat _ - Z.to_nat _)%nat with (length base) by (simpl; lia).
  replace (Z.to_nat _) with 1%nat by (simpl; lia).
  change (drop 1 ("(" ++ base ++ ")")) with (base ++ js ")").
  apply take_app_length.
Qed.

Lemma unwrap_base (base : str) :
  wf_base base = true -> unwrapOuterParens ("(" ++ base ++ ")") = base.
Proof.
  intros (Hne & Ht & Hb & Ho & _)%wf_base_spec. unfold unwrapOuterParens.
  rewrite factor_trim by (by exists base).
  change (length ("(" ++ base ++ ")")) with (S (length (base ++ ")"))).
  cbn [unwrap_loop]. rewrite full_parens, slice_parens, Ht by done.
  destruct (length (base ++ ")")); [done|]. cbn [unwrap_loop]. by rewrite Ho.
Qed.

Lemma map_const_combine {A} (gs : list A) (f : A -> str) :
  List.filter fst (combine (map (fun _ => true) gs) (map f gs))
  = combine (map (fun _ => true) gs) (map f gs)
  /\ List.filter (fun t => negb (fst t)) (combine (map (fun _ => true) gs) (map f gs))
  = []
  /\ map snd (combine (map (fun _ => true) gs) (map f gs)) = map f gs.
Proof.
  induction gs as [|g gs (IH1 & IH2 & IH3)]; [done|]. simpl.
  by rewrite IH1, IH2, IH3.
Qed.

(** Splitting inverts combining: a base expression that is trimmed, has
    balanced parentheses, is not itself in parentheses and does not end like
    a rule, combined with a non-empty list of well-formed request rules, is
    recovered by [splitBillingExprAndRequestRules] together with exactly the
    text of the rules. *)
Theorem split_combine (base : str) (gs : list RequestRuleGroup) :
  wf_base base = true -> gs <> [] -> forallb wf_group gs = true ->
  splitBillingExprAndRequestRules (combineBillingExpr base (buildRequestRuleExpr gs))
  = Ok (Split base (buildRequestRuleExpr gs)).
Proof.
  intros Hbase Hne Hgs. rewrite (build_rules gs Hgs).
  pose proof (groups_factors gs Hgs) as Hf.
  destruct (wf_base_spec base Hbase) as (Hbn & Hbt & Hbb & _ & _).
  set (ps := map buildRuleGroupFactor gs) in *.
  assert (Hpn : ps <> []) by (by destruct gs).
  destruct (join_factors ps Hf Hpn) as [Ht Hn].
  set (all := ("(" ++ base ++ ")") :: ps).
  assert (Hall : Forall factor all) by (constructor; [by exists base|done]).
  assert (Hc : combineBillingExpr base (str_join " * " ps) = str_join " * " all).
  { unfold combineBillingExpr, all. rewrite Hbt, Ht, join_cons by done.
    destruct base as [|x b]; [done|].
    destruct (str_join " * " ps) as [|y r] eqn:E; [done|].
    by rewrite <- !app_assoc. }
  rewrite Hc. unfold splitBillingExprAndRequestRules.
  destruct (join_factors all Hall) as [Hat Han]; [done|]. rewrite Hat.
  destruct (str_join " * " all) as [|z r] eqn:E; [done|]. rewrite <- E.
  rewrite splitTopLevelMultiply_join by done.
  assert (Hlen : (length all <=? 1)%nat = false).
  { apply Nat.leb_gt. unfold all. destruct ps; [done|]. simpl. lia. }
  rewrite Hlen. unfold all at 1. cbn [res_map].
  rewrite base_not_rule by done. unfold ps at 1.
  rewrite (groups_are_rules gs Hgs). cbn [res_bind].
  unfold all. cbn [combine List.filter fst negb map snd].
  destruct (map_const_combine gs buildRuleGroupFactor) as (H1 & H2 & H3).
  fold ps in H1, H2, H3. rewrite H1, H2, H3. destruct ps as [|p ps']; [done|]. cbn [map].
  by rewrite unwrap_base.
Qed.

Lemma split_combine_witness :
  wf_base (jq "p <= 200000 ? tier('base', p * 2) : tier('long', p * 4)") = true /\
  splitBillingExprAndRequestRules (combineBillingExpr
      (jq "p <= 200000 ? tier('base', p * 2) : tier('long', p * 4)")
      (buildRequestRuleExpr sampleGroups))
  = Ok (Split (jq "p <= 200000 ? tier('base', p * 2) : tier('long', p * 4)")
              (buildRequestRuleExpr sampleGroups)).
Proof.
  split; [reflexivity|]. apply split_combine; [reflexivity|discriminate|reflexivity].
Defined.

(** ** An expression without rules *)

(** A piece of a text. *)
Definition piece (p s : str) : Prop := exists a b, s = a ++ p ++ b.

Lemma piece_trans (p q s : str) : piece p q -> piece q s -> piece p s.
Proof. intros (a & b & ->) (a' & b' & ->). exists (a' ++ a), (b ++ b'). by rewrite <- !app_assoc. Qed.

Lemma trim_piece (s : str) : piece (trim s) s.
Proof.
  unfold trim, trimEnd, trimStart. destruct (drop_while_suffix is_ws s) as (a & Ha & _).
  destruct (drop_while_suffix is_ws (rev (drop_while is_ws s))) as (b & Hb & _).
  exists a, (rev b). rewrite Ha at 1. f_equal.
  rewrite <- (rev_involutive (drop_while is_ws s)) at 1. by rewrite Hb at 1; rewrite rev_app_distr.
Qed.

Lemma split_loop_pieces (sep l cur : str) (depth : Z) (skip : nat) :
  skip = O \/ cur = [] -> Forall (fun p => piece p (rev cur ++ l)) (split_loop sep l cur depth skip).
Proof.
  revert cur depth skip. induction l as [|c l IH]; intros cur depth skip Hc; cbn [split_loop].
  - rewrite app_nil_r. constructor; [apply trim_piece|constructor].
  - assert (Hsub : forall k d, Forall (fun p => piece p (rev cur ++ c :: l)) (split_loop sep l [] d k)).
    { intros k d. eapply Forall_impl; [by apply IH; right|]. intros p Hp. apply (piece_trans p l); [exact Hp|].
      exists (rev cur ++ [c]), []. by rewrite app_nil_r, <- app_assoc. }
    destruct skip as [|k]; [|destruct Hc as [Hc|Hc]; [done|subst cur; apply Hsub]]. cbv zeta.
    destruct (_ && _).
    + constructor; [|apply Hsub]. apply (piece_trans _ (rev cur)); [apply trim_piece|]. by exists [], (c :: l).
    + eapply Forall_impl; [apply (IH (c :: cur)); by left|]. cbn [rev]. intros p. by rewrite <- app_assoc.
Qed.

Lemma factor_pieces (s : str) : Forall (fun p => piece p s) (splitTopLevelMultiply s).
Proof.
  apply List.Forall_forall. intros p Hp. unfold splitTopLevelMultiply, filter_truthy in Hp.
  apply List.filter_In in Hp as [Hp _]. pose proof (split_loop_pieces " * " s [] 0 O (or_introl eq_refl)) as H.
  rewrite List.Forall_forall in H. by apply H.
Qed.

Lemma piece_includes (q w s : str) : piece (q ++ w) s -> includes s w = true.
Proof.
  intros (a & b & ->). unfold includes. rewrite <- app_assoc, app_assoc. generalize (a ++ q). intros x. induction x as [|c x IH].
  - cbn [app]. destruct (w ++ b) eqn:E; cbn [find_at]; rewrite <- E, startsWith_app; done.
  - cbn [app find_at]. destruct (startsWith (c :: x ++ w ++ b) w); [done|].
    by destruct (find_at (x ++ w ++ b) w).
Qed.

Lemma piece_not_rule (s p : str) : includes s " : 1)" = false -> piece p s -> isRulePart p = Ok false.
Proof.
  intros Hs Hp. unfold isRulePart, tryParseRequestRuleExpr. destruct (trim p) as [|c t] eqn:Et; [done|]. rewrite <- Et.
  pose proof (factor_pieces (trim p)) as Hf. destruct (splitTopLevelMultiply (trim p)) as [|x xs]; [done|].
  inversion Hf as [|? ? Hx _]; subst. cbn [parseFactors]. unfold tryParseRuleGroupFactor.
  rewrite rule_factor_ends; [done|]. intros q ->.
  assert (Ht : includes s " : 1)" = true); [|congruence].
  apply (piece_includes q). eapply piece_trans; [exact Hx|]. eapply piece_trans; [apply trim_piece|exact Hp].
Qed.

(** An expression without a rule is all base. *)
Lemma split_without_rules (base : str) :
  base <> [] -> trim base = base -> includes base " : 1)" = false ->
  splitBillingExprAndRequestRules base = Ok (Split base []).
Proof.
  intros Hn Ht Hi. unfold splitBillingExprAndRequestRules. rewrite Ht. destruct base as [|c b] eqn:E; [done|]. rewrite <- E in *.
  destruct (_ <=? 1)%nat; [done|].
  assert (Hr : res_map isRulePart (splitTopLevelMultiply base) = Ok (map (fun _ => false) (splitTopLevelMultiply base))).
  { pose proof (factor_pieces base) as Hf. induction Hf as [|p ps Hp _ IH]; [done|].
    cbn [res_map map]. by rewrite (piece_not_rule base), IH. }
  rewrite Hr. cbn [res_bind]. clear Hr.
  assert (Hf : List.filter fst (combine (map (fun _ => false) (splitTopLevelMultiply base)) (splitTopLevelMultiply base)) = []).
  { induction (splitTopLevelMultiply base) as [|p ps IH]; [done|]. exact IH. }
  by rewrite Hf.
Qed.

(** ** Rules that are printed and not read back *)

(** A parameter condition whose printed form is itself a conjunction: the
    null guard and the test. *)
Definition guarded_param (c : ParamHeaderCondition) : bool :=
  match source c with FromParam => true | FromHeader => false end
  && truthy_str (path c) && plain (path c) && isTrimmed (path c)
  && ((ph_mode c =?s MATCH_CONTAINS) && plain (ph_value c) && isTrimmed (ph_value c)
      || mem_str (ph_mode c) [MATCH_GT; MATCH_GTE; MATCH_LT; MATCH_LTE]
         && test NUMERIC_LITERAL_REGEX (ph_value c)).

Definition cmpText (p op v : str) : str := jq "param('" ++ p ++ jq "') " ++ op ++ " " ++ v.
Definition hasText (p v : str) : str :=
  jq "has(param('" ++ p ++ jq "'), " ++ ([dq] ++ v ++ [dq]) ++ ")".

(** The test after the null guard. *)
Definition guardedTest (c : ParamHeaderCondition) : str :=
  if ph_mode c =?s MATCH_CONTAINS then hasText (path c) (ph_value c)
  else cmpText (path c) (compareModeOp (ph_mode c)) (ph_value c).

Definition compareOps : list str := [js ">"; js ">="; js "<"; js "<="].

Lemma compareModeOp_In (m : str) : In (compareModeOp m) compareOps.
Proof.
  unfold compareModeOp. repeat (destruct (_ =?s _); [simpl; tauto|]).
  simpl; tauto.
Qed.

Lemma parse_cmp_none (p op v : str) :
  p <> [] -> no_dq p -> In op compareOps ->
  tryParseRequestCondition (cmpText p op v) = Ok None.
Proof.
  intros Hne Hq Hop. unfold tryParseRequestCondition, cmpText.
  rewrite time_none_front by reflexivity.
  unfold re_headerExists, re_paramExists, re_headerContains, re_paramContains,
    re_paramCompare, re_equals.
  rewrite (exec_lit_none (jq "header('")) by reflexivity.
  rewrite (exec_path_none (jq "param('"))
    by (done || (by destruct Hop as [<-|[<-|[<-|[<-|[]]]]])).
  rewrite (exec_lit_none (jq "has(header('")) by reflexivity.
  rewrite !(exec_path_none (jq "param('"))
    by (done || (by destruct Hop as [<-|[<-|[<-|[<-|[]]]]])).
  rewrite exec_front_none; [done|].
  change (jq "param('") with (js "param" ++ jq "('"). rewrite <- app_assoc.
  rewrite run_grp_one by done. rewrite run_lit_seq. unfold not_quote.
  rewrite run_grp_plus by (done || by apply stops_lit).
  apply run_lit_fail. by destruct Hop as [<-|[<-|[<-|[<-|[]]]]].
Qed.

Lemma parse_has_none (p v : str) :
  tryParseRequestCondition (hasText p v) = Ok None.
Proof.
  unfold tryParseRequestCondition, hasText.
  rewrite time_none_front by reflexivity.
  unfold re_headerExists, re_paramExists, re_headerContains, re_paramContains,
    re_paramCompare, re_equals.
  rewrite (exec_lit_none (jq "header('")) by reflexivity.
  rewrite !(exec_lit_none (jq "param('")) by reflexivity.
  rewrite (exec_lit_none (jq "has(header('")) by reflexivity.
  by rewrite exec_front_none by (by apply run_grp_none).
Qed.

(** What the printed forms of such a condition are and how their second
    conjunct is read. *)
Record guarded_view (c : ParamHeaderCondition) : Prop := GuardedView {
  gv_ne : path c <> [];
  gv_plain : plain (path c) = true;
  gv_unread : tryParseRequestCondition (guardedTest c) = Ok None;
  gv_atom : atom (guardedTest c);
  gv_build : buildPHExpr c = paramExistsText (path c) ++ " && " ++ guardedTest c;
}.

Lemma hasText_atom (p v : str) :
  plain p = true -> plain v = true -> atom (hasText p v).
Proof.
  intros Hp Hv. pose proof (plain_quiet _ Hp) as Hpq.
  set (inner := "param" ++ ("(" ++ ([dq] ++ p ++ [dq]) ++ ")")
    ++ (", " ++ ([dq] ++ v ++ [dq]))).
  assert (Hi : atom inner /\ avoids "|"%char inner = true).
  { apply atom_call; ends.
    - by rewrite !forallb_app, (plain_quiet v).
    - intros x. rewrite !app_assoc, last_snoc. by intros [= <-]. }
  destruct Hi as [[Ha Hb _ _] _].
  replace (hasText p v) with ("has" ++ ("(" ++ inner ++ ")"))
    by (unfold hasText, inner; by rewrite <- !app_assoc).
  split; [by rewrite !avoids_app, Ha| | |done].
  - apply balanced_app; [by apply balanced_no_paren|by apply balanced_paren].
  - apply trim_id. rewrite app_assoc. by apply trimmed_ends; ends.
Qed.

Lemma cmpText_atom (p op v : str) :
  plain p = true -> In op compareOps -> num_ok v -> atom (cmpText p op v).
Proof.
  intros Hp Hop [Hvn Hv]. pose proof (plain_quiet _ Hp) as Hpq.
  replace (cmpText p op v) with ("param" ++ ("(" ++ ([dq] ++ p ++ [dq]) ++ ")")
      ++ (" " ++ op ++ " " ++ v)) by (unfold cmpText; by rewrite <- !app_assoc).
  apply atom_call; ends.
  - rewrite !forallb_app, (numch_quiet v) by done.
    by destruct Hop as [<-|[<-|[<-|[<-|[]]]]].
  - intros x. destruct (num_ok_trimmed v) as [_ Hl]; [done|].
    destruct v as [|y l _] using rev_ind; [done|].
    rewrite !app_assoc, last_snoc. intros E. apply Hl. by rewrite last_snoc.
Qed.

Lemma guarded_contains (p v : str) :
  p <> [] -> plain p = true -> trim p = p -> plain v = true -> trim v = v ->
  guarded_view (PH FromParam p MATCH_CONTAINS v).
Proof.
  intros Hne Hp Ht Hv Hvt. split; try done; unfold guardedTest;
    cbn [path ph_mode ph_value]; modes.
  - apply parse_has_none.
  - by apply hasText_atom.
  - unfold buildPHExpr. rewrite normalize_ph_id by (simpl; tauto).
    cbn [path source ph_mode ph_value]. rewrite Ht.
    destruct p as [|x p]; [done|]. modes.
    unfold buildExprLiteral. modes. rewrite Hvt, !plain_quote by done.
    unfold paramExistsText, hasText. by rewrite <- !app_assoc.
Qed.

Lemma guarded_compare (p m v : str) :
  p <> [] -> plain p = true -> trim p = p ->
  In m [MATCH_GT; MATCH_GTE; MATCH_LT; MATCH_LTE] ->
  test NUMERIC_LITERAL_REGEX v = true ->
  guarded_view (PH FromParam p m v).
Proof.
  intros Hne Hp Ht Hm Hv. pose proof (compareModeOp_In m) as Hop.
  assert (Hmc : (m =?s MATCH_CONTAINS) = false)
    by (by destruct Hm as [<-|[<-|[<-|[<-|[]]]]]).
  split; try done; unfold guardedTest; cbn [path ph_mode ph_value]; rewrite Hmc.
  - apply parse_cmp_none; [done|by apply plain_no_dq|done].
  - apply cmpText_atom; [done..|].
    split; [by apply numeric_nonempty|by apply numeric_numch].
  - unfold buildPHExpr.
    assert (Hn : normalizePH (PH FromParam p m v) = PH FromParam p m v).
    { destruct p as [|x p]; [done|]. by destruct Hm as [<-|[<-|[<-|[<-|[]]]]]. }
    rewrite Hn. cbn [path source ph_mode ph_value]. rewrite Ht.
    destruct p as [|x p]; [done|]. rewrite (numeric_trim v Hv), Hv, Hmc.
    rewrite plain_quote by done. cbn [negb]. unfold paramExistsText, cmpText.
    by destruct Hm as [<-|[<-|[<-|[<-|[]]]]]; modes; rewrite <- !app_assoc.
Qed.

Lemma guarded_spec (c : ParamHeaderCondition) :
  guarded_param c = true -> guarded_view c.
Proof.
  unfold guarded_param, isTrimmed.
  rewrite !andb_true_iff, truthy_str_true, orb_true_iff, !andb_true_iff, !str_eqb_eq.
  destruct c as [src p m v]. cbn [source path ph_mode ph_value].
  intros [[[[Hsrc Hne] Hp] Ht] Hmode]. destruct src; [|done].
  destruct Hmode as [[[-> Hv] Hvt]|[Hm Hv]]; [by apply guarded_contains|].
  rewrite mem_str_true, list_elem_of_In in Hm. by apply guarded_compare.
Qed.

Lemma paramExists_atom (p : str) : plain p = true -> p <> [] -> atom (paramExistsText p).
Proof.
  intros Hp Hne. pose proof (plain_quiet _ Hp) as Hpq.
  replace (paramExistsText p) with
    ("param" ++ ("(" ++ ([dq] ++ p ++ [dq]) ++ ")") ++ js " != nil")
    by (unfold paramExistsText; by rewrite <- !app_assoc).
  apply atom_call; ends.
Qed.

Definition one_rule (c : ParamHeaderCondition) (mult : str) : RequestRuleGroup :=
  Group [CPH c] mult None None.

Lemma build_guarded (c : ParamHeaderCondition) (mult : str) :
  guarded_view c -> test NUMERIC_LITERAL_REGEX mult = true ->
  buildRequestRuleExpr [one_rule c mult]
  = "(" ++ (str_join " && " [paramExistsText (path c); guardedTest c]) ++ " ? "
    ++ mult ++ " : 1)".
Proof.
  intros [_ _ _ _ Hb] Hm. unfold buildRequestRuleExpr, one_rule.
  cbn [map]. unfold buildRuleGroupFactor. cbn [multiplier conditions map].
  rewrite numeric_trim, Hm by done. cbn [negb buildRequestConditionExpr].
  rewrite Hb. reflexivity.
Qed.

(** A parameter rule in the modes contains, greater, at least, less or at
    most, on any plain path and value, is printed by the editor as a
    conjunction of a null guard and the test, and the parser does not read it
    back: splitting at the conjunction comes before the patterns that match
    both conjuncts, so the result is [null] and the editor falls back to raw
    text. *)
Theorem guarded_rule_unread (c : ParamHeaderCondition) (mult : str) :
  guarded_param c = true -> test NUMERIC_LITERAL_REGEX mult = true ->
  tryParseRequestRuleExpr (buildRequestRuleExpr [one_rule c mult]) = Ok None.
Proof.
  intros Hc%guarded_spec Hm. rewrite build_guarded by done.
  destruct Hc as [Hne Hp Hun Hat _]. set (ps := [paramExistsText (path c); guardedTest c]).
  assert (Hps : Forall atom ps)
    by (constructor; [by apply paramExists_atom|by constructor]).
  assert (Hf : factor ("(" ++ str_join " && " ps ++ " ? " ++ mult ++ " : 1)")).
  { exists (str_join " && " ps ++ " ? " ++ mult ++ " : 1").
    split; [by rewrite <- !app_assoc|].
    destruct Hat as [_ Hb _ _]. destruct (paramExists_atom (path c) Hp Hne) as [_ Hb' _ _].
    unfold ps. rewrite join_app_cons, <- !app_assoc.
    apply balanced_app; [done|]. apply balanced_app; [by apply balanced_no_paren|].
    apply balanced_app; [done|]. apply balanced_app; [by apply balanced_no_paren|].
    apply balanced_app; [|by apply balanced_no_paren].
    by apply quiet_balanced, numch_quiet, numeric_numch. }
  unfold tryParseRequestRuleExpr. rewrite factor_trim by done.
  destruct (js "(" ++ _) as [|x s] eqn:E; [done|]. rewrite <- E in *.
  rewrite split_mul_one by done. cbn [parseFactors]. unfold tryParseRuleGroupFactor.
  destruct (exec_ruleFactor (str_join " && " ps) mult) as (m & -> & Hcaps); [done|..].
  { split; [by apply numeric_nonempty|by apply numeric_numch]. }
  unfold grp, group. rewrite Hcaps. cbn [cap_lookup Nat.eqb].
  unfold tryParseRequestConditions.
  rewrite join_head_trim by done.
  rewrite time_none_front by reflexivity.
  rewrite splitTopLevelAnd_join by done. unfold ps. cbn [parseAndParts].
  destruct Hat as [_ _ Ht2 _], (paramExists_atom (path c) Hp Hne) as [_ _ Ht1 _].
  rewrite Ht1, Ht2, parse_paramExists by (done || by apply plain_no_dq).
  unfold tryParseTimeRangePair at 1. rewrite time_none_front by reflexivity.
  rewrite Hun. by destruct (truthy_str _).
Qed.

Lemma guarded_rule_unread_witness :
  guarded_param (PH FromParam "max_tokens" MATCH_GT "4096") = true /\
  tryParseRequestRuleExpr
    (buildRequestRuleExpr [one_rule (PH FromParam "max_tokens" MATCH_GT "4096") "2"])
  = Ok None.
Proof.
  split; [reflexivity|].
  apply (guarded_rule_unread (PH FromParam "max_tokens" MATCH_GT "4096") "2");
    reflexivity.
Defined.

(** ** An error that escapes *)

(** A rule whose quoted value has an escape that JSON does not know. *)
Definition badRule : str := jq "(has(header('x'), '\q') ? 2 : 1)".

Lemma badRule_factor : factor badRule.
Proof.
  exists (jq "has(header('x'), '\q') ? 2 : 1"). split; [reflexivity|].
  apply scan_balanced. vm_compute. reflexivity.
Qed.

Lemma badRule_throws : tryParseRequestRuleExpr badRule = Throw.
Proof. vm_compute. reflexivity. Qed.

Lemma combine_join (base rule : str) :
  base <> [] -> trim base = base -> factor rule ->
  combineBillingExpr base rule = str_join " * " [("(" ++ base ++ ")"); rule].
Proof.
  intros Hne Ht Hr. unfold combineBillingExpr.
  rewrite Ht, (factor_trim rule Hr), join_app_cons, <- !app_assoc.
  destruct base as [|x b]; [done|]. destruct rule as [|y r]; [|done].
  by destruct Hr as (? & ? & _).
Qed.

(** The parser returns [null] for text it does not support, but a rule
    whose quoted value is not a JSON string makes it throw, and with it the
    split of every combined expression that contains such a rule, whatever
    the base expression. *)
Theorem bad_escape_throws (base : str) :
  wf_base base = true ->
  tryParseRequestRuleExpr badRule = Throw
  /\ splitBillingExprAndRequestRules (combineBillingExpr base badRule) = Throw.
Proof.
  intros Hbase. split; [exact badRule_throws|]. destruct (wf_base_spec base Hbase) as (Hbn & Hbt & Hbb & _ & _).
  set (all := [("(" ++ base ++ ")"); badRule]).
  assert (Hall : Forall factor all).
  { apply Forall_cons; split; [by exists base|].
    apply Forall_cons; split; [exact badRule_factor|by apply Forall_nil]. }
  rewrite combine_join by (done || apply badRule_factor). fold all.
  unfold splitBillingExprAndRequestRules.
  destruct (join_factors all Hall) as [Hat Han]; [done|]. rewrite Hat.
  destruct (str_join " * " all) as [|z r] eqn:E; [done|]. rewrite <- E.
  rewrite splitTopLevelMultiply_join by done. unfold all.
  cbn [length Nat.leb res_map]. rewrite base_not_rule by exact Hbase.
  unfold isRulePart. rewrite badRule_throws. reflexivity.
Qed.

Lemma bad_escape_throws_witness :
  wf_base (jq "tier('base', p * 2)") = true /\
  (tryParseRequestRuleExpr badRule = Throw
   /\ splitBillingExprAndRequestRules
        (combineBillingExpr (jq "tier('base', p * 2)") badRule) = Throw).
Proof.
  split; [reflexivity|]. apply (bad_escape_throws (jq "tier('base', p * 2)")).
  reflexivity.
Defined.
