(* ===== verification/ModelPricing.v ===== *)
(** * The prices of models

    Models [src/web/src/features/system-settings/models/]: the numbers of prices
    ([pricing-format.ts]), the lanes of the editor ([model-pricing-core.ts]), the
    ten options that hold the prices ([model-pricing-maps.ts]), the rows of the
    table ([model-pricing-snapshots.ts], [model-ratio-visual-editor.tsx]), and the
    panel in which one model is edited ([model-pricing-sheet.tsx]).

    The eight numeric fields of a model are indexed by [PriceField], the six
    prices of the panel by [LaneKey]; a record with these keys is a function.
    Option texts are objects: a text that holds another JSON value is outside the
    types of the source, and reading it gives [None] here.  [localeCompare], the
    translation function, the check of the form by its zod schema and the default
    expression of a task model are parameters.

    The laws are in [ModelPricingLaws]. *)

From stdpp Require Import base list.
From Stdlib Require Import ZArith NArith Lia.
From S2P Require Import Prelude JsString JsArray JsNumber JsRegex JsJson RequestRules.

Local Open Scope Z_scope.

(** ** Numbers *)

Definition DISPLAY_DECIMALS : Z := 12.
Definition SNAP_DECIMALS : nat := 8.
Definition SNAP_EPSILON : num := num_of_decimal false 1 (-9).

(** [Number.EPSILON]. *)
Definition EPSILON : num := num_div (num_of_Z 1) (num_of_Z (2 ^ 52)).

Definition roundToDecimals (value : num) (decimals : nat) : num :=
  let factor := num_of_Z (10 ^ Z.of_nat decimals) in
  num_div (num_round (num_mul value factor)) factor.

(** The first number of decimals, from [decimals] on, at which rounding changes
    the value within the tolerance. *)
Fixpoint snapFrom (n decimals : nat) (value tolerance : num) : num :=
  match n with
  | O => value
  | S n' =>
      let rounded := roundToDecimals value decimals in
      if num_le (num_abs (num_sub value rounded)) tolerance then rounded
      else snapFrom n' (S decimals) value tolerance
  end.

Definition snapFloatDrift (value : num) : num :=
  let tolerance :=
    num_max SNAP_EPSILON (num_mul (num_mul (num_abs value) EPSILON) (num_of_Z 8)) in
  snapFrom (S SNAP_DECIMALS) 0 value tolerance.

Definition formatPricingNumber (value : num) : str :=
  if isFinite value then
    num_to_string (parseFloat (toFixed (snapFloatDrift value) DISPLAY_DECIMALS))
  else [].

Definition normalizePricingExchangeRate (rate : option num) : num :=
  match rate with
  | Some r => if isFinite r && num_lt num_zero r then r else num_of_Z 1
  | None => num_of_Z 1
  end.

Definition convertPricingToDisplay (value exchangeRate : num) : num :=
  Number (formatPricingNumber (num_mul value exchangeRate)).

Definition convertPricingToUSD (value exchangeRate : num) : num :=
  Number (formatPricingNumber (num_div value exchangeRate)).

(** ** A model and its lanes *)

Inductive PricingMode : Type := PerToken | PerRequest | TieredExpr.

Definition mode_eqb (a b : PricingMode) : bool :=
  match a, b with
  | PerToken, PerToken | PerRequest, PerRequest | TieredExpr, TieredExpr => true
  | _, _ => false
  end.

Definition mode_text (m : PricingMode) : str :=
  match m with PerToken => "per-token" | PerRequest => "per-request" | TieredExpr => "tiered_expr" end.

Inductive PriceField : Type :=
  | FPrice | FRatio | FCache | FCreateCache | FCompletion | FImage | FAudio | FAudioCompletion.

Inductive LaneKey : Type :=
  | LCompletion | LCache | LCreateCache | LImage | LAudioInput | LAudioOutput.

Definition lane_eqb (a b : LaneKey) : bool :=
  match a, b with
  | LCompletion, LCompletion | LCache, LCache | LCreateCache, LCreateCache
  | LImage, LImage | LAudioInput, LAudioInput | LAudioOutput, LAudioOutput => true
  | _, _ => false
  end.

Definition field_eqb (a b : PriceField) : bool :=
  match a, b with
  | FPrice, FPrice | FRatio, FRatio | FCache, FCache | FCreateCache, FCreateCache
  | FCompletion, FCompletion | FImage, FImage | FAudio, FAudio
  | FAudioCompletion, FAudioCompletion => true
  | _, _ => false
  end.

Definition set_lane {A} (l : LaneKey) (v : A) (f : LaneKey -> A) : LaneKey -> A :=
  fun l' => if lane_eqb l' l then v else f l'.

Definition set_field {A} (k : PriceField) (v : A) (f : PriceField -> A) : PriceField -> A :=
  fun k' => if field_eqb k' k then v else f k'.

Record ModelRatioData : Type := MkModelRatio {
  md_name : str;
  md_field : PriceField -> option str;
  md_billingMode : option PricingMode;
  md_billingExpr : option str;
  md_requestRuleExpr : option str;
}.

Definition numericDraftRegex : regex :=
  Bol · Opt (Alt (Plus (Cls c_digit) · Opt (lit "." · Star (Cls c_digit)))
                 (lit "." · Star (Cls c_digit))) · Eol.

Definition EMPTY_LANE_PRICES : LaneKey -> str := fun _ => [].

Definition EMPTY_LANE_ENABLED (l : LaneKey) : bool :=
  match l with LCompletion | LCache => true | _ => false end.

Definition ratioFieldByLane (l : LaneKey) : PriceField :=
  match l with
  | LCompletion => FCompletion
  | LCache => FCache
  | LCreateCache => FCreateCache
  | LImage => FImage
  | LAudioInput => FAudio
  | LAudioOutput => FAudioCompletion
  end.

Record LaneConfig : Type := MkLaneConfig {
  lane_key : LaneKey;
  lane_titleKey : str;
  lane_descriptionKey : str;
  lane_placeholder : str;
}.

Definition laneConfigs : list LaneConfig :=
  [MkLaneConfig LCompletion (js "Completion price")
     (js "Output token price for generated tokens.") (js "15");
   MkLaneConfig LCache (js "Cache read price") (js "Token price for cache reads.") (js "0.3");
   MkLaneConfig LCreateCache (js "Cache write price")
     (js "Token price for creating cache entries.") (js "3.75");
   MkLaneConfig LImage (js "Image input price") (js "Token price for image input.") (js "2.5");
   MkLaneConfig LAudioInput (js "Audio input price") (js "Token price for audio input.")
     (js "3.81");
   MkLaneConfig LAudioOutput (js "Audio output price") (js "Token price for audio output.")
     (js "15.11")].

(** [hasValue] on a text that may be missing. *)
Definition hasValue (value : option str) : bool :=
  match value with Some v => truthy_str v | None => false end.

Definition toNumberOrNull (value : option str) : option num :=
  match value with
  | Some v =>
      if truthy_str v then (let n := Number v in if isFinite n then Some n else None) else None
  | None => None
  end.

Definition ratioToBasePrice (ratio : option str) : str :=
  match toNumberOrNull ratio with
  | Some n => formatPricingNumber (num_mul n (num_of_Z 2))
  | None => []
  end.

Definition deriveLanePrice (ratio : option str) (denominator : str) : str :=
  match toNumberOrNull ratio, toNumberOrNull (Some denominator) with
  | Some r, Some d => formatPricingNumber (num_mul r d)
  | _, _ => []
  end.

Record LaneState : Type := MkLaneState {
  ls_promptPrice : str;
  ls_prices : LaneKey -> str;
  ls_enabled : LaneKey -> bool;
}.

Definition createInitialLaneState (data : option ModelRatioData) : LaneState :=
  match data with
  | None => MkLaneState [] EMPTY_LANE_PRICES EMPTY_LANE_ENABLED
  | Some data =>
      let f := md_field data in
      let promptPrice := ratioToBasePrice (f FRatio) in
      let audioInputPrice := deriveLanePrice (f FAudio) promptPrice in
      let hasConfiguredPricing :=
        existsb hasValue
          [f FPrice; f FRatio; f FCache; f FCreateCache; f FCompletion; f FImage; f FAudio;
           f FAudioCompletion; md_billingExpr data] in
      MkLaneState promptPrice
        (fun l =>
           match l with
           | LAudioInput => audioInputPrice
           | LAudioOutput => deriveLanePrice (f FAudioCompletion) audioInputPrice
           | _ => deriveLanePrice (f (ratioFieldByLane l)) promptPrice
           end)
        (if hasConfiguredPricing then fun l => hasValue (f (ratioFieldByLane l))
         else EMPTY_LANE_ENABLED)
  end.

Record PreviewRow : Type := MkPreviewRow {
  pr_key : str;
  pr_label : str;
  pr_value : str;
  pr_multiline : bool;
}.

Section Preview.
Variable t : str -> str.

(** A price of the preview, or the mark of an empty one. *)
Definition previewPrice (currencySymbol price : str) (enabled : bool) : str :=
  if enabled && truthy_str price then currencySymbol ++ price else t "Empty".

Definition buildPreviewRows (price : str) (mode : PricingMode)
    (billingExpr requestRuleExpr promptPrice : str) (lanePrices : LaneKey -> str)
    (laneEnabled : LaneKey -> bool) (currencySymbol : str) : list PreviewRow :=
  match mode with
  | TieredExpr =>
      let effectiveExpr := combineBillingExpr billingExpr requestRuleExpr in
      [MkPreviewRow "mode" "BillingMode" "tiered_expr" false;
       MkPreviewRow "expr" (t "Expression") (str_or effectiveExpr (t "Empty")) true]
  | PerRequest => [MkPreviewRow "price" "ModelPrice" (str_or price (t "Empty")) false]
  | PerToken =>
      let row key label lane :=
        MkPreviewRow key (t label) (previewPrice currencySymbol (lanePrices lane) (laneEnabled lane))
          false in
      [MkPreviewRow "inputPrice" (t "Input price") (previewPrice currencySymbol promptPrice true)
         false;
       row (js "completion") (js "Completion price") LCompletion;
       row (js "cache") (js "Cache read price") LCache;
       row (js "createCache") (js "Cache write price") LCreateCache;
       row (js "image") (js "Image input price") LImage;
       row (js "audio") (js "Audio input price") LAudioInput;
       row (js "audioCompletion") (js "Audio output price") LAudioOutput]
  end.

End Preview.

(** ** The options *)

Definition fieldKey (f : PriceField) : str :=
  match f with
  | FPrice => "ModelPrice"
  | FRatio => "ModelRatio"
  | FCache => "CacheRatio"
  | FCreateCache => "CreateCacheRatio"
  | FCompletion => "CompletionRatio"
  | FImage => "ImageRatio"
  | FAudio => "AudioRatio"
  | FAudioCompletion => "AudioCompletionRatio"
  end.

Definition allFields : list PriceField :=
  [FPrice; FRatio; FCache; FCreateCache; FCompletion; FImage; FAudio; FAudioCompletion].

Definition BILLING_MODE_KEY : str := js "billing_setting.billing_mode".
Definition BILLING_EXPR_KEY : str := js "billing_setting.billing_expr".

Definition pricingMapKeys : list str :=
  map fieldKey allFields ++ [BILLING_MODE_KEY; BILLING_EXPR_KEY].

(** The texts of the options, by key. *)
Abbreviation ModelPricingMapValues := (list (str * str)).

(** The parsed options. *)
Abbreviation pricing_maps := (list (str * list (str * json))).

Definition safeJsonParse (value : option str) (fallback : json) : json :=
  match value with
  | Some v =>
      if truthy_str v && truthy_str (trim v) then
        match json_parse (trim v) with Some x => x | None => fallback end
      else fallback
  | None => fallback
  end.

(** [parseNumberMap] and [parseStringMap]. *)
Definition parseMap (value : str) : option (list (str * json)) :=
  match safeJsonParse (Some value) (JObj []) with
  | JObj o => Some o
  | _ => None
  end.

Fixpoint parseMaps (values : ModelPricingMapValues) : option pricing_maps :=
  match values with
  | [] => Some []
  | (k, v) :: vs =>
      match parseMap v, parseMaps vs with
      | Some o, Some maps => Some ((k, o) :: maps)
      | _, _ => None
      end
  end.

Definition printMaps (maps : pricing_maps) : ModelPricingMapValues :=
  map (fun kv => (fst kv, stringify_indent [] (JObj (snd kv)))) maps.

(** A change of one of the maps. *)
Definition update_map (key : str) (g : list (str * json) -> list (str * json))
    (maps : pricing_maps) : pricing_maps :=
  map (fun kv => if fst kv =?s key then (fst kv, g (snd kv)) else kv) maps.

Definition setFiniteNumber (target : list (str * json)) (modelName : str) (value : option str)
    : list (str * json) :=
  match value with
  | Some v =>
      if truthy_str v then
        let parsedValue := Number v in
        if isFinite parsedValue then obj_set modelName (JNum parsedValue) target else target
      else target
  | None => target
  end.

(** [namesToClear.forEach(...)]. *)
Definition clearNames (names : list str) (maps : pricing_maps) : pricing_maps :=
  map (fun kv => (fst kv, fold_left (fun o name => obj_delete name o) names (snd kv))) maps.

Definition writeField (draft : ModelRatioData) (modelName : str) (maps : pricing_maps)
    (f : PriceField) : pricing_maps :=
  update_map (fieldKey f) (fun o => setFiniteNumber o modelName (md_field draft f)) maps.

(** The fields that a mode writes. *)
Definition writtenFields (mode : option PricingMode) : list PriceField :=
  match mode with
  | Some TieredExpr => allFields
  | Some PerRequest => [FPrice]
  | _ => [FRatio; FCache; FCreateCache; FCompletion; FImage; FAudio; FAudioCompletion]
  end.

(** The mode and the expression of a draft that is billed by expression. *)
Definition writeExpression (draft : ModelRatioData) (maps : pricing_maps) (modelName : str)
    : pricing_maps :=
  match md_billingMode draft with
  | Some TieredExpr =>
      let combinedExpression :=
        combineBillingExpr (nullish (md_billingExpr draft) [])
          (nullish (md_requestRuleExpr draft) []) in
      if truthy_str combinedExpression then
        update_map BILLING_EXPR_KEY (obj_set modelName (JStr combinedExpression))
          (update_map BILLING_MODE_KEY (obj_set modelName (JStr "tiered_expr")) maps)
      else maps
  | _ => maps
  end.

Definition writeTarget (draft : ModelRatioData) (maps : pricing_maps) (modelName : str)
    : pricing_maps :=
  fold_left (writeField draft modelName) (writtenFields (md_billingMode draft))
    (writeExpression draft maps modelName).

(** The maps after a draft. *)
Definition draftMaps (maps : pricing_maps) (draft : option ModelRatioData)
    (targetNames removedNames : list str) : pricing_maps :=
  let cleared := clearNames (dedupe (removedNames ++ targetNames)) maps in
  match draft with
  | Some d => fold_left (writeTarget d) targetNames cleared
  | None => cleared
  end.

(** The default of [targetNames]. *)
Definition defaultTargets (draft : option ModelRatioData) : list str :=
  match draft with Some d => [md_name d] | None => [] end.

Definition applyModelPricingDraft (currentValues : ModelPricingMapValues)
    (draft : option ModelRatioData) (targetNames removedNames : list str)
    : option ModelPricingMapValues :=
  match parseMaps currentValues with
  | Some maps => Some (printMaps (draftMaps maps draft targetNames removedNames))
  | None => None
  end.

Definition getChangedModelPricingValues (currentValues nextValues : ModelPricingMapValues)
    : list (str * str) :=
  omap (fun key =>
      let parsed v := safeJsonParse (obj_get key v) (JObj []) in
      if stringify (parsed currentValues) =?s stringify (parsed nextValues) then None
      else option_map (fun v => (key, v)) (obj_get key nextValues))
    pricingMapKeys.

(** ** The rows of the table *)

(** A row: the data of a model and whether it has both a price and ratios. *)
Record ModelPricingSnapshot : Type := MkSnapshot {
  sn_data : ModelRatioData;
  sn_hasConflict : bool;
}.

Definition sn_name (s : ModelPricingSnapshot) : str := md_name (sn_data s).

Definition isBasePricingUnset (snapshot : option ModelPricingSnapshot) : bool :=
  match snapshot with
  | None => true
  | Some s =>
      let d := sn_data s in
      negb (match md_billingMode d with Some TieredExpr => true | _ => false end)
      && negb (hasValue (md_field d FPrice)) && negb (hasValue (md_field d FRatio))
  end.

(** [denominator ? toNumberOrNull(denominator) : 2]. *)
Definition ratioToPrice (ratio denominator : option str) : str :=
  let denominatorNumber :=
    if hasValue denominator then toNumberOrNull denominator else Some (num_of_Z 2) in
  match toNumberOrNull ratio, denominatorNumber with
  | Some r, Some d => formatPricingNumber (num_mul r d)
  | _, _ => []
  end.

Definition getModeLabel (mode : option PricingMode) : str :=
  match mode with
  | Some PerRequest => "Per-request"
  | Some TieredExpr => "Expression"
  | _ => "Per-token"
  end.

Section Summary.
Variable t : str -> str.

Definition nat_text (n : nat) : str := num_to_string (num_of_Z (Z.of_nat n)).

Definition getExpressionSummary (row : ModelRatioData) : str :=
  let tierCount := length (match_all (lit "tier(") (nullish (md_billingExpr row) [])) in
  if (0 <? tierCount)%nat then
    t "Tiered pricing" ++ " · " ++ nat_text tierCount ++ " " ++ t "tiers"
  else t "Expression pricing".

Definition getPriceSummary (row : ModelRatioData) : str :=
  match md_billingMode row with
  | Some TieredExpr => getExpressionSummary row
  | Some PerRequest =>
      if hasValue (md_field row FPrice)
      then "$" ++ nullish (md_field row FPrice) [] ++ " / " ++ t "request"
      else t "Unset price"
  | _ =>
      let inputPrice := ratioToPrice (md_field row FRatio) None in
      if truthy_str inputPrice then
        let extraCount :=
          length (List.filter (fun f => hasValue (md_field row f))
            [FCompletion; FCache; FCreateCache; FImage; FAudio; FAudioCompletion]) in
        if (0 <? extraCount)%nat
        then t "Input" ++ " $" ++ inputPrice ++ " · " ++ nat_text extraCount ++ " " ++ t "extras"
        else t "Input" ++ " $" ++ inputPrice
      else t "Unset price"
  end.

Definition getPriceDetail (row : ModelRatioData) : str :=
  match md_billingMode row with
  | Some TieredExpr =>
      if hasValue (md_requestRuleExpr row) then t "Includes request rules"
      else t "Expression based"
  | Some PerRequest => t "Fixed request price"
  | _ =>
      let inputPrice := ratioToPrice (md_field row FRatio) None in
      if truthy_str inputPrice then
        let detail label f :=
          if hasValue (md_field row f)
          then [t label ++ " $" ++ ratioToPrice (md_field row f) (Some inputPrice)] else [] in
        let details :=
          take 2 (detail (js "Output") FCompletion ++ detail (js "Cache") FCache
                  ++ detail (js "Cache write") FCreateCache) in
        match details with
        | [] => t "Base input price only"
        | _ => str_join " · " details
        end
      else t "No base input price"
  end.

End Summary.

(** [map[name]?.toString() || '']. *)
Definition mapText (maps : pricing_maps) (key name : str) : str :=
  match obj_get key maps with
  | Some o =>
      match obj_get name o with
      | None | Some JNull => []
      | Some v => json_to_string v
      end
  | None => []
  end.

(** [map[name]], a text. *)
Definition mapString (maps : pricing_maps) (key name : str) : option str :=
  match obj_get key maps with
  | Some o => match obj_get name o with Some (JStr s) => Some s | _ => None end
  | None => None
  end.

Definition snapshotOf (maps : pricing_maps) (name : str) : res ModelPricingSnapshot :=
  let text f := mapText maps (fieldKey f) name in
  if nullish (mapString maps BILLING_MODE_KEY name) [] =?s "tiered_expr" then
    let fullExpr := nullish (mapString maps BILLING_EXPR_KEY name) [] in
    let! parts := splitBillingExprAndRequestRules fullExpr in
    Ok (MkSnapshot
          (MkModelRatio name (fun f => Some (text f)) (Some TieredExpr)
             (Some (billingExpr parts)) (Some (requestRuleExpr parts))) false)
  else
    let price := text FPrice in
    Ok (MkSnapshot
          (MkModelRatio name (fun f => Some (text f))
             (Some (if truthy_str price then PerRequest else PerToken)) None None)
          (truthy_str price
           && existsb (fun f => truthy_str (text f))
                [FRatio; FCompletion; FCache; FCreateCache; FImage; FAudio; FAudioCompletion])).

(** The models that some option has. *)
Definition modelNames (maps : pricing_maps) : list str :=
  dedupe (flat_map (fun key =>
      match obj_get key maps with Some o => obj_keys o | None => [] end) pricingMapKeys).

Definition buildModelSnapshots (values : ModelPricingMapValues)
    : option (res (list ModelPricingSnapshot)) :=
  match parseMaps values with
  | Some maps => Some (res_map (snapshotOf maps) (modelNames maps))
  | None => None
  end.

Definition getSnapshotSignature (snapshot : option ModelPricingSnapshot) : str :=
  match snapshot with
  | None => []
  | Some s =>
      let d := sn_data s in
      let text f := JStr (nullish (md_field d f) []) in
      stringify (JObj
        [(js "price", text FPrice); (js "ratio", text FRatio); (js "cacheRatio", text FCache);
         (js "createCacheRatio", text FCreateCache); (js "completionRatio", text FCompletion);
         (js "imageRatio", text FImage); (js "audioRatio", text FAudio);
         (js "audioCompletionRatio", text FAudioCompletion);
         (js "billingMode", JStr (mode_text (nullish (md_billingMode d) PerToken)));
         (js "billingExpr", JStr (nullish (md_billingExpr d) []));
         (js "requestRuleExpr", JStr (nullish (md_requestRuleExpr d) []))])
  end.

Record ModelRow : Type := MkRow {
  row_displayed : ModelPricingSnapshot;
  row_saved : option ModelPricingSnapshot;
  row_draft : option ModelPricingSnapshot;
  row_isDraftChanged : bool;
  row_isDraftDeleted : bool;
  row_isDraftNew : bool;
}.

Definition byName (rows : list ModelPricingSnapshot) (name : str)
    : option ModelPricingSnapshot :=
  find (fun r => sn_name r =?s name) (rev rows).

Definition modelRow (savedRows draftRows : list ModelPricingSnapshot) (name : str) : ModelRow :=
  let saved := byName savedRows name in
  let draft := byName draftRows name in
  let displayed :=
    match saved, draft with
    | Some s, _ => s
    | None, Some d => d
    | None, None => MkSnapshot (MkModelRatio name (fun _ => None) (Some PerToken) None None) false
    end in
  MkRow displayed saved draft
    (negb (getSnapshotSignature saved =?s getSnapshotSignature draft))
    (match saved, draft with Some _, None => true | _, _ => false end)
    (match saved, draft with None, Some _ => true | _, _ => false end).

Section Rows.
Variable localeCompare : str -> str -> Z.

(** [models] of the editor; [candidates] is given in the mode for unset prices. *)
Definition modelRows (savedRows draftRows : list ModelPricingSnapshot)
    (unsetOnly : bool) (candidates : list str) : list ModelRow :=
  let names :=
    if unsetOnly then dedupe candidates
    else dedupe (map sn_name savedRows ++ map sn_name draftRows) in
  let rows := map (modelRow savedRows draftRows) names in
  let rows := List.filter (fun r => negb (row_isDraftDeleted r)) rows in
  let rows := List.filter (fun r => negb unsetOnly || isBasePricingUnset (row_saved r)) rows in
  sort_by (fun a b => localeCompare (sn_name (row_displayed a)) (sn_name (row_displayed b))) rows.

End Rows.

(** What is edited when a row is opened. *)
Definition handleEdit (model : ModelRow) : ModelRatioData :=
  let editableModel :=
    sn_data (match row_draft model, row_saved model with
             | Some d, _ => d
             | None, Some s => s
             | None, None => row_displayed model
             end) in
  let editBillingMode :=
    match md_billingMode editableModel with
    | Some TieredExpr => TieredExpr
    | _ => if hasValue (md_field editableModel FPrice) then PerRequest else PerToken
    end in
  MkModelRatio (md_name editableModel) (md_field editableModel) (Some editBillingMode)
    (md_billingExpr editableModel) (md_requestRuleExpr editableModel).

(** [handleDelete]: the texts of the options without the model; the editor is
    closed when it holds the model. *)
Definition handleDelete (values : ModelPricingMapValues) (editData : option ModelRatioData)
    (name : str) : option (ModelPricingMapValues * option ModelRatioData) :=
  match parseMaps values with
  | Some maps =>
      Some (printMaps (clearNames [name] maps),
            match editData with
            | Some e => if md_name e =?s name then None else editData
            | None => None
            end)
  | None => None
  end.

Definition persistPricingData (values : ModelPricingMapValues) (data : ModelRatioData)
    (targetNames : list str) : option ModelPricingMapValues :=
  applyModelPricingDraft values (Some data) targetNames [].

(** The targets of "Apply to selected models": the source is one of them. *)
Definition batchTargets (sourceData : ModelRatioData) (selected : list str) : list str :=
  dedupe (md_name sourceData :: selected).

(** ** The panel in which a model is edited *)

Definition multiplyByRate (value : str) (rate : num) : str :=
  if truthy_str value then
    let n := parseFloat value in
    if isFinite n then formatPricingNumber (num_mul n rate) else value
  else [].

Definition divideByRate (value : str) (rate : num) : str :=
  if truthy_str value then
    let n := parseFloat value in
    if isFinite n then num_to_string (num_div n rate) else value
  else [].

Definition DEFAULT_TOKEN_BILLING_EXPR : str := jq "tier('base', p * 0 + c * 0)".

(** The values of the form. *)
Record FormValues : Type := MkForm {
  form_name : str;
  form_field : PriceField -> str;
}.

Record Panel : Type := MkPanel {
  pricingMode : PricingMode;
  promptPrice : str;
  lanePrices : LaneKey -> str;
  laneEnabled : LaneKey -> bool;
  panel_billingExpr : str;
  panel_requestRuleExpr : str;
  form : FormValues;
}.

Definition emptyForm : FormValues := MkForm [] (fun _ => []).

(** [useState] and [useForm] before the first effect. *)
Definition initialPanel : Panel :=
  MkPanel PerToken [] EMPTY_LANE_PRICES EMPTY_LANE_ENABLED [] [] emptyForm.

Definition above_one (rate : num) : bool := num_lt (num_of_Z 1) rate.

(** The effect that runs when another model is opened or the currency of the
    input changes: absolute prices are shown in the local currency. *)
Definition openPanel (rate : num) (editData : option ModelRatioData) : Panel :=
  let base := createInitialLaneState editData in
  let scaled v := if above_one rate then multiplyByRate v rate else v in
  let prices l := scaled (ls_prices base l) in
  match editData with
  | Some data =>
      let text f := nullish (md_field data f) [] in
      MkPanel
        (match md_billingMode data with
         | Some TieredExpr => TieredExpr
         | _ => if hasValue (md_field data FPrice) then PerRequest else PerToken
         end)
        (scaled (ls_promptPrice base)) prices (ls_enabled base)
        (nullish (md_billingExpr data) []) (nullish (md_requestRuleExpr data) [])
        (MkForm (md_name data)
           (fun f => match f with FPrice => scaled (text FPrice) | _ => text f end))
  | None =>
      MkPanel PerToken (scaled (ls_promptPrice base)) prices (ls_enabled base) [] [] emptyForm
  end.

(** The effect that offers an expression to an unpriced task model, once per
    opening. *)
Definition autoSwitch (editData : option ModelRatioData) (hasUsageSchema : bool) (p : Panel)
    : Panel :=
  match editData with
  | Some data =>
      if match md_billingMode data with Some TieredExpr => true | _ => false end
         || hasValue (md_field data FPrice) || hasValue (md_field data FRatio)
         || negb hasUsageSchema
      then p
      else MkPanel TieredExpr (promptPrice p) (lanePrices p) (laneEnabled p)
             (panel_billingExpr p) (panel_requestRuleExpr p) (form p)
  | None => p
  end.

Definition with_form (f : FormValues) (p : Panel) : Panel :=
  MkPanel (pricingMode p) (promptPrice p) (lanePrices p) (laneEnabled p)
    (panel_billingExpr p) (panel_requestRuleExpr p) f.

Definition with_prompt (v : str) (p : Panel) : Panel :=
  MkPanel (pricingMode p) v (lanePrices p) (laneEnabled p)
    (panel_billingExpr p) (panel_requestRuleExpr p) (form p).

Definition with_lanes (prices : LaneKey -> str) (enabled : LaneKey -> bool) (p : Panel) : Panel :=
  MkPanel (pricingMode p) (promptPrice p) prices enabled
    (panel_billingExpr p) (panel_requestRuleExpr p) (form p).

Definition setFormValue (f : PriceField) (v : str) (p : Panel) : Panel :=
  with_form (MkForm (form_name (form p)) (set_field f v (form_field (form p)))) p.

(** [x === null || x === 0 ? '' : formatPricingNumber(price / x)]. *)
Definition quotientText (priceNumber : num) (denominator : option num) : str :=
  match denominator with
  | Some x => if num_eq x num_zero then [] else formatPricingNumber (num_div priceNumber x)
  | None => []
  end.

Definition deriveLaneRatio (lane : LaneKey) (price nextPromptPrice : str)
    (nextLanePrices : LaneKey -> str) : str :=
  match toNumberOrNull (Some price) with
  | None => []
  | Some priceNumber =>
      match lane with
      | LAudioOutput => quotientText priceNumber (toNumberOrNull (Some (nextLanePrices LAudioInput)))
      | _ => quotientText priceNumber (toNumberOrNull (Some nextPromptPrice))
      end
  end.

(** The ratio of an input price. *)
Definition baseRatio (inputPrice : str) : str :=
  match toNumberOrNull (Some inputPrice) with
  | Some x => formatPricingNumber (num_div x (num_of_Z 2))
  | None => []
  end.

Definition syncLaneRatios (nextPromptPrice : str) (nextLanePrices : LaneKey -> str)
    (nextLaneEnabled : LaneKey -> bool) (p : Panel) : Panel :=
  fold_left (fun p config =>
      let key := lane_key config in
      setFormValue (ratioFieldByLane key)
        (if nextLaneEnabled key
         then deriveLaneRatio key (nextLanePrices key) nextPromptPrice nextLanePrices
         else []) p)
    laneConfigs (setFormValue FRatio (baseRatio nextPromptPrice) p).

Definition handlePromptPriceChange (value : str) (p : Panel) : Panel :=
  if test numericDraftRegex value then
    syncLaneRatios value (lanePrices p) (laneEnabled p) (with_prompt value p)
  else p.

Definition handleLanePriceChange (lane : LaneKey) (value : str) (p : Panel) : Panel :=
  if test numericDraftRegex value then
    let nextLanePrices := set_lane lane value (lanePrices p) in
    let q := with_lanes nextLanePrices (laneEnabled p) p in
    let q :=
      if laneEnabled p lane then
        setFormValue (ratioFieldByLane lane)
          (deriveLaneRatio lane value (promptPrice p) nextLanePrices) q
      else q in
    if lane_eqb lane LAudioInput && laneEnabled p LAudioOutput then
      setFormValue FAudioCompletion
        (deriveLaneRatio LAudioOutput (nextLanePrices LAudioOutput) (promptPrice p) nextLanePrices) q
    else q
  else p.

Definition handleLaneToggle (lane : LaneKey) (checked : bool) (p : Panel) : Panel :=
  let nextEnabled := set_lane lane checked (laneEnabled p) in
  if checked then
    setFormValue (ratioFieldByLane lane)
      (deriveLaneRatio lane (lanePrices p lane) (promptPrice p) (lanePrices p))
      (with_lanes (lanePrices p) nextEnabled p)
  else
    let nextPrices := set_lane lane [] (lanePrices p) in
    let q := setFormValue (ratioFieldByLane lane) [] p in
    if lane_eqb lane LAudioInput then
      with_lanes (set_lane LAudioOutput [] nextPrices) (set_lane LAudioOutput false nextEnabled)
        (setFormValue FAudioCompletion [] q)
    else with_lanes nextPrices nextEnabled q.

Definition handleModeChange (defaultTaskBillingExpr : str) (nextMode : PricingMode) (p : Panel)
    : Panel :=
  MkPanel nextMode (promptPrice p) (lanePrices p) (laneEnabled p)
    (if mode_eqb nextMode TieredExpr && negb (truthy_str (panel_billingExpr p))
     then str_or defaultTaskBillingExpr DEFAULT_TOKEN_BILLING_EXPR
     else panel_billingExpr p)
    (panel_requestRuleExpr p) (form p).

(** The expression that is shown and saved; a task model has a default. *)
Definition resolvedBillingExpr (defaultTaskBillingExpr : option str) (p : Panel) : str :=
  match defaultTaskBillingExpr with
  | Some e =>
      if negb (truthy_str (panel_billingExpr p))
         || (panel_billingExpr p =?s DEFAULT_TOKEN_BILLING_EXPR)
      then e else panel_billingExpr p
  | None => panel_billingExpr p
  end.

Inductive PricingError : Type := InputPriceRequired | AudioInputRequired.

Definition validatePricingValues (p : Panel) : option PricingError :=
  match pricingMode p with
  | PerToken =>
      if match toNumberOrNull (Some (promptPrice p)) with
         | None => existsb (fun c => laneEnabled p (lane_key c)
                                  && truthy_str (lanePrices p (lane_key c))) laneConfigs
         | Some _ => false
         end
      then Some InputPriceRequired
      else if laneEnabled p LAudioOutput && negb (truthy_str (lanePrices p LAudioInput))
      then Some AudioInputRequired
      else None
  | _ => None
  end.

Definition buildSubmitData (rate : num) (defaultTaskBillingExpr : option str) (p : Panel)
    : ModelRatioData :=
  let unscaled v := if above_one rate then divideByRate v rate else v in
  let tiered := mode_eqb (pricingMode p) TieredExpr in
  MkModelRatio (trim (form_name (form p)))
    (fun f => Some (match f with
                    | FPrice | FRatio => unscaled (form_field (form p) f)
                    | _ => form_field (form p) f
                    end))
    (Some (pricingMode p))
    (if tiered then Some (resolvedBillingExpr defaultTaskBillingExpr p) else None)
    (if tiered then Some (panel_requestRuleExpr p) else None).

(** [commitDraft]; [isValid] is the answer of [form.trigger()]. *)
Definition commitDraft (isValid : bool) (rate : num) (defaultTaskBillingExpr : option str)
    (p : Panel) : option ModelRatioData :=
  if isValid then
    match validatePricingValues p with
    | Some _ => None
    | None => Some (buildSubmitData rate defaultTaskBillingExpr p)
    end
  else None.
