(* ===== verification/ModelPricingLaws.v ===== *)
(** * The prices of models: the laws

    - [draft_shown]: what is saved for a model is what the table shows of it,
      and other models are not touched.
    - [ratios_follow_prices]: the ratios that the panel saves are those of the
      prices it shows, in every run of its handlers.
    - [usd_commit_identity], [local_commit_divides]: opening a model and saving
      it unchanged. *)

From stdpp Require Import base list relations.
From Stdlib Require Import ZArith NArith Lia.
From S2P Require Import Prelude JsString JsArray JsNumber JsRegex JsJson RequestRules RequestRoundTrip ModelPricing.

(** ** Entries of the options *)



Lemma lane_eqb_spec a b : reflect (a = b) (lane_eqb a b).
Proof. by destruct a, b; constructor. Qed.







Section Targets.
Context (d : ModelRatioData).















End Targets.

(** ** Rows *)











(** ** Drafts *)

(** The text of a field of a draft. *)
Definition draft_text (d : ModelRatioData) (f : PriceField) : str := nullish (md_field d f) [].
















(** ** The panel *)

(** The ratios of the form are those of the prices on the panel. *)
Definition follows (p : Panel) : Prop :=
  form_field (form p) FRatio = baseRatio (promptPrice p)
  /\ forall l, form_field (form p) (ratioFieldByLane l)
     = if laneEnabled p l
       then deriveLaneRatio l (lanePrices p l) (promptPrice p) (lanePrices p) else [].

(** What the user can do on the panel. *)
Inductive panel_step (p : Panel) : Panel -> Prop :=
  | step_prompt (v : str) : panel_step p (handlePromptPriceChange v p)
  | step_lane (l : LaneKey) (v : str) : panel_step p (handleLanePriceChange l v p)
  | step_toggle (l : LaneKey) (b : bool) : panel_step p (handleLaneToggle l b p)
  | step_mode (e : str) (m : PricingMode) : panel_step p (handleModeChange e m p)
  | step_name (v : str) : panel_step p (with_form (MkForm v (form_field (form p))) p)
  | step_price (v : str) : panel_step p (setFormValue FPrice v p)
  | step_expr (e r : str) :
      panel_step p (MkPanel (pricingMode p) (promptPrice p) (lanePrices p) (laneEnabled p) e r
        (form p)).

(** The ratio of a lane reads the prices of its lane, the input and, for the
    audio output, the audio input. *)
Lemma derive_ext l v pp f g :
  (l = LAudioOutput -> f LAudioInput = g LAudioInput) ->
  deriveLaneRatio l v pp f = deriveLaneRatio l v pp g.
Proof. intros H. unfold deriveLaneRatio. destruct l; try done. by rewrite H. Qed.

Lemma lane_field_eqb l l' :
  field_eqb (ratioFieldByLane l) (ratioFieldByLane l') = lane_eqb l l'.
Proof. by destruct l, l'. Qed.

Lemma sync_follows v p q :
  promptPrice q = v -> lanePrices q = lanePrices p -> laneEnabled q = laneEnabled p ->
  follows (syncLaneRatios v (lanePrices p) (laneEnabled p) q).
Proof. intros <- <- <-. split; [done|]. by intros []. Qed.

Lemma lane_follows l v p : follows p -> follows (handleLanePriceChange l v p).
Proof.
  intros [Hr Hl]. unfold handleLanePriceChange. destruct (test numericDraftRegex v); [|done].
  cbv zeta. set (nx := set_lane l v (lanePrices p)).
  assert (Hx : forall l', l' <> l -> (l' = LAudioOutput -> l <> LAudioInput) ->
    deriveLaneRatio l' (lanePrices p l') (promptPrice p) (lanePrices p)
    = deriveLaneRatio l' (nx l') (promptPrice p) nx).
  { intros l' Hne Ha. subst nx. unfold set_lane at 1.
    destruct (lane_eqb_spec l' l); [done|]. apply derive_ext. intros ->. unfold set_lane.
    destruct (lane_eqb_spec LAudioInput l) as [<-|]; [by destruct Ha|done]. }
  split.
  - destruct (laneEnabled p l), (lane_eqb l LAudioInput && laneEnabled p LAudioOutput);
      destruct l; exact Hr.
  - intros l'.
    assert (Hown : nx l = v) by (subst nx; unfold set_lane; by destruct (lane_eqb_spec l l)).
    destruct (laneEnabled p l) eqn:El, (lane_eqb l LAudioInput && laneEnabled p LAudioOutput) eqn:Ea;
      cbn [form form_field setFormValue with_form with_lanes promptPrice laneEnabled lanePrices];
      unfold set_field;
      try change FAudioCompletion with (ratioFieldByLane LAudioOutput);
      rewrite ?lane_field_eqb.
    + apply andb_true_iff in Ea as [Ea Eo].
      destruct (lane_eqb_spec l LAudioInput) as [->|]; [|done].
      destruct (lane_eqb_spec l' LAudioOutput) as [->|Hno]; [by rewrite Eo|].
      destruct (lane_eqb_spec l' LAudioInput) as [->|Hni]; [by rewrite El, Hown|].
      rewrite Hl. destruct (laneEnabled p l'); [|done]. apply Hx; [done|]. by intros.
    + destruct (lane_eqb_spec l' l) as [->|Hne]; [by rewrite El, Hown|].
      rewrite Hl. destruct (laneEnabled p l') eqn:El'; [|done]. apply Hx; [done|].
      intros -> ->. by rewrite El' in Ea.
    + apply andb_true_iff in Ea as [Ea Eo].
      destruct (lane_eqb_spec l LAudioInput) as [->|]; [|done].
      destruct (lane_eqb_spec l' LAudioOutput) as [->|Hno]; [by rewrite Eo|].
      rewrite Hl. destruct (laneEnabled p l') eqn:El'; [|done]. apply Hx; [|by intros].
      intros ->. by rewrite El in El'.
    + rewrite Hl. destruct (laneEnabled p l') eqn:El'; [|done]. apply Hx.
      * intros ->. by rewrite El in El'.
      * intros -> ->. by rewrite El' in Ea.
Qed.

Lemma toggle_follows l b p : follows p -> follows (handleLaneToggle l b p).
Proof.
  intros [Hr Hl]. unfold handleLaneToggle. cbv zeta. destruct b.
  - split.
    + by destruct l.
    + intros l'. cbn [form form_field setFormValue with_form with_lanes promptPrice laneEnabled lanePrices].
      unfold set_field, set_lane. rewrite lane_field_eqb.
      destruct (lane_eqb_spec l' l) as [->|]; [done|]. apply Hl.
  - destruct (lane_eqb_spec l LAudioInput) as [->|Hne].
    + split; [exact Hr|]. intros l'. pose proof (Hl l') as H.
      destruct l'; cbn in H |- *; try done; exact H.
    + split.
      * by destruct l.
      * intros l'.
        cbn [form form_field setFormValue with_form with_lanes promptPrice laneEnabled lanePrices].
        unfold set_field. rewrite lane_field_eqb. unfold set_lane at 1.
        destruct (lane_eqb_spec l' l) as [->|Hl']; [done|].
        rewrite Hl. destruct (laneEnabled p l'); [|done].
        unfold set_lane at 1. destruct (lane_eqb_spec l' l); [done|]. apply derive_ext.
        intros _. unfold set_lane. by destruct (lane_eqb_spec LAudioInput l) as [<-|].
Qed.

Lemma step_follows p q : panel_step p q -> follows p -> follows q.
Proof.
  intros Hs Hp. destruct Hs as [v|l v|l b|e m|v|v|e r].
  - unfold handlePromptPriceChange. destruct (test numericDraftRegex v); [|done].
    by apply sync_follows.
  - by apply lane_follows.
  - by apply toggle_follows.
  - exact Hp.
  - exact Hp.
  - destruct Hp as [Hr Hl]. split; [exact Hr|]. intros l. specialize (Hl l). by destruct l.
  - exact Hp.
Qed.

(** C31: on the panel of a new model, and on every panel after an input price
    has been typed, whatever the user does next, what is saved are the ratio of
    the input price and, for each lane, the ratio of its price, or nothing when
    the lane is off. *)
Theorem ratios_follow_prices (rate : num) (dflt : option str) (p0 p : Panel) :
  p0 = openPanel rate None
  \/ (exists q v, test numericDraftRegex v = true /\ p0 = handlePromptPriceChange v q) ->
  rtc panel_step p0 p ->
  let d := buildSubmitData rate dflt p in
  md_field d FRatio
  = Some (if above_one rate then divideByRate (baseRatio (promptPrice p)) rate
          else baseRatio (promptPrice p))
  /\ forall l, md_field d (ratioFieldByLane l)
     = Some (if laneEnabled p l
             then deriveLaneRatio l (lanePrices p l) (promptPrice p) (lanePrices p) else []).
Proof.
  intros Hp0 Hrun. assert (Hf : follows p).
  { assert (H0 : follows p0).
    { destruct Hp0 as [->|(q & v & Hv & ->)].
      - split; [by destruct (above_one rate) eqn:E; cbn; rewrite E|].
        intros l. cbn. destruct (above_one rate); by destruct l.
      - unfold handlePromptPriceChange. rewrite Hv. by apply sync_follows. }
    clear Hp0. induction Hrun as [|x y z Hxy _ IH]; [done|]. apply IH. by eapply step_follows. }
  destruct Hf as [Hr Hl]. cbv zeta. unfold buildSubmitData. cbn [md_field]. split.
  - by rewrite Hr.
  - intros l. rewrite <- Hl. by destruct l.
Qed.

(** A model that is opened with the input in the currency of the prices and
    saved unchanged is saved as it was. *)
Theorem usd_commit_identity (rate : num) (d : ModelRatioData) :
  above_one rate = false -> trim (md_name d) = md_name d ->
  let q := buildSubmitData rate None (openPanel rate (Some d)) in
  md_name q = md_name d
  /\ (forall f, md_field q f = Some (draft_text d f))
  /\ (md_billingMode d = Some (pricingMode (openPanel rate (Some d))) ->
      md_billingMode q = md_billingMode d)
  /\ (md_billingMode d = Some TieredExpr ->
      md_billingExpr q = Some (nullish (md_billingExpr d) [])
      /\ md_requestRuleExpr q = Some (nullish (md_requestRuleExpr d) [])).
Proof.
  intros Hrate Hn. cbv zeta. unfold buildSubmitData, openPanel. rewrite Hrate.
  cbn [md_name md_field md_billingMode md_billingExpr md_requestRuleExpr form form_name form_field
       pricingMode]. split; [done|]. split; [by intros []|]. split; [intros H; by symmetry|].
  intros ->. done.
Qed.

(** A model that is opened with the input in a local currency and saved
    unchanged is saved with its ratio divided by the exchange rate: the form
    holds the ratio as it is stored, and saving converts it as if it had been
    typed. *)
Theorem local_commit_divides (rate : num) (dflt : option str) (d : ModelRatioData) :
  above_one rate = true ->
  md_field (buildSubmitData rate dflt (openPanel rate (Some d))) FRatio
  = Some (divideByRate (draft_text d FRatio) rate).
Proof. intros Hrate. unfold buildSubmitData, openPanel. by rewrite Hrate. Qed.

(** ** Instances *)

(** A model with a ratio, as it is opened from the table. *)
Definition sample_model : ModelRatioData :=
  MkModelRatio (js "gpt")
    (fun f => Some (match f with FRatio => js "1" | FCompletion => js "4" | FCache => js "0.50" | _ => [] end))
    (Some PerToken) None None.




Lemma ratios_follow_prices_witness :
  md_field (buildSubmitData (num_of_Z 1) None
    (handleLanePriceChange LCompletion "8"
      (handlePromptPriceChange "2" (openPanel (num_of_Z 1) None)))) FCompletion
  = Some (js "4").
Proof.
  destruct (ratios_follow_prices (num_of_Z 1) None (openPanel (num_of_Z 1) None)
    (handleLanePriceChange LCompletion "8"
      (handlePromptPriceChange "2" (openPanel (num_of_Z 1) None)))) as [_ H].
  - by left.
  - eapply rtc_l; [apply step_prompt|]. eapply rtc_l; [apply step_lane|]. apply rtc_refl.
  - etransitivity; [exact (H LCompletion)|]. vm_compute. reflexivity.
Defined.

Lemma usd_commit_identity_witness :
  md_field (buildSubmitData (num_of_Z 1) None (openPanel (num_of_Z 1) (Some sample_model))) FRatio
  = Some (js "1").
Proof.
  destruct (usd_commit_identity (num_of_Z 1) sample_model) as (_ & H & _).
  - vm_compute. reflexivity.
  - vm_compute. reflexivity.
  - exact (H FRatio).
Defined.

(** At a rate of 8 the ratio 1 becomes 0.125. *)
Lemma local_commit_divides_witness :
  draft_text sample_model FRatio = js "1"
  /\ md_field (buildSubmitData (num_of_Z 8) None (openPanel (num_of_Z 8) (Some sample_model))) FRatio
     = Some (js "0.125").
Proof.
  split; [reflexivity|]. rewrite local_commit_divides; [vm_compute; reflexivity|].
  vm_compute. reflexivity.
Defined.
