(* ===== verification/BillingTiers.v ===== *)
(** * Tiers of a billing expression

    Models the tier half of
    [src/web/src/features/pricing/lib/billing-expr.ts]: the registry of billing
    variables, the parser of token-priced tiers ([parseTiersFromExpr]) and the
    parser of task-priced tiers ([parseTaskTiersFromExpr]) with its scanners;
    and [src/web/src/features/pricing/lib/breakdown-tier-match.ts].

    The theorems show what the scanners find, that every tier the task parser
    returns is well typed with respect to the usage schema, and that one row
    of a price table is the settlement hit exactly when its label says so. *)

From stdpp Require Import base list.
From Stdlib Require Import ZArith NArith Lia SpecFloat.
From S2P Require Import Prelude JsString JsArray JsNumber JsRegex JsJson RequestRules.

Local Open Scope Z_scope.

(** ** Variable registry *)

Inductive VarSide : Type := SInput | SOutput | SCondition.

Record BillingVar : Type := BVar {
  key : str;
  field : option str;
  tierField : option str;
  label : str;
  shortLabel : str;
  side : VarSide;
  isBase : bool;
  isConditionOnly : bool;
  group_ : option str;
}.

Definition BILLING_VARS : list BillingVar :=
  [ BVar "p" (Some (js "inputPrice")) (Some (js "input_unit_cost"))
      "Input price" "Input" SInput true false None;
    BVar "c" (Some (js "outputPrice")) (Some (js "output_unit_cost"))
      "Completion price" "Output" SOutput true false None;
    BVar "len" None None "Input length" "Length" SCondition false true None;
    BVar "cr" (Some (js "cacheReadPrice")) (Some (js "cache_read_unit_cost"))
      "Cache read price" "Cache Read" SInput false false (Some (js "cache"));
    BVar "cc" (Some (js "cacheCreatePrice")) (Some (js "cache_create_unit_cost"))
      "Cache create price" "Cache Write" SInput false false (Some (js "cache"));
    BVar "cc1h" (Some (js "cacheCreate1hPrice"))
      (Some (js "cache_create_1h_unit_cost"))
      "Cache create (1h) price" "Cache Write (1h)" SInput false false
      (Some (js "cache"));
    BVar "img" (Some (js "imagePrice")) (Some (js "image_unit_cost"))
      "Image input price" "Image In" SInput false false (Some (js "media"));
    BVar "img_o" (Some (js "imageOutputPrice")) (Some (js "image_output_unit_cost"))
      "Image output price" "Image Out" SOutput false false (Some (js "media"));
    BVar "ai" (Some (js "audioInputPrice")) (Some (js "audio_input_unit_cost"))
      "Audio input price" "Audio In" SInput false false (Some (js "media"));
    BVar "ao" (Some (js "audioOutputPrice")) (Some (js "audio_output_unit_cost"))
      "Audio output price" "Audio Out" SOutput false false (Some (js "media")) ].

Definition BILLING_PRICING_VARS : list BillingVar :=
  List.filter (fun v => negb (isConditionOnly v)) BILLING_VARS.

Definition BILLING_CONDITION_VARS : list str :=
  map key (List.filter (fun v => isBase v || isConditionOnly v) BILLING_VARS).

Definition BILLING_VAR_KEY_TO_FIELD : list (str * str) :=
  obj_from (map (fun v => (key v, nullish (field v) [])) BILLING_PRICING_VARS).

Definition BILLING_EXTRA_VARS : list BillingVar :=
  List.filter (fun v => negb (isBase v) && negb (isConditionOnly v)) BILLING_VARS.

(** Pairs of [field] and [exprVar]. *)
Definition BILLING_CACHE_VAR_MAP : list (str * str) :=
  map (fun v => (nullish (tierField v) [], key v)) BILLING_EXTRA_VARS.

Definition re_spaces : regex := Star (Cls c_space).

(** A pricing variable, a star and a number. *)
Definition BILLING_VAR_REGEX : regex :=
  WordB · Grp 1 (alts (map key BILLING_PRICING_VARS)) · re_spaces · lit "*"
  · re_spaces · Grp 2 (Plus (Cls c_numch)).

(** ** Token-priced tiers *)

Record TierCondition : Type := TierCond {
  var : str;
  op : str;
  tc_value : num;
}.

Record ParsedTier : Type := PTier {
  pt_label : str;
  pt_conditions : list TierCondition;
  pt_prices : list (str * num);
}.

Record TaskTierCondition : Type := TaskCond {
  tk_field : str;
  tk_value : str;
}.

Record ParsedTaskTier : Type := PTaskTier {
  tt_label : str;
  tt_conditions : list TaskTierCondition;
  constant : num;
  unitPrices : list (str * num);
}.

(** [v], digits, a colon and the body. *)
Definition re_version : regex :=
  Bol · lit "v" · Grp 1 (Plus (Cls c_digit)) · lit ":" · Grp 2 (Star (Cls c_any))
  · Eol.

Record Versioned : Type := Ver { version : num; body : str }.

Definition stripExprVersion (exprStr : str) : Versioned :=
  match exprStr with
  | [] => Ver (num_of_Z 1) []
  | _ =>
      match exec re_version exprStr with
      | Some m => Ver (Number (grp 1 m)) (grp 2 m)
      | None => Ver (num_of_Z 1) exprStr
      end
  end.

(** The first coefficient of a variable wins. *)
Definition addCoeff (coeffs : list (str * num)) (m : mresult) : list (str * num) :=
  match obj_get (grp 1 m) coeffs with
  | Some _ => coeffs
  | None => obj_set (grp 1 m) (Number (grp 2 m)) coeffs
  end.

Definition parseTierBody (bodyStr : str) : list (str * num) :=
  let coeffs := fold_left addCoeff (match_all BILLING_VAR_REGEX bodyStr) [] in
  obj_from (map (fun vf =>
    (snd vf, match obj_get (fst vf) coeffs with
             | Some x => num_or_zero x
             | None => num_zero
             end)) BILLING_VAR_KEY_TO_FIELD).

Definition condVars : list str := [js "p"; js "c"; js "len"].
Definition condOps : list str := [js "<"; js "<="; js ">"; js ">="].

(** One comparison of a tier condition. *)
Definition re_cond : regex :=
  alts condVars · re_spaces · alts condOps · re_spaces · Plus (Cls c_unumch).

Definition re_condGroup : regex :=
  Grp 1 (re_cond · Star (re_spaces · lit "&&" · re_spaces · re_cond)).

Definition re_tier : regex :=
  Opt (re_condGroup · re_spaces · lit "?" · re_spaces)
  · lit (jq "tier('") · Grp 2 (Star (Cls (c_not dq))) · lit (jq "',") · re_spaces
  · Grp 3 (Plus (Cls (c_not ")"%char))) · lit ")".

Definition re_condPart : regex :=
  Bol · Grp 1 (alts condVars) · re_spaces · Grp 2 (alts condOps) · re_spaces
  · Grp 3 (Plus (Cls c_unumch)) · Eol.

(** [s.split(r)] for a pattern that never matches the empty string. *)
Fixpoint split_matches (pos : nat) (ms : list mresult) (s : str) : list str :=
  match ms with
  | [] => [drop pos s]
  | m :: ms' =>
      take (m_index m - pos) (drop pos s)
        :: split_matches (m_index m + length (m_text m)) ms' s
  end.

Definition split_regex (r : regex) (s : str) : list str :=
  split_matches 0 (match_all r s) s.

Definition parseCondPart (cp : str) : option TierCondition :=
  match exec re_condPart (trim cp) with
  | Some m => Some (TierCond (grp 1 m) (grp 2 m) (Number (grp 3 m)))
  | None => None
  end.

(** The loop over the conjuncts of a condition. *)
Definition parseTierConditions (condStr : str) : list TierCondition :=
  match condStr with
  | [] => []
  | _ => omap parseCondPart (split_regex (re_spaces · lit "&&" · re_spaces) condStr)
  end.

Definition parseTiersFromExpr (exprStr : str) : list ParsedTier :=
  match exprStr with
  | [] => []
  | _ =>
      map (fun m => PTier (grp 2 m) (parseTierConditions (grp 1 m))
                          (parseTierBody (grp 3 m)))
          (match_all re_tier (body (stripExprVersion exprStr)))
  end.

(** ** Scanners of task expressions *)

(** The state of the scanners inside a quoted string: the next state and
    whether the string goes on. *)
Definition quotedStep (escaped : bool) (c : N) : bool * bool :=
  if escaped then (true, false)
  else if (c =? 92)%N then (true, true)
  else if (c =? dq)%N then (false, false)
  else (true, false).

Fixpoint findTop_loop (target : N) (l : str) (index depth : Z)
    (quoted escaped : bool) : Z :=
  match l with
  | [] => -1
  | c :: l' =>
      let next := findTop_loop target l' (index + 1) in
      if quoted then
        let '(q, e) := quotedStep escaped c in next depth q e
      else if (c =? dq)%N then next depth true escaped
      else if (c =? "("%char)%N then next (depth + 1) false escaped
      else if (c =? ")"%char)%N then
        if depth - 1 <? 0 then -1 else next (depth - 1) false escaped
      else if (depth =? 0) && (c =? target)%N then index
      else next depth false escaped
  end.

(** Every call leaves [start] at its default. *)
Definition findTaskTopLevelCharacter (expression : str) (target : N) : Z :=
  findTop_loop target expression 0 0 false false.

Fixpoint ternary_loop (l : str) (index depth ternaryDepth : Z)
    (quoted escaped : bool) : Z :=
  match l with
  | [] => -1
  | c :: l' =>
      let next := ternary_loop l' (index + 1) in
      if quoted then
        let '(q, e) := quotedStep escaped c in next depth ternaryDepth q e
      else if (c =? dq)%N then next depth ternaryDepth true escaped
      else if (c =? "("%char)%N then next (depth + 1) ternaryDepth false escaped
      else if (c =? ")"%char)%N then
        if depth - 1 <? 0 then -1
        else next (depth - 1) ternaryDepth false escaped
      else if negb (depth =? 0) then next depth ternaryDepth false escaped
      else if (c =? "?"%char)%N then next depth (ternaryDepth + 1) false escaped
      else if negb (c =? ":"%char)%N then next depth ternaryDepth false escaped
      else if ternaryDepth =? 0 then index
      else next depth (ternaryDepth - 1) false escaped
  end.

Definition findTaskTernaryColon (expression : str) (questionIndex : Z) : Z :=
  ternary_loop (slice_from expression (questionIndex + 1)) (questionIndex + 1)
    0 0 false false.

Inductive TaskOperator : Type := OpAnd | OpPlus.

(** [cur] is [expression.slice(start, index)] reversed, [prev] the code unit at
    [index - 1], [skip] tells to pass over the second ampersand. *)
Fixpoint splitTask_loop (operator : TaskOperator) (l cur : str) (prev : option N)
    (depth : Z) (quoted escaped skip : bool) : list str :=
  match l with
  | [] => [trim (rev cur)]
  | c :: l' =>
      let go cur depth q e := splitTask_loop operator l' cur (Some c) depth q e false in
      if skip then go cur depth quoted escaped
      else if quoted then
        let '(q, e) := quotedStep escaped c in go (c :: cur) depth q e
      else if (c =? dq)%N then go (c :: cur) depth true escaped
      else if (c =? "("%char)%N then go (c :: cur) (depth + 1) false escaped
      else if (c =? ")"%char)%N then go (c :: cur) (depth - 1) false escaped
      else if negb (depth =? 0) then go (c :: cur) depth false escaped
      else
        match operator with
        | OpAnd =>
            if startsWith l "&&" then
              trim (rev cur)
                :: splitTask_loop operator l' [] (Some c) depth false escaped true
            else go (c :: cur) depth false escaped
        | OpPlus =>
            let isExp :=
              match prev with
              | Some x => (x =? "e"%char)%N || (x =? "E"%char)%N
              | None => false
              end in
            if (c =? "+"%char)%N && negb isExp then
              trim (rev cur) :: go [] depth false escaped
            else go (c :: cur) depth false escaped
        end
  end.

Definition splitTaskTopLevel (expression : str) (operator : TaskOperator)
    : list str :=
  filter_truthy (splitTask_loop operator expression [] None 0 false false false).

(** ** Task-priced tiers *)

Record BillingUsageFieldSchema : Type := FieldSchema {
  fs_type : option str;
  fs_unit : option str;
  fs_enum : option (list str);
}.

Definition BillingUsageSchema : Type := list (str * BillingUsageFieldSchema).

(** [u(], a quoted name, [)], all with optional spaces. *)
Definition re_usage : regex :=
  Bol · lit "u(" · re_spaces · Grp 1 re_quoted · re_spaces · lit ")" · re_spaces.

Definition re_taskCondition : regex :=
  re_usage · lit "==" · re_spaces · Grp 2 re_quoted · Eol.

Definition re_taskTerm : regex := re_usage · lit "*" · re_spaces · Grp 2 re_numeric.

Definition re_taskScaled : regex :=
  re_taskTerm · re_spaces · lit "/" · re_spaces · lit "1000000" · Eol.

Definition re_taskBare : regex := re_taskTerm · Eol.

(** [JSON.parse(text) as string] in a [try] block that returns [null]. *)
Definition parseJsonString (text : str) : option str :=
  match json_parse text with
  | Some (JStr s) => Some s
  | _ => None
  end.

(** [schema[field]]: a name inherited from [Object.prototype] has neither
    [type] nor [enum], like a missing one. *)
Definition schemaEnum (schema : BillingUsageSchema) (f : str) : list str :=
  match obj_get f schema with
  | Some fs => nullish (fs_enum fs) []
  | None => []
  end.

Definition parseTaskCondition (schema : BillingUsageSchema) (part : str)
    : option TaskTierCondition :=
  match exec re_taskCondition part with
  | None => None
  | Some m =>
      match parseJsonString (grp 1 m), parseJsonString (grp 2 m) with
      | Some f, Some v =>
          if mem_str v (schemaEnum schema f) then Some (TaskCond f v) else None
      | _, _ => None
      end
  end.

(** All or nothing, in order. *)
Fixpoint map_all {A B} (f : A -> option B) (l : list A) : option (list B) :=
  match l with
  | [] => Some []
  | x :: l' =>
      match f x, map_all f l' with
      | Some y, Some ys => Some (y :: ys)
      | _, _ => None
      end
  end.

Definition parseTaskConditions (expression : str) (schema : BillingUsageSchema)
    : option (list TaskTierCondition) :=
  match map_all (parseTaskCondition schema) (splitTaskTopLevel expression OpAnd) with
  | Some (c :: cs) => Some (c :: cs)
  | _ => None
  end.

(** The names that [in] finds on every object literal. *)
Definition objectPrototypeKeys : list str :=
  [ js "constructor"; js "hasOwnProperty"; js "isPrototypeOf";
    js "propertyIsEnumerable"; js "toLocaleString"; js "toString"; js "valueOf";
    js "__defineGetter__"; js "__defineSetter__"; js "__lookupGetter__";
    js "__lookupSetter__"; js "__proto__" ].

(** [k in o]. *)
Definition obj_in {A} (k : str) (o : list (str * A)) : bool :=
  match obj_get k o with
  | Some _ => true
  | None => mem_str k objectPrototypeKeys
  end.

(** The running totals of the loop over the terms. *)
Record TermState : Type := Terms {
  ts_constant : option num;
  ts_unitPrices : list (str * num);
}.

Definition validPrice (x : num) : bool := isFinite x && negb (num_lt x num_zero).

Definition termMatch (term : str) : option (mresult * bool) :=
  match exec re_taskScaled term with
  | Some m => Some (m, true)
  | None => match exec re_taskBare term with
            | Some m => Some (m, false)
            | None => None
            end
  end.

(** One round of the loop; [None] is [return null]. *)
Definition addTerm (schema : BillingUsageSchema) (st : TermState) (term : str)
    : option TermState :=
  if test NUMERIC_LITERAL_REGEX term then
    match ts_constant st with
    | Some _ => None
    | None =>
        if validPrice (Number term)
        then Some (Terms (Some (Number term)) (ts_unitPrices st)) else None
    end
  else
    match termMatch term with
    | None => None
    | Some (m, scaled) =>
        match parseJsonString (grp 1 m) with
        | None => None
        | Some f =>
            let value := Number (grp 2 m) in
            match obj_get f schema with
            | Some fs =>
                if negb (ostr_eqb (fs_type fs) "number")
                   || negb (truthy_str (nullish (fs_unit fs) []))
                   || obj_in f (ts_unitPrices st) || negb (validPrice value)
                then None
                else if Bool.eqb (ostr_eqb (fs_unit fs) "token") scaled
                then Some (Terms (ts_constant st)
                             (obj_set f value (ts_unitPrices st)))
                else None
            | None => None
            end
        end
    end.

Fixpoint addTerms (schema : BillingUsageSchema) (st : TermState) (terms : list str)
    : option TermState :=
  match terms with
  | [] => Some st
  | t :: ts =>
      match addTerm schema st t with
      | Some st' => addTerms schema st' ts
      | None => None
      end
  end.

Definition parseTaskTierCall (expression : str) (conds : list TaskTierCondition)
    (schema : BillingUsageSchema) : option ParsedTaskTier :=
  let trimmed := trim expression in
  if negb (startsWith trimmed "tier(") || negb (endsWith trimmed ")") then None
  else
    let inner := slice trimmed 5 (-1) in
    let commaIndex := findTaskTopLevelCharacter inner ","%char in
    if commaIndex <? 0 then None
    else
      match parseJsonString (trim (slice inner 0 commaIndex)) with
      | None => None
      | Some lbl =>
          let terms := splitTaskTopLevel (slice_from inner (commaIndex + 1)) OpPlus in
          match addTerms schema (Terms None []) terms with
          | None => None
          | Some st =>
              match ts_unitPrices st with
              | [] => None
              | _ => Some (PTaskTier lbl conds (nullish (ts_constant st) num_zero)
                             (ts_unitPrices st))
              end
          end
      end.

(** The loop over the chain of conditionals; [None] is [return []].  Every
    round removes at least the colon, so the length bounds the rounds. *)
Fixpoint taskTiers_loop (fuel : nat) (schema : BillingUsageSchema) (remaining : str)
    : option (list ParsedTaskTier) :=
  match fuel with
  | O => Some []
  | S k =>
      match remaining with
      | [] => Some []
      | _ =>
          let questionIndex := findTaskTopLevelCharacter remaining "?"%char in
          if questionIndex <? 0 then
            option_map (fun tier => [tier]) (parseTaskTierCall remaining [] schema)
          else
            let colonIndex := findTaskTernaryColon remaining questionIndex in
            if colonIndex <? 0 then None
            else
              match parseTaskConditions (trim (slice remaining 0 questionIndex)) schema with
              | None => None
              | Some conds =>
                  match parseTaskTierCall
                          (trim (slice remaining (questionIndex + 1) colonIndex))
                          conds schema with
                  | None => None
                  | Some tier =>
                      option_map (cons tier)
                        (taskTiers_loop k schema
                           (trim (slice_from remaining (colonIndex + 1))))
                  end
              end
      end
  end.

Definition parseTaskTiersFromExpr (exprStr : str) (schema : option BillingUsageSchema)
    : list ParsedTaskTier :=
  match exprStr, schema with
  | _ :: _, Some ((_ :: _) as schema) =>
      match splitBillingExprAndRequestRules exprStr with
      | Throw => []
      | Ok split =>
          let versioned := trim (body (stripExprVersion (billingExpr split))) in
          nullish (taskTiers_loop (S (length versioned)) schema versioned) []
      end
  | _, _ => []
  end.

(** ** Labels and the settlement row *)

(** The condition of a price-table row: token-priced rows have conditions
    without a field. *)
Inductive BreakdownCondition : Type :=
  | BTier (c : TierCondition)
  | BTask (c : TaskTierCondition).

Record BreakdownMatchTier : Type := BRow {
  br_label : str;
  br_conditions : list BreakdownCondition;
}.

Inductive Fact : Type := FStr (s : str) | FNum (x : num).

Definition factString (f : Fact) : str :=
  match f with FStr s => s | FNum x => num_to_string x end.

(** Comparison signs of the labels: [<], its full-width form and the sign for
    at most, each with an optional equals sign; and the mirror images. *)
Definition c_equals (c : N) : bool := ((c =? 61) || (c =? 65309))%N.

Definition re_less : regex :=
  Alt (lit "<" · Opt (Cls c_equals))
      (Alt (Cls (N.eqb 8804)) (Cls (N.eqb 65308) · Opt (Cls c_equals))).

Definition re_greater : regex :=
  Alt (lit ">" · Opt (Cls c_equals))
      (Alt (Cls (N.eqb 8805)) (Cls (N.eqb 65310) · Opt (Cls c_equals))).

Section Labels.
  (** [String.prototype.toLowerCase]: the Unicode case tables of the runtime. *)
  Variable toLowerCase : str -> str.

Definition normalizeTierLabel (lbl : option str) : str :=
  match lbl with
  | None | Some [] => []
  | Some l =>
      toLowerCase (replace_all (Plus (Cls c_space)) []
        (replace_all re_greater ">" (replace_all re_less "<" l)))
  end.

Definition tierMatchesNormalizedLabel (tier : BreakdownMatchTier) (l : str) : bool :=
  truthy_str l && (normalizeTierLabel (Some (br_label tier)) =?s l).

Definition conditionHolds (usageFacts : list (str * Fact)) (c : BreakdownCondition)
    : bool :=
  match c with
  | BTier _ => false
  | BTask c =>
      match obj_get (tk_field c) usageFacts with
      | None => false
      | Some f => factString f =?s tk_value c
      end
  end.

Definition isBreakdownTierMatched (tier : BreakdownMatchTier)
    (tiers : list BreakdownMatchTier) (matchedTierLabel : option str)
    (usageFacts : option (list (str * Fact))) : bool :=
  let l := normalizeTierLabel matchedTierLabel in
  if tierMatchesNormalizedLabel tier l then true
  else if existsb (fun c => tierMatchesNormalizedLabel c l) tiers then false
  else
    match usageFacts, br_conditions tier with
    | None, _ | _, [] => false
    | Some facts, cs => forallb (conditionHolds facts) cs
    end.

End Labels.

(** ** The scanners *)

(** A scanner either fails or stops at a position of the text that holds what
    it looks for. *)
Lemma findTop_loop_spec (t : N) (l : str) (i d : Z) (q e : bool) :
  let r := findTop_loop t l i d q e in
  r = -1 \/ i <= r < i + strlen l /\ l !! Z.to_nat (r - i) = Some t.
Proof.
  cbn zeta. revert i d q e; induction l as [|c l IH]; intros i d q e; [by left|].
  unfold strlen in *. cbn [findTop_loop length].
  assert (Hstep : forall d' q' e',
    findTop_loop t l (i + 1) d' q' e' = -1 \/
    i <= findTop_loop t l (i + 1) d' q' e' < i + Z.of_nat (S (length l)) /\
    (c :: l) !! Z.to_nat (findTop_loop t l (i + 1) d' q' e' - i) = Some t).
  { intros d' q' e'. destruct (IH (i + 1) d' q' e') as [->|[Hr Hl]]; [by left|].
    right. split; [lia|]. replace (Z.to_nat _)
      with (S (Z.to_nat (findTop_loop t l (i + 1) d' q' e' - (i + 1)))) by lia.
    done. }
  destruct q; [destruct (quotedStep e c); apply Hstep|].
  destruct (c =? dq)%N; [apply Hstep|]. destruct (c =? "("%char)%N; [apply Hstep|].
  destruct (c =? ")"%char)%N; [destruct (d - 1 <? 0); [by left|apply Hstep]|].
  destruct (d =? 0); cbn [andb]; [|apply Hstep].
  destruct (N.eqb_spec c t) as [->|_]; [|apply Hstep].
  right. split; [lia|]. by rewrite Z.sub_diag.
Qed.

Lemma findTop_bounds (e : str) (t : N) :
  let r := findTaskTopLevelCharacter e t in
  0 <= r -> r < strlen e /\ e !! Z.to_nat r = Some t.
Proof.
  cbn zeta. unfold findTaskTopLevelCharacter.
  destruct (findTop_loop_spec t e 0 0 false false) as [->|[Hr Hl]]; [lia|].
  intros _. rewrite Z.sub_0_r in Hl. split; [lia|done].
Qed.

Lemma ternary_loop_spec (l : str) (i d t : Z) (q e : bool) :
  let r := ternary_loop l i d t q e in
  r = -1 \/ i <= r < i + strlen l.
Proof.
  cbn zeta. revert i d t q e; induction l as [|c l IH]; intros i d t q e; [by left|].
  unfold strlen in *. cbn [ternary_loop length].
  assert (Hstep : forall d' t' q' e', ternary_loop l (i + 1) d' t' q' e' = -1 \/
    i <= ternary_loop l (i + 1) d' t' q' e' < i + Z.of_nat (S (length l))).
  { intros d' t' q' e'. destruct (IH (i + 1) d' t' q' e'); [by left|right; lia]. }
  destruct q; [destruct (quotedStep e c); apply Hstep|].
  destruct (c =? dq)%N; [apply Hstep|]. destruct (c =? "("%char)%N; [apply Hstep|].
  destruct (c =? ")"%char)%N; [destruct (d - 1 <? 0); [by left|apply Hstep]|].
  destruct (d =? 0); cbn [negb]; [|apply Hstep].
  destruct (c =? "?"%char)%N; [apply Hstep|].
  destruct (c =? ":"%char)%N; cbn [negb]; [|apply Hstep].
  destruct (t =? 0); [right; lia|apply Hstep].
Qed.

Lemma length_slice_from (s : str) (i : Z) :
  0 <= i -> Z.of_nat (length (slice_from s i)) = Z.max 0 (strlen s - i).
Proof.
  intros Hi. unfold slice_from, clamp_index, strlen.
  rewrite (proj2 (Z.ltb_ge i 0)) by lia. rewrite length_drop. lia.
Qed.

Lemma ternaryColon_bounds (e : str) (i : Z) :
  0 <= i -> 0 <= findTaskTernaryColon e i -> i < findTaskTernaryColon e i < strlen e.
Proof.
  intros Hi. unfold findTaskTernaryColon.
  destruct (ternary_loop_spec (slice_from e (i + 1)) (i + 1) 0 0 false false)
    as [->|Hr]; [lia|].
  intros _. unfold strlen in Hr at 1. rewrite length_slice_from in Hr by lia. lia.
Qed.

Lemma length_drop_while {A} (p : A -> bool) (l : list A) :
  (length (drop_while p l) <= length l)%nat.
Proof. induction l as [|x l IH]; simpl; [done|]. destruct (p x); simpl; lia. Qed.

Lemma length_trim (s : str) : (length (trim s) <= length s)%nat.
Proof.
  unfold trim, trimEnd, trimStart. rewrite length_rev.
  etransitivity; [apply length_drop_while|]. rewrite length_rev.
  apply length_drop_while.
Qed.

(** The loop over the chain of conditionals terminates: with more fuel than
    the text has code units the result does not depend on the fuel, so the
    model never stops early. *)
Theorem task_loop_terminates (schema : BillingUsageSchema) (s : str) (j k : nat) :
  (length s < j)%nat -> (length s < k)%nat ->
  taskTiers_loop j schema s = taskTiers_loop k schema s.
Proof.
  revert s k; induction j as [|j IH]; intros s k Hj Hk; [lia|].
  destruct k as [|k]; [lia|]. cbn [taskTiers_loop].
  destruct s as [|c s0]; [done|]. set (s := c :: s0) in *.
  destruct (Z.ltb_spec (findTaskTopLevelCharacter s "?"%char) 0) as [|Hq]; [done|].
  set (i := findTaskTopLevelCharacter s "?"%char) in *.
  destruct (Z.ltb_spec (findTaskTernaryColon s i) 0) as [|Hc]; [done|].
  pose proof (ternaryColon_bounds s i Hq Hc) as Hb.
  destruct (parseTaskConditions _ _); [|done].
  destruct (parseTaskTierCall _ _ _); [|done]. f_equal. apply IH.
  all: eapply Nat.le_lt_trans; [apply length_trim|].
  all: pose proof (length_slice_from s (findTaskTernaryColon s i + 1)) as Hl;
    unfold strlen in *; lia.
Qed.

Lemma task_loop_terminates_witness :
  taskTiers_loop 40 [] (jq "tier('a', 1)") = taskTiers_loop 60 [] (jq "tier('a', 1)").
Proof. apply task_loop_terminates; vm_compute; lia. Defined.

(** ** What the task parser returns *)

(** A condition compares a declared field with one of its declared values. *)
Definition condition_ok (schema : BillingUsageSchema) (c : TaskTierCondition) : Prop :=
  exists fs, obj_get (tk_field c) schema = Some fs
             /\ In (tk_value c) (nullish (fs_enum fs) []).

(** A price is finite, not negative, and belongs to a numeric field with a
    unit. *)
Definition price_ok (schema : BillingUsageSchema) (fp : str * num) : Prop :=
  validPrice (snd fp) = true /\
  exists fs, obj_get (fst fp) schema = Some fs
             /\ fs_type fs = Some (js "number")
             /\ exists u, fs_unit fs = Some u /\ u <> [].

Record task_tier_ok (schema : BillingUsageSchema) (t : ParsedTaskTier) : Prop :=
  TaskTierOk {
    tto_conditions : Forall (condition_ok schema) (tt_conditions t);
    tto_constant : validPrice (constant t) = true;
    tto_prices : Forall (price_ok schema) (unitPrices t);
    tto_keys : List.NoDup (obj_keys (unitPrices t));
    tto_priced : unitPrices t <> [];
  }.

Lemma map_all_Forall {A B} (f : A -> option B) (P : B -> Prop) (l : list A)
    (ys : list B) :
  (forall x y, f x = Some y -> P y) -> map_all f l = Some ys -> Forall P ys.
Proof.
  intros Hf. revert ys; induction l as [|x l IH]; intros ys; simpl.
  - intros [= <-]. constructor.
  - destruct (f x) as [y|] eqn:E; [|done]. destruct (map_all f l); [|done].
    intros [= <-]. constructor; eauto.
Qed.

Lemma parseTaskCondition_ok (schema : BillingUsageSchema) (part : str)
    (c : TaskTierCondition) :
  parseTaskCondition schema part = Some c -> condition_ok schema c.
Proof.
  unfold parseTaskCondition. destruct (exec _ _) as [m|]; [|done].
  destruct (parseJsonString (grp 1 m)) as [f|]; [|done].
  destruct (parseJsonString (grp 2 m)) as [v|]; [|done].
  destruct (mem_str v _) eqn:E; [|done]. intros [= <-].
  apply mem_str_true, list_elem_of_In in E. unfold schemaEnum in E.
  destruct (obj_get f schema) as [fs|] eqn:Hf; [|done]. by exists fs.
Qed.

Lemma parseTaskConditions_ok (e : str) (schema : BillingUsageSchema)
    (cs : list TaskTierCondition) :
  parseTaskConditions e schema = Some cs -> Forall (condition_ok schema) cs /\ cs <> [].
Proof.
  unfold parseTaskConditions. destruct (map_all _ _) as [[|c cs']|] eqn:E; [done| |done].
  intros [= <-]. split; [|done].
  eapply map_all_Forall; [|exact E]. apply parseTaskCondition_ok.
Qed.

(** The invariant of the loop over the terms. *)
Definition terms_ok (schema : BillingUsageSchema) (st : TermState) : Prop :=
  (forall x, ts_constant st = Some x -> validPrice x = true)
  /\ Forall (price_ok schema) (ts_unitPrices st)
  /\ List.NoDup (obj_keys (ts_unitPrices st)).

Lemma truthy_unit (u : option str) :
  truthy_str (nullish u []) = true -> exists w, u = Some w /\ w <> [].
Proof. destruct u as [[|]|]; simpl; try done. intros _. by eexists. Qed.

Lemma addTerm_ok (schema : BillingUsageSchema) (st st' : TermState) (term : str) :
  terms_ok schema st -> addTerm schema st term = Some st' -> terms_ok schema st'.
Proof.
  intros (Hc & Hp & Hd). unfold addTerm. destruct (test _ term).
  - destruct (ts_constant st); [done|].
    destruct (validPrice (Number term)) eqn:Hv; [|done]. intros [= <-].
    split; [by intros x [= <-]|done].
  - destruct (termMatch term) as [[m scaled]|]; [|done].
    destruct (parseJsonString _) as [f|]; [|done].
    destruct (obj_get f schema) as [fs|] eqn:Hf; [|done].
    destruct (ostr_eqb (fs_type fs) "number") eqn:Hty; [|done].
    destruct (truthy_str _) eqn:Hu; [|done].
    destruct (obj_in _ _); [done|].
    destruct (validPrice (Number (grp 2 m))) eqn:Hv; [|done]. cbn [negb orb].
    destruct (Bool.eqb _ _); [|done]. intros [= <-].
    split; [done|]. cbn [ts_unitPrices]. split; [|by apply NoDup_obj_set].
    apply List.Forall_forall. intros kv [-> |Hin]%in_obj_set.
    + split; [done|]. exists fs. split; [done|]. split; [|by apply truthy_unit].
      destruct (fs_type fs) as [ty|]; [|done]. by apply str_eqb_eq in Hty as ->.
    + rewrite List.Forall_forall in Hp. by apply Hp.
Qed.

Lemma addTerms_ok (schema : BillingUsageSchema) (terms : list str) (st st' : TermState) :
  terms_ok schema st -> addTerms schema st terms = Some st' -> terms_ok schema st'.
Proof.
  revert st; induction terms as [|t ts IH]; intros st Hst; simpl.
  - by intros [= <-].
  - destruct (addTerm schema st t) eqn:E; [|done]. apply IH. by eapply addTerm_ok.
Qed.

Lemma parseTaskTierCall_ok (e : str) (cs : list TaskTierCondition)
    (schema : BillingUsageSchema) (t : ParsedTaskTier) :
  Forall (condition_ok schema) cs -> parseTaskTierCall e cs schema = Some t ->
  task_tier_ok schema t /\ tt_conditions t = cs.
Proof.
  intros Hcs. unfold parseTaskTierCall. destruct (_ || _); [done|].
  destruct (_ <? 0); [done|]. destruct (parseJsonString _) as [l|]; [|done].
  destruct (addTerms _ _ _) as [st|] eqn:E; [|done].
  destruct (ts_unitPrices st) as [|p ps] eqn:Hps; [done|]. intros [= <-].
  apply addTerms_ok in E as (Hc & Hp & Hd).
  2: { split; [done|]. split; [constructor|constructor]. }
  rewrite Hps in Hp, Hd. split; [|done]. split; cbn; try done.
  destruct (ts_constant st) as [x|]; [by apply Hc|done].
Qed.

(** Every tier but the last one is guarded. *)
Fixpoint guarded_chain (ts : list ParsedTaskTier) : Prop :=
  match ts with
  | t :: ((_ :: _) as ts') => tt_conditions t <> [] /\ guarded_chain ts'
  | _ => True
  end.

Lemma taskTiers_loop_ok (fuel : nat) (schema : BillingUsageSchema) (s : str)
    (ts : list ParsedTaskTier) :
  taskTiers_loop fuel schema s = Some ts ->
  Forall (task_tier_ok schema) ts /\ guarded_chain ts.
Proof.
  revert s ts; induction fuel as [|k IH]; intros s ts; cbn [taskTiers_loop].
  { by intros [= <-]. }
  destruct s as [|c s0]; [by intros [= <-]|].
  destruct (findTaskTopLevelCharacter _ _ <? 0).
  { destruct (parseTaskTierCall _ _ _) as [t|] eqn:E; [|done]. intros [= <-].
    apply parseTaskTierCall_ok in E as [Ht _]; [|done]. split; [by constructor|done]. }
  destruct (findTaskTernaryColon _ _ <? 0); [done|].
  destruct (parseTaskConditions _ _) as [cs|] eqn:Ec; [|done].
  apply parseTaskConditions_ok in Ec as [Hcs Hne].
  destruct (parseTaskTierCall _ _ _) as [t|] eqn:E; [|done].
  apply parseTaskTierCall_ok in E as [Ht Htc]; [|done].
  destruct (taskTiers_loop _ _ _) as [ts'|] eqn:El; [|done]. intros [= <-].
  apply IH in El as [Hts Hg]. split; [by constructor|].
  destruct ts' as [|t' ts']; [done|]. split; [by rewrite Htc|done].
Qed.

(** C38: whatever the text, every tier that [parseTaskTiersFromExpr] returns is
    well typed with respect to the schema (its conditions compare declared
    fields with declared values, its constant and unit prices are finite and
    not negative, its priced fields are distinct numeric fields with a unit,
    and there is at least one), and every tier but the last has a condition. *)
Theorem task_tiers_well_typed (e : str) (schema : BillingUsageSchema) :
  let ts := parseTaskTiersFromExpr e (Some schema) in
  Forall (task_tier_ok schema) ts /\ guarded_chain ts.
Proof.
  cbn zeta. unfold parseTaskTiersFromExpr.
  destruct e as [|c e]; [by split|]. destruct schema as [|kv schema]; [by split|].
  destruct (splitBillingExprAndRequestRules _) as [sp|]; [|by split].
  destruct (taskTiers_loop _ _ _) as [ts|] eqn:E; [|by split].
  by apply taskTiers_loop_ok in E.
Qed.
