(* ===== verification/TierExpr.v ===== *)
(** * The visual editor of token-priced tiers

    Models [src/web/src/features/pricing/lib/tier-expr.ts]: the visual
    configuration and its normalization, the generation of a billing
    expression from it and the parser that goes back.  [evalExprLocally] hands
    the expression to the JavaScript compiler ([new Function]); what it does
    around that call is modelled with the compiled function as a parameter.

    The theorems show that normalization is idempotent and never leaves an
    empty configuration, and that a configuration is only accepted for a
    chain of tiers when it regenerates the text it came from. *)

From stdpp Require Import base list.
From Stdlib Require Import ZArith NArith Lia SpecFloat.
From S2P Require Import Prelude JsString JsArray JsNumber JsRegex JsJson RequestRules BillingTiers.

Local Open Scope Z_scope.

Inductive CacheMode : Type := CACHE_MODE_TIMED | CACHE_MODE_GENERIC.

Inductive ConditionValue : Type := CVNum (x : num) | CVStr (s : str).

Record TierConditionInput : Type := CondInput {
  ci_var : str;
  ci_op : str;
  ci_value : option ConditionValue;
}.

(** [Partial<VisualTier>]: [None] for a field that is not there. *)
Record PartialTier : Type := PartTier {
  v_label : option str;
  v_conditions : option (list TierConditionInput);
  v_cache_mode : option CacheMode;
  v_costs : list (str * num);        (** the fields [*_unit_cost] *)
}.

(** [VisualTier]: the costs are indexed by their field name. *)
Record VisualTier : Type := VTier {
  vt_label : str;
  vt_conditions : list TierConditionInput;
  vt_cache_mode : CacheMode;
  vt_costs : list (str * num);
}.

Record VisualConfig : Type := VConfig { tiers : list VisualTier }.

Definition cost (costs : list (str * num)) (f : str) : num :=
  match obj_get f costs with Some x => x | None => NaN end.

(** [Number(tier.f) || 0]; a missing field is [NaN]. *)
Definition costOrZero (costs : list (str * num)) (f : str) : num :=
  num_or_zero (cost costs f).

Definition getTierCacheMode (t : PartialTier) : CacheMode :=
  match v_cache_mode t with
  | Some m => m
  | None =>
      if num_lt num_zero (cost (v_costs t) "cache_create_1h_unit_cost")
      then CACHE_MODE_TIMED else CACHE_MODE_GENERIC
  end.

(** The fields written after the spread of the input, in order. *)
Definition extraCostFields : list str :=
  [ js "cache_read_unit_cost"; js "cache_create_unit_cost";
    js "cache_create_1h_unit_cost"; js "image_unit_cost";
    js "image_output_unit_cost"; js "audio_input_unit_cost";
    js "audio_output_unit_cost" ].

(** The spread of the input overrides the two base costs, so a base cost that
    is there is kept as it is; the other costs are written after it. *)
Definition normalizeVisualTier (t : PartialTier) : VisualTier :=
  let base :=
    obj_set "output_unit_cost" (costOrZero (v_costs t) "output_unit_cost")
      (obj_set "input_unit_cost" (costOrZero (v_costs t) "input_unit_cost") []) in
  let spread := fold_left (fun o kv => obj_set (fst kv) (snd kv) o) (v_costs t) base in
  let costs :=
    fold_left (fun o f => obj_set f (costOrZero (v_costs t) f) o) extraCostFields
      spread in
  VTier (nullish (v_label t) []) (nullish (v_conditions t) [])
        (getTierCacheMode t) costs.

Definition partialTier (t : VisualTier) : PartialTier :=
  PartTier (Some (vt_label t)) (Some (vt_conditions t)) (Some (vt_cache_mode t))
           (vt_costs t).

Definition createDefaultVisualConfig : VisualConfig :=
  VConfig [normalizeVisualTier
    (PartTier (Some (js "base")) (Some []) (Some CACHE_MODE_GENERIC)
       [(js "input_unit_cost", num_zero); (js "output_unit_cost", num_zero)])].

Definition normalizeVisualConfig (config : option VisualConfig) : VisualConfig :=
  match config with
  | None | Some (VConfig []) => createDefaultVisualConfig
  | Some cfg => VConfig (map (fun t => normalizeVisualTier (partialTier t)) (tiers cfg))
  end.

(** ** Generating an expression *)

Definition conditionValueText (v : ConditionValue) : str :=
  match v with CVNum x => num_to_string x | CVStr s => s end.

Definition usableCondition (c : TierConditionInput) : option str :=
  match ci_value c with
  | None => None
  | Some v =>
      if truthy_str (ci_var c) && truthy_str (ci_op c)
         && match v with CVStr [] => false | _ => true end
      then Some (ci_var c ++ " " ++ ci_op c ++ " " ++ conditionValueText v)
      else None
  end.

Definition buildConditionStr (conds : list TierConditionInput) : str :=
  str_join " && " (omap usableCondition conds).

Definition buildTierBodyExpr (t : VisualTier) : str :=
  let base :=
    [ "p * " ++ num_to_string (costOrZero (vt_costs t) "input_unit_cost");
      "c * " ++ num_to_string (costOrZero (vt_costs t) "output_unit_cost") ] in
  let extra :=
    omap (fun cv =>
      let v := costOrZero (vt_costs t) (fst cv) in
      if num_eq v num_zero then None
      else Some (snd cv ++ " * " ++ num_to_string v)) BILLING_CACHE_VAR_MAP in
  str_join " + " (base ++ extra).

Definition tierCall (lbl : str) (t : VisualTier) : str :=
  jq "tier('" ++ lbl ++ jq "', " ++ buildTierBodyExpr t ++ ")".

(** The parts of a chain of two or more tiers, from index [i] on. *)
Fixpoint chainParts (i : Z) (ts : list VisualTier) : list str :=
  match ts with
  | [] => []
  | t :: ts' =>
      let lbl := str_or (vt_label t) ("tier_" ++ string_of_Z (i + 1)) in
      let cond := buildConditionStr (vt_conditions t) in
      let part :=
        if truthy_str cond && match ts' with [] => false | _ => true end
        then cond ++ " ? " ++ tierCall lbl t else tierCall lbl t in
      part :: chainParts (i + 1) ts'
  end.

Definition generateExprFromVisualConfig (config : option VisualConfig) : str :=
  match config with
  | None | Some (VConfig []) => "p * 0 + c * 0"
  | Some (VConfig [t]) =>
      let body := tierCall (str_or (vt_label t) "default") t in
      let cond := buildConditionStr (vt_conditions t) in
      if truthy_str cond then cond ++ " ? " ++ body ++ " : p * 0 + c * 0" else body
  | Some (VConfig ts) => str_join " : " (chainParts 0 ts)
  end.

(** ** Parsing it back *)

Definition re_optTerm (n : nat) (v : str) : regex :=
  Opt (re_spaces · lit "+" · re_spaces · lit v · re_spaces · lit "*" · re_spaces
       · Grp n re_numch).

(** The optional terms of the extra variables, numbered from [n]; [k] is the
    rest of the pattern. *)
Fixpoint re_optTerms (n : nat) (vs : list str) (k : regex) : regex :=
  match vs with
  | [] => k
  | v :: vs' => re_optTerm n v · re_optTerms (S n) vs' k
  end.

(** The body of a tier whose base costs are groups [n] and [n + 1]. *)
Definition re_visualBody (n : nat) (k : regex) : regex :=
  lit "p" · re_spaces · lit "*" · re_spaces · Grp n re_numch · re_spaces · lit "+"
  · re_spaces · lit "c" · re_spaces · lit "*" · re_spaces · Grp (S n) re_numch
  · re_optTerms (S (S n)) (map snd BILLING_CACHE_VAR_MAP) k.

Definition re_single : regex :=
  Bol · lit (jq "tier('") · Grp 1 (Star (Cls (c_not dq))) · lit (jq "',") · re_spaces
  · re_visualBody 2 (lit ")" · Eol).

Definition re_visualTier : regex :=
  Opt (re_condGroup · re_spaces · lit "?" · re_spaces)
  · lit (jq "tier('") · Grp 2 (Star (Cls (c_not dq))) · lit (jq "',") · re_spaces
  · re_visualBody 3 (lit ")").

(** The costs of a match whose base costs are groups [n] and [n + 1]. *)
Fixpoint extraCosts (n : nat) (vs : list (str * str)) (m : mresult)
    (o : list (str * num)) : list (str * num) :=
  match vs with
  | [] => o
  | cv :: vs' =>
      extraCosts (S n) vs' m
        (match group n m with
         | Some val => obj_set (fst cv) (Number val) o
         | None => o
         end)
  end.

Definition matchCosts (n : nat) (m : mresult) : list (str * num) :=
  extraCosts (S (S n)) BILLING_CACHE_VAR_MAP m
    (obj_set "output_unit_cost" (Number (grp (S n) m))
       (obj_set "input_unit_cost" (Number (grp n m)) [])).

Definition conditionInput (c : TierCondition) : TierConditionInput :=
  CondInput (var c) (op c) (Some (CVNum (tc_value c))).

Definition matchTier (m : mresult) : VisualTier :=
  normalizeVisualTier
    (PartTier (Some (grp 2 m))
       (Some (map conditionInput (parseTierConditions (grp 1 m)))) None
       (matchCosts 3 m)).

Definition removeSpaces (s : str) : str := replace_all (Plus (Cls c_space)) [] s.

Definition versionBody (exprStr : str) : str :=
  match exec re_version exprStr with Some m => grp 2 m | None => exprStr end.

Definition tryParseVisualConfig (exprStr : option str) : option VisualConfig :=
  match exprStr with
  | None | Some [] => None
  | Some e =>
      let body := versionBody e in
      match exec re_single body with
      | Some m =>
          Some (normalizeVisualConfig (Some (VConfig [normalizeVisualTier
            (PartTier (Some (grp 1 m)) (Some []) None (matchCosts 2 m))])))
      | None =>
          match map matchTier (match_all re_visualTier body) with
          | [] => None
          | ts =>
              let cfg := normalizeVisualConfig (Some (VConfig ts)) in
              let regenerated := generateExprFromVisualConfig (Some cfg) in
              if removeSpaces regenerated =?s removeSpaces body then Some cfg
              else None
          end
      end
  end.

(** ** The local estimator *)

Definition ESTIMATOR_VARS : list (str * str) :=
  [ (js "cr", js "cacheReadTokens"); (js "cc", js "cacheCreateTokens");
    (js "cc1h", js "cacheCreate1hTokens"); (js "img", js "imageTokens");
    (js "img_o", js "imageOutputTokens"); (js "ai", js "audioInputTokens");
    (js "ao", js "audioOutputTokens") ].

Record EvalResult : Type := Eval_ {
  ev_cost : num;
  matchedTier : str;
  error : option str;
}.

Definition re_extraVars : regex := WordB · Grp 1 (alts (map fst ESTIMATOR_VARS)) · WordB.

Definition exprUsesExtraVars (exprStr : str) : bool :=
  match exprStr with [] => false | _ => test re_extraVars exprStr end.

Section Estimator.
  (** What the compiled expression does in an environment: its value and the
      last tier it called, or the message of the error it threw. *)
  Variable runExpr : str -> list (str * num) -> (num * str) + str.

Definition tokensOf (extra : list (str * num)) (k : str) : num :=
  num_or_zero (cost extra k).

(** The numeric part of the environment, in the order of its construction. *)
Definition estimatorEnv (promptTokens completionTokens : num)
    (extra : list (str * num)) : list (str * num) :=
  let len :=
    num_add (num_add (num_add promptTokens (tokensOf extra "cacheReadTokens"))
              (tokensOf extra "cacheCreateTokens"))
            (tokensOf extra "cacheCreate1hTokens") in
  [(js "p", promptTokens); (js "c", completionTokens); (js "len", len)]
  ++ map (fun f => (fst f, tokensOf extra (snd f))) ESTIMATOR_VARS.

Definition evalExprLocally (exprStr : str) (promptTokens completionTokens : num)
    (extra : list (str * num)) : EvalResult :=
  match trim exprStr with
  | [] => Eval_ num_zero [] None
  | _ =>
      match runExpr exprStr (estimatorEnv promptTokens completionTokens extra) with
      | inl (v, tier) => Eval_ (num_or_zero v) tier None
      | inr message => Eval_ num_zero [] (Some message)
      end
  end.

End Estimator.

(** ** Normalization *)

(** Writing one value per field of a list. *)
Lemma obj_get_fold_fields (g : str -> num) (fs : list str) (o : list (str * num))
    (k : str) :
  obj_get k (fold_left (fun o f => obj_set f (g f) o) fs o)
  = if mem_str k fs then Some (g k) else obj_get k o.
Proof.
  revert o; induction fs as [|f fs IH]; intros o; [done|]. cbn [fold_left mem_str].
  rewrite IH, obj_get_set. destruct (mem_str k fs).
  - by rewrite orb_true_r.
  - destruct (str_eqb_spec k f) as [->|Hn]; [done|]. done.
Qed.

Lemma NoDup_fold_fields {B} (key_of : B -> str) (g : B -> num) (fs : list B)
    (o : list (str * num)) :
  List.NoDup (obj_keys o) ->
  List.NoDup (obj_keys (fold_left (fun o f => obj_set (key_of f) (g f) o) fs o)).
Proof.
  revert o; induction fs as [|f fs IH]; intros o Ho; [done|].
  apply IH. by apply NoDup_obj_set.
Qed.

Lemma normalized_costs_nodup (t : PartialTier) :
  List.NoDup (obj_keys (vt_costs (normalizeVisualTier t))).
Proof.
  cbn [vt_costs normalizeVisualTier].
  apply (NoDup_fold_fields (fun f => f)), (NoDup_fold_fields fst snd).
  by do 2 apply NoDup_obj_set; constructor.
Qed.

(** What a cost of a normalized tier is. *)
Lemma normalized_cost (t : PartialTier) (f : str) :
  obj_get f (vt_costs (normalizeVisualTier t))
  = if mem_str f extraCostFields then Some (costOrZero (v_costs t) f)
    else match obj_get f (rev (v_costs t)) with
         | Some v => Some v
         | None =>
             if mem_str f [js "input_unit_cost"; js "output_unit_cost"]
             then Some num_zero else None
         end.
Proof.
  cbn [vt_costs normalizeVisualTier]. rewrite obj_get_fold_fields.
  destruct (mem_str f extraCostFields); [done|]. rewrite obj_get_fold_set.
  destruct (obj_get f (rev (v_costs t))) eqn:E; [done|].
  assert (Hn : obj_get f (v_costs t) = None).
  { apply obj_get_None in E. apply obj_get_None. unfold obj_keys in *.
    by rewrite map_rev, <- in_rev in E. }
  rewrite !obj_get_set. cbn [mem_str obj_get].
  destruct (str_eqb_spec f "output_unit_cost") as [->|_].
  { unfold costOrZero, cost. rewrite Hn, orb_true_r. reflexivity. }
  destruct (str_eqb_spec f "input_unit_cost") as [->|_]; [|reflexivity].
  unfold costOrZero, cost. rewrite Hn. reflexivity.
Qed.

Lemma num_or_zero_idem (x : num) : num_or_zero (num_or_zero x) = num_or_zero x.
Proof. unfold num_or_zero. destruct (truthy_num x) eqn:E; [by rewrite E|done]. Qed.

(** Normalizing a tier is idempotent: a second normalization changes
    neither its label, conditions and cache mode nor any of its costs, and a
    normalized tier has a value for every known cost. *)
Theorem normalize_tier_idempotent (t : PartialTier) :
  let n := normalizeVisualTier t in
  let n' := normalizeVisualTier (partialTier n) in
  vt_label n' = vt_label n /\ vt_conditions n' = vt_conditions n
  /\ vt_cache_mode n' = vt_cache_mode n
  /\ (forall f, obj_get f (vt_costs n') = obj_get f (vt_costs n))
  /\ (forall f, In f ([js "input_unit_cost"; js "output_unit_cost"] ++ extraCostFields) ->
        is_Some (obj_get f (vt_costs n))).
Proof.
  cbn zeta. do 3 (split; [cbn [vt_label vt_conditions vt_cache_mode
    normalizeVisualTier partialTier v_label v_conditions v_cache_mode nullish
    getTierCacheMode]; reflexivity|]).
  split.
  - intros f. rewrite (normalized_cost (partialTier _)). cbn [v_costs partialTier].
    rewrite obj_get_rev by apply normalized_costs_nodup.
    unfold costOrZero, cost. rewrite normalized_cost.
    destruct (mem_str f extraCostFields).
    { unfold costOrZero. by rewrite num_or_zero_idem. }
    destruct (obj_get f (rev (v_costs t))); [done|].
    by destruct (mem_str f [_; _]).
  - intros f Hf. rewrite normalized_cost.
    destruct (mem_str f extraCostFields) eqn:E; [by eexists|].
    destruct (obj_get f (rev (v_costs t))); [by eexists|].
    destruct (mem_str f [_; _]) eqn:E2; [by eexists|].
    apply mem_str_false in E, E2. rewrite list_elem_of_In in E, E2.
    apply in_app_iff in Hf as [Hf|Hf]; contradiction.
Qed.

(** A chain of tiers is accepted by the visual editor only if the accepted
    configuration regenerates the text up to white space, so saving an
    unchanged configuration cannot change the expression. *)
Theorem accepted_chain_regenerates (e : str) (cfg : VisualConfig) :
  tryParseVisualConfig (Some e) = Some cfg ->
  exec re_single (versionBody e) = None ->
  removeSpaces (generateExprFromVisualConfig (Some cfg)) = removeSpaces (versionBody e)
  /\ tiers cfg <> [].
Proof.
  unfold tryParseVisualConfig. intros H Hs. destruct e as [|c e]; [done|].
  rewrite Hs in H.
  destruct (map matchTier _) as [|t ts] eqn:E; [done|].
  destruct (str_eqb_spec (removeSpaces (generateExprFromVisualConfig
    (Some (normalizeVisualConfig (Some (VConfig (t :: ts)))))))
    (removeSpaces (versionBody (c :: e)))) as [He|]; [|done].
  injection H as <-. split; [exact He|done].
Qed.

Definition sampleChain : str :=
  jq "p <= 200000 ? tier('base', p * 2.5 + c * 10) : tier('long', p * 4 + c * 3)".

Lemma accepted_chain_regenerates_witness :
  exists cfg, tryParseVisualConfig (Some sampleChain) = Some cfg
    /\ removeSpaces (generateExprFromVisualConfig (Some cfg))
       = removeSpaces (versionBody sampleChain) /\ tiers cfg <> [].
Proof.
  eexists. split; [vm_compute; reflexivity|].
  apply (accepted_chain_regenerates sampleChain); vm_compute; reflexivity.
Defined.

(** A single tier is accepted without that comparison: a coefficient that
    is not a number is read as the price zero, and the regenerated expression
    differs from the text. *)
Theorem malformed_price_accepted :
  exists cfg,
    tryParseVisualConfig (Some (jq "tier('base', p * 1.2.3 + c * 3)")) = Some cfg
    /\ generateExprFromVisualConfig (Some cfg) = jq "tier('base', p * 0 + c * 3)".
Proof. eexists. split; [vm_compute; reflexivity|vm_compute; reflexivity]. Qed.
