(* ===== verification/TaskExpr.v ===== *)
(** * The visual editor of task-priced tiers

    Models [src/web/src/features/pricing/lib/task-expr.ts]: the price matrix
    over the enumerated usage fields, its translation to a chain of tiers and
    back, the evaluation of a configuration on sample usage, normalization and
    the generation of the expression.

    The theorems show that the combinations of the matrix are exactly the
    assignments of declared values, that evaluating the chain of tiers made
    from a matrix selects the row of the sample (the chain implements the
    table), and that an evaluation that succeeds is a finite sum of finite
    amounts. *)

From stdpp Require Import base list.
From Stdlib Require Import ZArith NArith Lia SpecFloat.
From S2P Require Import Prelude JsString JsArray JsNumber JsRegex JsJson RequestRules BillingTiers.

Local Open Scope Z_scope.

Definition TASK_TOKEN_PRICE_SCALE : Z := 1000000.

(** [TaskVisualTier] has the fields of [ParsedTaskTier] and the conditions of
    [TaskTierCondition]. *)
Record TaskVisualConfig : Type := TVConfig { tv_tiers : list ParsedTaskTier }.

Record TaskMatrixRow : Type := MRow {
  combination : list (str * str);
  row_constant : num;
  row_unitPrices : list (str * num);
}.

Record TaskMatrixConfig : Type := Matrix { rows : list TaskMatrixRow }.

Inductive PreviewKind : Type := PKConstant | PKUsage.

Record PreviewPart : Type := PPart {
  kind : PreviewKind;
  pp_field : option str;
  amount : num;
  quantity : option num;
  unitPrice : option num;
}.

Record TaskPreviewResult : Type := Preview {
  pr_tier : ParsedTaskTier;
  total : num;
  pr_parts : list PreviewPart;
}.

Definition TaskField : Type := (str * BillingUsageFieldSchema)%type.

Definition isNumberField (e : TaskField) : bool :=
  ostr_eqb (fs_type (snd e)) "number" && truthy_str (nullish (fs_unit (snd e)) []).

Definition isEnumField (e : TaskField) : bool :=
  match fs_enum (snd e) with Some (_ :: _) => true | _ => false end.

Section TaskExpr.
  (** [String.prototype.localeCompare]: the collation of the runtime. *)
  Variable localeCompare : str -> str -> Z.

Definition byName {A} (a b : str * A) : Z := localeCompare (fst a) (fst b).

Definition getTaskNumberFields (schema : option BillingUsageSchema) : list TaskField :=
  match schema with
  | None => []
  | Some s => sort_by byName (List.filter isNumberField s)
  end.

Definition getTaskEnumFields (schema : option BillingUsageSchema) : list TaskField :=
  match schema with
  | None => []
  | Some s => sort_by byName (List.filter isEnumField s)
  end.

(** One round of the loop: every combination is extended by every value. *)
Definition extendCombinations (combos : list (list (str * str))) (e : TaskField)
    : list (list (str * str)) :=
  flat_map (fun c => map (fun v => obj_set (fst e) v c) (nullish (fs_enum (snd e)) []))
    combos.

Definition getTaskEnumCombinations (schema : option BillingUsageSchema)
    : list (list (str * str)) :=
  fold_left extendCombinations (getTaskEnumFields schema) [[]].

Definition zeroPrices (fields : list TaskField) : list (str * num) :=
  obj_from (map (fun e => (fst e, num_zero)) fields).

Definition createDefaultTaskVisualConfig (schema : BillingUsageSchema)
    : TaskVisualConfig :=
  TVConfig [PTaskTier "base" [] num_zero
              (zeroPrices (getTaskNumberFields (Some schema)))].

Definition createDefaultTaskMatrixConfig (schema : BillingUsageSchema)
    : TaskMatrixConfig :=
  Matrix (map (fun c => MRow c num_zero (zeroPrices (getTaskNumberFields (Some schema))))
              (getTaskEnumCombinations (Some schema))).

Definition taskMatrixRowLabel (c : list (str * str)) : str :=
  match map snd (sort_by byName c) with
  | [] => "base"
  | values => str_join "·" values
  end.

Definition taskMatrixCombinationKey (c : list (str * str)) (enumFields : list TaskField)
    : str :=
  stringify (JArr (map (fun e => match obj_get (fst e) c with
                                 | Some v => JStr v
                                 | None => JNull
                                 end) enumFields)).

(** [a === b] for numbers that may be [undefined]. *)
Definition onum_eqb (a b : option num) : bool :=
  match a, b with
  | Some x, Some y => num_eq x y
  | None, None => true
  | _, _ => false
  end.

(** The prices of the numeric fields, [0] where there is none. *)
Definition pickPrices (fields : list TaskField) (prices : list (str * num))
    : list (str * num) :=
  obj_from (map (fun e => (fst e, nullish (obj_get (fst e) prices) num_zero)) fields).

Definition isUniform (numberFields : list TaskField) (firstRow : TaskMatrixRow)
    (rs : list TaskMatrixRow) : bool :=
  forallb (fun row =>
    num_eq (row_constant row) (row_constant firstRow)
    && forallb (fun e => onum_eqb (obj_get (fst e) (row_unitPrices row))
                                  (obj_get (fst e) (row_unitPrices firstRow)))
         numberFields) rs.

Definition rowConditions (row : TaskMatrixRow) : list TaskTierCondition :=
  map (fun fv => TaskCond (fst fv) (snd fv)) (sort_by byName (combination row)).

(** The tiers of the rows; the last one has no condition. *)
Fixpoint rowTiers (numberFields : list TaskField) (rs : list TaskMatrixRow)
    : list ParsedTaskTier :=
  match rs with
  | [] => []
  | row :: rs' =>
      PTaskTier (taskMatrixRowLabel (combination row))
        (match rs' with [] => [] | _ => rowConditions row end)
        (row_constant row) (pickPrices numberFields (row_unitPrices row))
        :: rowTiers numberFields rs'
  end.

Definition taskMatrixToTiers (config : TaskMatrixConfig) (schema : BillingUsageSchema)
    : list ParsedTaskTier :=
  let numberFields := getTaskNumberFields (Some schema) in
  match numberFields, rows config with
  | [], _ | _, [] => []
  | _, firstRow :: _ =>
      if isUniform numberFields firstRow (rows config) then
        [PTaskTier "base" [] (row_constant firstRow)
           (pickPrices numberFields (row_unitPrices firstRow))]
      else rowTiers numberFields (rows config)
  end.

(** The values of a tier's conditions by field; [None] for a repeated field or
    a value that is not declared. *)
Fixpoint valuesByField (schema : BillingUsageSchema) (cs : list TaskTierCondition)
    (m : list (str * str)) : option (list (str * str)) :=
  match cs with
  | [] => Some m
  | c :: cs' =>
      match obj_get (tk_field c) m with
      | Some _ => None
      | None =>
          if mem_str (tk_value c) (schemaEnum schema (tk_field c))
          then valuesByField schema cs' (m ++ [(tk_field c, tk_value c)])
          else None
      end
  end.

(** The loop that indexes the guarded tiers by combination. *)
Fixpoint indexTiers (schema : BillingUsageSchema) (enumFields : list TaskField)
    (ts : list ParsedTaskTier) (m : list (str * ParsedTaskTier))
    : option (list (str * ParsedTaskTier)) :=
  match ts with
  | [] => Some m
  | tier :: ts' =>
      if negb (length (tt_conditions tier) =? length enumFields)%nat then None
      else
        match valuesByField schema (tt_conditions tier) [] with
        | None => None
        | Some vs =>
            if negb (length vs =? length enumFields)%nat then None
            else
              let c := obj_from (map (fun e => (fst e, nullish (obj_get (fst e) vs) []))
                                     enumFields) in
              let k := taskMatrixCombinationKey c enumFields in
              match obj_get k m with
              | Some _ => None
              | None => indexTiers schema enumFields ts' (m ++ [(k, tier)])
              end
        end
  end.

Definition matrixRow (numberFields : list TaskField) (c : list (str * str))
    (tier : ParsedTaskTier) : TaskMatrixRow :=
  MRow c (constant tier) (pickPrices numberFields (unitPrices tier)).

(** The case of several tiers, or of one tier with conditions. *)
Definition matrixFromChain (schema : BillingUsageSchema) (ts : list ParsedTaskTier)
    : option TaskMatrixConfig :=
  let enumFields := getTaskEnumFields (Some schema) in
  let numberFields := getTaskNumberFields (Some schema) in
  let combos := getTaskEnumCombinations (Some schema) in
  let keyOf c := taskMatrixCombinationKey c enumFields in
  if negb (length ts =? length combos)%nat then None
  else
    match last ts with
    | None => None
    | Some fallback =>
        match tt_conditions fallback with
        | _ :: _ => None
        | [] =>
            match indexTiers schema enumFields (removelast ts) [] with
            | None => None
            | Some m =>
                match List.filter (fun c => match obj_get (keyOf c) m with
                                            | None => true | Some _ => false
                                            end) combos with
                | [missing] =>
                    let m' := m ++ [(keyOf missing, fallback)] in
                    option_map Matrix
                      (map_all (fun c => option_map (matrixRow numberFields c)
                                           (obj_get (keyOf c) m')) combos)
                | _ => None
                end
            end
        end
    end.

Definition tryParseTaskMatrixConfig (expression : option str)
    (schema : BillingUsageSchema) : option TaskMatrixConfig :=
  match expression with
  | None | Some [] => None
  | Some e =>
      let ts := parseTaskTiersFromExpr e (Some schema) in
      let numberFields := getTaskNumberFields (Some schema) in
      let combos := getTaskEnumCombinations (Some schema) in
      match ts with
      | [] => None
      | [PTaskTier l [] k ps] =>
          Some (Matrix (map (fun c => matrixRow numberFields c (PTaskTier l [] k ps))
                            combos))
      | _ => matrixFromChain schema ts
      end
  end.

(** ** Evaluation on sample usage *)

Definition sampleMatches (sample : list (str * Fact)) (c : TaskTierCondition) : bool :=
  match obj_get (tk_field c) sample with
  | Some (FStr s) => s =?s tk_value c
  | _ => false
  end.

Definition tierMatches (sample : list (str * Fact)) (t : ParsedTaskTier) : bool :=
  forallb (sampleMatches sample) (tt_conditions t).

(** The first guarded tier that matches, or the last tier. *)
Definition selectTier (config : TaskVisualConfig) (sample : list (str * Fact))
    : option ParsedTaskTier :=
  match last (tv_tiers config) with
  | None => None
  | Some fallback =>
      Some (nullish (find (tierMatches sample) (removelast (tv_tiers config))) fallback)
  end.

(** [Number(sample[field])]. *)
Definition factNumber (f : option Fact) : num :=
  match f with
  | Some (FNum x) => x
  | Some (FStr s) => Number s
  | None => NaN
  end.

(** The loop over the unit prices; [None] is [return null]. *)
Fixpoint usageParts (sample : list (str * Fact)) (schema : BillingUsageSchema)
    (prices : list (str * num)) (tot : num) (ps : list PreviewPart)
    : option (num * list PreviewPart) :=
  match prices with
  | [] => Some (tot, ps)
  | (f, price) :: prices' =>
      if negb (validPrice price) then None
      else if num_eq price num_zero then usageParts sample schema prices' tot ps
      else
        let q := factNumber (obj_get f sample) in
        if negb (validPrice q) then None
        else
          let isToken :=
            match obj_get f schema with
            | Some fs => ostr_eqb (fs_unit fs) "token"
            | None => false
            end in
          let a :=
            if isToken then num_div (num_mul q price) (num_of_Z TASK_TOKEN_PRICE_SCALE)
            else num_mul q price in
          if negb (isFinite a) then None
          else usageParts sample schema prices' (num_add tot a)
                 (ps ++ [PPart PKUsage (Some f) a (Some q) (Some price)])
  end.

Definition evaluateTaskVisualConfig (config : TaskVisualConfig)
    (sample : list (str * Fact)) (schema : BillingUsageSchema)
    : option TaskPreviewResult :=
  match selectTier config sample with
  | None => None
  | Some tier =>
      let k := constant tier in
      if negb (validPrice k) then None
      else
        let '(tot, ps) :=
          if num_lt num_zero k
          then (num_add num_zero k, [PPart PKConstant None k None None])
          else (num_zero, []) in
        match usageParts sample schema (unitPrices tier) tot ps with
        | None => None
        | Some (tot', ps') =>
            if negb (isFinite tot') then None else Some (Preview tier tot' ps')
        end
  end.

(** ** Normalization and generation *)

Definition validOrZero (x : num) : num := if validPrice x then x else num_zero.

Definition normalizeTaskTier (schema : BillingUsageSchema) (index : Z)
    (tier : ParsedTaskTier) : ParsedTaskTier :=
  let numberFields := dedupe (map fst (getTaskNumberFields (Some schema))) in
  let enumFields := getTaskEnumFields (Some schema) in
  PTaskTier
    (str_or (tt_label tier)
       (if index =? 0 then js "base" else "tier_" ++ string_of_Z (index + 1)))
    (List.filter (fun c =>
       match obj_get (tk_field c) enumFields with
       | Some fs => mem_str (tk_value c) (nullish (fs_enum fs) [])
       | None => false
       end) (tt_conditions tier))
    (validOrZero (constant tier))
    (obj_from (map (fun f =>
       (f, match obj_get f (unitPrices tier) with
           | Some x => validOrZero x
           | None => num_zero
           end)) numberFields)).

Fixpoint normalizeTaskTiers (schema : BillingUsageSchema) (index : Z)
    (ts : list ParsedTaskTier) : list ParsedTaskTier :=
  match ts with
  | [] => []
  | t :: ts' => normalizeTaskTier schema index t
                  :: normalizeTaskTiers schema (index + 1) ts'
  end.

Definition normalizeTaskVisualConfig (config : option TaskVisualConfig)
    (schema : BillingUsageSchema) : TaskVisualConfig :=
  match config with
  | None | Some (TVConfig []) => createDefaultTaskVisualConfig schema
  | Some cfg => TVConfig (normalizeTaskTiers schema 0 (tv_tiers cfg))
  end.

Definition generateTaskTierBody (tier : ParsedTaskTier) (numberFields : list TaskField)
    : str :=
  let k := if num_lt num_zero (constant tier)
           then [num_to_string (constant tier)] else [] in
  let terms :=
    map (fun e =>
      let price := nullish (obj_get (fst e) (unitPrices tier)) num_zero in
      let term := "u(" ++ quote (fst e) ++ ") * " ++ num_to_string price in
      if ostr_eqb (fs_unit (snd e)) "token"
      then term ++ " / " ++ string_of_Z TASK_TOKEN_PRICE_SCALE else term)
      numberFields in
  str_join " + " (k ++ terms).

Definition generateTaskTierCall (tier : ParsedTaskTier) (numberFields : list TaskField)
    : str :=
  "tier(" ++ quote (tt_label tier) ++ ", "
    ++ generateTaskTierBody tier numberFields ++ ")".

Definition generateTaskCondition (cs : list TaskTierCondition) : str :=
  str_join " && " (map (fun c => "u(" ++ quote (tk_field c) ++ ") == "
                                   ++ quote (tk_value c)) cs).

(** The parts of the chain; [None] when a guarded tier has no condition. *)
Fixpoint taskChain (numberFields : list TaskField) (ts : list ParsedTaskTier)
    : option (list str) :=
  match ts with
  | [] => Some []
  | [t] => Some [generateTaskTierCall t numberFields]
  | t :: ts' =>
      match generateTaskCondition (tt_conditions t) with
      | [] => None
      | c => option_map (cons (c ++ " ? " ++ generateTaskTierCall t numberFields))
               (taskChain numberFields ts')
      end
  end.

Definition generateTaskExprFromConfig (config : option TaskVisualConfig)
    (schema : BillingUsageSchema) : str :=
  let numberFields := getTaskNumberFields (Some schema) in
  match numberFields with
  | [] => []
  | _ =>
      match taskChain numberFields
              (tv_tiers (normalizeTaskVisualConfig config schema)) with
      | None => []
      | Some ps => str_join " : " ps
      end
  end.

Definition tryParseTaskVisualConfig (expression : option str)
    (schema : BillingUsageSchema) : option TaskVisualConfig :=
  match expression with
  | None | Some [] => None
  | Some e =>
      match parseTaskTiersFromExpr e (Some schema) with
      | [] => None
      | ts => Some (normalizeTaskVisualConfig (Some (TVConfig ts)) schema)
      end
  end.

Record BillingUsageExample : Type := UsageExample {
  ex_label : str;
  facts : list (str * Fact);
}.

(** The split runs outside a [try] block, so it may throw. *)
Definition evaluateTaskUsageExamples (expression : option str)
    (schema : option BillingUsageSchema) (examples : option (list BillingUsageExample))
    : res (list (str * num)) :=
  match expression, schema, examples with
  | Some ((_ :: _) as e), Some s, Some ((_ :: _) as exs) =>
      let! sp := splitBillingExprAndRequestRules e in
      match tryParseTaskVisualConfig (Some (billingExpr sp)) s with
      | None => Ok []
      | Some config =>
          Ok (omap (fun ex =>
            option_map (fun r => (ex_label ex, total r))
              (evaluateTaskVisualConfig config (facts ex) s)) exs)
      end
  | _, _, _ => Ok []
  end.

(** ** The combinations of the matrix *)

(** One declared value for every field, in the order of the fields. *)
Definition assignment (fields : list TaskField) (c : list (str * str)) : Prop :=
  exists vs, Forall2 (fun e v => In v (nullish (fs_enum (snd e)) [])) fields vs
             /\ c = obj_from (combine (map fst fields) vs).

Lemma combine_snoc {X Y} (l : list X) (l' : list Y) (x : X) (y : Y) :
  length l = length l' -> combine (l ++ [x]) (l' ++ [y]) = combine l l' ++ [(x, y)].
Proof.
  revert l'; induction l as [|a l IH]; intros [|b l'] Hl; simpl in *; try lia; [done|].
  by rewrite IH by lia.
Qed.

Lemma in_combinations (fields : list TaskField) (c : list (str * str)) :
  In c (fold_left extendCombinations fields [[]]) <-> assignment fields c.
Proof.
  revert c; induction fields as [|e fields IH] using rev_ind; intros c.
  - simpl. split.
    + intros [<-|[]]. exists []. by split.
    + intros (vs & Hvs & ->). inversion Hvs. by left.
  - rewrite fold_left_app. cbn [fold_left]. unfold extendCombinations at 1.
    rewrite in_flat_map. setoid_rewrite in_map_iff. setoid_rewrite IH. split.
    + intros (c0 & (vs & Hvs & ->) & v & <- & Hv). exists (vs ++ [v]).
      split; [by apply Forall2_app; [|constructor]|].
      rewrite map_app. cbn [map].
      rewrite combine_snoc by (rewrite length_map; by eapply Forall2_length).
      by rewrite obj_from_snoc.
    + intros (vs & Hvs & ->).
      apply Forall2_app_inv_l in Hvs as (vs0 & vs1 & Hvs & H1 & ->).
      inversion_clear H1 as [|? v ? ? Hv Hnil]. inversion Hnil; subst.
      exists (obj_from (combine (map fst fields) vs0)). split; [by exists vs0|].
      exists v. split; [|done]. rewrite map_app. cbn [map].
      rewrite combine_snoc by (rewrite length_map; by eapply Forall2_length).
      by rewrite obj_from_snoc.
Qed.

(** The rows of a task price matrix are complete and correct: the
    combinations are exactly the assignments that give every enumerated field
    of the schema one of its declared values. *)
Theorem combinations_complete (schema : BillingUsageSchema) (c : list (str * str)) :
  In c (getTaskEnumCombinations (Some schema))
  <-> assignment (getTaskEnumFields (Some schema)) c.
Proof. apply in_combinations. Qed.

(** ** The chain of tiers implements the matrix *)

Lemma getTask_pick (nf : list TaskField) (ps : list (str * num)) (f : str) :
  In f (map fst nf) ->
  obj_get f (pickPrices nf ps) = Some (nullish (obj_get f ps) num_zero).
Proof.
  assert (Hl : forall l : list TaskField, In f (map fst l) ->
    obj_get f (map (fun e => (fst e, nullish (obj_get (fst e) ps) num_zero)) l)
    = Some (nullish (obj_get f ps) num_zero)).
  { induction l as [|e l IH]; simpl; [done|].
    destruct (str_eqb_spec f (fst e)) as [->|Hn]; [done|].
    intros [E|H]; [congruence|by apply IH]. }
  intros Hf. unfold pickPrices. rewrite obj_get_from, <- map_rev.
  apply Hl. by rewrite map_rev, <- in_rev.
Qed.

Lemma select_cons (t : ParsedTaskTier) (ts : list ParsedTaskTier)
    (sample : list (str * Fact)) :
  ts <> [] ->
  selectTier (TVConfig (t :: ts)) sample
  = if tierMatches sample t then Some t else selectTier (TVConfig ts) sample.
Proof.
  intros Hne. unfold selectTier. destruct ts as [|t' ts]; [done|].
  cbn [tv_tiers]. change (last (t :: t' :: ts)) with (last (t' :: ts)).
  change (removelast (t :: t' :: ts)) with (t :: removelast (t' :: ts)).
  cbn [find]. destruct (last (t' :: ts)) as [fb|] eqn:E.
  - by destruct (tierMatches sample t).
  - by apply last_None in E.
Qed.

(** A row assigns exactly the fields [ks], each once. *)
Definition row_over (ks : list str) (row : TaskMatrixRow) : Prop :=
  List.NoDup (obj_keys (combination row))
  /\ forall k, In k (obj_keys (combination row)) <-> In k ks.

Definition rows_differ (a b : TaskMatrixRow) : Prop :=
  exists k, obj_get k (combination a) <> obj_get k (combination b).

(** The sample has the values of the row. *)
Definition sample_of (row : TaskMatrixRow) (sample : list (str * Fact)) : Prop :=
  forall k v, obj_get k (combination row) = Some v ->
              obj_get k sample = Some (FStr v).

Lemma in_rowConditions (row : TaskMatrixRow) (k v : str) :
  In (TaskCond k v) (rowConditions row) <-> In (k, v) (combination row).
Proof.
  unfold rowConditions. rewrite in_map_iff. split.
  - intros ([k' v'] & [= -> ->] & H). rewrite <- list_elem_of_In in H |- *.
    by apply elem_of_sort_by in H.
  - intros H. exists (k, v). split; [done|]. rewrite <- list_elem_of_In in H |- *.
    by apply elem_of_sort_by.
Qed.

Lemma row_conditions_hold (ks : list str) (row : TaskMatrixRow)
    (sample : list (str * Fact)) :
  row_over ks row -> sample_of row sample ->
  forallb (sampleMatches sample) (rowConditions row) = true.
Proof.
  intros [Hd _] Hs. apply forallb_forall. intros [k v] H%in_rowConditions.
  apply obj_get_In_iff, Hs in H; [|done]. unfold sampleMatches. cbn [tk_field tk_value].
  rewrite H. apply str_eqb_refl.
Qed.

Lemma row_conditions_fail (ks : list str) (row r : TaskMatrixRow)
    (sample : list (str * Fact)) :
  row_over ks row -> row_over ks r -> rows_differ row r -> sample_of r sample ->
  forallb (sampleMatches sample) (rowConditions row) = false.
Proof.
  intros [Hd Hk] [Hd' Hk'] [k Hdiff] Hs. apply not_true_is_false. intros Hall.
  rewrite forallb_forall in Hall.
  assert (Hin : In k ks).
  { destruct (obj_get k (combination row)) as [v|] eqn:E.
    - apply Hk. apply obj_get_In in E. apply in_map_iff. by exists (k, v).
    - destruct (obj_get k (combination r)) as [v|] eqn:E'; [|done].
      apply Hk'. apply obj_get_In in E'. apply in_map_iff. by exists (k, v). }
  destruct (obj_get k (combination row)) as [v|] eqn:E.
  2: { apply obj_get_None in E. by apply E, Hk. }
  destruct (obj_get k (combination r)) as [v'|] eqn:E'.
  2: { apply obj_get_None in E'. by apply E', Hk'. }
  apply obj_get_In, in_rowConditions, Hall in E.
  unfold sampleMatches in E. cbn [tk_field tk_value] in E.
  rewrite (Hs k v' E') in E. apply str_eqb_eq in E. congruence.
Qed.

Lemma rowTiers_nonnil (nf : list TaskField) (rs : list TaskMatrixRow) :
  rs <> [] -> rowTiers nf rs <> [].
Proof. by destruct rs. Qed.

(** The tier of a row, up to its label and conditions. *)
Definition tier_of_row (nf : list TaskField) (r : TaskMatrixRow) (t : ParsedTaskTier)
    : Prop :=
  constant t = row_constant r /\ unitPrices t = pickPrices nf (row_unitPrices r).

Lemma select_rowTiers (nf : list TaskField) (ks : list str) (rs : list TaskMatrixRow)
    (r : TaskMatrixRow) (sample : list (str * Fact)) :
  Forall (row_over ks) rs -> ForallOrdPairs rows_differ rs -> In r rs ->
  sample_of r sample ->
  exists t, selectTier (TVConfig (rowTiers nf rs)) sample = Some t
            /\ tier_of_row nf r t.
Proof.
  intros Hov Hdiff Hin Hs. induction rs as [|row rs IH]; [done|].
  apply Forall_cons in Hov as [Hrow Hov]. inversion_clear Hdiff as [|? ? Hd Hds].
  destruct rs as [|row' rs].
  { destruct Hin as [->|[]]. cbn. by eexists. }
  cbn [rowTiers]. rewrite select_cons by done. unfold tierMatches at 1.
  cbn [tt_conditions]. destruct Hin as [->|Hin].
  - rewrite (row_conditions_hold ks) by done. by eexists.
  - rewrite (row_conditions_fail ks row r); [by apply IH|done| |..|done].
    + rewrite List.Forall_forall in Hov. by apply Hov.
    + rewrite List.Forall_forall in Hd. by apply Hd.
Qed.

(** The same number, for [===]: the two zeros are the same. *)
Definition same_num (a b : num) : Prop := a = b \/ num_eq b a = true.

Lemma uniform_row (nf : list TaskField) (first r : TaskMatrixRow)
    (rs : list TaskMatrixRow) :
  isUniform nf first rs = true -> In r rs ->
  same_num (row_constant first) (row_constant r)
  /\ forall f, In f (map fst nf) ->
       same_num (nullish (obj_get f (row_unitPrices first)) num_zero)
                (nullish (obj_get f (row_unitPrices r)) num_zero).
Proof.
  intros Hu Hr. unfold isUniform in Hu. rewrite forallb_forall in Hu.
  specialize (Hu r Hr). apply andb_true_iff in Hu as [Hk Hp].
  split; [by right|]. intros f (e & <- & He)%in_map_iff.
  rewrite forallb_forall in Hp. specialize (Hp e He). unfold onum_eqb in Hp.
  destruct (obj_get (fst e) (row_unitPrices r)), (obj_get (fst e) (row_unitPrices first));
    try done; [by right|by left].
Qed.

(** C34: the chain of tiers made from a price matrix implements the matrix: if
    the rows assign the same fields and no two agree on all of them, then on
    usage that has the values of a row, evaluation selects a tier with the
    constant and the unit prices of that row. *)
Theorem matrix_chain_refines (schema : BillingUsageSchema) (config : TaskMatrixConfig)
    (ks : list str) (r : TaskMatrixRow) (sample : list (str * Fact)) :
  getTaskNumberFields (Some schema) <> [] ->
  Forall (row_over ks) (rows config) -> ForallOrdPairs rows_differ (rows config) ->
  In r (rows config) -> sample_of r sample ->
  exists t, selectTier (TVConfig (taskMatrixToTiers config schema)) sample = Some t
    /\ same_num (constant t) (row_constant r)
    /\ forall f, In f (map fst (getTaskNumberFields (Some schema))) ->
         exists x, obj_get f (unitPrices t) = Some x
                   /\ same_num x (nullish (obj_get f (row_unitPrices r)) num_zero).
Proof.
  intros Hnf Hov Hdiff Hin Hs. unfold taskMatrixToTiers.
  destruct (getTaskNumberFields (Some schema)) as [|e nf'] eqn:Enf; [done|].
  set (nf := e :: nf') in *. destruct (rows config) as [|first rs]; [done|].
  destruct (isUniform nf first (first :: rs)) eqn:Hu.
  - destruct (uniform_row nf first r _ Hu Hin) as [Hk Hp].
    eexists. split; [reflexivity|]. cbn [constant unitPrices]. split; [done|].
    intros f Hf. eexists. split; [by apply getTask_pick|]. by apply Hp.
  - destruct (select_rowTiers nf ks _ r sample Hov Hdiff Hin Hs) as (t & Ht & Hk & Hp).
    exists t. split; [done|]. split; [by left|]. intros f Hf. rewrite Hp.
    eexists. split; [by apply getTask_pick|by left].
Qed.

(** ** Evaluation *)

Definition sum_amounts (ps : list PreviewPart) : num :=
  fold_left num_add (map amount ps) num_zero.

Lemma sum_amounts_snoc (ps : list PreviewPart) (p : PreviewPart) :
  sum_amounts (ps ++ [p]) = num_add (sum_amounts ps) (amount p).
Proof. unfold sum_amounts. by rewrite map_app, fold_left_app. Qed.

Definition parts_finite (ps : list PreviewPart) : Prop :=
  Forall (fun p => isFinite (amount p) = true) ps.

Lemma usageParts_sum (sample : list (str * Fact)) (schema : BillingUsageSchema)
    (prices : list (str * num)) (tot tot' : num) (ps ps' : list PreviewPart) :
  tot = sum_amounts ps -> parts_finite ps ->
  usageParts sample schema prices tot ps = Some (tot', ps') ->
  tot' = sum_amounts ps' /\ parts_finite ps'.
Proof.
  revert tot ps; induction prices as [|[f price] prices IH];
    intros tot ps Ht Hf; cbn [usageParts].
  { by intros [= <- <-]. }
  destruct (validPrice price); cbn [negb]; [|done].
  destruct (num_eq price num_zero); [by apply IH|].
  destruct (validPrice (factNumber _)); cbn [negb]; [|done].
  match goal with |- context [negb (isFinite ?a)] => destruct (isFinite a) eqn:Ha end;
    cbn [negb]; [|done].
  apply IH; [by rewrite sum_amounts_snoc, Ht|].
  apply Forall_app; split; [done|]. by constructor.
Qed.

Lemma validPrice_finite (x : num) : validPrice x = true -> isFinite x = true.
Proof. unfold validPrice. by intros [H _]%andb_true_iff. Qed.

(** A preview that is computed is sound: the selected tier is one of the
    configuration, every amount is finite, and the total is finite and is the
    sum of the amounts in the order in which they are listed. *)
Theorem preview_total (config : TaskVisualConfig) (sample : list (str * Fact))
    (schema : BillingUsageSchema) (r : TaskPreviewResult) :
  evaluateTaskVisualConfig config sample schema = Some r ->
  selectTier config sample = Some (pr_tier r)
  /\ isFinite (total r) = true /\ parts_finite (pr_parts r)
  /\ total r = sum_amounts (pr_parts r).
Proof.
  unfold evaluateTaskVisualConfig. destruct (selectTier config sample) as [t|]; [|done].
  destruct (validPrice (constant t)) eqn:Hk; cbn [negb]; [|done].
  apply validPrice_finite in Hk.
  destruct (num_lt num_zero (constant t)).
  - destruct (usageParts _ _ _ _ _) as [[tot ps]|] eqn:E; [|done].
    apply usageParts_sum in E as [Ht Hf]; [|done|by constructor].
    destruct (isFinite tot) eqn:Hfin; [|done]. intros [= <-]. by repeat split.
  - destruct (usageParts _ _ _ _ _) as [[tot ps]|] eqn:E; [|done].
    apply usageParts_sum in E as [Ht Hf]; [|done|by constructor].
    destruct (isFinite tot) eqn:Hfin; [|done]. intros [= <-]. by repeat split.
Qed.

(** ** Reading a matrix back *)

Lemma map_all_map {X Y} (f : X -> option Y) (g : Y -> X) (l : list X) (ys : list Y) :
  (forall x y, f x = Some y -> g y = x) -> map_all f l = Some ys -> map g ys = l.
Proof.
  intros Hf. revert ys; induction l as [|x l IH]; intros ys; cbn [map_all].
  - by intros [= <-].
  - destruct (f x) as [y|] eqn:E; [|done]. destruct (map_all f l); [|done].
    intros [= <-]. cbn [map]. by rewrite (Hf x y E), (IH l0).
Qed.

Lemma chain_matrix_rows (schema : BillingUsageSchema) (ts : list ParsedTaskTier)
    (config : TaskMatrixConfig) :
  matrixFromChain schema ts = Some config ->
  map combination (rows config) = getTaskEnumCombinations (Some schema).
Proof.
  unfold matrixFromChain. destruct (negb _); [done|].
  destruct (last ts) as [fb|]; [|done].
  destruct (tt_conditions fb); [|done]. destruct (indexTiers _ _ _ _) as [m|]; [|done].
  destruct (List.filter _ _) as [|missing [|? ?]]; [done| |done].
  destruct (map_all _ _) as [ys|] eqn:E; [|done]. intros [= <-].
  eapply map_all_map; [|exact E]. intros c row.
  cbn beta. destruct (obj_get _ _); [|done]. by intros [= <-].
Qed.

(** A matrix that is read from an expression has one row for every
    combination of the schema, in the order of the combinations. *)
Theorem parsed_matrix_rows (e : option str) (schema : BillingUsageSchema)
    (config : TaskMatrixConfig) :
  tryParseTaskMatrixConfig e schema = Some config ->
  map combination (rows config) = getTaskEnumCombinations (Some schema).
Proof.
  unfold tryParseTaskMatrixConfig. destruct e as [[|c e]|]; [done| |done].
  destruct (parseTaskTiersFromExpr _ _) as [|t ts]; [done|].
  destruct t as [l [|c0 cs] k ps]; [destruct ts as [|t2 ts]|];
    try apply chain_matrix_rows.
  intros [= <-]. cbn [rows]. rewrite map_map. apply map_id.
Qed.

End TaskExpr.

(** ** Instances *)

Definition sampleSchema : BillingUsageSchema :=
  [ (js "resolution", FieldSchema None None (Some [js "720p"; js "1080p"]));
    (js "seconds", FieldSchema (Some (js "number")) (Some (js "second")) None) ].

Definition sampleMatrix : TaskMatrixConfig :=
  Matrix [ MRow [(js "resolution", js "720p")] num_zero [(js "seconds", num_of_Z 1)];
           MRow [(js "resolution", js "1080p")] num_zero [(js "seconds", num_of_Z 3)] ].

Definition sampleUsage : list (str * Fact) :=
  [(js "resolution", FStr "1080p"); (js "seconds", FNum (num_of_Z 10))].

Lemma matrix_chain_refines_witness :
  exists t, selectTier (TVConfig (taskMatrixToTiers str_cmp sampleMatrix sampleSchema))
              sampleUsage = Some t
    /\ same_num (constant t) num_zero
    /\ forall f, In f (map fst (getTaskNumberFields str_cmp (Some sampleSchema))) ->
         exists x, obj_get f (unitPrices t) = Some x
           /\ same_num x (nullish (obj_get f [(js "seconds", num_of_Z 3)]) num_zero).
Proof.
  apply (matrix_chain_refines str_cmp sampleSchema sampleMatrix [js "resolution"]
    (MRow [(js "resolution", js "1080p")] num_zero [(js "seconds", num_of_Z 3)])
    sampleUsage).
  - vm_compute. discriminate.
  - apply List.Forall_forall. intros row [<-|[<-|[]]].
    all: split; [apply List.NoDup_cons; [intros []|apply List.NoDup_nil]|].
    all: intros k; cbn; tauto.
  - repeat constructor. exists (js "resolution"). vm_compute. discriminate.
  - right; left; reflexivity.
  - intros k v. cbn. destruct (str_eqb_spec k "resolution") as [->|]; [|discriminate].
    intros [= <-]. reflexivity.
Defined.

Lemma preview_total_witness :
  exists r, evaluateTaskVisualConfig
      (TVConfig (taskMatrixToTiers str_cmp sampleMatrix sampleSchema)) sampleUsage
      sampleSchema = Some r
    /\ selectTier (TVConfig (taskMatrixToTiers str_cmp sampleMatrix sampleSchema))
         sampleUsage = Some (pr_tier r)
    /\ isFinite (total r) = true /\ parts_finite (pr_parts r)
    /\ total r = sum_amounts (pr_parts r).
Proof.
  eexists. split; [vm_compute; reflexivity|].
  apply (preview_total (TVConfig (taskMatrixToTiers str_cmp sampleMatrix sampleSchema))
    sampleUsage sampleSchema).
  vm_compute. reflexivity.
Defined.

Definition sampleTaskExpr : str :=
  jq "u('resolution') == '720p' ? tier('720p', u('seconds') * 1) : tier('1080p', u('seconds') * 3)".

Lemma parsed_matrix_rows_witness :
  exists config, tryParseTaskMatrixConfig str_cmp (Some sampleTaskExpr) sampleSchema
      = Some config
    /\ map combination (rows config) = getTaskEnumCombinations str_cmp (Some sampleSchema).
Proof.
  eexists. split; [vm_compute; reflexivity|].
  apply (parsed_matrix_rows str_cmp (Some sampleTaskExpr) sampleSchema).
  vm_compute. reflexivity.
Defined.
