(* ===== verification/DashboardFlow.v ===== *)
(** * The flow diagram of the dashboard

    Models [src/web/src/features/dashboard/lib/flow.ts]: rows of usage become
    paths through the stages that a role may see, paths become the nodes and
    links of a Sankey diagram, with filters, a limit on the nodes per stage,
    highlighting and masking; and
    [src/web/src/features/dashboard/lib/flow-selection.ts].

    The order of strings in the language of the browser ([localeCompare]), the
    number format of the runtime and the color schemes of the chart library are
    parameters.  A [Map] is a list of entries in the order of insertion. *)

From stdpp Require Import base list.
From Stdlib Require Import ZArith NArith Lia.
From S2P Require Import Prelude JsString JsArray JsNumber JsJson.

Local Open Scope Z_scope.

(** ** [Map] *)

Section JsMap.
Context {K A : Type} `{EqDecision K}.

Fixpoint map_get (k : K) (m : list (K * A)) : option A :=
  match m with
  | [] => None
  | (k', v) :: m' => if decide (k = k') then Some v else map_get k m'
  end.

Fixpoint map_set (k : K) (v : A) (m : list (K * A)) : list (K * A) :=
  match m with
  | [] => [(k, v)]
  | (k', v') :: m' => if decide (k = k') then (k', v) :: m' else (k', v') :: map_set k v m'
  end.

End JsMap.

(** ** Data *)

Record FlowQuotaDataItem : Type := MkRow {
  user_id : option num;
  username : option str;
  node_name : option str;
  use_group : option str;
  token_id : option num;
  token_name : option str;
  channel_id : option num;
  channel_name : option str;
  model_name : option str;
  uncached_input_tokens : option num;
  uncached_output_tokens : option num;
  cache_read_tokens : option num;
  cache_write_tokens : option num;
  row_count : option num;
  row_quota : option num;
}.

Inductive FlowMetric : Type := MQuota | MTokens | MRequests.
Inductive FlowOverflowMode : Type := Aggregate | Hide.
Inductive FlowRole : Type := RUser | RAdmin | RRoot.
Inductive FlowNodeKind : Type := KUser | KNode | KToken | KGroup | KModel | KChannel.

#[global] Instance FlowNodeKind_eq_dec : EqDecision FlowNodeKind.
Proof. solve_decision. Defined.

Definition kind_name (k : FlowNodeKind) : str :=
  match k with
  | KUser => "user" | KNode => "node" | KToken => "token"
  | KGroup => "group" | KModel => "model" | KChannel => "channel"
  end.

Record FlowMetrics : Type := MkMetrics { f_quota : num; f_tokens : num; f_requests : num }.

Record FlowPathNode : Type := MkPathNode { pn_id : str; pn_label : str; pn_kind : FlowNodeKind }.

Record PreparedFlowPath : Type := MkPrepared { pp_path : list FlowPathNode; pp_metrics : FlowMetrics }.

Record FlowNodeRank : Type := MkRank { rk_node : FlowPathNode; rk_value : num }.

Record FlowNodeFilter : Type := MkNodeFilter { nf_kind : FlowNodeKind; nf_id : str }.
Record FlowLinkSelection : Type := MkLinkSelection { ls_source : str; ls_target : str }.

Record DashboardFlowNode : Type := MkFlowNode {
  fn_id : str;
  fn_label : str;
  fn_kind : FlowNodeKind;
  fn_value : num;
  fn_metrics : FlowMetrics;
  fn_color : str;
  fn_colorKey : str;
  fn_highlighted : option bool;
  fn_dimmed : option bool;
}.

Record DashboardFlowLink : Type := MkFlowLink {
  fl_source : str;
  fl_target : str;
  fl_value : num;
  fl_metrics : FlowMetrics;
  fl_sourceLabel : str;
  fl_targetLabel : str;
  fl_color : str;
  fl_linkColor : str;
  fl_linkAlpha : num;
  fl_hoverColor : str;
  fl_colorKey : str;
  fl_share : num;
  fl_highlighted : option bool;
  fl_dimmed : option bool;
}.

Definition FLOW_NODE_KINDS : list FlowNodeKind := [KUser; KNode; KToken; KGroup; KModel; KChannel].

Definition OTHER_FLOW_NODE_IDS (k : FlowNodeKind) : str := kind_name k ++ ":__other__".

Definition DEFAULT_OTHER_FLOW_NODE_LABELS (k : FlowNodeKind) : str :=
  match k with
  | KUser => "Other users" | KNode => "Other nodes" | KToken => "Other tokens"
  | KGroup => "Other groups" | KModel => "Other models" | KChannel => "Other channels"
  end.

Definition SENSITIVE_FLOW_KINDS (k : FlowNodeKind) : bool :=
  match k with KModel => false | _ => true end.

Definition OTHER_FLOW_NODE_ID_SET : list str := map OTHER_FLOW_NODE_IDS FLOW_NODE_KINDS.

Definition DEFAULT_FLOW_CHART_COLOR : str := "#1664FF".

(** ** Rows *)

Definition numberValue (value : option num) : num :=
  match value with Some n => if isFinite n then n else num_zero | None => num_zero end.

Definition rowMetrics (row : FlowQuotaDataItem) : FlowMetrics :=
  MkMetrics (numberValue (row_quota row))
    (num_add (num_add (num_add (numberValue (uncached_input_tokens row))
       (numberValue (uncached_output_tokens row))) (numberValue (cache_read_tokens row)))
       (numberValue (cache_write_tokens row)))
    (numberValue (row_count row)).

Definition metricValue (metrics : FlowMetrics) (metric : FlowMetric) : num :=
  match metric with
  | MRequests => f_requests metrics
  | MTokens => f_tokens metrics
  | MQuota => f_quota metrics
  end.

Definition positive_num (n : num) : bool := num_lt num_zero n.

Definition userNode (row : FlowQuotaDataItem) : FlowPathNode :=
  let userID := numberValue (user_id row) in
  MkPathNode
    (if positive_num userID then "user:" ++ num_to_string userID
     else "user:" ++ ostr_or (username row) "unknown")
    (ostr_or (username row)
       (if positive_num userID then "user-" ++ num_to_string userID else js "Unknown User"))
    KUser.

Definition nodeNameNode (row : FlowQuotaDataItem) : FlowPathNode :=
  let nodeName := ostr_or (node_name row) "default-node" in
  MkPathNode ("node:" ++ nodeName) nodeName KNode.

(** [ctx.deletedTokenLabel]. *)
Definition FlowPathContext : Type := option (num -> str).

Definition deletedTokenLabel (tokenID : num) (ctx : FlowPathContext) : str :=
  if num_le tokenID num_zero then "Unknown Token"
  else match ctx with
       | Some f => f tokenID
       | None => "token-" ++ num_to_string tokenID
       end.

Definition tokenNode (row : FlowQuotaDataItem) (ctx : FlowPathContext) : FlowPathNode :=
  let tokenID := numberValue (token_id row) in
  MkPathNode
    (if positive_num tokenID then "token:" ++ num_to_string tokenID
     else "token:" ++ ostr_or (token_name row) "unknown")
    (ostr_or (token_name row) (deletedTokenLabel tokenID ctx)) KToken.

Definition groupNode (row : FlowQuotaDataItem) : FlowPathNode :=
  let useGroup := ostr_or (use_group row) "unknown" in
  MkPathNode ("group:" ++ useGroup) useGroup KGroup.

Definition modelNode (row : FlowQuotaDataItem) : FlowPathNode :=
  MkPathNode ("model:" ++ ostr_or (model_name row) "unknown") (ostr_or (model_name row) "Unknown Model") KModel.

Definition channelNode (row : FlowQuotaDataItem) : FlowPathNode :=
  let channelID := numberValue (channel_id row) in
  MkPathNode
    (if positive_num channelID then "channel:" ++ num_to_string channelID
     else "channel:" ++ ostr_or (channel_name row) "unknown")
    (ostr_or (channel_name row)
       (if positive_num channelID then "channel-" ++ num_to_string channelID else js "Unknown"))
    KChannel.

Definition NODE_BUILDERS (k : FlowNodeKind) (row : FlowQuotaDataItem) (ctx : FlowPathContext) : FlowPathNode :=
  match k with
  | KUser => userNode row
  | KNode => nodeNameNode row
  | KToken => tokenNode row ctx
  | KGroup => groupNode row
  | KModel => modelNode row
  | KChannel => channelNode row
  end.

(** ** Stages *)

Definition ROLE_FLOW_STAGES (role : FlowRole) : list FlowNodeKind :=
  match role with
  | RRoot => [KUser; KNode; KToken; KGroup; KModel; KChannel]
  | RAdmin => [KUser; KGroup; KModel; KChannel]
  | RUser => [KToken; KGroup; KModel]
  end.

Definition MIN_FLOW_STAGES : Z := 2.

Definition getFlowStages (role : FlowRole) : list FlowNodeKind := ROLE_FLOW_STAGES role.

Definition resolveVisibleStages (role : FlowRole) (visibleStages : option (list FlowNodeKind)) : list FlowNodeKind :=
  let stages := getFlowStages role in
  match visibleStages with
  | None => stages
  | Some visible =>
      let filtered := List.filter (fun stage => bool_decide (stage ∈ visible)) stages in
      if MIN_FLOW_STAGES <=? Z.of_nat (length filtered) then filtered else stages
  end.

Definition flowPathForStages (row : FlowQuotaDataItem) (stages : list FlowNodeKind) (ctx : FlowPathContext)
    : list FlowPathNode :=
  map (fun stage => NODE_BUILDERS stage row ctx) stages.

(** ** Filters *)

Definition filterRows (rows : list FlowQuotaDataItem) (selectedUsers : option (list str)) : list FlowQuotaDataItem :=
  let selected := nullish selectedUsers [] in
  if Z.of_nat (length selected) =? 0 then rows
  else List.filter (fun row => mem_str (pn_id (userNode row)) selected) rows.

Definition nodeFilterKey (filter : FlowNodeFilter) : str := kind_name (nf_kind filter) ++ [0%N] ++ nf_id filter.

(** The selected identifiers of each visible kind; a set is a list. *)
Definition normalizeSelectedNodeFilters (selectedNodes : option (list FlowNodeFilter)) (stages : list FlowNodeKind)
    : list (FlowNodeKind * list str) :=
  fold_left (fun filters filter =>
    if bool_decide (nf_kind filter ∈ stages)
    then map_set (nf_kind filter) (nullish (map_get (nf_kind filter) filters) [] ++ [nf_id filter]) filters
    else filters) (nullish selectedNodes []) [].

Definition pathNodesByKind (path : list FlowPathNode) : list (FlowNodeKind * list str) :=
  fold_left (fun m node =>
    map_set (pn_kind node) (nullish (map_get (pn_kind node) m) [] ++ [pn_id node]) m) path [].

Definition pathMatchesNodeFilters (path : list FlowPathNode) (filters : list (FlowNodeKind * list str)) : bool :=
  if Z.of_nat (length filters) =? 0 then true
  else
    let byKind := pathNodesByKind path in
    forallb (fun kf =>
      match map_get (fst kf) byKind with
      | None => false
      | Some pathIds => existsb (fun id => mem_str id pathIds) (snd kf)
      end) filters.

Definition filterRowsByNodes (rows : list FlowQuotaDataItem) (selectedNodes : option (list FlowNodeFilter))
    (stages : list FlowNodeKind) (ctx : FlowPathContext) : list FlowQuotaDataItem :=
  let filters := normalizeSelectedNodeFilters selectedNodes stages in
  if Z.of_nat (length filters) =? 0 then rows
  else List.filter (fun row => pathMatchesNodeFilters (flowPathForStages row stages ctx) filters) rows.

Definition selectedNodeFiltersExceptKind (selectedNodes : option (list FlowNodeFilter)) (kind : FlowNodeKind)
    : option (list FlowNodeFilter) :=
  let filtered := List.filter (fun filter => negb (bool_decide (nf_kind filter = kind))) (nullish selectedNodes []) in
  if 0 <? Z.of_nat (length filtered) then Some filtered else None.

(** ** Totals *)

Record FlowSummary : Type := MkSummary { sum_quota : num; sum_tokens : num; sum_requests : num }.

Definition buildSummary (rows : list FlowQuotaDataItem) : FlowSummary :=
  fold_left (fun summary row =>
    let metrics := rowMetrics row in
    MkSummary (num_add (sum_quota summary) (f_quota metrics)) (num_add (sum_tokens summary) (f_tokens metrics))
      (num_add (sum_requests summary) (f_requests metrics)))
    rows (MkSummary num_zero num_zero num_zero).

Definition zero_metrics : FlowMetrics := MkMetrics num_zero num_zero num_zero.

Definition add_metrics (a b : FlowMetrics) : FlowMetrics :=
  MkMetrics (num_add (f_quota a) (f_quota b)) (num_add (f_tokens a) (f_tokens b))
    (num_add (f_requests a) (f_requests b)).

Definition addNode (m : list (str * DashboardFlowNode)) (pathNode : FlowPathNode) (metrics : FlowMetrics)
    (metric : FlowMetric) (color colorKey : str) : list (str * DashboardFlowNode) :=
  let previous := nullish (map_get (pn_id pathNode) m)
    (MkFlowNode (pn_id pathNode) (pn_label pathNode) (pn_kind pathNode) num_zero zero_metrics color colorKey None None) in
  map_set (pn_id pathNode)
    (MkFlowNode (fn_id previous) (fn_label previous) (fn_kind previous)
       (num_add (fn_value previous) (metricValue metrics metric)) (add_metrics (fn_metrics previous) metrics)
       (fn_color previous) (fn_colorKey previous) (fn_highlighted previous) (fn_dimmed previous)) m.

Definition pathLinkKey (source target : FlowPathNode) : str := pn_id source ++ [0%N] ++ pn_id target.

Definition addLink (m : list (str * DashboardFlowLink)) (source target : FlowPathNode) (metrics : FlowMetrics)
    (metric : FlowMetric) (color colorKey : str) : list (str * DashboardFlowLink) :=
  let key := pathLinkKey source target in
  let previous := nullish (map_get key m)
    (MkFlowLink (pn_id source) (pn_id target) num_zero zero_metrics (pn_label source) (pn_label target)
       color color (num_of_Z 1) color colorKey num_zero None None) in
  map_set key
    (MkFlowLink (fl_source previous) (fl_target previous)
       (num_add (fl_value previous) (metricValue metrics metric)) (add_metrics (fl_metrics previous) metrics)
       (fl_sourceLabel previous) (fl_targetLabel previous) (fl_color previous) (fl_linkColor previous)
       (fl_linkAlpha previous) (fl_hoverColor previous) (fl_colorKey previous) (fl_share previous)
       (fl_highlighted previous) (fl_dimmed previous)) m.

(** [for (let i = 0; i < path.length - 1; i++)] on neighbours. *)
Fixpoint path_links (path : list FlowPathNode) : list (FlowPathNode * FlowPathNode) :=
  match path with
  | a :: ((b :: _) as rest) => (a, b) :: path_links rest
  | _ => []
  end.

(** ** The limit on nodes *)

(** [Math.floor(x)] of a finite number. *)
Definition floor_Z (x : num) : Z :=
  if num_lt x num_zero && negb (isInteger x) then trunc_Z x - 1 else trunc_Z x.

Definition normalizeTopNodeLimit (limit : option num) : option Z :=
  match limit with
  | None => None
  | Some limit => if isFinite limit && (0 <? floor_Z limit) then Some (floor_Z limit) else None
  end.

Definition otherFlowNode (kind : FlowNodeKind) (labeler : option (FlowNodeKind -> str)) : FlowPathNode :=
  MkPathNode (OTHER_FLOW_NODE_IDS kind)
    (match labeler with Some f => f kind | None => DEFAULT_OTHER_FLOW_NODE_LABELS kind end) kind.

Definition TopNodeSets : Type := option (list (FlowNodeKind * list str)).

Definition isTopFlowNode (node : FlowPathNode) (topNodeSets : TopNodeSets) : bool :=
  match topNodeSets with
  | None => true
  | Some sets => match map_get (pn_kind node) sets with
                 | None => true
                 | Some topNodes => mem_str (pn_id node) topNodes
                 end
  end.

Definition applyTopNodeLimit (path : list FlowPathNode) (topNodeSets : TopNodeSets) (mode : FlowOverflowMode)
    (labeler : option (FlowNodeKind -> str)) : option (list FlowPathNode) :=
  match topNodeSets with
  | None => Some path
  | Some _ =>
      if negb (existsb (fun node => negb (isTopFlowNode node topNodeSets)) path) then Some path
      else match mode with
           | Hide => None
           | Aggregate =>
               Some (map (fun node => if isTopFlowNode node topNodeSets then node
                                      else otherFlowNode (pn_kind node) labeler) path)
           end
  end.

(** ** Orders

    A comparison that returns a number is used by its sign; [a || b] of two
    comparisons goes on when the first is [0] or not a number. *)

Definition num_sign (x : num) : Z :=
  if num_lt x num_zero then -1 else if num_lt num_zero x then 1 else 0.

Definition cmp_or (a b : Z) : Z := if a =? 0 then b else a.

(** [b - a] as a comparison. *)
Definition cmp_desc (a b : num) : Z := num_sign (num_sub b a).

Section Flow.
Variable localeCompare : str -> str -> Z.
Variable formatNumber : num -> str.

(** The default data scheme of the chart library: the length of the domain up
    to which a scheme is meant, and its colors ([None] for a color that is not
    a string). *)
Variable vchartDefaultDataScheme : list (option num * list (option str)).

Definition linkStableKey (link : DashboardFlowLink) : str := fl_source link ++ [0%N] ++ fl_target link.

Definition byValueThenLabel (a b : DashboardFlowNode) : Z :=
  cmp_or (cmp_desc (fn_value a) (fn_value b)) (localeCompare (fn_label a) (fn_label b)).

(** ** Colors *)

Definition getDashboardChartColors (domainLength : Z) : list str :=
  let fits item := match fst item with
                   | None => true
                   | Some n => negb (truthy_num n) || num_le (num_of_Z domainLength) n
                   end in
  match (match find fits vchartDefaultDataScheme with
         | Some item => Some item
         | None => last vchartDefaultDataScheme
         end) with
  | None => []
  | Some item => omap id (snd item)
  end.

(** [palette && palette.length > 0 ? palette : colors]. *)
Definition palette_or (palette : option (list str)) (colors : list str) : list str :=
  match palette with
  | Some ((_ :: _) as p) => p
  | _ => colors
  end.

Definition colorAt (index : Z) (palette : option (list str)) : str :=
  let colors := palette_or palette (getDashboardChartColors (index + 1)) in
  if Z.of_nat (length colors) =? 0 then DEFAULT_FLOW_CHART_COLOR
  else nullish (colors !! Z.to_nat (index mod Z.of_nat (length colors))) DEFAULT_FLOW_CHART_COLOR.

Definition colorPalette (colorCount : Z) (palette : option (list str)) : list str :=
  match palette with
  | Some ((_ :: _) as p) => p
  | _ =>
      let colors := getDashboardChartColors colorCount in
      if 0 <? Z.of_nat (length colors) then colors else [DEFAULT_FLOW_CHART_COLOR]
  end.

Definition stableColorMap (keys : list str) (palette : option (list str)) : list (str * str) :=
  let uniqueKeys := dedupe keys in
  let colors := colorPalette (Z.of_nat (length uniqueKeys)) palette in
  imap (fun index key => (key, colorAt (Z.of_nat index) (Some colors))) uniqueKeys.

(** [/^[0-9a-f]{6}$/i.test(hex)]. *)
Definition is_hex_color (hex : str) : bool :=
  (Z.of_nat (length hex) =? 6) && forallb (fun c => match hex_value c with Some _ => true | None => false end) hex.

Definition alphaColor (color : str) (alpha : num) : str * num :=
  let normalized := trim color in
  let hex := if startsWith normalized "#" then slice_from normalized 1 else normalized in
  if negb (is_hex_color hex) then (normalized, alpha)
  else
    let value := nullish (radix_value 16 0 hex) 0 in
    let red := Z.land (Z.shiftr value 16) 255 in
    let green := Z.land (Z.shiftr value 8) 255 in
    let blue := Z.land value 255 in
    ("rgba(" ++ string_of_Z red ++ ", " ++ string_of_Z green ++ ", " ++ string_of_Z blue ++ ", "
       ++ toFixed alpha 2 ++ ")", num_of_Z 1).

(** The links of each source, in the order in which sources appear. *)
Definition linksBySource (links : list DashboardFlowLink) : list (str * list DashboardFlowLink) :=
  fold_left (fun m link => map_set (fl_source link) (nullish (map_get (fl_source link) m) [] ++ [link]) m) links [].

Definition byValueThenKey (a b : DashboardFlowLink) : Z :=
  cmp_or (cmp_desc (fl_value a) (fl_value b)) (localeCompare (linkStableKey a) (linkStableKey b)).

(** The display color of each link, by its key. *)
Definition displayColors (links : list DashboardFlowLink) : list (str * (str * num)) :=
  concat (map (fun entry =>
    let sortedLinks := sort_by byValueThenKey (snd entry) in
    let len := Z.of_nat (length sortedLinks) in
    let denominator := Z.max (len - 1) 1 in
    imap (fun index link =>
      let alpha :=
        if len =? 1 then Number "0.34"
        else num_add (Number "0.24")
               (num_mul (num_div (num_of_Z (Z.of_nat index)) (num_of_Z denominator)) (Number "0.2")) in
      (linkStableKey link, alphaColor (fl_color link) alpha)) sortedLinks) (linksBySource links)).

Definition set_display (d : option (str * num)) (l : DashboardFlowLink) : DashboardFlowLink :=
  match d with
  | None => l
  | Some (color, alpha) =>
      MkFlowLink (fl_source l) (fl_target l) (fl_value l) (fl_metrics l) (fl_sourceLabel l) (fl_targetLabel l)
        (fl_color l) color alpha (fl_color l) (fl_colorKey l) (fl_share l) (fl_highlighted l) (fl_dimmed l)
  end.

Definition assignLinkDisplayColors (links : list DashboardFlowLink) : list DashboardFlowLink :=
  let colors := displayColors links in
  map (fun link => set_display (map_get (linkStableKey link) colors) link) links.

(** ** The nodes with the largest totals *)

Definition addRank (value : num) (totals : list (FlowNodeKind * list (str * FlowNodeRank))) (node : FlowPathNode)
    : list (FlowNodeKind * list (str * FlowNodeRank)) :=
  match map_get (pn_kind node) totals with
  | None => totals
  | Some stageTotals =>
      let current := nullish (map_get (pn_id node) stageTotals) (MkRank node num_zero) in
      map_set (pn_kind node)
        (map_set (pn_id node) (MkRank (rk_node current) (num_add (rk_value current) value)) stageTotals) totals
  end.

Definition byRank (a b : FlowNodeRank) : Z :=
  cmp_or (cmp_desc (rk_value a) (rk_value b))
    (cmp_or (localeCompare (pn_label (rk_node a)) (pn_label (rk_node b)))
       (localeCompare (pn_id (rk_node a)) (pn_id (rk_node b)))).

Definition stageTotals (rows : list FlowQuotaDataItem) (metric : FlowMetric) (stages : list FlowNodeKind)
    (ctx : FlowPathContext) : list (FlowNodeKind * list (str * FlowNodeRank)) :=
  fold_left (fun totals row =>
    fold_left (addRank (metricValue (rowMetrics row) metric)) (flowPathForStages row stages ctx) totals)
    rows (fold_left (fun m stage => map_set stage [] m) stages []).

Definition buildTopNodeSets (rows : list FlowQuotaDataItem) (metric : FlowMetric) (stages : list FlowNodeKind)
    (limit : option Z) (ctx : FlowPathContext) : TopNodeSets :=
  match limit with
  | None => None
  | Some limit =>
      Some (fold_left (fun topSets entry =>
        map_set (fst entry)
          (map (fun rank => pn_id (rk_node rank)) (slice (sort_by byRank (map snd (snd entry))) 0 limit)) topSets)
        (stageTotals rows metric stages ctx) [])
  end.

(** ** Highlighting *)

Definition pathContainsFlowNode (path : list FlowPathNode) (filter : FlowNodeFilter) : bool :=
  existsb (fun node => bool_decide (pn_kind node = nf_kind filter) && (pn_id node =?s nf_id filter)) path.

Definition pathContainsFlowLink (path : list FlowPathNode) (link : FlowLinkSelection) : bool :=
  existsb (fun ab => (pn_id (fst ab) =?s ls_source link) && (pn_id (snd ab) =?s ls_target link)) (path_links path).

Record FlowHighlightSets : Type := MkHighlight { hl_nodes : list str; hl_links : list str }.

Definition buildFlowHighlightSets (preparedPaths : list PreparedFlowPath) (activeNode : option FlowNodeFilter)
    (activeLink : option FlowLinkSelection) (stages : list FlowNodeKind) : option FlowHighlightSets :=
  let nodeActive := match activeNode with Some n => bool_decide (nf_kind n ∈ stages) | None => false end in
  let linkActive := match activeLink with Some _ => true | None => false end in
  if negb nodeActive && negb linkActive then None
  else
    let matchesPath path :=
      match activeLink with
      | Some link => pathContainsFlowLink path link
      | None => match activeNode with Some n => pathContainsFlowNode path n | None => false end
      end in
    let matching := List.filter (fun prepared => matchesPath (pp_path prepared)) preparedPaths in
    let nodes := dedupe (concat (map (fun prepared => map pn_id (pp_path prepared)) matching)) in
    let links := dedupe (concat (map (fun prepared =>
      map (fun ab => pathLinkKey (fst ab) (snd ab)) (path_links (pp_path prepared))) matching)) in
    if Z.of_nat (length nodes) =? 0 then None else Some (MkHighlight nodes links).

Definition highlight_node (h : FlowHighlightSets) (n : DashboardFlowNode) : DashboardFlowNode :=
  let highlighted := mem_str (fn_id n) (hl_nodes h) in
  MkFlowNode (fn_id n) (fn_label n) (fn_kind n) (fn_value n) (fn_metrics n) (fn_color n) (fn_colorKey n)
    (Some highlighted) (Some (negb highlighted)).

Definition highlight_link (h : FlowHighlightSets) (l : DashboardFlowLink) : DashboardFlowLink :=
  let highlighted := mem_str (linkStableKey l) (hl_links h) in
  MkFlowLink (fl_source l) (fl_target l) (fl_value l) (fl_metrics l) (fl_sourceLabel l) (fl_targetLabel l)
    (fl_color l) (fl_linkColor l) (fl_linkAlpha l) (fl_hoverColor l) (fl_colorKey l) (fl_share l)
    (Some highlighted) (Some (negb highlighted)).

Definition applyFlowHighlights (nodes : list (str * DashboardFlowNode)) (links : list (str * DashboardFlowLink))
    (highlightSets : option FlowHighlightSets) : list (str * DashboardFlowNode) * list (str * DashboardFlowLink) :=
  match highlightSets with
  | None => (nodes, links)
  | Some h => (map (fun kn => (fst kn, highlight_node h (snd kn))) nodes,
               map (fun kl => (fst kl, highlight_link h (snd kl))) links)
  end.

(** ** Masking *)

Definition FLOW_MASK_TEXT : str := [8226%N; 8226%N; 8226%N; 8226%N].

Definition maskFlowLabel (label : str) : str :=
  if Z.of_nat (length label) =? 0 then label else FLOW_MASK_TEXT.

Definition to_mask (n : DashboardFlowNode) : bool :=
  SENSITIVE_FLOW_KINDS (fn_kind n) && negb (mem_str (fn_id n) OTHER_FLOW_NODE_ID_SET).

Definition mask_node (n : DashboardFlowNode) : DashboardFlowNode :=
  if to_mask n
  then MkFlowNode (fn_id n) (maskFlowLabel (fn_label n)) (fn_kind n) (fn_value n) (fn_metrics n) (fn_color n)
         (fn_colorKey n) (fn_highlighted n) (fn_dimmed n)
  else n.

(** The masked label of each node that is masked. *)
Definition maskedById (nodes : list (str * DashboardFlowNode)) : list (str * str) :=
  fold_left (fun m kn => if to_mask (snd kn) then map_set (fn_id (snd kn)) (maskFlowLabel (fn_label (snd kn))) m else m)
    nodes [].

Definition mask_link (masked : list (str * str)) (l : DashboardFlowLink) : DashboardFlowLink :=
  MkFlowLink (fl_source l) (fl_target l) (fl_value l) (fl_metrics l)
    (nullish (map_get (fl_source l) masked) (fl_sourceLabel l))
    (nullish (map_get (fl_target l) masked) (fl_targetLabel l))
    (fl_color l) (fl_linkColor l) (fl_linkAlpha l) (fl_hoverColor l) (fl_colorKey l) (fl_share l)
    (fl_highlighted l) (fl_dimmed l).

Definition maskFlowGraphLabels (nodes : list (str * DashboardFlowNode)) (links : list (str * DashboardFlowLink))
    : list (str * DashboardFlowNode) * list (str * DashboardFlowLink) :=
  let masked := maskedById nodes in
  (map (fun kn => (fst kn, mask_node (snd kn))) nodes,
   if Z.of_nat (length masked) =? 0 then links else map (fun kl => (fst kl, mask_link masked (snd kl))) links).

(** ** The graph *)

Record FlowGraphOptions : Type := MkGraphOptions {
  topNodeLimit : option num;
  overflowMode : option FlowOverflowMode;
  otherNodeLabel : option (FlowNodeKind -> str);
  activeNode : option FlowNodeFilter;
  activeLink : option FlowLinkSelection;
  maskSensitive : bool;
}.

Definition preparePaths (rows : list FlowQuotaDataItem) (metric : FlowMetric) (stages : list FlowNodeKind)
    (ctx : FlowPathContext) (options : FlowGraphOptions) : list PreparedFlowPath :=
  let topNodeSets := buildTopNodeSets rows metric stages (normalizeTopNodeLimit (topNodeLimit options)) ctx in
  omap (fun row =>
    match applyTopNodeLimit (flowPathForStages row stages ctx) topNodeSets
            (nullish (overflowMode options) Aggregate) (otherNodeLabel options) with
    | None => None
    | Some path => Some (MkPrepared path (rowMetrics row))
    end) rows.

(** [preparedPaths.map((p) => p.path[0]?.id).filter(Boolean)]. *)
Definition rootIds (preparedPaths : list PreparedFlowPath) : list str :=
  filter_truthy (omap (fun prepared => pn_id <$> head (pp_path prepared)) preparedPaths).

(** The nodes and links of a path. *)
Definition addPath (metric : FlowMetric) (colors : list (str * str)) (palette : option (list str))
    (acc : list (str * DashboardFlowNode) * list (str * DashboardFlowLink)) (prepared : PreparedFlowPath)
    : list (str * DashboardFlowNode) * list (str * DashboardFlowLink) :=
  match pp_path prepared with
  | [] => acc
  | root :: _ =>
      let color := nullish (map_get (pn_id root) colors) (colorAt 0 palette) in
      (fold_left (fun m node => addNode m node (pp_metrics prepared) metric color (pn_id root))
         (pp_path prepared) (fst acc),
       fold_left (fun m ab => addLink m (fst ab) (snd ab) (pp_metrics prepared) metric color (pn_id root))
         (path_links (pp_path prepared)) (snd acc))
  end.

Definition buildMaps (preparedPaths : list PreparedFlowPath) (metric : FlowMetric) (palette : option (list str))
    : list (str * DashboardFlowNode) * list (str * DashboardFlowLink) :=
  let colors := stableColorMap (sort_by localeCompare (rootIds preparedPaths)) palette in
  fold_left (addPath metric colors palette) preparedPaths ([], []).

Definition set_share (total : num) (l : DashboardFlowLink) : DashboardFlowLink :=
  MkFlowLink (fl_source l) (fl_target l) (fl_value l) (fl_metrics l) (fl_sourceLabel l) (fl_targetLabel l)
    (fl_color l) (fl_linkColor l) (fl_linkAlpha l) (fl_hoverColor l) (fl_colorKey l)
    (if positive_num total then num_div (fl_value l) total else num_zero)
    (fl_highlighted l) (fl_dimmed l).

Definition bySourceThenTarget (a b : DashboardFlowLink) : Z :=
  cmp_or (localeCompare (fl_source a) (fl_source b)) (localeCompare (fl_target a) (fl_target b)).

Record DashboardFlowGraph : Type := MkGraph {
  g_nodes : list DashboardFlowNode;
  g_links : list DashboardFlowLink;
}.

(** Masking and highlighting of the maps. *)
Definition decorate (preparedPaths : list PreparedFlowPath) (stages : list FlowNodeKind) (options : FlowGraphOptions)
    (maps : list (str * DashboardFlowNode) * list (str * DashboardFlowLink))
    : list (str * DashboardFlowNode) * list (str * DashboardFlowLink) :=
  let maps := if maskSensitive options then maskFlowGraphLabels (fst maps) (snd maps) else maps in
  applyFlowHighlights (fst maps) (snd maps)
    (buildFlowHighlightSets preparedPaths (activeNode options) (activeLink options) stages).

(** The links in order, with their shares and colors. *)
Definition finishLinks (preparedPaths : list PreparedFlowPath) (links : list DashboardFlowLink) : list DashboardFlowLink :=
  let flowLinks := sort_by bySourceThenTarget links in
  let firstStepSources := rootIds preparedPaths in
  let total := fold_left (fun sum link => num_add sum (fl_value link))
    (List.filter (fun link => mem_str (fl_source link) firstStepSources) flowLinks) num_zero in
  assignLinkDisplayColors (map (set_share total) flowLinks).

Definition buildFlowGraph (rows : list FlowQuotaDataItem) (metric : FlowMetric) (role : FlowRole)
    (palette : option (list str)) (visibleStages : option (list FlowNodeKind)) (ctx : FlowPathContext)
    (options : FlowGraphOptions) : DashboardFlowGraph :=
  let stages := resolveVisibleStages role visibleStages in
  let preparedPaths := preparePaths rows metric stages ctx options in
  let maps := decorate preparedPaths stages options (buildMaps preparedPaths metric palette) in
  MkGraph (sort_by byValueThenLabel (map snd (fst maps))) (finishLinks preparedPaths (map snd (snd maps))).

(** ** The options of the filters *)

Record FlowUserFilterOption : Type := MkUserOption {
  uo_value : str;
  uo_label : str;
  uo_valueLabel : str;
  uo_valueRaw : num;
  uo_color : str;
}.

Record FlowNodeFilterOption : Type := MkNodeOption {
  no_kind : FlowNodeKind;
  no_value : str;
  no_label : str;
  no_valueLabel : str;
  no_valueRaw : num;
  no_color : str;
}.

(** [!row.user_id && !row.username]. *)
Definition anonymous (row : FlowQuotaDataItem) : bool :=
  negb (match user_id row with Some n => truthy_num n | None => false end)
  && negb (truthy_str (ostr_or (username row) [])).

Definition buildUserFilterOptions (rows : list FlowQuotaDataItem) (metric : FlowMetric) (palette : option (list str))
    : list FlowUserFilterOption :=
  let colors := stableColorMap (sort_by localeCompare (map (fun row => pn_id (userNode row)) rows)) palette in
  let users := fold_left (fun users row =>
    if anonymous row then users
    else
      let user := userNode row in
      let '(label, value, color) := nullish (map_get (pn_id user) users)
        (pn_label user, num_zero, nullish (map_get (pn_id user) colors) (colorAt 0 palette)) in
      map_set (pn_id user) (label, num_add value (metricValue (rowMetrics row) metric), color) users) rows [] in
  sort_by (fun a b => cmp_or (cmp_desc (uo_valueRaw a) (uo_valueRaw b)) (localeCompare (uo_label a) (uo_label b)))
    (map (fun '(value, (label, total, color)) => MkUserOption value label (formatNumber total) total color) users).

(** The options of a stage, before they are ordered. *)
Definition stageOptions (rows : list FlowQuotaDataItem) (metric : FlowMetric) (stages : list FlowNodeKind)
    (palette : option (list str)) (colors : list (str * str)) (ctx : FlowPathContext)
    (selectedNodes : option (list FlowNodeFilter)) (stage : FlowNodeKind) : list FlowNodeFilterOption :=
  let candidateRows := filterRowsByNodes rows (selectedNodeFiltersExceptKind selectedNodes stage) stages ctx in
  let totals := fold_left (fun totals row =>
    let node := NODE_BUILDERS stage row ctx in
    let key := nodeFilterKey (MkNodeFilter (pn_kind node) (pn_id node)) in
    let current := nullish (map_get key totals) (MkRank node num_zero) in
    map_set key (MkRank (rk_node current) (num_add (rk_value current) (metricValue (rowMetrics row) metric))) totals)
    candidateRows [] in
  map (fun entry =>
    let rank := snd entry in
    MkNodeOption (pn_kind (rk_node rank)) (pn_id (rk_node rank)) (pn_label (rk_node rank))
      (formatNumber (rk_value rank)) (rk_value rank)
      (nullish (map_get (pn_id (rk_node rank)) colors) (colorAt 0 palette))) totals.

Definition stage_index (stages : list FlowNodeKind) (k : FlowNodeKind) : Z :=
  match findIndex (fun s => bool_decide (s = k)) stages with Some i => Z.of_nat i | None => 0 end.

Definition buildNodeFilterOptions (rows : list FlowQuotaDataItem) (metric : FlowMetric) (role : FlowRole)
    (visibleStages : option (list FlowNodeKind)) (palette : option (list str)) (ctx : FlowPathContext)
    (selectedNodes : option (list FlowNodeFilter)) : list FlowNodeFilterOption :=
  let stages := resolveVisibleStages role visibleStages in
  let colorIds := dedupe (concat (map (fun row => map pn_id (flowPathForStages row stages ctx)) rows)) in
  let colors := stableColorMap (sort_by localeCompare colorIds) palette in
  sort_by (fun a b =>
    cmp_or (stage_index stages (no_kind a) - stage_index stages (no_kind b))
      (cmp_or (cmp_desc (no_valueRaw a) (no_valueRaw b))
         (cmp_or (localeCompare (no_label a) (no_label b)) (localeCompare (no_value a) (no_value b)))))
    (concat (map (stageOptions rows metric stages palette colors ctx selectedNodes) stages)).

Record FlowFilterOptions : Type := MkFilterOptions {
  fo_users : list FlowUserFilterOption;
  fo_nodes : list FlowNodeFilterOption;
}.

Definition buildFlowFilterOptions (rows : list FlowQuotaDataItem) (metric : FlowMetric) (palette : option (list str))
    (role : FlowRole) (visibleStages : option (list FlowNodeKind)) (selectedNodes : option (list FlowNodeFilter))
    : FlowFilterOptions :=
  MkFilterOptions (buildUserFilterOptions rows metric palette)
    (buildNodeFilterOptions rows metric role visibleStages palette None selectedNodes).

(** ** The data of the diagram *)

Record FlowBuildOptions : Type := MkBuildOptions {
  bo_role : option FlowRole;
  bo_selectedUsers : option (list str);
  bo_selectedNodes : option (list FlowNodeFilter);
  bo_colorPalette : option (list str);
  bo_visibleStages : option (list FlowNodeKind);
  bo_deletedTokenLabel : FlowPathContext;
  bo_graph : FlowGraphOptions;
}.

Record ProcessedFlowData : Type := MkFlowData {
  fd_summary : FlowSummary;
  fd_flow : DashboardFlowGraph;
  fd_filterOptions : FlowFilterOptions;
}.

Definition buildDashboardFlowData (rows : list FlowQuotaDataItem) (metric : FlowMetric) (options : FlowBuildOptions)
    : ProcessedFlowData :=
  let role := nullish (bo_role options) RUser in
  let palette := bo_colorPalette options in
  let ctx := bo_deletedTokenLabel options in
  let stages := resolveVisibleStages role (bo_visibleStages options) in
  let userFilteredRows := filterRows rows (bo_selectedUsers options) in
  let filteredRows := filterRowsByNodes userFilteredRows (bo_selectedNodes options) stages ctx in
  MkFlowData (buildSummary filteredRows)
    (buildFlowGraph filteredRows metric role palette (bo_visibleStages options) ctx (bo_graph options))
    (MkFilterOptions (buildUserFilterOptions rows metric palette)
       (buildNodeFilterOptions userFilteredRows metric role (bo_visibleStages options) palette ctx
          (bo_selectedNodes options))).

End Flow.

(** ** Selections ([flow-selection.ts]) *)

(** [response.success], [data], [message]; the exception carries the message. *)
Definition requireSuccessfulFlowRows (success : bool) (data : option (list FlowQuotaDataItem)) (message : option str)
    (fallbackMessage : str) : str + list FlowQuotaDataItem :=
  if negb success then inl (ostr_or message fallbackMessage) else inr (nullish data []).

Inductive FlowDisplayState : Type := Loading | Failed | Empty | Chart.

Definition flowDisplayState (isLoading isError : bool) (linkCount : Z) (themeReady : bool) : FlowDisplayState :=
  if isLoading then Loading
  else if isError then Failed
  else if linkCount =? 0 then Empty
  else if negb themeReady then Loading
  else Chart.

Definition compactFlowSelectionLabel (count : Z) : str := if 0 <? count then string_of_Z count else "*".

Definition visibleFlowUsers (users : list FlowUserFilterOption) (selectedUsers : list str) : list FlowUserFilterOption :=
  if Z.of_nat (length selectedUsers) =? 0 then users
  else List.filter (fun user => mem_str (uo_value user) selectedUsers) users.
