(* ===== verification/DashboardFlowLaws.v ===== *)
(** * Laws of the flow diagram

    Proofs about [DashboardFlow]: the values of nodes and links are the sums
    over exactly the rows that pass through them, every row is counted once in
    every column and on one link out of every node, the limit on nodes bounds
    the columns, the filters keep the rows that they describe, and masking hides
    the labels and changes nothing else. *)

From stdpp Require Import base list.
From Stdlib Require Import ZArith NArith Lia.
From S2P Require Import Prelude JsString JsArray JsNumber JsJson DashboardFlow.

Local Open Scope Z_scope.

(** ** Maps *)

Section MapLaws.
Context {K A : Type} `{EqDecision K}.
Implicit Types m : list (K * A).

Lemma map_get_after_set (k k' : K) (v : A) m :
  map_get k' (map_set k v m) = if decide (k' = k) then Some v else map_get k' m.
Proof.
  induction m as [|[j w] m IH]; cbn; [done|].
  destruct (decide (k = j)) as [->|Hj]; cbn.
  - destruct (decide (k' = j)); done.
  - rewrite IH. destruct (decide (k' = j)) as [->|]; [|done]. by rewrite decide_False.
Qed.

Lemma map_get_None (k : K) m : map_get k m = None <-> k ∉ map fst m.
Proof.
  induction m as [|[j w] m IH]; cbn; [by split; [intros _ []%not_elem_of_nil|]|].
  rewrite not_elem_of_cons. destruct (decide (k = j)); [split; [done|naive_solver]|].
  rewrite IH. naive_solver.
Qed.

Lemma map_get_In (k : K) (v : A) m : map_get k m = Some v -> (k, v) ∈ m.
Proof.
  induction m as [|[j w] m IH]; cbn; [done|]. destruct (decide (k = j)) as [->|].
  - intros [= ->]. left.
  - intros H. right. auto.
Qed.

Lemma map_get_nodup (k : K) (v : A) m : NoDup (map fst m) -> (k, v) ∈ m -> map_get k m = Some v.
Proof.
  induction m as [|[j w] m IH]; cbn; [by intros _ ?%not_elem_of_nil|].
  intros Hd Hin. inversion Hd as [|? ? Hj Hm]; subst. apply elem_of_cons in Hin as [[= <- <-]|Hin].
  - by rewrite decide_True.
  - rewrite decide_False; [auto|]. intros ->. apply Hj.
    change j with (fst (j, v)). by apply list_elem_of_fmap_2.
Qed.

Lemma map_set_keys (k : K) (v : A) m :
  map fst (map_set k v m) = if decide (k ∈ map fst m) then map fst m else map fst m ++ [k].
Proof.
  induction m as [|[j w] m IH]; cbn; [by rewrite decide_False by apply not_elem_of_nil|].
  destruct (decide (k = j)) as [->|Hj]; cbn.
  - rewrite decide_True; [done|left].
  - rewrite IH. destruct (decide (k ∈ map fst m)) as [Hin|Hin].
    + rewrite decide_True; [done|by right].
    + rewrite decide_False; [done|]. by apply not_elem_of_cons.
Qed.

Lemma map_set_nodup (k : K) (v : A) m : NoDup (map fst m) -> NoDup (map fst (map_set k v m)).
Proof.
  intros Hm. rewrite map_set_keys. destruct (decide _); [done|]. apply NoDup_app. split_and!; [done| |apply NoDup_singleton].
  intros x Hx Hx'. apply list_elem_of_singleton in Hx' as ->. done.
Qed.

Lemma map_set_in (k j : K) (v : A) m : j ∈ map fst (map_set k v m) <-> j = k \/ j ∈ map fst m.
Proof.
  rewrite map_set_keys. destruct (decide _); [naive_solver|]. rewrite elem_of_app, list_elem_of_singleton. naive_solver.
Qed.

End MapLaws.

(** ** Identifiers tell the kind *)

Definition kind_prefix (k : FlowNodeKind) : str := kind_name k ++ ":".

Definition of_kind (n : FlowPathNode) : Prop := exists s, pn_id n = kind_prefix (pn_kind n) ++ s.

Lemma kind_prefix_inj (k k' : FlowNodeKind) (s s' : str) :
  kind_prefix k ++ s = kind_prefix k' ++ s' -> k = k'.
Proof. destruct k, k'; try done; vm_compute; intros H; inversion H. Qed.

Lemma builder_kind (k : FlowNodeKind) (row : FlowQuotaDataItem) (ctx : FlowPathContext) :
  pn_kind (NODE_BUILDERS k row ctx) = k.
Proof. by destruct k. Qed.

Lemma builder_of_kind (k : FlowNodeKind) (row : FlowQuotaDataItem) (ctx : FlowPathContext) :
  of_kind (NODE_BUILDERS k row ctx).
Proof.
  unfold of_kind. rewrite builder_kind. destruct k; cbn [NODE_BUILDERS]; unfold userNode, nodeNameNode, tokenNode,
    groupNode, modelNode, channelNode; cbn [pn_id]; try case_match; by eexists.
Qed.

Lemma other_of_kind (k : FlowNodeKind) (labeler : option (FlowNodeKind -> str)) : of_kind (otherFlowNode k labeler).
Proof. exists "__other__". by destruct k. Qed.

Lemma of_kind_id (n n' : FlowPathNode) : of_kind n -> of_kind n' -> pn_id n = pn_id n' -> pn_kind n = pn_kind n'.
Proof. intros [s Hs] [s' Hs'] H. rewrite Hs, Hs' in H. by eapply kind_prefix_inj. Qed.

(** ** Prepared paths *)

(** A path has one node of each stage, in the order of the stages. *)
Record path_ok (stages : list FlowNodeKind) (path : list FlowPathNode) : Prop := {
  po_kinds : map pn_kind path = stages;
  po_ids : Forall of_kind path;
}.

Lemma flowPath_ok (row : FlowQuotaDataItem) (stages : list FlowNodeKind) (ctx : FlowPathContext) :
  path_ok stages (flowPathForStages row stages ctx).
Proof.
  unfold flowPathForStages. constructor.
  - rewrite map_map. rewrite <- (map_id stages) at 2. apply map_ext. intros k. apply builder_kind.
  - apply Forall_map, Forall_forall. intros k _. apply builder_of_kind.
Qed.

Lemma limited_ok (stages : list FlowNodeKind) (path path' : list FlowPathNode) (sets : TopNodeSets)
    (mode : FlowOverflowMode) (labeler : option (FlowNodeKind -> str)) :
  path_ok stages path -> applyTopNodeLimit path sets mode labeler = Some path' -> path_ok stages path'.
Proof.
  intros [Hk Hi]. unfold applyTopNodeLimit. destruct sets as [sets|]; [|by intros [= <-]; constructor].
  destruct (negb _); [by intros [= <-]; constructor|]. destruct mode; [|done]. intros [= <-]. constructor.
  - rewrite map_map. rewrite <- Hk. apply map_ext. intros n. by repeat case_match.
  - apply Forall_map. eapply Forall_impl; [exact Hi|]. intros n Hn. cbn beta.
    repeat case_match; first [done|apply other_of_kind].
Qed.

Lemma stages_nodup (role : FlowRole) (visible : option (list FlowNodeKind)) :
  NoDup (resolveVisibleStages role visible).
Proof.
  assert (H : NoDup (getFlowStages role)).
  { destruct role; apply (bool_decide_unpack _); vm_compute; exact I. }
  unfold resolveVisibleStages. destruct visible as [v|]; [|done]. destruct (_ <=? _); [|done].
  apply NoDup_ListNoDup, List.NoDup_filter, NoDup_ListNoDup. done.
Qed.

(** [NoDup] from a coarser key. *)
Lemma nodup_key {A B C : Type} (f : A -> B) (g : A -> C) (l : list A) :
  NoDup (map f l) -> (forall x y, x ∈ l -> y ∈ l -> g x = g y -> f x = f y) -> NoDup (map g l).
Proof.
  induction l as [|x l IH]; cbn; [constructor|]. intros Hd Hg. inversion Hd as [|? ? Hx Hl]; subst. constructor.
  - intros Hin. apply list_elem_of_In, in_map_iff in Hin as (y & Hy & Hin). apply Hx.
    apply list_elem_of_In in Hin as Hin'. rewrite (Hg x y) by (done || by left || by right).
    apply list_elem_of_In. by apply in_map.
  - apply IH; [done|]. intros a b Ha Hb. apply Hg; by right.
Qed.

Lemma path_nodup (stages : list FlowNodeKind) (path : list FlowPathNode) :
  NoDup stages -> path_ok stages path -> NoDup (map pn_id path).
Proof.
  intros Hs [<- Hi]. eapply nodup_key; [exact Hs|]. rewrite Forall_forall in Hi.
  intros x y Hx Hy. apply of_kind_id; auto.
Qed.

Lemma path_links_in (path : list FlowPathNode) (a b : FlowPathNode) :
  (a, b) ∈ path_links path -> a ∈ path /\ b ∈ path.
Proof.
  induction path as [|n [|m path] IH]; cbn; [by intros ?%not_elem_of_nil..|].
  intros [[= -> ->]|H]%elem_of_cons; [split; [left|right; left]|].
  destruct (IH H). split; by right.
Qed.

Lemma path_links_fst (path : list FlowPathNode) : map fst (path_links path) = removelast path.
Proof. induction path as [|n [|m path] IH]; [done..|]. cbn in *. by rewrite IH. Qed.

Lemma path_links_snd (path : list FlowPathNode) : map snd (path_links path) = tail path.
Proof. induction path as [|n [|m path] IH]; [done..|]. cbn in *. by rewrite IH. Qed.

Lemma removelast_sublist {A : Type} (l : list A) : removelast l `sublist_of` l.
Proof.
  destruct l as [|d l _] using rev_ind; [done|]. rewrite removelast_last. by apply sublist_inserts_r.
Qed.

Lemma removelast_not_last {A : Type} (l : list A) (x : A) : x ∈ l -> last l <> Some x -> x ∈ removelast l.
Proof.
  destruct l as [|d l _] using rev_ind; [done|]. rewrite removelast_last, last_snoc.
  intros [H|H]%elem_of_app H'; [done|]. apply list_elem_of_singleton in H as ->. done.
Qed.

Lemma map_sublist {A B : Type} (f : A -> B) (l k : list A) : l `sublist_of` k -> map f l `sublist_of` map f k.
Proof. induction 1; cbn; by constructor. Qed.

Lemma tail_sublist {A : Type} (l : list A) : tail l `sublist_of` l.
Proof. destruct l; cbn; by constructor. Qed.

(** ** The items with a key *)

Section Keyed.
Context {K X : Type} `{EqDecision K}.
Variable key : X -> K.

Definition with_key (k : K) (xs : list X) : list X := List.filter (fun x => bool_decide (key x = k)) xs.

(** Every item has exactly one of the keys. *)
Lemma with_key_partition (ks : list K) (xs : list X) :
  NoDup ks -> Forall (fun x => key x ∈ ks) xs -> concat (map (fun k => with_key k xs) ks) ≡ₚ xs.
Proof.
  intros Hd. induction 1 as [|x xs Hx _ IH].
  { clear Hd. induction ks; cbn; [done|]. done. }
  transitivity (x :: concat (map (fun k => with_key k xs) ks)); [clear IH|by constructor].
  apply list_elem_of_In, in_split in Hx as (k1 & k2 & ->).
  assert (Hk : (key x ∉ k1) /\ (key x ∉ k2)).
  { apply NoDup_app in Hd as (_ & H1 & H2). inversion H2; subst. split; [|done].
    intros Hin. eapply H1; [done|]. left. }
  assert (Hskip : forall l, key x ∉ l -> map (fun k => with_key k (x :: xs)) l = map (fun k => with_key k xs) l).
  { intros l Hl. apply map_ext_in. intros k Hin. unfold with_key. cbn [List.filter].
    rewrite bool_decide_false; [done|]. intros <-. apply Hl, list_elem_of_In, Hin. }
  rewrite !map_app, !concat_app. cbn [map concat]. rewrite !Hskip by tauto.
  replace (with_key (key x) (x :: xs)) with (x :: with_key (key x) xs)
    by (unfold with_key; cbn [List.filter]; by rewrite bool_decide_true).
  cbn [app]. apply Permutation_sym, Permutation_middle.
Qed.

End Keyed.

(** ** Accumulating into a map

    [const a = map.get(key) ?? init; update a; map.set(key, a)] over a list. *)

Section Accumulate.
Context {K X A : Type} `{EqDecision K}.
Variable key : X -> K.
Variable init : X -> A.
Variable step : A -> X -> A.

Definition accumulate (m : list (K * A)) (x : X) : list (K * A) :=
  map_set (key x) (step (nullish (map_get (key x) m) (init x)) x) m.

Definition accumulated (start : option A) (xs : list X) : option A :=
  match start, xs with
  | Some a, _ => Some (fold_left step xs a)
  | None, [] => None
  | None, x :: _ => Some (fold_left step xs (init x))
  end.

Lemma accumulate_get (k : K) (xs : list X) (m : list (K * A)) :
  map_get k (fold_left accumulate xs m) = accumulated (map_get k m) (with_key key k xs).
Proof.
  revert m. induction xs as [|x xs IH]; intros m; cbn [fold_left]; unfold with_key; cbn [List.filter].
  - by destruct (map_get k m).
  - rewrite IH. unfold accumulate at 1. rewrite map_get_after_set. unfold with_key.
    destruct (decide (k = key x)) as [->|Hk].
    + rewrite bool_decide_true by done. by destruct (map_get (key x) m).
    + rewrite bool_decide_false by congruence. done.
Qed.

Lemma accumulate_nodup (xs : list X) (m : list (K * A)) :
  NoDup (map fst m) -> NoDup (map fst (fold_left accumulate xs m)).
Proof. revert m. induction xs; intros m Hm; cbn; [done|]. by apply IHxs, map_set_nodup. Qed.

Lemma accumulate_keys (k : K) (xs : list X) (m : list (K * A)) :
  k ∈ map fst (fold_left accumulate xs m) <-> k ∈ map fst m \/ k ∈ map key xs.
Proof.
  revert m. induction xs as [|x xs IH]; intros m; cbn [fold_left map].
  - rewrite elem_of_nil. tauto.
  - rewrite IH. unfold accumulate. rewrite map_set_in, elem_of_cons. tauto.
Qed.

(** An entry of the map is the fold over the items with its key. *)
Lemma accumulate_entry (k : K) (a : A) (xs : list X) :
  (k, a) ∈ fold_left accumulate xs [] ->
  exists x r, with_key key k xs = x :: r /\ x ∈ xs /\ key x = k /\ a = fold_left step (x :: r) (init x).
Proof.
  intros H. apply map_get_nodup in H; [|by apply accumulate_nodup; constructor].
  rewrite accumulate_get in H. cbn in H. destruct (with_key key k xs) as [|x r] eqn:E; [done|].
  exists x, r. split; [done|]. injection H as <-.
  assert (Hx : In x (with_key key k xs)) by (rewrite E; by left).
  apply filter_In in Hx as [Hx Hk]. apply bool_decide_eq_true in Hk. split_and!; [by apply list_elem_of_In|done|done].
Qed.

End Accumulate.

(** ** Items of the paths *)

Lemma fold_left_flatten {A B C : Type} (f : A -> B -> A) (g : C -> list B) (cs : list C) (a : A) :
  fold_left (fun acc c => fold_left f (g c) acc) cs a = fold_left f (concat (map g cs)) a.
Proof. revert a. induction cs as [|c cs IH]; intros a; cbn; [done|]. by rewrite fold_left_app, IH. Qed.

Lemma fold_left_if {A B : Type} (f : A -> B -> A) (p : B -> bool) (l : list B) (a : A) :
  fold_left (fun acc b => if p b then f acc b else acc) l a = fold_left f (List.filter p l) a.
Proof. revert a. induction l as [|b l IH]; intros a; cbn; [done|]. rewrite IH. by destruct (p b). Qed.

Lemma fold_left_over_map {A B C : Type} (f : A -> B -> A) (g : C -> B) (cs : list C) (a : A) :
  fold_left f (map g cs) a = fold_left (fun acc c => f acc (g c)) cs a.
Proof. revert a. induction cs as [|c cs IH]; intros a; cbn; [done|]. apply IH. Qed.

Lemma fold_left_fst {A B C : Type} (f : A * B -> C -> A * B) (g : A -> C -> A) (cs : list C) (ab : A * B) :
  (forall ab c, fst (f ab c) = g (fst ab) c) -> fst (fold_left f cs ab) = fold_left g cs (fst ab).
Proof. intros H. revert ab. induction cs as [|c cs IH]; intros ab; cbn; [done|]. by rewrite IH, H. Qed.

Lemma fold_left_snd {A B C : Type} (f : A * B -> C -> A * B) (g : B -> C -> B) (cs : list C) (ab : A * B) :
  (forall ab c, snd (f ab c) = g (snd ab) c) -> snd (fold_left f cs ab) = fold_left g cs (snd ab).
Proof. intros H. revert ab. induction cs as [|c cs IH]; intros ab; cbn; [done|]. by rewrite IH, H. Qed.

(** The occurrences [occ path] of each path, with the path. *)
Definition occurrences {B : Type} (occ : list FlowPathNode -> list B) (paths : list PreparedFlowPath)
    : list (PreparedFlowPath * B) :=
  concat (map (fun p => map (pair p) (occ (pp_path p))) paths).

(** The paths with an occurrence whose key is [k]. *)
Definition passing {B : Type} (occ : list FlowPathNode -> list B) (key : B -> str) (k : str)
    (paths : list PreparedFlowPath) : list PreparedFlowPath :=
  List.filter (fun p => mem_str k (map key (occ (pp_path p)))) paths.

(** The paths through a node, and the paths over a link. *)
Definition through : str -> list PreparedFlowPath -> list PreparedFlowPath := passing id pn_id.

Definition link_key (ab : FlowPathNode * FlowPathNode) : str := pathLinkKey (fst ab) (snd ab).

Definition across : str -> list PreparedFlowPath -> list PreparedFlowPath := passing path_links link_key.

(** Where no path repeats a key, the occurrences of a key are the paths. *)
Lemma occurrences_passing {B : Type} (occ : list FlowPathNode -> list B) (key : B -> str) (k : str)
    (paths : list PreparedFlowPath) :
  Forall (fun p => NoDup (map key (occ (pp_path p)))) paths ->
  map fst (with_key (fun it => key (snd it)) k (occurrences occ paths)) = passing occ key k paths.
Proof.
  induction 1 as [|p paths Hp _ IH]; cbn; [done|]. unfold with_key in *. rewrite List.filter_app, map_app.
  unfold occurrences in IH. rewrite IH. clear IH. unfold passing. cbn [List.filter].
  enough (H : map fst (List.filter (fun it : PreparedFlowPath * B => bool_decide (key it.2 = k)) (map (pair p) (occ (pp_path p))))
          = if mem_str k (map key (occ (pp_path p))) then [p] else []).
  { rewrite H. by destruct (mem_str _ _). }
  revert Hp. generalize (occ (pp_path p)) as l. induction l as [|b l IH]; intros Hd; [done|].
  cbn [map List.filter snd]. inversion Hd as [|? ? Hb Hd']; subst. specialize (IH Hd').
  cbn [mem_str]. destruct (decide (key b = k)) as [<-|Hk].
  - rewrite bool_decide_true, str_eqb_refl by done. cbn [map orb fst]. f_equal. rewrite IH.
    by rewrite (proj2 (mem_str_false _ _) Hb).
  - rewrite bool_decide_false by done. rewrite (proj2 (str_eqb_neq _ _)) by congruence. done.
Qed.

Lemma links_nodup (stages : list FlowNodeKind) (path : list FlowPathNode) :
  NoDup stages -> path_ok stages path -> NoDup (map link_key (path_links path)).
Proof.
  intros Hs [<- Hi].
  eapply (nodup_key (fun ab => pn_kind (fst ab))).
  - rewrite <- (map_map fst pn_kind), path_links_fst. eapply sublist_NoDup; [exact Hs|].
    apply map_sublist, removelast_sublist.
  - rewrite Forall_forall in Hi. intros [a b] [a' b'] H H'. apply path_links_in in H as [Ha _], H' as [Ha' _].
    destruct (Hi _ Ha) as [s Es], (Hi _ Ha') as [s' Es']. unfold link_key, pathLinkKey. cbn [fst snd].
    rewrite Es, Es', <- !app_assoc. apply kind_prefix_inj.
Qed.

(** ** Totals of nodes and links *)

(** The sums over paths, in the order of the rows. *)
Definition sum_value (metric : FlowMetric) (ps : list PreparedFlowPath) : num :=
  fold_left (fun s p => num_add s (metricValue (pp_metrics p) metric)) ps num_zero.

Definition sum_metrics (ps : list PreparedFlowPath) : FlowMetrics :=
  fold_left (fun s p => add_metrics s (pp_metrics p)) ps zero_metrics.

(** What is claimed of the entry of a map: the sums over the paths [ps]. *)
Definition totals_of (metric : FlowMetric) (ps : list PreparedFlowPath) (value : num) (metrics : FlowMetrics) : Prop :=
  ps <> [] /\ value = sum_value metric ps /\ metrics = sum_metrics ps.

Definition node_step (metric : FlowMetric) (n : DashboardFlowNode) (it : PreparedFlowPath * FlowPathNode)
    : DashboardFlowNode :=
  MkFlowNode (fn_id n) (fn_label n) (fn_kind n)
    (num_add (fn_value n) (metricValue (pp_metrics (fst it)) metric)) (add_metrics (fn_metrics n) (pp_metrics (fst it)))
    (fn_color n) (fn_colorKey n) (fn_highlighted n) (fn_dimmed n).

Definition link_step (metric : FlowMetric) (l : DashboardFlowLink) (it : PreparedFlowPath * (FlowPathNode * FlowPathNode))
    : DashboardFlowLink :=
  MkFlowLink (fl_source l) (fl_target l)
    (num_add (fl_value l) (metricValue (pp_metrics (fst it)) metric)) (add_metrics (fl_metrics l) (pp_metrics (fst it)))
    (fl_sourceLabel l) (fl_targetLabel l) (fl_color l) (fl_linkColor l)
    (fl_linkAlpha l) (fl_hoverColor l) (fl_colorKey l) (fl_share l) (fl_highlighted l) (fl_dimmed l).

Lemma node_steps (metric : FlowMetric) (its : list (PreparedFlowPath * FlowPathNode)) (n : DashboardFlowNode) :
  let n' := fold_left (node_step metric) its n in
  fn_id n' = fn_id n /\ fn_label n' = fn_label n /\ fn_kind n' = fn_kind n /\
  fn_value n' = fold_left (fun s p => num_add s (metricValue (pp_metrics p) metric)) (map fst its) (fn_value n) /\
  fn_metrics n' = fold_left (fun s p => add_metrics s (pp_metrics p)) (map fst its) (fn_metrics n).
Proof. revert n. induction its as [|it its IH]; intros n; [done|]. apply (IH (node_step metric n it)). Qed.

Lemma link_steps (metric : FlowMetric) (its : list (PreparedFlowPath * (FlowPathNode * FlowPathNode)))
    (l : DashboardFlowLink) :
  let l' := fold_left (link_step metric) its l in
  fl_source l' = fl_source l /\ fl_target l' = fl_target l /\
  fl_sourceLabel l' = fl_sourceLabel l /\ fl_targetLabel l' = fl_targetLabel l /\
  fl_value l' = fold_left (fun s p => num_add s (metricValue (pp_metrics p) metric)) (map fst its) (fl_value l) /\
  fl_metrics l' = fold_left (fun s p => add_metrics s (pp_metrics p)) (map fst its) (fl_metrics l).
Proof. revert l. induction its as [|it its IH]; intros l; [done|]. apply (IH (link_step metric l it)). Qed.

Section Graph.
Variable localeCompare : str -> str -> Z.
Variable vchartDefaultDataScheme : list (option num * list (option str)).

(** The color of a path. *)
Definition path_color (colors : list (str * str)) (palette : option (list str)) (p : PreparedFlowPath) : str :=
  nullish (map_get (nullish (pn_id <$> head (pp_path p)) []) colors) (colorAt vchartDefaultDataScheme 0 palette).

Definition node_init (colors : list (str * str)) (palette : option (list str)) (it : PreparedFlowPath * FlowPathNode)
    : DashboardFlowNode :=
  MkFlowNode (pn_id (snd it)) (pn_label (snd it)) (pn_kind (snd it)) num_zero zero_metrics
    (path_color colors palette (fst it)) (nullish (pn_id <$> head (pp_path (fst it))) []) None None.

Definition link_init (colors : list (str * str)) (palette : option (list str))
    (it : PreparedFlowPath * (FlowPathNode * FlowPathNode)) : DashboardFlowLink :=
  let color := path_color colors palette (fst it) in
  let '(a, b) := snd it in
  MkFlowLink (pn_id a) (pn_id b) num_zero zero_metrics (pn_label a) (pn_label b) color color (num_of_Z 1) color
    (nullish (pn_id <$> head (pp_path (fst it))) []) num_zero None None.

Definition graph_colors (paths : list PreparedFlowPath) (palette : option (list str)) : list (str * str) :=
  stableColorMap vchartDefaultDataScheme (sort_by localeCompare (rootIds paths)) palette.

Definition node_map (paths : list PreparedFlowPath) (metric : FlowMetric) (palette : option (list str))
    : list (str * DashboardFlowNode) :=
  fst (buildMaps localeCompare vchartDefaultDataScheme paths metric palette).

Definition link_map (paths : list PreparedFlowPath) (metric : FlowMetric) (palette : option (list str))
    : list (str * DashboardFlowLink) :=
  snd (buildMaps localeCompare vchartDefaultDataScheme paths metric palette).

Lemma node_map_accumulate (paths : list PreparedFlowPath) (metric : FlowMetric) (palette : option (list str)) :
  node_map paths metric palette
  = fold_left (accumulate (fun it => pn_id (snd it)) (node_init (graph_colors paths palette) palette) (node_step metric))
      (occurrences id paths) [].
Proof.
  unfold node_map, buildMaps, occurrences. rewrite <- fold_left_flatten. apply fold_left_fst.
  intros [ns ls] p. unfold addPath. rewrite fold_left_over_map. destruct (pp_path p) as [|root rest] eqn:E; [done|].
  cbn [fst]. unfold id. generalize (root :: rest) at 1 2 as l. intros l. revert ns. induction l as [|n l IH]; intros ns; [done|].
  cbn [fold_left]. rewrite IH. do 2 f_equal. unfold accumulate, addNode, node_init, path_color.
  cbn [fst snd]. rewrite E. done.
Qed.

Lemma link_map_accumulate (paths : list PreparedFlowPath) (metric : FlowMetric) (palette : option (list str)) :
  link_map paths metric palette
  = fold_left (accumulate (fun it => link_key (snd it)) (link_init (graph_colors paths palette) palette) (link_step metric))
      (occurrences path_links paths) [].
Proof.
  unfold link_map, buildMaps, occurrences. rewrite <- fold_left_flatten. apply fold_left_snd.
  intros [ns ls] p. unfold addPath. rewrite fold_left_over_map. destruct (pp_path p) as [|root rest] eqn:E; [done|].
  cbn [snd]. generalize (path_links (root :: rest)) as l. intros l. revert ls. induction l as [|[a b] l IH]; intros ls; [done|].
  cbn [fold_left]. rewrite IH. do 2 f_equal. unfold accumulate, addLink, link_init, path_color, link_key.
  cbn [fst snd]. rewrite E. done.
Qed.

Definition paths_ok (stages : list FlowNodeKind) (paths : list PreparedFlowPath) : Prop :=
  NoDup stages /\ Forall (fun p => path_ok stages (pp_path p)) paths.

Lemma occurrences_in {B : Type} (occ : list FlowPathNode -> list B) (paths : list PreparedFlowPath)
    (p : PreparedFlowPath) (b : B) :
  (p, b) ∈ occurrences occ paths <-> p ∈ paths /\ b ∈ occ (pp_path p).
Proof.
  unfold occurrences. rewrite !list_elem_of_In, in_concat. split.
  - intros (l & Hl & Hin). apply in_map_iff in Hl as (q & <- & Hq). apply in_map_iff in Hin as (c & [= -> ->] & Hc). done.
  - intros [Hp Hb]. exists (map (pair p) (occ (pp_path p))). split; [by apply (in_map (fun p => map (pair p) (occ (pp_path p))))|].
    by apply in_map.
Qed.

Lemma node_entry (stages : list FlowNodeKind) (paths : list PreparedFlowPath) (metric : FlowMetric)
    (palette : option (list str)) (k : str) (n : DashboardFlowNode) :
  paths_ok stages paths -> (k, n) ∈ node_map paths metric palette ->
  fn_id n = k /\ totals_of metric (through k paths) (fn_value n) (fn_metrics n) /\
  exists p node, p ∈ paths /\ node ∈ pp_path p /\ pn_id node = k /\ (fn_label n, fn_kind n) = (pn_label node, pn_kind node).
Proof.
  intros [Hs Hp] H. rewrite node_map_accumulate in H. apply accumulate_entry in H as ([p node] & r & E & Hin & Hk & ->).
  pose proof (occurrences_passing id pn_id k paths) as Ht. rewrite E in Ht.
  specialize (Ht ltac:(eapply Forall_impl; [exact Hp|]; intros q; by apply path_nodup)).
  apply occurrences_in in Hin as [Hin1 Hin2].
  destruct (node_steps metric ((p, node) :: r) (node_init (graph_colors paths palette) palette (p, node))) as (Hi & Hl & Hc & Hv & Hm).
  rewrite Hi, Hl, Hc, Hv, Hm. cbn [node_init fn_id fn_label fn_kind fn_value fn_metrics snd].
  unfold totals_of, through. rewrite <- Ht. split_and!; [done..|]. by exists p, node.
Qed.

Lemma link_entry (stages : list FlowNodeKind) (paths : list PreparedFlowPath) (metric : FlowMetric)
    (palette : option (list str)) (k : str) (l : DashboardFlowLink) :
  paths_ok stages paths -> (k, l) ∈ link_map paths metric palette ->
  linkStableKey l = k /\ totals_of metric (across k paths) (fl_value l) (fl_metrics l) /\
  exists p a b, p ∈ paths /\ (a, b) ∈ path_links (pp_path p) /\ link_key (a, b) = k /\
    (fl_source l, fl_target l, fl_sourceLabel l, fl_targetLabel l) = (pn_id a, pn_id b, pn_label a, pn_label b).
Proof.
  intros [Hs Hp] H. rewrite link_map_accumulate in H. apply accumulate_entry in H as ([p [a b]] & r & E & Hin & Hk & ->).
  pose proof (occurrences_passing path_links link_key k paths) as Ht. rewrite E in Ht.
  specialize (Ht ltac:(eapply Forall_impl; [exact Hp|]; intros q; by apply links_nodup)).
  apply occurrences_in in Hin as [Hin1 Hin2].
  destruct (link_steps metric ((p, (a, b)) :: r) (link_init (graph_colors paths palette) palette (p, (a, b)))) as (Hi & Hj & Hl & Hr & Hv & Hm).
  unfold linkStableKey. rewrite Hi, Hj, Hl, Hr, Hv, Hm.
  cbn [link_init fl_source fl_target fl_sourceLabel fl_targetLabel fl_value fl_metrics snd].
  unfold totals_of, across. rewrite <- Ht. split_and!; [done..|]. by exists p, a, b.
Qed.

Lemma node_map_nodup (paths : list PreparedFlowPath) (metric : FlowMetric) (palette : option (list str)) :
  NoDup (map fst (node_map paths metric palette)).
Proof. rewrite node_map_accumulate. apply accumulate_nodup. constructor. Qed.

Lemma link_map_nodup (paths : list PreparedFlowPath) (metric : FlowMetric) (palette : option (list str)) :
  NoDup (map fst (link_map paths metric palette)).
Proof. rewrite link_map_accumulate. apply accumulate_nodup. constructor. Qed.

Lemma node_map_keys (paths : list PreparedFlowPath) (metric : FlowMetric) (palette : option (list str)) (k : str) :
  k ∈ map fst (node_map paths metric palette) <-> exists p node, p ∈ paths /\ node ∈ pp_path p /\ pn_id node = k.
Proof.
  rewrite node_map_accumulate, accumulate_keys, 2!list_elem_of_In, 2!in_map_iff. split.
  - intros [(? & _ & [])|([p node] & <- & Hin)]. apply list_elem_of_In, occurrences_in in Hin as [].
    by exists p, node.
  - intros (p & node & Hp & Hn & <-). right. exists (p, node). split; [done|]. by apply list_elem_of_In, occurrences_in.
Qed.

Lemma link_map_keys (paths : list PreparedFlowPath) (metric : FlowMetric) (palette : option (list str)) (k : str) :
  k ∈ map fst (link_map paths metric palette) <->
  exists p ab, p ∈ paths /\ ab ∈ path_links (pp_path p) /\ link_key ab = k.
Proof.
  rewrite link_map_accumulate, accumulate_keys, 2!list_elem_of_In, 2!in_map_iff. split.
  - intros [(? & _ & [])|([p ab] & <- & Hin)]. apply list_elem_of_In, occurrences_in in Hin as [].
    by exists p, ab.
  - intros (p & ab & Hp & Hn & <-). right. exists (p, ab). split; [done|]. by apply list_elem_of_In, occurrences_in.
Qed.

(** ** Decorations keep identities and totals *)

Definition kept_node (n n' : DashboardFlowNode) : Prop :=
  (fn_id n', fn_kind n', fn_value n', fn_metrics n') = (fn_id n, fn_kind n, fn_value n, fn_metrics n).

Definition kept_link (l l' : DashboardFlowLink) : Prop :=
  (fl_source l', fl_target l', fl_value l', fl_metrics l') = (fl_source l, fl_target l, fl_value l, fl_metrics l).

Definition on_values {A : Type} (f : A -> A) (m : list (str * A)) : list (str * A) :=
  map (fun kv => (fst kv, f (snd kv))) m.

Lemma on_values_id {A : Type} (m : list (str * A)) : on_values id m = m.
Proof. unfold on_values. rewrite <- (map_id m) at 2. apply map_ext. by intros []. Qed.

Lemma on_values_compose {A : Type} (f g : A -> A) (m : list (str * A)) :
  on_values f (on_values g m) = on_values (fun x => f (g x)) m.
Proof. unfold on_values. by rewrite map_map. Qed.

Lemma mask_kept (n : DashboardFlowNode) : kept_node n (mask_node n).
Proof. unfold mask_node. by destruct (to_mask n). Qed.

Lemma mask_maps (ns : list (str * DashboardFlowNode)) (ls : list (str * DashboardFlowLink)) :
  fst (maskFlowGraphLabels ns ls) = on_values mask_node ns /\
  exists g, (forall l, kept_link l (g l)) /\ snd (maskFlowGraphLabels ns ls) = on_values g ls.
Proof.
  split; [done|]. unfold maskFlowGraphLabels. cbn [snd]. destruct (_ =? _).
  - exists id. by rewrite on_values_id.
  - by exists (mask_link (maskedById ns)).
Qed.

Lemma highlight_maps (ns : list (str * DashboardFlowNode)) (ls : list (str * DashboardFlowLink))
    (h : option FlowHighlightSets) :
  exists f g, (forall n, kept_node n (f n)) /\ (forall n, fn_label (f n) = fn_label n) /\
    (forall l, kept_link l (g l)) /\
    (forall l, (fl_sourceLabel (g l), fl_targetLabel (g l)) = (fl_sourceLabel l, fl_targetLabel l)) /\
    applyFlowHighlights ns ls h = (on_values f ns, on_values g ls).
Proof.
  destruct h as [h|].
  - by exists (highlight_node h), (highlight_link h).
  - exists id, id. by rewrite !on_values_id.
Qed.

Lemma decorate_kept (paths : list PreparedFlowPath) (stages : list FlowNodeKind) (options : FlowGraphOptions)
    (ns : list (str * DashboardFlowNode)) (ls : list (str * DashboardFlowLink)) :
  exists f g, (forall n, kept_node n (f n)) /\ (forall l, kept_link l (g l)) /\
    decorate paths stages options (ns, ls) = (on_values f ns, on_values g ls).
Proof.
  unfold decorate. destruct (maskSensitive options); cbv zeta; cbn [fst snd].
  - destruct (mask_maps ns ls) as [Hn (g0 & Hg0 & Hl)]. rewrite Hn, Hl.
    destruct (highlight_maps (on_values mask_node ns) (on_values g0 ls)
      (buildFlowHighlightSets paths (activeNode options) (activeLink options) stages)) as (f & g & Hf & _ & Hg & _ & ->).
    exists (fun n => f (mask_node n)), (fun l => g (g0 l)). rewrite !on_values_compose. split_and!; [|..|done].
    + intros n. unfold kept_node in *. by rewrite Hf, mask_kept.
    + intros l. unfold kept_link in *. by rewrite Hg, Hg0.
  - destruct (highlight_maps ns ls
      (buildFlowHighlightSets paths (activeNode options) (activeLink options) stages)) as (f & g & Hf & _ & Hg & _ & Heq).
    by exists f, g.
Qed.

Lemma finish_kept (paths : list PreparedFlowPath) (ls : list DashboardFlowLink) :
  exists g, (forall l, kept_link l (g l)) /\
    (forall l, (fl_sourceLabel (g l), fl_targetLabel (g l)) = (fl_sourceLabel l, fl_targetLabel l)) /\
    finishLinks localeCompare paths ls ≡ₚ map g ls.
Proof.
  unfold finishLinks, assignLinkDisplayColors. set (t := fold_left _ _ _). set (c := displayColors _ _).
  exists (fun l => set_display (map_get (linkStableKey (set_share t l)) c) (set_share t l)). split_and!.
  - intros l. by destruct (map_get _ c) as [[]|].
  - intros l. by destruct (map_get _ c) as [[]|].
  - rewrite map_map. apply Permutation_map, sort_by_perm.
Qed.

(** ** Columns and links partition the paths *)

(** The identifiers hold no code unit 0, the separator of the keys of links. *)
Definition ids_separable (paths : list PreparedFlowPath) : Prop :=
  Forall (fun p => Forall (fun n => 0%N ∉ pn_id n) (pp_path p)) paths.

Lemma separator_inj (a b a' b' : str) :
  0%N ∉ a -> 0%N ∉ a' -> a ++ [0%N] ++ b = a' ++ [0%N] ++ b' -> a = a' /\ b = b'.
Proof.
  revert a'. induction a as [|x a IH]; intros [|x' a'] Ha Ha' H; cbn in H; inversion H; subst.
  - done.
  - exfalso. apply Ha'. left.
  - exfalso. apply Ha. left.
  - apply not_elem_of_cons in Ha as [_ Ha], Ha' as [_ Ha']. destruct (IH a') as [-> ->]; done.
Qed.

Lemma find_nodup {A : Type} (f : A -> str) (l : list A) (x : A) :
  NoDup (map f l) -> x ∈ l -> find (fun y => f y =?s f x) l = Some x.
Proof.
  induction l as [|y l IH]; [by intros _ ?%not_elem_of_nil|]. cbn [map find]. intros Hd Hx.
  inversion Hd as [|? ? Hy Hl]; subst. apply elem_of_cons in Hx as [->|Hx]; [by rewrite str_eqb_refl|].
  rewrite (proj2 (str_eqb_neq _ _)); [by apply IH|]. intros E. apply Hy. rewrite E.
  apply list_elem_of_In, in_map, list_elem_of_In, Hx.
Qed.

(** The key of the first occurrence that [at_] maps to [k]. *)
Definition key_at {B : Type} (at_ key : B -> str) (k : str) (l : list B) : str :=
  nullish (key <$> find (fun b => at_ b =?s k) l) [].

Lemma key_at_nodup {B : Type} (at_ key : B -> str) (l : list B) (b : B) :
  NoDup (map at_ l) -> b ∈ l -> key_at at_ key (at_ b) l = key b.
Proof. intros Hd Hb. unfold key_at. by rewrite (find_nodup at_ l b Hd Hb). Qed.

Lemma key_at_inv {B : Type} (at_ key : B -> str) (k : str) (l : list B) :
  key_at at_ key k l <> [] -> exists b, b ∈ l /\ at_ b = k /\ key b = key_at at_ key k l.
Proof.
  unfold key_at. destruct (find _ l) as [b|] eqn:E; [|done]. intros _. apply JsArray.find_Some in E as [Hb Hk].
  exists b. split_and!; [done|by apply str_eqb_eq|done].
Qed.

Lemma in_keys {A B : Type} (f : A -> B) (l : list A) (y : B) : y ∈ map f l <-> exists x, x ∈ l /\ f x = y.
Proof.
  rewrite list_elem_of_In, in_map_iff. split; intros (x & H1 & H2); exists x; [split; [by apply list_elem_of_In|done]|].
  split; [done|by apply list_elem_of_In].
Qed.

Lemma elem_of_filter_bool {A : Type} (p : A -> bool) (l : list A) (x : A) :
  x ∈ List.filter p l <-> x ∈ l /\ p x = true.
Proof. rewrite !list_elem_of_In. apply filter_In. Qed.

Lemma nodup_map_filter {A B : Type} (f : A -> B) (p : A -> bool) (l : list A) :
  NoDup (map f l) -> NoDup (map f (List.filter p l)).
Proof.
  induction l as [|x l IH]; cbn; [done|]. intros Hd. inversion Hd as [|? ? Hx Hl]; subst.
  destruct (p x); [|by apply IH]. cbn. constructor; [|by apply IH]. intros Hin. apply Hx.
  apply in_keys in Hin as (y & Hy & <-). apply elem_of_filter_bool in Hy as [Hy _]. apply in_keys. by exists y.
Qed.

Lemma kind_name_inj (k k' : FlowNodeKind) : kind_name k = kind_name k' -> k = k'.
Proof. by destruct k, k'. Qed.

(** The occurrences that [at_] maps to [k] are told apart by [key], and a path
    has at most one of them: their keys partition the paths that have one. *)
Lemma passing_partition {B : Type} (occ : list FlowPathNode -> list B) (at_ key : B -> str) (k : str)
    (paths : list PreparedFlowPath) (ks : list str) :
  NoDup ks ->
  (forall x, x ∈ ks <-> exists p b, p ∈ paths /\ b ∈ occ (pp_path p) /\ at_ b = k /\ key b = x) ->
  (forall p b, p ∈ paths -> b ∈ occ (pp_path p) -> key b <> []) ->
  (forall p, p ∈ paths -> NoDup (map at_ (occ (pp_path p)))) ->
  (forall p q b c, p ∈ paths -> q ∈ paths -> b ∈ occ (pp_path p) -> c ∈ occ (pp_path q) -> key b = key c -> at_ b = at_ c) ->
  concat (map (fun x => passing occ key x paths) ks) ≡ₚ passing occ at_ k paths.
Proof.
  intros Hks Hk Hne Hat Hkey.
  pose (here := fun p => key_at at_ key k (occ (pp_path p))).
  rewrite <- (with_key_partition here ks (passing occ at_ k paths) Hks).
  - eapply (reflexive_eq (R := Permutation)). f_equal. apply map_ext_in. intros x Hx. apply list_elem_of_In, Hk in Hx as (q & c & Hq & Hc & Hck & <-).
    unfold with_key, passing. rewrite JsArray.filter_filter. apply List.filter_ext_in. intros p Hp. apply list_elem_of_In in Hp.
    apply Bool.eq_iff_eq_true. rewrite andb_true_iff, !mem_str_true, bool_decide_eq_true, !in_keys. split.
    + intros (b & Hb & Hbc). assert (Hbk : at_ b = k) by (rewrite <- Hck; by apply (Hkey p q)).
      split; [by exists b|]. unfold here. rewrite <- Hbk, key_at_nodup by auto. done.
    + intros [_ Hh]. destruct (key_at_inv at_ key k (occ (pp_path p))) as (b & Hb & _ & Hbk); [fold (here p); rewrite Hh; by apply (Hne q)|].
      exists b. split; [done|]. by rewrite Hbk.
  - rewrite List.Forall_forall. intros p Hp. apply filter_In in Hp as [Hp Hm]. apply list_elem_of_In in Hp.
    apply mem_str_true, in_keys in Hm as (b & Hb & <-). apply Hk. exists p, b. split_and!; [done..|].
    unfold here. by rewrite key_at_nodup by auto.
Qed.

(** ** The limit on nodes *)

Lemma fold_map_set_keys {E K A : Type} `{EqDecision K} (f : E -> K) (g : E -> A) (es : list E) (m : list (K * A)) (k : K) :
  k ∈ map fst (fold_left (fun m e => map_set (f e) (g e) m) es m) <-> k ∈ map f es \/ k ∈ map fst m.
Proof.
  revert m. induction es as [|e es IH]; intros m; cbn [fold_left map]; [rewrite elem_of_nil; tauto|].
  rewrite IH, map_set_in, elem_of_cons. tauto.
Qed.

Lemma map_set_values {K A : Type} `{EqDecision K} (P : A -> Prop) (k : K) (v : A) (m : list (K * A)) :
  P v -> Forall (fun kv => P (snd kv)) m -> Forall (fun kv => P (snd kv)) (map_set k v m).
Proof.
  intros Hv. induction 1 as [|[j w] m Hj Hm IH]; cbn; [by repeat constructor|].
  destruct (decide (k = j)); by constructor.
Qed.

Lemma fold_map_set_values {E K A : Type} `{EqDecision K} (P : A -> Prop) (f : E -> K) (g : E -> A) (es : list E)
    (m : list (K * A)) :
  (forall e, P (g e)) -> Forall (fun kv => P (snd kv)) m ->
  Forall (fun kv => P (snd kv)) (fold_left (fun m e => map_set (f e) (g e) m) es m).
Proof. intros Hg. revert m. induction es as [|e es IH]; intros m Hm; [done|]. by apply IH, map_set_values. Qed.

Lemma fold_map_set_other {E K A : Type} `{EqDecision K} (f : E -> K) (g : E -> A) (es : list E) (m : list (K * A)) (k : K) :
  k ∉ map f es -> map_get k (fold_left (fun m e => map_set (f e) (g e) m) es m) = map_get k m.
Proof.
  revert m. induction es as [|e es IH]; intros m; cbn [fold_left map]; [done|]. intros [Hk Hes]%not_elem_of_cons.
  by rewrite IH, map_get_after_set, decide_False.
Qed.

Lemma fold_map_set_get {E K A : Type} `{EqDecision K} (f : E -> K) (g : E -> A) (es : list E) (m : list (K * A)) (e : E) :
  NoDup (map f es) -> e ∈ es -> map_get (f e) (fold_left (fun m e => map_set (f e) (g e) m) es m) = Some (g e).
Proof.
  revert m. induction es as [|d es IH]; intros m; [by intros _ ?%not_elem_of_nil|]. cbn [fold_left map]. intros Hd Hin.
  inversion Hd as [|? ? Hx Hes]; subst. apply elem_of_cons in Hin as [->|Hin]; [|by apply IH].
  by rewrite fold_map_set_other, map_get_after_set, decide_True.
Qed.

Lemma stageTotals_keys (rows : list FlowQuotaDataItem) (metric : FlowMetric) (stages : list FlowNodeKind)
    (ctx : FlowPathContext) (k : FlowNodeKind) :
  k ∈ stages -> k ∈ map fst (stageTotals rows metric stages ctx).
Proof.
  intros Hk. unfold stageTotals.
  assert (H0 : k ∈ map fst (fold_left (fun m stage => map_set stage [] m) stages ([] : list (FlowNodeKind * list (str * FlowNodeRank))))).
  { apply (fold_map_set_keys id (fun _ => [])). left. by rewrite map_id. }
  revert H0. generalize (fold_left (fun m stage => map_set stage [] m) stages ([] : list (FlowNodeKind * list (str * FlowNodeRank)))).
  induction rows as [|row rows IH]; intros m Hm; [done|]. cbn [fold_left]. apply IH. clear IH.
  revert m Hm. generalize (flowPathForStages row stages ctx) as path. induction path as [|n path IH]; intros m Hm; [done|].
  cbn [fold_left]. apply IH. unfold addRank. destruct (map_get _ m); [|done]. apply map_set_in. by right.
Qed.

(** ** The graph *)

Lemma prepare_ok (rows : list FlowQuotaDataItem) (metric : FlowMetric) (role : FlowRole)
    (visible : option (list FlowNodeKind)) (ctx : FlowPathContext) (options : FlowGraphOptions) :
  let stages := resolveVisibleStages role visible in
  paths_ok stages (preparePaths localeCompare rows metric stages ctx options).
Proof.
  cbv zeta. split; [apply stages_nodup|]. unfold preparePaths. set (sets := buildTopNodeSets _ _ _ _ _ _).
  apply Forall_forall. intros p Hp. apply list_elem_of_omap in Hp as (row & _ & H).
  destruct (applyTopNodeLimit _ _ _ _) as [path|] eqn:E; [|done]. injection H as <-.
  eapply limited_ok; [|exact E]. apply flowPath_ok.
Qed.

Lemma top_sets (rows : list FlowQuotaDataItem) (metric : FlowMetric) (stages : list FlowNodeKind)
    (limit : Z) (ctx : FlowPathContext) (k : FlowNodeKind) :
  0 < limit -> k ∈ stages ->
  exists sets ids, buildTopNodeSets localeCompare rows metric stages (Some limit) ctx = Some sets /\
    map_get k sets = Some ids /\ Z.of_nat (length ids) <= limit.
Proof.
  intros Hl Hk. unfold buildTopNodeSets. eexists _.
  set (sets := fold_left _ _ _).
  assert (Hin : k ∈ map fst sets).
  { apply (fold_map_set_keys fst (fun e : FlowNodeKind * list (str * FlowNodeRank) => _)). left. by apply stageTotals_keys. }
  assert (Hlen : Forall (fun kv : FlowNodeKind * list str => Z.of_nat (length (snd kv)) <= limit) sets).
  { apply (fold_map_set_values (fun l : list str => Z.of_nat (length l) <= limit) fst
      (fun e : FlowNodeKind * list (str * FlowNodeRank) => _)); [|constructor].
    intros e. rewrite length_map. replace limit with (Z.of_nat (Z.to_nat limit)) at 1 by lia. rewrite slice_0, length_take. lia. }
  destruct (map_get k sets) as [ids|] eqn:E; [|by apply map_get_None in E].
  exists ids. split_and!; [done|done|]. apply map_get_In in E. rewrite Forall_forall in Hlen. by apply (Hlen _ E).
Qed.

(** What the limit leaves of a path. *)
Lemma limited_nodes (path path' : list FlowPathNode) (sets : list (FlowNodeKind * list str)) (mode : FlowOverflowMode)
    (labeler : option (FlowNodeKind -> str)) (n : FlowPathNode) (ids : list str) :
  applyTopNodeLimit path (Some sets) mode labeler = Some path' -> n ∈ path' -> map_get (pn_kind n) sets = Some ids ->
  pn_id n ∈ ids \/ mode = Aggregate /\ pn_id n = OTHER_FLOW_NODE_IDS (pn_kind n).
Proof.
  intros H Hn Hids. unfold applyTopNodeLimit in H.
  destruct (existsb _ path) eqn:E; cbn [negb] in H.
  - destruct mode; [|done]. apply (inj Some) in H as <-. apply in_keys in Hn as (m & Hm & <-). cbn beta in *.
    destruct (isTopFlowNode m (Some sets)) eqn:Et; [left|by right].
    unfold isTopFlowNode in Et. rewrite Hids in Et. by apply mem_str_true.
  - injection H as <-. left. assert (Et : isTopFlowNode n (Some sets) = true).
    { destruct (isTopFlowNode n (Some sets)) eqn:Et; [done|]. exfalso. apply Bool.not_true_iff_false in E. apply E.
      apply existsb_exists. exists n. split; [by apply list_elem_of_In|]. by rewrite Et. }
    unfold isTopFlowNode in Et. rewrite Hids in Et. by apply mem_str_true.
Qed.

Section OneGraph.
Variable rows : list FlowQuotaDataItem.
Variable metric : FlowMetric.
Variable role : FlowRole.
Variable palette : option (list str).
Variable visible : option (list FlowNodeKind).
Variable ctx : FlowPathContext.
Variable options : FlowGraphOptions.

Let stages : list FlowNodeKind := resolveVisibleStages role visible.
Let paths : list PreparedFlowPath := preparePaths localeCompare rows metric stages ctx options.
Let graph : DashboardFlowGraph :=
  buildFlowGraph localeCompare vchartDefaultDataScheme rows metric role palette visible ctx options.

Lemma graph_shape : exists f g, (forall n, kept_node n (f n)) /\ (forall l, kept_link l (g l)) /\
  g_nodes graph ≡ₚ map f (map snd (node_map paths metric palette)) /\
  g_links graph ≡ₚ map g (map snd (link_map paths metric palette)).
Proof.
  destruct (decorate_kept paths stages options (node_map paths metric palette) (link_map paths metric palette))
    as (f & g & Hf & Hg & E).
  destruct (finish_kept paths (map snd (on_values g (link_map paths metric palette)))) as (h & Hh & _ & Ph).
  exists f, (fun l => h (g l)). unfold graph, buildFlowGraph. cbv zeta. fold stages. fold paths.
  rewrite (surjective_pairing (buildMaps _ _ _ _ _)). fold (node_map paths metric palette) (link_map paths metric palette).
  rewrite E. cbn [fst snd g_nodes g_links]. split_and!; [done| | |].
  - intros l. unfold kept_link in *. by rewrite Hh, Hg.
  - rewrite sort_by_perm. unfold on_values. by rewrite !map_map.
  - rewrite Ph. unfold on_values. by rewrite !map_map.
Qed.

Lemma graph_node_ids : map fn_id (g_nodes graph) ≡ₚ map fst (node_map paths metric palette).
Proof.
  destruct graph_shape as (f & _ & Hf & _ & Pn & _). rewrite Pn, !map_map. eapply (reflexive_eq (R := Permutation)).
  apply map_ext_in. intros [k n] Hin. apply list_elem_of_In in Hin. cbn [fst snd].
  eapply node_entry in Hin as (Hn & _); [|apply prepare_ok]. rewrite <- Hn. by injection (Hf n) as -> _ _ _.
Qed.

Lemma graph_link_keys : map linkStableKey (g_links graph) ≡ₚ map fst (link_map paths metric palette).
Proof.
  destruct graph_shape as (_ & g & _ & Hg & _ & Pl). rewrite Pl, !map_map. eapply (reflexive_eq (R := Permutation)).
  apply map_ext_in. intros [k l] Hin. apply list_elem_of_In in Hin. cbn [fst snd].
  eapply link_entry in Hin as (Hn & _); [|apply prepare_ok]. rewrite <- Hn. unfold linkStableKey.
  by injection (Hg l) as -> -> _ _.
Qed.

Lemma graph_node (n : DashboardFlowNode) : n ∈ g_nodes graph ->
  totals_of metric (through (fn_id n) paths) (fn_value n) (fn_metrics n) /\
  exists p node, p ∈ paths /\ node ∈ pp_path p /\ pn_id node = fn_id n /\ pn_kind node = fn_kind n.
Proof.
  destruct graph_shape as (f & _ & Hf & _ & Pn & _). rewrite Pn. intros Hin.
  apply in_keys in Hin as (n0 & Hin & <-). apply in_keys in Hin as ([k n1] & Hin & <-). cbn [snd].
  eapply node_entry in Hin as (<- & Ht & p & node & Hp & Hn & Hi & Hk); [|apply prepare_ok].
  pose proof (Hf n1) as K. unfold kept_node in K. injection K as -> -> -> ->. split; [done|].
  injection Hk as _ ->. by exists p, node.
Qed.

Lemma graph_link (l : DashboardFlowLink) : l ∈ g_links graph ->
  totals_of metric (across (linkStableKey l) paths) (fl_value l) (fl_metrics l) /\
  exists p a b, p ∈ paths /\ (a, b) ∈ path_links (pp_path p) /\ fl_source l = pn_id a /\ fl_target l = pn_id b.
Proof.
  destruct graph_shape as (_ & g & _ & Hg & _ & Pl). rewrite Pl. intros Hin.
  apply in_keys in Hin as (l0 & Hin & <-). apply in_keys in Hin as ([k l1] & Hin & <-). cbn [snd].
  eapply link_entry in Hin as (<- & Ht & p & a & b & Hp & Hn & Hi & Hk); [|apply prepare_ok].
  pose proof (Hg l1) as K. unfold kept_link in K. unfold linkStableKey in *. injection K as -> -> -> ->. split; [done|].
  injection Hk as -> -> _ _. by exists p, a, b.
Qed.

Lemma graph_node_iff (x : str) (k : FlowNodeKind) :
  (exists n, n ∈ g_nodes graph /\ fn_id n = x /\ fn_kind n = k) <->
  exists p node, p ∈ paths /\ node ∈ pp_path p /\ pn_id node = x /\ pn_kind node = k.
Proof.
  split.
  - intros (n & Hn & <- & <-). by apply graph_node in Hn as [_ H].
  - intros (p & node & Hp & Hnode & <- & <-).
    assert (H : pn_id node ∈ map fn_id (g_nodes graph)) by (rewrite graph_node_ids; apply node_map_keys; eauto).
    apply in_keys in H as (n & Hn & Hi). exists n. split_and!; [done|done|].
    apply graph_node in Hn as (_ & p' & node' & Hp' & Hnode' & Hi' & <-).
    destruct (prepare_ok rows metric role visible ctx options) as [_ Hok]. rewrite Forall_forall in Hok.
    destruct (Hok _ Hp) as [_ Ho], (Hok _ Hp') as [_ Ho']. rewrite Forall_forall in Ho, Ho'.
    apply of_kind_id; [by apply Ho'|by apply Ho|congruence].
Qed.

(** The nodes of a column share the paths out. *)
Lemma graph_column (k : FlowNodeKind) : k ∈ stages ->
  concat (map (fun n => through (fn_id n) paths) (List.filter (fun n => bool_decide (fn_kind n = k)) (g_nodes graph)))
  ≡ₚ paths.
Proof.
  intros Hk. destruct (prepare_ok rows metric role visible ctx options) as [Hs Hp]. fold stages in Hs, Hp. fold paths in Hp.
  rewrite Forall_forall in Hp.
  transitivity (passing id (fun n => kind_name (pn_kind n)) (kind_name k) paths).
  - rewrite <- (map_map fn_id (fun x => through x paths)). apply passing_partition.
    + apply nodup_map_filter. rewrite graph_node_ids. apply node_map_nodup.
    + intros x. rewrite in_keys. transitivity (exists n, n ∈ g_nodes graph /\ fn_id n = x /\ fn_kind n = k).
      * split; intros (n & Hn); exists n; [|]; rewrite elem_of_filter_bool, bool_decide_eq_true in *; tauto.
      * rewrite graph_node_iff. split; intros (p & node & H1 & H2 & H3 & H4); exists p, node.
        -- by rewrite H4.
        -- apply kind_name_inj in H3. done.
    + intros p b Hin Hb. destruct (Hp _ Hin) as [_ Ho]. rewrite Forall_forall in Ho. destruct (Ho _ Hb) as [t ->].
      by destruct (pn_kind b).
    + intros p Hin. destruct (Hp _ Hin) as [E _]. unfold id. rewrite <- (map_map pn_kind kind_name), E.
      apply (nodup_key id); [by rewrite map_id|]. intros x y _ _. apply kind_name_inj.
    + intros p q b c Hin Hin' Hb Hc E. destruct (Hp _ Hin) as [_ Ho], (Hp _ Hin') as [_ Ho'].
      rewrite Forall_forall in Ho, Ho'. f_equal. apply of_kind_id; auto.
  - unfold passing. rewrite JsArray.filter_all; [done|]. rewrite Forall_forall. intros p Hin. destruct (Hp _ Hin) as [E _].
    apply mem_str_true. unfold id. rewrite <- (map_map pn_kind kind_name), E. apply in_keys. by exists k.
Qed.

(** One end of the links: their source or their target. *)
Lemma graph_end (end_ : FlowPathNode * FlowPathNode -> FlowPathNode) (lend : DashboardFlowLink -> str) (x : str) :
  ids_separable paths ->
  (end_ = fst /\ lend = fl_source \/ end_ = snd /\ lend = fl_target) ->
  (forall p, p ∈ paths -> NoDup (map (fun ab => pn_id (end_ ab)) (path_links (pp_path p)))) ->
  concat (map (fun l => across (linkStableKey l) paths) (List.filter (fun l => lend l =?s x) (g_links graph)))
  ≡ₚ passing path_links (fun ab => pn_id (end_ ab)) x paths.
Proof.
  intros Hnul Hend Hd. unfold ids_separable in Hnul. rewrite Forall_forall in Hnul.
  assert (Hkey : forall p q a b c d, p ∈ paths -> q ∈ paths -> (a, b) ∈ path_links (pp_path p) ->
    (c, d) ∈ path_links (pp_path q) -> link_key (a, b) = link_key (c, d) -> pn_id a = pn_id c /\ pn_id b = pn_id d).
  { intros p q a b c d Hp Hq Hab Hcd E. apply path_links_in in Hab as [Ha _], Hcd as [Hc _].
    apply separator_inj in E; [done| |]; cbn [fst].
    - pose proof (Hnul _ Hp) as H. rewrite Forall_forall in H. by apply H.
    - pose proof (Hnul _ Hq) as H. rewrite Forall_forall in H. by apply H. }
  rewrite <- (map_map linkStableKey (fun k => across k paths)). apply passing_partition.
  - apply nodup_map_filter. rewrite graph_link_keys. apply link_map_nodup.
  - intros k. rewrite in_keys. split.
    + intros (l & Hl & <-). apply elem_of_filter_bool in Hl as [Hl Hx%str_eqb_eq].
      apply graph_link in Hl as (_ & p & a & b & Hp & Hab & Ea & Eb). exists p, (a, b). split_and!; [done|done| |].
      * by destruct Hend as [[-> ->]|[-> ->]]; cbn [fst snd]; congruence.
      * unfold link_key, linkStableKey, pathLinkKey. cbn [fst snd]. by rewrite Ea, Eb.
    + intros (p & [a b] & Hp & Hab & Hx & <-).
      assert (H : link_key (a, b) ∈ map linkStableKey (g_links graph)) by (rewrite graph_link_keys; apply link_map_keys; eauto).
      apply in_keys in H as (l & Hl & El). exists l. split; [|done]. apply elem_of_filter_bool. split; [done|].
      apply graph_link in Hl as (_ & q & c & d & Hq & Hcd & Ec & Ed).
      assert (Ek : link_key (c, d) = link_key (a, b))
        by (rewrite <- El; unfold link_key, linkStableKey, pathLinkKey; cbn [fst snd]; by rewrite Ec, Ed).
      destruct (Hkey q p c d a b) as [E1 E2]; [done..|]. apply str_eqb_eq.
      destruct Hend as [[-> ->]|[-> ->]]; cbn [fst snd] in Hx; congruence.
  - intros p [a b] _ _ E. apply (f_equal (length (A := _))) in E. unfold link_key, pathLinkKey in E.
    rewrite !length_app in E. cbn in E. lia.
  - exact Hd.
  - intros p q [a b] [c d] Hp Hq Hab Hcd E. destruct (Hkey p q a b c d) as [E1 E2]; [done..|].
    by destruct Hend as [[-> _]|[-> _]].
Qed.

Lemma through_passing (end_ : FlowPathNode * FlowPathNode -> FlowPathNode) (x : str) :
  (forall p, p ∈ paths -> x ∈ map pn_id (pp_path p) <-> x ∈ map (fun ab => pn_id (end_ ab)) (path_links (pp_path p))) ->
  passing path_links (fun ab => pn_id (end_ ab)) x paths = through x paths.
Proof.
  intros H. unfold passing, through, passing. apply List.filter_ext_in. intros p Hp. apply list_elem_of_In, H in Hp.
  apply Bool.eq_iff_eq_true. by rewrite !mem_str_true, <- Hp.
Qed.

(** A node that is not in the last stage has one link out on every path
    through it, a node that is not in the first stage one link in. *)
Lemma graph_through (n : DashboardFlowNode) : n ∈ g_nodes graph -> ids_separable paths ->
  (last stages <> Some (fn_kind n) ->
   concat (map (fun l => across (linkStableKey l) paths) (List.filter (fun l => fl_source l =?s fn_id n) (g_links graph)))
   ≡ₚ through (fn_id n) paths) /\
  (head stages <> Some (fn_kind n) ->
   concat (map (fun l => across (linkStableKey l) paths) (List.filter (fun l => fl_target l =?s fn_id n) (g_links graph)))
   ≡ₚ through (fn_id n) paths).
Proof.
  intros Hn Hnul. destruct (prepare_ok rows metric role visible ctx options) as [Hs Hp]. fold stages in Hs, Hp. fold paths in Hp.
  rewrite Forall_forall in Hp.
  assert (Hkind : forall p m, p ∈ paths -> m ∈ pp_path p -> pn_id m = fn_id n -> pn_kind m = fn_kind n).
  { intros p m Hin Hm E. apply graph_node in Hn as (_ & q & m' & Hq & Hm' & E' & <-).
    destruct (Hp _ Hin) as [_ Ho], (Hp _ Hq) as [_ Ho']. rewrite Forall_forall in Ho, Ho'.
    apply of_kind_id; [by apply Ho|by apply Ho'|congruence]. }
  assert (Hd : forall p, p ∈ paths -> NoDup (map pn_id (pp_path p))) by (intros p Hin; by eapply path_nodup, Hp).
  split; intros Hk.
  - rewrite (graph_end fst) by first [done|by left|intros p Hin; rewrite <- (map_map fst pn_id), path_links_fst;
      eapply sublist_NoDup; [by apply Hd|]; apply map_sublist, removelast_sublist].
    rewrite through_passing; [done|]. intros p Hin. rewrite <- (map_map fst pn_id), path_links_fst, !in_keys.
    split; [|intros (m & Hm & <-); exists m; split; [by eapply elem_of_submseteq, sublist_submseteq, removelast_sublist|done]].
    intros (m & Hm & E). exists m. split; [|done]. apply removelast_not_last; [done|]. intros El. apply Hk.
    rewrite <- (Hkind p m) by done. destruct (Hp _ Hin) as [<- _]. change (last (pn_kind <$> pp_path p) = Some (pn_kind m)). by rewrite fmap_last, El.
  - rewrite (graph_end snd) by first [done|by right|intros p Hin; rewrite <- (map_map snd pn_id), path_links_snd;
      eapply sublist_NoDup; [by apply Hd|]; apply map_sublist, tail_sublist].
    rewrite through_passing; [done|]. intros p Hin. rewrite <- (map_map snd pn_id), path_links_snd, !in_keys.
    destruct (Hp _ Hin) as [Ek _]. destruct (pp_path p) as [|h t] eqn:Ep; [done|]. cbn [tail].
    split; [|intros (m & Hm & <-); exists m; split; [by right|done]].
    intros (m & Hm & E). apply elem_of_cons in Hm as [->|Hm]; [|by exists m]. exfalso. apply Hk.
    rewrite <- (Hkind p h), <- Ek; [done|done|rewrite Ep; by left|done].
Qed.

Lemma graph_column_ids (k : FlowNodeKind) (n : DashboardFlowNode) (sets : list (FlowNodeKind * list str)) (ids : list str) :
  buildTopNodeSets localeCompare rows metric stages (normalizeTopNodeLimit (topNodeLimit options)) ctx = Some sets ->
  map_get k sets = Some ids -> n ∈ g_nodes graph -> fn_kind n = k ->
  fn_id n ∈ ids \/ nullish (overflowMode options) Aggregate = Aggregate /\ fn_id n = OTHER_FLOW_NODE_IDS k.
Proof.
  intros Es Ek Hn <-. apply graph_node in Hn as (_ & p & node & Hp & Hnode & <- & Hkind). rewrite <- Hkind in *.
  unfold paths, preparePaths in Hp. rewrite Es in Hp. apply list_elem_of_omap in Hp as (row & _ & H).
  destruct (applyTopNodeLimit _ _ _ _) as [path|] eqn:E; [|done]. injection H as <-.
  by eapply limited_nodes.
Qed.

Lemma graph_column_bound (k : FlowNodeKind) (limit : Z) :
  normalizeTopNodeLimit (topNodeLimit options) = Some limit ->
  Z.of_nat (length (List.filter (fun n => bool_decide (fn_kind n = k)) (g_nodes graph)))
  <= limit + match nullish (overflowMode options) Aggregate with Aggregate => 1 | Hide => 0 end.
Proof.
  intros Hl. assert (Hpos : 0 < limit).
  { unfold normalizeTopNodeLimit in Hl. destruct (topNodeLimit options); [|done].
    destruct (_ && (0 <? _)) eqn:E; [|done]. injection Hl as <-. apply andb_true_iff in E as [_ E]. lia. }
  destruct (decide (k ∈ stages)) as [Hk|Hk].
  - destruct (top_sets rows metric stages limit ctx k Hpos Hk) as (sets & ids & Es & Ek & Hlen).
    rewrite <- (length_map fn_id). set (l := map fn_id _).
    assert (Hd : List.NoDup l).
    { apply NoDup_ListNoDup, nodup_map_filter. rewrite graph_node_ids. apply node_map_nodup. }
    assert (Hin : forall x, x ∈ l -> x ∈ ids \/ nullish (overflowMode options) Aggregate = Aggregate /\ x = OTHER_FLOW_NODE_IDS k).
    { intros x Hx. apply in_keys in Hx as (n & Hn & <-). apply elem_of_filter_bool in Hn as [Hn Hkn%bool_decide_eq_true].
      eapply graph_column_ids; [by rewrite Hl|done..]. }
    destruct (nullish (overflowMode options) Aggregate).
    + enough (length l <= length (OTHER_FLOW_NODE_IDS k :: ids))%nat by (cbn [length] in *; lia).
      apply List.NoDup_incl_length; [done|]. intros x Hx. apply list_elem_of_In in Hx. apply list_elem_of_In.
      destruct (Hin x Hx) as [H|[_ ->]]; [by right|by left].
    + enough (length l <= length ids)%nat by lia.
      apply List.NoDup_incl_length; [done|]. intros x Hx. apply list_elem_of_In in Hx. apply list_elem_of_In.
      by destruct (Hin x Hx) as [H|[H _]].
  - rewrite JsArray.filter_none; [cbn; destruct (nullish _ _); lia|]. apply Forall_forall. intros n Hn.
    apply bool_decide_eq_false. intros <-. apply Hk. apply graph_node in Hn as (_ & p & node & Hp & Hnode & _ & <-).
    destruct (prepare_ok rows metric role visible ctx options) as [_ Hok]. rewrite Forall_forall in Hok.
    destruct (Hok _ Hp) as [Hs _]. fold stages in Hs. rewrite <- Hs. apply in_keys. by exists node.
Qed.

(** Aggregation drops no row. *)
Lemma aggregate_rows : nullish (overflowMode options) Aggregate = Aggregate ->
  map pp_metrics paths = map rowMetrics rows.
Proof.
  intros Hm. unfold paths, preparePaths. rewrite Hm. set (sets := buildTopNodeSets _ _ _ _ _ _).
  clearbody sets. generalize rows as l. induction l as [|row l IH]; [done|]. cbn [omap list_omap].
  assert (H : exists path, applyTopNodeLimit (flowPathForStages row stages ctx) sets Aggregate (otherNodeLabel options) = Some path).
  { unfold applyTopNodeLimit. destruct sets; [|by eexists]. destruct (negb _); by eexists. }
  destruct H as [path ->]. cbn [map pp_metrics]. by rewrite <- IH.
Qed.

(** Masking: the label of a node and the labels of its links. *)
Definition masked_links (masked : list (str * str)) (l : DashboardFlowLink) : DashboardFlowLink :=
  if Z.of_nat (length masked) =? 0 then l else mask_link masked l.

Lemma masked_shape : maskSensitive options = true ->
  let ns := node_map paths metric palette in let ls := link_map paths metric palette in
  exists f g, (forall n, kept_node n (f n)) /\ (forall n, fn_label (f n) = fn_label n) /\ (forall l, kept_link l (g l)) /\
    (forall l, (fl_sourceLabel (g l), fl_targetLabel (g l)) = (fl_sourceLabel l, fl_targetLabel l)) /\
    g_nodes graph ≡ₚ map (fun kn => f (mask_node (snd kn))) ns /\
    g_links graph ≡ₚ map (fun kl => g (masked_links (maskedById ns) (snd kl))) ls.
Proof.
  intros Hm ns ls. destruct (highlight_maps (fst (maskFlowGraphLabels ns ls)) (snd (maskFlowGraphLabels ns ls))
    (buildFlowHighlightSets paths (activeNode options) (activeLink options) stages)) as (f & g & Hf & Hfl & Hg & Hgl & E).
  destruct (finish_kept paths (map snd (on_values g (snd (maskFlowGraphLabels ns ls))))) as (h & Hh & Hhl & Ph).
  exists f, (fun l => h (g l)). unfold graph, buildFlowGraph. cbv zeta. fold stages. fold paths.
  rewrite (surjective_pairing (buildMaps _ _ _ _ _)). fold (node_map paths metric palette) (link_map paths metric palette).
  fold ns ls. unfold decorate. rewrite Hm. cbn [fst snd]. rewrite E. cbn [fst snd g_nodes g_links]. split_and!; [done|done| | | |].
  - intros l. unfold kept_link in *. by rewrite Hh, Hg.
  - intros l. by rewrite Hhl, Hgl.
  - rewrite sort_by_perm. unfold maskFlowGraphLabels, on_values. cbn [fst]. by rewrite !map_map.
  - rewrite Ph. unfold maskFlowGraphLabels, on_values, masked_links. cbn [snd]. destruct (_ =? _); by rewrite !map_map.
Qed.

Lemma maskedById_get (n : DashboardFlowNode) : (fn_id n, n) ∈ node_map paths metric palette -> to_mask n = true ->
  map_get (fn_id n) (maskedById (node_map paths metric palette)) = Some (maskFlowLabel (fn_label n)).
Proof.
  intros Hn Ht. unfold maskedById. rewrite fold_left_if with
    (f := fun m kn => map_set (fn_id (snd kn)) (maskFlowLabel (fn_label (snd kn))) m).
  apply (fold_map_set_get (fun kn : str * DashboardFlowNode => fn_id (snd kn)) (fun kn => maskFlowLabel (fn_label (snd kn))) _ _ (fn_id n, n)).
  - apply nodup_map_filter. rewrite (map_ext_in _ fst); [apply node_map_nodup|]. intros [k m] Hin%list_elem_of_In.
    eapply node_entry in Hin as [Hid _]; [|apply prepare_ok]. exact Hid.
  - by apply elem_of_filter_bool.
Qed.

Lemma graph_masked : maskSensitive options = true ->
  Forall (fun n => to_mask n = true -> fn_label n = [] \/ fn_label n = FLOW_MASK_TEXT) (g_nodes graph) /\
  Forall (fun l => Forall (fun n => to_mask n = true ->
    (fl_source l = fn_id n -> fl_sourceLabel l = fn_label n) /\ (fl_target l = fn_id n -> fl_targetLabel l = fn_label n))
    (g_nodes graph)) (g_links graph).
Proof.
  intros Hm. destruct (masked_shape Hm) as (f & g & Hf & Hfl & Hg & Hgl & Pn & Pl).
  assert (Hnode : forall n, n ∈ g_nodes graph -> to_mask n = true ->
    exists n0, (fn_id n0, n0) ∈ node_map paths metric palette /\ to_mask n0 = true /\
      fn_id n = fn_id n0 /\ fn_label n = maskFlowLabel (fn_label n0)).
  { intros n Hn Ht. rewrite Pn in Hn. apply in_keys in Hn as ([k n0] & Hn & <-). cbn [snd] in *.
    pose proof (node_entry (resolveVisibleStages role visible) paths metric palette k n0 (prepare_ok _ _ _ _ _ _) Hn) as [<- _].
    exists n0. pose proof (Hf (mask_node n0)) as K. pose proof (mask_kept n0) as K'. unfold kept_node in K, K'.
    rewrite K' in K. assert (Ht0 : to_mask n0 = true) by (injection K as E1 E2 _ _; unfold to_mask in *; by rewrite E1, E2 in Ht).
    injection K as -> _ _ _. split_and!; [done|done|done|]. rewrite Hfl. unfold mask_node. by rewrite Ht0. }
  split; apply Forall_forall.
  - intros n Hn Ht. destruct (Hnode n Hn Ht) as (n0 & _ & _ & _ & ->). unfold maskFlowLabel.
    destruct (fn_label n0); [by left|by right].
  - intros l Hl. apply Forall_forall. intros n Hn Ht. destruct (Hnode n Hn Ht) as (n0 & Hn0 & Ht0 & -> & ->).
    pose proof (maskedById_get n0 Hn0 Ht0) as Hget.
    rewrite Pl in Hl. apply in_keys in Hl as ([k l0] & _ & <-). cbn [snd].
    unfold masked_links. destruct (_ =? 0) eqn:E0.
    { by destruct (maskedById _). }
    pose proof (Hg (mask_link (maskedById (node_map paths metric palette)) l0)) as K. unfold kept_link in K.
    pose proof (Hgl (mask_link (maskedById (node_map paths metric palette)) l0)) as L.
    injection K as -> -> _ _. injection L as -> ->. unfold mask_link. cbn [fl_source fl_target fl_sourceLabel fl_targetLabel].
    split; intros ->; by rewrite Hget.
Qed.

End OneGraph.

End Graph.

(** ** Filters by nodes *)

(** The identifiers selected for a kind. *)
Definition selected_ids (selected : option (list FlowNodeFilter)) (k : FlowNodeKind) : list str :=
  map nf_id (with_key nf_kind k (nullish selected [])).

(** A row is admitted when, in each stage with a selection, its node is
    selected. *)
Definition admits (selected : option (list FlowNodeFilter)) (stages : list FlowNodeKind) (ctx : FlowPathContext)
    (row : FlowQuotaDataItem) : bool :=
  forallb (fun k => match selected_ids selected k with
                    | [] => true
                    | ids => mem_str (pn_id (NODE_BUILDERS k row ctx)) ids
                    end) stages.

Lemma collect_steps {A : Type} (f : A -> str) (l : list A) (ids : list str) :
  fold_left (fun ids x => ids ++ [f x]) l ids = ids ++ map f l.
Proof.
  revert ids. induction l as [|x l IH]; intros ids; cbn; [by rewrite app_nil_r|]. by rewrite IH, <- app_assoc.
Qed.

(** The entries of the normalized filters: the stages with a selection. *)
Lemma filters_entries (selected : option (list FlowNodeFilter)) (stages : list FlowNodeKind) (k : FlowNodeKind) (ids : list str) :
  (k, ids) ∈ normalizeSelectedNodeFilters selected stages <-> k ∈ stages /\ ids = selected_ids selected k /\ ids <> [].
Proof.
  assert (E : normalizeSelectedNodeFilters selected stages
    = fold_left (accumulate nf_kind (fun _ => []) (fun ids f => ids ++ [nf_id f]))
        (List.filter (fun f => bool_decide (nf_kind f ∈ stages)) (nullish selected [])) []).
  { unfold normalizeSelectedNodeFilters. apply (fold_left_if (accumulate nf_kind (fun _ => []) (fun ids f => ids ++ [nf_id f]))). }
  assert (Hw : with_key nf_kind k (List.filter (fun f => bool_decide (nf_kind f ∈ stages)) (nullish selected []))
    = if decide (k ∈ stages) then with_key nf_kind k (nullish selected []) else []).
  { unfold with_key. rewrite JsArray.filter_filter. destruct (decide (k ∈ stages)) as [Hk|Hk].
    - apply List.filter_ext. intros f. destruct (bool_decide (nf_kind f = k)) eqn:Ef; [|by rewrite andb_false_r].
      apply bool_decide_eq_true in Ef as ->. by rewrite bool_decide_true.
    - apply JsArray.filter_none, Forall_forall. intros f _. destruct (bool_decide (nf_kind f = k)) eqn:Ef; [|by rewrite andb_false_r].
      apply bool_decide_eq_true in Ef as ->. by rewrite bool_decide_false. }
  rewrite E. split.
  - intros H. apply map_get_nodup in H; [|by apply accumulate_nodup; constructor]. rewrite accumulate_get, Hw in H.
    destruct (decide (k ∈ stages)) as [Hk|Hk]; [|done]. unfold selected_ids. cbn [map_get] in H.
    destruct (with_key nf_kind k (nullish selected [])) as [|f r]; [done|]. cbn [accumulated] in H.
    apply (inj Some) in H as <-. rewrite collect_steps. done.
  - intros (Hk & -> & Hne). apply map_get_In. rewrite accumulate_get, Hw, decide_True by done. unfold selected_ids in *.
    destruct (with_key nf_kind k (nullish selected [])) as [|f r]; [done|]. cbn [map_get accumulated].
    by rewrite collect_steps.
Qed.

Lemma path_ids_of_kind (stages : list FlowNodeKind) (row : FlowQuotaDataItem) (ctx : FlowPathContext) (k : FlowNodeKind) :
  NoDup stages -> k ∈ stages ->
  map_get k (pathNodesByKind (flowPathForStages row stages ctx)) = Some [pn_id (NODE_BUILDERS k row ctx)].
Proof.
  intros Hd Hk. unfold pathNodesByKind.
  change (fold_left _ ?l ?m) with (fold_left (accumulate pn_kind (fun _ => []) (fun ids n => ids ++ [pn_id n])) l m).
  rewrite accumulate_get. enough (H : with_key pn_kind k (flowPathForStages row stages ctx) = [NODE_BUILDERS k row ctx]) by by rewrite H.
  unfold flowPathForStages, with_key. induction Hd as [|j stages Hj Hd IH]; [by apply not_elem_of_nil in Hk|].
  cbn [map List.filter]. rewrite builder_kind. apply elem_of_cons in Hk as [->|Hk].
  - rewrite bool_decide_true by done. f_equal. apply JsArray.filter_none, Forall_map, Forall_forall. intros i Hi.
    rewrite builder_kind. apply bool_decide_eq_false. by intros ->.
  - rewrite bool_decide_false by (by intros ->). by apply IH.
Qed.

Lemma existsb_mem (ids : list str) (x : str) : existsb (fun id => mem_str id [x]) ids = mem_str x ids.
Proof.
  apply Bool.eq_iff_eq_true. rewrite existsb_exists, mem_str_true. split.
  - intros (y & Hy & H). apply mem_str_true, list_elem_of_singleton in H as ->. by apply list_elem_of_In.
  - intros H. exists x. split; [by apply list_elem_of_In|]. apply mem_str_true, list_elem_of_singleton. done.
Qed.

Lemma forallb_ext_in {A : Type} (p q : A -> bool) (l : list A) :
  (forall x, In x l -> p x = q x) -> forallb p l = forallb q l.
Proof.
  induction l as [|x l IH]; intros H; cbn; [done|]. rewrite (H x), IH; [done| |by left]. intros y Hy. apply H. by right.
Qed.

Lemma matches_admits (stages : list FlowNodeKind) (row : FlowQuotaDataItem) (ctx : FlowPathContext)
    (selected : option (list FlowNodeFilter)) :
  NoDup stages ->
  pathMatchesNodeFilters (flowPathForStages row stages ctx) (normalizeSelectedNodeFilters selected stages)
  = admits selected stages ctx row.
Proof.
  intros Hd. transitivity (forallb (fun kf => mem_str (pn_id (NODE_BUILDERS (fst kf) row ctx)) (snd kf))
    (normalizeSelectedNodeFilters selected stages)).
  - unfold pathMatchesNodeFilters. destruct (normalizeSelectedNodeFilters selected stages) as [|kf kfs] eqn:E; [done|].
    change (Z.of_nat (length (kf :: kfs)) =? 0) with false. cbv iota zeta. rewrite <- E.
    apply forallb_ext_in. intros [k ids] Hin%list_elem_of_In. apply filters_entries in Hin as [Hk _]. cbn [fst snd].
    rewrite path_ids_of_kind by done. apply existsb_mem.
  - apply Bool.eq_iff_eq_true. unfold admits. rewrite !forallb_forall. split.
    + intros H k Hk%list_elem_of_In. destruct (selected_ids selected k) as [|i ids] eqn:E; [done|].
      apply (H (k, i :: ids)). apply list_elem_of_In, filters_entries. done.
    + intros H [k ids] Hin%list_elem_of_In. apply filters_entries in Hin as (Hk & -> & Hne). cbn [fst snd].
      specialize (H k ltac:(by apply list_elem_of_In)). by destruct (selected_ids selected k).
Qed.

Lemma filterRowsByNodes_admits (rows : list FlowQuotaDataItem) (selected : option (list FlowNodeFilter))
    (stages : list FlowNodeKind) (ctx : FlowPathContext) :
  NoDup stages -> filterRowsByNodes rows selected stages ctx = List.filter (admits selected stages ctx) rows.
Proof.
  intros Hd. unfold filterRowsByNodes. cbv zeta. rewrite (List.filter_ext (admits selected stages ctx)
    (fun row => pathMatchesNodeFilters (flowPathForStages row stages ctx) (normalizeSelectedNodeFilters selected stages)))
    by (intros row; by rewrite matches_admits).
  destruct (_ =? 0) eqn:E; [|done]. rewrite JsArray.filter_all; [done|]. apply Forall_forall. intros row _.
  unfold pathMatchesNodeFilters. by rewrite E.
Qed.

(** ** The theorems *)

Section FlowTheorems.
Variable localeCompare : str -> str -> Z.
Variable formatNumber : num -> str.
Variable vchartDefaultDataScheme : list (option num * list (option str)).

(** C5: the nodes of the diagram are the nodes of the paths, once each, and its
    links are the steps of the paths, once each; the value and the metrics of a
    node are the sums over the rows whose path passes through it, those of a
    link the sums over the rows whose path takes it, in the order of the rows. *)
Theorem flow_totals (rows : list FlowQuotaDataItem) (metric : FlowMetric) (role : FlowRole)
    (palette : option (list str)) (visible : option (list FlowNodeKind)) (ctx : FlowPathContext)
    (options : FlowGraphOptions) :
  let graph := buildFlowGraph localeCompare vchartDefaultDataScheme rows metric role palette visible ctx options in
  let paths := preparePaths localeCompare rows metric (resolveVisibleStages role visible) ctx options in
  NoDup (map fn_id (g_nodes graph)) /\
  NoDup (map linkStableKey (g_links graph)) /\
  (forall x, x ∈ map fn_id (g_nodes graph) <-> exists p node, p ∈ paths /\ node ∈ pp_path p /\ pn_id node = x) /\
  (forall x, x ∈ map linkStableKey (g_links graph) <->
    exists p ab, p ∈ paths /\ ab ∈ path_links (pp_path p) /\ link_key ab = x) /\
  Forall (fun n => totals_of metric (through (fn_id n) paths) (fn_value n) (fn_metrics n)) (g_nodes graph) /\
  Forall (fun l => totals_of metric (across (linkStableKey l) paths) (fl_value l) (fl_metrics l)) (g_links graph).
Proof.
  cbv zeta. split_and!.
  - rewrite graph_node_ids. apply node_map_nodup.
  - rewrite graph_link_keys. apply link_map_nodup.
  - intros x. rewrite graph_node_ids. apply node_map_keys.
  - intros x. rewrite graph_link_keys. apply link_map_keys.
  - apply Forall_forall. intros n Hn. by apply graph_node in Hn as [H _].
  - apply Forall_forall. intros l Hl. by apply graph_link in Hl as [H _].
Qed.

(** C4: flow is conserved.  The nodes of every column share the rows out among
    them; on the way to the next column the links out of a node share out the
    rows of the node, and so do the links into it on the way from the previous
    column. *)
Theorem flow_conserved (rows : list FlowQuotaDataItem) (metric : FlowMetric) (role : FlowRole)
    (palette : option (list str)) (visible : option (list FlowNodeKind)) (ctx : FlowPathContext)
    (options : FlowGraphOptions) :
  let graph := buildFlowGraph localeCompare vchartDefaultDataScheme rows metric role palette visible ctx options in
  let stages := resolveVisibleStages role visible in
  let paths := preparePaths localeCompare rows metric stages ctx options in
  let shares l := concat (map (fun l => across (linkStableKey l) paths) l) in
  ids_separable paths ->
  Forall (fun k => concat (map (fun n => through (fn_id n) paths)
                             (List.filter (fun n => bool_decide (fn_kind n = k)) (g_nodes graph))) ≡ₚ paths) stages /\
  Forall (fun n =>
    (last stages <> Some (fn_kind n) ->
     shares (List.filter (fun l => fl_source l =?s fn_id n) (g_links graph)) ≡ₚ through (fn_id n) paths) /\
    (head stages <> Some (fn_kind n) ->
     shares (List.filter (fun l => fl_target l =?s fn_id n) (g_links graph)) ≡ₚ through (fn_id n) paths))
    (g_nodes graph).
Proof.
  intros graph stages paths shares Hsep. split; apply Forall_forall.
  - intros k Hk. by apply graph_column.
  - intros n Hn. by apply graph_through.
Qed.

(** With a limit on the nodes of a column no column has more nodes than the
    limit, but for the one node that stands for the others where they are
    aggregated; and aggregation drops no row. *)
Theorem flow_limited (rows : list FlowQuotaDataItem) (metric : FlowMetric) (role : FlowRole)
    (palette : option (list str)) (visible : option (list FlowNodeKind)) (ctx : FlowPathContext)
    (options : FlowGraphOptions) (k : FlowNodeKind) (limit : Z) :
  let graph := buildFlowGraph localeCompare vchartDefaultDataScheme rows metric role palette visible ctx options in
  let paths := preparePaths localeCompare rows metric (resolveVisibleStages role visible) ctx options in
  normalizeTopNodeLimit (topNodeLimit options) = Some limit ->
  Z.of_nat (length (List.filter (fun n => bool_decide (fn_kind n = k)) (g_nodes graph)))
    <= limit + match nullish (overflowMode options) Aggregate with Aggregate => 1 | Hide => 0 end /\
  (nullish (overflowMode options) Aggregate = Aggregate -> map pp_metrics paths = map rowMetrics rows).
Proof. intros graph paths Hl. split; [by apply graph_column_bound|apply aggregate_rows]. Qed.

(** The rows of the diagram are, in order, the rows of the selected users
    that are admitted by the selected nodes: in each visible stage with a
    selection the row's own node is selected; the summary is over these rows. *)
Theorem flow_filtered (rows : list FlowQuotaDataItem) (metric : FlowMetric) (options : FlowBuildOptions) :
  let stages := resolveVisibleStages (nullish (bo_role options) RUser) (bo_visibleStages options) in
  let shown := List.filter (fun row =>
    match nullish (bo_selectedUsers options) [] with
    | [] => true
    | users => mem_str (pn_id (userNode row)) users
    end && admits (bo_selectedNodes options) stages (bo_deletedTokenLabel options) row) rows in
  let data := buildDashboardFlowData localeCompare formatNumber vchartDefaultDataScheme rows metric options in
  fd_summary data = buildSummary shown /\
  fd_flow data = buildFlowGraph localeCompare vchartDefaultDataScheme shown metric (nullish (bo_role options) RUser)
    (bo_colorPalette options) (bo_visibleStages options) (bo_deletedTokenLabel options) (bo_graph options).
Proof.
  intros stages shown data. unfold data, buildDashboardFlowData. cbv zeta. fold stages.
  enough (E : filterRowsByNodes (filterRows rows (bo_selectedUsers options)) (bo_selectedNodes options) stages
    (bo_deletedTokenLabel options) = shown) by by rewrite E.
  unfold shown. rewrite <- JsArray.filter_filter. rewrite filterRowsByNodes_admits by apply stages_nodup. f_equal.
  unfold filterRows. destruct (nullish (bo_selectedUsers options) []) as [|u us]; [|done].
  symmetry. apply (JsArray.filter_all (fun _ => true)), Forall_forall. done.
Qed.

(** With masking on, the label of every node that identifies somebody or
    something sensitive is empty or the mask, and the labels that a link shows
    for its ends are those of its nodes. *)
Theorem flow_masked (rows : list FlowQuotaDataItem) (metric : FlowMetric) (role : FlowRole)
    (palette : option (list str)) (visible : option (list FlowNodeKind)) (ctx : FlowPathContext)
    (options : FlowGraphOptions) :
  let graph := buildFlowGraph localeCompare vchartDefaultDataScheme rows metric role palette visible ctx options in
  maskSensitive options = true ->
  Forall (fun n => to_mask n = true -> fn_label n = [] \/ fn_label n = FLOW_MASK_TEXT) (g_nodes graph) /\
  Forall (fun l => Forall (fun n => to_mask n = true ->
    (fl_source l = fn_id n -> fl_sourceLabel l = fn_label n) /\
    (fl_target l = fn_id n -> fl_targetLabel l = fn_label n)) (g_nodes graph)) (g_links graph).
Proof. intros graph Hm. by apply graph_masked. Qed.

End FlowTheorems.

(** ** Witnesses *)

Definition a_row (user model : str) (token quota : Z) : FlowQuotaDataItem :=
  MkRow (Some (num_of_Z 7)) (Some user) None (Some (js "vip")) (Some (num_of_Z token)) None None None (Some model)
    None None None None (Some (num_of_Z 1)) (Some (num_of_Z quota)).

Definition some_rows : list FlowQuotaDataItem :=
  [a_row "ann" "gpt" 1 5; a_row "ann" "gpt" 2 7; a_row "bob" "o1" 2 9].

Definition limited_options (limit : Z) (mode : FlowOverflowMode) (mask : bool) : FlowGraphOptions :=
  MkGraphOptions (Some (num_of_Z limit)) (Some mode) None None None mask.

Lemma flow_conserved_witness :
  let paths := preparePaths str_cmp some_rows MQuota (resolveVisibleStages RUser None) None (limited_options 1 Aggregate true) in
  length paths = 3%nat /\ ids_separable paths /\
  concat (map (fun n => through (fn_id n) paths) (List.filter (fun n => bool_decide (fn_kind n = KModel))
    (g_nodes (buildFlowGraph str_cmp [] some_rows MQuota RUser None None None (limited_options 1 Aggregate true))))) ≡ₚ paths.
Proof.
  cbv zeta. assert (Hs : ids_separable (preparePaths str_cmp some_rows MQuota (resolveVisibleStages RUser None) None
    (limited_options 1 Aggregate true))).
  { unfold ids_separable. apply (bool_decide_unpack _). vm_compute. exact I. }
  split; [vm_compute; reflexivity|]. split; [exact Hs|].
  pose proof (flow_conserved str_cmp [] some_rows MQuota RUser None None None (limited_options 1 Aggregate true) Hs) as [H _].
  rewrite Forall_forall in H. apply (H KModel). apply (bool_decide_unpack _). vm_compute. exact I.
Defined.

Lemma flow_limited_witness :
  normalizeTopNodeLimit (topNodeLimit (limited_options 1 Aggregate true)) = Some 1 /\
  Z.of_nat (length (List.filter (fun n => bool_decide (fn_kind n = KModel))
    (g_nodes (buildFlowGraph str_cmp [] some_rows MQuota RUser None None None (limited_options 1 Aggregate true))))) <= 1 + 1.
Proof.
  split; [vm_compute; reflexivity|].
  apply (flow_limited str_cmp [] some_rows MQuota RUser None None None (limited_options 1 Aggregate true) KModel 1).
  vm_compute. reflexivity.
Defined.

Lemma flow_masked_witness :
  let graph := buildFlowGraph str_cmp [] some_rows MQuota RUser None None None (limited_options 1 Aggregate true) in
  existsb to_mask (g_nodes graph) = true /\
  Forall (fun n => to_mask n = true -> fn_label n = [] \/ fn_label n = FLOW_MASK_TEXT) (g_nodes graph).
Proof.
  split; [vm_compute; reflexivity|].
  apply (flow_masked str_cmp [] some_rows MQuota RUser None None None (limited_options 1 Aggregate true)). reflexivity.
Defined.
