(* ===== verification/Messages.v ===== *)
(** * Playground messages

    Models the pure part of the playground
    ([src/web/src/features/playground/]): the message data of [types.ts] and
    [constants.ts], and the functions of [lib/message/]: versions and content,
    timing, reasoning tags, streaming, errors, edits and what a message view
    shows.

    A timestamp is a number of milliseconds, an integer.  A function that reads
    the clock takes the reading as an argument, one per call of [Date.now], and
    a function that creates a message takes the identifiers that [nanoid]
    returns. *)

From stdpp Require Import base list.
From Stdlib Require Import ZArith NArith Lia.
From S2P Require Import Prelude JsString JsArray JsJson.

Local Open Scope Z_scope.

(** ** Data *)

Inductive MessageRole : Type := USER | ASSISTANT | SYSTEM.

Inductive MessageStatus : Type := LOADING | STREAMING | COMPLETE | ERROR.

Inductive PlaygroundMessageLayoutMode : Type := LayoutAlternating | LayoutLeft.

#[export] Instance MessageRole_eq_dec : EqDecision MessageRole.
Proof. solve_decision. Defined.

#[export] Instance MessageStatus_eq_dec : EqDecision MessageStatus.
Proof. solve_decision. Defined.

Record MessageVersion : Type := Version { v_id : str; v_content : str }.

Record Reasoning : Type := Reason {
  r_content : str;
  r_duration : Z;
  r_startedAt : option Z;
  r_completedAt : option Z;
  r_durationMs : option Z;
}.

Record Message : Type := Msg {
  m_key : str;
  from : MessageRole;
  versions : list MessageVersion;
  createdAt : option Z;
  startedAt : option Z;
  completedAt : option Z;
  durationMs : option Z;
  sources : option (list (str * str));
  reasoning : option Reasoning;
  isReasoningStreaming : bool;       (** [undefined] is not told from [false] *)
  isReasoningComplete : bool;
  isContentComplete : bool;
  status : option MessageStatus;
  errorCode : option str;            (** [null] is not told from [undefined] *)
}.

(** The spread of a message with one field replaced. *)
Definition with_versions (vs : list MessageVersion) (m : Message) : Message :=
  Msg (m_key m) (from m) vs (createdAt m) (startedAt m) (completedAt m)
    (durationMs m) (sources m) (reasoning m) (isReasoningStreaming m)
    (isReasoningComplete m) (isContentComplete m) (status m) (errorCode m).

Definition with_createdAt (t : option Z) (m : Message) : Message :=
  Msg (m_key m) (from m) (versions m) t (startedAt m) (completedAt m)
    (durationMs m) (sources m) (reasoning m) (isReasoningStreaming m)
    (isReasoningComplete m) (isContentComplete m) (status m) (errorCode m).

Definition with_timing (s c d : option Z) (m : Message) : Message :=
  Msg (m_key m) (from m) (versions m) (createdAt m) s c d (sources m)
    (reasoning m) (isReasoningStreaming m) (isReasoningComplete m)
    (isContentComplete m) (status m) (errorCode m).

Definition with_reasoning (r : option Reasoning) (m : Message) : Message :=
  Msg (m_key m) (from m) (versions m) (createdAt m) (startedAt m) (completedAt m)
    (durationMs m) (sources m) r (isReasoningStreaming m)
    (isReasoningComplete m) (isContentComplete m) (status m) (errorCode m).

Definition with_reasoningStreaming (b : bool) (m : Message) : Message :=
  Msg (m_key m) (from m) (versions m) (createdAt m) (startedAt m) (completedAt m)
    (durationMs m) (sources m) (reasoning m) b (isReasoningComplete m)
    (isContentComplete m) (status m) (errorCode m).

Definition with_status (s : MessageStatus) (m : Message) : Message :=
  Msg (m_key m) (from m) (versions m) (createdAt m) (startedAt m) (completedAt m)
    (durationMs m) (sources m) (reasoning m) (isReasoningStreaming m)
    (isReasoningComplete m) (isContentComplete m) (Some s) (errorCode m).

Definition with_errorCode (e : option str) (m : Message) : Message :=
  Msg (m_key m) (from m) (versions m) (createdAt m) (startedAt m) (completedAt m)
    (durationMs m) (sources m) (reasoning m) (isReasoningStreaming m)
    (isReasoningComplete m) (isContentComplete m) (status m) e.

Definition API_REQUEST_ERROR : str := "Request error occurred".
Definition NETWORK_ERROR : str := "Network connection failed or server not responding".
Definition PARSE_ERROR : str := "Error parsing response data".
Definition STREAM_START_ERROR : str := "Error establishing connection".
Definition CONNECTION_CLOSED : str := "Connection closed".
Definition INTERRUPTED : str := "Generation was interrupted".

Definition ERROR_MESSAGES : list str :=
  [ API_REQUEST_ERROR; NETWORK_ERROR; PARSE_ERROR; STREAM_START_ERROR;
    CONNECTION_CLOSED; INTERRUPTED ].

(** ** Versions and content *)

Definition createMessageVersion (id content : str) : MessageVersion :=
  Version id content.

Definition getCurrentVersion (m : Message) : MessageVersion :=
  match versions m with v :: _ => v | [] => Version "default" [] end.

Definition getMessageContent (m : Message) : str := v_content (getCurrentVersion m).

Definition hasMessageContent (m : Message) : bool :=
  truthy_str (trim (getMessageContent m)).

Definition updateCurrentVersionContent (m : Message) (content : str) : Message :=
  with_versions [Version (v_id (getCurrentVersion m)) content] m.

Definition createUserMessage (key vid content : str) (now : Z) : Message :=
  Msg key USER [createMessageVersion vid content] (Some now) None None None None
    None false false false None None.

Definition createLoadingAssistantMessage (key vid : str) (now : Z) : Message :=
  Msg key ASSISTANT [createMessageVersion vid []] (Some now) (Some now) None None
    None None false false false (Some LOADING) None.

Inductive ContentPart : Type := TextPart (text : str) | ImagePart (url : str).

Inductive ChatContent : Type := CText (s : str) | CParts (ps : list ContentPart).

Record ChatCompletionMessage : Type := ChatMsg { role : MessageRole; content : ChatContent }.

Definition buildMessageContent (text : str) (imageUrls : list str) : ChatContent :=
  match List.filter (fun u => truthy_str (trim u)) imageUrls with
  | [] => CText text
  | validImages => CParts (TextPart text :: map (fun u => ImagePart (trim u)) validImages)
  end.

Definition getTextContent (c : ChatContent) : str :=
  match c with
  | CText s => s
  | CParts ps =>
      match find (fun p => match p with TextPart _ => true | _ => false end) ps with
      | Some (TextPart t) => t
      | _ => []
      end
  end.

Definition formatMessageForAPI (m : Message) : ChatCompletionMessage :=
  ChatMsg (from m) (CText (getMessageContent m)).

Definition isValidMessage (m : Message) : bool :=
  match versions m with
  | [] => false
  | _ => negb (bool_decide (from m = ASSISTANT) && negb (hasMessageContent m))
  end.

(** ** Timing *)

Definition onullish {A} (a b : option A) : option A :=
  match a with Some x => Some x | None => b end.

Definition completeAssistantTiming (m : Message) (now : Z) : Message :=
  if negb (bool_decide (from m = ASSISTANT)) then m
  else
    let started := nullish (onullish (startedAt m) (createdAt m)) now in
    with_timing (Some started) (Some now) (Some (Z.max 0 (now - started))) m.

Definition startReasoningTiming (m : Message) (now : Z) : Reasoning :=
  match reasoning m with
  | None => Reason [] 0 (Some now) None None
  | Some r =>
      Reason (r_content r) (r_duration r) (Some (nullish (r_startedAt r) now))
        (r_completedAt r) (r_durationMs r)
  end.

(** [Math.ceil(ms / 1000)]. *)
Definition ceilSeconds (ms : Z) : Z := - (- ms / 1000).

Definition completeReasoningTiming (m : Message) (now : Z) : Message :=
  match reasoning m with
  | None => m
  | Some r =>
      match r_durationMs r with
      | Some _ => m
      | None =>
          let started := nullish (onullish (r_startedAt r) (startedAt m)) now in
          let ms := Z.max 0 (now - started) in
          with_reasoning (Some (Reason (r_content r) (ceilSeconds ms) (Some started)
                                  (Some now) (Some ms))) m
      end
  end.

(** ** Reasoning tags *)

Record ParsedThinkTags : Type := Think {
  visibleContent : str;
  pt_reasoning : str;
  hasUnclosedTag : bool;
}.

Definition openTag : str := "<think>".
Definition closeTag : str := "</think>".

(** The loop; every round but the last moves past a closing tag, so the length
    of the text bounds the rounds. *)
Fixpoint think_loop (fuel : nat) (text : str) (currentPos : Z) (vis reas : list str)
    : list str * list str * bool :=
  match fuel with
  | O => (vis, reas, false)
  | S k =>
      let openPos := indexOf text openTag currentPos in
      if openPos =? -1 then
        (if currentPos <? strlen text then vis ++ [slice_from text currentPos] else vis,
         reas, false)
      else
        let vis' := if currentPos <? openPos
                    then vis ++ [slice text currentPos openPos] else vis in
        let closePos := indexOf text closeTag (openPos + 7) in
        if closePos =? -1 then (vis', reas ++ [slice_from text (openPos + 7)], true)
        else think_loop k text (closePos + 8) vis'
               (reas ++ [slice text (openPos + 7) closePos])
  end.

Definition parseThinkTags (text : str) : ParsedThinkTags :=
  if negb (includes text openTag) then Think text [] false
  else
    let '(vis, reas, unclosed) := think_loop (S (length text)) text 0 [] [] in
    Think (trim (str_join [] vis)) (trim (str_join [10; 10]%N reas)) unclosed.

(** ** Streaming *)

Definition processStreamingContent (m : Message) (contentChunk : str) (now : Z)
    : Message :=
  let fullContent := getMessageContent m ++ contentChunk in
  match reasoning m, includes fullContent openTag with
  | None, false =>
      with_reasoningStreaming false (updateCurrentVersionContent m fullContent)
  | _, _ =>
      let p := parseThinkTags fullContent in
      let final :=
        match pt_reasoning p with
        | [] => reasoning m
        | r => let s := startReasoningTiming m now in
               Some (Reason r (r_duration s) (r_startedAt s) (r_completedAt s)
                       (r_durationMs s))
        end in
      with_reasoningStreaming (hasUnclosedTag p)
        (with_reasoning final (updateCurrentVersionContent m fullContent))
  end.

Inductive StreamChunkType : Type := ReasoningChunk | ContentChunk.

Definition getAppendableChunk (currentContent chunk : str) : str :=
  if negb (truthy_str currentContent) || negb (startsWith chunk currentContent)
  then chunk
  else slice_from chunk (strlen currentContent).

(** [now1] is the reading of [startReasoningTiming], [now2] the one of
    [completeReasoningTiming]. *)
Definition applyStreamingChunk (m : Message) (type : StreamChunkType) (chunk : str)
    (now1 now2 : Z) : Message :=
  if bool_decide (status m = Some ERROR) then m
  else
    match type with
    | ReasoningChunk =>
        let r := startReasoningTiming m now1 in
        let c := r_content r ++ getAppendableChunk (r_content r) chunk in
        with_status STREAMING
          (with_reasoningStreaming true
             (with_reasoning (Some (Reason c (r_duration r) (r_startedAt r)
                                      (r_completedAt r) (r_durationMs r))) m))
    | ContentChunk =>
        let c := getAppendableChunk (getMessageContent m) chunk in
        let contentMessage := processStreamingContent m c now1 in
        with_status STREAMING
          (if isReasoningStreaming contentMessage then contentMessage
           else completeReasoningTiming contentMessage now2)
    end.

Definition finalizeMessage (m : Message) (apiReasoningContent : option str)
    (now1 now2 : Z) : Message :=
  let text := getMessageContent m in
  let parsed := if includes text openTag then Some (parseThinkTags text) else None in
  let visible := match parsed with Some p => visibleContent p | None => text end in
  let finalReasoning :=
    ostr_or apiReasoningContent
      (ostr_or (option_map r_content (reasoning m))
         (ostr_or (option_map pt_reasoning parsed) [])) in
  let r :=
    match finalReasoning with
    | [] => None
    | c => let s := startReasoningTiming m now1 in
           Some (Reason c (r_duration s) (r_startedAt s) (r_completedAt s)
                   (r_durationMs s))
    end in
  completeReasoningTiming
    (with_reasoningStreaming false
       (with_reasoning r (updateCurrentVersionContent m visible))) now2.

Definition completeAssistantMessage (m : Message) (now1 now2 now3 : Z) : Message :=
  completeAssistantTiming (with_status COMPLETE (finalizeMessage m None now1 now2)) now3.

Definition isAssistantMessageFinal (m : Message) : bool :=
  match status m with Some COMPLETE | Some ERROR => true | _ => false end.

Definition isAssistantMessagePending (m : Message) : bool :=
  match status m with Some LOADING | Some STREAMING => true | _ => false end.

Definition isPendingAssistantMessage (m : option Message) : bool :=
  match m with
  | Some m => bool_decide (from m = ASSISTANT) && isAssistantMessagePending m
  | None => false
  end.

(** [choices[i].message]; [None] where the field is missing. *)
Record ChatCompletionChoice : Type := Choice {
  ch_content : option str;
  ch_reasoning_content : option str;
}.

Definition ChatCompletionResponse : Type := list ChatCompletionChoice.

Definition hasChatCompletionChoice (response : ChatCompletionResponse) : bool :=
  match response with [] => false | _ => true end.

Definition applyChatCompletionChoice (m : Message) (choice : ChatCompletionChoice)
    (now1 now2 now3 : Z) : Message :=
  completeAssistantTiming
    (with_status COMPLETE
       (finalizeMessage
          (updateCurrentVersionContent m (ostr_or (ch_content choice) []))
          (ch_reasoning_content choice) now1 now2)) now3.

Definition applyChatCompletionResponse (m : Message) (response : ChatCompletionResponse)
    (now1 now2 now3 : Z) : option Message :=
  match response with
  | [] => None
  | choice :: _ => Some (applyChatCompletionChoice m choice now1 now2 now3)
  end.


(** The loop from the end: the index of the last pending assistant message. *)
Fixpoint lastPendingIndex (n : nat) (messages : list Message) : option nat :=
  match n with
  | O => None
  | S i =>
      if isPendingAssistantMessage (messages !! i) then Some i
      else lastPendingIndex i messages
  end.

(** What [sanitizeMessagesOnLoad] makes of the message it stops at; [t] is the
    translation of [i18next]. *)
Definition sanitizeMessage (t : str -> str) (m : Message) (now1 now2 now3 : Z)
    : Message :=
  let finalized := finalizeMessage m None now1 now2 in
  let hasContent := hasMessageContent finalized in
  let hasReasoning :=
    truthy_str (nullish (option_map (fun r => trim (r_content r)) (reasoning finalized)) []) in
  if hasContent || hasReasoning then
    completeAssistantTiming
      (with_reasoningStreaming false (with_status COMPLETE finalized)) now3
  else
    completeAssistantTiming
      (with_reasoningStreaming false
         (with_status ERROR
            (updateCurrentVersionContent finalized
               (t API_REQUEST_ERROR ++ ": " ++ t INTERRUPTED)))) now3.

(** The array, and whether it is a new one: [loadMessages] compares arrays by
    reference. *)
Definition sanitizeMessagesOnLoad (t : str -> str) (messages : list Message)
    (now1 now2 now3 : Z) : list Message * bool :=
  match lastPendingIndex (length messages) messages with
  | None => (messages, false)
  | Some i =>
      match messages !! i with
      | None => (messages, false)
      | Some m => (<[i := sanitizeMessage t m now1 now2 now3]> messages, true)
      end
  end.

(** ** Updates of the last message *)

Definition updateLastAssistantMessage (messages : list Message)
    (updater : Message -> Message) : list Message :=
  match last messages with
  | None => messages
  | Some m =>
      if negb (bool_decide (from m = ASSISTANT)) then messages
      else <[pred (length messages) := updater m]> messages
  end.

(** [title] defaults to [ERROR_MESSAGES.API_REQUEST_ERROR]. *)
Definition updateAssistantMessageWithError (messages : list Message)
    (errorMessage : str) (errorCode : option str) (title : option str) (now : Z)
    : list Message :=
  updateLastAssistantMessage messages (fun m =>
    let updated :=
      updateCurrentVersionContent m
        (nullish title API_REQUEST_ERROR ++ ": " ++ errorMessage) in
    completeAssistantTiming
      (with_errorCode
         (match errorCode with
          | Some c => if truthy_str c then Some c else None
          | None => None
          end)
         (with_reasoningStreaming false (with_status ERROR updated))) now).

(** ** Conversation edits *)

Record ApplyMessageEditResult : Type := EditResult {
  er_messages : list Message;
  shouldSend : bool;
}.

Record ChatMessageRenderState : Type := RenderState {
  alwaysShowActions : bool;
  rs_content : str;
  isEditing : bool;
}.

Definition has_key (k : str) (m : Message) : bool := m_key m =?s k.

(** [ids] are the two identifiers of the user message and the two of the
    assistant message. *)
Definition appendUserMessagePair (messages : list Message) (text : str)
    (ids : str * str * (str * str)) (submittedAt : Z) : list Message :=
  let '(uk, uv, (ak, av)) := ids in
  messages ++ [createUserMessage uk uv text submittedAt;
               createLoadingAssistantMessage ak av submittedAt].

Definition createRegeneratedMessages (messages : list Message) (messageKey : str)
    (ids : str * str) (now : Z) : option (list Message) :=
  match findIndex (has_key messageKey) messages with
  | None => None
  | Some i =>
      let loading := createLoadingAssistantMessage (fst ids) (snd ids) now in
      match messages !! i with
      | Some m =>
          if bool_decide (from m = USER)
          then Some (slice messages 0 (Z.of_nat i + 1) ++ [loading])
          else Some (slice messages 0 (Z.of_nat i) ++ [loading])
      | None => None
      end
  end.

Definition removeMessageByKey (messages : list Message) (messageKey : str)
    : list Message :=
  List.filter (fun m => negb (has_key messageKey m)) messages.

(** [n] is [beforeIndex]; an index past the end, where the source throws, is
    [Throw]. *)
Fixpoint getPreviousUserMessage (messages : list Message) (n : nat)
    : res (option Message) :=
  match n with
  | O => Ok None
  | S i =>
      match messages !! i with
      | None => Throw
      | Some m =>
          if bool_decide (from m = USER) then Ok (Some m)
          else getPreviousUserMessage messages i
      end
  end.

Definition applyMessageEdit (messages : list Message) (messageKey text : str)
    (shouldSubmit : bool) (ids : str * str) (submittedAt : Z)
    : option ApplyMessageEditResult :=
  match findIndex (has_key messageKey) messages with
  | None => None
  | Some i =>
      let updatedMessages :=
        map (fun m =>
          if has_key messageKey m then
            with_createdAt (if shouldSubmit then Some submittedAt else createdAt m)
              (updateCurrentVersionContent m text)
          else m) messages in
      let isUser :=
        match updatedMessages !! i with
        | Some m => bool_decide (from m = USER)
        | None => false
        end in
      if negb shouldSubmit || negb isUser then Some (EditResult updatedMessages false)
      else Some (EditResult
                   (slice updatedMessages 0 (Z.of_nat i + 1) ++
                    [createLoadingAssistantMessage (fst ids) (snd ids) submittedAt])
                   true)
  end.

Definition getEditingMessageContent (messages : list Message) (editingKey : option str)
    : str :=
  match editingKey with
  | None => []
  | Some k =>
      if negb (truthy_str k) then []
      else match find (has_key k) messages with
           | Some m => getMessageContent m
           | None => []
           end
  end.

Definition getChatMessageRenderState (messages : list Message) (m : Message)
    (messageIndex : Z) (editingKey : option str) : ChatMessageRenderState :=
  RenderState
    ((messageIndex =? Z.of_nat (length messages) - 1) && bool_decide (from m = ASSISTANT))
    (getMessageContent m)
    (match editingKey with Some k => k =?s m_key m | None => false end).

(** ** What a message view shows *)

Record MessageActionState : Type := ActionState {
  as_content : str;
  hasContent : bool;
  as_isAssistant : bool;
  isLoading : bool;
  isUser : bool;
}.

Definition getMessageActionState (m : Message) : MessageActionState :=
  ActionState (getMessageContent m) (hasMessageContent m)
    (bool_decide (from m = ASSISTANT))
    (match status m with Some LOADING | Some STREAMING => true | _ => false end)
    (bool_decide (from m = USER)).

Definition getMessageActionsVisibilityClass (alwaysVisible : bool) : str :=
  if alwaysVisible then "opacity-100"
  else "opacity-0 group-hover:opacity-100 max-md:opacity-100".

Record MessageContentState : Type := ContentState {
  displayContent : str;
  hasSources : bool;
  cs_isAssistant : bool;
  showLoader : bool;
  showMessageContent : bool;
  cs_sources : list (str * str);
  reasoningContent : option str;     (** [Some] exactly where [hasReasoning] *)
}.

Definition shouldShowMessageLoader (m : Message) (isAssistant : bool)
    (versionContent : str) : bool :=
  isAssistant && negb (isReasoningStreaming m) &&
  match status m with
  | Some LOADING => true
  | Some STREAMING => negb (truthy_str versionContent)
  | _ => false
  end.

Definition shouldShowMessageContent (m : Message) (versionContent : str) : bool :=
  (bool_decide (from m = USER) || negb (isReasoningStreaming m)) &&
  (0 <? strlen versionContent).

Definition getDisplayContent (m : Message) (versionContent : str) : str :=
  if negb (bool_decide (from m = ASSISTANT)) then versionContent
  else if negb (includes versionContent openTag) then versionContent
  else visibleContent (parseThinkTags versionContent).

Definition getMessageContentState (m : Message) (versionContent : str)
    : MessageContentState :=
  let isAssistant := bool_decide (from m = ASSISTANT) in
  let srcs := nullish (sources m) [] in
  let rc := if isAssistant then option_map r_content (reasoning m) else None in
  ContentState (getDisplayContent m versionContent)
    (match srcs with [] => false | _ => true end) isAssistant
    (shouldShowMessageLoader m isAssistant versionContent)
    (shouldShowMessageContent m versionContent) srcs
    (match rc with Some c => if truthy_str c then Some c else None | None => None end).

Inductive ErrorKind : Type := GenericError | ModelPriceError.

Record MessageErrorState : Type := ErrorState {
  es_content : str;
  kind : ErrorKind;
  showSettingsLink : bool;
}.

Definition MODEL_PRICE_ERROR_CODE : str := "model_price_error".
Definition FALLBACK_ERROR_CONTENT : str := "An unknown error occurred".

Definition isAdminRole (role : option Z) : bool :=
  match role with Some r => 10 <=? r | None => false end.

Definition isErrorMessage (m : Message) : bool := bool_decide (status m = Some ERROR).

Definition getMessageErrorState (m : Message) (isAdmin : bool) : option MessageErrorState :=
  if negb (isErrorMessage m) then None
  else
    let isModelPriceError :=
      match errorCode m with Some c => c =?s MODEL_PRICE_ERROR_CODE | None => false end in
    Some (ErrorState (str_or (getMessageContent m) FALLBACK_ERROR_CONTENT)
            (if isModelPriceError then ModelPriceError else GenericError)
            (isModelPriceError && isAdmin)).

Record MessageEditorState : Type := EditorState {
  canSave : bool;
  hasChanged : bool;
  showSaveAndSubmit : bool;
}.

Definition getMessageEditorState (m : Message) (editText originalText : str)
    : MessageEditorState :=
  let hasText := 0 <? strlen (trim editText) in
  let changed := negb (editText =?s originalText) in
  EditorState (hasText && changed) changed (bool_decide (from m = USER)).

Inductive MessageAlignment : Type := AlignLeft | AlignRight.

Definition getMessageAlignment (m : Message) (mode : PlaygroundMessageLayoutMode)
    : MessageAlignment :=
  match mode with
  | LayoutLeft => AlignLeft
  | LayoutAlternating => if bool_decide (from m = USER) then AlignRight else AlignLeft
  end.

Definition getMessageAlignmentClass (a : MessageAlignment) : str :=
  match a with
  | AlignRight => "items-end text-right"
  | AlignLeft => "items-start text-left"
  end.
