(* ===== verification/MessageLaws.v ===== *)
(** * Laws of playground messages

    Proofs about [Messages]: [parseThinkTags] implements the split of a text
    into visible and reasoning segments, streamed chunks accumulate to the
    streamed text, timings stay consistent, stuck messages are repaired, and
    edits keep the conversation up to the edited message. *)

From stdpp Require Import base list.
From Stdlib Require Import ZArith NArith Lia.
From S2P Require Import Prelude JsString JsArray JsJson Messages.

Local Open Scope Z_scope.

(** ** Reasoning tags *)

(** A text cut at its tags: what comes before the first tag, the closed
    reasoning blocks with the text after each, and the block left open. *)
Record ThinkDoc : Type := Doc {
  lead : str;
  closed : list (str * str);
  unclosed : option str;
}.

Definition render_block (b : str * str) : str := openTag ++ fst b ++ closeTag ++ snd b.

Definition render_open (o : option str) : str :=
  match o with Some r => openTag ++ r | None => [] end.

Definition render (d : ThinkDoc) : str :=
  lead d ++ flat_map render_block (closed d) ++ render_open (unclosed d).

(** Visible text holds no opening tag, reasoning no closing one. *)
Definition doc_ok (d : ThinkDoc) : Prop :=
  find_at (lead d) openTag = None /\
  Forall (fun b => find_at (fst b) closeTag = None /\ find_at (snd b) openTag = None)
    (closed d) /\
  (forall r, unclosed d = Some r -> find_at r closeTag = None).

Definition reasonings (d : ThinkDoc) : list str :=
  map fst (closed d) ++ match unclosed d with Some r => [r] | None => [] end.

Definition split_spec (d : ThinkDoc) : ParsedThinkTags :=
  match reasonings d with
  | [] => Think (lead d) [] false
  | rs => Think (trim (lead d ++ mjoin (map snd (closed d)))) (trim (str_join [10; 10]%N rs))
            (match unclosed d with Some _ => true | None => false end)
  end.

Lemma openTag_shape : exists w, openTag = 60%N :: w /\ avoids 60 w = true.
Proof. by eexists. Qed.

Lemma closeTag_shape : exists w, closeTag = 60%N :: w /\ avoids 60 w = true.
Proof. by eexists. Qed.

Lemma find_open (a s : str) :
  find_at a openTag = None -> find_at (a ++ openTag ++ s) openTag = Some (length a).
Proof. destruct openTag_shape as (w & -> & Hw). by apply find_at_first. Qed.

Lemma find_close (a s : str) :
  find_at a closeTag = None -> find_at (a ++ closeTag ++ s) closeTag = Some (length a).
Proof. destruct closeTag_shape as (w & -> & Hw). by apply find_at_first. Qed.

Lemma openTag_length : strlen openTag = 7. Proof. done. Qed.
Lemma closeTag_length : strlen closeTag = 8. Proof. done. Qed.

Lemma strlen_app (a b : str) : strlen (a ++ b) = strlen a + strlen b.
Proof. unfold strlen. rewrite length_app. lia. Qed.

#[local] Opaque openTag closeTag.

Definition pushed (v : str) : list str := if truthy_str v then [v] else [].

Lemma join_pushed (vs : list str) : str_join [] (vs ≫= pushed) = mjoin vs.
Proof.
  induction vs as [|v vs IH]; [done|]. cbn [mbind list_bind]. simpl mjoin.
  change (mjoin (v :: vs)) with (v ++ mjoin vs). rewrite <- IH.
  destruct v as [|c v]; [done|]. cbn [pushed truthy_str].
  destruct (vs ≫= pushed) as [|w ws]; simpl; [|done]. by rewrite app_nil_r.
Qed.

(** A round of the loop that pushes the text before a tag. *)
Lemma push_visible (pre v s : str) (vis : list str) :
  (if strlen pre <? strlen pre + strlen v
   then vis ++ [slice (pre ++ v ++ s) (strlen pre) (strlen pre + strlen v)] else vis)
  = vis ++ pushed v.
Proof.
  rewrite (slice_app_mid pre v s) by done.
  destruct v as [|c v]; [by rewrite Z.add_0_r, Z.ltb_irrefl, app_nil_r|].
  unfold strlen at 3. simpl length. by destruct (Z.ltb_spec (strlen pre)
    (strlen pre + Z.of_nat (S (length v)))); [|lia].
Qed.

Lemma think_loop_last (k : nat) (pre v : str) (o : option str) (vis reas : list str) :
  find_at v openTag = None ->
  (forall r, o = Some r -> find_at r closeTag = None) ->
  think_loop (S k) (pre ++ v ++ render_open o) (strlen pre) vis reas =
  (vis ++ pushed v, reas ++ match o with Some r => [r] | None => [] end,
   match o with Some _ => true | None => false end).
Proof.
  intros Hv Ho. cbn [think_loop]. rewrite (indexOf_app pre) by done.
  destruct o as [r|]; simpl render_open.
  - rewrite find_open by done. fold (strlen v).
    destruct (Z.eqb_spec (strlen pre + strlen v) (-1)); [unfold strlen in *; lia|].
    rewrite push_visible.
    replace (pre ++ v ++ openTag ++ r) with ((pre ++ v ++ openTag) ++ r)
      by (by rewrite <- !app_assoc).
    assert (Hl : strlen pre + strlen v + 7 = strlen (pre ++ v ++ openTag))
      by (rewrite !strlen_app, openTag_length; lia).
    rewrite Hl, indexOf_app, (Ho r eq_refl) by done.
    by rewrite slice_from_app by done.
  - rewrite app_nil_r, Hv. simpl. rewrite app_nil_r.
    destruct v as [|c v].
    + unfold pushed. simpl truthy_str. cbv iota. by rewrite !app_nil_r, Z.ltb_irrefl.
    + destruct (Z.ltb_spec (strlen pre) (strlen (pre ++ c :: v)));
        [by rewrite slice_from_app|]. rewrite strlen_app in *. unfold strlen in *.
      simpl length in *. lia.
Qed.

Lemma think_loop_block (k : nat) (pre v r s : str) (vis reas : list str) :
  find_at v openTag = None -> find_at r closeTag = None ->
  think_loop (S k) (pre ++ v ++ openTag ++ r ++ closeTag ++ s) (strlen pre) vis reas =
  think_loop k ((pre ++ v ++ openTag ++ r ++ closeTag) ++ s)
    (strlen (pre ++ v ++ openTag ++ r ++ closeTag)) (vis ++ pushed v) (reas ++ [r]).
Proof.
  intros Hv Hr. cbn [think_loop]. rewrite (indexOf_app pre), find_open by done.
  fold (strlen v).
  destruct (Z.eqb_spec (strlen pre + strlen v) (-1)); [unfold strlen in *; lia|].
  rewrite push_visible.
  replace (pre ++ v ++ openTag ++ r ++ closeTag ++ s)
    with ((pre ++ v ++ openTag) ++ r ++ closeTag ++ s) by (by rewrite <- !app_assoc).
  assert (Hl : strlen pre + strlen v + 7 = strlen (pre ++ v ++ openTag))
    by (rewrite !strlen_app, openTag_length; lia).
  rewrite Hl, indexOf_app, find_close by done. fold (strlen r).
  destruct (Z.eqb_spec (strlen (pre ++ v ++ openTag) + strlen r) (-1));
    [unfold strlen in *; lia|].
  rewrite slice_app_mid by done. f_equal.
  - by rewrite <- !app_assoc.
  - rewrite !strlen_app, closeTag_length. lia.
Qed.

Lemma think_loop_render (bs : list (str * str)) (pre v : str) (o : option str)
    (k : nat) (vis reas : list str) :
  doc_ok (Doc v bs o) -> (length bs < k)%nat ->
  think_loop k (pre ++ render (Doc v bs o)) (strlen pre) vis reas =
  (vis ++ (v :: map snd bs) ≫= pushed, reas ++ reasonings (Doc v bs o),
   match o with Some _ => true | None => false end).
Proof.
  revert pre v k vis reas.
  induction bs as [|[r w] bs IH]; intros pre v k vis reas (Hv & Hbs & Ho) Hk;
    (destruct k as [|k]; [simpl in Hk; lia|]); unfold render; cbn [lead closed unclosed].
  - simpl flat_map. rewrite app_nil_l, think_loop_last by done.
    unfold reasonings. simpl. by rewrite app_nil_r.
  - cbn [closed] in Hbs. inversion Hbs as [|? ? [Hr Hw] Hbs']; subst. simpl in Hr, Hw.
    cbn [flat_map]. unfold render_block at 1. cbn [fst snd].
    rewrite <- !app_assoc, think_loop_block by done.
    change (w ++ flat_map render_block bs ++ render_open o) with (render (Doc w bs o)).
    assert (Hd : doc_ok (Doc w bs o)) by (by split_and!).
    rewrite (IH _ w) by (done || simpl in Hk; lia).
    unfold reasonings. cbn [closed unclosed map fst snd mbind list_bind].
    by rewrite <- !app_assoc.
Qed.

Lemma render_includes (d : ThinkDoc) :
  doc_ok d -> includes (render d) openTag =
  match reasonings d with [] => false | _ => true end.
Proof.
  destruct d as [v bs o]. intros (Hv & _ & _). unfold includes, render, reasonings.
  cbn [lead closed unclosed] in *.
  destruct bs as [|[r w] bs]; [destruct o as [r|]|]; simpl.
  - by rewrite find_open.
  - by rewrite app_nil_r, Hv.
  - unfold render_block at 1. rewrite <- !app_assoc, find_open by done. done.
Qed.

Lemma length_blocks (bs : list (str * str)) (s : str) :
  (length bs <= length (flat_map render_block bs ++ s))%nat.
Proof.
  rewrite length_app. induction bs as [|b bs IH]; simpl; [lia|].
  unfold render_block at 1. rewrite !length_app.
  assert (length openTag = 7%nat) by done. lia.
Qed.

Lemma parse_render (d : ThinkDoc) :
  doc_ok d -> parseThinkTags (render d) = split_spec d.
Proof.
  intros Hd. unfold parseThinkTags. rewrite render_includes by done.
  unfold split_spec. destruct (reasonings d) as [|r rs] eqn:Hr.
  - destruct d as [v bs o]. unfold reasonings in Hr. cbn [lead closed unclosed] in *.
    apply app_eq_nil in Hr as [Hb Ho]. destruct bs; [|done]. destruct o; [done|].
    unfold render. simpl. by rewrite app_nil_r.
  - destruct d as [v bs o]. change (render (Doc v bs o)) with ([] ++ render (Doc v bs o)).
    change 0 with (strlen []). cbn [negb].
    rewrite think_loop_render; [|done|].
    2:{ unfold render. cbn [app lead closed unclosed]. rewrite length_app.
        pose proof (length_blocks bs (render_open o)). lia. }
    cbn [closed lead unclosed]. rewrite !app_nil_l, join_pushed, Hr. done.
Qed.

Lemma split_exists (n : nat) (text : str) :
  (length text < n)%nat -> exists d, doc_ok d /\ render d = text.
Proof.
  revert text; induction n as [|n IH]; intros text Hn; [lia|].
  destruct (find_at text openTag) as [k|] eqn:Hk.
  2:{ exists (Doc text [] None). split; [by split_and!|]. by apply app_nil_r. }
  apply find_at_Some in Hk as (v & s & -> & _ & Hv); [|done].
  destruct (find_at s closeTag) as [j|] eqn:Hj.
  - apply find_at_Some in Hj as (r & t & -> & _ & Hr); [|done].
    destruct (IH t) as ([w bs o] & (Hw & Hbs & Ho) & <-);
      [rewrite !length_app in Hn; assert (length openTag = 7%nat) by done; lia|].
    exists (Doc v ((r, w) :: bs) o). split; [by split_and!; [|constructor|]|].
    unfold render, render_block. simpl. by rewrite <- !app_assoc.
  - exists (Doc v [] (Some s)). split; [|done].
    split_and!; [done..|]. by intros r [= <-].
Qed.

(** C35: [parseThinkTags] splits every text at its tags: every text is cut, at
    its first opening tag, the first closing tag after it, and so on, into
    visible segments without an opening tag and reasoning segments without a
    closing one, and for every such cut the visible segments, concatenated and
    trimmed, are the visible content, the reasoning segments, separated by
    blank lines, the reasoning, and the tag is unclosed exactly when the text
    ends inside a reasoning segment.  A text without a tag is returned as it is. *)
Theorem think_tags_split :
  (forall text, exists d, doc_ok d /\ render d = text) /\
  (forall d, doc_ok d -> parseThinkTags (render d) = split_spec d).
Proof.
  split; [|apply parse_render].
  intros text. by apply (split_exists (S (length text))); lia.
Qed.

Lemma think_tags_split_witness :
  parseThinkTags "a<think>b</think>c<think>d" = Think "ac" (js "b" ++ [10; 10]%N ++ js "d") true.
Proof.
  pose proof (proj2 think_tags_split (Doc "a" [(js "b", js "c")] (Some (js "d")))) as H.
  apply H. split_and!; [reflexivity|repeat constructor|by intros r [= <-]].
Defined.

(** ** Timing *)

(** A duration is recorded with the two times it is the difference of, and is
    never negative. *)
Definition span_ok (s c d : option Z) : Prop :=
  match d with
  | Some ms => exists a b, s = Some a /\ c = Some b /\ ms = Z.max 0 (b - a)
  | None => True
  end.

Definition reasoning_ok (r : Reasoning) : Prop :=
  span_ok (r_startedAt r) (r_completedAt r) (r_durationMs r) /\
  (forall ms, r_durationMs r = Some ms ->
    1000 * (r_duration r - 1) < ms <= 1000 * r_duration r).

Definition timing_ok (m : Message) : Prop :=
  span_ok (startedAt m) (completedAt m) (durationMs m) /\
  (forall r, reasoning m = Some r -> reasoning_ok r).

Lemma ceilSeconds_spec (ms : Z) :
  1000 * (ceilSeconds ms - 1) < ms <= 1000 * ceilSeconds ms.
Proof.
  unfold ceilSeconds.
  pose proof (Z.div_mod (- ms) 1000). pose proof (Z.mod_pos_bound (- ms) 1000). lia.
Qed.

(** What an operation leaves of the times of the message. *)
Definition same_times (m m' : Message) : Prop :=
  startedAt m' = startedAt m /\ completedAt m' = completedAt m /\
  durationMs m' = durationMs m.

Lemma timing_ok_same (m m' : Message) :
  timing_ok m -> same_times m m' ->
  (forall r, reasoning m' = Some r -> reasoning_ok r) -> timing_ok m'.
Proof. intros [Hs _] (H1 & H2 & H3) Hr. split; [by rewrite H1, H2, H3|done]. Qed.

Lemma startReasoning_ok (m : Message) (now : Z) (c : str) :
  timing_ok m ->
  let s := startReasoningTiming m now in
  reasoning_ok (Reason c (r_duration s) (r_startedAt s) (r_completedAt s) (r_durationMs s)).
Proof.
  intros [_ Hr]. unfold startReasoningTiming.
  destruct (reasoning m) as [r|]; [|by split].
  destruct (Hr r eq_refl) as [Hs Hd]. split; [|done]. simpl.
  destruct (r_durationMs r); [|done].
  destruct Hs as (a & b & -> & -> & ->). by exists a, b.
Qed.

Lemma completeAssistantTiming_ok (m : Message) (now : Z) :
  timing_ok m -> timing_ok (completeAssistantTiming m now).
Proof.
  intros [Hs Hr]. unfold completeAssistantTiming. js_case; [done|].
  split; [|done]. by eexists _, _.
Qed.

Lemma completeReasoningTiming_ok (m : Message) (now : Z) :
  timing_ok m -> timing_ok (completeReasoningTiming m now).
Proof.
  intros Hm. unfold completeReasoningTiming.
  destruct (reasoning m) as [r|] eqn:Hr; [|done].
  destruct (r_durationMs r) eqn:Hd; [done|].
  apply (timing_ok_same m); [done|done|].
  intros r' [= <-]. split; [by eexists _, _|].
  intros ms [= <-]. apply ceilSeconds_spec.
Qed.

(** The reasoning that the tags of a text give. *)
Definition tag_reasoning (m : Message) (text : str) (now : Z) : option Reasoning :=
  match pt_reasoning (parseThinkTags text) with
  | [] => reasoning m
  | r => let s := startReasoningTiming m now in
         Some (Reason r (r_duration s) (r_startedAt s) (r_completedAt s) (r_durationMs s))
  end.

Lemma tag_reasoning_ok (m : Message) (text : str) (now : Z) (r : Reasoning) :
  timing_ok m -> tag_reasoning m text now = Some r -> reasoning_ok r.
Proof.
  intros Hm. unfold tag_reasoning. destruct (pt_reasoning _); [by apply Hm|].
  intros [= <-]. by apply startReasoning_ok.
Qed.

Lemma parse_untagged (text : str) :
  includes text openTag = false -> parseThinkTags text = Think text [] false.
Proof. intros H. unfold parseThinkTags. by rewrite H. Qed.

Lemma processStreamingContent_eq (m : Message) (chunk : str) (now : Z) :
  let text := getMessageContent m ++ chunk in
  processStreamingContent m chunk now =
  with_reasoningStreaming (hasUnclosedTag (parseThinkTags text))
    (with_reasoning (tag_reasoning m text now) (updateCurrentVersionContent m text)).
Proof.
  intros text. unfold processStreamingContent, tag_reasoning. fold text.
  destruct (reasoning m) as [r|] eqn:Hr; [done|].
  destruct (includes text openTag) eqn:Ht; [done|].
  rewrite parse_untagged by done. simpl.
  unfold updateCurrentVersionContent, with_versions, with_reasoningStreaming,
    with_reasoning. simpl. by rewrite Hr.
Qed.

Lemma processStreamingContent_ok (m : Message) (chunk : str) (now : Z) :
  timing_ok m -> timing_ok (processStreamingContent m chunk now).
Proof.
  intros Hm. rewrite processStreamingContent_eq.
  apply (timing_ok_same m); [done|done|]. intros r Hr.
  exact (tag_reasoning_ok m _ now r Hm Hr).
Qed.

Lemma finalizeMessage_ok (m : Message) (api : option str) (now1 now2 : Z) :
  timing_ok m -> timing_ok (finalizeMessage m api now1 now2).
Proof.
  intros Hm. unfold finalizeMessage. apply completeReasoningTiming_ok.
  apply (timing_ok_same m); [done|done|]. intros r'. cbn.
  destruct (ostr_or api _) as [|c cs]; [done|]. intros [= <-].
  by apply startReasoning_ok.
Qed.

Lemma timing_ok_with_status (s : MessageStatus) (m : Message) :
  timing_ok m -> timing_ok (with_status s m).
Proof. done. Qed.

Lemma applyStreamingChunk_ok (m : Message) (ty : StreamChunkType) (chunk : str)
    (now1 now2 : Z) :
  timing_ok m -> timing_ok (applyStreamingChunk m ty chunk now1 now2).
Proof.
  intros Hm. unfold applyStreamingChunk. js_case; [done|]. destruct ty.
  - apply (timing_ok_same m); [done|done|]. intros r' [= <-].
    by apply startReasoning_ok.
  - apply timing_ok_with_status. js_case; [|apply completeReasoningTiming_ok];
      by apply processStreamingContent_ok.
Qed.

Lemma completeAssistantMessage_ok (m : Message) (now1 now2 now3 : Z) :
  timing_ok m -> timing_ok (completeAssistantMessage m now1 now2 now3).
Proof. intros Hm. by apply completeAssistantTiming_ok, timing_ok_with_status, finalizeMessage_ok. Qed.

Lemma applyChatCompletionChoice_ok (m : Message) (c : ChatCompletionChoice)
    (now1 now2 now3 : Z) :
  timing_ok m -> timing_ok (applyChatCompletionChoice m c now1 now2 now3).
Proof. intros Hm. by apply completeAssistantTiming_ok, timing_ok_with_status, finalizeMessage_ok. Qed.

Lemma sanitizeMessage_ok (t : str -> str) (m : Message) (now1 now2 now3 : Z) :
  timing_ok m -> timing_ok (sanitizeMessage t m now1 now2 now3).
Proof.
  intros Hm%(fun H => finalizeMessage_ok m None now1 now2 H).
  unfold sanitizeMessage. js_case; by apply completeAssistantTiming_ok.
Qed.

(** ** Streamed text *)

(** A chunk is a delta to append, or a snapshot that repeats the text so far. *)
Definition merge_chunk (text chunk : str) : str :=
  if truthy_str text && startsWith chunk text then chunk else text ++ chunk.

Lemma append_merge (text chunk : str) :
  text ++ getAppendableChunk text chunk = merge_chunk text chunk.
Proof.
  unfold getAppendableChunk, merge_chunk. destruct (truthy_str text); [|done]. simpl.
  destruct (startsWith chunk text) eqn:Hs; [|done].
  apply startsWith_spec in Hs as [s ->]. simpl. by rewrite slice_from_app.
Qed.

Lemma completeReasoningTiming_frame (m : Message) (now : Z) :
  versions (completeReasoningTiming m now) = versions m /\
  from (completeReasoningTiming m now) = from m /\
  m_key (completeReasoningTiming m now) = m_key m /\
  status (completeReasoningTiming m now) = status m /\
  option_map r_content (reasoning (completeReasoningTiming m now)) =
  option_map r_content (reasoning m).
Proof.
  unfold completeReasoningTiming. destruct (reasoning m) as [r|] eqn:Hr.
  - destruct (r_durationMs r); by rewrite ?Hr.
  - by rewrite Hr.
Qed.

Lemma applyContentChunk (m : Message) (chunk : str) (now1 now2 : Z) :
  status m <> Some ERROR ->
  let m' := applyStreamingChunk m ContentChunk chunk now1 now2 in
  getMessageContent m' = merge_chunk (getMessageContent m) chunk /\
  status m' = Some STREAMING /\ from m' = from m /\ m_key m' = m_key m.
Proof.
  intros Hs. unfold applyStreamingChunk. rewrite bool_decide_eq_false_2 by done.
  rewrite processStreamingContent_eq, append_merge.
  set (p := with_reasoningStreaming _ _).
  destruct (completeReasoningTiming_frame p now2) as (Hv & Hf & Hk & _).
  unfold getMessageContent, getCurrentVersion.
  destruct (isReasoningStreaming p); cbn [versions with_status from m_key status];
    by rewrite ?Hv, ?Hf, ?Hk.
Qed.

Lemma applyReasoningChunk (m : Message) (chunk : str) (now1 now2 : Z) :
  status m <> Some ERROR ->
  let m' := applyStreamingChunk m ReasoningChunk chunk now1 now2 in
  getMessageContent m' = getMessageContent m /\
  status m' = Some STREAMING /\ from m' = from m /\ m_key m' = m_key m.
Proof. intros Hs. unfold applyStreamingChunk. by rewrite bool_decide_eq_false_2. Qed.

(** ** Stuck messages *)

Lemma lastPendingIndex_spec (n : nat) (ms : list Message) :
  match lastPendingIndex n ms with
  | Some i => (i < n)%nat /\ isPendingAssistantMessage (ms !! i) = true /\
              forall j, (i < j < n)%nat -> isPendingAssistantMessage (ms !! j) = false
  | None => forall j, (j < n)%nat -> isPendingAssistantMessage (ms !! j) = false
  end.
Proof.
  induction n as [|n IH]; simpl; [intros; lia|].
  destruct (isPendingAssistantMessage (ms !! n)) eqn:Hn.
  - split_and!; [lia|done|intros; lia].
  - destruct (lastPendingIndex n ms) as [i|].
    + destruct IH as (Hi & Hp & Hj). split_and!; [lia|done|].
      intros j Hlt. destruct (decide (j = n)) as [->|]; [done|apply Hj; lia].
    + intros j Hlt. destruct (decide (j = n)) as [->|]; [done|apply IH; lia].
Qed.

Lemma completeAssistantTiming_frame (m : Message) (now : Z) :
  versions (completeAssistantTiming m now) = versions m /\
  from (completeAssistantTiming m now) = from m /\
  m_key (completeAssistantTiming m now) = m_key m /\
  status (completeAssistantTiming m now) = status m /\
  reasoning (completeAssistantTiming m now) = reasoning m /\
  errorCode (completeAssistantTiming m now) = errorCode m.
Proof. unfold completeAssistantTiming. by js_case. Qed.

Lemma finalizeMessage_frame (m : Message) (api : option str) (now1 now2 : Z) :
  from (finalizeMessage m api now1 now2) = from m /\
  m_key (finalizeMessage m api now1 now2) = m_key m /\
  status (finalizeMessage m api now1 now2) = status m.
Proof.
  unfold finalizeMessage. set (p := with_reasoningStreaming _ _).
  by destruct (completeReasoningTiming_frame p now2) as (_ & -> & -> & -> & _).
Qed.

(** The text or the reasoning that a message shows. *)
Definition shows_something (m : Message) : Prop :=
  hasMessageContent m = true \/
  exists r, reasoning m = Some r /\ trim (r_content r) <> [].

Lemma sanitizeMessage_final (t : str -> str) (m : Message) (now1 now2 now3 : Z) :
  let m' := sanitizeMessage t m now1 now2 now3 in
  m_key m' = m_key m /\ from m' = from m /\
  (status m' = Some COMPLETE /\ shows_something m' \/
   status m' = Some ERROR /\
   getMessageContent m' = t API_REQUEST_ERROR ++ ": " ++ t INTERRUPTED).
Proof.
  unfold sanitizeMessage. set (f := finalizeMessage m None now1 now2).
  destruct (finalizeMessage_frame m None now1 now2) as (Hf & Hk & _).
  fold f in Hf, Hk.
  set (b := hasMessageContent f || _). destruct b eqn:Hb; subst b;
    set (x := with_reasoningStreaming _ _);
    destruct (completeAssistantTiming_frame x now3) as (Hv & -> & -> & -> & Hr & _);
    (split_and!; [done..|]).
  - left. split; [done|]. unfold shows_something, hasMessageContent, getMessageContent,
      getCurrentVersion. rewrite Hv, Hr. apply orb_true_iff in Hb as [Hb|Hb]; [by left|].
    right. subst x. cbn [reasoning with_reasoningStreaming with_status].
    destruct (reasoning f) as [r|]; [|done]. exists r. split; [done|].
    by apply truthy_str_true in Hb.
  - right. split; [done|]. unfold getMessageContent, getCurrentVersion. by rewrite Hv.
Qed.

Lemma sanitize_cases (t : str -> str) (ms : list Message) (now1 now2 now3 : Z) :
  (sanitizeMessagesOnLoad t ms now1 now2 now3 = (ms, false) /\
   Forall (fun m => isPendingAssistantMessage (Some m) = false) ms) \/
  exists i m m',
    ms !! i = Some m /\ isPendingAssistantMessage (Some m) = true /\
    (forall j, (i < j)%nat -> isPendingAssistantMessage (ms !! j) = false) /\
    sanitizeMessagesOnLoad t ms now1 now2 now3 = (<[i := m']> ms, true) /\
    m_key m' = m_key m /\ from m' = from m /\
    (timing_ok m -> timing_ok m') /\
    (status m' = Some COMPLETE /\ shows_something m' \/
     status m' = Some ERROR /\
     getMessageContent m' = t API_REQUEST_ERROR ++ ": " ++ t INTERRUPTED).
Proof.
  unfold sanitizeMessagesOnLoad.
  pose proof (lastPendingIndex_spec (length ms) ms) as H.
  destruct (lastPendingIndex (length ms) ms) as [i|].
  - right. destruct H as (Hi & Hp & Hj).
    destruct (ms !! i) as [m|] eqn:Hm; [|by apply lookup_ge_None in Hm; lia].
    exists i, m, (sanitizeMessage t m now1 now2 now3).
    destruct (sanitizeMessage_final t m now1 now2 now3) as (Hk & Hf & Hs).
    split_and!; try done; [|apply sanitizeMessage_ok].
    intros j Hlt. destruct (decide (j < length ms)%nat); [apply Hj; lia|].
    by rewrite lookup_ge_None_2 by lia.
  - left. split; [done|]. apply Forall_lookup. intros j m Hm.
    rewrite <- Hm. apply H. by eapply lookup_lt_Some.
Qed.

(** Loading repairs the last stuck message: when no assistant message is
    loading or streaming the array is returned as it is; otherwise exactly the
    last such message is replaced, keeping its key and role, by a message that
    is complete and shows some text or reasoning, or that is an error with the
    translated interruption text; and its times stay consistent. *)
Theorem sanitize_last_pending (t : str -> str) (ms : list Message) (now1 now2 now3 : Z) :
  (sanitizeMessagesOnLoad t ms now1 now2 now3 = (ms, false) /\
   Forall (fun m => isPendingAssistantMessage (Some m) = false) ms) \/
  exists i m m',
    ms !! i = Some m /\ isPendingAssistantMessage (Some m) = true /\
    (forall j, (i < j)%nat -> isPendingAssistantMessage (ms !! j) = false) /\
    sanitizeMessagesOnLoad t ms now1 now2 now3 = (<[i := m']> ms, true) /\
    m_key m' = m_key m /\ from m' = from m /\
    (timing_ok m -> timing_ok m') /\
    (status m' = Some COMPLETE /\ shows_something m' \/
     status m' = Some ERROR /\
     getMessageContent m' = t API_REQUEST_ERROR ++ ": " ++ t INTERRUPTED).
Proof. apply sanitize_cases. Qed.

(** Only the last stuck message is repaired: an assistant message that was
    loading or streaming stays so when another one follows it, although the
    function is documented to convert the stuck messages. *)
Theorem earlier_pending_kept (t : str -> str) (m1 m2 : Message) (rest : list Message)
    (now1 now2 now3 : Z) :
  isPendingAssistantMessage (Some m2) = true ->
  fst (sanitizeMessagesOnLoad t (m1 :: m2 :: rest) now1 now2 now3) !! 0%nat = Some m1.
Proof.
  intros H2. destruct (sanitize_cases t (m1 :: m2 :: rest) now1 now2 now3)
    as [[-> _]|(i & m & m' & Hm & _ & Hlast & -> & _)]; [done|]. simpl.
  destruct i as [|i]; [|done].
  assert (H : isPendingAssistantMessage (Some m2) = false) by (apply (Hlast 1%nat); lia).
  congruence.
Qed.

(** A message being generated. *)
Definition stuck (key text : str) (s : MessageStatus) : Message :=
  with_status s (updateCurrentVersionContent (createLoadingAssistantMessage key "v" 0) text).

Lemma earlier_pending_kept_witness :
  fst (sanitizeMessagesOnLoad id [stuck "a" [] LOADING; stuck "b" "partial" STREAMING] 5 5 5)
    !! 0%nat = Some (stuck "a" [] LOADING).
Proof. apply earlier_pending_kept. reflexivity. Defined.

(** ** Edits *)

Lemma has_key_true (k : str) (m : Message) : has_key k m = true <-> m_key m = k.
Proof. apply str_eqb_eq. Qed.

Lemma other_keys (a b : list Message) (m : Message) :
  NoDup (map m_key (a ++ m :: b)) ->
  Forall (fun x => has_key (m_key m) x = false) (a ++ b).
Proof.
  intros Hn. apply Forall_forall. intros x Hx. apply not_true_iff_false.
  rewrite has_key_true. intros He.
  rewrite <- Permutation_middle in Hn. simpl in Hn. apply NoDup_cons in Hn as [Hn _].
  apply Hn. rewrite <- He. by apply list_elem_of_fmap_2.
Qed.

Lemma findIndex_key (a b : list Message) (m : Message) :
  NoDup (map m_key (a ++ m :: b)) ->
  findIndex (has_key (m_key m)) (a ++ m :: b) = Some (length a).
Proof.
  intros Hn%other_keys. apply Forall_app in Hn as [Ha _].
  apply findIndex_Some. exists m. split_and!; [by apply list_lookup_middle| |].
  - by apply has_key_true.
  - intros j y Hj Hy. rewrite lookup_app_l in Hy by done.
    by eapply Forall_lookup_1 in Ha.
Qed.

Lemma map_key_only (a b : list Message) (m : Message) (f : Message -> Message) :
  NoDup (map m_key (a ++ m :: b)) ->
  map (fun x => if has_key (m_key m) x then f x else x) (a ++ m :: b) = a ++ f m :: b.
Proof.
  intros Hn%other_keys. apply Forall_app in Hn as [Ha Hb].
  rewrite map_app. simpl. rewrite (proj2 (has_key_true _ _)) by done.
  f_equal; [|f_equal]; (rewrite <- map_id; apply map_ext_Forall);
    (eapply Forall_impl; [done|]); by intros x ->.
Qed.

Lemma slice_prefix {A} (a : list A) (x : A) (b : list A) :
  slice (a ++ x :: b) 0 (Z.of_nat (length a)) = a /\
  slice (a ++ x :: b) 0 (Z.of_nat (length a) + 1) = a ++ [x].
Proof.
  split; [by rewrite slice_0, take_app_length|].
  replace (Z.of_nat (length a) + 1) with (Z.of_nat (length (a ++ [x])))
    by (rewrite length_app; simpl; lia).
  rewrite cons_middle, app_assoc, slice_0. apply take_app_length.
Qed.

Lemma edit_spec (a b : list Message) (m : Message) (text : str)
    (submit : bool) (ids : str * str) (now : Z) :
  NoDup (map m_key (a ++ m :: b)) ->
  applyMessageEdit (a ++ m :: b) (m_key m) text submit ids now =
  Some (
    let edited := with_createdAt (if submit then Some now else createdAt m)
                    (updateCurrentVersionContent m text) in
    if submit && bool_decide (from m = USER)
    then EditResult (a ++ [edited; createLoadingAssistantMessage (fst ids) (snd ids) now]) true
    else EditResult (a ++ edited :: b) false).
Proof.
  intros Hn. unfold applyMessageEdit. rewrite findIndex_key by done.
  rewrite (map_key_only a b m (fun x => with_createdAt
    (if submit then Some now else createdAt x) (updateCurrentVersionContent x text))) by done.
  rewrite list_lookup_middle by done. cbn [from with_createdAt updateCurrentVersionContent with_versions].
  destruct submit, (bool_decide (from m = USER)); simpl; try done.
  by rewrite (proj2 (slice_prefix _ _ _)), <- app_assoc.
Qed.

(** Editing a message of a conversation whose keys are distinct replaces the
    text of that message alone; submitting the edit of a user message also
    drops what followed it, appends a loading answer and asks to send, and
    submitting the edit of any other message only saves it. *)
Theorem edit_message_spec (a b : list Message) (m : Message) (text : str)
    (submit : bool) (ids : str * str) (now : Z) :
  NoDup (map m_key (a ++ m :: b)) ->
  applyMessageEdit (a ++ m :: b) (m_key m) text submit ids now =
  Some (
    let edited := with_createdAt (if submit then Some now else createdAt m)
                    (updateCurrentVersionContent m text) in
    if submit && bool_decide (from m = USER)
    then EditResult (a ++ [edited; createLoadingAssistantMessage (fst ids) (snd ids) now]) true
    else EditResult (a ++ edited :: b) false).
Proof. apply edit_spec. Qed.

Lemma edit_message_spec_witness :
  let u := createUserMessage "u" "uv" "hi" 1 in
  let s := createLoadingAssistantMessage "s" "sv" 1 in
  option_map shouldSend (applyMessageEdit [u; s] "u" "hello" true (js "n", js "nv") 2) = Some true.
Proof.
  cbv zeta. set (u := createUserMessage _ _ _ _). set (s := createLoadingAssistantMessage _ _ _).
  refine (f_equal (option_map shouldSend)
            (edit_message_spec [] [s] u (js "hello") true (js "n", js "nv") 2 _)).
  apply (bool_decide_unpack _). vm_compute. exact I.
Defined.

Lemma regenerate_prefix (a b : list Message) (m : Message) (ids : str * str) (now : Z) :
  NoDup (map m_key (a ++ m :: b)) ->
  createRegeneratedMessages (a ++ m :: b) (m_key m) ids now =
  Some ((if bool_decide (from m = USER) then a ++ [m] else a) ++
        [createLoadingAssistantMessage (fst ids) (snd ids) now]).
Proof.
  intros Hn. unfold createRegeneratedMessages.
  rewrite findIndex_key, list_lookup_middle by done.
  destruct (slice_prefix a m b) as [-> ->]. by destruct (bool_decide _).
Qed.

(** Regenerating keeps the conversation up to and including a user message,
    and up to but excluding any other message, and appends one loading answer;
    a key that is not in the conversation changes nothing. *)
Theorem regenerate_spec (a b : list Message) (m : Message) (ids : str * str) (now : Z) :
  NoDup (map m_key (a ++ m :: b)) ->
  createRegeneratedMessages (a ++ m :: b) (m_key m) ids now =
  Some ((if bool_decide (from m = USER) then a ++ [m] else a) ++
        [createLoadingAssistantMessage (fst ids) (snd ids) now]) /\
  forall k, Forall (fun x => m_key x <> k) (a ++ m :: b) ->
  createRegeneratedMessages (a ++ m :: b) k ids now = None.
Proof.
  intros Hn. split; [by apply regenerate_prefix|].
  intros k Hk. unfold createRegeneratedMessages. rewrite (proj2 (findIndex_None _ _)); [done|].
  eapply Forall_impl; [exact Hk|]. intros x Hx. by apply str_eqb_neq.
Qed.

Lemma regenerate_spec_witness :
  let u := createUserMessage "u" "uv" "hi" 1 in
  let s := createLoadingAssistantMessage "s" "sv" 1 in
  createRegeneratedMessages [u; s] (m_key s) (js "n", js "nv") 2 =
  Some [u; createLoadingAssistantMessage "n" "nv" 2].
Proof.
  cbv zeta. set (u := createUserMessage _ _ _ _). set (s := createLoadingAssistantMessage _ _ _).
  refine (proj1 (regenerate_spec [u] [] s (js "n", js "nv") 2 _)).
  apply (bool_decide_unpack _). vm_compute. exact I.
Defined.
