(* ===== verification/PlaygroundRequest.v ===== *)
(** * Playground requests

    Models the configuration of the playground and the requests it makes
    ([src/web/src/features/playground/]): the configuration types and defaults
    of [types.ts] and [constants.ts], [lib/streaming/] (the payload, the events
    of the response stream, request errors), [lib/parameters/], [lib/options/]
    with the effects of [hooks/use-playground-options.ts], and [lib/input/].

    What [JSON.parse] returns is a [json] value, and the code reads its fields
    without checking them, with [prop] of [JsJson]. *)

From stdpp Require Import base list.
From Stdlib Require Import ZArith NArith Lia SpecFloat.
From S2P Require Import Prelude JsString JsArray JsNumber JsJson JsonRoundTrip Messages.
From S2P Require Import MessageLaws.

Local Open Scope Z_scope.

(** ** Configuration *)

Record PlaygroundConfig : Type := Config {
  model : str;
  group : str;
  temperature : num;
  top_p : num;
  max_tokens : num;
  frequency_penalty : num;
  presence_penalty : num;
  seed : option num;
  stream : bool;
}.

Record ParameterEnabled : Type := Enabled {
  en_temperature : bool;
  en_top_p : bool;
  en_max_tokens : bool;
  en_frequency_penalty : bool;
  en_presence_penalty : bool;
  en_seed : bool;
}.

Definition DEFAULT_GROUP : str := "default".

Definition DEFAULT_CONFIG : PlaygroundConfig :=
  Config "gpt-4o" DEFAULT_GROUP (Number "0.7") (num_of_Z 1) (num_of_Z 4096)
    num_zero num_zero None true.

Definition DEFAULT_PARAMETER_ENABLED : ParameterEnabled :=
  Enabled true true false true true false.

(** ** The payload *)

Record ChatCompletionRequest : Type := Request {
  rq_model : str;
  rq_group : str;
  rq_messages : list ChatCompletionMessage;
  rq_stream : bool;
  rq_temperature : option num;
  rq_top_p : option num;
  rq_max_tokens : option num;
  rq_frequency_penalty : option num;
  rq_presence_penalty : option num;
  rq_seed : option num;
}.

Definition when {A} (b : bool) (x : A) : option A := if b then Some x else None.

Definition buildChatCompletionPayload (messages : list Message)
    (config : PlaygroundConfig) (parameterEnabled : ParameterEnabled)
    : ChatCompletionRequest :=
  Request (model config) (group config)
    (map formatMessageForAPI (List.filter isValidMessage messages))
    (stream config)
    (when (en_temperature parameterEnabled) (temperature config))
    (when (en_top_p parameterEnabled) (top_p config))
    (when (en_max_tokens parameterEnabled) (max_tokens config))
    (when (en_frequency_penalty parameterEnabled) (frequency_penalty config))
    (when (en_presence_penalty parameterEnabled) (presence_penalty config))
    (if en_seed parameterEnabled then seed config else None).

(** ** The response stream *)

Record StreamErrorDetails : Type := StreamError {
  se_code : option json;
  se_message : json;
}.

Definition parseStreamErrorDetails (data : option str) : StreamErrorDetails :=
  let fallbackMessage := ostr_or data API_REQUEST_ERROR in
  match data with
  | None | Some [] => StreamError None (JStr fallbackMessage)
  | Some text =>
      match json_parse text with
      | None => StreamError None (JStr fallbackMessage)
      | Some parsed =>
          let error := oprop "error" (Some parsed) in
          if negb (truthy_ojson error) then StreamError None (JStr fallbackMessage)
          else
            let code := oprop "code" error in
            StreamError (if truthy_ojson code then code else None)
              (ojson_or (oprop "message" error) fallbackMessage)
      end
  end.

(** The updates carry the values the stream has, which the type says are
    strings. *)
Definition parseStreamMessageUpdates (data : str)
    : res (list (StreamChunkType * json)) :=
  match json_parse data with
  | None => Throw
  | Some chunk =>
      let! choices := prop "choices" chunk in
      let delta := oprop "delta" (ofirst choices) in
      if negb (truthy_ojson delta) then Ok []
      else
        let pick ty k :=
          match oprop k delta with
          | Some v => if truthy_json v then [(ty, v)] else []
          | None => []
          end in
        Ok (pick ReasoningChunk "reasoning_content" ++ pick ContentChunk "content")
  end.

Definition STREAM_DONE_MESSAGE : str := "[DONE]".

Definition isStreamDoneMessage (data : str) : bool := data =?s STREAM_DONE_MESSAGE.

Definition isStreamClosedReadyState (readyState : option Z) : bool :=
  match readyState with Some s => s =? 2 | None => false end.

Definition getStreamReadyStateError (eventReadyState sourceStatus : option Z)
    : option str :=
  match eventReadyState, sourceStatus with
  | Some rs, Some st =>
      if (2 <=? rs) && negb (st =? 200)
      then Some ("HTTP " ++ string_of_Z st ++ ": " ++ CONNECTION_CLOSED)
      else None
  | _, _ => None
  end.

(** ** Request errors *)

(** The fields that are read of a failed request: [message],
    [response.data.error.code] and [response.data.message]; [None] where any
    part of the path is missing. *)
Record RequestErrorLike : Type := RequestErr {
  re_message : option str;
  re_code : option str;
  re_data_message : option str;
}.

Record RequestErrorDetails : Type := ErrDetails {
  rd_code : option str;
  rd_message : str;
}.

Definition parseRequestErrorDetails (error : RequestErrorLike) : RequestErrorDetails :=
  ErrDetails
    (match re_code error with
     | Some c => if truthy_str c then Some c else None
     | None => None
     end)
    (ostr_or (re_data_message error) (ostr_or (re_message error) API_REQUEST_ERROR)).

(** ** Parameters *)

Inductive ParameterKey : Type :=
  PTemperature | PTopP | PFrequencyPenalty | PPresencePenalty | PMaxTokens | PSeed.

#[export] Instance ParameterKey_eq_dec : EqDecision ParameterKey.
Proof. solve_decision. Defined.

Inductive ValueType : Type := Slider | NumberInput.

Record PlaygroundParameterControl : Type := Control {
  pc_key : ParameterKey;
  labelKey : str;
  descriptionKey : str;
  valueType : ValueType;
  pc_min : num;
  pc_max : num;
  step : num;
}.

Definition PLAYGROUND_PARAMETER_CONTROLS : list PlaygroundParameterControl := [
  Control PTemperature "Temperature" "Controls randomness and creativity" Slider
    (Number "0.1") (num_of_Z 1) (Number "0.1");
  Control PTopP "Top P" "Limits token selection to a probability mass" Slider
    (Number "0.1") (num_of_Z 1) (Number "0.1");
  Control PFrequencyPenalty "Frequency Penalty" "Reduces repeated wording" Slider
    (num_of_Z (-2)) (num_of_Z 2) (Number "0.1");
  Control PPresencePenalty "Presence Penalty" "Encourages new topics" Slider
    (num_of_Z (-2)) (num_of_Z 2) (Number "0.1");
  Control PMaxTokens "Max Tokens" "Caps the response length" NumberInput
    num_zero (num_of_Z 200000) (num_of_Z 1);
  Control PSeed "Seed" "Keeps compatible responses more repeatable" NumberInput
    num_zero (num_of_Z 2147483647) (num_of_Z 1) ].

Inductive ParamInput : Type := PStr (s : str) | PNum (x : num).

Definition normalizeParameterNumberValue (key : ParameterKey) (value : ParamInput)
    : option num :=
  let empty := if bool_decide (key = PSeed) then None else Some num_zero in
  match value with
  | PStr [] => empty
  | _ =>
      let parsed := match value with PNum x => x | PStr s => parseFloat s end in
      match find (fun c => bool_decide (pc_key c = key)) PLAYGROUND_PARAMETER_CONTROLS with
      | None => empty
      | Some control =>
          if isNaN parsed then empty
          else
            let clamped := num_min (pc_max control) (num_max (pc_min control) parsed) in
            if num_le (num_of_Z 1) (step control) then Some (num_trunc clamped)
            else
              let decimals :=
                match split_char "."%char (num_to_string (step control)) with
                | _ :: d :: _ => strlen d
                | _ => 0
                end in
              Some (Number (toFixed clamped (Z.max 0 decimals)))
      end
  end.

Definition getParameterControlValueText (key : ParameterKey) (value : option num) : str :=
  match value with
  | None => if bool_decide (key = PSeed) then "Not set" else "null"
  | Some x => num_to_string x
  end.

(** ** Options *)

Record ModelOption : Type := ModelOpt { mo_label : str; mo_value : str }.

Record GroupOption : Type := GroupOpt {
  go_label : str;
  go_value : str;
  go_ratio : num;
  go_desc : option str;
}.

Definition getModelFallback (models : list ModelOption) (currentModel : str)
    : option str :=
  if existsb (fun m => mo_value m =?s currentModel) models then None
  else match models with [] => None | m :: _ => Some (mo_value m) end.

Definition shouldClearModelForGroup (models : list ModelOption) (currentModel : str)
    : bool :=
  if currentModel =?s [] then false
  else negb (existsb (fun m => mo_value m =?s currentModel) models).

Definition getGroupFallback (groups : list GroupOption) (currentGroup : str)
    : option str :=
  if existsb (fun g => go_value g =?s currentGroup) groups then None
  else
    match groups with
    | [] => None
    | g0 :: _ =>
        Some (nullish (option_map go_value
                         (find (fun g => go_value g =?s DEFAULT_GROUP) groups))
                (go_value g0))
    end.

(** [error instanceof Error]: [Some] of its message. *)
Definition getOptionLoadErrorMessage (error : option str) (fallbackMessage : str) : str :=
  match error with Some msg => msg | None => fallbackMessage end.

Definition with_model (m : str) (c : PlaygroundConfig) : PlaygroundConfig :=
  Config m (group c) (temperature c) (top_p c) (max_tokens c) (frequency_penalty c)
    (presence_penalty c) (seed c) (stream c).

Definition with_group (g : str) (c : PlaygroundConfig) : PlaygroundConfig :=
  Config (model c) g (temperature c) (top_p c) (max_tokens c) (frequency_penalty c)
    (presence_penalty c) (seed c) (stream c).

(** The effect of [usePlaygroundOptions] on the configuration when the models
    of the group arrive; [None] is a query without data. *)
Definition modelsEffect (modelsData : option (list ModelOption)) (c : PlaygroundConfig)
    : PlaygroundConfig :=
  match modelsData with
  | None => c
  | Some models =>
      match getModelFallback models (model c) with
      | Some (x :: f) => with_model (x :: f) c
      | _ => if shouldClearModelForGroup models (model c) then with_model [] c else c
      end
  end.

Definition groupsEffect (groupsData : option (list GroupOption)) (c : PlaygroundConfig)
    : PlaygroundConfig :=
  match groupsData with
  | None => c
  | Some groups =>
      match getGroupFallback groups (group c) with
      | Some (x :: f) => with_group (x :: f) c
      | _ => c
      end
  end.

(** ** Input *)

Record InputControlState : Type := InputState {
  canSubmit : bool;
  isSelectorDisabled : bool;
  shouldShowStop : bool;
}.

Definition getSubmittableInputText (text : option str) (disabled : bool) : option str :=
  if disabled || negb (truthy_str (nullish (option_map trim text) [])) then None
  else text.

Definition getInputControlState (disabled : bool) (groups : list GroupOption)
    (hasStopHandler isGenerating isModelLoading : bool) (models : list ModelOption)
    (text : str) : InputControlState :=
  InputState
    (negb disabled && (0 <? Z.of_nat (length models)) && (0 <? strlen (trim text)))
    (disabled || isModelLoading || (Z.of_nat (length groups) =? 0))
    (isGenerating && hasStopHandler).

(** ** What is sent *)

Section sent.
Context (c : PlaygroundConfig) (e : ParameterEnabled).

Definition sent (ms : list Message) : list ChatCompletionMessage :=
  rq_messages (buildChatCompletionPayload ms c e).

Lemma sent_app (a b : list Message) : sent (a ++ b) = sent a ++ sent b.
Proof. unfold sent. simpl. by rewrite List.filter_app, map_app. Qed.

Lemma sent_loading (key vid : str) (now : Z) :
  sent [createLoadingAssistantMessage key vid now] = [].
Proof. done. Qed.

Lemma sent_user (m : Message) :
  from m = USER -> versions m <> [] -> sent [m] = [ChatMsg USER (CText (getMessageContent m))].
Proof.
  intros Hf Hv. unfold sent, isValidMessage, formatMessageForAPI. simpl.
  unfold isValidMessage. destruct (versions m); [done|].
  rewrite Hf. simpl. unfold formatMessageForAPI. by rewrite Hf.
Qed.

Lemma sent_edited (m : Message) (text : str) (t : option Z) :
  from m = USER ->
  sent [with_createdAt t (updateCurrentVersionContent m text)] =
  [ChatMsg USER (CText text)].
Proof. intros Hf. by rewrite sent_user. Qed.
End sent.

(** What a conversation action sends to the model: a new message sends the
    messages of the conversation and the new text; a resubmitted edit of a
    user message sends what comes before it and the new text; regenerating an
    answer sends what comes before it, and regenerating from a user message
    sends what comes before it and its text.  The loading placeholder and what
    followed the edited or regenerated message are never sent. *)
Theorem actions_send (c : PlaygroundConfig) (e : ParameterEnabled) :
  (forall ms text ids now,
     sent c e (appendUserMessagePair ms text ids now) =
     sent c e ms ++ [ChatMsg USER (CText text)]) /\
  (forall a m b text ids now,
     NoDup (map m_key (a ++ m :: b)) -> from m = USER ->
     option_map (fun r => sent c e (er_messages r))
       (applyMessageEdit (a ++ m :: b) (m_key m) text true ids now) =
     Some (sent c e a ++ [ChatMsg USER (CText text)])) /\
  (forall a m b ids now,
     NoDup (map m_key (a ++ m :: b)) -> versions m <> [] ->
     option_map (sent c e)
       (createRegeneratedMessages (a ++ m :: b) (m_key m) ids now) =
     Some (sent c e a ++
           if bool_decide (from m = USER)
           then [ChatMsg USER (CText (getMessageContent m))] else [])).
Proof.
  split_and!.
  - intros ms text [[uk uv] [ak av]] now. unfold appendUserMessagePair.
    by rewrite sent_app.
  - intros a m b text ids now Hn Hu.
    rewrite edit_spec by done. simpl option_map. rewrite (bool_decide_eq_true_2 _ Hu).
    simpl andb. cbv iota. cbn [er_messages]. change [?x; ?y] with ([x] ++ [y]).
    by rewrite !sent_app, sent_edited, sent_loading, app_nil_r.
  - intros a m b ids now Hn Hv. rewrite regenerate_prefix by done. simpl option_map.
    rewrite sent_app, sent_loading, app_nil_r.
    case_bool_decide; [|by rewrite app_nil_r]. by rewrite sent_app, sent_user.
Qed.

Lemma actions_send_witness :
  let u := createUserMessage "u" "uv" "hi" 1 in
  let s := stuck "s" "answer" COMPLETE in
  option_map (sent DEFAULT_CONFIG DEFAULT_PARAMETER_ENABLED)
    (createRegeneratedMessages [u; s] "s" (js "n", js "nv") 2) =
  Some [ChatMsg USER (CText "hi")].
Proof.
  cbv zeta. set (u := createUserMessage _ _ _ _). set (s := stuck _ _ _).
  refine (proj2 (proj2 (actions_send DEFAULT_CONFIG DEFAULT_PARAMETER_ENABLED))
            [u] s [] (js "n", js "nv") 2 _ _); [|done].
  apply (bool_decide_unpack _). vm_compute. exact I.
Defined.

(** ** Decoding the stream *)

Definition delta_fields (reasoning content : option str) : list (str * json) :=
  match reasoning with Some r => [(js "reasoning_content", JStr r)] | None => [] end ++
  match content with Some c => [(js "content", JStr c)] | None => [] end.

Definition text_update (ty : StreamChunkType) (s : option str)
    : list (StreamChunkType * json) :=
  match s with
  | Some s => if truthy_str s then [(ty, JStr s)] else []
  | None => []
  end.

Lemma delta_fields_ok (r c : option str) : json_ok (JObj (delta_fields r c)).
Proof.
  destruct r as [r|], c as [c|]; (constructor; [reflexivity|repeat constructor]).
Qed.

(** The event of a delta. *)
Definition delta_event (r c : option str) : json :=
  JObj [(js "choices", JArr [JObj [(js "index", JNum num_zero);
                                   (js "delta", JObj (delta_fields r c))]])].

Lemma delta_event_ok (r c : option str) : json_ok (delta_event r c).
Proof.
  pose proof (delta_fields_ok r c). pose proof num_zero_ok.
  repeat first [assumption | reflexivity | constructor].
Qed.

Lemma decode_delta (r c : option str) :
  parseStreamMessageUpdates (stringify (delta_event r c)) =
  Ok (text_update ReasoningChunk r ++ text_update ContentChunk c).
Proof.
  unfold parseStreamMessageUpdates. rewrite json_roundtrip by apply delta_event_ok.
  destruct r as [r|], c as [c|]; reflexivity.
Qed.

(** An event that carries a reasoning text and a content text, whatever
    their characters, is decoded to exactly those of the two that are not
    empty, the reasoning first. *)
Theorem delta_decodes (r c : option str) :
  parseStreamMessageUpdates (stringify (delta_event r c)) =
  Ok (text_update ReasoningChunk r ++ text_update ContentChunk c).
Proof. apply decode_delta. Qed.

(** An event that is not JSON, or is the JSON [null], makes the decoder
    throw; any other JSON value is decoded, to at most one reasoning update
    followed by at most one content update, each truthy. *)
Theorem decoder_total (data : str) :
  match json_parse data with
  | None | Some JNull => parseStreamMessageUpdates data = Throw
  | Some _ =>
      exists rs cs,
        parseStreamMessageUpdates data =
          Ok (map (pair ReasoningChunk) rs ++ map (pair ContentChunk) cs) /\
        (length rs <= 1)%nat /\ (length cs <= 1)%nat /\
        Forall (fun v => truthy_json v = true) (rs ++ cs)
  end.
Proof.
  unfold parseStreamMessageUpdates.
  assert (Hpick : forall ty (o : option json), exists vs,
    match o with Some v => if truthy_json v then [(ty, v)] else [] | None => [] end =
    map (pair (ty : StreamChunkType)) vs /\ (length vs <= 1)%nat /\
    Forall (fun v => truthy_json v = true) vs).
  { intros ty [v|]; [destruct (truthy_json v) eqn:Hv; [by exists [v]; repeat constructor|]|];
      by exists []; repeat constructor. }
  destruct (json_parse data) as [v|]; [|done].
  assert (Hok : v <> JNull -> exists choices, prop "choices" v = Ok choices)
    by (destruct v; [done|by eexists..]).
  destruct v; try reflexivity; destruct (Hok ltac:(done)) as [choices ->]; simpl;
    (destruct (truthy_ojson _); [|by exists [], []; repeat constructor]); simpl;
    set (d := oprop "delta" _);
    destruct (Hpick ReasoningChunk (oprop "reasoning_content" d)) as (rs & -> & Hr1 & Hr);
    destruct (Hpick ContentChunk (oprop "content" d)) as (cs & -> & Hc1 & Hc);
    exists rs, cs; split_and!; try done; by apply Forall_app.
Qed.

(** ** Selection of a model and a group *)

Lemma existsb_value {A} (f : A -> str) (x : str) (l : list A) :
  existsb (fun a => f a =?s x) l = true <-> x ∈ map f l.
Proof.
  rewrite existsb_exists, list_elem_of_In, in_map_iff.
  split; intros (a & H1 & H2); exists a; rewrite ?str_eqb_eq in *; tauto.
Qed.

Definition model_settled (models : list ModelOption) (m : str) : Prop :=
  m ∈ map mo_value models \/ models = [] /\ m = [].

Lemma modelsEffect_settles (models : list ModelOption) (c : PlaygroundConfig) :
  model_settled models (model (modelsEffect (Some models) c)).
Proof.
  unfold modelsEffect, getModelFallback, shouldClearModelForGroup.
  destruct (existsb _ models) eqn:He.
  - rewrite existsb_value in He. simpl. destruct (model c =?s []); by left.
  - destruct models as [|m ms].
    + right. split; [done|]. destruct (str_eqb_spec (model c) []); [done|done].
    + left. destruct (mo_value m) as [|x f] eqn:Hv; simpl; rewrite Hv; [|by left].
      destruct (str_eqb_spec (model c) []) as [->|]; by left.
Qed.

Lemma modelsEffect_id (models : list ModelOption) (c : PlaygroundConfig) :
  model_settled models (model c) -> modelsEffect (Some models) c = c.
Proof.
  unfold modelsEffect, getModelFallback, shouldClearModelForGroup.
  intros [Hm|[-> Hm]]; [|by rewrite Hm].
  apply existsb_value in Hm. rewrite Hm. simpl. by destruct (model c =?s []).
Qed.

Lemma modelsEffect_group (models : list ModelOption) (c : PlaygroundConfig) :
  group (modelsEffect (Some models) c) = group c.
Proof.
  unfold modelsEffect. destruct (getModelFallback _ _) as [[|]|]; [|done|];
    by destruct (shouldClearModelForGroup _ _).
Qed.

Lemma groupsEffect_model (groups : list GroupOption) (c : PlaygroundConfig) :
  model (groupsEffect (Some groups) c) = model c.
Proof. unfold groupsEffect. by destruct (getGroupFallback _ _) as [[|]|]. Qed.

Lemma getGroupFallback_spec (groups : list GroupOption) (cur : str) :
  match getGroupFallback groups cur with
  | Some f => f ∈ map go_value groups
  | None => cur ∈ map go_value groups \/ groups = []
  end.
Proof.
  unfold getGroupFallback. destruct (existsb _ groups) eqn:He.
  { left. by apply existsb_value in He. }
  destruct groups as [|g gs]; [by right|].
  destruct (find _ (g :: gs)) as [d|] eqn:Hd; simpl; [|by left].
  apply find_Some in Hd as [Hd _]. by apply (list_elem_of_fmap_2 go_value) in Hd.
Qed.

Lemma groupsEffect_settles (groups : list GroupOption) (c : PlaygroundConfig) :
  Forall (fun g => go_value g <> []) groups ->
  let g := group (groupsEffect (Some groups) c) in
  g ∈ map go_value groups \/ groups = [] /\ g = group c.
Proof.
  intros Hg. unfold groupsEffect. pose proof (getGroupFallback_spec groups (group c)) as H.
  destruct (getGroupFallback groups (group c)) as [[|x f]|]; simpl; [|by left|tauto].
  apply list_elem_of_fmap in H as (g & Hv & Hin).
  rewrite Forall_forall in Hg. by destruct (Hg g Hin).
Qed.

Lemma groupsEffect_id (groups : list GroupOption) (c : PlaygroundConfig) :
  group c ∈ map go_value groups \/ groups = [] -> groupsEffect (Some groups) c = c.
Proof.
  unfold groupsEffect, getGroupFallback. intros [Hm| ->]; [|done].
  apply existsb_value in Hm. by rewrite Hm.
Qed.

(** When the models and the groups arrive, one run of the effects settles
    the selection: the model is one of the group's models, or empty when there
    are none, the group is one of the groups, and running the effects again
    changes nothing.  Groups have non-empty names. *)
Theorem options_settle (models : list ModelOption) (groups : list GroupOption)
    (c : PlaygroundConfig) :
  Forall (fun g => go_value g <> []) groups ->
  let c' := groupsEffect (Some groups) (modelsEffect (Some models) c) in
  (model c' ∈ map mo_value models \/ models = [] /\ model c' = []) /\
  (group c' ∈ map go_value groups \/ groups = [] /\ group c' = group c) /\
  modelsEffect (Some models) c' = c' /\ groupsEffect (Some groups) c' = c'.
Proof.
  intros Hg c'. subst c'.
  set (c1 := modelsEffect (Some models) c).
  assert (Hm1 : model_settled models (model c1)) by apply modelsEffect_settles.
  assert (Hm2 : model (groupsEffect (Some groups) c1) = model c1)
    by apply groupsEffect_model.
  assert (Hg1 : group c1 = group c) by apply modelsEffect_group.
  pose proof (groupsEffect_settles groups c1 Hg) as Hg2. rewrite Hg1 in Hg2.
  split_and!; [by rewrite Hm2|done|apply modelsEffect_id; by rewrite Hm2|].
  apply groupsEffect_id. destruct Hg2 as [Hg2|[-> _]]; [by left|by right].
Qed.

Lemma options_settle_witness :
  model (groupsEffect (Some [GroupOpt "vip" "vip" num_zero None])
           (modelsEffect (Some []) DEFAULT_CONFIG)) = [].
Proof.
  destruct (options_settle [] [GroupOpt "vip" "vip" num_zero None] DEFAULT_CONFIG)
    as [[Hm|[_ Hm]] _].
  - by repeat constructor.
  - by apply not_elem_of_nil in Hm.
  - exact Hm.
Defined.
