(* ===== verification/PlaygroundStorage.v ===== *)
(** * Playground storage

    Models [lib/storage/] and [lib/state/] of the playground
    ([src/web/src/features/playground/]): the envelope in which configuration
    and messages are kept in [localStorage], and the repair and trimming of the
    messages that are read back.

    [localStorage] is a finite map from keys to texts.  A schema of
    [storage-schema.ts] is the function that checks a value against it and
    returns what it accepts: [z.object] keeps the fields it names and drops
    the others, [z.number] takes finite numbers only.  The translation function
    of [i18next] and the test whether the browser accepts a write are
    parameters.  Where the code compares arrays or messages by reference, the
    functions also return whether their result is a new object. *)

From stdpp Require Import base list gmap.
From Stdlib Require Import ZArith NArith Lia.
From S2P Require Import Prelude JsString JsArray JsNumber JsRegex JsJson Messages.
From S2P Require Import PlaygroundRequest.

Local Open Scope Z_scope.

Definition STORAGE_VERSION : Z := 1.
Definition MAX_STORED_MESSAGES : Z := 100.
Definition MAX_STORED_MESSAGES_BYTES : Z := 1024 * 1024.
Definition MAX_LOADED_MESSAGES_CHARS : Z := 120000.
Definition MAX_LOADED_MESSAGE_CHARS : Z := 40000.

Definition CONFIG_KEY : str := "playground_config".
Definition MESSAGES_KEY : str := "playground_messages".
Definition PARAMETER_ENABLED_KEY : str := "playground_parameter_enabled".

Definition Store : Type := gmap str str.

(** ** Partial configurations *)

Record PartialConfig : Type := PConfig {
  p_model : option str;
  p_group : option str;
  p_temperature : option num;
  p_top_p : option num;
  p_max_tokens : option num;
  p_frequency_penalty : option num;
  p_presence_penalty : option num;
  p_seed : option (option num);
  p_stream : option bool;
}.

Definition no_config : PartialConfig :=
  PConfig None None None None None None None None None.

Definition partial (c : PlaygroundConfig) : PartialConfig :=
  PConfig (Some (model c)) (Some (group c)) (Some (temperature c)) (Some (top_p c))
    (Some (max_tokens c)) (Some (frequency_penalty c)) (Some (presence_penalty c))
    (Some (seed c)) (Some (stream c)).

(** [{ ...c, ...p }]. *)
Definition spread_config (c : PlaygroundConfig) (p : PartialConfig) : PlaygroundConfig :=
  Config (nullish (p_model p) (model c)) (nullish (p_group p) (group c))
    (nullish (p_temperature p) (temperature c)) (nullish (p_top_p p) (top_p c))
    (nullish (p_max_tokens p) (max_tokens c))
    (nullish (p_frequency_penalty p) (frequency_penalty c))
    (nullish (p_presence_penalty p) (presence_penalty c))
    (nullish (p_seed p) (seed c)) (nullish (p_stream p) (stream c)).

Record PartialEnabled : Type := PEnabled {
  pe_temperature : option bool;
  pe_top_p : option bool;
  pe_max_tokens : option bool;
  pe_frequency_penalty : option bool;
  pe_presence_penalty : option bool;
  pe_seed : option bool;
}.

Definition no_enabled : PartialEnabled := PEnabled None None None None None None.

Definition partial_enabled (e : ParameterEnabled) : PartialEnabled :=
  PEnabled (Some (en_temperature e)) (Some (en_top_p e)) (Some (en_max_tokens e))
    (Some (en_frequency_penalty e)) (Some (en_presence_penalty e)) (Some (en_seed e)).

Definition spread_enabled (e : ParameterEnabled) (p : PartialEnabled) : ParameterEnabled :=
  Enabled (nullish (pe_temperature p) (en_temperature e))
    (nullish (pe_top_p p) (en_top_p e)) (nullish (pe_max_tokens p) (en_max_tokens e))
    (nullish (pe_frequency_penalty p) (en_frequency_penalty e))
    (nullish (pe_presence_penalty p) (en_presence_penalty e))
    (nullish (pe_seed p) (en_seed e)).

(** ** Schemas *)

Definition z_string (v : json) : option str := match v with JStr s => Some s | _ => None end.
Definition z_boolean (v : json) : option bool := match v with JBool b => Some b | _ => None end.

Definition z_number (v : json) : option num :=
  match v with JNum x => if isFinite x then Some x else None | _ => None end.

(** A time or a duration, which the messages hold in whole milliseconds. *)
Definition z_millis (v : json) : option Z := trunc_Z <$> z_number v.

Definition z_enum {A} (values : list A) (text : A -> str) (v : json) : option A :=
  match v with JStr s => find (fun x => text x =?s s) values | _ => None end.

Definition z_nullable {A} (p : json -> option A) (v : json) : option (option A) :=
  match v with JNull => Some None | _ => Some <$> p v end.

Definition z_array {A} (p : json -> option A) (v : json) : option (list A) :=
  match v with JArr l => mapM p l | _ => None end.

Definition z_min {A} (n : nat) (l : list A) : option (list A) := if (n <=? length l)%nat then Some l else None.

(** The fields of [z.object]: one that is required, and one that may be missing. *)
Definition z_object (v : json) : option (list (str * json)) := match v with JObj o => Some o | _ => None end.

Definition required {A} (k : str) (p : json -> option A) (o : list (str * json)) : option A := obj_get k o ≫= p.

Definition optional {A} (k : str) (p : json -> option A) (o : list (str * json)) : option (option A) :=
  match obj_get k o with None => Some None | Some v => Some <$> p v end.

Definition playgroundConfigSchema (v : json) : option PartialConfig :=
  o ← z_object v;
  model ← optional "model" z_string o;
  group ← optional "group" z_string o;
  temperature ← optional "temperature" z_number o;
  top_p ← optional "top_p" z_number o;
  max_tokens ← optional "max_tokens" z_number o;
  frequency_penalty ← optional "frequency_penalty" z_number o;
  presence_penalty ← optional "presence_penalty" z_number o;
  seed ← optional "seed" (z_nullable z_number) o;
  stream ← optional "stream" z_boolean o;
  Some (PConfig model group temperature top_p max_tokens frequency_penalty presence_penalty seed stream).

Definition parameterEnabledSchema (v : json) : option PartialEnabled :=
  o ← z_object v;
  temperature ← optional "temperature" z_boolean o;
  top_p ← optional "top_p" z_boolean o;
  max_tokens ← optional "max_tokens" z_boolean o;
  frequency_penalty ← optional "frequency_penalty" z_boolean o;
  presence_penalty ← optional "presence_penalty" z_boolean o;
  seed ← optional "seed" z_boolean o;
  Some (PEnabled temperature top_p max_tokens frequency_penalty presence_penalty seed).

Definition role_text (r : MessageRole) : str :=
  match r with USER => "user" | ASSISTANT => "assistant" | SYSTEM => "system" end.

Definition status_text (s : MessageStatus) : str :=
  match s with
  | LOADING => "loading" | STREAMING => "streaming"
  | COMPLETE => "complete" | ERROR => "error"
  end.

Definition messageRoleSchema : json -> option MessageRole := z_enum [USER; ASSISTANT; SYSTEM] role_text.
Definition messageStatusSchema : json -> option MessageStatus := z_enum [LOADING; STREAMING; COMPLETE; ERROR] status_text.

Definition messageVersionSchema (v : json) : option MessageVersion :=
  o ← z_object v;
  id ← required "id" z_string o;
  content ← required "content" z_string o;
  Some (Version id content).

Definition sourceSchema (v : json) : option (str * str) :=
  o ← z_object v;
  href ← required "href" z_string o;
  title ← required "title" z_string o;
  Some (href, title).

Definition reasoningSchema (v : json) : option Reasoning :=
  o ← z_object v;
  content ← required "content" z_string o;
  duration ← required "duration" z_millis o;
  startedAt ← optional "startedAt" z_millis o;
  completedAt ← optional "completedAt" z_millis o;
  durationMs ← optional "durationMs" z_millis o;
  Some (Reason content duration startedAt completedAt durationMs).

(** A flag that is missing counts as [false], a missing error code as [null]: a
    [Message] does not tell them apart. *)
Definition messageSchema (v : json) : option Message :=
  o ← z_object v;
  key ← required "key" z_string o;
  from ← required "from" messageRoleSchema o;
  versions ← required "versions" (z_array messageVersionSchema) o ≫= z_min 1;
  createdAt ← optional "createdAt" z_millis o;
  startedAt ← optional "startedAt" z_millis o;
  completedAt ← optional "completedAt" z_millis o;
  durationMs ← optional "durationMs" z_millis o;
  sources ← optional "sources" (z_array sourceSchema) o;
  reasoning ← optional "reasoning" reasoningSchema o;
  isReasoningStreaming ← optional "isReasoningStreaming" z_boolean o;
  isReasoningComplete ← optional "isReasoningComplete" z_boolean o;
  isContentComplete ← optional "isContentComplete" z_boolean o;
  status ← optional "status" messageStatusSchema o;
  errorCode ← optional "errorCode" (z_nullable z_string) o;
  Some (Msg key from versions createdAt startedAt completedAt durationMs sources reasoning
          (nullish isReasoningStreaming false) (nullish isReasoningComplete false)
          (nullish isContentComplete false) status (nullish errorCode None)).

Definition messagesSchema : json -> option (list Message) := z_array messageSchema.

(** ** The JSON of stored values *)

Definition field {A} (k : str) (enc : A -> json) (v : option A) : list (str * json) :=
  match v with Some x => [(k, enc x)] | None => [] end.

Definition int_json (n : Z) : json := JNum (num_of_Z n).

Definition config_json (p : PartialConfig) : json :=
  JObj (field "model" JStr (p_model p) ++ field "group" JStr (p_group p) ++
        field "temperature" JNum (p_temperature p) ++ field "top_p" JNum (p_top_p p) ++
        field "max_tokens" JNum (p_max_tokens p) ++
        field "frequency_penalty" JNum (p_frequency_penalty p) ++
        field "presence_penalty" JNum (p_presence_penalty p) ++
        field "seed" (fun s => match s with Some x => JNum x | None => JNull end) (p_seed p) ++
        field "stream" JBool (p_stream p)).

Definition enabled_json (p : PartialEnabled) : json :=
  JObj (field "temperature" JBool (pe_temperature p) ++ field "top_p" JBool (pe_top_p p) ++
        field "max_tokens" JBool (pe_max_tokens p) ++
        field "frequency_penalty" JBool (pe_frequency_penalty p) ++
        field "presence_penalty" JBool (pe_presence_penalty p) ++
        field "seed" JBool (pe_seed p)).

Definition reasoning_json (r : Reasoning) : json :=
  JObj ([(js "content", JStr (r_content r)); (js "duration", int_json (r_duration r))] ++
        field "startedAt" int_json (r_startedAt r) ++
        field "completedAt" int_json (r_completedAt r) ++
        field "durationMs" int_json (r_durationMs r)).

(** A message as an object; a flag that is not set is written as [false]. *)
Definition message_json (m : Message) : json :=
  JObj ([(js "key", JStr (m_key m)); (js "from", JStr (role_text (from m)));
         (js "versions", JArr (map (fun v => JObj [(js "id", JStr (v_id v));
                                                   (js "content", JStr (v_content v))])
                                 (versions m)))] ++
        field "createdAt" int_json (createdAt m) ++
        field "startedAt" int_json (startedAt m) ++
        field "completedAt" int_json (completedAt m) ++
        field "durationMs" int_json (durationMs m) ++
        field "sources" (fun l => JArr (map (fun s => JObj [(js "href", JStr (fst s));
                                                             (js "title", JStr (snd s))]) l))
          (sources m) ++
        field "reasoning" reasoning_json (reasoning m) ++
        [(js "isReasoningStreaming", JBool (isReasoningStreaming m));
         (js "isReasoningComplete", JBool (isReasoningComplete m));
         (js "isContentComplete", JBool (isContentComplete m))] ++
        field "status" (fun s => JStr (status_text s)) (status m) ++
        field "errorCode" JStr (errorCode m)).

Definition messages_json (ms : list Message) : json := JArr (map message_json ms).

(** ** Trimming *)

Definition TRUNCATED_CONTENT_SUFFIX : str := [10; 10]%N ++ js "[...]".
Definition MIN_PREFIX_COLLAPSE_LENGTH : Z := 2000.
Definition MIN_REPEATED_SECTION_COUNT : Z := 3.

(** [/^#{2,6}\s+\d+\.\s+.+$/gm]. *)
Definition SECTION_HEADING_LINE_PATTERN : regex :=
  let h := Cls (N.eqb "#"%char) in
  (MBol · h · h · Opt (h · Opt (h · Opt (h · Opt h))) · Plus (Cls c_space) ·
   Plus (Cls c_digit) · lit "." · Plus (Cls c_space) · Plus (Cls c_dot) · MEol)%js.

(** The array, and whether it is a new one. *)
Definition trimMessages (messages : list Message) : list Message * bool :=
  if Z.of_nat (length messages) <=? MAX_STORED_MESSAGES then (messages, false)
  else (slice_from messages (- MAX_STORED_MESSAGES), true).

Definition getMessageSize (m : Message) : Z :=
  let versionsSize :=
    fold_left (fun total v => total + strlen (v_content v)) (versions m) 0 in
  let reasoningSize := nullish (option_map (fun r => strlen (r_content r)) (reasoning m)) 0 in
  versionsSize + reasoningSize.

Definition truncateText (text : str) (maxLength : Z) : str :=
  if strlen text <=? maxLength then text
  else if maxLength <=? strlen TRUNCATED_CONTENT_SUFFIX then slice text 0 maxLength
  else slice text 0 (maxLength - strlen TRUNCATED_CONTENT_SUFFIX) ++ TRUNCATED_CONTENT_SUFFIX.

(** A heading and where it starts. *)
Definition SectionOccurrence : Type := str * Z.

Definition getSectionOccurrences (text : str) : list SectionOccurrence :=
  map (fun m => (m_text m, Z.of_nat (m_index m))) (match_all SECTION_HEADING_LINE_PATTERN text).

Definition getHeadingCounts (occurrences : list SectionOccurrence) : gmap str Z :=
  fold_left (fun counts o =>
    <[fst o := nullish (counts !! fst o) 0 + 1]> counts) occurrences ∅.

(** The loop from the last occurrence to the first, over the reversed list. *)
Fixpoint repeated_loop (counts : gmap str Z) (occurrences : list SectionOccurrence)
    (seen : list str) (indexes : list Z) : list Z :=
  match occurrences with
  | [] => indexes
  | (heading, i) :: rest =>
      let count := nullish (counts !! heading) 0 in
      if (count <? MIN_REPEATED_SECTION_COUNT) || mem_str heading seen
      then repeated_loop counts rest seen indexes
      else repeated_loop counts rest (heading :: seen) (indexes ++ [i])
  end.

Definition findLastRepeatedSectionRunStart (text : str) : Z :=
  let occurrences := getSectionOccurrences text in
  match repeated_loop (getHeadingCounts occurrences) (rev occurrences) [] [] with
  | [] => -1
  | i :: rest => fold_left Z.min rest i
  end.

Definition collapseRepeatedSectionSnapshots (text : str) : str :=
  if strlen text <? MIN_PREFIX_COLLAPSE_LENGTH then text
  else
    let start := findLastRepeatedSectionRunStart text in
    if start =? -1 then text else slice_from text start.

(** A version and whether it is a new object. *)
Definition normalizeVersion (v : MessageVersion) : MessageVersion * bool :=
  let collapsed := collapseRepeatedSectionSnapshots (v_content v) in
  let c := truncateText collapsed MAX_LOADED_MESSAGE_CHARS in
  if (c =?s v_content v) && (collapsed =?s v_content v) then (v, false)
  else (Version (v_id v) c, true).

Definition truncateReasoning (r : Reasoning) : Reasoning :=
  Reason (truncateText (r_content r) MAX_LOADED_MESSAGE_CHARS) (r_duration r)
    (r_startedAt r) (r_completedAt r) (r_durationMs r).

(** The texts of a stored message cut to the limits. *)
Definition cutMessage (m : Message) : Message * bool :=
  let vs := map normalizeVersion (versions m) in
  let r := option_map truncateReasoning (reasoning m) in
  let reasoningChanged :=
    match reasoning m with
    | Some r0 => negb (r_content (truncateReasoning r0) =?s r_content r0)
    | None => false
    end in
  if existsb snd vs || reasoningChanged
  then (with_reasoning r (with_versions (map fst vs) m), true) else (m, false).

(** The message and whether it is a new object; [now1] and [now2] are the
    readings of [finalizeMessage], [now3] the one of [Date.now] in the
    function. *)
Definition normalizeStoredMessageForLoad (m : Message) (now1 now2 now3 : Z)
    : Message * bool :=
  let '(normalized, changed) := cutMessage m in
  if negb (isAssistantMessagePending normalized) then (normalized, changed)
  else
    let hasContent := hasMessageContent normalized in
    let hasReasoning :=
      truthy_str (nullish (option_map (fun r => trim (r_content r)) (reasoning normalized)) []) in
    if negb hasContent && negb hasReasoning then (normalized, changed)
    else
      let completed :=
        nullish (onullish (completedAt normalized)
          (onullish (ofield r_completedAt (reasoning normalized))
             (onullish (startedAt normalized) (createdAt normalized)))) now3 in
      (completeAssistantTiming
         (with_reasoningStreaming false
            (with_status COMPLETE (finalizeMessage normalized None now1 now2))) completed,
       true).

(** The loop from the end; [result] is in the order of the array, where the
    code pushes and reverses. *)
Fixpoint size_loop (rev_messages : list Message) (totalSize : Z) (result : list Message)
    : list Message :=
  match rev_messages with
  | [] => result
  | m :: rest =>
      let messageSize := getMessageSize m in
      if (0 <? Z.of_nat (length result)) &&
         (MAX_LOADED_MESSAGES_CHARS <? totalSize + messageSize)
      then result
      else size_loop rest (totalSize + messageSize) (m :: result)
  end.

(** The array, which is always a new one. *)
Definition trimMessagesByContentSize (messages : list Message) : list Message * bool :=
  (size_loop (rev messages) 0 [], true).

(** ** Reading and writing *)

(** [localStorage.getItem(key)]: [None] for [null]. *)
Definition getItem (s : Store) (key : str) : option str := s !! key.

Definition parse_item (text : str) : res (option json) :=
  match json_parse text with Some v => Ok (Some v) | None => Throw end.

Definition readStoredValue (s : Store) (key : str) : res (option json) :=
  match getItem s key with
  | None | Some [] => Ok None
  | Some saved => parse_item saved
  end.

Definition readStoredMessagesValue (s : Store) : res (option json) * Store :=
  match getItem s MESSAGES_KEY with
  | None | Some [] => (Ok None, s)
  | Some saved =>
      if MAX_STORED_MESSAGES_BYTES <? strlen saved then (Ok None, delete MESSAGES_KEY s)
      else (parse_item saved, s)
  end.

Definition unwrapStoredValue (value : json) : json :=
  match value with
  | JObj o =>
      match obj_get "version" o, obj_get "data" o with
      | Some _, Some d => d
      | _, _ => value
      end
  | _ => value
  end.

Section storage.
Context (accepts : Store -> str -> str -> bool) (t : str -> str).

(** [localStorage.setItem] throws when the browser rejects the write. *)
Definition writeStoredValue (s : Store) (key : str) (data : json) : res Store :=
  let payload := JObj [(js "version", int_json STORAGE_VERSION); (js "data", data)] in
  if accepts s key (stringify payload) then Ok (<[key := stringify payload]> s) else Throw.

Definition loadConfig (s : Store) : PartialConfig :=
  match readStoredValue s CONFIG_KEY with
  | Ok (Some saved) =>
      if truthy_json saved
      then nullish (playgroundConfigSchema (unwrapStoredValue saved)) no_config else no_config
  | _ => no_config
  end.

Definition saveConfig (s : Store) (config : PartialConfig) : Store :=
  match playgroundConfigSchema (config_json config) with
  | Some parsed => res_catch (writeStoredValue s CONFIG_KEY (config_json parsed)) s
  | None => s
  end.

Definition loadParameterEnabled (s : Store) : PartialEnabled :=
  match readStoredValue s PARAMETER_ENABLED_KEY with
  | Ok (Some saved) =>
      if truthy_json saved
      then nullish (parameterEnabledSchema (unwrapStoredValue saved)) no_enabled else no_enabled
  | _ => no_enabled
  end.

Definition saveParameterEnabled (s : Store) (e : PartialEnabled) : Store :=
  match parameterEnabledSchema (enabled_json e) with
  | Some parsed => res_catch (writeStoredValue s PARAMETER_ENABLED_KEY (enabled_json parsed)) s
  | None => s
  end.

Definition saveMessages (s : Store) (messages : list Message) : Store :=
  let trimmed := fst (trimMessages messages) in
  match messagesSchema (messages_json trimmed) with
  | Some parsed => res_catch (writeStoredValue s MESSAGES_KEY (messages_json parsed)) s
  | None => s
  end.

(** [clock i] are the readings for message [i], [now] the ones of
    [sanitizeMessagesOnLoad]. *)
Definition loadMessages (s : Store) (clock : nat -> Z * Z * Z) (now : Z * Z * Z)
    : option (list Message) * Store :=
  match readStoredMessagesValue s with
  | (Ok (Some saved), s) =>
      if negb (truthy_json saved) then (None, s)
      else
        match messagesSchema (unwrapStoredValue saved) with
        | None => (None, s)
        | Some parsed =>
            let results :=
              imap (fun i m => let '(a, b, c) := clock i in
                               normalizeStoredMessageForLoad m a b c) parsed in
            let normalized := map fst results in
            let normalizedChanged := existsb snd results in
            let '(trimmed, trimmedNew) := trimMessages normalized in
            let '(sizeTrimmed, sizeNew) := trimMessagesByContentSize trimmed in
            let '(a, b, c) := now in
            let '(sanitized, sanitizedNew) := sanitizeMessagesOnLoad t sizeTrimmed a b c in
            (Some sanitized,
             if normalizedChanged || trimmedNew || sizeNew || sanitizedNew
             then saveMessages s sanitized else s)
        end
  | (_, s) => (None, s)
  end.

Definition clearPlaygroundData (s : Store) : Store :=
  delete MESSAGES_KEY (delete PARAMETER_ENABLED_KEY (delete CONFIG_KEY s)).

Definition getInitialPlaygroundConfig (s : Store) : PlaygroundConfig :=
  spread_config DEFAULT_CONFIG (loadConfig s).

Definition getInitialParameterEnabled (s : Store) : ParameterEnabled :=
  spread_enabled DEFAULT_PARAMETER_ENABLED (loadParameterEnabled s).

Definition getInitialMessages (s : Store) (clock : nat -> Z * Z * Z) (now : Z * Z * Z)
    : list Message :=
  nullish (fst (loadMessages s clock now)) [].
End storage.

(** An update of the message list: a new list, or a function of the old one. *)
Inductive MessageStateUpdater : Type :=
  | SetMessages (ms : list Message)
  | UpdateMessages (f : list Message -> list Message).

Definition applyMessageStateUpdate (previousMessages : list Message)
    (updater : MessageStateUpdater) : list Message :=
  match updater with UpdateMessages f => f previousMessages | SetMessages ms => ms end.
