(* ===== verification/StorageLaws.v ===== *)
(** * Laws of playground storage

    Proofs about [PlaygroundStorage]: what is saved reads back, what is loaded
    is bounded in number and size, and the trim by size keeps the longest end
    of the conversation that fits. *)

From stdpp Require Import base list gmap.
From Stdlib Require Import ZArith NArith Lia.
From S2P Require Import Prelude JsString JsArray JsNumber JsJson JsonRoundTrip Messages.
From S2P Require Import MessageLaws PlaygroundRequest PlaygroundStorage.

Local Open Scope Z_scope.

(** ** The stored JSON reads back *)

Lemma field_ok {A} (k : str) (enc : A -> json) (v : option A) :
  (forall x, v = Some x -> json_ok (enc x)) ->
  Forall (fun kv => json_ok (snd kv)) (field k enc v).
Proof. intros H. destruct v; simpl; constructor; eauto. Qed.

Lemma field_keys {A} (k : str) (enc : A -> json) (v : option A) (o : list (str * json))
    (ks : list str) :
  obj_keys o `sublist_of` ks -> obj_keys (field k enc v ++ o) `sublist_of` k :: ks.
Proof. intros H. destruct v; simpl; by constructor. Qed.

Lemma cons_keys (k : str) (v : json) (o : list (str * json)) (ks : list str) :
  obj_keys o `sublist_of` ks -> obj_keys ((k, v) :: o) `sublist_of` k :: ks.
Proof. intros H. simpl. by constructor. Qed.

Lemma last_field_keys {A} (k : str) (enc : A -> json) (v : option A) :
  obj_keys (field k enc v) `sublist_of` [k].
Proof. destruct v; simpl; repeat constructor. Qed.

(** Solve the side conditions of an object written field by field. *)
Ltac object_keys :=
  eapply plain_object;
  [ cbn [app];
    repeat lazymatch goal with
    | |- obj_keys (field _ _ _ ++ _) `sublist_of` _ => apply field_keys
    | |- obj_keys (field _ _ _) `sublist_of` _ => apply last_field_keys
    | |- obj_keys (_ :: _) `sublist_of` _ => apply cons_keys
    | |- obj_keys [] `sublist_of` _ => apply (sublist_nil_l [])
    end
  | vm_compute; reflexivity
  | cbn [app];
    repeat lazymatch goal with
    | |- Forall _ (_ ++ _) => apply Forall_app_2
    | |- Forall _ (field _ _ _) => apply field_ok
    | |- Forall _ (_ :: _) => apply Forall_cons_2
    | |- Forall _ [] => apply Forall_nil_2
    end ];
  cbn [snd].

(** An integer that is read back from its text. *)
Definition z_ok (x : Z) : Prop := num_ok (num_of_Z x) /\ trunc_Z (num_of_Z x) = x.

Definition int_ok (n : option Z) : Prop := forall x, n = Some x -> z_ok x.

Lemma int_json_ok (n : option Z) (x : Z) : int_ok n -> n = Some x -> json_ok (int_json x).
Proof. intros H Hx. constructor. by apply H. Qed.

(** The numbers of a message read back. *)
Definition message_ints_ok (m : Message) : Prop :=
  int_ok (createdAt m) /\ int_ok (startedAt m) /\ int_ok (completedAt m) /\
  int_ok (durationMs m) /\
  forall r, reasoning m = Some r ->
    z_ok (r_duration r) /\ int_ok (r_startedAt r) /\
    int_ok (r_completedAt r) /\ int_ok (r_durationMs r).

Lemma reasoning_json_ok (r : Reasoning) :
  z_ok (r_duration r) -> int_ok (r_startedAt r) ->
  int_ok (r_completedAt r) -> int_ok (r_durationMs r) -> json_ok (reasoning_json r).
Proof.
  intros [H1 _] H2 H3 H4. unfold reasoning_json. object_keys.
  - constructor.
  - by constructor.
  - intros x. by apply int_json_ok.
  - intros x. by apply int_json_ok.
  - intros x. by apply int_json_ok.
Qed.

Lemma pair_object_ok (a b : str) (x y : str) :
  plain_keys [a; b] = true -> json_ok (JObj [(a, JStr x); (b, JStr y)]).
Proof.
  intros Hk. apply (plain_object _ [a; b]); [done|done|repeat constructor].
Qed.

Lemma message_json_ok (m : Message) : message_ints_ok m -> json_ok (message_json m).
Proof.
  intros (H1 & H2 & H3 & H4 & Hr). unfold message_json. object_keys.
  1,2: by constructor.
  2-5: intros x; by apply int_json_ok.
  - constructor. apply Forall_map, Forall_true. intros v. by apply pair_object_ok.
  - intros l _. constructor. apply Forall_map, Forall_true. intros v. by apply pair_object_ok.
  - intros r Hx. destruct (Hr r Hx) as (? & ? & ? & ?). by apply reasoning_json_ok.
  - constructor.
  - constructor.
  - constructor.
  - intros x _. constructor.
  - intros x _. constructor.
Qed.

(** ** What is written passes its schema *)

Lemma num_ok_finite (x : num) : num_ok x -> isFinite x = true.
Proof. unfold num_ok, stringify_num. by destruct (isFinite x). Qed.

Lemma number_read (x : num) : num_ok x -> z_number (JNum x) = Some x.
Proof. intros H%num_ok_finite. cbn [z_number]. by rewrite H. Qed.

Lemma millis_read (x : Z) : z_ok x -> z_millis (int_json x) = Some x.
Proof. intros [Hx Ht]. unfold z_millis, int_json. rewrite number_read by done. cbn. by rewrite Ht. Qed.

Lemma get_field {A} (k k' : str) (enc : A -> json) (v : option A) (o : list (str * json)) :
  obj_get k (field k' enc v ++ o) =
  if k =?s k' then match v with Some x => Some (enc x) | None => obj_get k o end else obj_get k o.
Proof. destruct v; cbn; by destruct (k =?s k'). Qed.

Lemma get_last_field {A} (k k' : str) (enc : A -> json) (v : option A) :
  obj_get k (field k' enc v) = if k =?s k' then enc <$> v else None.
Proof. destruct v; cbn; by destruct (k =?s k'). Qed.

Lemma required_read {A} (k : str) (p : json -> option A) (enc : A -> json) (x : A) (o : list (str * json)) :
  obj_get k o = Some (enc x) -> p (enc x) = Some x -> required k p o = Some x.
Proof. intros Hg Hp. unfold required. by rewrite Hg. Qed.

Lemma optional_read {A} (k : str) (p : json -> option A) (enc : A -> json) (v : option A) (o : list (str * json)) :
  obj_get k o = enc <$> v -> (forall x, v = Some x -> p (enc x) = Some x) -> optional k p o = Some v.
Proof. intros Hg Hp. unfold optional. rewrite Hg. destruct v as [x|]; [|done]. cbn. by rewrite (Hp x). Qed.

Lemma array_read {A} (p : json -> option A) (enc : A -> json) (l : list A) :
  (forall x, x ∈ l -> p (enc x) = Some x) -> z_array p (JArr (map enc l)) = Some l.
Proof.
  intros Hp. cbn [z_array]. induction l as [|x l IH]; [done|]. cbn [map mapM].
  rewrite (Hp x) by by left. cbn. rewrite IH; [done|]. intros y Hy. apply Hp. by right.
Qed.

Lemma enum_read {A} (values : list A) (text : A -> str) (x : A) :
  x ∈ values -> (forall a b, text a = text b -> a = b) -> z_enum values text (JStr (text x)) = Some x.
Proof.
  intros Hx Hi. cbn [z_enum]. induction values as [|y l IH]; [by apply elem_of_nil in Hx|]. cbn [find].
  destruct (str_eqb_spec (text y) (text x)) as [E|E]; [by apply Hi in E as ->|].
  apply IH. apply elem_of_cons in Hx as [->|]; [by destruct E|done].
Qed.

(** Look a field up in an object written field by field. *)
Ltac look_up :=
  repeat (progress (cbn [app obj_get]; rewrite ?get_field, ?get_last_field; literals; cbv iota));
  try match goal with |- match ?v with Some _ => _ | None => _ end = _ => destruct v end; reflexivity.

Lemma version_read (v : MessageVersion) :
  messageVersionSchema (JObj [(js "id", JStr (v_id v)); (js "content", JStr (v_content v))]) = Some v.
Proof. by destruct v. Qed.

Lemma source_read (x : str * str) : sourceSchema (JObj [(js "href", JStr (fst x)); (js "title", JStr (snd x))]) = Some x.
Proof. by destruct x. Qed.

Lemma reasoning_read (r : Reasoning) :
  z_ok (r_duration r) -> int_ok (r_startedAt r) -> int_ok (r_completedAt r) -> int_ok (r_durationMs r) ->
  reasoningSchema (reasoning_json r) = Some r.
Proof.
  intros H1 H2 H3 H4. unfold reasoningSchema, reasoning_json. cbn [z_object mbind option_bind]. set (o := _ ++ _).
  assert (Hi : forall k v, int_ok v -> obj_get k o = int_json <$> v -> optional k z_millis o = Some v).
  { intros k v Hv Hg. apply (optional_read k z_millis int_json); [done|]. intros x Hx. by apply millis_read, Hv. }
  rewrite (required_read "content" z_string JStr (r_content r)), (required_read "duration" z_millis int_json (r_duration r))
    by (first [by apply millis_read|unfold o; look_up]). cbn [mbind option_bind].
  rewrite (Hi "startedAt" (r_startedAt r)), (Hi "completedAt" (r_completedAt r)), (Hi "durationMs" (r_durationMs r))
    by (first [done|unfold o; look_up]). cbn [mbind option_bind]. by destruct r.
Qed.

Lemma nullable_read {A} (k : str) (p : json -> option A) (enc : A -> json) (v : option A) (o : list (str * json)) :
  obj_get k o = enc <$> v -> (forall x, v = Some x -> enc x <> JNull /\ p (enc x) = Some x) ->
  optional k (z_nullable p) o = Some (Some <$> v).
Proof.
  intros Hg Hp. unfold optional. rewrite Hg. destruct v as [x|]; [|done]. destruct (Hp x eq_refl) as [Hn Hx]. cbn.
  unfold z_nullable. destruct (enc x) eqn:E; [done|..]; by rewrite Hx.
Qed.

Lemma message_read (m : Message) :
  message_ints_ok m -> versions m <> [] -> messageSchema (message_json m) = Some m.
Proof.
  intros (H1 & H2 & H3 & H4 & Hr) Hv. unfold messageSchema, message_json. cbn [z_object mbind option_bind]. set (o := _ ++ _).
  assert (Hi : forall k v, int_ok v -> obj_get k o = int_json <$> v -> optional k z_millis o = Some v).
  { intros k v Hk Hg. apply (optional_read k z_millis int_json); [done|]. intros x Hx. by apply millis_read, Hk. }
  assert (Hb : forall k b, obj_get k o = Some (JBool b) -> optional k z_boolean o = Some (Some b)).
  { intros k b Hg. by apply (optional_read k z_boolean JBool (Some b)). }
  rewrite (required_read "key" z_string JStr (m_key m)) by (first [reflexivity|unfold o; look_up]). cbn [mbind option_bind].
  rewrite (required_read "from" messageRoleSchema (fun r => JStr (role_text r)) (from m)).
  2: { unfold o. look_up. }
  2: { apply enum_read; [apply list_elem_of_In; destruct (from m); cbn; tauto|by intros [] []]. }
  cbn [mbind option_bind].
  rewrite (required_read "versions" (z_array messageVersionSchema) (fun l => JArr (map (fun v => JObj [(js "id", JStr (v_id v));
    (js "content", JStr (v_content v))]) l)) (versions m)).
  2: { unfold o. look_up. }
  2: { apply array_read. intros v _. apply version_read. }
  cbn [mbind option_bind]. unfold z_min at 1. assert ((1 <=? length (versions m))%nat = true) as -> by by destruct (versions m).
  rewrite (Hi "createdAt" (createdAt m)), (Hi "startedAt" (startedAt m)), (Hi "completedAt" (completedAt m)),
    (Hi "durationMs" (durationMs m)) by (first [done|unfold o; look_up]). cbn [mbind option_bind].
  rewrite (optional_read "sources" (z_array sourceSchema) (fun l => JArr (map (fun x => JObj [(js "href", JStr (fst x));
    (js "title", JStr (snd x))]) l)) (sources m)).
  2: { unfold o. look_up. }
  2: { intros l _. apply array_read. intros x _. apply source_read. }
  cbn [mbind option_bind].
  rewrite (optional_read "reasoning" reasoningSchema reasoning_json (reasoning m)).
  2: { unfold o. look_up. }
  2: { intros r Hx. destruct (Hr r Hx) as (? & ? & ? & ?). by apply reasoning_read. }
  cbn [mbind option_bind].
  rewrite (Hb "isReasoningStreaming" (isReasoningStreaming m)), (Hb "isReasoningComplete" (isReasoningComplete m)),
    (Hb "isContentComplete" (isContentComplete m)) by (unfold o; look_up). cbn [mbind option_bind].
  rewrite (optional_read "status" messageStatusSchema (fun x => JStr (status_text x)) (status m)).
  2: { unfold o. look_up. }
  2: { intros x _. apply enum_read; [apply list_elem_of_In; destruct x; cbn; tauto|by intros [] []]. }
  cbn [mbind option_bind].
  rewrite (nullable_read "errorCode" z_string JStr (errorCode m)) by (first [done|unfold o; look_up]).
  cbn [mbind option_bind nullish]. destruct m as [? ? ? ? ? ? ? ? ? ? ? ? ? []]; done.
Qed.

Lemma messages_read (ms : list Message) :
  Forall message_ints_ok ms -> Forall (fun m => versions m <> []) ms -> messagesSchema (messages_json ms) = Some ms.
Proof.
  intros Hi Hv. apply array_read. intros m Hm. rewrite Forall_forall in Hi, Hv. apply message_read; auto.
Qed.

(** ** Bounds of what is loaded *)

Lemma slice_prefix_of {A} (l : list A) (n : Z) :
  0 <= n -> slice l 0 n = take (Z.to_nat n) l.
Proof. intros Hn. rewrite <- (Z2Nat.id n) at 1 by done. apply slice_0. Qed.

Lemma truncateText_length (text : str) (n : Z) :
  0 <= n -> strlen (truncateText text n) <= n.
Proof.
  intros Hn. unfold truncateText. destruct (Z.leb_spec (strlen text) n); [done|].
  destruct (Z.leb_spec n (strlen TRUNCATED_CONTENT_SUFFIX)).
  - rewrite slice_prefix_of by done. unfold strlen. rewrite length_take. lia.
  - rewrite slice_prefix_of, strlen_app by lia. unfold strlen at 1.
    rewrite length_take. lia.
Qed.

Lemma truncateText_short (text : str) (n : Z) : strlen text <= n -> truncateText text n = text.
Proof. intros H. unfold truncateText. by destruct (Z.leb_spec (strlen text) n); [|lia]. Qed.

Lemma collapse_suffix (text : str) :
  exists k, collapseRepeatedSectionSnapshots text = drop k text.
Proof.
  unfold collapseRepeatedSectionSnapshots, slice_from.
  repeat js_case; eauto; by exists O.
Qed.

Lemma collapse_short (text : str) :
  strlen text < MIN_PREFIX_COLLAPSE_LENGTH -> collapseRepeatedSectionSnapshots text = text.
Proof. intros H. unfold collapseRepeatedSectionSnapshots. by rewrite (proj2 (Z.ltb_lt _ _) H). Qed.

Definition text_fits (s : str) : Prop := strlen s <= MAX_LOADED_MESSAGE_CHARS.

(** The reasoning text of a message. *)
Definition rtext (m : Message) : str :=
  match reasoning m with Some r => r_content r | None => [] end.

Definition message_fits (m : Message) : Prop :=
  Forall (fun v => text_fits (v_content v)) (versions m) /\ text_fits (rtext m).

Lemma normalizeVersion_fits (v : MessageVersion) :
  text_fits (v_content (fst (normalizeVersion v))).
Proof.
  unfold normalizeVersion. js_case; simpl; [|by apply truncateText_length].
  apply andb_true_iff in E as [E%str_eqb_eq _]. rewrite <- E. by apply truncateText_length.
Qed.

Lemma normalizeVersion_same (v : MessageVersion) :
  snd (normalizeVersion v) = false -> fst (normalizeVersion v) = v.
Proof. unfold normalizeVersion. by js_case. Qed.

Lemma cutMessage_fits (m : Message) : message_fits (fst (cutMessage m)).
Proof.
  unfold cutMessage. set (vs := map normalizeVersion (versions m)).
  assert (Hvs : Forall (fun v => text_fits (v_content v)) (map fst vs)).
  { apply Forall_map, Forall_map, Forall_true. intros v. apply normalizeVersion_fits. }
  destruct (existsb snd vs || _) eqn:Hc; simpl.
  - split; [done|]. unfold rtext. simpl. destruct (reasoning m) as [r0|]; [|done].
    by apply truncateText_length.
  - apply orb_false_iff in Hc as [Hv Hr]. split.
    + assert (He : map fst vs = versions m); [|by rewrite <- He].
      subst vs. rewrite map_map. clear -Hv. induction (versions m) as [|v l IH]; [done|].
      simpl in Hv. apply orb_false_iff in Hv as [Hv Hl]. simpl.
      by rewrite normalizeVersion_same, IH.
    + unfold rtext. destruct (reasoning m) as [r0|]; [|done].
      apply negb_false_iff, str_eqb_eq in Hr. rewrite <- Hr.
      by apply truncateText_length.
Qed.

(** *** Finalizing does not lengthen a message *)

Lemma trim_length (s : str) : strlen (trim s) <= strlen s.
Proof.
  assert (Hd : forall l : str, (length (drop_while is_ws l) <= length l)%nat).
  { induction l as [|c l IH]; simpl; [done|]. destruct (is_ws c); simpl; lia. }
  unfold strlen, trim, trimEnd, trimStart. rewrite length_rev.
  pose proof (Hd s). pose proof (Hd (rev (drop_while is_ws s))).
  rewrite length_rev in *. lia.
Qed.

Lemma join_length (sep : str) (l : list str) :
  strlen (str_join sep l) <= strlen (mjoin l) + strlen sep * Z.of_nat (length l).
Proof.
  induction l as [|x [|y l] IH].
  - unfold strlen. simpl. lia.
  - cbn. rewrite app_nil_r. unfold strlen. lia.
  - change (str_join sep (x :: y :: l)) with (x ++ sep ++ str_join sep (y :: l)).
    change (mjoin (x :: y :: l)) with (x ++ mjoin (y :: l)).
    rewrite !strlen_app. cbn [length] in *. lia.
Qed.

Lemma render_length (d : ThinkDoc) :
  strlen (render d) = strlen (lead d ++ mjoin (map snd (closed d))) + strlen (mjoin (reasonings d)) +
    15 * Z.of_nat (length (closed d)) + match unclosed d with Some _ => 7 | None => 0 end.
Proof.
  destruct d as [v bs o]. unfold render, reasonings. cbn [lead closed unclosed].
  rewrite !strlen_app.
  assert (Hb : strlen (flat_map render_block bs) =
    strlen (mjoin (map snd bs)) + strlen (mjoin (map fst bs)) + 15 * Z.of_nat (length bs)).
  { induction bs as [|[r w] bs IH]; [done|]. cbn [flat_map map length].
    change (mjoin (?x :: ?l)) with (x ++ mjoin l).
    unfold render_block at 1. cbn [fst snd].
    rewrite !strlen_app, IH, openTag_length, closeTag_length. lia. }
  assert (Hj : mjoin (map fst bs ++ match o with Some r => [r] | None => [] end) =
    mjoin (map fst bs) ++ match o with Some r => r | None => [] end).
  { rewrite join_app. destruct o; [|done]. simpl. f_equal. apply app_nil_r. }
  rewrite Hj, Hb, strlen_app. destruct o; cbn [render_open];
    rewrite ?strlen_app, ?openTag_length; change (strlen []) with 0; lia.
Qed.

(** The two parts together are not longer than the text. *)
Lemma parse_length (text : str) :
  strlen (visibleContent (parseThinkTags text)) + strlen (pt_reasoning (parseThinkTags text))
  <= strlen text.
Proof.
  destruct (split_exists (S (length text)) text) as (d & Hd & <-); [lia|].
  rewrite (parse_render d Hd), render_length. unfold split_spec.
  destruct (reasonings d) as [|r rs] eqn:Hr; cbn [visibleContent pt_reasoning].
  - unfold strlen. rewrite length_app. simpl. destruct (unclosed d); lia.
  - pose proof (trim_length (lead d ++ mjoin (map snd (closed d)))) as H1.
    pose proof (trim_length (str_join [10; 10]%N (r :: rs))) as H2.
    pose proof (join_length [10; 10]%N (r :: rs)) as H3.
    assert (Hn : Z.of_nat (length (r :: rs)) =
      Z.of_nat (length (closed d)) + match unclosed d with Some _ => 1 | None => 0 end).
    { rewrite <- Hr. unfold reasonings. rewrite length_app, length_map.
      destruct (unclosed d); simpl length; lia. }
    change (strlen [10; 10]%N) with 2 in H3. destruct (unclosed d); lia.
Qed.

Lemma getMessageContent_fits (m : Message) : message_fits m -> text_fits (getMessageContent m).
Proof.
  intros [Hv _]. unfold getMessageContent, getCurrentVersion.
  destruct (versions m); [done|]. by inversion Hv.
Qed.

(** The text and the reasoning that finalizing leaves. *)
Lemma finalize_parts (m : Message) (now1 now2 : Z) :
  let m' := finalizeMessage m None now1 now2 in
  let p := parseThinkTags (getMessageContent m) in
  versions m' = [Version (v_id (getCurrentVersion m)) (visibleContent p)] /\
  rtext m' = str_or (rtext m) (pt_reasoning p).
Proof.
  unfold finalizeMessage. set (p := if includes _ _ then _ else _).
  set (f := with_reasoningStreaming _ _).
  destruct (completeReasoningTiming_frame f now2) as (Hv & _ & _ & _ & Hr).
  assert (Hp : p = Some (parseThinkTags (getMessageContent m)) \/
    p = None /\ parseThinkTags (getMessageContent m) = Think (getMessageContent m) [] false).
  { subst p. destruct (includes _ _) eqn:Hi; [by left|right].
    split; [done|by apply parse_untagged]. }
  rewrite Hv. split; [by destruct Hp as [-> |[-> ->]]|].
  assert (Hx : rtext (completeReasoningTiming f now2) = rtext f).
  { unfold rtext. destruct (reasoning (completeReasoningTiming f now2)), (reasoning f);
      simpl in Hr; congruence. }
  rewrite Hx. clear Hv Hr Hx. subst f. unfold rtext at 1. simpl.
  unfold ostr_or. assert (Hm : forall d, match option_map r_content (reasoning m) with
    | Some s => str_or s d | None => d end = str_or (rtext m) d)
    by (intros d; unfold rtext; by destruct (reasoning m)).
  rewrite Hm. assert (Ho : match option_map pt_reasoning p with
    | Some s => str_or s [] | None => [] end =
    pt_reasoning (parseThinkTags (getMessageContent m))).
  { destruct Hp as [-> |[-> ->]]; [simpl|done]. by destruct (pt_reasoning _). }
  rewrite Ho. by destruct (str_or (rtext m) _).
Qed.

Lemma finalize_fits (m : Message) (now1 now2 : Z) :
  message_fits m -> message_fits (finalizeMessage m None now1 now2).
Proof.
  intros Hm. pose proof (getMessageContent_fits m Hm) as Hc. destruct Hm as [_ Hr].
  destruct (finalize_parts m now1 now2) as [Hv Hx].
  pose proof (parse_length (getMessageContent m)) as Hp. unfold message_fits, text_fits in *.
  rewrite Hv, Hx. split.
  - constructor; [|done]. simpl. unfold strlen in *. lia.
  - unfold str_or. destruct (truthy_str (rtext m)); [done|]. unfold strlen in *. lia.
Qed.

Definition versions_size (vs : list MessageVersion) : Z :=
  foldr (fun v n => strlen (v_content v) + n) 0 vs.

Lemma getMessageSize_eq (m : Message) :
  getMessageSize m = versions_size (versions m) + strlen (rtext m).
Proof.
  unfold getMessageSize, rtext. f_equal; [|by destruct (reasoning m)].
  assert (Hf : forall vs n, fold_left (fun total v => total + strlen (v_content v)) vs n =
    n + versions_size vs); [|by rewrite Hf].
  induction vs as [|v vs IH]; intros n; simpl; [lia|]. rewrite IH. lia.
Qed.

Lemma versions_size_nonneg (vs : list MessageVersion) : 0 <= versions_size vs.
Proof. induction vs; simpl; unfold strlen; lia. Qed.

Lemma getMessageSize_nonneg (m : Message) : 0 <= getMessageSize m.
Proof. rewrite getMessageSize_eq. pose proof (versions_size_nonneg (versions m)). unfold strlen. lia. Qed.

Lemma finalize_size (m : Message) (now1 now2 : Z) :
  getMessageSize (finalizeMessage m None now1 now2) <= getMessageSize m.
Proof.
  rewrite !getMessageSize_eq. destruct (finalize_parts m now1 now2) as [-> ->].
  pose proof (parse_length (getMessageContent m)) as Hp.
  assert (Hc : strlen (getMessageContent m) <= versions_size (versions m)).
  { unfold getMessageContent, getCurrentVersion. destruct (versions m) as [|v vs]; [done|].
    pose proof (versions_size_nonneg vs). simpl. lia. }
  simpl. unfold str_or. destruct (truthy_str (rtext m)); unfold strlen in *; lia.
Qed.

(** *** The stages of loading *)

Lemma completeAssistantTiming_fits (m : Message) (now : Z) :
  message_fits m -> message_fits (completeAssistantTiming m now).
Proof.
  unfold message_fits, rtext.
  by destruct (completeAssistantTiming_frame m now) as (-> & _ & _ & _ & -> & _).
Qed.

(** A pending message with something to show would have been completed. *)
Definition settled (m : Message) : Prop :=
  isAssistantMessagePending m = true ->
  hasMessageContent m = false /\ trim (rtext m) = [].

Lemma normalize_fits (m : Message) (now1 now2 now3 : Z) :
  message_fits (fst (normalizeStoredMessageForLoad m now1 now2 now3)).
Proof.
  unfold normalizeStoredMessageForLoad. pose proof (cutMessage_fits m) as Hc.
  destruct (cutMessage m) as [n changed]. simpl in Hc.
  do 2 (js_case; [done|]). apply completeAssistantTiming_fits.
  by apply (finalize_fits n now1 now2) in Hc.
Qed.

Lemma complete_not_pending (m : Message) (now : Z) :
  isAssistantMessagePending
    (completeAssistantTiming (with_reasoningStreaming false (with_status COMPLETE m)) now) <> true.
Proof.
  unfold isAssistantMessagePending.
  by rewrite (proj1 (proj2 (proj2 (proj2 (completeAssistantTiming_frame _ _))))).
Qed.

Lemma normalize_settled (m : Message) (now1 now2 now3 : Z) :
  settled (fst (normalizeStoredMessageForLoad m now1 now2 now3)).
Proof.
  unfold normalizeStoredMessageForLoad, settled. destruct (cutMessage m) as [n changed].
  js_case; [by apply negb_true_iff in E; cbn [fst]; rewrite E|].
  js_case; cbn [fst]; intros Hp.
  - apply andb_true_iff in E0 as [Hc Hr]. apply negb_true_iff in Hc, Hr.
    split; [done|]. unfold rtext. apply truthy_str_false in Hr.
    by destruct (reasoning n).
  - exfalso. by apply complete_not_pending in Hp.
Qed.

Lemma trimMessages_suffix (ms : list Message) :
  (exists k, fst (trimMessages ms) = drop k ms) /\
  Z.of_nat (length (fst (trimMessages ms))) <= MAX_STORED_MESSAGES.
Proof.
  unfold trimMessages. destruct (Z.leb_spec (Z.of_nat (length ms)) MAX_STORED_MESSAGES) as [H|H].
  - split; [by exists O|done].
  - simpl. unfold slice_from. split; [by eexists|]. rewrite length_drop.
    unfold clamp_index, MAX_STORED_MESSAGES in *. simpl. lia.
Qed.

Definition total_size (ms : list Message) : Z :=
  foldr (fun m n => getMessageSize m + n) 0 ms.

Lemma total_size_app (a b : list Message) : total_size (a ++ b) = total_size a + total_size b.
Proof. induction a as [|m a IH]; simpl; [done|]. rewrite IH. lia. Qed.

(** What the loop returns after having kept [acc], the messages [l] being left. *)
Lemma size_loop_spec (l acc : list Message) :
  (total_size acc <= MAX_LOADED_MESSAGES_CHARS \/ length acc = 1%nat) ->
  exists k, let out := size_loop (rev l) (total_size acc) acc in
  out = drop k (l ++ acc) /\ (k <= length l)%nat /\
  (l ++ acc <> [] -> out <> []) /\
  (total_size out <= MAX_LOADED_MESSAGES_CHARS \/ length out = 1%nat) /\
  (forall m, (k <> 0)%nat -> l !! pred k = Some m ->
    MAX_LOADED_MESSAGES_CHARS < getMessageSize m + total_size out).
Proof.
  revert acc. induction l as [|m l IH] using rev_ind; intros acc Ha.
  - exists O. simpl. split_and!; [done|lia|done|done|]. intros; lia.
  - rewrite rev_app_distr. simpl.
    destruct ((0 <? Z.of_nat (length acc)) && _) eqn:Hb.
    + apply andb_true_iff in Hb as [H0%Z.ltb_lt H1%Z.ltb_lt].
      exists (length (l ++ [m])). split_and!; [by rewrite drop_app_length|lia| |done|].
      * intros _. by destruct acc.
      * intros m' _. rewrite length_app, Nat.add_1_r. simpl.
        rewrite list_lookup_middle by done. intros [= <-]. lia.
    + destruct (IH (m :: acc)) as (k & Hk & Hle & Hne & Ht & Hmax).
      { simpl. apply andb_false_iff in Hb as [Hb|Hb].
        - apply Z.ltb_ge in Hb. destruct acc; [by right|simpl in Hb; lia].
        - apply Z.ltb_ge in Hb. left. lia. }
      exists k. cbn [total_size foldr] in Hk, Hne, Ht, Hmax.
      fold (total_size acc) in Hk, Hne, Ht, Hmax.
      rewrite (Z.add_comm (getMessageSize m)) in Hk, Hne, Ht, Hmax.
      rewrite <- app_assoc. simpl. split_and!; [done|rewrite length_app; lia| |done|].
      * intros _. apply Hne. by destruct l.
      * intros m' Hk0 Hm'. apply Hmax; [done|].
        rewrite lookup_app_l in Hm' by lia. done.
Qed.

Lemma size_trim_cases (ms : list Message) :
  exists k, let out := fst (trimMessagesByContentSize ms) in
  out = drop k ms /\ (ms <> [] -> out <> []) /\
  (total_size out <= MAX_LOADED_MESSAGES_CHARS \/ length out = 1%nat) /\
  (forall m, (k <> 0)%nat -> ms !! pred k = Some m ->
    MAX_LOADED_MESSAGES_CHARS < getMessageSize m + total_size out).
Proof.
  assert (H0 : total_size [] <= MAX_LOADED_MESSAGES_CHARS) by (vm_compute; discriminate).
  destruct (size_loop_spec ms [] (or_introl H0)) as (k & Hk & _ & Hrest).
  exists k. rewrite app_nil_r in Hk, Hrest. split; [exact Hk|exact Hrest].
Qed.

(** Trimming a loaded conversation by size keeps its longest end that
    fits: the result is an end of the conversation, not empty unless the
    conversation is, its texts have at most 120,000 characters or it is one
    message, and the message before it would not have fitted. *)
Theorem size_trim_keeps_longest_suffix (ms : list Message) :
  exists k, let out := fst (trimMessagesByContentSize ms) in
  out = drop k ms /\ (ms <> [] -> out <> []) /\
  (total_size out <= MAX_LOADED_MESSAGES_CHARS \/ length out = 1%nat) /\
  (forall m, (k <> 0)%nat -> ms !! pred k = Some m ->
    MAX_LOADED_MESSAGES_CHARS < getMessageSize m + total_size out).
Proof. apply size_trim_cases. Qed.

Section load_laws.
Context (accepts : Store -> str -> str -> bool) (t : str -> str).

Definition interrupted_text : str := t API_REQUEST_ERROR ++ ": " ++ t INTERRUPTED.

Lemma sanitizeMessage_fits (m : Message) (now1 now2 now3 : Z) :
  text_fits interrupted_text -> message_fits m ->
  message_fits (sanitizeMessage t m now1 now2 now3) /\
  getMessageSize (sanitizeMessage t m now1 now2 now3) <=
  getMessageSize m + strlen interrupted_text.
Proof.
  intros Ht Hm. unfold sanitizeMessage. pose proof (finalize_size m now1 now2) as Hs.
  apply (finalize_fits m now1 now2) in Hm. set (f := finalizeMessage m None now1 now2) in *.
  rewrite (getMessageSize_eq f) in Hs.
  pose proof (versions_size_nonneg (versions f)).
  js_case; (split; [apply completeAssistantTiming_fits|]);
    try (rewrite getMessageSize_eq; unfold rtext;
         rewrite (proj1 (completeAssistantTiming_frame _ _)),
           (proj1 (proj2 (proj2 (proj2 (proj2 (completeAssistantTiming_frame _ _))))));
         cbn -[strlen getMessageSize] in *; fold (rtext f)).
  - exact Hm.
  - fold (versions_size (versions f)). unfold strlen at 2. lia.
  - destruct Hm as [_ Hr]. split; [|exact Hr]. by constructor.
  - fold interrupted_text. lia.
Qed.

(** The messages after each stage but the last. *)
Definition kept (parsed : list Message) (clock : nat -> Z * Z * Z) : list Message :=
  fst (trimMessagesByContentSize (fst (trimMessages (map fst
    (imap (fun i m => let '(a, b, c) := clock i in
                      normalizeStoredMessageForLoad m a b c) parsed))))).

Lemma kept_spec (parsed : list Message) (clock : nat -> Z * Z * Z) :
  Z.of_nat (length (kept parsed clock)) <= MAX_STORED_MESSAGES /\
  Forall message_fits (kept parsed clock) /\ Forall settled (kept parsed clock) /\
  (total_size (kept parsed clock) <= MAX_LOADED_MESSAGES_CHARS \/
   length (kept parsed clock) = 1%nat).
Proof.
  unfold kept. set (ns := map fst _). set (tr := fst (trimMessages ns)).
  assert (Hn : Forall (fun m => message_fits m /\ settled m) ns).
  { apply Forall_map, Forall_lookup. intros i r Hr. rewrite list_lookup_imap in Hr.
    destruct (parsed !! i) as [m|]; [|done]. injection Hr as <-.
    destruct (clock i) as [[a b] c]. split; [apply normalize_fits|apply normalize_settled]. }
  destruct (trimMessages_suffix ns) as [[k Hk] Hlen]. fold tr in Hk, Hlen.
  destruct (size_trim_cases tr) as (j & Hj & _ & Ht & _).
  assert (Hd : Forall (fun m => message_fits m /\ settled m)
    (fst (trimMessagesByContentSize tr))) by (rewrite Hj, Hk; by do 2 apply Forall_drop).
  apply Forall_and in Hd as [Hf Hs]. split_and!; [|done|done|exact Ht].
  rewrite Hj, length_drop. lia.
Qed.

Lemma loadMessages_kept (s s' : Store) (clock : nat -> Z * Z * Z) (a b c : Z)
    (ms : list Message) :
  loadMessages accepts t s clock (a, b, c) = (Some ms, s') ->
  exists parsed,
    ms = fst (sanitizeMessagesOnLoad t (kept parsed clock) a b c) /\
    s' = saveMessages accepts s ms.
Proof.
  unfold loadMessages.
  destruct (readStoredMessagesValue s) as [[[saved|]|] s0] eqn:Hr; [|done..].
  destruct (negb (truthy_json saved)); [done|].
  destruct (messagesSchema (unwrapStoredValue saved)) as [parsed|]; [|done].
  set (results := imap _ parsed).
  destruct (trimMessages (map fst results)) as [tr tn] eqn:Ht.
  unfold trimMessagesByContentSize.
  destruct (sanitizeMessagesOnLoad t (size_loop (rev tr) 0 []) a b c) as [out sn] eqn:Hs.
  rewrite orb_true_r. simpl. intros [= <- <-]. exists parsed.
  unfold kept. fold results. rewrite Ht. unfold trimMessagesByContentSize. simpl fst.
  rewrite Hs. split; [done|]. cbn [fst]. f_equal.
  revert Hr. unfold readStoredMessagesValue.
  destruct (getItem s MESSAGES_KEY) as [[|x l]|]; [by intros [=]| |by intros [=]].
  js_case; by intros [=].
Qed.
End load_laws.

Lemma total_size_insert (l : list Message) (i : nat) (m m' : Message) :
  l !! i = Some m ->
  total_size (<[i := m']> l) = total_size l - getMessageSize m + getMessageSize m'.
Proof.
  revert i. induction l as [|x l IH]; intros [|i] H; simpl in H; [done..| |].
  - injection H as ->. simpl. lia.
  - simpl. fold (total_size (<[i := m']> l)). fold (total_size l). rewrite (IH _ H). lia.
Qed.

Lemma sanitizeMessage_settled (t : str -> str) (m : Message) (now1 now2 now3 : Z) :
  settled (sanitizeMessage t m now1 now2 now3).
Proof.
  destruct (sanitizeMessage_final t m now1 now2 now3) as (_ & _ & [[Hs _]|[Hs _]]);
    unfold settled, isAssistantMessagePending; by rewrite Hs.
Qed.

Lemma sanitize_bounded (t : str -> str) (l : list Message) (a b c : Z) :
  text_fits (interrupted_text t) -> Forall message_fits l -> Forall settled l ->
  let out := fst (sanitizeMessagesOnLoad t l a b c) in
  length out = length l /\ Forall message_fits out /\ Forall settled out /\
  total_size out <= total_size l + strlen (interrupted_text t).
Proof.
  intros Ht Hf Hs. unfold sanitizeMessagesOnLoad.
  assert (H0 : 0 <= strlen (interrupted_text t)) by (unfold strlen; lia).
  destruct (lastPendingIndex _ l) as [i|]; [|cbn [fst]; split_and!; lia || done].
  destruct (l !! i) as [m|] eqn:Hm; cbn [fst]; [|split_and!; lia || done].
  destruct (sanitizeMessage_fits t m a b c Ht) as [Hf' Hsz];
    [by eapply Forall_lookup_1 in Hf|].
  split_and!.
  - apply length_insert.
  - by apply Forall_insert.
  - apply Forall_insert; [done|]. apply sanitizeMessage_settled.
  - rewrite (total_size_insert l i m) by done. lia.
Qed.

(** C37: What is loaded is bounded, whatever is stored, when the translated text of the
    interruption error fits the limit of a text: at most 100 messages; each version of a
    message and its reasoning at most 40,000 characters; all texts together at most
    120,000 characters and the text of the interruption error, or else there is a single
    message, whose versions are not limited in number; and a message that has something
    to show is not left loading or streaming. *)
Theorem loaded_messages_bounded (accepts : Store -> str -> str -> bool) (t : str -> str)
    (s s' : Store) (clock : nat -> Z * Z * Z) (now : Z * Z * Z) (ms : list Message) :
  text_fits (interrupted_text t) ->
  loadMessages accepts t s clock now = (Some ms, s') ->
  Z.of_nat (length ms) <= MAX_STORED_MESSAGES /\
  Forall message_fits ms /\ Forall settled ms /\
  (total_size ms <= MAX_LOADED_MESSAGES_CHARS + strlen (interrupted_text t) \/
   length ms = 1%nat).
Proof.
  intros Ht Hl. destruct now as [[a b] c].
  apply loadMessages_kept in Hl as (parsed & -> & _).
  destruct (kept_spec parsed clock) as (Hlen & Hf & Hs & Htot).
  destruct (sanitize_bounded t (kept parsed clock) a b c Ht Hf Hs) as (Hl & Hf' & Hs' & Hsz).
  split_and!; [by rewrite Hl|done|done|]. rewrite Hl.
  destruct Htot as [Htot|Htot]; [left|by right].
  by apply (Z.le_trans _ _ _ Hsz), Z.add_le_mono_r.
Qed.

(** Loading always writes the loaded messages back: the test that is meant
    to skip the write when nothing changed compares the array that the size
    trim built with the array it was built from, and is always true. *)
Theorem load_always_saves (accepts : Store -> str -> str -> bool) (t : str -> str)
    (s s' : Store) (clock : nat -> Z * Z * Z) (now : Z * Z * Z) (ms : list Message) :
  loadMessages accepts t s clock now = (Some ms, s') ->
  s' = saveMessages accepts s ms.
Proof.
  intros Hl. destruct now as [[a b] c].
  by apply loadMessages_kept in Hl as (parsed & _ & Hs).
Qed.

(** A store that holds a conversation interrupted while an answer was streamed. *)
Definition sample_store : Store :=
  {[ MESSAGES_KEY := stringify (messages_json [createUserMessage "u" "uv" "hi" 1; stuck "s" "par" STREAMING]) ]}.

Definition sample_load : option (list Message) * Store :=
  loadMessages (fun _ _ _ => true) id sample_store (fun _ => (5, 5, 5)) (6, 6, 6).

Lemma sample_loads : exists m1 m2 s', sample_load = (Some [m1; m2], s').
Proof. vm_compute. by do 3 eexists. Qed.

Lemma loaded_messages_bounded_witness :
  exists m1 m2 s', sample_load = (Some [m1; m2], s') /\ Forall settled [m1; m2] /\ Forall message_fits [m1; m2].
Proof.
  destruct sample_loads as (m1 & m2 & s' & Hl). exists m1, m2, s'. split; [exact Hl|].
  destruct (loaded_messages_bounded (fun _ _ _ => true) id sample_store s' (fun _ => (5, 5, 5)) (6, 6, 6) [m1; m2])
    as (_ & Hf & Hs & _); [vm_compute; discriminate|exact Hl|]. by split.
Defined.

Lemma load_always_saves_witness :
  exists ms, sample_load = (Some ms, saveMessages (fun _ _ _ => true) sample_store ms).
Proof.
  destruct sample_loads as (m1 & m2 & s' & Hl). exists [m1; m2]. rewrite Hl. f_equal.
  exact (load_always_saves _ _ _ _ _ _ _ Hl).
Defined.

(** ** Round trips *)

Lemma num_ok_one : num_ok (num_of_Z 1).
Proof. vm_compute. reflexivity. Qed.

(** What is stored under a key: the version and the data. *)
Definition envelope (data : json) : json :=
  JObj [(js "version", int_json STORAGE_VERSION); (js "data", data)].

Lemma envelope_ok (data : json) : json_ok data -> json_ok (envelope data).
Proof.
  intros Hd. apply (plain_object _ [js "version"; js "data"]).
  - apply cons_keys, cons_keys, sublist_nil_l.
  - vm_compute. reflexivity.
  - constructor; [constructor; exact num_ok_one|]. by constructor.
Qed.

Lemma stringify_obj_cons (o : list (str * json)) :
  exists c s, stringify (JObj o) = c :: s.
Proof. rewrite stringify_obj. by eexists _, _. Qed.

Lemma read_envelope (s : Store) (key : str) (data : json) :
  json_ok data -> s !! key = Some (stringify (envelope data)) ->
  readStoredValue s key = Ok (Some (envelope data)).
Proof.
  intros Hd Hs. unfold readStoredValue, getItem. rewrite Hs.
  assert (Hp : parse_item (stringify (envelope data)) = Ok (Some (envelope data)))
    by (unfold parse_item; by rewrite (json_roundtrip _ (envelope_ok _ Hd))).
  unfold envelope in *. by destruct (stringify_obj_cons
    [(js "version", int_json STORAGE_VERSION); (js "data", data)]) as (x & l & Hx);
    rewrite Hx in *.
Qed.

(** The numbers of a configuration read back. *)
Definition config_nums_ok (c : PlaygroundConfig) : Prop :=
  num_ok (temperature c) /\ num_ok (top_p c) /\ num_ok (max_tokens c) /\
  num_ok (frequency_penalty c) /\ num_ok (presence_penalty c) /\
  (forall x, seed c = Some x -> num_ok x).

Lemma config_json_ok (c : PlaygroundConfig) :
  config_nums_ok c -> json_ok (config_json (partial c)).
Proof.
  intros (H1 & H2 & H3 & H4 & H5 & H6). unfold config_json. object_keys.
  1,2,9: intros x _; constructor.
  1-5: intros x [= <-]; by constructor.
  intros x [= <-]. destruct (seed c); constructor. by apply H6.
Qed.

Lemma config_read (c : PlaygroundConfig) :
  config_nums_ok c -> playgroundConfigSchema (config_json (partial c)) = Some (partial c).
Proof.
  intros (H1 & H2 & H3 & H4 & H5 & H6). unfold playgroundConfigSchema, config_json, partial.
  cbn [p_model p_group p_temperature p_top_p p_max_tokens p_frequency_penalty p_presence_penalty p_seed p_stream
       field app z_object mbind option_bind]. set (o := (js "model", _) :: _).
  assert (Hn : forall k x, num_ok x -> obj_get k o = Some (JNum x) -> optional k z_number o = Some (Some x)).
  { intros k x Hx Hg. apply (optional_read k z_number JNum (Some x)); [done|]. intros y [= <-]. by apply number_read. }
  assert (Hs : forall k x, obj_get k o = Some (JStr x) -> optional k z_string o = Some (Some x)).
  { intros k x Hg. by apply (optional_read k z_string JStr (Some x)). }
  rewrite (Hs "model" (model c)), (Hs "group" (group c)), (Hn "temperature" (temperature c)), (Hn "top_p" (top_p c)),
    (Hn "max_tokens" (max_tokens c)), (Hn "frequency_penalty" (frequency_penalty c)),
    (Hn "presence_penalty" (presence_penalty c)) by (first [done|unfold o; look_up]). cbn [mbind option_bind].
  rewrite (optional_read "seed" (z_nullable z_number) (fun v => match v with Some x => JNum x | None => JNull end) (Some (seed c))).
  2: { unfold o. look_up. }
  2: { intros v [= <-]. destruct (seed c) as [x|]; [|done]. cbn [z_nullable]. by rewrite number_read by by apply H6. }
  cbn [mbind option_bind]. by rewrite (optional_read "stream" z_boolean JBool (Some (stream c))) by (first [done|unfold o; look_up]).
Qed.

Lemma partial_spread (d c : PlaygroundConfig) : spread_config d (partial c) = c.
Proof. by destruct c. Qed.

(** A configuration that was saved is the initial configuration of the next
    visit, and saving it leaves the other stored values alone: when the browser
    accepts the write and its numbers read back from their text. *)
Theorem config_roundtrip (accepts : Store -> str -> str -> bool) (s : Store) (c : PlaygroundConfig) :
  (forall text, accepts s CONFIG_KEY text = true) ->
  config_nums_ok c ->
  let s' := saveConfig accepts s (partial c) in
  getInitialPlaygroundConfig s' = c /\
  forall k, k <> CONFIG_KEY -> s' !! k = s !! k.
Proof.
  intros Ha Hn s'. pose proof (config_read c Hn) as Hp. subst s'. unfold saveConfig, writeStoredValue.
  rewrite Hp, Ha. cbn [res_catch]. fold (envelope (config_json (partial c))).
  split; [|intros k Hk; by apply lookup_insert_ne].
  unfold getInitialPlaygroundConfig, loadConfig.
  rewrite (read_envelope _ _ (config_json (partial c)));
    [|by apply config_json_ok|by apply lookup_insert_eq].
  change (unwrapStoredValue (envelope (config_json (partial c)))) with (config_json (partial c)).
  change (truthy_json (envelope (config_json (partial c)))) with true. cbv iota.
  rewrite Hp. apply partial_spread.
Qed.

Lemma default_nums_ok : config_nums_ok DEFAULT_CONFIG.
Proof.
  split_and!; cbn [temperature top_p max_tokens frequency_penalty presence_penalty seed
    DEFAULT_CONFIG]; [vm_compute; reflexivity..|]. discriminate.
Qed.

Lemma config_roundtrip_witness :
  let s' := saveConfig (fun _ _ _ => true) sample_store (partial DEFAULT_CONFIG) in
  getInitialPlaygroundConfig s' = DEFAULT_CONFIG /\ s' !! MESSAGES_KEY = sample_store !! MESSAGES_KEY.
Proof.
  destruct (config_roundtrip (fun _ _ _ => true) sample_store DEFAULT_CONFIG (fun _ => eq_refl) default_nums_ok) as [H1 H2].
  split; [exact H1|]. apply H2. vm_compute. discriminate.
Defined.

(** *** Messages *)

(** A message that loading leaves as it is. *)
Definition stable (m : Message) : Prop :=
  isAssistantMessagePending m = false /\
  Forall (fun v => strlen (v_content v) < MIN_PREFIX_COLLAPSE_LENGTH) (versions m) /\
  text_fits (rtext m).

Lemma normalizeVersion_short (v : MessageVersion) :
  strlen (v_content v) < MIN_PREFIX_COLLAPSE_LENGTH -> normalizeVersion v = (v, false).
Proof.
  intros Hv. unfold normalizeVersion. rewrite collapse_short by done.
  rewrite truncateText_short; [by rewrite !str_eqb_refl|].
  unfold MIN_PREFIX_COLLAPSE_LENGTH, MAX_LOADED_MESSAGE_CHARS in *. lia.
Qed.

Lemma cutMessage_stable (m : Message) : stable m -> cutMessage m = (m, false).
Proof.
  intros (_ & Hv & Hr). unfold cutMessage.
  assert (Hs : existsb snd (map normalizeVersion (versions m)) = false).
  { induction Hv as [|v vs Hx Hl IH]; [done|]. simpl. by rewrite normalizeVersion_short. }
  rewrite Hs. unfold rtext in Hr. destruct (reasoning m) as [r|]; [|done].
  unfold truncateReasoning. cbn [r_content].
  by rewrite truncateText_short, str_eqb_refl.
Qed.

Lemma normalize_stable (m : Message) (a b c : Z) :
  stable m -> normalizeStoredMessageForLoad m a b c = (m, false).
Proof.
  intros Hs. unfold normalizeStoredMessageForLoad. rewrite cutMessage_stable by done.
  by rewrite (proj1 Hs).
Qed.

(** A conversation that loading leaves as it is. *)
Definition stable_conversation (ms : list Message) : Prop :=
  Forall stable ms /\ Z.of_nat (length ms) <= MAX_STORED_MESSAGES /\
  total_size ms <= MAX_LOADED_MESSAGES_CHARS.

Lemma imap_stable (ms : list Message) (f : nat -> Message -> Message * bool) :
  Forall stable ms -> (forall i m, stable m -> f i m = (m, false)) ->
  map fst (imap f ms) = ms.
Proof.
  intros Hs. revert f. induction Hs as [|m ms Hm Hs IH]; intros f Hf; [done|].
  cbn [imap map]. rewrite Hf by done. cbn [fst]. f_equal. apply IH. intros i x. apply Hf.
Qed.

Lemma total_size_drop (k : nat) (ms : list Message) (m : Message) :
  ms !! k = Some m -> getMessageSize m + total_size (drop (S k) ms) <= total_size ms.
Proof.
  intros Hm. rewrite <- (take_drop_middle ms k m Hm) at 2.
  rewrite total_size_app. simpl. fold (total_size (drop (S k) ms)).
  assert (H : forall l, 0 <= total_size l).
  { induction l as [|x l IH]; simpl; [done|]. pose proof (getMessageSize_nonneg x).
    fold (total_size l). lia. }
  pose proof (H (take k ms)). lia.
Qed.

Lemma size_trim_stable (ms : list Message) :
  total_size ms <= MAX_LOADED_MESSAGES_CHARS -> fst (trimMessagesByContentSize ms) = ms.
Proof.
  intros Ht. destruct (size_trim_cases ms) as (k & Hk & Hne & _ & Hmax).
  destruct k as [|k]; [by rewrite Hk|]. cbn [pred] in Hmax.
  destruct (ms !! k) as [m|] eqn:Hm.
  - specialize (Hmax m ltac:(done) eq_refl). rewrite Hk in Hmax.
    pose proof (total_size_drop k ms m Hm). lia.
  - apply lookup_ge_None in Hm. rewrite drop_ge in Hk by lia.
    destruct ms; [done|]. by destruct Hne.
Qed.

Lemma kept_stable (ms : list Message) (clock : nat -> Z * Z * Z) :
  stable_conversation ms -> kept ms clock = ms.
Proof.
  intros (Hs & Hl & Ht). unfold kept. rewrite imap_stable; [|done|].
  - unfold trimMessages. rewrite (proj2 (Z.leb_le _ _) Hl). by apply size_trim_stable.
  - intros i m Hm. destruct (clock i) as [[a b] c]. by apply normalize_stable.
Qed.

Lemma sanitize_stable (t : str -> str) (ms : list Message) (a b c : Z) :
  Forall stable ms -> fst (sanitizeMessagesOnLoad t ms a b c) = ms.
Proof.
  intros Hs. destruct (sanitize_cases t ms a b c) as [[-> _]|(i & m & m' & Hm & Hp & _)]; [done|].
  eapply Forall_lookup_1 in Hs as [Hq _]; [|exact Hm].
  simpl in Hp. rewrite Hq, andb_false_r in Hp. done.
Qed.

Lemma messages_json_ok (ms : list Message) :
  Forall message_ints_ok ms -> json_ok (messages_json ms).
Proof.
  intros H. constructor. apply Forall_map. eapply Forall_impl; [exact H|].
  apply message_json_ok.
Qed.

Lemma read_messages_envelope (s : Store) (data : json) :
  json_ok data -> s !! MESSAGES_KEY = Some (stringify (envelope data)) ->
  strlen (stringify (envelope data)) <= MAX_STORED_MESSAGES_BYTES ->
  readStoredMessagesValue s = (Ok (Some (envelope data)), s).
Proof.
  intros Hd Hs Hl. pose proof (read_envelope s MESSAGES_KEY data Hd Hs) as Hr.
  unfold readStoredMessagesValue, readStoredValue, getItem in *. rewrite Hs in *.
  apply Z.ltb_ge in Hl. rewrite Hl. destruct (stringify (envelope data)); [done|].
  by rewrite Hr.
Qed.

(** C36: A conversation that was saved passes the schemas of the store, both when it is
    saved and when it is read, and is loaded as it was, whatever the clock says: when it
    has at most 100 messages and 120,000 characters, no message is pending, each has a
    version, none has a version of 2,000 characters or more, which may be collapsed, or
    a reasoning of more than 40,000, the text that is stored has at most 1,048,576
    characters, the browser accepts the write, and its times are read back from their
    texts. *)
Theorem messages_roundtrip (accepts : Store -> str -> str -> bool) (t : str -> str)
    (s : Store) (clock : nat -> Z * Z * Z) (now : Z * Z * Z) (ms : list Message) :
  (forall text, accepts s MESSAGES_KEY text = true) ->
  Forall message_ints_ok ms -> Forall (fun m => versions m <> []) ms -> stable_conversation ms ->
  strlen (stringify (envelope (messages_json ms))) <= MAX_STORED_MESSAGES_BYTES ->
  fst (loadMessages accepts t (saveMessages accepts s ms)
         clock now) = Some ms.
Proof.
  intros Ha Hi Hv Hs Hl. pose proof (messages_read ms Hi Hv) as Hp. destruct now as [[a b] c].
  assert (Hsave : saveMessages accepts s ms =
    <[MESSAGES_KEY := stringify (envelope (messages_json ms))]> s).
  { unfold saveMessages, trimMessages. rewrite (proj2 (Z.leb_le _ _) (proj1 (proj2 Hs))).
    cbn [fst]. rewrite Hp. unfold writeStoredValue. by rewrite Ha. }
  rewrite Hsave. unfold loadMessages.
  rewrite (read_messages_envelope _ (messages_json ms));
    [|by apply messages_json_ok|by apply lookup_insert_eq|done].
  change (truthy_json (envelope (messages_json ms))) with true. cbn [negb].
  change (unwrapStoredValue (envelope (messages_json ms))) with (messages_json ms).
  rewrite Hp. pose proof (kept_stable ms clock Hs) as Hk. unfold kept in Hk.
  destruct (trimMessages _) as [tr tn]. cbn [fst] in Hk.
  destruct (trimMessagesByContentSize tr) as [sz sn]. cbn [fst] in Hk. subst sz.
  pose proof (sanitize_stable t ms a b c (proj1 Hs)) as Hsan.
  destruct (sanitizeMessagesOnLoad t ms a b c) as [out fresh]. cbn [fst] in Hsan |- *.
  by rewrite Hsan.
Qed.

Definition sample_conversation : list Message :=
  [createUserMessage "u" "uv" "hi" 1;
   Msg "a" ASSISTANT [Version "av" "hello"] (Some 2) (Some 2) (Some 7) (Some 5) (Some [(js "https://a", js "b")])
     (Some (Reason "because" 1 (Some 2) (Some 3) (Some 1))) false true true (Some COMPLETE) None].

Lemma messages_roundtrip_witness :
  fst (loadMessages (fun _ _ _ => true) id (saveMessages (fun _ _ _ => true) ∅ sample_conversation)
         (fun _ => (5, 5, 5)) (6, 6, 6)) = Some sample_conversation.
Proof.
  apply (messages_roundtrip (fun _ _ _ => true) id ∅ (fun _ => (5, 5, 5)) (6, 6, 6) sample_conversation).
  - reflexivity.
  - assert (Hz : forall x, (1 <= x <= 7) -> int_ok (Some x)).
    { intros x Hx y [= <-]. assert (x = 1 \/ x = 2 \/ x = 3 \/ x = 4 \/ x = 5 \/ x = 6 \/ x = 7) as Hc by lia.
      destruct Hc as [->|[->|[->|[->|[->|[->| ->]]]]]]; split; vm_compute; reflexivity. }
    assert (Hn : int_ok None) by discriminate.
    apply Forall_cons_2; [|apply Forall_cons_2; [|apply Forall_nil_2]]; unfold message_ints_ok;
      cbn [createUserMessage createdAt startedAt completedAt durationMs reasoning].
    + split_and!; [apply Hz; lia|exact Hn..|discriminate].
    + split_and!; [apply Hz; lia..|]. intros r [= <-]. cbn [r_duration r_startedAt r_completedAt r_durationMs].
      split_and!; [apply (Hz 1 ltac:(lia) 1 eq_refl)|apply Hz; lia..].
  - repeat constructor; discriminate.
  - split_and!; [|vm_compute; discriminate..].
    apply Forall_cons_2; [|apply Forall_cons_2; [|apply Forall_nil_2]];
      (split; [reflexivity|split; [apply Forall_cons_2; [vm_compute; reflexivity|apply Forall_nil_2]|vm_compute; discriminate]]).
  - vm_compute. discriminate.
Defined.
