(* ===== verification/StreamController.v ===== *)
(** * The stream request controller

    Models [createStreamRequestController] of
    [src/web/src/features/playground/hooks/use-stream-request.ts], and proves
    its protocol: one open connection at most, callbacks of the latest request
    only, and one final callback per request.

    A [send] waits for the authorization headers and then opens a source, whose
    listeners run later: every event of the runtime is one step of the model.
    A source is the index of its entry in [streams]; a request that waits for
    its headers is an entry of [waiting].  The callbacks are given by a number
    and what is called on them is the output of the step; they do not call the
    controller and do not throw, as in [use-chat-handler.ts].  The texts of the
    decoded events are the strings that the types promise: a decoded update that
    is not a string is treated like an event that cannot be decoded. *)

From stdpp Require Import base list sorting.
From Stdlib Require Import ZArith NArith Lia.
From S2P Require Import Prelude JsString JsArray JsJson JsonRoundTrip Messages.
From S2P Require Import PlaygroundRequest.

(** ** State *)

Inductive Callback : Type :=
  | OnUpdate (type : StreamChunkType) (chunk : str)
  | OnComplete
  | OnError (error : str) (code : option str).

Definition final (e : Callback) : bool :=
  match e with OnUpdate _ _ => false | _ => true end.

Record Request : Type := MkRequest {
  r_generation : nat;                (** [requestGeneration] *)
  r_payload : ChatCompletionRequest;
  r_callbacks : nat;
}.

Record Stream : Type := MkStream {
  s_request : Request;
  completed : bool;
  closed : bool;
}.

Record Controller : Type := MkController {
  source : option nat;
  generation : nat;
  waiting : list Request;
  streams : list Stream;
  isStreaming : bool;
}.

Definition createStreamRequestController : Controller := MkController None 0 [] [] false.

(** A call on the callbacks of a request. *)
Definition Call : Type := Request * Callback.

Definition Step : Type := Controller * list Call.

(** ** Operations *)

Definition with_stream (f : Stream -> Stream) (i : nat) (c : Controller) : Controller :=
  MkController (source c) (generation c) (waiting c) (alter f i (streams c)) (isStreaming c).

(** [target.close()]. *)
Definition close (i : nat) (c : Controller) : Controller :=
  with_stream (fun s => MkStream (s_request s) (completed s) true) i c.

Definition set_completed (i : nat) (c : Controller) : Controller :=
  with_stream (fun s => MkStream (s_request s) true (closed s)) i c.

(** [source?.close()]. *)
Definition close_opt (o : option nat) (c : Controller) : Controller :=
  match o with Some i => close i c | None => c end.

Definition with_source (o : option nat) (c : Controller) : Controller :=
  MkController o (generation c) (waiting c) (streams c) (isStreaming c).

Definition setStreaming (b : bool) (c : Controller) : Controller :=
  MkController (source c) (generation c) (waiting c) (streams c) b.

Definition with_generation (g : nat) (c : Controller) : Controller :=
  MkController (source c) g (waiting c) (streams c) (isStreaming c).

Definition with_waiting (w : list Request) (c : Controller) : Controller :=
  MkController (source c) (generation c) w (streams c) (isStreaming c).

Definition closeActiveSource (target : nat) (c : Controller) : Controller :=
  let c := close target c in
  if bool_decide (source c = Some target) then setStreaming false (with_source None c)
  else c.

(** [send] up to the wait for the headers. *)
Definition send (payload : ChatCompletionRequest) (callbacks : nat) (c : Controller)
    : Controller :=
  let requestGeneration := S (generation c) in
  let previousSource := source c in
  let c := with_source None (with_generation requestGeneration c) in
  let c := setStreaming false (close_opt previousSource c) in
  with_waiting (waiting c ++ [MkRequest requestGeneration payload callbacks]) c.

Definition isCurrent (i : nat) (s : Stream) (c : Controller) : bool :=
  (generation c =? r_generation (s_request s))%nat && bool_decide (source c = Some i).

Definition handleError (i : nat) (errorMessage : str) (errorCode : option str)
    (c : Controller) : Step :=
  match streams c !! i with
  | None => (c, [])
  | Some s =>
      if negb (isCurrent i s c) || completed s then (c, [])
      else (closeActiveSource i (set_completed i c),
            [(s_request s, OnError errorMessage errorCode)])
  end.

(** How the wait for the headers ends: with the headers, after which [stream]
    may throw, or with an error, of which the message is known if it is an
    [Error]. *)
Inductive HeadersResult : Type :=
  | HeadersOk (streamThrows : bool)
  | HeadersFail (message : option str).

(** [send] after the wait, for the request at index [i] of [waiting]. *)
Definition resume (i : nat) (result : HeadersResult) (c : Controller) : Step :=
  match waiting c !! i with
  | None => (c, [])
  | Some r =>
      let c := with_waiting (delete i (waiting c)) c in
      match result with
      | HeadersFail message =>
          if negb (generation c =? r_generation r)%nat then (c, [])
          else (c, [(r, OnError (nullish message STREAM_START_ERROR) None)])
      | HeadersOk streamThrows =>
          if negb (generation c =? r_generation r)%nat then (c, [])
          else
            let nextSource := length (streams c) in
            let c :=
              setStreaming true
                (MkController (Some nextSource) (generation c) (waiting c)
                   (streams c ++ [MkStream r false false]) (isStreaming c)) in
            if streamThrows then handleError nextSource STREAM_START_ERROR None c
            else (c, [])
      end
  end.

(** A decoded text, where the types promise a string. *)
Definition update_text (u : StreamChunkType * json) : res (StreamChunkType * str) :=
  match snd u with JStr s => Ok (fst u, s) | _ => Throw end.

Definition decoded_updates (data : str) : res (list (StreamChunkType * str)) :=
  let! us := parseStreamMessageUpdates data in res_map update_text us.

Definition onMessage (i : nat) (eventData : option str) (c : Controller) : Step :=
  match streams c !! i with
  | None => (c, [])
  | Some s =>
      if negb (isCurrent i s c) || completed s then (c, [])
      else
        let data := nullish eventData [] in
        if isStreamDoneMessage data then
          (closeActiveSource i (set_completed i c), [(s_request s, OnComplete)])
        else
          match decoded_updates data with
          | Ok updates =>
              (c, map (fun u => (s_request s, OnUpdate (fst u) (snd u))) updates)
          | Throw => handleError i PARSE_ERROR None c
          end
  end.

(** [readyState] is the state of the source when the event arrives. *)
Definition onErrorEvent (i : nat) (eventData : option str) (readyState : option Z)
    (c : Controller) : Step :=
  match streams c !! i with
  | None => (c, [])
  | Some s =>
      if negb (isCurrent i s c) || completed s then (c, [])
      else if isStreamClosedReadyState readyState then (c, [])
      else
        let details := parseStreamErrorDetails eventData in
        handleError i (json_to_string (se_message details))
          (option_map json_to_string (se_code details)) c
  end.

Definition onReadyStateChange (i : nat) (eventReadyState status : option Z)
    (c : Controller) : Step :=
  match streams c !! i with
  | None => (c, [])
  | Some s =>
      if negb (isCurrent i s c) || completed s then (c, [])
      else
        match getStreamReadyStateError eventReadyState status with
        | Some errorMessage => handleError i errorMessage None c
        | None => (c, [])
        end
  end.

Definition cancel (notify : bool) (c : Controller) : Controller :=
  let c := with_generation (S (generation c)) c in
  let activeSource := source c in
  let c := close_opt activeSource (with_source None c) in
  if notify then setStreaming false c else c.

Definition stop : Controller -> Controller := cancel true.
Definition dispose : Controller -> Controller := cancel false.

Inductive Event : Type :=
  | ESend (payload : ChatCompletionRequest) (callbacks : nat)
  | EHeaders (i : nat) (result : HeadersResult)
  | EMessage (i : nat) (data : option str)
  | EError (i : nat) (data : option str) (readyState : option Z)
  | EReadyState (i : nat) (readyState status : option Z)
  | EStop
  | EDispose.

Definition step (e : Event) (c : Controller) : Step :=
  match e with
  | ESend payload callbacks => (send payload callbacks c, [])
  | EHeaders i result => resume i result c
  | EMessage i data => onMessage i data c
  | EError i data readyState => onErrorEvent i data readyState c
  | EReadyState i readyState status => onReadyStateChange i readyState status c
  | EStop => (stop c, [])
  | EDispose => (dispose c, [])
  end.

(** The state and the calls after a sequence of events. *)
Fixpoint run (es : list Event) (c : Controller) : Step :=
  match es with
  | [] => (c, [])
  | e :: es' =>
      let '(c1, out1) := step e c in
      let '(c2, out2) := run es' c1 in
      (c2, out1 ++ out2)
  end.

(** ** Transitions

    A step makes one of a few transitions, or opens a source and fails at once. *)

Definition stream_gen (s : Stream) : nat := r_generation (s_request s).

Definition current (c : Controller) (i : nat) (s : Stream) : Prop :=
  streams c !! i = Some s /\ source c = Some i /\ stream_gen s = generation c /\
  completed s = false.

(** What the runtime makes the controller do. *)
Inductive quiet (c : Controller) : list Call -> Controller -> Prop :=
  | t_idle : quiet c [] c
  | t_update i s us :
      current c i s ->
      quiet c (map (fun u => (s_request s, OnUpdate (fst u) (snd u))) us) c
  | t_finish i s e :
      current c i s -> final e = true ->
      quiet c [(s_request s, e)] (closeActiveSource i (set_completed i c))
  | t_drop i :
      (forall r, waiting c !! i = Some r -> r_generation r <> generation c) ->
      quiet c [] (with_waiting (delete i (waiting c)) c)
  | t_refuse i r m :
      waiting c !! i = Some r -> r_generation r = generation c ->
      quiet c [(r, OnError m None)] (with_waiting (delete i (waiting c)) c)
  | t_open i r :
      waiting c !! i = Some r -> r_generation r = generation c ->
      quiet c [] (MkController (Some (length (streams c))) (generation c)
                    (delete i (waiting c)) (streams c ++ [MkStream r false false]) true).

Inductive trans (c : Controller) : list Call -> Controller -> Prop :=
  | t_quiet out c' : quiet c out c' -> trans c out c'
  | t_send p cb : trans c [] (send p cb c)
  | t_cancel b : trans c [] (cancel b c).

Inductive reaches : list Call -> Controller -> Prop :=
  | reaches_init : reaches [] createStreamRequestController
  | reaches_trans tr c out c' : reaches tr c -> trans c out c' -> reaches (tr ++ out) c'.

#[export] Hint Constructors quiet trans reaches : js.

Definition runtime (e : Event) : bool :=
  match e with ESend _ _ | EStop | EDispose => false | _ => true end.

Lemma guard_current (c : Controller) (i : nat) (s : Stream) :
  streams c !! i = Some s -> negb (isCurrent i s c) || completed s = false -> current c i s.
Proof.
  intros Hs [H1 H2]%orb_false_iff. apply negb_false_iff in H1.
  apply andb_true_iff in H1 as [Hg Hi]. apply Nat.eqb_eq in Hg.
  apply bool_decide_eq_true_1 in Hi. done.
Qed.

Lemma handleError_quiet (c : Controller) (i : nat) (m : str) (code : option str) :
  let '(c', out) := handleError i m code c in quiet c out c'.
Proof.
  unfold handleError. destruct (streams c !! i) as [s|] eqn:Hs; [|by constructor].
  destruct (negb _ || _) eqn:Hg; [by constructor|].
  apply guard_current in Hg; [|done]. by apply (t_finish c i s (OnError m code)).
Qed.

(** What holds of the calls and the state and is kept by the quiet transitions
    is kept by the runtime. *)
Section runtime_ind.
Context (P : list Call -> Controller -> Prop)
  (HP : forall tr c out c', P tr c -> quiet c out c' -> P (tr ++ out) c').

Lemma idle_kept (tr : list Call) (c : Controller) : P tr c -> P (tr ++ []) c.
Proof. intros H. apply (HP tr c); [done|constructor]. Qed.

Lemma handleError_kept (tr : list Call) (c : Controller) (i : nat) (m : str)
    (code : option str) :
  P tr c -> let '(c', out) := handleError i m code c in P (tr ++ out) c'.
Proof.
  intros H. pose proof (handleError_quiet c i m code) as Hq.
  destruct (handleError i m code c). by eapply HP.
Qed.

Lemma resume_kept (tr : list Call) (c : Controller) (i : nat) (result : HeadersResult) :
  P tr c -> let '(c', out) := resume i result c in P (tr ++ out) c'.
Proof.
  intros Hc. unfold resume. destruct (waiting c !! i) as [r|] eqn:Hr; [|by apply idle_kept].
  cbn [generation with_waiting].
  destruct (Nat.eqb_spec (generation c) (r_generation r)) as [Hg|Hg]; simpl.
  2:{ assert (Hd : P (tr ++ []) (with_waiting (delete i (waiting c)) c)).
      { eapply HP; [exact Hc|]. apply t_drop. intros r' Hr'. congruence. }
      by destruct result. }
  destruct result as [throws|m]; [|eapply HP; [exact Hc|by apply t_refuse]].
  set (c1 := setStreaming true _).
  assert (H1 : P (tr ++ []) c1) by (eapply HP; [exact Hc|by apply (t_open c i r)]).
  destruct throws; [|done]. rewrite app_nil_r in H1. by apply handleError_kept.
Qed.

Lemma runtime_kept (tr : list Call) (e : Event) (c : Controller) :
  runtime e = true -> P tr c -> let '(c', out) := step e c in P (tr ++ out) c'.
Proof.
  intros He Hc. destruct e as [p cb|i r|i d|i d rs|i rs st| |]; try done; cbn [step].
  - by apply resume_kept.
  - unfold onMessage. destruct (streams c !! i) as [s|] eqn:Hs; [|by apply idle_kept].
    destruct (negb _ || _) eqn:Hg; [by apply idle_kept|].
    apply guard_current in Hg; [|done].
    destruct (isStreamDoneMessage _); [eapply HP; [exact Hc|by apply t_finish]|].
    destruct (decoded_updates _); [eapply HP; [exact Hc|by apply t_update with i]|].
    by apply handleError_kept.
  - unfold onErrorEvent. destruct (streams c !! i) as [s|]; [|by apply idle_kept].
    destruct (negb _ || _); [by apply idle_kept|].
    destruct (isStreamClosedReadyState rs); [by apply idle_kept|by apply handleError_kept].
  - unfold onReadyStateChange. destruct (streams c !! i) as [s|]; [|by apply idle_kept].
    destruct (negb _ || _); [by apply idle_kept|].
    destruct (getStreamReadyStateError rs st) as [m|]; [by apply handleError_kept|by apply idle_kept].
Qed.
End runtime_ind.

Lemma step_reaches (tr : list Call) (e : Event) (c : Controller) :
  reaches tr c -> let '(c', out) := step e c in reaches (tr ++ out) c'.
Proof.
  intros Hc. destruct (runtime e) eqn:He.
  - apply (runtime_kept reaches); [|done..]. eauto with js.
  - destruct e; try done; simpl; eauto with js.
Qed.

Lemma run_reaches (es : list Event) (tr : list Call) (c : Controller) :
  reaches tr c -> let '(c', out) := run es c in reaches (tr ++ out) c'.
Proof.
  revert tr c. induction es as [|e es IH]; intros tr c Hc; simpl; [by rewrite app_nil_r|].
  pose proof (step_reaches tr e c Hc) as H1. destruct (step e c) as [c1 out1].
  specialize (IH _ _ H1). destruct (run es c1) as [c2 out2]. by rewrite app_assoc.
Qed.

(** ** The invariant *)

Definition generations (c : Controller) : list nat :=
  map r_generation (waiting c) ++ map stream_gen (streams c).

(** The callbacks of a request are not called again after a final one. *)
Fixpoint finals_last (tr : list Call) : Prop :=
  match tr with
  | [] => True
  | (r, e) :: tr' =>
      (final e = true ->
       Forall (fun call => r_generation (fst call) <> r_generation r) tr') /\
      finals_last tr'
  end.

Record inv (tr : list Call) (c : Controller) : Prop := {
  inv_open : forall i s, streams c !! i = Some s -> closed s = false -> source c = Some i;
  inv_source : forall i, source c = Some i ->
    exists s, streams c !! i = Some s /\ completed s = false /\
              stream_gen s = generation c /\ isStreaming c = true;
  inv_gens : Forall (fun g => (g <= generation c)%nat) (generations c);
  inv_unique : NoDup (generations c);
  inv_trace : Forall (fun call => (r_generation (fst call) <= generation c)%nat) tr;
  inv_sorted : StronglySorted le (map (fun call => r_generation (fst call)) tr);
  inv_done : forall r e, (r, e) ∈ tr -> final e = true ->
    (r_generation r ∉ map r_generation (waiting c)) /\
    forall i s, streams c !! i = Some s -> stream_gen s = r_generation r -> completed s = true;
  inv_finals : finals_last tr;
}.

Lemma map_alter {A B} (g : A -> B) (f : A -> A) (i : nat) (l : list A) :
  (forall x, g (f x) = g x) -> map g (alter f i l) = map g l.
Proof.
  intros Hf. revert i. induction l as [|x l IH]; intros [|i]; simpl; [done..| |].
  - by rewrite Hf.
  - f_equal. apply IH.
Qed.

Lemma streams_close (i : nat) (c : Controller) :
  streams (close i c) = alter (fun s => MkStream (s_request s) (completed s) true) i (streams c).
Proof. done. Qed.

(** What closing a source leaves of the others. *)
Lemma lookup_close (i j : nat) (c : Controller) (s : Stream) :
  streams (close i c) !! j = Some s ->
  exists s0, streams c !! j = Some s0 /\ s_request s = s_request s0 /\
    completed s = completed s0 /\ closed s = (if decide (i = j) then true else closed s0).
Proof.
  rewrite streams_close. destruct (decide (i = j)) as [->|Hij].
  - rewrite list_lookup_alter_eq. destruct (streams c !! j) as [s0|]; [|done].
    intros [= <-]. by exists s0.
  - rewrite list_lookup_alter_ne by done. intros Hs. by exists s.
Qed.

Lemma lookup_close_opt (o : option nat) (j : nat) (c : Controller) (s : Stream) :
  streams (close_opt o c) !! j = Some s ->
  exists s0, streams c !! j = Some s0 /\ s_request s = s_request s0 /\
    completed s = completed s0 /\ (closed s = false -> closed s0 = false /\ o <> Some j).
Proof.
  destruct o as [i|]; simpl; [|intros Hs; by exists s].
  intros (s0 & H0 & Hr & Hc & Hd)%lookup_close. exists s0. split_and!; [done..|].
  rewrite Hd. destruct (decide (i = j)); [done|]. intros H. split; [done|congruence].
Qed.

Lemma generations_close_opt (o : option nat) (c : Controller) :
  generations (close_opt o c) = generations c.
Proof.
  destruct o as [i|]; [|done]. unfold generations. cbn [close_opt].
  rewrite streams_close. f_equal. by apply map_alter.
Qed.

Lemma close_opt_frame (o : option nat) (c : Controller) :
  source (close_opt o c) = source c /\ generation (close_opt o c) = generation c /\
  waiting (close_opt o c) = waiting c /\ isStreaming (close_opt o c) = isStreaming c.
Proof. by destruct o. Qed.

Lemma Forall_le_mono (g g' : nat) (l : list nat) :
  (g <= g')%nat -> Forall (fun x => (x <= g)%nat) l -> Forall (fun x => (x <= g')%nat) l.
Proof. intros Hg H. eapply Forall_impl; [exact H|]. intros x. simpl. lia. Qed.

(** *** A new generation

    [send] and [cancel] start a new generation with no source; [w] is what
    waits then. *)
Lemma inv_bump (tr : list Call) (c c' : Controller) (w : list Request) :
  inv tr c ->
  source c' = None -> generation c' = S (generation c) -> waiting c' = waiting c ++ w ->
  streams c' = streams (close_opt (source c) c) ->
  (w = [] \/ exists r, w = [r] /\ r_generation r = S (generation c)) -> inv tr c'.
Proof.
  intros Hi Hs Hg Hw Hst Hr.
  assert (Hgen : map stream_gen (streams c') = map stream_gen (streams c)).
  { rewrite Hst. destruct (source c) as [i|]; [|done]. cbn [close_opt].
    rewrite streams_close. by apply map_alter. }
  assert (Hnew : Forall (fun r => r_generation r = S (generation c)) w)
    by (destruct Hr as [-> |(r & -> & Hr)]; auto).
  split.
  - intros i s Hl Hc. rewrite Hst in Hl.
    apply lookup_close_opt in Hl as (s0 & H0 & _ & _ & Hd).
    destruct (Hd Hc) as [Hc0 Hn]. by destruct Hn; eapply inv_open.
  - by rewrite Hs.
  - pose proof (inv_gens _ _ Hi) as H. unfold generations in *. rewrite Hw, Hgen, Hg, map_app.
    apply Forall_app in H as [H1 H2]. rewrite !Forall_app. split_and!.
    + eapply Forall_le_mono; [|exact H1]. lia.
    + apply Forall_map. eapply Forall_impl; [exact Hnew|]. intros r. simpl. lia.
    + eapply Forall_le_mono; [|exact H2]. lia.
  - pose proof (inv_unique _ _ Hi) as Hu. pose proof (inv_gens _ _ Hi) as H.
    unfold generations in *. rewrite Hw, Hgen, map_app.
    destruct Hr as [-> |(r & -> & Hr)]; [by rewrite app_nil_r|].
    simpl. rewrite <- app_assoc. simpl. rewrite <- Permutation_middle.
    apply NoDup_cons. split; [|done]. intros Hin. rewrite Forall_forall in H.
    apply H in Hin. lia.
  - eapply Forall_impl; [exact (inv_trace _ _ Hi)|]. simpl. lia.
  - apply (inv_sorted _ _ Hi).
  - intros r e Hin Hf. destruct (inv_done _ _ Hi r e Hin Hf) as [H1 H2]. split.
    + rewrite Hw, map_app, elem_of_app. intros [H|H]; [done|].
      apply list_elem_of_fmap in H as (r' & He & Hr'). rewrite Forall_forall in Hnew.
      apply Hnew in Hr'. pose proof (inv_trace _ _ Hi) as Ht. rewrite Forall_forall in Ht.
      apply Ht in Hin. simpl in Hin. lia.
    + intros i s Hl Hgs. rewrite Hst in Hl.
      apply lookup_close_opt in Hl as (s0 & H0 & Hq & -> & _). eapply H2; [done|].
      unfold stream_gen in *. by rewrite <- Hq.
  - apply (inv_finals _ _ Hi).
Qed.

(** *** Calls on the current request *)

Definition call_gen (call : Call) : nat := r_generation (fst call).

Lemma sorted_extend (tr out : list Call) (g : nat) :
  StronglySorted le (map call_gen tr) -> Forall (fun call => (call_gen call <= g)%nat) tr ->
  Forall (fun call => call_gen call = g) out -> StronglySorted le (map call_gen (tr ++ out)).
Proof.
  intros Hs Ht Ho. induction tr as [|x tr IH]; simpl in *.
  - clear Hs Ht. induction Ho as [|y out Hy Ho IH]; simpl; constructor; [done|].
    apply Forall_map. eapply Forall_impl; [exact Ho|]. simpl. lia.
  - apply Forall_cons in Ht as [Hx Ht]. apply StronglySorted_inv in Hs as [Hs Hf].
    constructor; [by apply IH|]. rewrite map_app. apply Forall_app. split; [done|].
    apply Forall_map. eapply Forall_impl; [exact Ho|]. simpl. lia.
Qed.

Lemma finals_extend (tr out : list Call) (g : nat) :
  finals_last tr -> finals_last out -> Forall (fun call => call_gen call = g) out ->
  (forall r e, (r, e) ∈ tr -> final e = true -> r_generation r <> g) ->
  finals_last (tr ++ out).
Proof.
  intros Ht Ho Hg Hn. induction tr as [|[r e] tr IH]; [done|]. simpl in *.
  destruct Ht as [Hf Ht]. split.
  - intros He. apply Forall_app. split; [by apply Hf|].
    eapply Forall_impl; [exact Hg|]. unfold call_gen. simpl. intros x ->.
    intros Hx. by apply (Hn r e); [left|..].
  - apply IH; [done|]. intros r' e' Hin. apply Hn. by right.
Qed.

(** The calls of a step all go to the current generation, which has had no
    final call. *)
Lemma inv_calls (tr out : list Call) (c c' : Controller) :
  inv tr c -> generation c' = generation c ->
  Forall (fun call => call_gen call = generation c) out -> finals_last out ->
  (out = [] \/ forall r e, (r, e) ∈ tr -> final e = true -> r_generation r <> generation c) ->
  Forall (fun call => (r_generation (fst call) <= generation c')%nat) (tr ++ out) /\
  StronglySorted le (map call_gen (tr ++ out)) /\ finals_last (tr ++ out).
Proof.
  intros Hi Hg Ho Hl Hn. pose proof (inv_trace _ _ Hi) as Ht. split_and!.
  - rewrite Hg. apply Forall_app. split; [done|].
    eapply Forall_impl; [exact Ho|]. unfold call_gen. lia.
  - eapply sorted_extend; [apply (inv_sorted _ _ Hi)|exact Ht|exact Ho].
  - destruct Hn as [-> |Hn]; [rewrite app_nil_r; apply (inv_finals _ _ Hi)|].
    eapply finals_extend; [apply (inv_finals _ _ Hi)|done|exact Ho|exact Hn].
Qed.

Lemma current_no_final (tr : list Call) (c : Controller) (i : nat) (s : Stream) :
  inv tr c -> current c i s ->
  forall r e, (r, e) ∈ tr -> final e = true -> r_generation r <> generation c.
Proof.
  intros Hi (Hs & _ & Hg & Hc) r e Hin Hf Heq.
  destruct (inv_done _ _ Hi r e Hin Hf) as [_ H]. rewrite (H i s Hs) in Hc; [done|].
  by rewrite Hg.
Qed.

Lemma updates_finals (r : Request) (us : list (StreamChunkType * str)) :
  finals_last (map (fun u => (r, OnUpdate (fst u) (snd u))) us) /\
  Forall (fun call => call_gen call = r_generation r)
    (map (fun u => (r, OnUpdate (fst u) (snd u))) us).
Proof. induction us as [|u us [IH1 IH2]]; simpl; [done|]. split; [by split|by constructor]. Qed.

Lemma inv_update (tr : list Call) (c : Controller) (i : nat) (s : Stream)
    (us : list (StreamChunkType * str)) :
  inv tr c -> current c i s ->
  inv (tr ++ map (fun u => (s_request s, OnUpdate (fst u) (snd u))) us) c.
Proof.
  intros Hi Hs. destruct (updates_finals (s_request s) us) as [Hf Ho].
  set (out := map _ us) in *.
  assert (Hg : Forall (fun call => call_gen call = generation c) out)
    by (by rewrite <- (proj1 (proj2 (proj2 Hs)))).
  destruct (inv_calls tr out c c Hi eq_refl Hg Hf) as (H1 & H2 & H3);
    [right; by eapply current_no_final|].
  destruct Hi. split; try done.
  intros r e [Hin|Hin]%elem_of_app He; [eauto|].
  subst out. apply list_elem_of_fmap in Hin as (u & [= -> ->] & _). done.
Qed.

(** *** The end of the current request *)

Lemma alter_alter {A} (f g : A -> A) (i : nat) (l : list A) :
  alter f i (alter g i l) = alter (fun x => f (g x)) i l.
Proof.
  revert i. induction l as [|x l IH]; intros [|i]; [done..|].
  exact (f_equal (cons x) (IH i)).
Qed.

Lemma closeActive_eq (i : nat) (c : Controller) :
  source c = Some i ->
  closeActiveSource i (set_completed i c) =
  MkController None (generation c) (waiting c)
    (alter (fun s => MkStream (s_request s) true true) i (streams c)) false.
Proof.
  intros Hs. unfold closeActiveSource. simpl. rewrite bool_decide_eq_true_2 by done.
  unfold setStreaming, with_source. simpl. f_equal. apply alter_alter.
Qed.

Lemma inv_finish (tr : list Call) (c : Controller) (i : nat) (s : Stream) (e : Callback) :
  inv tr c -> current c i s -> final e = true ->
  inv (tr ++ [(s_request s, e)]) (closeActiveSource i (set_completed i c)).
Proof.
  intros Hi Hcur He. pose proof Hcur as (Hs & Hsrc & Hg & Hc).
  rewrite closeActive_eq by done. set (c' := MkController _ _ _ _ _).
  assert (Hgen : generations c' = generations c)
    by (unfold generations; simpl; f_equal; by apply map_alter).
  assert (Hl : forall j x, streams c' !! j = Some x -> exists x0, streams c !! j = Some x0 /\
    s_request x = s_request x0 /\ (j = i -> completed x = true /\ closed x = true) /\
    (j <> i -> x = x0)).
  { intros j x. simpl. destruct (decide (j = i)) as [->|Hji].
    - rewrite list_lookup_alter_eq, Hs. intros [= <-]. by exists s.
    - rewrite list_lookup_alter_ne by done. intros H. by exists x. }
  destruct (inv_calls tr [(s_request s, e)] c c' Hi eq_refl) as (H1 & H2 & H3);
    [by constructor|by split|right; by eapply current_no_final|].
  split; try done.
  - intros j x (x0 & H0 & _ & Hy & Hn)%Hl Hcl.
    destruct (decide (j = i)) as [->|Hji]; [destruct (Hy eq_refl); congruence|].
    rewrite (Hn Hji) in Hcl. pose proof (inv_open _ _ Hi j x0 H0 Hcl). congruence.
  - rewrite Hgen. apply (inv_gens _ _ Hi).
  - rewrite Hgen. apply (inv_unique _ _ Hi).
  - intros r e' [Hin|Hin]%elem_of_app Hf.
    + destruct (inv_done _ _ Hi r e' Hin Hf) as [Hw Hd]. split; [done|].
      intros j x (x0 & H0 & Hq & Hy & Hn)%Hl Hgx.
      destruct (decide (j = i)) as [->|Hji]; [by apply Hy|].
      rewrite (Hn Hji). eapply Hd; [done|]. unfold stream_gen in *. by rewrite <- Hq.
    + apply list_elem_of_singleton in Hin as [= -> ->].
      pose proof (inv_unique _ _ Hi) as Hu. unfold generations in Hu.
      apply NoDup_app in Hu as (_ & Hdis & Hnd). split.
      * intros Hin. apply (Hdis _ Hin). by apply (list_elem_of_fmap_2 stream_gen), list_elem_of_lookup_2 with i.
      * intros j x (x0 & H0 & Hq & Hy & Hn)%Hl Hgx.
        destruct (decide (j = i)) as [->|Hji]; [by apply Hy|]. exfalso. apply Hji.
        eapply (NoDup_lookup _ j i (stream_gen s)); [exact Hnd|..];
          rewrite list_lookup_fmap; [rewrite H0|by rewrite Hs].
        simpl. unfold stream_gen in *. by rewrite <- Hgx, Hq.
Qed.

(** *** The end of a wait *)

Lemma map_delete_incl {A B} (f : A -> B) (i : nat) (l : list A) :
  map f (delete i l) `sublist_of` map f l.
Proof.
  change (map f ?x) with (f <$> x). rewrite list_fmap_delete. apply sublist_delete.
Qed.

Lemma generations_delete (i : nat) (c : Controller) :
  generations (with_waiting (delete i (waiting c)) c) `sublist_of` generations c.
Proof. unfold generations. simpl. apply sublist_app; [apply map_delete_incl|done]. Qed.

Lemma Forall_sublist {A} (P : A -> Prop) (l l' : list A) :
  l `sublist_of` l' -> Forall P l' -> Forall P l.
Proof.
  rewrite !Forall_forall. intros Hs H x Hx. apply H. by eapply elem_of_sublist.
Qed.

Lemma inv_drop (tr : list Call) (c : Controller) (i : nat) :
  inv tr c -> inv tr (with_waiting (delete i (waiting c)) c).
Proof.
  intros Hi. pose proof (generations_delete i c) as Hs. destruct Hi. split; try done.
  - by eapply Forall_sublist.
  - by eapply sublist_NoDup.
  - intros r e Hin Hf. destruct (inv_done0 r e Hin Hf) as [Hw Hd]. split; [|done].
    intros H. apply Hw. eapply elem_of_sublist; [exact H|]. apply map_delete_incl.
Qed.

(** A waiting request of the current generation has had no call and has no
    source. *)
Lemma waiting_fresh (tr : list Call) (c : Controller) (i : nat) (r : Request) :
  inv tr c -> waiting c !! i = Some r -> r_generation r = generation c ->
  (forall r' e, (r', e) ∈ tr -> final e = true -> r_generation r' <> generation c) /\
  source c = None /\
  r_generation r ∉ generations (with_waiting (delete i (waiting c)) c).
Proof.
  intros Hi Hw Hg. assert (Hin : r_generation r ∈ map r_generation (waiting c))
    by (by apply (list_elem_of_fmap_2 r_generation), list_elem_of_lookup_2 with i).
  pose proof (inv_unique _ _ Hi) as Hu. unfold generations in Hu.
  assert (Hp : waiting c ≡ₚ r :: delete i (waiting c)) by (by apply delete_Permutation).
  split_and!.
  - intros r' e H1 H2 Heq. destruct (inv_done _ _ Hi r' e H1 H2) as [Hn _].
    apply Hn. by rewrite Heq, <- Hg.
  - destruct (source c) as [j|] eqn:Hs; [|done]. exfalso.
    destruct (inv_source _ _ Hi j Hs) as (s & Hj & _ & Hgs & _).
    apply NoDup_app in Hu as (_ & Hd & _). apply (Hd _ Hin). rewrite Hg, <- Hgs.
    by apply (list_elem_of_fmap_2 stream_gen), list_elem_of_lookup_2 with j.
  - unfold generations. simpl. rewrite Hp in Hu. simpl in Hu.
    by apply NoDup_cons in Hu as [Hn _].
Qed.

Lemma inv_refuse (tr : list Call) (c : Controller) (i : nat) (r : Request) (m : str) :
  inv tr c -> waiting c !! i = Some r -> r_generation r = generation c ->
  inv (tr ++ [(r, OnError m None)]) (with_waiting (delete i (waiting c)) c).
Proof.
  intros Hi Hw Hg. destruct (waiting_fresh tr c i r Hi Hw Hg) as (Hn & Hs & Hf).
  set (c' := with_waiting _ c).
  destruct (inv_calls tr [(r, OnError m None)] c c' Hi eq_refl) as (H1 & H2 & H3);
    [by constructor|by split|by right|].
  pose proof (inv_drop tr c i Hi) as Hd. fold c' in Hd, Hf. destruct Hd. split; try done.
  intros r' e [Hin|Hin]%elem_of_app He; [by apply (inv_done0 r' e)|].
  apply list_elem_of_singleton in Hin as [= -> ->].
  unfold generations in Hf. rewrite elem_of_app in Hf. split; [tauto|].
  intros j s Hj Hgs. destruct Hf. right. rewrite <- Hgs.
  by apply (list_elem_of_fmap_2 stream_gen), list_elem_of_lookup_2 with j.
Qed.

Lemma inv_open_source (tr : list Call) (c : Controller) (i : nat) (r : Request) :
  inv tr c -> waiting c !! i = Some r -> r_generation r = generation c ->
  inv tr (MkController (Some (length (streams c))) (generation c)
            (delete i (waiting c)) (streams c ++ [MkStream r false false]) true).
Proof.
  intros Hi Hw Hg. destruct (waiting_fresh tr c i r Hi Hw Hg) as (Hn & Hs & Hf).
  pose proof (inv_drop tr c i Hi) as Hd. set (c0 := with_waiting _ c) in *.
  set (c' := MkController _ _ _ _ _).
  assert (Hgen : generations c' ≡ₚ r_generation r :: generations c0).
  { unfold generations. simpl. rewrite map_app. simpl.
    rewrite app_assoc. symmetry. apply Permutation_cons_append. }
  assert (Hl : forall j s, streams c' !! j = Some s ->
    streams c !! j = Some s \/ j = length (streams c) /\ s = MkStream r false false).
  { intros j s Hj. simpl in Hj. apply lookup_app_Some in Hj as [Hj|[Hle Hj]]; [by left|right].
    apply list_lookup_singleton_Some in Hj as [Hz <-]. split; [lia|done]. }
  split.
  - intros j s [Hj|[-> _]]%Hl Hc; [|done].
    rewrite (inv_open _ _ Hi j s Hj Hc) in Hs. done.
  - intros j [= <-]. exists (MkStream r false false). split_and!; [|done..].
    simpl. by apply list_lookup_middle.
  - rewrite Hgen. constructor; [simpl; lia|]. apply (inv_gens _ _ Hd).
  - rewrite Hgen. constructor; [done|]. apply (inv_unique _ _ Hd).
  - apply (inv_trace _ _ Hi).
  - apply (inv_sorted _ _ Hi).
  - intros r' e Hin He. destruct (inv_done _ _ Hd r' e Hin He) as [H1 H2].
    split; [done|]. intros j s [Hj|[_ ->]]%Hl Hgs; [by eapply H2|].
    exfalso. apply (Hn r' e Hin He). rewrite <- Hgs. exact Hg.
  - apply (inv_finals _ _ Hi).
Qed.

Lemma inv_quiet (tr : list Call) (c c' : Controller) (out : list Call) :
  inv tr c -> quiet c out c' -> inv (tr ++ out) c'.
Proof.
  intros Hi [|i s us|i s e|i|i r m|i r].
  - by rewrite app_nil_r.
  - by apply inv_update with i.
  - by apply inv_finish.
  - rewrite app_nil_r. by apply inv_drop.
  - by apply inv_refuse.
  - rewrite app_nil_r. by apply inv_open_source.
Qed.

Lemma inv_send (tr : list Call) (c : Controller) (p : ChatCompletionRequest) (cb : nat) :
  inv tr c -> inv tr (send p cb c).
Proof.
  intros Hi. apply (inv_bump tr c _ [MkRequest (S (generation c)) p cb] Hi);
    unfold send; try (by destruct (source c)). right. by eexists.
Qed.

Lemma inv_cancel (tr : list Call) (c : Controller) (b : bool) :
  inv tr c -> inv tr (cancel b c).
Proof.
  intros Hi. apply (inv_bump tr c _ [] Hi); unfold cancel;
    cbn [source with_generation]; destruct (source c), b; simpl; rewrite ?app_nil_r; by auto.
Qed.

Lemma inv_trans (tr : list Call) (c c' : Controller) (out : list Call) :
  inv tr c -> trans c out c' -> inv (tr ++ out) c'.
Proof.
  intros Hi [out' c1 Hq|p cb|b]; [by eapply inv_quiet|rewrite app_nil_r..];
    [by apply inv_send|by apply inv_cancel].
Qed.

Lemma reaches_inv (tr : list Call) (c : Controller) : reaches tr c -> inv tr c.
Proof.
  induction 1 as [|tr c out c' _ IH Ht]; [|by eapply inv_trans].
  split; try done; [constructor..|]. by intros r e Hin%not_elem_of_nil.
Qed.

(** ** The protocol *)

(** The state and the calls after [es], from the start. *)
Definition after (es : list Event) : Step := run es createStreamRequestController.

Lemma after_inv (es : list Event) : inv (snd (after es)) (fst (after es)).
Proof.
  pose proof (run_reaches es [] createStreamRequestController reaches_init) as H.
  unfold after. destruct (run es _) as [c out]. by apply reaches_inv in H.
Qed.

(** There is at most one open connection, and it is the one of the latest
    request: after any sequence of sends, stops, disposals and events of the
    sources, a source that has not been closed is the current source, belongs
    to the current generation, has not had its final event, and shows as
    streaming; every other source that was ever opened has been closed. *)
Theorem one_open_source (es : list Event) (i : nat) (s : Stream) :
  streams (fst (after es)) !! i = Some s -> closed s = false ->
  source (fst (after es)) = Some i /\
  r_generation (s_request s) = generation (fst (after es)) /\
  completed s = false /\ isStreaming (fst (after es)) = true.
Proof.
  intros Hs Hc. pose proof (after_inv es) as Hi.
  pose proof (inv_open _ _ Hi i s Hs Hc) as Hsrc.
  destruct (inv_source _ _ Hi i Hsrc) as (s' & Hs' & Hd & Hg & Hst).
  rewrite Hs in Hs'. by injection Hs' as <-.
Qed.

(** C25: The callbacks of a request follow the protocol: the calls come in the
    order of the requests, so a request is never called once a later one has
    been called, and after a request has been completed or has failed nothing
    more is called on it. *)
Theorem callback_protocol (es : list Event) :
  StronglySorted le (map call_gen (snd (after es))) /\ finals_last (snd (after es)).
Proof.
  pose proof (after_inv es) as Hi. split; [apply (inv_sorted _ _ Hi)|apply (inv_finals _ _ Hi)].
Qed.

(** Nothing is called on a generation that is not the current one. *)
Lemma step_calls_current (c : Controller) (e : Event) :
  Forall (fun call => call_gen call = generation c) (snd (step e c)).
Proof.
  assert (He : forall i m code c, Forall (fun call => call_gen call = generation c)
    (snd (handleError i m code c))).
  { clear. intros i m code c. unfold handleError.
    destruct (streams c !! i) as [s|] eqn:Hs; [|done]. destruct (negb _ || _) eqn:Hg; [done|].
    apply guard_current in Hg as (_ & _ & Hg & _); [|done]. by constructor. }
  destruct e as [p cb|i r|i d|i d rs|i rs st| |]; cbn [step]; try done.
  - unfold resume. destruct (waiting c !! i) as [q|]; [|done]. simpl.
    destruct (Nat.eqb_spec (generation c) (r_generation q)) as [Hg|Hg]; simpl;
      [|by destruct r]. destruct r as [[|]|m]; [|done|by constructor].
    set (c1 := setStreaming true _). change (generation c) with (generation c1). apply He.
  - unfold onMessage. destruct (streams c !! i) as [s|] eqn:Hs; [|done].
    destruct (negb _ || _) eqn:Hg; [done|].
    apply guard_current in Hg as (_ & _ & Hg & _); [|done].
    destruct (isStreamDoneMessage _); [by constructor|].
    destruct (decoded_updates _) as [us|]; [|apply He].
    apply Forall_map, Forall_true. intros u. exact Hg.
  - unfold onErrorEvent. destruct (streams c !! i) as [s|]; [|done].
    destruct (negb _ || _); [done|]. destruct (isStreamClosedReadyState rs); [done|apply He].
  - unfold onReadyStateChange. destruct (streams c !! i) as [s|]; [|done].
    destruct (negb _ || _); [done|].
    destruct (getStreamReadyStateError rs st); [apply He|done].
Qed.

Lemma step_generation (e : Event) (c : Controller) :
  (generation c <= generation (fst (step e c)))%nat.
Proof.
  assert (He : forall i m code c, generation (fst (handleError i m code c)) = generation c).
  { clear. intros i m code c. unfold handleError. destruct (streams c !! i) as [s|]; [|done].
    destruct (negb _ || _); [done|]. unfold closeActiveSource.
    by destruct (bool_decide _). }
  destruct e as [p cb|i r|i d|i d rs|i rs st| |]; cbn [step].
  - unfold send. simpl. destruct (source c); simpl; lia.
  - unfold resume. destruct (waiting c !! i) as [q|]; [|done]. simpl.
    destruct (Nat.eqb (generation c) (r_generation q)); simpl; [|by destruct r].
    destruct r as [[|]|m]; [by rewrite He|done..].
  - unfold onMessage. destruct (streams c !! i) as [s|]; [|done].
    destruct (negb _ || _); [done|]. destruct (isStreamDoneMessage _).
    { simpl. unfold closeActiveSource. by destruct (bool_decide _). }
    destruct (decoded_updates _); [done|by rewrite He].
  - unfold onErrorEvent. destruct (streams c !! i) as [s|]; [|done].
    destruct (negb _ || _); [done|]. destruct (isStreamClosedReadyState rs); [done|by rewrite He].
  - unfold onReadyStateChange. destruct (streams c !! i) as [s|]; [|done].
    destruct (negb _ || _); [done|].
    destruct (getStreamReadyStateError rs st); [by rewrite He|done].
  - unfold stop, cancel. destruct (source _); simpl; lia.
  - unfold dispose, cancel. destruct (source _); simpl; lia.
Qed.

Lemma run_calls_later (es : list Event) (c : Controller) :
  Forall (fun call => (generation c <= call_gen call)%nat) (snd (run es c)).
Proof.
  revert c. induction es as [|e es IH]; intros c; simpl; [done|].
  pose proof (step_calls_current c e) as Hc. pose proof (step_generation e c) as Hg.
  destruct (step e c) as [c1 out1]. specialize (IH c1).
  destruct (run es c1) as [c2 out2]. simpl in *. apply Forall_app. split.
  - eapply Forall_impl; [exact Hc|]. simpl. lia.
  - eapply Forall_impl; [exact IH|]. simpl. lia.
Qed.

(** After a stop, a disposal or a new send, the requests made before are
    silent: whatever events follow, late headers, messages or errors of old
    sources included, nothing is called on their callbacks. *)
Theorem cancelled_requests_silent (es1 es2 : list Event) (e : Event) (r : Request) :
  match e with EStop | EDispose | ESend _ _ => True | _ => False end ->
  (r_generation r <= generation (fst (after es1)))%nat ->
  let c := fst (step e (fst (after es1))) in
  Forall (fun call => r_generation (fst call) <> r_generation r) (snd (run es2 c)).
Proof.
  intros He Hr c. assert (Hg : generation c = S (generation (fst (after es1)))).
  { subst c. destruct e; try done; simpl; unfold stop, dispose, cancel;
      by destruct (source _). }
  eapply Forall_impl; [apply run_calls_later|]. intros call. unfold call_gen. simpl. lia.
Qed.

(** ** A stream that is not interrupted *)

Definition sample_request : ChatCompletionRequest :=
  buildChatCompletionPayload [] DEFAULT_CONFIG DEFAULT_PARAMETER_ENABLED.

Lemma one_open_source_witness :
  let es := [ESend sample_request 7; EHeaders 0 (HeadersOk false)] in
  source (fst (after es)) = Some 0.
Proof.
  intros es. refine (proj1 (one_open_source es 0
    (MkStream (MkRequest 1 sample_request 7) false false) _ _)); reflexivity.
Defined.

Lemma cancelled_requests_silent_witness :
  let es := [ESend sample_request 7; EHeaders 0 (HeadersOk false)] in
  let c := fst (step EStop (fst (after es))) in
  Forall (fun call => r_generation (fst call) <> 1)
    (snd (run [EMessage 0 (Some STREAM_DONE_MESSAGE)] c)).
Proof.
  intros es. exact (cancelled_requests_silent es [EMessage 0 (Some STREAM_DONE_MESSAGE)] EStop
    (MkRequest 1 sample_request 7) I (le_n 1)).
Defined.

(** The updates of a delta, as the callbacks get them. *)
Definition delta_updates (d : option str * option str) : list (StreamChunkType * str) :=
  match fst d with Some s => if truthy_str s then [(ReasoningChunk, s)] else [] | None => [] end ++
  match snd d with Some s => if truthy_str s then [(ContentChunk, s)] else [] | None => [] end.

Definition delta_message (d : option str * option str) : str :=
  stringify (delta_event (fst d) (snd d)).

Lemma decoded_delta (d : option str * option str) :
  decoded_updates (delta_message d) = Ok (delta_updates d).
Proof.
  unfold decoded_updates, delta_message. rewrite decode_delta. destruct d as [r c].
  unfold delta_updates, text_update. simpl.
  by destruct r as [[|]|], c as [[|]|].
Qed.

Lemma delta_not_done (d : option str * option str) :
  isStreamDoneMessage (delta_message d) = false.
Proof. unfold delta_message, delta_event. by rewrite stringify_obj. Qed.

Lemma run_app (es es' : list Event) (c : Controller) :
  run (es ++ es') c =
  let '(c1, out1) := run es c in let '(c2, out2) := run es' c1 in (c2, out1 ++ out2).
Proof.
  revert c. induction es as [|e es IH]; intros c; simpl; [by destruct (run es' c)|].
  destruct (step e c) as [c1 out1]. rewrite IH. destruct (run es c1) as [c2 out2].
  destruct (run es' c2). by rewrite app_assoc.
Qed.

Lemma run_deltas (c : Controller) (i : nat) (s : Stream)
    (ds : list (option str * option str)) :
  current c i s ->
  run (map (fun d => EMessage i (Some (delta_message d))) ds) c =
  (c, flat_map (fun d => map (fun u => (s_request s, OnUpdate (fst u) (snd u)))
                           (delta_updates d)) ds).
Proof.
  intros (Hs & Hsrc & Hg & Hc). induction ds as [|d ds IH]; [done|].
  cbn [map run step flat_map]. unfold onMessage. rewrite Hs.
  assert (Hcur : negb (isCurrent i s c) || completed s = false).
  { unfold isCurrent. rewrite Hc, orb_false_r. apply negb_false_iff.
    rewrite (bool_decide_eq_true_2 _ Hsrc), andb_true_r. apply Nat.eqb_eq.
    by rewrite <- Hg. }
  rewrite Hcur. simpl nullish. rewrite delta_not_done, decoded_delta. by rewrite IH.
Qed.

Lemma flat_map_map_in {A B C} (f : B -> C) (g : A -> list B) (l : list A) :
  flat_map (fun x => map f (g x)) l = map f (flat_map g l).
Proof. induction l as [|x l IH]; [done|]. simpl. by rewrite map_app, IH. Qed.

(** A stream that is not interrupted delivers everything: from the start,
    a send whose headers arrive, whose source sends any number of deltas and
    then the end marker, calls its callbacks with exactly the non-empty texts
    of the deltas, in order, and then completes, and leaves no open source. *)
Theorem stream_delivers (p : ChatCompletionRequest) (cb : nat)
    (ds : list (option str * option str)) :
  let es := [ESend p cb; EHeaders 0 (HeadersOk false)] ++
            map (fun d => EMessage 0 (Some (delta_message d))) ds ++
            [EMessage 0 (Some STREAM_DONE_MESSAGE)] in
  let r := MkRequest 1 p cb in
  snd (after es) =
    map (fun u => (r, OnUpdate (fst u) (snd u))) (flat_map delta_updates ds) ++ [(r, OnComplete)] /\
  source (fst (after es)) = None /\ isStreaming (fst (after es)) = false /\
  Forall (fun s => closed s = true) (streams (fst (after es))).
Proof.
  intros es r. subst es. unfold after.
  set (s := MkStream r false false).
  set (c := MkController (Some 0) 1 [] [s] true).
  assert (Hrun : run [ESend p cb; EHeaders 0 (HeadersOk false)] createStreamRequestController
    = (c, [])) by done.
  rewrite run_app, Hrun, run_app, (run_deltas c 0 s) by done.
  cbn [run]. change (step (EMessage 0 (Some STREAM_DONE_MESSAGE)) c) with
    (closeActiveSource 0 (set_completed 0 c), [(r, OnComplete)]).
  cbn [fst snd app]. split_and!; [|done|done|by repeat constructor].
  f_equal. apply flat_map_map_in.
Qed.
