(* ===== verification/ChatSession.v ===== *)
(** * Chat sessions

    Models [hooks/use-chat-handler.ts] of the playground
    ([src/web/src/features/playground/]) on top of the stream controller, with
    the operations of [hooks/use-playground-conversation.ts] and
    [hooks/use-message-action-guard.ts] that drive it.

    The refs of the hooks are fields of a [Session].  An update of the message
    list is a function that React runs later: it is queued as a value of
    [MessageUpdate] and applied, in order, by [applyNext], which reads the
    generation that is current then, as the code does.  Requests without
    streaming and their abort controllers are named by the generation that made
    them.  Everything the runtime does later is a step: the flush timer, the
    events of the controller, the response of a request. *)

From stdpp Require Import base list.
From Stdlib Require Import ZArith NArith Lia.
From S2P Require Import Prelude JsString JsArray JsJson Messages MessageLaws.
From S2P Require Import PlaygroundRequest StreamController.

(** ** State *)

Record PendingStreamChunks : Type := Pending {
  p_generation : nat;
  p_content : str;
  p_reasoning : str;
}.

(** The functions that the hooks pass to [onMessageUpdate] and
    [updateMessages]. *)
Inductive MessageUpdate : Type :=
  | UFlush (generation : nat) (chunks : PendingStreamChunks)
  | UComplete (generation : nat)
  | UError (generation : nat) (displayError : str) (code : option str) (title : str)
  | UResponse (generation : nat) (response : ChatCompletionResponse)
  | UStop (idleGeneration : nat)
  | USet (messages : list Message)
  | URemove (key : str).

Record Session : Type := MkSession {
  requestGeneration : nat;
  abortRef : option nat;
  pendingChunks : PendingStreamChunks;
  flushTimer : option nat;           (** the generation its callback flushes *)
  isRequesting : bool;
  aborted : list nat;                (** the signals that are aborted *)
  inflight : list (nat * ChatCompletionRequest);  (** the requests that wait for a response *)
  updates : list MessageUpdate;      (** not yet applied, oldest first *)
  messages : list Message;
  editingMessageKey : option str;
  toasts : list str;
  controller : Controller;
}.

Definition with_requestGeneration (g : nat) (s : Session) : Session :=
  MkSession g (abortRef s) (pendingChunks s) (flushTimer s) (isRequesting s) (aborted s)
    (inflight s) (updates s) (messages s) (editingMessageKey s) (toasts s) (controller s).

Definition with_pending (p : PendingStreamChunks) (s : Session) : Session :=
  MkSession (requestGeneration s) (abortRef s) p (flushTimer s) (isRequesting s) (aborted s)
    (inflight s) (updates s) (messages s) (editingMessageKey s) (toasts s) (controller s).

Definition with_timer (o : option nat) (s : Session) : Session :=
  MkSession (requestGeneration s) (abortRef s) (pendingChunks s) o (isRequesting s) (aborted s)
    (inflight s) (updates s) (messages s) (editingMessageKey s) (toasts s) (controller s).

Definition setIsRequesting (b : bool) (s : Session) : Session :=
  MkSession (requestGeneration s) (abortRef s) (pendingChunks s) (flushTimer s) b (aborted s)
    (inflight s) (updates s) (messages s) (editingMessageKey s) (toasts s) (controller s).

Definition with_inflight (l : list (nat * ChatCompletionRequest)) (s : Session) : Session :=
  MkSession (requestGeneration s) (abortRef s) (pendingChunks s) (flushTimer s) (isRequesting s)
    (aborted s) l (updates s) (messages s) (editingMessageKey s) (toasts s) (controller s).

Definition with_abortRef (o : option nat) (s : Session) : Session :=
  MkSession (requestGeneration s) o (pendingChunks s) (flushTimer s) (isRequesting s) (aborted s)
    (inflight s) (updates s) (messages s) (editingMessageKey s) (toasts s) (controller s).

Definition with_controller (c : Controller) (s : Session) : Session :=
  MkSession (requestGeneration s) (abortRef s) (pendingChunks s) (flushTimer s) (isRequesting s)
    (aborted s) (inflight s) (updates s) (messages s) (editingMessageKey s) (toasts s) c.

(** [onMessageUpdate(update)]. *)
Definition onMessageUpdate (u : MessageUpdate) (s : Session) : Session :=
  MkSession (requestGeneration s) (abortRef s) (pendingChunks s) (flushTimer s) (isRequesting s)
    (aborted s) (inflight s) (updates s ++ [u]) (messages s) (editingMessageKey s) (toasts s)
    (controller s).

(** [toast.error(message)] and [toast.warning(message)]. *)
Definition toast (m : str) (s : Session) : Session :=
  MkSession (requestGeneration s) (abortRef s) (pendingChunks s) (flushTimer s) (isRequesting s)
    (aborted s) (inflight s) (updates s) (messages s) (editingMessageKey s) (toasts s ++ [m])
    (controller s).

Definition setEditingMessageKey (k : option str) (s : Session) : Session :=
  MkSession (requestGeneration s) (abortRef s) (pendingChunks s) (flushTimer s) (isRequesting s)
    (aborted s) (inflight s) (updates s) (messages s) k (toasts s) (controller s).

(** [abortControllerRef.current?.abort(); abortControllerRef.current = o]. *)
Definition abort_and_set (o : option nat) (s : Session) : Session :=
  MkSession (requestGeneration s) o (pendingChunks s) (flushTimer s) (isRequesting s)
    (match abortRef s with Some a => a :: aborted s | None => aborted s end)
    (inflight s) (updates s) (messages s) (editingMessageKey s) (toasts s) (controller s).

Definition initialSession (ms : list Message) : Session :=
  MkSession 0 None (Pending 0 [] []) None false [] [] [] ms None [] createStreamRequestController.

(** ** Buffered chunks *)

Definition mergePendingStreamChunk (currentChunk nextChunk : str) : str :=
  if negb (truthy_str currentChunk) || negb (startsWith nextChunk currentChunk)
  then currentChunk ++ nextChunk
  else nextChunk.

Definition discardPendingStreamUpdates (g : nat) (s : Session) : Session :=
  with_pending (Pending g [] []) (with_timer None s).

Definition flushStreamUpdates (g : nat) (s : Session) : Session :=
  if negb (g =? requestGeneration s)%nat then s
  else
    let s := with_timer None s in
    let chunks := pendingChunks s in
    if negb (p_generation chunks =? g)%nat then s
    else if negb (truthy_str (p_reasoning chunks)) && negb (truthy_str (p_content chunks)) then s
    else onMessageUpdate (UFlush g chunks) (with_pending (Pending g [] []) s).

Definition scheduleStreamFlush (g : nat) (s : Session) : Session :=
  if negb (g =? requestGeneration s)%nat then s
  else match flushTimer s with Some _ => s | None => with_timer (Some g) s end.

(** ** Callbacks of a request *)

Definition handleStreamUpdate (g : nat) (type : StreamChunkType) (chunk : str) (s : Session)
    : Session :=
  if negb (g =? requestGeneration s)%nat then s
  else
    let p := pendingChunks s in
    if negb (p_generation p =? g)%nat then s
    else
      let p' :=
        match type with
        | ReasoningChunk =>
            Pending (p_generation p) (p_content p) (mergePendingStreamChunk (p_reasoning p) chunk)
        | ContentChunk =>
            Pending (p_generation p) (mergePendingStreamChunk (p_content p) chunk) (p_reasoning p)
        end in
      scheduleStreamFlush g (with_pending p' s).

Definition handleStreamComplete (g : nat) (s : Session) : Session :=
  if negb (g =? requestGeneration s)%nat then s
  else onMessageUpdate (UComplete g) (setIsRequesting false (flushStreamUpdates g s)).

Section translated.
Context (t : str -> str).

Definition getDisplayError (error : str) : str :=
  if mem_str error ERROR_MESSAGES then t error
  else if endsWith error (": " ++ CONNECTION_CLOSED) then
    slice error 0 (- strlen CONNECTION_CLOSED) ++ t CONNECTION_CLOSED
  else error.

Definition handleStreamError (g : nat) (error : str) (code : option str) (s : Session)
    : Session :=
  if negb (g =? requestGeneration s)%nat then s
  else
    let s := setIsRequesting false (flushStreamUpdates g s) in
    let displayError := getDisplayError error in
    onMessageUpdate (UError g displayError code (t API_REQUEST_ERROR)) (toast displayError s).

(** A call of the controller on the callbacks of [sendStreamingChat]. *)
Definition deliver (call : Call) (s : Session) : Session :=
  let g := r_callbacks (fst call) in
  match snd call with
  | OnUpdate type chunk => handleStreamUpdate g type chunk s
  | OnComplete => handleStreamComplete g s
  | OnError error code => handleStreamError g error code s
  end.

(** A step of the controller, with the calls it makes. *)
Definition drive (e : Event) (s : Session) : Session :=
  let '(c, calls) := step e (controller s) in
  fold_left (fun s call => deliver call s) calls (with_controller c s).

(** ** Requests *)

Definition stopStream (s : Session) : Session := drive EStop s.

Definition sendStreamingChat (ms : list Message) (config : PlaygroundConfig)
    (parameterEnabled : ParameterEnabled) (s : Session) : Session :=
  let g := S (requestGeneration s) in
  let s := abort_and_set None (with_requestGeneration g s) in
  let s := setIsRequesting true (discardPendingStreamUpdates g s) in
  drive (ESend (buildChatCompletionPayload ms config parameterEnabled) g) s.

(** [sendNonStreamingChat] up to the wait for the response. *)
Definition sendNonStreamingChat (ms : list Message) (config : PlaygroundConfig)
    (parameterEnabled : ParameterEnabled) (s : Session) : Session :=
  let payload := buildChatCompletionPayload ms config parameterEnabled in
  let g := S (requestGeneration s) in
  let s := stopStream (with_requestGeneration g s) in
  let s := discardPendingStreamUpdates g s in
  let s := setIsRequesting true (abort_and_set (Some g) s) in
  with_inflight (inflight s ++ [(g, payload)]) s.

(** The [finally] block. *)
Definition finish_request (g : nat) (s : Session) : Session :=
  if (requestGeneration s =? g)%nat then setIsRequesting false (with_abortRef None s) else s.

Inductive ResponseResult : Type :=
  | Responded (response : ChatCompletionResponse)
  | Failed (error : RequestErrorLike).

(** [sendNonStreamingChat] after the wait, for a request in flight. *)
Definition respond (g : nat) (result : ResponseResult) (s : Session) : Session :=
  if negb (existsb (fun x => (fst x =? g)%nat) (inflight s)) then s
  else
    let s := with_inflight (List.filter (fun x => negb (fst x =? g)%nat) (inflight s)) s in
    let stale := existsb (Nat.eqb g) (aborted s) || negb (requestGeneration s =? g)%nat in
    finish_request g
      (if stale then s
       else
         match result with
         | Responded response =>
             if negb (hasChatCompletionChoice response)
             then handleStreamError g API_REQUEST_ERROR None s
             else onMessageUpdate (UResponse g response) s
         | Failed error =>
             let details := parseRequestErrorDetails error in
             handleStreamError g (rd_message details) (rd_code details) s
         end).

Definition sendChat (ms : list Message) (config : PlaygroundConfig)
    (parameterEnabled : ParameterEnabled) (s : Session) : Session :=
  if stream config then sendStreamingChat ms config parameterEnabled s
  else sendNonStreamingChat ms config parameterEnabled s.

Definition stopGeneration (s : Session) : Session :=
  let stoppedGeneration := requestGeneration s in
  let s := flushStreamUpdates stoppedGeneration s in
  let idleGeneration := S stoppedGeneration in
  let s := discardPendingStreamUpdates idleGeneration (with_requestGeneration idleGeneration s) in
  let s := abort_and_set None (stopStream s) in
  onMessageUpdate (UStop idleGeneration) (setIsRequesting false s).

Definition isGenerating (s : Session) : bool := isStreaming (controller s) || isRequesting s.

(** The cleanups of [useStreamRequest] and [useChatHandler]. *)
Definition unmount (s : Session) : Session :=
  let s := drive EDispose s in
  abort_and_set None (with_timer None (with_requestGeneration (S (requestGeneration s)) s)).

(** The flush timer fires. *)
Definition fireTimer (s : Session) : Session :=
  match flushTimer s with Some g => flushStreamUpdates g s | None => s end.

(** ** Application of the updates *)

(** [now i] is the reading of the [i]-th call of [Date.now] in the update. *)
Definition applyUpdate (current : nat) (now : nat -> Z) (u : MessageUpdate)
    (prev : list Message) : list Message :=
  match u with
  | UFlush g chunks =>
      if negb (g =? current)%nat then prev
      else
        updateLastAssistantMessage prev (fun m =>
          let m := if truthy_str (p_reasoning chunks)
                   then applyStreamingChunk m ReasoningChunk (p_reasoning chunks) (now 0) (now 1)
                   else m in
          if truthy_str (p_content chunks)
          then applyStreamingChunk m ContentChunk (p_content chunks) (now 2) (now 3)
          else m)
  | UComplete g =>
      if negb (g =? current)%nat then prev
      else
        updateLastAssistantMessage prev (fun m =>
          if isAssistantMessageFinal m then m
          else completeAssistantMessage m (now 0) (now 1) (now 2))
  | UError g displayError code title =>
      if negb (g =? current)%nat then prev
      else updateAssistantMessageWithError prev displayError code (Some title) (now 0)
  | UResponse g response =>
      if negb (current =? g)%nat then prev
      else
        updateLastAssistantMessage prev (fun m =>
          nullish (applyChatCompletionResponse m response (now 0) (now 1) (now 2)) m)
  | UStop idle =>
      if negb (current =? idle)%nat then prev
      else
        updateLastAssistantMessage prev (fun m =>
          if isAssistantMessagePending m
          then completeAssistantMessage m (now 0) (now 1) (now 2) else m)
  | USet ms => ms
  | URemove key => removeMessageByKey prev key
  end.

(** React runs the oldest update. *)
Definition applyNext (now : nat -> Z) (s : Session) : Session :=
  match updates s with
  | [] => s
  | u :: us =>
      MkSession (requestGeneration s) (abortRef s) (pendingChunks s) (flushTimer s)
        (isRequesting s) (aborted s) (inflight s) us
        (applyUpdate (requestGeneration s) now u (messages s)) (editingMessageKey s) (toasts s)
        (controller s)
  end.

(** React runs all of them. *)
Fixpoint applyAll (now : nat -> Z) (n : nat) (s : Session) : Session :=
  match n with O => s | S k => applyAll now k (applyNext now s) end.

(** ** The conversation *)

Definition handleSendMessage (text : str) (ids : str * str * (str * str)) (now : Z)
    (config : PlaygroundConfig) (enabled : ParameterEnabled) (s : Session) : Session :=
  let nextMessages := appendUserMessagePair (messages s) text ids now in
  sendChat nextMessages config enabled (onMessageUpdate (USet nextMessages) s).

Definition handleRegenerateMessage (key : str) (ids : str * str) (now : Z)
    (config : PlaygroundConfig) (enabled : ParameterEnabled) (s : Session) : Session :=
  match createRegeneratedMessages (messages s) key ids now with
  | None => s
  | Some nextMessages =>
      sendChat nextMessages config enabled (onMessageUpdate (USet nextMessages) s)
  end.

Definition handleEditMessage (key : str) (s : Session) : Session :=
  setEditingMessageKey (Some key) s.

Definition handleEditOpenChange (isOpen : bool) (s : Session) : Session :=
  if negb isOpen then setEditingMessageKey None s else s.

Definition applyEdit (newContent : str) (shouldSubmit : bool) (ids : str * str) (now : Z)
    (config : PlaygroundConfig) (enabled : ParameterEnabled) (s : Session) : Session :=
  match editingMessageKey s with
  | None | Some [] => s
  | Some key =>
      match applyMessageEdit (messages s) key newContent shouldSubmit ids now with
      | None => s
      | Some result =>
          let s := onMessageUpdate (USet (er_messages result)) (setEditingMessageKey None s) in
          if shouldSend result then sendChat (er_messages result) config enabled s else s
      end
  end.

Definition handleDeleteMessage (key : str) (s : Session) : Session :=
  onMessageUpdate (URemove key) s.

Definition WAIT_GENERATION : str := "Please wait for the current generation to complete".

(** [guardAction(action)()] of [useMessageActionGuard]. *)
Definition guardAction (action : Session -> Session) (s : Session) : Session :=
  if isGenerating s then toast (t WAIT_GENERATION) s else action s.

(** ** Steps *)

(** What the runtime does: the timer, the sources and header requests of the
    controller, the responses, and React. *)
Inductive RuntimeEvent : Type :=
  | RTimer
  | RHeaders (i : nat) (result : HeadersResult)
  | RMessage (i : nat) (data : option str)
  | RError (i : nat) (data : option str) (readyState : option Z)
  | RReadyState (i : nat) (readyState status : option Z)
  | RResponse (g : nat) (result : ResponseResult)
  | RApply (now : nat -> Z).

(** What the user does. *)
Inductive UserEvent : Type :=
  | USendMessage (text : str) (ids : str * str * (str * str)) (now : Z)
      (config : PlaygroundConfig) (enabled : ParameterEnabled)
  | URegenerate (key : str) (ids : str * str) (now : Z)
      (config : PlaygroundConfig) (enabled : ParameterEnabled)
  | UEdit (key : str)
  | UEditOpenChange (isOpen : bool)
  | UApplyEdit (newContent : str) (shouldSubmit : bool) (ids : str * str) (now : Z)
      (config : PlaygroundConfig) (enabled : ParameterEnabled)
  | UDelete (key : str)
  | UStopGeneration.

Definition runtime_step (e : RuntimeEvent) (s : Session) : Session :=
  match e with
  | RTimer => fireTimer s
  | RHeaders i result => drive (EHeaders i result) s
  | RMessage i data => drive (EMessage i data) s
  | RError i data readyState => drive (EError i data readyState) s
  | RReadyState i readyState status => drive (EReadyState i readyState status) s
  | RResponse g result => respond g result s
  | RApply now => applyNext now s
  end.

Definition user_step (e : UserEvent) (s : Session) : Session :=
  match e with
  | USendMessage text ids now config enabled => handleSendMessage text ids now config enabled s
  | URegenerate key ids now config enabled =>
      handleRegenerateMessage key ids now config enabled s
  | UEdit key => handleEditMessage key s
  | UEditOpenChange isOpen => handleEditOpenChange isOpen s
  | UApplyEdit newContent shouldSubmit ids now config enabled =>
      applyEdit newContent shouldSubmit ids now config enabled s
  | UDelete key => handleDeleteMessage key s
  | UStopGeneration => stopGeneration s
  end.

Inductive session : Session -> Prop :=
  | session_init ms : session (initialSession ms)
  | session_runtime e s : session s -> session (runtime_step e s)
  | session_user e s : session s -> session (user_step e s).
End translated.
