(* ===== verification/SessionLaws.v ===== *)
(** * Laws of chat sessions

    Proofs about [ChatSession]: an invariant of every reachable session, by
    induction on its steps; that stopping is final; that a failed answer stays
    failed; and how buffered chunks reach the message. *)

From stdpp Require Import base list.
From Stdlib Require Import ZArith NArith Lia.
From S2P Require Import Prelude JsString JsArray JsJson Messages MessageLaws.
From S2P Require Import PlaygroundRequest StreamController ChatSession.

(** ** Live requests *)

(** The request waits for its headers or is being streamed, and is the latest. *)
Definition live (r : Request) (c : Controller) : Prop :=
  (r ∈ waiting c /\ r_generation r = generation c) \/
  exists i st, source c = Some i /\ streams c !! i = Some st /\ s_request st = r.

Definition ended (r : Request) (calls : list Call) : Prop :=
  exists e, (r, e) ∈ calls /\ final e = true.

Lemma ended_app (r : Request) (a b : list Call) : ended r a \/ ended r b -> ended r (a ++ b).
Proof. intros [(e & Hin & He)|(e & Hin & He)]; exists e; rewrite elem_of_app; auto. Qed.

Lemma waiting_same_gen (tr : list Call) (c : Controller) (i : nat) (r r' : Request) :
  inv tr c -> waiting c !! i = Some r -> r' ∈ waiting c ->
  r_generation r = r_generation r' -> r' = r.
Proof.
  intros Hi Hr Hr' Hg. apply list_elem_of_lookup in Hr' as [j Hj].
  pose proof (inv_unique _ _ Hi) as Hu. apply NoDup_app in Hu as (Hu & _ & _).
  assert (i = j) as ->.
  { eapply (NoDup_lookup _ i j (r_generation r)); [exact Hu|..];
      rewrite list_lookup_fmap; [by rewrite Hr|by rewrite Hj, Hg]. }
  congruence.
Qed.

Lemma elem_of_delete_ne {A} (i : nat) (x y : A) (l : list A) :
  l !! i = Some x -> y ∈ l -> y <> x -> y ∈ delete i l.
Proof.
  intros Hx Hy Hne. apply delete_Permutation in Hx. rewrite Hx in Hy.
  by apply elem_of_cons in Hy as [?|?].
Qed.

Lemma live_quiet (tr : list Call) (c c' : Controller) (out : list Call) (r : Request) :
  inv tr c -> live r c -> quiet c out c' -> live r c' \/ ended r out.
Proof.
  intros Hi Hl Hq. destruct Hq as [|i s us|i s e Hc He|i Hn|i r' m Hw Hg|i r' Hw Hg]; auto.
  - right. exists e. destruct Hc as (Hs & Hsrc & Hg & _). split; [|done].
    assert (r = s_request s) as ->; [|by left].
    destruct Hl as [[Hw Hr]|(j & st & Hj & Hst & <-)]; [|congruence].
    exfalso. pose proof (inv_unique _ _ Hi) as Hu. apply NoDup_app in Hu as (_ & Hd & _).
    apply (Hd (r_generation r)); [by apply (list_elem_of_fmap_2 r_generation)|].
    rewrite Hr, <- Hg. by apply (list_elem_of_fmap_2 stream_gen), list_elem_of_lookup_2 with i.
  - left. destruct Hl as [[Hw Hr]|Hs]; [left|by right]. split; [|done]. simpl.
    destruct (waiting c !! i) as [r'|] eqn:Hr'.
    + eapply elem_of_delete_ne; [exact Hr'|exact Hw|]. intros ->. by apply (Hn r').
    + apply lookup_ge_None in Hr'.
      by rewrite delete_take_drop, take_ge, drop_ge, app_nil_r by lia.
  - destruct (waiting_fresh tr c i r' Hi Hw Hg) as (_ & Hnone & _).
    destruct Hl as [[Hin Hr]|(j & st & Hj & _)]; [|congruence].
    right. exists (OnError m None). split; [|done].
    rewrite (waiting_same_gen tr c i r' r Hi Hw Hin) by congruence. by left.
  - destruct (waiting_fresh tr c i r' Hi Hw Hg) as (_ & Hnone & _).
    destruct Hl as [[Hin Hr]|(j & st & Hj & _)]; [|congruence].
    left. right. exists (length (streams c)), (MkStream r' false false). simpl.
    rewrite (waiting_same_gen tr c i r' r Hi Hw Hin) by congruence.
    split_and!; [done| |done]. by apply list_lookup_middle.
Qed.

Lemma live_runtime (tr : list Call) (e : Event) (c : Controller) (r : Request) :
  runtime e = true -> inv tr c -> live r c ->
  live r (fst (step e c)) \/ ended r (snd (step e c)).
Proof.
  intros He Hi Hl.
  pose proof (runtime_kept (fun out c => (exists tr, inv tr c) /\ (live r c \/ ended r out)))
    as Hk.
  specialize (Hk) with (tr := []) (e := e) (c := c).
  destruct (step e c) as [c' out]. apply Hk; [|done|by split; [eexists|left]].
  clear. intros out1 c out c' [[tr Hi] Hl] Hq. split; [eexists; by eapply inv_quiet|].
  destruct Hl as [Hl|Hl]; [|right; apply ended_app; by left].
  destruct (live_quiet tr c c' out r Hi Hl Hq); [by left|right; apply ended_app; by right].
Qed.

(** ** The invariant of a session *)

Definition buffered (s : Session) : Prop :=
  p_content (pendingChunks s) <> [] \/ p_reasoning (pendingChunks s) <> [].

(** What a spinner waits for. *)
Definition outstanding (s : Session) : Prop :=
  (exists r, live r (controller s) /\ r_callbacks r = requestGeneration s) \/
  exists p, (requestGeneration s, p) ∈ inflight s.

Definition owned (g : nat) (c : Controller) : Prop :=
  Forall (fun r => (r_callbacks r <= g)%nat) (waiting c) /\
  Forall (fun st => (r_callbacks (s_request st) <= g)%nat) (streams c).

Record chunks_ok (s : Session) : Prop := {
  ck_pending : p_generation (pendingChunks s) = requestGeneration s;
  ck_timer : forall g, flushTimer s = Some g -> g = requestGeneration s;
  ck_buffer : buffered s -> flushTimer s = Some (requestGeneration s);
}.

Record session_inv (s : Session) : Prop := {
  si_controller : exists tr, inv tr (controller s);
  si_chunks : chunks_ok s;
  si_spinner : isRequesting s = true -> outstanding s;
  si_owned : owned (requestGeneration s) (controller s);
  si_inflight : Forall (fun x => (fst x <= requestGeneration s)%nat) (inflight s);
}.

(** *** What the handlers change *)

(** The fields that only sends and stops write. *)
Definition frame (s s' : Session) : Prop :=
  requestGeneration s' = requestGeneration s /\ controller s' = controller s /\
  inflight s' = inflight s /\ (isRequesting s' = true -> isRequesting s = true) /\
  editingMessageKey s' = editingMessageKey s /\ messages s' = messages s.

#[export] Instance frame_preorder : PreOrder frame.
Proof.
  split; [by intros s; split_and!|].
  intros s1 s2 s3 (? & ? & ? & ? & ? & ?) (? & ? & ? & ? & ? & ?).
  split_and!; try congruence. auto.
Qed.

Lemma flush_frame (g : nat) (s : Session) : frame s (flushStreamUpdates g s).
Proof. unfold flushStreamUpdates. repeat js_case; done. Qed.

Lemma flush_chunks (g : nat) (s : Session) : chunks_ok s -> chunks_ok (flushStreamUpdates g s).
Proof.
  intros [Hp Ht Hb]. unfold flushStreamUpdates.
  destruct (Nat.eqb_spec g (requestGeneration s)) as [->|]; [|done]. simpl.
  rewrite Hp, Nat.eqb_refl. simpl.
  destruct (negb _ && negb _) eqn:E; split; try done.
  - apply andb_true_iff in E as [Hr Hc]. apply negb_true_iff in Hr, Hc.
    apply truthy_str_false in Hr, Hc. unfold buffered. simpl. by intros [?|?].
  - unfold buffered. simpl. by intros [?|?].
Qed.

Lemma schedule_frame (g : nat) (s : Session) : frame s (scheduleStreamFlush g s).
Proof. unfold scheduleStreamFlush. js_case; [done|]. by destruct (flushTimer s). Qed.

Lemma deliver_frame (t : str -> str) (call : Call) (s : Session) : frame s (deliver t call s).
Proof.
  unfold deliver. destruct (snd call) as [ty chunk| |error code].
  - unfold handleStreamUpdate. do 2 (js_case; [done|]).
    etransitivity; [|apply schedule_frame]. done.
  - unfold handleStreamComplete. js_case; [done|].
    etransitivity; [apply (flush_frame (r_callbacks (fst call)))|]. by split_and!.
  - unfold handleStreamError. js_case; [done|].
    etransitivity; [apply (flush_frame (r_callbacks (fst call)))|]. by split_and!.
Qed.

Lemma deliver_chunks (t : str -> str) (call : Call) (s : Session) :
  chunks_ok s -> chunks_ok (deliver t call s).
Proof.
  intros Hk. unfold deliver. set (g := r_callbacks (fst call)).
  destruct (snd call) as [ty chunk| |error code].
  - unfold handleStreamUpdate.
    destruct (Nat.eqb_spec g (requestGeneration s)) as [->|]; [|done]. simpl.
    destruct Hk as [Hp Ht Hb]. rewrite Hp, Nat.eqb_refl. simpl.
    unfold scheduleStreamFlush. simpl. rewrite Nat.eqb_refl. simpl.
    destruct (flushTimer s) as [g'|] eqn:E.
    + pose proof (Ht g' eq_refl). destruct ty; split; simpl; try done; congruence.
    + destruct ty; split; simpl; try done; congruence.
  - unfold handleStreamComplete. js_case; [done|].
    by destruct (flush_chunks g s Hk) as [? ? ?].
  - unfold handleStreamError. js_case; [done|].
    by destruct (flush_chunks g s Hk) as [? ? ?].
Qed.

(** A final call on the current generation stops the spinner. *)
Lemma deliver_final (t : str -> str) (r : Request) (e : Callback) (s : Session) :
  final e = true -> r_callbacks r = requestGeneration s ->
  isRequesting (deliver t (r, e) s) = false.
Proof.
  intros He Hr. unfold deliver. simpl. destruct e; [done|..];
    unfold handleStreamComplete, handleStreamError; by rewrite Hr, Nat.eqb_refl.
Qed.

Definition deliver_all (t : str -> str) (calls : list Call) (s : Session) : Session :=
  fold_left (fun s call => deliver t call s) calls s.

Lemma deliver_all_frame (t : str -> str) (calls : list Call) (s : Session) :
  frame s (deliver_all t calls s).
Proof.
  revert s. induction calls as [|call calls IH]; intros s; [done|].
  etransitivity; [apply (deliver_frame t call)|apply IH].
Qed.

Lemma deliver_all_chunks (t : str -> str) (calls : list Call) (s : Session) :
  chunks_ok s -> chunks_ok (deliver_all t calls s).
Proof.
  revert s. induction calls as [|call calls IH]; intros s Hk; [done|].
  by apply IH, deliver_chunks.
Qed.

Lemma deliver_all_ended (t : str -> str) (calls : list Call) (r : Request) (s : Session) :
  ended r calls -> r_callbacks r = requestGeneration s ->
  isRequesting (deliver_all t calls s) = false.
Proof.
  intros (e & Hin & He) Hr. apply list_elem_of_split in Hin as (a & b & ->).
  unfold deliver_all. rewrite fold_left_app. simpl. fold (deliver_all t a s).
  set (s1 := deliver_all t a s).
  pose proof (deliver_all_frame t b (deliver t (r, e) s1)) as (_ & _ & _ & Hq & _).
  fold (deliver_all t b (deliver t (r, e) s1)).
  destruct (isRequesting (deliver_all t b (deliver t (r, e) s1))) eqn:E; [|done].
  specialize (Hq eq_refl). rewrite deliver_final in Hq; [done|done|].
  pose proof (deliver_all_frame t a s) as (Hg & _). fold s1 in Hg. by rewrite Hg.
Qed.

(** *** Steps of the controller *)

Lemma owned_mono (g g' : nat) (c : Controller) : (g <= g')%nat -> owned g c -> owned g' c.
Proof.
  intros Hg [H1 H2]. split; (eapply Forall_impl; [eassumption|]); simpl; lia.
Qed.

Lemma owned_close_opt (g : nat) (o : option nat) (c : Controller) :
  owned g c -> owned g (close_opt o c).
Proof.
  intros [H1 H2]. destruct o as [i|]; [|done]. split; [done|]. cbn [close_opt].
  rewrite streams_close. apply Forall_alter; [done|]. intros x Hx Hr. exact Hr.
Qed.

Lemma Forall_delete_index {A} (P : A -> Prop) (i : nat) (l : list A) :
  Forall P l -> Forall P (delete i l).
Proof. intros H. apply (Forall_sublist P _ l); [apply sublist_delete|done]. Qed.

Lemma owned_quiet (g : nat) (c c' : Controller) (out : list Call) :
  owned g c -> quiet c out c' ->
  owned g c' /\ Forall (fun call => (r_callbacks (fst call) <= g)%nat) out.
Proof.
  intros [H1 H2] Hq. destruct Hq as [|i s us Hc|i s e Hc He|i Hn|i r m Hw Hg|i r Hw Hg].
  - done.
  - split; [done|]. apply Forall_map, Forall_true. intros u. simpl.
    destruct Hc as [Hs _]. by eapply Forall_lookup_1 in H2.
  - destruct Hc as (Hs & Hsrc & _). rewrite closeActive_eq by done. split.
    + split; [done|]. simpl. apply Forall_alter; [done|]. intros x _ Hx. exact Hx.
    + constructor; [|done]. simpl. by eapply Forall_lookup_1 in H2.
  - split; [|done]. split; [|done]. by apply Forall_delete_index.
  - split; [split; [by apply Forall_delete_index|done]|]. constructor; [|done]. simpl.
    by eapply Forall_lookup_1 in H1.
  - split; [|done]. split; simpl; [by apply Forall_delete_index|].
    apply Forall_app. split; [done|]. constructor; [|done]. simpl.
    by eapply Forall_lookup_1 in H1.
Qed.

Lemma controller_step (tr : list Call) (e : Event) (c : Controller) (g : nat) :
  runtime e = true -> inv tr c -> owned g c ->
  (exists tr', inv tr' (fst (step e c))) /\ owned g (fst (step e c)) /\
  Forall (fun call => (r_callbacks (fst call) <= g)%nat) (snd (step e c)).
Proof.
  intros He Hi Ho.
  pose proof (runtime_kept (fun out c => (exists tr, inv tr c) /\ owned g c /\
    Forall (fun call => (r_callbacks (fst call) <= g)%nat) out)) as Hk.
  specialize (Hk) with (tr := []) (e := e) (c := c).
  destruct (step e c) as [c' out]. apply Hk; [|done|by split; [eexists|]].
  clear. intros out1 c out c' ([tr Hi] & Ho & Hf) Hq.
  destruct (owned_quiet g c c' out Ho Hq) as [Ho' Hf'].
  split_and!; [eexists; by eapply inv_quiet|done|by apply Forall_app].
Qed.

Lemma drive_eq (t : str -> str) (e : Event) (s : Session) :
  drive t e s = deliver_all t (snd (step e (controller s)))
                  (with_controller (fst (step e (controller s))) s).
Proof. unfold drive. by destruct (step e (controller s)). Qed.

Lemma chunks_ok_controller (c : Controller) (s : Session) :
  chunks_ok s -> chunks_ok (with_controller c s).
Proof. by intros [? ? ?]. Qed.

Lemma drive_inv (t : str -> str) (e : Event) (s : Session) :
  runtime e = true -> session_inv s -> session_inv (drive t e s).
Proof.
  intros He [[tr Hi] Hk Hs Ho Hf]. rewrite drive_eq.
  destruct (controller_step tr e (controller s) (requestGeneration s) He Hi Ho)
    as (Hi' & Ho' & _).
  set (c' := fst (step e (controller s))) in *. set (calls := snd (step e (controller s))) in *.
  pose proof (deliver_all_frame t calls (with_controller c' s))
    as (Hg & Hc & Hin & Hreq & _). simpl in Hg, Hc, Hin, Hreq.
  split.
  - by rewrite Hc.
  - by apply deliver_all_chunks, chunks_ok_controller.
  - intros Hr. destruct (Hs (Hreq Hr)) as [(r & Hl & Hcb)|(p & Hp)].
    + destruct (live_runtime tr e (controller s) r He Hi Hl) as [Hl'|He'].
      * left. exists r. by rewrite Hc, Hg.
      * rewrite (deliver_all_ended t calls r) in Hr; done.
    + right. exists p. by rewrite Hg, Hin.
  - by rewrite Hc, Hg.
  - by rewrite Hg, Hin.
Qed.

(** *** Other steps *)

(** A step that keeps what the invariant speaks of, but for the spinner, which
    it may stop, and the buffer. *)
Lemma inv_frame (s s' : Session) :
  session_inv s -> chunks_ok s' ->
  requestGeneration s' = requestGeneration s -> controller s' = controller s ->
  inflight s' = inflight s -> (isRequesting s' = true -> isRequesting s = true) ->
  session_inv s'.
Proof.
  intros [Hi _ Hs Ho Hf] Hk Hg Hc Hin Hr. split; rewrite ?Hc, ?Hg, ?Hin; try done.
  intros Hr'. destruct (Hs (Hr Hr')) as [(r & Hl & Hcb)|(p & Hp)].
  - left. exists r. by rewrite Hc, Hg.
  - right. exists p. by rewrite Hg, Hin.
Qed.

Lemma chunks_ok_same (s s' : Session) :
  chunks_ok s -> requestGeneration s' = requestGeneration s ->
  pendingChunks s' = pendingChunks s -> flushTimer s' = flushTimer s -> chunks_ok s'.
Proof.
  intros [Hp Ht Hb] Hg Hpc Hf. split; unfold buffered; rewrite ?Hpc, ?Hg, ?Hf; done.
Qed.

Lemma inv_same (s s' : Session) :
  session_inv s -> requestGeneration s' = requestGeneration s ->
  pendingChunks s' = pendingChunks s -> flushTimer s' = flushTimer s ->
  controller s' = controller s -> inflight s' = inflight s ->
  (isRequesting s' = true -> isRequesting s = true) -> session_inv s'.
Proof.
  intros Hi Hg Hp Hf Hc Hin Hr. apply (inv_frame s); try done.
  apply (chunks_ok_same s); try done. apply Hi.
Qed.

Lemma flush_inv (g : nat) (s : Session) : session_inv s -> session_inv (flushStreamUpdates g s).
Proof.
  intros Hi. destruct (flush_frame g s) as (Hg & Hc & Hin & Hr & _).
  apply (inv_frame s); try done. apply flush_chunks. apply Hi.
Qed.

Lemma applyNext_inv (now : nat -> Z) (s : Session) :
  session_inv s -> session_inv (applyNext now s).
Proof.
  intros Hi. unfold applyNext. destruct (updates s); [done|]. by apply (inv_same s).
Qed.

Lemma handleStreamError_inv (t : str -> str) (g : nat) (error : str) (code : option str)
    (s : Session) :
  session_inv s -> session_inv (handleStreamError t g error code s).
Proof.
  intros Hi. unfold handleStreamError. js_case; [done|].
  apply (flush_inv g) in Hi. by apply (inv_same (flushStreamUpdates g s)).
Qed.

Lemma discard_chunks (g : nat) (s : Session) :
  requestGeneration s = g -> chunks_ok (discardPendingStreamUpdates g s).
Proof. intros Hg. split; [done|done|]. unfold buffered. simpl. by intros [?|?]. Qed.

(** A new generation takes over: the buffer is empty, and what the controller
    and the requests in flight hold is older, but for what the new generation
    started. *)
Lemma inv_new_generation (s s' : Session) :
  session_inv s -> chunks_ok s' -> requestGeneration s' = S (requestGeneration s) ->
  (exists tr, inv tr (controller s')) ->
  owned (S (requestGeneration s)) (controller s') ->
  (inflight s' = inflight s \/ exists p, inflight s' = inflight s ++ [(S (requestGeneration s), p)]) ->
  (isRequesting s' = true -> outstanding s') -> session_inv s'.
Proof.
  intros Hi Hk Hg Hc Ho Hin Hs. split; rewrite ?Hg; try done.
  assert (H : Forall (fun x => (fst x <= S (requestGeneration s))%nat) (inflight s)).
  { eapply Forall_impl; [apply (si_inflight _ Hi)|]. simpl. lia. }
  destruct Hin as [-> |(p & ->)]; [done|]. apply Forall_app. split; [done|]. by repeat constructor.
Qed.

Lemma owned_send (g : nat) (p : ChatCompletionRequest) (cb : nat) (c : Controller) :
  owned g c -> (cb <= g)%nat -> owned g (send p cb c).
Proof.
  intros Ho Hcb. unfold send.
  apply (owned_close_opt g (source c)) in Ho as [H1 H2].
  destruct (source c); simpl in *; (split; [apply Forall_app; split; [done|by repeat constructor]|done]).
Qed.

Lemma owned_cancel (g : nat) (b : bool) (c : Controller) : owned g c -> owned g (cancel b c).
Proof.
  intros Ho. apply (owned_close_opt g (source c)) in Ho as [H1 H2]. unfold cancel.
  cbn [source with_generation]. destruct (source c), b; done.
Qed.

Lemma sendStreaming_inv (t : str -> str) (ms : list Message) (config : PlaygroundConfig)
    (enabled : ParameterEnabled) (s : Session) :
  session_inv s -> session_inv (sendStreamingChat t ms config enabled s).
Proof.
  intros Hi. destruct (si_controller _ Hi) as [tr Ht]. unfold sendStreamingChat.
  rewrite drive_eq. cbn [deliver_all fold_left step fst snd]. set (p := buildChatCompletionPayload _ _ _).
  apply (inv_new_generation s); try done.
  - apply chunks_ok_controller. apply (chunks_ok_same (discardPendingStreamUpdates
      (S (requestGeneration s)) (abort_and_set None
        (with_requestGeneration (S (requestGeneration s)) s)))); try done.
    by apply discard_chunks.
  - exists tr. by apply inv_send.
  - apply owned_send; [|done]. eapply owned_mono; [|apply (si_owned _ Hi)]. lia.
  - by left.
  - intros _. left. exists (MkRequest (S (generation (controller s))) p (S (requestGeneration s))).
    split; [|done]. left. simpl. unfold send.
    destruct (source (controller s)); simpl; (split; [|done]);
      rewrite elem_of_app; right; by left.
Qed.

Lemma stopStream_eq (t : str -> str) (s : Session) :
  stopStream t s = with_controller (stop (controller s)) s.
Proof. unfold stopStream. by rewrite drive_eq. Qed.

Lemma sendNonStreaming_inv (t : str -> str) (ms : list Message) (config : PlaygroundConfig)
    (enabled : ParameterEnabled) (s : Session) :
  session_inv s -> session_inv (sendNonStreamingChat t ms config enabled s).
Proof.
  intros Hi. destruct (si_controller _ Hi) as [tr Ht]. unfold sendNonStreamingChat.
  rewrite stopStream_eq. set (p := buildChatCompletionPayload _ _ _).
  apply (inv_new_generation s); try done.
  - split; [done|done|]. unfold buffered. simpl. by intros [?|?].
  - exists tr. by apply inv_cancel.
  - apply owned_cancel. eapply owned_mono; [|apply (si_owned _ Hi)]. lia.
  - right. by exists p.
  - intros _. right. exists p. simpl. rewrite elem_of_app. right. by left.
Qed.

Lemma sendChat_inv (t : str -> str) (ms : list Message) (config : PlaygroundConfig)
    (enabled : ParameterEnabled) (s : Session) :
  session_inv s -> session_inv (sendChat t ms config enabled s).
Proof.
  intros Hi. unfold sendChat. destruct (stream config);
    [by apply sendStreaming_inv|by apply sendNonStreaming_inv].
Qed.

Lemma stopGeneration_inv (t : str -> str) (s : Session) :
  session_inv s -> session_inv (stopGeneration t s).
Proof.
  intros Hi. pose proof (flush_inv (requestGeneration s) s Hi) as Hf.
  destruct (flush_frame (requestGeneration s) s) as (Hg & Hc & Hin & _).
  destruct (si_controller _ Hf) as [tr Ht]. unfold stopGeneration. rewrite stopStream_eq.
  apply (inv_new_generation (flushStreamUpdates (requestGeneration s) s)); try done.
  - split; [done|done|]. unfold buffered. simpl. by intros [?|?].
  - simpl. by rewrite Hg.
  - exists tr. by apply inv_cancel.
  - apply owned_cancel. eapply owned_mono; [|apply (si_owned _ Hf)]. lia.
  - by left.
Qed.

Lemma handleStreamError_frame (t : str -> str) (g : nat) (error : str) (code : option str)
    (s : Session) : frame s (handleStreamError t g error code s).
Proof.
  unfold handleStreamError. js_case; [done|].
  etransitivity; [apply (flush_frame g)|]. by split_and!.
Qed.

Lemma handleStreamError_chunks (t : str -> str) (g : nat) (error : str) (code : option str)
    (s : Session) : chunks_ok s -> chunks_ok (handleStreamError t g error code s).
Proof.
  intros Hk. unfold handleStreamError. js_case; [done|].
  by destruct (flush_chunks g s Hk) as [? ? ?].
Qed.

(** A response that belongs to an older generation changes nothing but the list
    of requests in flight. *)
Lemma respond_stale (t : str -> str) (g : nat) (result : ResponseResult) (s : Session) :
  requestGeneration s <> g ->
  respond t g result s = s \/
  respond t g result s =
    with_inflight (List.filter (fun x => negb (fst x =? g)%nat) (inflight s)) s.
Proof.
  intros Hg. unfold respond. js_case; [by left|right]. cbn [requestGeneration with_inflight].
  destruct (Nat.eqb_spec (requestGeneration s) g); [done|]. cbn [negb].
  rewrite orb_true_r. unfold finish_request. cbn [requestGeneration with_inflight].
  by destruct (Nat.eqb_spec (requestGeneration s) g).
Qed.

Lemma filter_elem {A} (f : A -> bool) (l : list A) (x : A) :
  x ∈ List.filter f l <-> x ∈ l /\ f x = true.
Proof. rewrite !list_elem_of_In. apply filter_In. Qed.

Lemma respond_inv (t : str -> str) (g : nat) (result : ResponseResult) (s : Session) :
  session_inv s -> session_inv (respond t g result s).
Proof.
  intros Hi. assert (Hfl : Forall (fun x => (fst x <= requestGeneration s)%nat)
    (List.filter (fun x => negb (fst x =? g)%nat) (inflight s))).
  { rewrite Forall_forall. intros x [Hx _]%filter_elem.
    pose proof (si_inflight _ Hi) as H. rewrite Forall_forall in H. by apply H. }
  destruct (decide (requestGeneration s = g)) as [Hg|Hg].
  2:{ destruct (respond_stale t g result s Hg) as [-> | ->]; [done|].
      destruct Hi as [Hc Hk Hs Ho Hf]. split; try done.
      - apply (chunks_ok_same s); done.
      - intros Hr. destruct (Hs Hr) as [Hl|(p & Hp)]; [by left|]. right. exists p. simpl.
        apply filter_elem. split; [done|]. simpl. by destruct (Nat.eqb_spec (requestGeneration s) g). }
  unfold respond. js_case; [done|].
  set (s1 := with_inflight _ s).
  match goal with |- session_inv (finish_request _ ?x) => set (s2 := x) end.
  assert (Hs2 : frame s1 s2 /\ chunks_ok s2).
  { assert (Hk1 : chunks_ok s1) by (apply (chunks_ok_same s); [apply Hi|done..]).
    subst s2. js_case; [done|]. destruct result as [response|error].
    - js_case; [split; [apply handleStreamError_frame|by apply handleStreamError_chunks]|].
      split; [done|]. by apply (chunks_ok_same s1).
    - split; [apply handleStreamError_frame|by apply handleStreamError_chunks]. }
  clearbody s2. destruct Hs2 as [(Hg2 & Hc2 & Hin2 & _) Hk2].
  unfold finish_request. rewrite Hg2. simpl requestGeneration. rewrite Hg, Nat.eqb_refl.
  destruct Hi as [Hc Hk Hs Ho Hf].
  split; simpl; rewrite ?Hc2, ?Hg2, ?Hin2; try done. apply (chunks_ok_same s2); done.
Qed.

Lemma user_inv (t : str -> str) (e : UserEvent) (s : Session) :
  session_inv s -> session_inv (user_step t e s).
Proof.
  intros Hi. destruct e as [text ids now config enabled|key ids now config enabled|key|o
    |text submit ids now config enabled|key|]; cbn [user_step].
  - unfold handleSendMessage. apply sendChat_inv. by apply (inv_same s).
  - unfold handleRegenerateMessage.
    destruct (createRegeneratedMessages _ _ _ _); [|done].
    apply sendChat_inv. by apply (inv_same s).
  - by apply (inv_same s).
  - unfold handleEditOpenChange. js_case; [by apply (inv_same s)|done].
  - unfold applyEdit. destruct (editingMessageKey s) as [[|x k]|]; [done| |done].
    destruct (applyMessageEdit _ _ _ _ _ _) as [r|]; [|done].
    destruct (shouldSend r); [apply sendChat_inv|]; by apply (inv_same s).
  - by apply (inv_same s).
  - by apply stopGeneration_inv.
Qed.

Lemma runtime_inv (t : str -> str) (e : RuntimeEvent) (s : Session) :
  session_inv s -> session_inv (runtime_step t e s).
Proof.
  intros Hi. destruct e; cbn [runtime_step]; try (by apply drive_inv).
  - unfold fireTimer. destruct (flushTimer s); [by apply flush_inv|done].
  - by apply respond_inv.
  - by apply applyNext_inv.
Qed.

Lemma session_invariant (t : str -> str) (s : Session) : session t s -> session_inv s.
Proof.
  induction 1 as [ms|e s _ IH|e s _ IH]; [|by apply runtime_inv|by apply user_inv].
  split; simpl; try done.
  - exists []. apply (after_inv []).
  - split; [done|done|]. unfold buffered. simpl. by intros [?|?].
Qed.

(** C24: The invariant of a chat session, after any sequence of user actions and
    of events of the runtime: text that is buffered belongs to the current
    generation and has a flush scheduled for that generation, so it is
    delivered unless it is superseded; and the spinner of a request is shown
    only while the latest request of the controller waits or streams for the
    current generation, or a request of the current generation is in flight. *)
Theorem session_progress (t : str -> str) (s : Session) :
  session t s ->
  (buffered s ->
   p_generation (pendingChunks s) = requestGeneration s /\
   flushTimer s = Some (requestGeneration s)) /\
  (isRequesting s = true -> outstanding s).
Proof.
  intros Hs%session_invariant. destruct Hs as [_ [Hp Ht Hb] Hr _ _].
  split; [|done]. intros H. split; [done|by apply Hb].
Qed.

Lemma session_progress_witness :
  let s := user_step id (USendMessage "hi" (js "a", js "b", (js "c", js "d")) 1
             DEFAULT_CONFIG DEFAULT_PARAMETER_ENABLED) (initialSession []) in
  isRequesting s = true /\ outstanding s.
Proof.
  intros s. split; [reflexivity|].
  refine (proj2 (session_progress id s _) _); [|reflexivity].
  apply session_user, session_init.
Defined.

(** ** Stopping *)

(** Nothing that the controller still holds can make it call or open anything. *)
Definition controller_idle (c : Controller) : Prop :=
  source c = None /\ isStreaming c = false /\
  Forall (fun r => (r_generation r < generation c)%nat) (waiting c).

Lemma idle_quiet (c c' : Controller) (out : list Call) :
  controller_idle c -> quiet c out c' -> controller_idle c' /\ out = [].
Proof.
  intros (Hs & Hst & Hw) Hq.
  assert (Hlt : forall i r, waiting c !! i = Some r -> (r_generation r < generation c)%nat)
    by (intros i r Hr; by eapply Forall_lookup_1 in Hw).
  destruct Hq as [|i s us (_ & Hc & _)|i s e (_ & Hc & _) He|i Hn|i r m Hr Hg|i r Hr Hg].
  - by split_and!.
  - congruence.
  - congruence.
  - unfold controller_idle. split_and!; try done. by apply Forall_delete_index.
  - apply Hlt in Hr. lia.
  - apply Hlt in Hr. lia.
Qed.

Lemma idle_step (e : Event) (c : Controller) :
  runtime e = true -> controller_idle c ->
  controller_idle (fst (step e c)) /\ snd (step e c) = [].
Proof.
  intros He Hc. pose proof (runtime_kept (fun out c => controller_idle c /\ out = [])) as Hk.
  specialize (Hk) with (tr := []) (e := e) (c := c).
  destruct (step e c) as [c' out]. apply Hk; [|done|done].
  clear. intros out1 c out c' [Hc ->] Hq. by apply (idle_quiet c).
Qed.

(** A session in which only the user can start something. *)
Definition session_idle (s : Session) : Prop :=
  updates s = [] /\ flushTimer s = None /\ isRequesting s = false /\
  controller_idle (controller s) /\
  Forall (fun x => (fst x < requestGeneration s)%nat) (inflight s).

Lemma idle_runtime (t : str -> str) (e : RuntimeEvent) (s : Session) :
  session_idle s ->
  session_idle (runtime_step t e s) /\ messages (runtime_step t e s) = messages s.
Proof.
  intros Hi. pose proof Hi as (Hu & Hf & Hr & Hc & Hin).
  assert (Hd : forall ev, runtime ev = true ->
    session_idle (drive t ev s) /\ messages (drive t ev s) = messages s).
  { intros ev Hev. rewrite drive_eq. destruct (idle_step ev (controller s) Hev Hc) as [Hc' ->].
    by split_and!. }
  destruct e; cbn [runtime_step]; try (by apply Hd).
  - unfold fireTimer. by rewrite Hf.
  - unfold respond. destruct (existsb _ (inflight s)) eqn:He; simpl; [|done].
    assert (Hg : requestGeneration s <> g).
    { apply existsb_exists in He as (x & Hx & Heq%Nat.eqb_eq).
      rewrite Forall_forall in Hin. apply list_elem_of_In, Hin in Hx. lia. }
    destruct (Nat.eqb_spec (requestGeneration s) g); [done|]. simpl. rewrite orb_true_r.
    unfold finish_request. cbn [requestGeneration with_inflight].
    destruct (Nat.eqb_spec (requestGeneration s) g); [done|]. split; [|done].
    split_and!; try done. simpl. rewrite Forall_forall in Hin |- *.
    intros x [Hx _]%filter_elem. by apply Hin.
  - unfold applyNext. by rewrite Hu.
Qed.

Lemma applyAll_fields (now : nat -> Z) (n : nat) (s : Session) :
  let s' := applyAll now n s in
  requestGeneration s' = requestGeneration s /\ flushTimer s' = flushTimer s /\
  isRequesting s' = isRequesting s /\ controller s' = controller s /\
  inflight s' = inflight s /\ updates s' = drop n (updates s) /\
  pendingChunks s' = pendingChunks s.
Proof.
  revert s. induction n as [|n IH]; intros s; [done|]. simpl.
  destruct (IH (applyNext now s)) as (-> & -> & -> & -> & -> & -> & ->).
  unfold applyNext. destruct (updates s) as [|u us] eqn:Hu; [|done]. by rewrite Hu, drop_nil.
Qed.

Lemma applyAll_last (now : nat -> Z) (us : list MessageUpdate) (u : MessageUpdate)
    (s : Session) :
  updates s = us ++ [u] ->
  exists prev, messages (applyAll now (length (updates s)) s) =
               applyUpdate (requestGeneration s) now u prev.
Proof.
  revert s. induction us as [|v us IH]; intros s Hu; rewrite Hu; simpl.
  - exists (messages s). unfold applyNext. by rewrite Hu.
  - specialize (IH (applyNext now s)).
    assert (H : updates (applyNext now s) = us ++ [u]) by (unfold applyNext; by rewrite Hu).
    rewrite H in IH. destruct (IH eq_refl) as [prev Hp]. exists prev. rewrite Hp.
    f_equal. unfold applyNext. by rewrite Hu.
Qed.

Lemma last_insert_pred {A} (l : list A) (x y : A) :
  last l = Some x -> last (<[pred (length l) := y]> l) = Some y.
Proof.
  intros Hl. rewrite last_lookup in *. rewrite length_insert.
  apply list_lookup_insert_eq. by apply lookup_lt_Some in Hl.
Qed.

(** An update of the last message changes the last message only. *)
Lemma updateLast_last (ms : list Message) (f : Message -> Message) :
  last (updateLastAssistantMessage ms f) =
  match last ms with
  | Some m => if bool_decide (from m = ASSISTANT) then Some (f m) else Some m
  | None => None
  end.
Proof.
  unfold updateLastAssistantMessage. destruct (last ms) as [m|] eqn:Hl; [|done].
  destruct (bool_decide (from m = ASSISTANT)); simpl; [|done]. by eapply last_insert_pred.
Qed.

Lemma completeAssistant_status (m : Message) (a b c : Z) :
  status (completeAssistantMessage m a b c) = Some COMPLETE.
Proof.
  unfold completeAssistantMessage.
  by destruct (completeAssistantTiming_frame (with_status COMPLETE (finalizeMessage m None a b)) c)
    as (_ & _ & _ & -> & _).
Qed.

Lemma idle_run (t : str -> str) (es : list RuntimeEvent) (s : Session) :
  session_idle s ->
  let s' := fold_left (fun s e => runtime_step t e s) es s in
  session_idle s' /\ messages s' = messages s.
Proof.
  revert s. induction es as [|e es IH]; intros s Hs; [done|]. simpl.
  destruct (idle_runtime t e s Hs) as [Hs' Hm]. destruct (IH _ Hs') as [H1 H2].
  split; [done|]. by rewrite H2.
Qed.

Lemma stop_controller_idle (tr : list Call) (c : Controller) :
  inv tr c -> controller_idle (stop c).
Proof.
  intros Hi. pose proof (inv_gens _ _ Hi) as Hw. unfold generations in Hw.
  apply Forall_app in Hw as [Hw _]. apply Forall_map in Hw.
  assert (Hlt : Forall (fun r => (r_generation r < S (generation c))%nat) (waiting c))
    by (eapply Forall_impl; [exact Hw|]; simpl; lia).
  unfold controller_idle, stop, cancel. cbn [source with_generation].
  by destruct (source c).
Qed.

(** What stopping leaves: the idle session once the updates have run, and the
    update that completes the answer, which runs last. *)
Lemma stop_session_idle (t : str -> str) (s : Session) (now : nat -> Z) :
  session_inv s ->
  let s1 := stopGeneration t s in
  session_idle (applyAll now (length (updates s1)) s1) /\
  requestGeneration s1 = S (requestGeneration s) /\
  exists us, updates s1 = us ++ [UStop (S (requestGeneration s))].
Proof.
  intros [[tr Hi] _ _ _ Hf] s1.
  destruct (flush_frame (requestGeneration s) s) as (Hg & Hc & Hin & _).
  assert (H1 : flushTimer s1 = None /\ isRequesting s1 = false /\
    controller s1 = stop (controller s) /\ inflight s1 = inflight s /\
    requestGeneration s1 = S (requestGeneration s) /\
    exists us, updates s1 = us ++ [UStop (S (requestGeneration s))]).
  { subst s1. unfold stopGeneration. rewrite stopStream_eq. simpl. rewrite Hc, Hin.
    split_and!; try done. by eexists. }
  destruct H1 as (Ht1 & Hr1 & Hc1 & Hin1 & Hg1 & Hu1). split_and!; [|done..].
  destruct (applyAll_fields now (length (updates s1)) s1) as (Hg2 & Ht2 & Hr2 & Hc2 & Hin2 & Hu2 & _).
  unfold session_idle. rewrite Hu2, Ht2, Hr2, Hc2, Hin2, Hg2, Ht1, Hr1, Hc1, Hin1, Hg1, drop_all.
  split_and!; try done; [by eapply stop_controller_idle|].
  eapply Forall_impl; [exact Hf|]. simpl. lia.
Qed.

(** The update that stopping queues leaves the last answer settled. *)
Lemma stop_update_settles (g : nat) (now : nat -> Z) (prev : list Message) :
  isPendingAssistantMessage (last (applyUpdate g now (UStop g) prev)) = false.
Proof.
  simpl. rewrite Nat.eqb_refl. simpl.
  rewrite updateLast_last. destruct (last prev) as [m|]; [|done].
  destruct (bool_decide (from m = ASSISTANT)) eqn:Ha; simpl; [|by rewrite Ha].
  destruct (isAssistantMessagePending m) eqn:Hpm; simpl; [|by rewrite Hpm, andb_false_r].
  unfold isAssistantMessagePending. by rewrite completeAssistant_status, andb_false_r.
Qed.

(** C2: Stopping is final: after the user stops the generation and React has
    run the pending updates, nothing is being generated, the last assistant
    message is not pending, and whatever the runtime still delivers, late
    headers, messages and errors of sources, responses of requests in flight,
    timers, the messages stay as they are and nothing starts again. *)
Theorem stop_is_final (t : str -> str) (s : Session) (now : nat -> Z)
    (es : list RuntimeEvent) :
  session t s ->
  let s1 := stopGeneration t s in
  let s2 := applyAll now (length (updates s1)) s1 in
  let s3 := fold_left (fun s e => runtime_step t e s) es s2 in
  messages s3 = messages s2 /\ isGenerating s3 = false /\
  isPendingAssistantMessage (last (messages s2)) = false.
Proof.
  intros Hs s1 s2 s3. apply session_invariant in Hs.
  destruct (stop_session_idle t s now Hs) as (Hidle & Hg & us & Hu).
  fold s1 in Hidle, Hg, Hu. fold s2 in Hidle.
  destruct (idle_run t es s2 Hidle) as [(_ & _ & Hr & (_ & Hst & _) & _) Hm].
  split_and!; [exact Hm| |].
  - subst s3. unfold isGenerating. by rewrite Hr, Hst.
  - destruct (applyAll_last now us _ s1 Hu) as [prev Hp]. fold s2 in Hp.
    rewrite Hp, Hg. apply stop_update_settles.
Qed.

Lemma stop_is_final_witness :
  let s := user_step id (USendMessage "hi" (js "a", js "b", (js "c", js "d")) 1
             DEFAULT_CONFIG DEFAULT_PARAMETER_ENABLED) (initialSession []) in
  let s1 := stopGeneration id s in
  let s2 := applyAll (fun _ => 5%Z) (length (updates s1)) s1 in
  isGenerating (fold_left (fun s e => runtime_step id e s) [RHeaders 0 (HeadersOk false)] s2)
  = false.
Proof.
  intros s. assert (Hs : session id s) by (apply session_user, session_init).
  clearbody s.
  exact (proj1 (proj2 (stop_is_final id s (fun _ => 5%Z) [RHeaders 0 (HeadersOk false)] Hs))).
Defined.

(** ** Failed answers *)

Lemma applyStreamingChunk_error (m : Message) (ty : StreamChunkType) (chunk : str) (a b : Z) :
  status m = Some ERROR -> applyStreamingChunk m ty chunk a b = m.
Proof. intros H. unfold applyStreamingChunk. by rewrite bool_decide_eq_true_2. Qed.

Lemma updateLast_same (ms : list Message) (f : Message -> Message) (m : Message) :
  last ms = Some m -> f m = m -> updateLastAssistantMessage ms f = ms.
Proof.
  intros Hl Hf. unfold updateLastAssistantMessage. rewrite Hl.
  destruct (negb _); [done|]. rewrite Hf. apply list_insert_id. by rewrite <- last_lookup.
Qed.

(** A failed answer stays as the error left it: the updates that flush
    buffered text, complete an answer or stop the generation do not change a
    conversation that ends with an error. *)
Theorem failed_answer_kept (ms : list Message) (m : Message) (current g : nat)
    (now : nat -> Z) (chunks : PendingStreamChunks) :
  last ms = Some m -> status m = Some ERROR ->
  Forall (fun u => applyUpdate current now u ms = ms)
    [UFlush g chunks; UComplete g; UStop g].
Proof.
  intros Hl He.
  apply Forall_cons_2; [|apply Forall_cons_2; [|apply Forall_cons_2; [|apply Forall_nil_2]]];
    cbn [applyUpdate]; (destruct (negb _); [done|]); apply (updateLast_same ms _ m Hl).
  - destruct (truthy_str (p_reasoning chunks));
      rewrite ?(applyStreamingChunk_error m) by done;
      destruct (truthy_str (p_content chunks)); by rewrite ?(applyStreamingChunk_error m).
  - unfold isAssistantMessageFinal. by rewrite He.
  - unfold isAssistantMessagePending. by rewrite He.
Qed.

Lemma failed_answer_kept_witness :
  let ms := [stuck "s" "boom" ERROR] in
  applyUpdate 3 (fun _ => 9%Z) (UFlush 3 (Pending 3 "late" [])) ms = ms.
Proof.
  intros ms. pose proof (failed_answer_kept ms (stuck "s" "boom" ERROR) 3 3 (fun _ => 9%Z)
    (Pending 3 "late" []) eq_refl eq_refl) as H.
  exact (Forall_inv H).
Defined.

(** ** Buffering *)

Lemma mergePending_merge (a b : str) : mergePendingStreamChunk a b = merge_chunk a b.
Proof.
  unfold mergePendingStreamChunk, merge_chunk.
  destruct (truthy_str a), (startsWith b a); done.
Qed.

(** No run of consecutive chunks with some text begins what follows it: the
    chunks cannot be taken for snapshots of the text before them. *)
Definition no_repeat (cs : list str) : Prop :=
  forall a w v b, cs = a ++ w ++ v ++ b -> mjoin w <> [] ->
  startsWith (mjoin v) (mjoin w) = false.

Lemma merge_windows (cs a w v b : list str) :
  no_repeat cs -> cs = a ++ w ++ v ++ b ->
  merge_chunk (mjoin w) (mjoin v) = mjoin (w ++ v).
Proof.
  intros Hn Hcs. unfold merge_chunk. rewrite join_app.
  destruct (truthy_str (mjoin w)) eqn:Hw; [|done]. apply truthy_str_true in Hw.
  by rewrite (Hn a w v b).
Qed.

(** What happens between the first chunk and the last: chunks arrive, the timer
    fires, React runs an update. *)
Inductive StreamOp : Type :=
  | OChunk (chunk : str)
  | OTimer
  | OApply (now : nat -> Z).

Definition op_step (g : nat) (s : Session) (o : StreamOp) : Session :=
  match o with
  | OChunk chunk => handleStreamUpdate g ContentChunk chunk s
  | OTimer => fireTimer s
  | OApply now => applyNext now s
  end.

Definition chunks_of (os : list StreamOp) : list str :=
  omap (fun o => match o with OChunk c => Some c | _ => None end) os.

(** The last message is an answer in progress with the text [x]. *)
Definition answering (x : str) (s : Session) : Prop :=
  exists m, last (messages s) = Some m /\ from m = ASSISTANT /\ status m <> Some ERROR /\
            getMessageContent m = x.

(** The chunks so far are cut into the ones the message has, the ones in each
    queued flush, and the ones in the buffer. *)
Definition buffering (g : nat) (sofar : list str) (s : Session) : Prop :=
  exists a bs c,
    sofar = a ++ mjoin bs ++ c /\ answering (mjoin a) s /\
    updates s = map (fun b => UFlush g (Pending g (mjoin b) [])) bs /\
    requestGeneration s = g /\ pendingChunks s = Pending g (mjoin c) [] /\
    (forall g', flushTimer s = Some g' -> g' = g).

Lemma buffering_chunk (g : nat) (sofar rest : list str) (chunk : str) (s : Session) :
  no_repeat (sofar ++ chunk :: rest) -> buffering g sofar s ->
  buffering g (sofar ++ [chunk]) (handleStreamUpdate g ContentChunk chunk s).
Proof.
  intros Hn (a & bs & c & -> & Ha & Hu & Hg & Hp & Ht).
  assert (Hm : mergePendingStreamChunk (mjoin c) chunk = mjoin (c ++ [chunk])).
  { rewrite mergePending_merge.
    replace chunk with (mjoin [chunk]) at 1 by apply app_nil_r.
    apply (merge_windows _ (a ++ mjoin bs) c [chunk] rest Hn). by rewrite <- !app_assoc. }
  exists a, bs, (c ++ [chunk]). unfold handleStreamUpdate. rewrite Hg, Nat.eqb_refl. simpl.
  rewrite Hp. simpl. rewrite Nat.eqb_refl. simpl. rewrite Hm.
  unfold scheduleStreamFlush. simpl. rewrite Hg, Nat.eqb_refl. simpl.
  destruct (flushTimer s) as [g'|] eqn:Hf; (split_and!; try done; [by rewrite <- !app_assoc|]).
  - simpl. by rewrite Hf.
  - simpl. by intros g' [= <-].
Qed.

Lemma buffering_flush (g : nat) (sofar : list str) (s : Session) :
  buffering g sofar s -> buffering g sofar (flushStreamUpdates g s).
Proof.
  intros (a & bs & c & -> & Ha & Hu & Hg & Hp & Ht).
  unfold flushStreamUpdates. rewrite Hg, Nat.eqb_refl. simpl. rewrite Hp. simpl.
  rewrite Nat.eqb_refl. simpl. destruct (truthy_str (mjoin c)) eqn:Hc; simpl.
  - exists a, (bs ++ [c]), []. split_and!; try done.
    + rewrite join_app. simpl. by rewrite !app_nil_r.
    + simpl. by rewrite Hu, map_app.
  - exists a, bs, c. by split_and!.
Qed.

Lemma updateLast_answering (x y : str) (s : Session) (f : Message -> Message)
    (s' : Session) :
  answering x s -> messages s' = updateLastAssistantMessage (messages s) f ->
  (forall m, from m = ASSISTANT -> status m <> Some ERROR -> getMessageContent m = x ->
    from (f m) = ASSISTANT /\ status (f m) <> Some ERROR /\ getMessageContent (f m) = y) ->
  answering y s'.
Proof.
  intros (m & Hl & Hf & Hs & Hx) Hm Hy. exists (f m).
  rewrite Hm, updateLast_last, Hl, (bool_decide_eq_true_2 _ Hf).
  destruct (Hy m Hf Hs Hx) as (? & ? & ?). done.
Qed.

Lemma buffering_apply (g : nat) (sofar rest : list str) (now : nat -> Z) (s : Session) :
  no_repeat (sofar ++ rest) -> buffering g sofar s -> buffering g sofar (applyNext now s).
Proof.
  intros Hn (a & bs & c & -> & Ha & Hu & Hg & Hp & Ht).
  unfold applyNext. rewrite Hu. destruct bs as [|b bs]; [by exists a, [], c|]. simpl.
  exists (a ++ b), bs, c. split_and!; try done.
  - simpl. by rewrite <- !app_assoc.
  - eapply (updateLast_answering (mjoin a) _ s _ _ Ha);
      [simpl; by rewrite Hg, Nat.eqb_refl|].
    intros m Hf Hs Hx. simpl. destruct (truthy_str (mjoin b)) eqn:Hb.
    + destruct (applyContentChunk m (mjoin b) (now 2) (now 3) Hs) as (Hc & Hst & Hfr & _).
      rewrite Hfr, Hst, Hc, Hx. split_and!; [done|done|].
      apply (merge_windows _ [] a b (mjoin bs ++ c ++ rest) Hn). simpl. by rewrite <- !app_assoc.
    + apply truthy_str_false in Hb. rewrite join_app, Hb, app_nil_r. done.
Qed.

Lemma buffering_run (g : nat) (os : list StreamOp) (sofar rest : list str) (s : Session) :
  no_repeat (sofar ++ chunks_of os ++ rest) -> buffering g sofar s ->
  buffering g (sofar ++ chunks_of os) (fold_left (op_step g) os s).
Proof.
  revert sofar s. induction os as [|o os IH]; intros sofar s Hn Hb; simpl.
  { by rewrite app_nil_r. }
  destruct o as [chunk| |now]; cbn [chunks_of omap list_omap] in Hn |- *.
  - rewrite cons_middle, app_assoc. apply IH.
    + by rewrite <- app_assoc.
    + by apply (buffering_chunk g sofar (chunks_of os ++ rest)).
  - apply IH; [done|]. simpl. unfold fireTimer. destruct (flushTimer s) as [g'|] eqn:Hf; [|done].
    assert (g' = g) as -> by (destruct Hb as (? & ? & ? & _ & _ & _ & _ & _ & Ht); by apply Ht).
    by apply buffering_flush.
  - apply IH; [done|]. by apply (buffering_apply g sofar (chunks_of os ++ rest)).
Qed.

Lemma buffering_applyAll (g : nat) (sofar : list str) (now : nat -> Z) (n : nat) (s : Session) :
  no_repeat sofar -> buffering g sofar s -> buffering g sofar (applyAll now n s).
Proof.
  intros Hn. revert s. induction n as [|n IH]; intros s Hb; [done|]. simpl. apply IH.
  apply (buffering_apply g sofar []); [by rewrite app_nil_r|done].
Qed.

Lemma flush_empties (g : nat) (sofar : list str) (s : Session) :
  buffering g sofar s -> pendingChunks (flushStreamUpdates g s) = Pending g [] [].
Proof.
  intros (a & bs & c & _ & _ & _ & Hg & Hp & _).
  unfold flushStreamUpdates. rewrite Hg, Nat.eqb_refl. simpl. rewrite Hp. simpl.
  rewrite Nat.eqb_refl. simpl. destruct (truthy_str (mjoin c)) eqn:Hc; simpl; [done|].
  apply truthy_str_false in Hc. by rewrite Hp, Hc.
Qed.

(** Once everything is flushed and applied, the message has all the chunks. *)
Lemma buffering_drained (g : nat) (sofar : list str) (now : nat -> Z) (s : Session) :
  no_repeat sofar -> buffering g sofar s ->
  let s1 := flushStreamUpdates g s in
  answering (mjoin sofar) (applyAll now (length (updates s1)) s1).
Proof.
  intros Hn Hb s1. pose proof (flush_empties g sofar s Hb) as He. fold s1 in He.
  apply buffering_flush in Hb. fold s1 in Hb.
  destruct (applyAll_fields now (length (updates s1)) s1) as (_ & _ & _ & _ & _ & Hu & Hp).
  apply (buffering_applyAll g sofar now (length (updates s1))) in Hb; [|done].
  destruct Hb as (a & bs & c & -> & Ha & Hu' & _ & Hp' & _).
  rewrite Hu, drop_all in Hu'. destruct bs; [|done].
  rewrite Hp, He in Hp'. injection Hp' as Hc.
  simpl. rewrite join_app, <- Hc, app_nil_r. exact Ha.
Qed.

(** C26: Buffering is transparent: whenever the timer fires and React runs the
    updates between the chunks of an answer, once the buffer is flushed and the
    updates have run the message has the text it started with followed by all
    the chunks, provided no chunk or run of chunks can be taken for a snapshot,
    that is, no consecutive chunks begin what follows them. *)
Theorem buffering_transparent (g : nat) (os : list StreamOp) (x : str) (now : nat -> Z)
    (s : Session) :
  answering x s -> updates s = [] -> requestGeneration s = g ->
  pendingChunks s = Pending g [] [] -> flushTimer s = None ->
  no_repeat (x :: chunks_of os) ->
  let s1 := flushStreamUpdates g (fold_left (op_step g) os s) in
  answering (x ++ mjoin (chunks_of os)) (applyAll now (length (updates s1)) s1).
Proof.
  intros Hx Hu Hg Hp Ht Hn.
  assert (Hb : buffering g [x] s).
  { exists [x], [], []. split_and!; try done; [by simpl; rewrite app_nil_r|].
    by rewrite Ht. }
  apply (buffering_run g os [x] []) in Hb; [|by rewrite app_nil_r].
  by apply (buffering_drained g (x :: chunks_of os)).
Qed.

(** A chunk that repeats the buffered one is lost: two equal chunks that
    arrive before the buffer is flushed reach the message once, because the
    second is taken for a snapshot of the first. *)
Theorem repeated_chunk_lost (g : nat) (x chunk : str) (now : nat -> Z) (s : Session) :
  answering x s -> updates s = [] -> requestGeneration s = g ->
  pendingChunks s = Pending g [] [] -> flushTimer s = None ->
  chunk <> [] -> startsWith chunk x = false ->
  let s1 := flushStreamUpdates g (fold_left (op_step g) [OChunk chunk; OChunk chunk] s) in
  answering (x ++ chunk) (applyAll now (length (updates s1)) s1).
Proof.
  intros Hx Hu Hg Hp Ht Hc Hs.
  assert (Hm : forall s', requestGeneration s' = g -> updates s' = [] ->
    messages s' = messages s -> pendingChunks s' = Pending g chunk [] ->
    let s1 := flushStreamUpdates g s' in
    answering (x ++ chunk) (applyAll now (length (updates s1)) s1)).
  { intros s' Hg' Hu' Hms Hp'. unfold flushStreamUpdates. rewrite Hg', Nat.eqb_refl. simpl.
    rewrite Hp'. simpl. rewrite Nat.eqb_refl, (proj2 (truthy_str_true chunk) Hc). simpl.
    rewrite Hu'. simpl. unfold applyNext. simpl. rewrite Hu'. simpl.
    eapply (updateLast_answering x _ s _ _ Hx); [simpl; by rewrite Hg', Nat.eqb_refl, Hms|].
    intros m Hf Hst Hxm. simpl. rewrite (proj2 (truthy_str_true chunk) Hc).
    destruct (applyContentChunk m chunk (now 2) (now 3) Hst) as (Hcc & Hst' & Hfr & _).
    rewrite Hfr, Hst', Hcc, Hxm. split_and!; [done|done|].
    unfold merge_chunk. by rewrite Hs, andb_false_r. }
  apply Hm; simpl; unfold handleStreamUpdate, scheduleStreamFlush; simpl;
    rewrite Hg; simpl; rewrite !Nat.eqb_refl; simpl; rewrite ?Hp, ?Ht; simpl;
    rewrite ?Nat.eqb_refl; simpl; rewrite ?Hg, ?Nat.eqb_refl, ?Ht; simpl;
    rewrite ?Hg, ?Nat.eqb_refl; simpl; try done.
  unfold mergePendingStreamChunk. simpl.
  rewrite (proj2 (truthy_str_true chunk) Hc). simpl.
  pose proof (startsWith_app chunk []) as Hr. rewrite app_nil_r in Hr. by rewrite Hr.
Qed.

(** A test for [no_repeat], over all pairs of consecutive runs. *)
Definition no_repeatb (cs : list str) : bool :=
  let ns := seq 0 (S (length cs)) in
  forallb (fun i => forallb (fun j => forallb (fun k =>
    let w := mjoin (take j (drop i cs)) in
    let v := mjoin (take k (drop (i + j) cs)) in
    negb (truthy_str w && startsWith v w)) ns) ns) ns.

Lemma no_repeatb_sound (cs : list str) : no_repeatb cs = true -> no_repeat cs.
Proof.
  intros H a w v b Hcs Hw.
  assert (Hin : forall l : list str, (length l <= length cs)%nat ->
    In (length l) (seq 0 (S (length cs)))) by (intros l Hl; apply in_seq; lia).
  assert (Hlen : (length a + (length w + (length v + length b)) = length cs)%nat)
    by (by rewrite Hcs, !length_app).
  unfold no_repeatb in H. rewrite forallb_forall in H.
  specialize (H (length a) (Hin a ltac:(lia))). rewrite forallb_forall in H.
  specialize (H (length w) (Hin w ltac:(lia))). rewrite forallb_forall in H.
  specialize (H (length v) (Hin v ltac:(lia))). cbv zeta in H.
  rewrite Hcs, drop_app_length, take_app_length in H.
  rewrite <- length_app, app_assoc, drop_app_length, take_app_length in H.
  apply negb_true_iff, andb_false_iff in H as [H|H]; [|done].
  by apply truthy_str_false in H.
Qed.

Definition sample_session : Session := initialSession [stuck "s" "ab" STREAMING].

Lemma sample_answering : answering "ab" sample_session.
Proof. exists (stuck "s" "ab" STREAMING). by split_and!. Qed.

Lemma buffering_transparent_witness :
  let os := [OChunk "cd"; OTimer; OChunk "ef"; OApply (fun _ => 3%Z)] in
  let s1 := flushStreamUpdates 0 (fold_left (op_step 0) os sample_session) in
  answering (js "ab" ++ mjoin (chunks_of os)) (applyAll (fun _ => 4%Z) (length (updates s1)) s1).
Proof.
  intros os. apply (buffering_transparent 0 os "ab" (fun _ => 4%Z) sample_session).
  - exact sample_answering.
  - reflexivity.
  - reflexivity.
  - reflexivity.
  - reflexivity.
  - apply no_repeatb_sound. vm_compute. reflexivity.
Defined.

Lemma repeated_chunk_lost_witness :
  let s1 := flushStreamUpdates 0 (fold_left (op_step 0) [OChunk "1"; OChunk "1"] sample_session) in
  answering (js "ab" ++ js "1") (applyAll (fun _ => 4%Z) (length (updates s1)) s1).
Proof.
  apply (repeated_chunk_lost 0 "ab" "1" (fun _ => 4%Z) sample_session).
  - exact sample_answering.
  - reflexivity.
  - reflexivity.
  - reflexivity.
  - reflexivity.
  - discriminate.
  - reflexivity.
Defined.

(** Text that is buffered when the user stops is lost if React runs the
    updates after the stop has returned: whatever the buffer holds, the
    messages are then the ones that the update of the stop alone makes of the
    messages before, because the update that flushes the buffer is dropped for
    belonging to the stopped generation. *)
Theorem stop_drops_buffer (t : str -> str) (s : Session) (now : nat -> Z) :
  updates s = [] ->
  let s1 := stopGeneration t s in
  messages (applyAll now (length (updates s1)) s1) =
  applyUpdate (S (requestGeneration s)) now (UStop (S (requestGeneration s))) (messages s).
Proof.
  intros Hu s1. set (g := requestGeneration s) in *.
  assert (Hf : messages (flushStreamUpdates g s) = messages s /\
    (updates (flushStreamUpdates g s) = [] \/
     exists p, updates (flushStreamUpdates g s) = [UFlush g p])).
  { unfold flushStreamUpdates. repeat js_case; simpl; rewrite ?Hu; eauto. }
  assert (Hs1 : requestGeneration s1 = S g /\ messages s1 = messages s /\
    updates s1 = updates (flushStreamUpdates g s) ++ [UStop (S g)]).
  { subst s1. unfold stopGeneration. rewrite stopStream_eq. simpl. fold g.
    split_and!; [done|apply Hf|done]. }
  clearbody s1. destruct Hs1 as (Hg1 & Hm1 & Hu1), Hf as [_ [Hf|(p & Hf)]];
    rewrite Hu1, Hf; simpl; unfold applyNext; rewrite Hu1, Hf; simpl; rewrite Hg1, Hm1; [done|].
  by destruct (Nat.eqb_spec g (S g)); [lia|].
Qed.

Lemma stop_drops_buffer_witness :
  let s := op_step 0 sample_session (OChunk "cd") in
  let s1 := stopGeneration id s in
  messages (applyAll (fun _ => 4%Z) (length (updates s1)) s1) =
  applyUpdate 1 (fun _ => 4%Z) (UStop 1) [stuck "s" "ab" STREAMING].
Proof. exact (stop_drops_buffer id (op_step 0 sample_session (OChunk "cd")) (fun _ => 4%Z) eq_refl). Defined.
