(* ===== verification/AuthSession.v ===== *)
(** * Authentication sessions

    Models the session of the signed-in user
    ([src/web/src/]): the store [stores/auth-store.ts], the refresh of access
    tokens and the resolution of authentication in [lib/auth-session.ts], the
    cookie hint of [lib/session-hint.ts], and the listener of
    [routes/__root.tsx] for the events of other tabs.

    What a tab keeps (the store and the module variables [authEpoch] and
    [refreshPromise]) is a [World].  An [async] function is cut at its waits:
    the part before a wait is an operation, what follows is run by a later
    event, between which every other event may happen.  A step also returns
    what it does to the outside ([Output]): requests, timers, events for other
    tabs.

    The object of a user is kept as the server sent it; the code reads other
    fields of a response only after it has checked their types.  Times are
    readings of [Date.now] in milliseconds. *)

From stdpp Require Import base list.
From Stdlib Require Import ZArith NArith Lia.
From S2P Require Import Prelude JsString JsNumber JsJson.

Local Open Scope Z_scope.

(** ** The store *)

Definition AuthUser : Type := json.

Record LoginSession : Type := MkLoginSession {
  sid : str;
  ls_current : bool;
  login_method : str;
  ip : str;
  user_agent : str;
  created_at : num;
  last_active_at : num;
  expires_at : num;
}.

Record AuthBundle : Type := MkAuthBundle {
  access_token : str;
  token_type : str;
  access_expires_at : num;
  b_user : AuthUser;
  b_session : LoginSession;
}.

Inductive AuthBootstrapState : Type := Idle | Checking | Complete.

#[export] Instance AuthBootstrapState_eq_dec : EqDecision AuthBootstrapState.
Proof. solve_decision. Defined.

Record AuthState : Type := MkAuthState {
  user : option AuthUser;
  accessToken : option str;
  accessExpiresAt : option num;
  session : option LoginSession;
  pending2FAFlowToken : option str;
  bootstrapState : AuthBootstrapState;
}.

Definition initialAuth : AuthState := MkAuthState None None None None None Idle.

Definition setBundle (b : AuthBundle) (a : AuthState) : AuthState :=
  MkAuthState (Some (b_user b)) (Some (access_token b)) (Some (access_expires_at b))
    (Some (b_session b)) None Complete.

Definition setUser (u : option AuthUser) (a : AuthState) : AuthState :=
  MkAuthState u (accessToken a) (accessExpiresAt a) (session a) (pending2FAFlowToken a)
    (bootstrapState a).

Definition setPending2FAFlowToken (t : option str) (a : AuthState) : AuthState :=
  MkAuthState (user a) (accessToken a) (accessExpiresAt a) (session a) t (bootstrapState a).

Definition setBootstrapState (s : AuthBootstrapState) (a : AuthState) : AuthState :=
  MkAuthState (user a) (accessToken a) (accessExpiresAt a) (session a)
    (pending2FAFlowToken a) s.

Definition reset (s : AuthBootstrapState) (a : AuthState) : AuthState :=
  MkAuthState None None None None None s.

(** [auth.session?.sid]. *)
Definition sessionSID (a : AuthState) : option str := sid <$> session a.

(** ** Checking responses *)

Definition isRecord (v : option json) : bool :=
  match v with Some (JArr _) | Some (JObj _) => true | _ => false end.

Definition is_string (v : option json) : bool :=
  match v with Some (JStr _) => true | _ => false end.

Definition is_nonempty_string (v : option json) : bool :=
  match v with Some (JStr s) => truthy_str s | _ => false end.

Definition is_number (v : option json) : bool :=
  match v with Some (JNum _) => true | _ => false end.

Definition is_boolean (v : option json) : bool :=
  match v with Some (JBool _) => true | _ => false end.

Definition isAuthUser (v : option json) : bool :=
  isRecord v &&
  match oprop "id" v with
  | Some (JNum x) => isInteger x && num_lt num_zero x
  | _ => false
  end &&
  is_string (oprop "username" v) && is_number (oprop "role" v).

Definition isLoginSession (v : option json) : bool :=
  isRecord v && is_nonempty_string (oprop "sid" v) && is_boolean (oprop "current" v) &&
  is_string (oprop "login_method" v) && is_string (oprop "ip" v) &&
  is_string (oprop "user_agent" v) && is_number (oprop "created_at" v) &&
  is_number (oprop "last_active_at" v) && is_number (oprop "expires_at" v).

Definition hasValidTokenFields (v : option json) : bool :=
  is_nonempty_string (oprop "access_token" v) && is_nonempty_string (oprop "token_type" v) &&
  match oprop "access_expires_at" v with
  | Some (JNum x) => isFinite x && num_lt num_zero x
  | _ => false
  end.

Definition isAuthBundle (v : option json) : bool :=
  isRecord v && hasValidTokenFields v && isAuthUser (oprop "user" v) &&
  isLoginSession (oprop "session" v).

Definition isAuthTokenRotation (v : option json) : bool :=
  isRecord v && hasValidTokenFields v &&
  match oprop "token_type" v with Some (JStr s) => s =?s "Bearer" | _ => false end &&
  isLoginSession (oprop "session" v) &&
  match oprop "current" (oprop "session" v) with Some (JBool b) => b | _ => false end.

(** The fields of a value that has passed the checks. *)

Definition string_of (v : option json) : str :=
  match v with Some (JStr s) => s | _ => [] end.

Definition number_of (v : option json) : num :=
  match v with Some (JNum x) => x | _ => num_zero end.

Definition boolean_of (v : option json) : bool :=
  match v with Some (JBool b) => b | _ => false end.

Definition asLoginSession (v : option json) : LoginSession :=
  MkLoginSession (string_of (oprop "sid" v)) (boolean_of (oprop "current" v))
    (string_of (oprop "login_method" v)) (string_of (oprop "ip" v))
    (string_of (oprop "user_agent" v)) (number_of (oprop "created_at" v))
    (number_of (oprop "last_active_at" v)) (number_of (oprop "expires_at" v)).

Definition asAuthBundle (v : option json) : AuthBundle :=
  MkAuthBundle (string_of (oprop "access_token" v)) (string_of (oprop "token_type" v))
    (number_of (oprop "access_expires_at" v)) (nullish (oprop "user" v) JNull)
    (asLoginSession (oprop "session" v)).

(** ** Outcomes *)

Inductive RefreshError : Type :=
  | Superseded
  | ErrorOf (message : str)         (** an error object *)
  | DataOf (data : option json).    (** the data of the response *)

Inductive RefreshOutcome : Type :=
  | Authenticated (bundle : AuthBundle)
  | Anonymous
  | TransientError (error : RefreshError)
  | OutOfSync (code : option str).

Record AuthRefreshHTTPResponse : Type := MkResponse {
  status : Z;
  data : option json;
  error : option str;
}.

Inductive SyncKind : Type := SyncAuthenticated | SyncSignedOut.

Inductive Output : Type :=
  | SendRefresh (expectedSID : option str)
  | StartTimer (delay : Z)
  | RequestLock
  | Publish (kind : SyncKind) (sid : str)
  | Reload
  | ClearQueries
  | NavigateSignIn.

Definition refreshRaceDelays : list Z := [80; 200; 500].

(** ** The refresh runner

    [createRefreshRunner] for a runtime over any state.  A run waits for the
    response to a request or for a timer, or has finished. *)

Record AuthRefreshRuntime (W : Type) : Type := MkRuntime {
  getExpectedSID : W -> option str;
  parseBundle : option json -> option AuthBundle;
  acceptBundle : AuthBundle -> W -> W * list Output;
  clear : bool -> option AuthBootstrapState -> W -> W * list Output;
  markTransient : W -> W;
  isCurrent : option (W -> bool);
}.
Arguments getExpectedSID {W}.
Arguments parseBundle {W}.
Arguments acceptBundle {W}.
Arguments clear {W}.
Arguments markTransient {W}.
Arguments isCurrent {W}.

Inductive RunState : Type :=
  | Requesting (raceAttempt : nat) (allowMismatchRetry : bool)
  | Sleeping (raceAttempt : nat) (allowMismatchRetry : bool)
  | Finished (outcome : RefreshOutcome).

Section runner.
Context {W : Type} (runtime : AuthRefreshRuntime W).

Definition isSuperseded (w : W) : bool :=
  match isCurrent runtime with Some current => negb (current w) | None => false end.

(** [run] up to its request. *)
Definition run (raceAttempt : nat) (allowMismatchRetry : bool) (w : W)
    : W * list Output * RunState :=
  if isSuperseded w then (w, [], Finished (TransientError Superseded))
  else (w, [SendRefresh (getExpectedSID runtime w)],
        Requesting raceAttempt allowMismatchRetry).

Definition clearAnd (sync : bool) (outcome : RefreshOutcome) (w : W)
    : W * list Output * RunState :=
  let '(w, out) := clear runtime sync None w in (w, out, Finished outcome).

(** [run] after a response without a bundle. *)
Definition onFailure (raceAttempt : nat) (allowMismatchRetry : bool) (code : option str)
    (response : AuthRefreshHTTPResponse) (w : W) : W * list Output * RunState :=
  if (status response =? 409) && bool_decide (code = Some (js "AUTH_REFRESH_RACE")) then
    match refreshRaceDelays !! raceAttempt with
    | Some delay => (w, [StartTimer delay], Sleeping (S raceAttempt) allowMismatchRetry)
    | None => clearAnd false (OutOfSync code) w
    end
  else if (status response =? 409) && bool_decide (code = Some (js "AUTH_SESSION_MISMATCH")) then
    if allowMismatchRetry then
      let '(w, out) := clear runtime false (Some Idle) w in
      let '(w, out', st) := run 0 false w in (w, out ++ out', st)
    else clearAnd false (OutOfSync code) w
  else if status response =? 401 then clearAnd true Anonymous w
  else if (status response =? 0) || (500 <=? status response) || (status response =? 429) then
    (markTransient runtime w, [],
     Finished (TransientError
       (match error response with Some e => ErrorOf e | None => DataOf (data response) end)))
  else clearAnd false (OutOfSync (Some (nullish code "AUTH_INVALID_REFRESH_RESPONSE"))) w.

(** [run] after its request. *)
Definition onResponse (raceAttempt : nat) (allowMismatchRetry : bool)
    (response : AuthRefreshHTTPResponse) (w : W) : W * list Output * RunState :=
  if isSuperseded w then (w, [], Finished (TransientError Superseded))
  else
    let responseData := if isRecord (data response) then data response else None in
    let code := match oprop "code" responseData with Some (JStr c) => Some c | _ => None end in
    match oprop "success" responseData, parseBundle runtime (oprop "data" responseData) with
    | Some (JBool true), Some b =>
        let '(w, out) := acceptBundle runtime b w in (w, out, Finished (Authenticated b))
    | _, _ => onFailure raceAttempt allowMismatchRetry code response w
    end.

Definition startRefresh (w : W) : W * list Output * RunState := run 0 true w.

End runner.

(** ** The request of a refresh *)

(** How the call of [authClient.post] ends: with a response, with an axios error
    (which may carry a response), or with another exception. *)
Inductive PostResult : Type :=
  | PostOk (post_status : Z) (post_data : option json)
  | PostAxiosError (response : option (Z * option json)) (message : str)
  | PostThrows (message : str).

Definition requestRefresh (result : PostResult) : AuthRefreshHTTPResponse :=
  match result with
  | PostOk s d => MkResponse s d None
  | PostThrows e => MkResponse 0 None (Some e)
  | PostAxiosError r e => MkResponse (nullish (fst <$> r) 0) (r ≫= snd) (Some e)
  end.

(** The headers of the request. *)
Definition refreshHeaders (expectedSID : option str) : option (list (str * str)) :=
  match expectedSID with
  | Some s => if truthy_str s then Some [(js "X-Auth-Session", s)] else None
  | None => None
  end.

(** ** A tab *)

(** How a promise ended. *)
Inductive Settled (A : Type) : Type :=
  | Resolved (a : A)
  | Rejected (error : str).
Arguments Resolved {A} a.
Arguments Rejected {A} error.

(** Where the promise of [performRefreshWithBrowserLock] is: waiting for the
    lock, running, or rejected because the request of the lock was. *)
Inductive Phase : Type :=
  | LockWait
  | Running (st : RunState)
  | LockFailed (error : str).

(** [refreshPromise], with the callers that wait for it. *)
Record Refresh : Type := MkRefresh {
  refreshEpoch : nat;
  phase : Phase;
  awaiting : list nat;
}.

Record World : Type := MkWorld {
  auth : AuthState;
  authEpoch : nat;
  refreshPromise : option Refresh;
  ready : list (nat * Settled RefreshOutcome);  (** callers about to continue *)
}.

Definition initialWorld : World := MkWorld initialAuth 0 None [].

Definition Step : Type := World * list Output.

Definition with_auth (a : AuthState) (w : World) : World :=
  MkWorld a (authEpoch w) (refreshPromise w) (ready w).

Definition with_promise (p : option Refresh) (w : World) : World :=
  MkWorld (auth w) (authEpoch w) p (ready w).

(** [authEpoch += 1]. *)
Definition bump (w : World) : World :=
  MkWorld (auth w) (S (authEpoch w)) (refreshPromise w) (ready w).

Definition publishAuthSessionEvent (kind : SyncKind) (s : str) : list Output :=
  if truthy_str s then [Publish kind s] else [].

Definition applyAuthBundle (b : AuthBundle) (synchronizeTabs : bool) (w : World) : Step :=
  let previousSID := sessionSID (auth w) in
  (with_auth (setBundle b (auth w)) (bump w),
   if synchronizeTabs && negb (bool_decide (previousSID = Some (sid (b_session b))))
   then publishAuthSessionEvent SyncAuthenticated (sid (b_session b)) else []).

(** [applyAuthRotation]; the error is the message of the exception. *)
Definition applyAuthRotation (value : option json) (w : World) : str + Step :=
  if negb (isAuthTokenRotation value) then inl (js "Invalid authentication rotation response")
  else match user (auth w), session (auth w) with
  | Some u, Some s =>
      let value_session := asLoginSession (oprop "session" value) in
      if negb (sid value_session =?s sid s)
      then inl (js "Authentication rotation session mismatch")
      else inr (applyAuthBundle
        (MkAuthBundle (string_of (oprop "access_token" value))
           (string_of (oprop "token_type" value))
           (number_of (oprop "access_expires_at" value)) u value_session) false w)
  | _, _ => inl (js "Authentication rotation has no active session")
  end.

Definition clearAuthentication (synchronizeTabs : bool) (s : AuthBootstrapState) (w : World)
    : Step :=
  let sid := sessionSID (auth w) in
  (with_auth (reset s (auth w)) (bump w),
   match sid with
   | Some x => if synchronizeTabs && truthy_str x
               then publishAuthSessionEvent SyncSignedOut x else []
   | None => []
   end).

Definition clearAuthenticatedClientState (synchronizeTabs : bool) (w : World) : Step :=
  let '(w, out) := clearAuthentication synchronizeTabs Complete w in (w, ClearQueries :: out).

(** The runtime that [runRefresh] hands to the runner. *)
Definition runRefresh (epoch : nat) : AuthRefreshRuntime World :=
  MkRuntime World
    (fun w => sessionSID (auth w))
    (fun v => if isAuthBundle v then Some (asAuthBundle v) else None)
    (fun b => applyAuthBundle b false)
    (fun sync bs w =>
       if negb sync && bool_decide (bs = Some Idle) then (with_auth (reset Idle (auth w)) w, [])
       else clearAuthentication sync (nullish bs Complete) w)
    (fun w => with_auth (setBootstrapState Idle (auth w)) w)
    (Some (fun w => (authEpoch w =? epoch)%nat)).

(** The refresh in progress goes on with [f], if it is running. *)
Definition advance (r : Refresh) (f : World -> World * list Output * RunState) (w : World)
    : Step :=
  let '(w, out, st) := f w in
  (with_promise (Some (MkRefresh (refreshEpoch r) (Running st) (awaiting r))) w, out).

(** [refreshAuthentication] called by [caller], who waits for the promise.
    [hasLocks] says whether the browser has [navigator.locks]. *)
Definition refreshAuthentication (hasLocks : bool) (caller : nat) (w : World) : Step :=
  match refreshPromise w with
  | Some r =>
      (with_promise (Some (MkRefresh (refreshEpoch r) (phase r) (awaiting r ++ [caller]))) w, [])
  | None =>
      let epoch := authEpoch w in
      let r := MkRefresh epoch LockWait [caller] in
      if hasLocks then (with_promise (Some r) w, [RequestLock])
      else advance r (startRefresh (runRefresh epoch)) w
  end.

Definition lockGranted (w : World) : Step :=
  match refreshPromise w with
  | Some (MkRefresh e LockWait ws as r) => advance r (startRefresh (runRefresh e)) w
  | _ => (w, [])
  end.

(** The promise of [navigator.locks.request] is rejected: it was returned
    without [await], so that the [catch] of the function does not see it. *)
Definition lockRejected (err : str) (w : World) : Step :=
  match refreshPromise w with
  | Some (MkRefresh e LockWait ws) =>
      (with_promise (Some (MkRefresh e (LockFailed err) ws)) w, [])
  | _ => (w, [])
  end.

Definition responseArrives (response : AuthRefreshHTTPResponse) (w : World) : Step :=
  match refreshPromise w with
  | Some (MkRefresh e (Running (Requesting race allow)) ws as r) =>
      advance r (onResponse (runRefresh e) race allow response) w
  | _ => (w, [])
  end.

Definition timerFires (w : World) : Step :=
  match refreshPromise w with
  | Some (MkRefresh e (Running (Sleeping race allow)) ws as r) =>
      advance r (run (runRefresh e) race allow) w
  | _ => (w, [])
  end.

Definition settled_phase (p : Phase) : option (Settled RefreshOutcome) :=
  match p with
  | Running (Finished o) => Some (Resolved o)
  | LockFailed err => Some (Rejected err)
  | _ => None
  end.

(** The [finally] of [refreshAuthentication], after which the callers go on. *)
Definition finishRefresh (w : World) : Step :=
  match refreshPromise w with
  | Some r =>
      match settled_phase (phase r) with
      | Some o =>
          (MkWorld (auth w) (authEpoch w) None (ready w ++ map (fun c => (c, o)) (awaiting r)), [])
      | None => (w, [])
      end
  | None => (w, [])
  end.

(** A caller whose promise has ended goes on. *)
Definition takeReady (i : nat) (w : World) : World :=
  MkWorld (auth w) (authEpoch w) (refreshPromise w) (delete i (ready w)).

(** ** Resolving authentication *)

Definition seconds (now : Z) : num := num_of_Z (now / 1000).

Definition currentValidAuthBundle (now : Z) (a : AuthState) : option AuthBundle :=
  match user a, accessToken a, accessExpiresAt a, session a with
  | Some u, Some tok, Some exp, Some s =>
      if negb (truthy_str tok) || negb (truthy_num exp) || num_le exp (seconds now) then None
      else Some (MkAuthBundle tok "Bearer" exp u s)
  | _, _, _, _ => None
  end.

(** What an [async] function does first: return, or wait for the refresh. *)
Inductive Started (A : Type) : Type :=
  | Returned (a : A)
  | Awaits.
Arguments Returned {A} a.
Arguments Awaits {A}.

Definition resolveAuthentication (hasLocks : bool) (caller : nat) (now : Z) (w : World)
    : Step * Started RefreshOutcome :=
  match currentValidAuthBundle now (auth w) with
  | Some b => ((with_auth (setBootstrapState Complete (auth w)) w, []), Returned (Authenticated b))
  | None =>
      let hasStaleSession := bool_decide (is_Some (user (auth w)))
                             && bool_decide (is_Some (session (auth w))) in
      if bool_decide (bootstrapState (auth w) = Complete) && negb hasStaleSession
      then ((w, []), Returned Anonymous)
      else (refreshAuthentication hasLocks caller
              (with_auth (setBootstrapState Checking (auth w)) w), Awaits)
  end.

Definition SESSION_HINT_COOKIE_NAME : str := js "new_api_has_session".

Fixpoint readCookie_parts (parts : list str) (name : str) : option str :=
  match parts with
  | [] => None
  | part :: rest =>
      let separator := indexOf part "=" 0 in
      if separator <? 0 then readCookie_parts rest name
      else if negb (trim (slice part 0 separator) =?s name) then readCookie_parts rest name
      else Some (trim (slice_from part (separator + 1)))
  end.

Definition readCookie (cookieHeader name : str) : option str :=
  readCookie_parts (split_char (chr ";") cookieHeader) name.

(** [None] where there is no [document]. *)
Definition hasSessionHint (cookie : option str) : bool :=
  match cookie with
  | None => true
  | Some c => bool_decide (is_Some (readCookie c SESSION_HINT_COOKIE_NAME))
  end.

Definition bootstrapAuthentication (hasLocks : bool) (cookie : option str) (caller : nat)
    (now : Z) (w : World) : Step * Started RefreshOutcome :=
  if negb (bool_decide (is_Some (currentValidAuthBundle now (auth w))))
     && negb (hasSessionHint cookie)
     && negb (bool_decide (is_Some (user (auth w))))
     && negb (bool_decide (is_Some (session (auth w))))
  then ((w, []), Returned Anonymous)
  else resolveAuthentication hasLocks caller now w.

(** ** Headers *)

Definition getCommonHeaders (a : AuthState) : list (str * str) :=
  (js "Content-Type", js "application/json") ::
  match accessToken a with
  | Some tok => if truthy_str tok then [(js "Authorization", js "Bearer " ++ tok)] else []
  | None => []
  end.

(** Whether the token is set and expires after [limit]. *)
Definition tokenUsable (limit : num) (a : AuthState) : bool :=
  match accessToken a, accessExpiresAt a with
  | Some tok, Some exp => truthy_str tok && truthy_num exp && num_lt limit exp
  | _, _ => false
  end.

Inductive HeadersOutcome : Type :=
  | Headers (h : list (str * str))
  | RequestFailed          (** throws [t('Request failed')] *)
  | SessionExpired         (** throws [t('Session expired!')] *)
  | RefreshRejected (error : str).

Definition getFreshAuthHeaders (hasLocks : bool) (caller : nat) (now : Z) (w : World)
    : Step * Started HeadersOutcome :=
  if tokenUsable (num_add (seconds now) (num_of_Z 60)) (auth w)
  then ((w, []), Returned (Headers (getCommonHeaders (auth w))))
  else (refreshAuthentication hasLocks caller w, Awaits).

(** [getFreshAuthHeaders] after its wait. *)
Definition headersAfterRefresh (outcome : Settled RefreshOutcome) (now : Z) (a : AuthState)
    : HeadersOutcome :=
  match outcome with
  | Rejected err => RefreshRejected err
  | Resolved (Authenticated _) => Headers (getCommonHeaders a)
  | Resolved o =>
      if tokenUsable (seconds now) a then Headers (getCommonHeaders a)
      else match o with TransientError _ => RequestFailed | _ => SessionExpired end
  end.

(** ** Events of other tabs *)

Definition onSyncEvent (kind : SyncKind) (event_sid : str) (w : World) : Step :=
  let currentSID := sessionSID (auth w) in
  match kind with
  | SyncAuthenticated =>
      if bool_decide (Some event_sid = currentSID) then (w, [])
      else
        let '(w, out) :=
          match currentSID with
          | Some s => if truthy_str s then clearAuthentication false Complete w else (w, [])
          | None => (w, [])
          end in
        (w, out ++ [Reload])
  | SyncSignedOut =>
      match currentSID with
      | Some s =>
          if truthy_str s && (event_sid =?s s) then
            let '(w, out) := clearAuthenticatedClientState false w in
            (w, out ++ [NavigateSignIn])
          else (w, [])
      | None => (w, [])
      end
  end.

(** ** Runs *)

Inductive Event : Type :=
  | Login (value : option json)          (** a login response *)
  | SignOut (synchronizeTabs : bool)
  | Rotate (value : option json)
  | SetUser (u : option AuthUser)
  | SetPending2FA (token : option str)
  | Join (caller : nat)                  (** [refreshAuthentication] *)
  | Resolve (caller : nat) (now : Z)
  | Bootstrap (cookie : option str) (caller : nat) (now : Z)
  | FreshHeaders (caller : nat) (now : Z)
  | SyncEvent (kind : SyncKind) (event_sid : str)
  | LockGranted
  | LockRejected (err : str)
  | Response (r : AuthRefreshHTTPResponse)
  | Timer
  | Finish
  | Continue (i : nat).

(** The steps of the refresh in progress, as opposed to the operations. *)
Definition internal (e : Event) : bool :=
  match e with LockGranted | LockRejected _ | Response _ | Timer => true | _ => false end.

Section runs.
Context (hasLocks : bool).

Definition step (e : Event) (w : World) : Step :=
  match e with
  | Login v => if isAuthBundle v then applyAuthBundle (asAuthBundle v) true w else (w, [])
  | SignOut sync => clearAuthentication sync Complete w
  | Rotate v => match applyAuthRotation v w with inl _ => (w, []) | inr s => s end
  | SetUser u => (with_auth (setUser u (auth w)) w, [])
  | SetPending2FA t => (with_auth (setPending2FAFlowToken t (auth w)) w, [])
  | Join caller => refreshAuthentication hasLocks caller w
  | Resolve caller now => fst (resolveAuthentication hasLocks caller now w)
  | Bootstrap cookie caller now => fst (bootstrapAuthentication hasLocks cookie caller now w)
  | FreshHeaders caller now => fst (getFreshAuthHeaders hasLocks caller now w)
  | SyncEvent kind s => onSyncEvent kind s w
  | LockGranted => lockGranted w
  | LockRejected err => lockRejected err w
  | Response r => responseArrives r w
  | Timer => timerFires w
  | Finish => finishRefresh w
  | Continue i => (takeReady i w, [])
  end.

(** The world after a sequence of events, with what it did. *)
Fixpoint runs (es : list Event) (w : World) : Step :=
  match es with
  | [] => (w, [])
  | e :: es' =>
      let '(w1, out1) := step e w in
      let '(w2, out2) := runs es' w1 in (w2, out1 ++ out2)
  end.

Definition reachable (w : World) : Prop := exists es, fst (runs es initialWorld) = w.

End runs.
