(* ===== verification/AuthLaws.v ===== *)
(** * Laws of authentication sessions

    Proofs about [AuthSession]: the credentials in the store are complete or
    absent in every reachable world; a refresh that has been superseded has no
    effect; every refresh ends, after at most eight requests of which at most
    one is outstanding; what each outcome of a refresh leaves in the store. *)

From stdpp Require Import base list.
From Stdlib Require Import ZArith NArith Lia.
From S2P Require Import Prelude JsString JsNumber JsJson AuthSession.

Local Open Scope Z_scope.

(** ** Credentials *)

Definition credentials_ok (tok : str) (exp : num) (s : LoginSession) : Prop :=
  tok <> [] /\ isFinite exp = true /\ num_lt num_zero exp = true /\ sid s <> [].

(** Token, expiry and session are all present and valid, or all absent. *)
Definition auth_ok (a : AuthState) : Prop :=
  match accessToken a, accessExpiresAt a, session a with
  | None, None, None => True
  | Some tok, Some exp, Some s => credentials_ok tok exp s
  | _, _, _ => False
  end.

Definition bundle_ok (b : AuthBundle) : Prop :=
  credentials_ok (access_token b) (access_expires_at b) (b_session b).

Lemma nonempty_string (v : option json) :
  is_nonempty_string v = true -> string_of v <> [].
Proof. destruct v as [[]|]; try done. by apply truthy_str_true. Qed.

Lemma token_fields_ok (v : option json) :
  hasValidTokenFields v = true ->
  string_of (oprop "access_token" v) <> [] /\
  isFinite (number_of (oprop "access_expires_at" v)) = true /\
  num_lt num_zero (number_of (oprop "access_expires_at" v)) = true.
Proof.
  unfold hasValidTokenFields. intros H. js_simp. split; [by apply nonempty_string|].
  destruct (oprop "access_expires_at" v) as [[]|]; try done. by js_simp.
Qed.

Lemma login_session_ok (v : option json) :
  isLoginSession v = true -> sid (asLoginSession v) <> [].
Proof. unfold isLoginSession. intros H. js_simp. by apply nonempty_string. Qed.

Lemma asAuthBundle_ok (v : option json) :
  isAuthBundle v = true -> bundle_ok (asAuthBundle v).
Proof.
  unfold isAuthBundle. intros H. js_simp.
  destruct (token_fields_ok v) as (? & ? & ?); [done|].
  split_and!; try done. by apply login_session_ok.
Qed.

Lemma setBundle_ok (b : AuthBundle) (a : AuthState) : bundle_ok b -> auth_ok (setBundle b a).
Proof. done. Qed.

Lemma reset_ok (s : AuthBootstrapState) (a : AuthState) : auth_ok (reset s a).
Proof. done. Qed.

Lemma rotation_ok (v : option json) (w : World) (s : Step) :
  applyAuthRotation v w = inr s -> exists b, bundle_ok b /\ s = applyAuthBundle b false w.
Proof.
  unfold applyAuthRotation. destruct (isAuthTokenRotation v) eqn:E; simpl; [|done].
  destruct (user (auth w)) as [u|], (session (auth w)) as [se|]; try done.
  destruct (negb _); [done|]. intros [= <-]. eexists. split; [|done].
  unfold isAuthTokenRotation in E. js_simp.
  destruct (token_fields_ok v) as (? & ? & ?); [done|].
  split_and!; try done. by apply login_session_ok.
Qed.

(** ** The effects of a step

    What a step may do to the store and the epoch: nothing, store a valid
    bundle, clear the store, or change a field that is not a credential. *)
Inductive effect (w : World) : World -> Prop :=
  | effect_none : effect w w
  | effect_bundle b : bundle_ok b -> effect w (with_auth (setBundle b (auth w)) (bump w))
  | effect_clear s : effect w (with_auth (reset s (auth w)) (bump w))
  | effect_reset s : effect w (with_auth (reset s (auth w)) w)
  | effect_state s : effect w (with_auth (setBootstrapState s (auth w)) w)
  | effect_user u : effect w (with_auth (setUser u (auth w)) w)
  | effect_pending t : effect w (with_auth (setPending2FAFlowToken t (auth w)) w).

Create HintDb auth.
#[export] Hint Constructors effect : auth.

Lemma effect_auth_ok (w w' : World) : effect w w' -> auth_ok (auth w) -> auth_ok (auth w').
Proof. by intros []. Qed.

Lemma effect_epoch (w w' : World) : effect w w' -> (authEpoch w <= authEpoch w')%nat.
Proof. intros []; simpl; lia. Qed.

Lemma clearAnd_effect (e : nat) (sync : bool) (o : RefreshOutcome) (w : World) :
  clearAnd (runRefresh e) sync o w =
  (with_auth (reset Complete (auth w)) (bump w),
   snd (clearAuthentication sync Complete w), Finished o).
Proof. unfold clearAnd. simpl. by destruct sync. Qed.

Lemma parseBundle_ok (e : nat) (v : option json) (b : AuthBundle) :
  parseBundle (runRefresh e) v = Some b -> isAuthBundle v = true /\ b = asAuthBundle v.
Proof. simpl. destruct (isAuthBundle v); [|done]. by intros [= ->]. Qed.

(** The ways in which a refresh that began at epoch [e] takes a response. *)
Inductive responded (e race : nat) (allow : bool) (w : World)
    : World -> list Output -> RunState -> Prop :=
  | on_superseded :
      authEpoch w <> e ->
      responded e race allow w w [] (Finished (TransientError Superseded))
  | on_bundle v :
      authEpoch w = e -> isAuthBundle v = true ->
      responded e race allow w (with_auth (setBundle (asAuthBundle v) (auth w)) (bump w)) []
        (Finished (Authenticated (asAuthBundle v)))
  | on_race delay :
      authEpoch w = e -> refreshRaceDelays !! race = Some delay ->
      responded e race allow w w [StartTimer delay] (Sleeping (S race) allow)
  | on_mismatch :
      authEpoch w = e -> allow = true ->
      responded e race allow w (with_auth (reset Idle (auth w)) w) [SendRefresh None]
        (Requesting 0 false)
  | on_unauthorized :
      authEpoch w = e ->
      responded e race allow w (with_auth (reset Complete (auth w)) (bump w))
        (snd (clearAuthentication true Complete w)) (Finished Anonymous)
  | on_transient err :
      authEpoch w = e -> err <> Superseded ->
      responded e race allow w (with_auth (setBootstrapState Idle (auth w)) w) []
        (Finished (TransientError err))
  | on_out_of_sync code :
      authEpoch w = e ->
      responded e race allow w (with_auth (reset Complete (auth w)) (bump w)) []
        (Finished (OutOfSync code)).

Lemma superseded_epoch (e : nat) (w : World) :
  isSuperseded (runRefresh e) w = true <-> authEpoch w <> e.
Proof. unfold isSuperseded. simpl. rewrite negb_true_iff. apply Nat.eqb_neq. Qed.

Lemma not_superseded (e : nat) (w : World) :
  authEpoch w = e -> isSuperseded (runRefresh e) w = false.
Proof. intros <-. unfold isSuperseded. simpl. by rewrite Nat.eqb_refl. Qed.

Lemma run_current (e race : nat) (allow : bool) (w : World) :
  authEpoch w = e ->
  run (runRefresh e) race allow w =
  (w, [SendRefresh (sessionSID (auth w))], Requesting race allow).
Proof. intros H. unfold run. by rewrite not_superseded. Qed.

Lemma run_superseded (e race : nat) (allow : bool) (w : World) :
  authEpoch w <> e ->
  run (runRefresh e) race allow w = (w, [], Finished (TransientError Superseded)).
Proof. intros H. unfold run. by rewrite (proj2 (superseded_epoch e w) H). Qed.

(** A response that does not carry a bundle. *)
Lemma onFailure_spec (e race : nat) (allow : bool) (code : option str)
    (resp : AuthRefreshHTTPResponse) (w : World) :
  authEpoch w = e ->
  let '(w', out, st) := onFailure (runRefresh e) race allow code resp w in
  responded e race allow w w' out st.
Proof.
  intros He. unfold onFailure. rewrite !clearAnd_effect.
  assert (Hs : snd (clearAuthentication false Complete w) = []).
  { simpl. by destruct (sessionSID (auth w)). }
  rewrite Hs.
  destruct (_ && _).
  { destruct (refreshRaceDelays !! race) eqn:E; by constructor. }
  destruct (_ && _).
  { destruct allow; [|by constructor]. simpl. by rewrite run_current; [constructor|]. }
  destruct (status resp =? 401); [by constructor|].
  destruct (_ || _); [|by constructor].
  constructor; [done|]. by destruct (error resp).
Qed.

Lemma onResponse_spec (e race : nat) (allow : bool) (resp : AuthRefreshHTTPResponse)
    (w : World) :
  let '(w', out, st) := onResponse (runRefresh e) race allow resp w in
  responded e race allow w w' out st.
Proof.
  unfold onResponse. destruct (isSuperseded _ _) eqn:Es.
  { constructor. by apply superseded_epoch. }
  assert (He : authEpoch w = e).
  { destruct (decide (authEpoch w = e)) as [|Hn]; [done|].
    apply superseded_epoch in Hn. congruence. }
  clear Es. cbv zeta. set (rd := if isRecord _ then _ else _).
  destruct (parseBundle (runRefresh e) (oprop "data" rd)) as [b|] eqn:Eb.
  2: by destruct (oprop "success" rd) as [[|[]| | | |]|]; apply onFailure_spec.
  apply parseBundle_ok in Eb as [Hv ->].
  destruct (oprop "success" rd) as [[|[]| | | |]|]; try by apply onFailure_spec.
  by constructor.
Qed.

Lemma responded_effect (e race : nat) (allow : bool) (w w' : World) out st :
  responded e race allow w w' out st -> effect w w'.
Proof. intros []; auto using asAuthBundle_ok with auth. Qed.

(** Two worlds with the same store and epoch. *)
Definition agree (w w' : World) : Prop := auth w' = auth w /\ authEpoch w' = authEpoch w.

#[export] Instance agree_equivalence : Equivalence agree.
Proof. unfold agree. split; [by intros ?|by intros ?? []|]. intros ??? [] []. split; congruence. Qed.

Lemma agree_promise (p : option Refresh) (w : World) : agree w (with_promise p w).
Proof. done. Qed.

Lemma advance_run (r : Refresh) (e race : nat) (allow : bool) (w : World) :
  agree w (fst (advance r (run (runRefresh e) race allow) w)).
Proof. unfold advance, run. by destruct (isSuperseded _ _). Qed.

#[export] Hint Resolve agree_promise advance_run : auth.

Lemma refreshAuthentication_agree (hl : bool) (c : nat) (w : World) :
  agree w (fst (refreshAuthentication hl c w)).
Proof.
  unfold refreshAuthentication. destruct (refreshPromise w); [done|].
  destruct hl; [done|]. apply advance_run.
Qed.

(** A step has one effect on the store and the epoch. *)
Definition has_effect (w w' : World) : Prop := exists w0, effect w w0 /\ agree w0 w'.

Lemma has_effect_agree (w w' : World) : agree w w' -> has_effect w w'.
Proof. exists w. split; [constructor|done]. Qed.

Lemma has_effect_intro (w w' : World) : effect w w' -> has_effect w w'.
Proof. by exists w'. Qed.

#[export] Hint Resolve has_effect_agree has_effect_intro refreshAuthentication_agree : auth.

Lemma resolve_effect (hl : bool) (c : nat) (now : Z) (w : World) :
  has_effect w (fst (fst (resolveAuthentication hl c now w))).
Proof.
  unfold resolveAuthentication. destruct (currentValidAuthBundle _ _); simpl; [by auto with auth|].
  destruct (_ && _); simpl; [by auto with auth|].
  eexists. split; [apply effect_state|apply refreshAuthentication_agree].
Qed.

Lemma response_effect (resp : AuthRefreshHTTPResponse) (w : World) :
  has_effect w (fst (responseArrives resp w)).
Proof.
  unfold responseArrives. destruct (refreshPromise w) as [[e [|[race allow| |]|] ws]|];
    simpl; try by auto with auth.
  unfold advance. pose proof (onResponse_spec e race allow resp w) as H.
  destruct (onResponse _ _ _ _ _) as [[w' out] st].
  exists w'. by split; [eapply responded_effect|].
Qed.

Lemma step_effect (hl : bool) (e : Event) (w : World) : has_effect w (fst (step hl e w)).
Proof.
  destruct e; simpl; eauto using resolve_effect, response_effect with auth.
  - destruct (isAuthBundle value) eqn:E; simpl; auto using asAuthBundle_ok with auth.
  - destruct (applyAuthRotation value w) as [|s] eqn:E; simpl; auto with auth.
    apply rotation_ok in E as (b & Hb & ->). simpl. auto with auth.
  - unfold bootstrapAuthentication. destruct (_ && _); simpl; auto using resolve_effect with auth.
  - unfold getFreshAuthHeaders. destruct (tokenUsable _ _); simpl; auto with auth.
  - unfold onSyncEvent, clearAuthenticatedClientState, clearAuthentication.
    destruct kind; destruct (sessionSID _) as [x|]; repeat js_case; simpl; auto with auth.
  - unfold lockGranted, startRefresh. destruct (refreshPromise w) as [[? [] ?]|]; auto using advance_run with auth.
  - unfold lockRejected. destruct (refreshPromise w) as [[? [] ?]|]; simpl; auto with auth.
  - unfold timerFires.
    destruct (refreshPromise w) as [[? [|[]|] ?]|]; simpl; auto using advance_run with auth.
  - apply has_effect_agree. unfold finishRefresh.
    destruct (refreshPromise w) as [r|]; [|done]. by destruct (settled_phase _).
  - by apply has_effect_agree.
Qed.

Lemma step_auth_ok (hl : bool) (e : Event) (w : World) :
  auth_ok (auth w) -> auth_ok (auth (fst (step hl e w))).
Proof. destruct (step_effect hl e w) as (w0 & He & -> & _). by apply effect_auth_ok. Qed.

Lemma step_epoch (hl : bool) (e : Event) (w : World) :
  (authEpoch w <= authEpoch (fst (step hl e w)))%nat.
Proof. destruct (step_effect hl e w) as (w0 & He & _ & ->). by apply effect_epoch. Qed.

Lemma runs_cons (hl : bool) (e : Event) (es : list Event) (w : World) :
  runs hl (e :: es) w =
  (fst (runs hl es (fst (step hl e w))),
   snd (step hl e w) ++ snd (runs hl es (fst (step hl e w)))).
Proof. simpl. destruct (step hl e w) as [w1 o1]. simpl. by destruct (runs hl es w1). Qed.

Lemma runs_auth_ok (hl : bool) (es : list Event) (w : World) :
  auth_ok (auth w) -> auth_ok (auth (fst (runs hl es w))).
Proof.
  revert w. induction es as [|e es IH]; intros w Hw; [done|].
  rewrite runs_cons. apply IH, step_auth_ok, Hw.
Qed.

(** C28: The credentials in the store are complete or absent: whatever the user,
    the server and other tabs do, the store holds a token that is not empty,
    its expiry and a session with an identifier, or none of the three. *)
Theorem credentials_complete (hl : bool) (w : World) :
  reachable hl w -> auth_ok (auth w).
Proof. intros [es <-]. by apply runs_auth_ok. Qed.

(** ** Superseded refreshes

    Two worlds that differ only in where a superseded refresh is. *)
Inductive superseded_sim : World -> World -> Prop :=
  | Sim a ep e ph ph' ws rd :
      (e < ep)%nat ->
      superseded_sim (MkWorld a ep (Some (MkRefresh e ph ws)) rd)
                     (MkWorld a ep (Some (MkRefresh e ph' ws)) rd).

(** The world in which a refresh is in progress that was started before the
    last change of the session. *)
Definition superseded (w : World) : Prop :=
  match refreshPromise w with Some r => (refreshEpoch r < authEpoch w)%nat | None => False end.

Lemma superseded_sim_refl (w : World) : superseded w -> superseded_sim w w.
Proof. destruct w as [a ep [[e ph ws]|] rd]; simpl; [|done]. by constructor. Qed.

Lemma superseded_operation (hl : bool) (e : Event) (w w' : World) :
  superseded_sim w w' -> internal e = false -> e <> Finish ->
  superseded_sim (fst (step hl e w)) (fst (step hl e w')) /\
  snd (step hl e w) = snd (step hl e w').
Proof.
  intros [a ep e0 ph ph' ws rd Hlt] Hi Hf.
  destruct e; try done; simpl; try (split; [constructor; simpl; lia|done]).
  - destruct (isAuthBundle value); split; try done; constructor; simpl; lia.
  - destruct (applyAuthRotation value _) as [|s] eqn:E;
      unfold applyAuthRotation in *; simpl in *;
      repeat case_match; simplify_eq; (split; [constructor; simpl; lia|done]).
  - unfold resolveAuthentication. simpl.
    destruct (currentValidAuthBundle _ _); [|destruct (_ && _)];
      (split; [constructor; simpl; lia|done]).
  - unfold bootstrapAuthentication, resolveAuthentication. simpl.
    destruct (_ && _); [|destruct (currentValidAuthBundle _ _); [|destruct (_ && _)]];
      (split; [constructor; simpl; lia|done]).
  - unfold getFreshAuthHeaders. simpl.
    destruct (tokenUsable _ _); (split; [constructor; simpl; lia|done]).
  - unfold onSyncEvent, clearAuthenticatedClientState, clearAuthentication. simpl.
    destruct kind; destruct (sessionSID a) as [x|]; repeat js_case;
      (split; [constructor; simpl; lia|done]).
Qed.

Lemma superseded_internal (hl : bool) (e : Event) (w w' : World) :
  superseded_sim w w' -> internal e = true ->
  superseded_sim (fst (step hl e w)) w' /\ snd (step hl e w) = [].
Proof.
  intros [a ep e0 ph ph' ws rd Hlt] Hi.
  destruct e; try done; simpl; unfold lockGranted, lockRejected, responseArrives, timerFires; simpl.
  - destruct ph; simpl; try by split; [constructor|].
    unfold advance, startRefresh. rewrite run_superseded by (simpl; lia). by split; [constructor|].
  - destruct ph; simpl; by split; [constructor|].
  - destruct ph as [|[]|]; simpl; try by split; [constructor|].
    unfold advance. pose proof (onResponse_spec e0 raceAttempt allowMismatchRetry r
      (MkWorld a ep (Some (MkRefresh e0 (Running (Requesting raceAttempt allowMismatchRetry)) ws)) rd)) as H.
    destruct (onResponse _ _ _ _ _) as [[w1 out] st].
    inversion H; simplify_eq/=; try lia. by split; [constructor|].
  - destruct ph as [|[]|]; simpl; try by split; [constructor|].
    unfold advance. rewrite run_superseded by (simpl; lia). by split; [constructor|].
Qed.

Lemma superseded_runs (hl : bool) (es : list Event) (w w' : World) :
  superseded_sim w w' -> Finish ∉ es ->
  let '(w1, out1) := runs hl es w in
  let '(w2, out2) := runs hl (List.filter (fun e => negb (internal e)) es) w' in
  superseded_sim w1 w2 /\ out1 = out2.
Proof.
  revert w w'. induction es as [|e es IH]; intros w w' Hs Hf; [done|].
  apply not_elem_of_cons in Hf as [He Hf]. rewrite runs_cons. simpl List.filter.
  destruct (internal e) eqn:Ei; cbn [negb].
  - destruct (superseded_internal hl e w w' Hs Ei) as [Hs' ->].
    specialize (IH _ _ Hs' Hf). by destruct (runs hl es _), (runs hl _ w').
  - rewrite runs_cons. destruct (superseded_operation hl e w w' Hs Ei) as [Hs' ->]; [done|].
    specialize (IH _ _ Hs' Hf). destruct (runs hl es _), (runs hl (List.filter _ _) _). simpl.
    destruct IH as [? ->]. done.
Qed.

(** C20: A refresh that was started before the last sign-in, rotation or sign-out
    has no effect: as long as it has not ended, the store and everything the
    tab does to the outside are as if the steps of the refresh did not happen.
    In particular a late response cannot restore old credentials. *)
Theorem superseded_refresh_inert (hl : bool) (es : list Event) (w : World) :
  superseded w -> Finish ∉ es ->
  let '(w1, out1) := runs hl es w in
  let '(w2, out2) := runs hl (List.filter (fun e => negb (internal e)) es) w in
  auth w1 = auth w2 /\ authEpoch w1 = authEpoch w2 /\ out1 = out2.
Proof.
  intros Hw Hf. pose proof (superseded_runs hl es w w (superseded_sim_refl w Hw) Hf) as H.
  destruct (runs hl es w), (runs hl (List.filter _ _) w). by destruct H as [[] ->].
Qed.

(** ** Every refresh ends *)

(** How many requests a run may still have answered. *)
Definition budget (st : RunState) : nat :=
  match st with
  | Requesting race allow | Sleeping race allow =>
      S (3 - race) + (if allow then 4 else 0)
  | Finished _ => 0
  end.

Definition phase_budget (p : Phase) : nat :=
  match p with LockWait => 8 | Running st => budget st | LockFailed _ => 0 end.

Definition is_send (o : Output) : bool := match o with SendRefresh _ => true | _ => false end.

Definition sends (out : list Output) : nat := length (List.filter is_send out).

Lemma sends_app (o1 o2 : list Output) : sends (o1 ++ o2) = (sends o1 + sends o2)%nat.
Proof. unfold sends. by rewrite List.filter_app, length_app. Qed.

Lemma delays_bound (race : nat) (d : Z) : refreshRaceDelays !! race = Some d -> (race < 3)%nat.
Proof. apply (lookup_lt_Some refreshRaceDelays). Qed.

Lemma signout_sends (sync : bool) (s : AuthBootstrapState) (w : World) :
  sends (snd (clearAuthentication sync s w)) = 0%nat.
Proof.
  simpl. destruct (sessionSID _) as [x|]; [|done]. destruct (_ && _); [|done].
  unfold publishAuthSessionEvent. by destruct (truthy_str x).
Qed.

(** Requests that were sent but are not counted by the budget of what follows:
    a request in progress is counted by the budget. *)
Definition spent (st : RunState) : nat := match st with Requesting _ _ => 1 | _ => 0 end.

Lemma responded_budget (e race : nat) (allow : bool) (w w' : World) out st :
  responded e race allow w w' out st ->
  (budget st < budget (Requesting race allow))%nat /\
  (sends out = spent st)%nat.
Proof.
  intros H. inversion H; subst; cbn [budget spent].
  all: try (split; [lia|first [done|apply signout_sends]]).
  all: try match goal with D : _ !! _ = Some _ |- _ => apply delays_bound in D end.
  all: split; [lia|done].
Qed.

Lemma run_budget (e race : nat) (allow : bool) (w : World) :
  let '(w', out, st) := run (runRefresh e) race allow w in
  (budget st <= budget (Requesting race allow))%nat /\ sends out = spent st.
Proof. unfold run. destruct (isSuperseded _ _); simpl; split; (lia || done). Qed.

(** Answering the request of a refresh, and letting its timer fire. *)
Definition answer (hl : bool) (resp : AuthRefreshHTTPResponse) (w : World) : World :=
  fst (runs hl [Response resp; Timer] w).

(** A refresh in progress, with the store and callers left out. *)
Definition in_phase (P : Phase -> Prop) (ws : list nat) (rd : list (nat * Settled RefreshOutcome))
    (w : World) : Prop :=
  ready w = rd /\
  exists r, refreshPromise w = Some r /\ awaiting r = ws /\ P (phase r).

Definition running_within (n : nat) (p : Phase) : Prop :=
  match p with
  | Running (Requesting race allow) => (budget (Requesting race allow) <= n)%nat
  | Running (Finished _) => True
  | _ => False
  end.

Lemma responded_ready (e race : nat) (allow : bool) (w w' : World) out st :
  responded e race allow w w' out st -> ready w' = ready w.
Proof. by intros []. Qed.

Lemma answer_within (hl : bool) (n : nat) (resp : AuthRefreshHTTPResponse) ws rd (w : World) :
  in_phase (running_within (S n)) ws rd w -> in_phase (running_within n) ws rd (answer hl resp w).
Proof.
  intros (Hr & [e ph ws'] & Hp & <- & Hph). unfold answer. rewrite !runs_cons. simpl.
  destruct ph as [|[race allow| |o]|]; simpl in *; try done.
  2: { unfold responseArrives, timerFires. rewrite Hp. simpl. rewrite Hp. simpl.
       split; [done|]. by eexists. }
  unfold responseArrives. rewrite Hp. simpl. unfold advance.
  pose proof (onResponse_spec e race allow resp w) as H.
  destruct (onResponse _ _ _ _ _) as [[w1 out] st].
  pose proof (responded_ready _ _ _ _ _ _ _ H) as Hr1. rewrite Hr in Hr1.
  apply responded_budget in H as [Hb _]. cbn [budget] in Hb.
  unfold timerFires. simpl. destruct st as [race' allow'|race' allow'|o]; simpl.
  - split; [done|]. eexists. split; [done|]. split; [done|]. simpl. cbn [budget] in *. lia.
  - unfold advance.
    match goal with |- context [run ?rt ?a ?b ?c] => pose proof (run_budget e a b c) as Hrun end.
    unfold run in *. destruct (isSuperseded _ _); simpl; (split; [done|]);
      (eexists; split; [done|]; split; [done|]); simpl; [done|]. cbn [budget] in *. lia.
  - split; [done|]. by eexists.
Qed.

Lemma answers_within (hl : bool) (resps : list AuthRefreshHTTPResponse) (n : nat) ws rd (w : World) :
  in_phase (running_within (length resps + n)) ws rd w ->
  in_phase (running_within n) ws rd (fold_left (fun w r => answer hl r w) resps w).
Proof.
  revert w. induction resps as [|r resps IH]; intros w H; [done|]. simpl in *.
  apply IH. by apply answer_within.
Qed.

Lemma start_within (hl : bool) (w : World) (c : nat) :
  refreshPromise w = None ->
  in_phase (running_within 8) [c] (ready w) (fst (runs hl [Join c; LockGranted] w)).
Proof.
  intros Hn. rewrite !runs_cons. simpl. unfold refreshAuthentication. rewrite Hn.
  destruct hl; simpl; unfold lockGranted, advance, startRefresh; simpl;
    (rewrite run_current by done); (split; [done|]); eexists; (split_and!; [done|done|cbn; lia]).
Qed.

(** C27: Every refresh ends: once a caller has started one and the lock is granted,
    any eight responses of the server (with the timers between them) settle
    the promise, and the caller goes on with its outcome. *)
Theorem refresh_ends (hl : bool) (w : World) (c : nat) (resps : list AuthRefreshHTTPResponse) :
  refreshPromise w = None -> length resps = 8%nat ->
  let w1 := fst (runs hl [Join c; LockGranted] w) in
  let w2 := fst (step hl Finish (fold_left (fun w r => answer hl r w) resps w1)) in
  refreshPromise w2 = None /\ exists o, ready w2 = ready w ++ [(c, Resolved o)].
Proof.
  intros Hn Hl w1. pose proof (start_within hl w c Hn : in_phase _ _ _ w1) as H. clearbody w1.
  replace 8%nat with (length resps + 0)%nat in H by lia.
  apply (answers_within hl) in H as (Hr & [e ph ws] & Hp & Hws & Hph). simpl in Hws, Hph.
  unfold step, finishRefresh. cbv zeta. rewrite Hp. simpl. subst ws.
  destruct ph as [|[race allow| |o]|]; simpl in Hph; try done; [cbn [budget] in Hph; lia|].
  simpl. split; [done|]. exists o. by rewrite Hr.
Qed.

(** ** Requests of a refresh *)

(** How many requests may still be sent before a refresh ends. *)
Definition remaining (w : World) : nat :=
  match refreshPromise w with
  | Some r =>
      match phase r with
      | Running (Requesting race allow) => budget (Requesting race allow) - 1
      | p => phase_budget p
      end
  | None => 8
  end.

Lemma remaining_keeps (w w' : World) : refreshPromise w' = refreshPromise w -> remaining w' = remaining w.
Proof. unfold remaining. by intros ->. Qed.

Lemma remaining_running (w : World) e st ws :
  (spent st + remaining (with_promise (Some (MkRefresh e (Running st) ws)) w) <= budget st)%nat.
Proof. unfold remaining. destruct st; simpl; lia. Qed.

Lemma advance_run_remaining (r : Refresh) (e race : nat) (allow : bool) (w : World) :
  let '(w', out) := advance r (run (runRefresh e) race allow) w in
  (sends out + remaining w' <= budget (Requesting race allow))%nat.
Proof.
  unfold advance. pose proof (run_budget e race allow w) as H.
  destruct (run _ _ _ _) as [[w' out] st]. destruct H as [H ->].
  pose proof (remaining_running w' (refreshEpoch r) st (awaiting r)). lia.
Qed.

Lemma refreshAuthentication_remaining (hl : bool) (c : nat) (w : World) :
  let '(w', out) := refreshAuthentication hl c w in
  (sends out + remaining w' <= remaining w)%nat.
Proof.
  unfold refreshAuthentication. destruct (refreshPromise w) as [r|] eqn:E.
  { unfold remaining. rewrite E. simpl. lia. }
  unfold remaining at 2. rewrite E. destruct hl; [cbn; lia|]. apply advance_run_remaining.
Qed.

Lemma quiet_step (w : World) (s : Step) :
  refreshPromise (fst s) = refreshPromise w -> sends (snd s) = 0%nat ->
  (sends (snd s) + remaining (fst s) <= remaining w)%nat.
Proof. intros Hp ->. rewrite (remaining_keeps w) by done. lia. Qed.

Lemma publish_sends (k : SyncKind) (s : str) : sends (publishAuthSessionEvent k s) = 0%nat.
Proof. unfold publishAuthSessionEvent. by destruct (truthy_str s). Qed.

Lemma bundle_quiet (b : AuthBundle) (sync : bool) (w : World) :
  sends (snd (applyAuthBundle b sync w)) = 0%nat.
Proof. simpl. destruct (_ && _); [apply publish_sends|done]. Qed.

Lemma resolve_remaining (hl : bool) (c : nat) (now : Z) (w : World) :
  let s := fst (resolveAuthentication hl c now w) in
  (sends (snd s) + remaining (fst s) <= remaining w)%nat.
Proof.
  unfold resolveAuthentication. destruct (currentValidAuthBundle _ _); [by apply quiet_step|].
  destruct (_ && _); [by apply quiet_step|].
  pose proof (refreshAuthentication_remaining hl c
    (with_auth (setBootstrapState Checking (auth w)) w)) as H.
  by destruct (refreshAuthentication _ _ _).
Qed.

Lemma response_remaining (resp : AuthRefreshHTTPResponse) (w : World) :
  let s := responseArrives resp w in
  (sends (snd s) + remaining (fst s) <= remaining w)%nat.
Proof.
  cbv zeta. unfold responseArrives.
  destruct (refreshPromise w) as [[e [|[race allow| |]|] ws]|] eqn:E; try by apply quiet_step.
  unfold advance. pose proof (onResponse_spec e race allow resp w) as H.
  destruct (onResponse _ _ _ _ _) as [[w' out] st]. cbn [fst snd refreshEpoch awaiting]. apply responded_budget in H as [Hb ->].
  pose proof (remaining_running w' e st ws). unfold remaining at 2. rewrite E. simpl in *. lia.
Qed.

Lemma sync_quiet (k : SyncKind) (s : str) (w : World) :
  refreshPromise (fst (onSyncEvent k s w)) = refreshPromise w /\ sends (snd (onSyncEvent k s w)) = 0%nat.
Proof.
  unfold onSyncEvent, clearAuthenticatedClientState, clearAuthentication.
  destruct k; destruct (sessionSID _) as [x|]; repeat js_case; done.
Qed.

Lemma step_remaining (hl : bool) (e : Event) (w : World) :
  e <> Finish ->
  (sends (snd (step hl e w)) + remaining (fst (step hl e w)) <= remaining w)%nat.
Proof.
  intros He. destruct e; try done; cbn [step];
    try (by apply quiet_step); try apply resolve_remaining; try apply response_remaining.
  - destruct (isAuthBundle value); [|by apply quiet_step].
    apply quiet_step; [done|apply bundle_quiet].
  - apply quiet_step; [done|apply signout_sends].
  - destruct (applyAuthRotation value w) as [|s] eqn:E; [by apply quiet_step|].
    apply rotation_ok in E as (b & _ & ->). by apply quiet_step; [|apply bundle_quiet].
  - pose proof (refreshAuthentication_remaining hl caller w). by destruct (refreshAuthentication _ _ _).
  - unfold bootstrapAuthentication. destruct (_ && _); [by apply quiet_step|apply resolve_remaining].
  - unfold getFreshAuthHeaders. destruct (tokenUsable _ _); [by apply quiet_step|].
    pose proof (refreshAuthentication_remaining hl caller w). by destruct (refreshAuthentication _ _ _).
  - apply quiet_step; apply sync_quiet.
  - unfold lockGranted. destruct (refreshPromise w) as [[e [] ws]|] eqn:E; try by apply quiet_step.
    pose proof (advance_run_remaining (MkRefresh e LockWait ws) e 0 true w) as H. unfold startRefresh.
    destruct (advance _ _ _). unfold remaining at 2. rewrite E. exact H.
  - unfold lockRejected. destruct (refreshPromise w) as [[e [] ws]|] eqn:E; try by apply quiet_step.
    unfold remaining. rewrite E. cbn. lia.
  - unfold timerFires. destruct (refreshPromise w) as [[e [|[]|] ws]|] eqn:E; try by apply quiet_step.
    match goal with |- context [advance ?r (run _ ?a ?b) w] =>
      pose proof (advance_run_remaining r e a b w) as H end.
    destruct (advance _ _ _). unfold remaining at 2. rewrite E. exact H.
Qed.

Lemma runs_remaining (hl : bool) (es : list Event) (w : World) :
  Finish ∉ es -> (sends (snd (runs hl es w)) + remaining (fst (runs hl es w)) <= remaining w)%nat.
Proof.
  revert w. induction es as [|e es IH]; intros w Hf; [done|].
  apply not_elem_of_cons in Hf as [He Hf]. rewrite runs_cons. cbn [fst snd]. rewrite sends_app.
  pose proof (step_remaining hl e w (not_eq_sym He)). specialize (IH (fst (step hl e w)) Hf). lia.
Qed.

(** Refreshes are bounded: whatever happens, at most eight requests are sent
    before a refresh ends and another can start. *)
Theorem refresh_requests_bounded (hl : bool) (es : list Event) (w : World) :
  refreshPromise w = None -> Finish ∉ es -> (sends (snd (runs hl es w)) <= 8)%nat.
Proof.
  intros Hn Hf. pose proof (runs_remaining hl es w Hf) as H.
  unfold remaining in H at 2. rewrite Hn in H. lia.
Qed.

(** ** One request at a time *)

(** Whether a request of the refresh is outstanding. *)
Definition outstanding (w : World) : nat :=
  match refreshPromise w with
  | Some r => match phase r with Running st => spent st | _ => 0 end
  | None => 0
  end.

Definition answers (e : Event) (w : World) : nat :=
  match e with Response _ => outstanding w | _ => 0 end.

(** How many responses of a sequence of events are taken by a refresh. *)
Fixpoint answered (hl : bool) (es : list Event) (w : World) : nat :=
  match es with
  | [] => 0
  | e :: es' => answers e w + answered hl es' (fst (step hl e w))
  end.

Definition balanced (n : nat) (w : World) (s : Step) : Prop :=
  (sends (snd s) + outstanding w = n + outstanding (fst s))%nat.

Lemma quiet_step_balanced (w : World) (s : Step) :
  refreshPromise (fst s) = refreshPromise w -> sends (snd s) = 0%nat -> balanced 0 w s.
Proof. unfold balanced, outstanding. by intros -> ->. Qed.

Lemma advance_balanced (n : nat) (r : Refresh) f (w : World) :
  outstanding w = n ->
  (let '(w', out, st) := f w in sends out = spent st) ->
  balanced n w (advance r f w).
Proof.
  unfold balanced, advance. destruct (f w) as [[w' out] st]. intros <- H. cbn [fst snd].
  change (outstanding (with_promise _ w')) with (spent st). lia.
Qed.

Lemma run_sends (e race : nat) (allow : bool) (w : World) :
  let '(w', out, st) := run (runRefresh e) race allow w in sends out = spent st.
Proof.
  pose proof (run_budget e race allow w) as H. destruct (run _ _ _ _) as [[??]?]. by destruct H.
Qed.

Lemma response_sends (e race : nat) (allow : bool) resp (w : World) :
  let '(w', out, st) := onResponse (runRefresh e) race allow resp w in sends out = spent st.
Proof.
  pose proof (onResponse_spec e race allow resp w) as H.
  destruct (onResponse _ _ _ _ _) as [[w' out] st]. by apply responded_budget in H as [_ H].
Qed.

Lemma refreshAuthentication_balanced (hl : bool) (c : nat) (w : World) :
  balanced 0 w (refreshAuthentication hl c w).
Proof.
  unfold refreshAuthentication. destruct (refreshPromise w) as [r|] eqn:E.
  { unfold balanced, outstanding. by rewrite E. }
  destruct hl; [unfold balanced, outstanding; by rewrite E|].
  apply advance_balanced; [unfold outstanding; by rewrite E|apply run_sends].
Qed.

Lemma resolve_balanced (hl : bool) (c : nat) (now : Z) (w : World) :
  balanced 0 w (fst (resolveAuthentication hl c now w)).
Proof.
  unfold resolveAuthentication. destruct (currentValidAuthBundle _ _); [by apply quiet_step_balanced|].
  destruct (_ && _); [by apply quiet_step_balanced|].
  apply (refreshAuthentication_balanced hl c (with_auth (setBootstrapState Checking (auth w)) w)).
Qed.

Lemma step_balanced (hl : bool) (e : Event) (w : World) :
  balanced (answers e w) w (step hl e w).
Proof.
  destruct e; cbn [step answers];
    try (by apply quiet_step_balanced); try apply refreshAuthentication_balanced;
    try apply resolve_balanced.
  - destruct (isAuthBundle value); [|by apply quiet_step_balanced].
    apply quiet_step_balanced; [done|apply bundle_quiet].
  - apply quiet_step_balanced; [done|apply signout_sends].
  - destruct (applyAuthRotation value w) as [|s] eqn:E; [by apply quiet_step_balanced|].
    apply rotation_ok in E as (b & _ & ->). by apply quiet_step_balanced; [|apply bundle_quiet].
  - unfold bootstrapAuthentication. destruct (_ && _); [by apply quiet_step_balanced|apply resolve_balanced].
  - unfold getFreshAuthHeaders.
    destruct (tokenUsable _ _); [by apply quiet_step_balanced|apply refreshAuthentication_balanced].
  - apply quiet_step_balanced; apply sync_quiet.
  - unfold lockGranted. destruct (refreshPromise w) as [[e [] ws]|] eqn:E; try by apply quiet_step_balanced.
    apply advance_balanced; [unfold outstanding; by rewrite E|apply run_sends].
  - unfold lockRejected. destruct (refreshPromise w) as [[e [] ws]|] eqn:E; try by apply quiet_step_balanced.
    unfold balanced, outstanding. by rewrite E.
  - unfold responseArrives.
    destruct (refreshPromise w) as [[e [|[]|] ws]|] eqn:E;
      try by (unfold balanced, outstanding; simpl; rewrite ?E; simpl).
    apply advance_balanced; [done|apply response_sends].
  - unfold timerFires.
    destruct (refreshPromise w) as [[e [|[]|] ws]|] eqn:E; try by apply quiet_step_balanced.
    apply advance_balanced; [unfold outstanding; by rewrite E|apply run_sends].
  - unfold finishRefresh. destruct (refreshPromise w) as [[e ph ws]|] eqn:E; [|by apply quiet_step_balanced].
    simpl. destruct (settled_phase ph) eqn:Es; [|by apply quiet_step_balanced].
    unfold balanced, outstanding. rewrite E. by destruct ph as [|[]|].
Qed.

Lemma outstanding_le (w : World) : (outstanding w <= 1)%nat.
Proof.
  unfold outstanding. destruct (refreshPromise w) as [r|]; [|lia].
  destruct (phase r) as [|[]|]; simpl; lia.
Qed.

Lemma runs_balanced (hl : bool) (es : list Event) (w : World) :
  (sends (snd (runs hl es w)) + outstanding w =
   answered hl es w + outstanding (fst (runs hl es w)))%nat.
Proof.
  revert w. induction es as [|e es IH]; intros w; [done|].
  rewrite runs_cons. cbn [fst snd answered]. rewrite sends_app.
  pose proof (step_balanced hl e w) as H. unfold balanced in H.
  specialize (IH (fst (step hl e w))). lia.
Qed.

(** Refreshes are single-flight: however many callers ask for one, in every
    run of a tab the requests that were sent are the requests that were
    answered, and at most one more. *)
Theorem single_flight (hl : bool) (es : list Event) :
  (answered hl es initialWorld <= sends (snd (runs hl es initialWorld)) <=
   answered hl es initialWorld + 1)%nat.
Proof.
  pose proof (runs_balanced hl es initialWorld) as H.
  pose proof (outstanding_le (fst (runs hl es initialWorld))). change (outstanding initialWorld) with 0%nat in H.
  lia.
Qed.

(** ** Failures that may be retried *)

Definition transient_status (s : Z) : bool := (s =? 0) || (500 <=? s) || (s =? 429).

Lemma onResponse_transient (e race : nat) (allow : bool) (resp : AuthRefreshHTTPResponse)
    (w : World) :
  authEpoch w = e -> transient_status (status resp) = true ->
  isRecord (data resp) = false ->
  exists err, onResponse (runRefresh e) race allow resp w =
    (with_auth (setBootstrapState Idle (auth w)) w, [], Finished (TransientError err)).
Proof.
  intros He Ht Hd. unfold onResponse, onFailure. rewrite not_superseded, Hd by done. simpl.
  assert (Hs : (status resp =? 409) = false /\ (status resp =? 401) = false).
  { unfold transient_status in Ht. split; apply Z.eqb_neq; intros E; rewrite E in Ht; discriminate. }
  destruct Hs as [-> ->]. simpl. fold (transient_status (status resp)). rewrite Ht. by eexists.
Qed.

Lemma resolve_starts (hl : bool) (c : nat) (now : Z) (w : World) :
  refreshPromise w = None -> currentValidAuthBundle now (auth w) = None ->
  bootstrapState (auth w) = Idle ->
  let s := resolveAuthentication hl c now w in
  snd s = Awaits /\
  exists p, refreshPromise (fst (fst s)) = Some (MkRefresh (authEpoch w) p [c]) /\
    settled_phase p = None.
Proof.
  intros Hn Hv Hb. unfold resolveAuthentication. rewrite Hv, Hb.
  rewrite bool_decide_eq_false_2 by done. cbn [andb fst snd]. split; [done|].
  unfold refreshAuthentication. cbn [refreshPromise with_auth]. rewrite Hn.
  destruct hl; [by eexists|]. unfold advance, startRefresh.
  rewrite run_current by done. by eexists.
Qed.

(** A refresh that fails for a reason that may pass (no answer, 429, a server
    error) keeps the user, the token and the session, and does not count as a
    verdict: when it has ended, resolving the authentication of an expired
    token asks the server again. *)
Theorem transient_failure_retryable (hl : bool) (w : World) (race : nat) (allow : bool)
    (ws : list nat) (resp : AuthRefreshHTTPResponse) (c : nat) (now : Z) :
  refreshPromise w = Some (MkRefresh (authEpoch w) (Running (Requesting race allow)) ws) ->
  transient_status (status resp) = true -> isRecord (data resp) = false ->
  currentValidAuthBundle now (auth w) = None ->
  let w' := fst (runs hl [Response resp; Finish] w) in
  user (auth w') = user (auth w) /\ accessToken (auth w') = accessToken (auth w) /\
  session (auth w') = session (auth w) /\
  snd (resolveAuthentication hl c now w') = Awaits /\
  exists p, refreshPromise (fst (fst (resolveAuthentication hl c now w'))) =
    Some (MkRefresh (authEpoch w) p [c]) /\ settled_phase p = None.
Proof.
  intros Hp Ht Hd Hv w'.
  destruct (onResponse_transient (authEpoch w) race allow resp w) as (err & He); [done..|].
  assert (Hw : w' = MkWorld (setBootstrapState Idle (auth w)) (authEpoch w) None
                     (ready w ++ map (fun c => (c, Resolved (TransientError err))) ws)).
  { subst w'. rewrite !runs_cons. cbn [step fst]. unfold responseArrives. rewrite Hp.
    unfold advance. by rewrite He. }
  rewrite Hw. do 3 (split; [done|]). by apply (resolve_starts hl c now (MkWorld _ _ None _)).
Qed.

(** ** The session hint *)

(** A missing hint is not a verdict: on the public boot path a visitor without
    the hint cookie is taken for anonymous without a request and without a
    change of the state, and when authentication matters, the server is asked
    after all and a session that it still knows is restored. *)
Theorem hint_is_not_a_verdict (hl : bool) (cookie : str) (c c' : nat) (now now' : Z)
    (v : json) (s : Z) (err : option str) :
  readCookie cookie SESSION_HINT_COOKIE_NAME = None -> isAuthBundle (Some v) = true ->
  let boot := bootstrapAuthentication hl (Some cookie) c now initialWorld in
  boot = (initialWorld, [], Returned Anonymous) /\
  let body := JObj [(js "success", JBool true); (js "data", v)] in
  let w := fst (runs hl [Resolve c' now'; LockGranted; Response (MkResponse s (Some body) err)]
                  (fst (fst boot))) in
  auth w = setBundle (asAuthBundle (Some v)) initialAuth.
Proof.
  intros Hc Hv. unfold bootstrapAuthentication, hasSessionHint. rewrite Hc.
  rewrite bool_decide_eq_false_2 by (by intros [? [=]]). split; [done|].
  rewrite !runs_cons. cbn [step fst]. unfold resolveAuthentication. simpl.
  unfold refreshAuthentication. simpl.
  destruct hl; unfold advance, startRefresh, lockGranted; simpl;
    unfold responseArrives; simpl; unfold advance, onResponse; simpl; by rewrite Hv.
Qed.

(** ** The lock *)

(** When the browser refuses the lock, the failure is not turned into a
    transient outcome: the caller's promise is rejected and the bootstrap state
    stays at checking, although no refresh is in progress. *)
Theorem lock_rejection_escapes (w : World) (c : nat) (now : Z) (err : str) :
  refreshPromise w = None -> currentValidAuthBundle now (auth w) = None ->
  bootstrapState (auth w) = Idle ->
  let w' := fst (runs true [Resolve c now; LockRejected err; Finish] w) in
  refreshPromise w' = None /\ bootstrapState (auth w') = Checking /\
  ready w' = ready w ++ [(c, Rejected err)].
Proof.
  intros Hn Hv Hb. rewrite !runs_cons. cbn [step fst].
  unfold resolveAuthentication. rewrite Hv, Hb. rewrite bool_decide_eq_false_2 by done.
  cbn [andb fst snd]. unfold refreshAuthentication. cbn [refreshPromise with_auth]. by rewrite Hn.
Qed.

(** ** Concrete runs *)

Definition sample_session (s : string) : json :=
  JObj [(js "sid", JStr (js s)); (js "current", JBool true);
        (js "login_method", JStr (js "password")); (js "ip", JStr (js "::1"));
        (js "user_agent", JStr (js "test")); (js "created_at", JNum (num_of_Z 100));
        (js "last_active_at", JNum (num_of_Z 100)); (js "expires_at", JNum (num_of_Z 1000))].

Definition sample_bundle (s : string) : json :=
  JObj [(js "access_token", JStr (js "token")); (js "token_type", JStr (js "Bearer"));
        (js "access_expires_at", JNum (num_of_Z 600));
        (js "user", JObj [(js "id", JNum (num_of_Z 42)); (js "username", JStr (js "u"));
                          (js "role", JNum (num_of_Z 1))]);
        (js "session", sample_session s)].

Definition sample_body (s : string) : json :=
  JObj [(js "success", JBool true); (js "data", sample_bundle s)].

Definition sample_login : Event := Login (Some (sample_bundle "a")).

Definition sample_world : World := fst (runs true [Join 0; LockGranted; sample_login] initialWorld).

Lemma credentials_complete_witness :
  reachable true sample_world /\ sessionSID (auth sample_world) = Some (js "a") /\
  auth_ok (auth sample_world).
Proof.
  assert (H : reachable true sample_world) by (by exists [Join 0; LockGranted; sample_login]).
  split; [exact H|]. split; [vm_compute; reflexivity|].
  exact (credentials_complete true sample_world H).
Defined.

(** The response to a refresh that was sent before the user signed in. *)
Lemma superseded_refresh_inert_witness :
  let late := [Response (MkResponse 401 None None)] in
  superseded sample_world /\
  auth (fst (runs true late sample_world)) = auth sample_world.
Proof.
  intros late. split; [vm_compute; lia|].
  refine (proj1 (superseded_refresh_inert true late sample_world _ _)).
  - vm_compute. lia.
  - by apply not_elem_of_cons; split; [|apply not_elem_of_nil].
Defined.

Lemma refresh_ends_witness :
  let race := MkResponse 409 (Some (JObj [(js "code", JStr (js "AUTH_REFRESH_RACE"))])) None in
  let w1 := fst (runs true [Join 0; LockGranted] initialWorld) in
  let w2 := fst (step true Finish
    (fold_left (fun w r => answer true r w) (repeat race 8) w1)) in
  refreshPromise w2 = None /\ exists o, ready w2 = [(0%nat, Resolved o)].
Proof. intros race. exact (refresh_ends true initialWorld 0 (repeat race 8) eq_refl eq_refl). Defined.

Lemma refresh_requests_bounded_witness :
  let race := MkResponse 409 (Some (JObj [(js "code", JStr (js "AUTH_REFRESH_RACE"))])) None in
  let mismatch :=
    MkResponse 409 (Some (JObj [(js "code", JStr (js "AUTH_SESSION_MISMATCH"))])) None in
  let es := [Join 0; Response race; Timer; Response race; Timer; Response race; Timer;
             Response mismatch; Response race; Timer; Response race; Timer; Response race; Timer] in
  sends (snd (runs false es initialWorld)) = 8%nat /\
  (sends (snd (runs false es initialWorld)) <= 8)%nat.
Proof.
  intros race mismatch es. split; [vm_compute; reflexivity|].
  refine (refresh_requests_bounded false es initialWorld eq_refl _).
  intros H. repeat (apply elem_of_cons in H as [H|H]; [discriminate H|]). by apply not_elem_of_nil in H.
Defined.

Lemma transient_failure_retryable_witness :
  let w := fst (runs false [sample_login; FreshHeaders 1 700000] initialWorld) in
  let down := MkResponse 503 None (Some (js "unavailable")) in
  let w' := fst (runs false [Response down; Finish] w) in
  sessionSID (auth w) = Some (js "a") /\ session (auth w') = session (auth w) /\
  snd (resolveAuthentication false 2 700000 w') = Awaits.
Proof.
  intros w down w'. split; [vm_compute; reflexivity|].
  assert (Hp : refreshPromise w = Some (MkRefresh (authEpoch w) (Running (Requesting 0 true)) [1%nat]))
    by (vm_compute; reflexivity).
  assert (Hv : currentValidAuthBundle 700000 (auth w) = None) by (vm_compute; reflexivity).
  destruct (transient_failure_retryable false w 0 true [1%nat] down 2 700000 Hp eq_refl eq_refl Hv)
    as (_ & _ & Hs & Ha & _).
  exact (conj Hs Ha).
Defined.

Lemma hint_is_not_a_verdict_witness :
  let boot := bootstrapAuthentication true (Some (js "theme=dark")) 0 0 initialWorld in
  boot = (initialWorld, [], Returned Anonymous) /\
  auth (fst (runs true [Resolve 1 0; LockGranted; Response (MkResponse 200 (Some (sample_body "a")) None)]
               (fst (fst boot)))) = setBundle (asAuthBundle (Some (sample_bundle "a"))) initialAuth.
Proof.
  refine (hint_is_not_a_verdict true (js "theme=dark") 0 1 0 0 (sample_bundle "a") 200 None _ _);
    vm_compute; reflexivity.
Defined.

Lemma lock_rejection_escapes_witness :
  let w' := fst (runs true [Resolve 0 0; LockRejected (js "SecurityError"); Finish] initialWorld) in
  refreshPromise w' = None /\ bootstrapState (auth w') = Checking /\
  ready w' = [(0%nat, Rejected (js "SecurityError"))].
Proof. exact (lock_rejection_escapes initialWorld 0 0 (js "SecurityError") eq_refl eq_refl eq_refl). Defined.
