(* ===== verification/AuthTabs.v ===== *)
(** * Several tabs

    Models [src/web/src/lib/auth-session-sync.ts] and the tabs that it
    connects: a sign-in or sign-out is published to the other tabs, which
    check the event and apply it ([onSyncEvent] of [AuthSession]), and a
    refresh runs while its tab holds the lock that the browser shares between
    the tabs.

    A message on the channel reaches every subscriber, also the one of the tab
    that published it, in any order with respect to the other messages and to
    the steps of the tabs.  The identifiers of tabs and events are random in
    the code; here the identifier of a tab is a parameter.

    The theorems show that the event of a sign-out ends the session in every
    tab that has it, for good; that at most one tab runs a refresh; and that an
    event causes no event. *)

From stdpp Require Import base list.
From Stdlib Require Import ZArith NArith Lia.
From S2P Require Import Prelude JsString JsNumber JsJson JsonRoundTrip AuthSession AuthLaws.

Local Open Scope Z_scope.

(** ** Events *)

Record AuthSessionSyncEvent : Type := MkSyncEvent {
  ev_kind : SyncKind;
  ev_sid : str;
  ev_source : str;
  ev_nonce : str;
  ev_timestamp : num;
}.

Definition kind_name (k : SyncKind) : str :=
  match k with SyncAuthenticated => js "authenticated" | SyncSignedOut => js "signed_out" end.

(** The event as it is sent: an object on the channel, JSON text in the storage. *)
Definition event_json (e : AuthSessionSyncEvent) : json :=
  JObj [(js "kind", JStr (kind_name (ev_kind e))); (js "sid", JStr (ev_sid e));
        (js "source", JStr (ev_source e)); (js "nonce", JStr (ev_nonce e));
        (js "timestamp", JNum (ev_timestamp e))].

Definition parse_kind (v : option json) : option SyncKind :=
  match v with
  | Some (JStr s) =>
      if s =?s "authenticated" then Some SyncAuthenticated
      else if s =?s "signed_out" then Some SyncSignedOut else None
  | _ => None
  end.

Definition isAuthSessionSyncEvent (v : option json) : bool :=
  isRecord v && bool_decide (is_Some (parse_kind (oprop "kind" v))) &&
  is_nonempty_string (oprop "sid" v) && is_string (oprop "source" v) &&
  is_string (oprop "nonce" v) && is_number (oprop "timestamp" v).

(** [Math.abs(Date.now() - timestamp) < 60_000]. *)
Definition recent (now : Z) (timestamp : num) : bool :=
  let d := num_sub (num_of_Z now) timestamp in
  let abs := if num_lt d num_zero then num_sub num_zero d else d in
  num_lt abs (num_of_Z 60000).

(** [deliver]: what the listener is called with, if it is called. *)
Definition deliver (authSyncSource : str) (now : Z) (value : option json)
    : option (SyncKind * str) :=
  if isAuthSessionSyncEvent value
     && negb (string_of (oprop "source" value) =?s authSyncSource)
     && recent now (number_of (oprop "timestamp" value))
  then (fun k => (k, string_of (oprop "sid" value))) <$> parse_kind (oprop "kind" value)
  else None.

Definition AUTH_SYNC_STORAGE_KEY : str := js "new-api:auth-session:event".

(** [handleStorage], where the browser has no channels: events through the
    storage are texts. *)
Definition handleStorage (authSyncSource : str) (now : Z) (key : option str)
    (newValue : option str) : option (SyncKind * str) :=
  if negb (bool_decide (key = Some AUTH_SYNC_STORAGE_KEY)) then None
  else match newValue with
  | Some text =>
      if truthy_str text
      then match json_parse text with Some v => deliver authSyncSource now (Some v) | None => None end
      else None
  | None => None
  end.

(** ** The tabs *)

Record System : Type := MkSystem {
  tabs : list World;
  queue : list (nat * json);     (** messages with the tab they go to *)
  lock : option nat;             (** the tab that holds the lock *)
}.

(** Whether a refresh of the tab is running, which is while it holds the lock. *)
Definition active (w : World) : bool :=
  match refreshPromise w with
  | Some r => match phase r with Running (Requesting _ _) | Running (Sleeping _ _) => true | _ => false end
  | None => false
  end.

Definition is_reload (o : Output) : bool := match o with Reload => true | _ => false end.

(** A step of a tab; a page that reloads starts again. *)
Definition tab_step (hasLocks : bool) (e : Event) (w : World) : Step :=
  let '(w', out) := step hasLocks e w in
  (if existsb is_reload out then initialWorld else w', out).

Section tabs.
Context (hasLocks : bool) (source : nat -> str).

(** The messages of the events that tab [i] publishes. *)
Definition broadcast (i : nat) (nonce : str) (now : Z) (n : nat) (out : list Output)
    : list (nat * json) :=
  concat (map (fun o =>
    match o with
    | Publish k s =>
        map (fun j => (j, event_json (MkSyncEvent k s (source i) nonce (num_of_Z now)))) (seq 0 n)
    | _ => []
    end) out).

(** Tab [i] takes the event [e] at the time [now]. *)
Definition tab_event (i : nat) (e : Event) (nonce : str) (now : Z) (sys : System) : System :=
  match tabs sys !! i with
  | Some w =>
      let '(w', out) := tab_step hasLocks e w in
      MkSystem (<[i := w']> (tabs sys))
        (queue sys ++ broadcast i nonce now (length (tabs sys)) out)
        (if active w' then lock sys
         else if bool_decide (lock sys = Some i) then None else lock sys)
  | None => sys
  end.

Inductive SystemEvent : Type :=
  | TabEvent (i : nat) (e : Event) (nonce : str) (now : Z)
  | GrantLock (i : nat) (nonce : str) (now : Z)
  | DeliverMessage (n : nat) (nonce : str) (now : Z).

Definition system_step (se : SystemEvent) (sys : System) : System :=
  match se with
  | TabEvent i LockGranted nonce now => sys  (* the lock is granted by the browser alone *)
  | TabEvent i e nonce now => tab_event i e nonce now sys
  | GrantLock i nonce now =>
      match lock sys with
      | Some _ => sys
      | None => tab_event i LockGranted nonce now (MkSystem (tabs sys) (queue sys) (Some i))
      end
  | DeliverMessage n nonce now =>
      match queue sys !! n with
      | Some (j, v) =>
          let sys := MkSystem (tabs sys) (delete n (queue sys)) (lock sys) in
          match deliver (source j) now (Some v) with
          | Some (k, s) => tab_event j (SyncEvent k s) nonce now sys
          | None => sys
          end
      | None => sys
      end
  end.

Definition system_runs (ses : list SystemEvent) (sys : System) : System :=
  fold_left (fun sys se => system_step se sys) ses sys.

End tabs.

(** ** Checking events *)

Lemma parse_kind_name (k : SyncKind) : parse_kind (Some (JStr (kind_name k))) = Some k.
Proof. by destruct k. Qed.

Lemma deliver_event (src : str) (now : Z) (e : AuthSessionSyncEvent) :
  deliver src now (Some (event_json e)) =
  if truthy_str (ev_sid e) && negb (ev_source e =?s src) && recent now (ev_timestamp e)
  then Some (ev_kind e, ev_sid e) else None.
Proof.
  unfold deliver, isAuthSessionSyncEvent, event_json. destruct e as [k s so no ts].
  cbn [ev_kind ev_sid ev_source ev_nonce ev_timestamp].
  set (o := JObj _).
  change (oprop "kind" (Some o)) with (Some (JStr (kind_name k))).
  change (oprop "sid" (Some o)) with (Some (JStr s)).
  change (oprop "source" (Some o)) with (Some (JStr so)).
  change (oprop "nonce" (Some o)) with (Some (JStr no)).
  change (oprop "timestamp" (Some o)) with (Some (JNum ts)).
  rewrite parse_kind_name. cbn [isRecord is_nonempty_string is_string is_number string_of number_of].
  rewrite bool_decide_eq_true_2 by done. cbn [andb]. by rewrite !andb_true_r.
Qed.

Lemma event_json_ok (e : AuthSessionSyncEvent) :
  num_ok (ev_timestamp e) -> json_ok (event_json e).
Proof.
  intros Hn. constructor; [vm_compute; reflexivity|].
  repeat apply Forall_cons_2; try apply ok_str; [by apply ok_num|apply Forall_nil_2].
Qed.

Lemma stringify_nonempty (v : json) : json_ok v -> truthy_str (stringify v) = true.
Proof.
  intros H. destruct (stringify v) eqn:E; [|done]. apply json_roundtrip in H. by rewrite E in H.
Qed.

(** The two transports agree: an event that is written to the storage as JSON
    text reaches the listener of another tab exactly when the same event on the
    channel does, with the same kind and session. *)
Theorem storage_equals_channel (src : str) (now : Z) (e : AuthSessionSyncEvent) :
  num_ok (ev_timestamp e) ->
  handleStorage src now (Some AUTH_SYNC_STORAGE_KEY) (Some (stringify (event_json e))) =
  deliver src now (Some (event_json e)).
Proof.
  intros Hn. pose proof (event_json_ok e Hn) as Hok. unfold handleStorage.
  by rewrite bool_decide_eq_true_2, stringify_nonempty, json_roundtrip by done.
Qed.

(** ** Events cause no events *)

Lemma sync_publishes_nothing (k : SyncKind) (s : str) (w : World) :
  Forall (fun o => match o with Publish _ _ => False | _ => True end) (snd (onSyncEvent k s w)).
Proof.
  unfold onSyncEvent, clearAuthenticatedClientState, clearAuthentication.
  destruct k; destruct (sessionSID _) as [x|]; simpl; repeat js_case; simpl;
    repeat apply Forall_cons_2; by try apply Forall_nil_2.
Qed.

Lemma broadcast_nothing source i nonce now n (out : list Output) :
  Forall (fun o => match o with Publish _ _ => False | _ => True end) out ->
  broadcast source i nonce now n out = [].
Proof.
  unfold broadcast. induction 1 as [|o out Ho _ IH]; [done|]. simpl. rewrite IH.
  by destruct o.
Qed.

(** An event causes no event: each delivery takes one message from the channel
    and adds none, so the tabs do not answer each other forever. *)
Theorem delivery_consumes hl source n nonce now (sys : System) :
  (n < length (queue sys))%nat ->
  length (queue (system_step hl source (DeliverMessage n nonce now) sys)) =
  pred (length (queue sys)).
Proof.
  intros Hn. apply lookup_lt_is_Some in Hn as [[j v] Hq].
  assert (Hd : length (delete n (queue sys)) = pred (length (queue sys))).
  { rewrite length_delete by eauto. lia. }
  simpl. rewrite Hq. destruct (deliver _ _ _) as [[k s]|]; [|done].
  unfold tab_event. simpl. destruct (tabs sys !! j) as [w|]; [|done].
  unfold tab_step. simpl. pose proof (sync_publishes_nothing k s w) as Hp.
  destruct (onSyncEvent k s w) as [w' out]. simpl.
  rewrite broadcast_nothing by done. by rewrite app_nil_r.
Qed.

(** ** One refresh at a time *)

Definition exclusive (sys : System) : Prop :=
  forall i w, tabs sys !! i = Some w -> active w = true -> lock sys = Some i.

Lemma active_step (e : Event) (w : World) :
  e <> LockGranted -> active (fst (step true e w)) = true -> active w = true.
Proof.
  intros He. assert (Hq : forall s : Step, refreshPromise (fst s) = refreshPromise w ->
    active (fst s) = true -> active w = true) by (intros s E; unfold active; by rewrite E).
  assert (Hr : forall c w', refreshPromise w' = refreshPromise w ->
    active (fst (refreshAuthentication true c w')) = true -> active w = true).
  { intros c w' E. unfold active, refreshAuthentication. rewrite E.
    by destruct (refreshPromise w). }
  assert (Hs : forall c now, active (fst (fst (resolveAuthentication true c now w))) = true ->
    active w = true).
  { intros c now. unfold resolveAuthentication. destruct (currentValidAuthBundle _ _); [by apply Hq|].
    destruct (_ && _); [by apply Hq|]. by apply Hr. }
  destruct e; cbn [step]; try (by destruct He); try apply Hs; try (by apply Hr); try by apply Hq.
  - by destruct (isAuthBundle value); apply Hq.
  - destruct (applyAuthRotation value w) as [|s] eqn:E; [by apply Hq|].
    apply rotation_ok in E as (b & _ & ->). by apply Hq.
  - unfold bootstrapAuthentication. destruct (_ && _); [by apply Hq|apply Hs].
  - unfold getFreshAuthHeaders. destruct (tokenUsable _ _); [by apply Hq|by apply Hr].
  - apply Hq, sync_quiet.
  - unfold lockRejected. unfold active at 2. by destruct (refreshPromise w) as [[? [] ?]|] eqn:E;
      simpl; unfold active; rewrite ?E.
  - unfold responseArrives. unfold active at 2. by destruct (refreshPromise w) as [[? [|[]|] ?]|] eqn:E;
      simpl; unfold active; rewrite ?E.
  - unfold timerFires. unfold active at 2. by destruct (refreshPromise w) as [[? [|[]|] ?]|] eqn:E;
      simpl; unfold active; rewrite ?E.
  - unfold finishRefresh. unfold active at 2.
    destruct (refreshPromise w) as [r|] eqn:E; simpl; [|unfold active; by rewrite E].
    destruct (settled_phase _); simpl; [done|]. unfold active. by rewrite E.
Qed.

Lemma active_tab_step (e : Event) (w : World) :
  e <> LockGranted -> active (fst (tab_step true e w)) = true -> active w = true.
Proof.
  intros He. pose proof (active_step e w He) as H. unfold tab_step.
  destruct (step true e w) as [w' out]. simpl in *. by destruct (existsb _ _).
Qed.

Lemma tab_event_exclusive source (i : nat) (e : Event) nonce now (sys : System) :
  exclusive sys -> e <> LockGranted \/ lock sys = Some i ->
  exclusive (tab_event true source i e nonce now sys).
Proof.
  intros Hx He. unfold tab_event. destruct (tabs sys !! i) as [w|] eqn:Ew; [|done].
  pose proof (active_tab_step e w) as Ha. destruct (tab_step true e w) as [w' out]. simpl in Ha.
  intros j wj Hj Hactive. simpl in *.
  destruct (decide (j = i)) as [->|Hne].
  - rewrite list_lookup_insert_eq in Hj by (by eapply lookup_lt_Some). injection Hj as <-.
    rewrite Hactive. destruct He as [He|He]; [|done]. apply (Hx i w); auto.
  - rewrite list_lookup_insert_ne in Hj by done. pose proof (Hx j wj Hj Hactive) as Hl.
    rewrite Hl. destruct (active w'); [done|]. rewrite bool_decide_eq_false_2; [done|congruence].
Qed.

Lemma system_step_exclusive source (se : SystemEvent) (sys : System) :
  exclusive sys -> exclusive (system_step true source se sys).
Proof.
  intros Hx. destruct se as [i e nonce now|i nonce now|n nonce now]; simpl.
  - destruct e; try done; by (apply tab_event_exclusive; [|left]).
  - destruct (lock sys) eqn:El; [done|]. apply tab_event_exclusive; [|by right].
    intros j w Hj Ha. simpl in *. specialize (Hx j w Hj Ha). congruence.
  - destruct (queue sys !! n) as [[j v]|]; [|done].
    destruct (deliver _ _ _) as [[k s]|]; [|done]. apply tab_event_exclusive; [done|by left].
Qed.

Lemma system_runs_exclusive source (ses : list SystemEvent) (sys : System) :
  exclusive sys -> exclusive (system_runs true source ses sys).
Proof.
  revert sys. induction ses as [|se ses IH]; intros sys Hx; [done|].
  apply IH, system_step_exclusive, Hx.
Qed.

Lemma filter_unique {A} (p : A -> bool) (l : list A) :
  (forall i j x y, l !! i = Some x -> l !! j = Some y -> p x = true -> p y = true -> i = j) ->
  (length (List.filter p l) <= 1)%nat.
Proof.
  induction l as [|a l IH]; intros H; simpl; [lia|]. destruct (p a) eqn:Ea.
  - destruct (List.filter p l) as [|b l'] eqn:Ef; [simpl; lia|].
    assert (Hb : In b (List.filter p l)) by (rewrite Ef; by left).
    apply filter_In in Hb as [Hb Hpb]. apply list_elem_of_In, list_elem_of_lookup in Hb as [k Hk].
    discriminate (H 0%nat (S k) a b eq_refl Hk Ea Hpb).
  - apply IH. intros i j x y Hi Hj Hx Hy.
    by injection (H (S i) (S j) x y Hi Hj Hx Hy).
Qed.

(** Where the browser has locks, at most one tab at a time is running a
    refresh, in every run of any number of tabs: two tabs never spend the same
    refresh cookie at once. *)
Theorem refresh_exclusive source (ses : list SystemEvent) (n : nat) :
  let sys := system_runs true source ses (MkSystem (replicate n initialWorld) [] None) in
  (length (List.filter active (tabs sys)) <= 1)%nat.
Proof.
  intros sys. assert (Hx : exclusive sys).
  { apply system_runs_exclusive. intros k wk Hk. by apply lookup_replicate in Hk as [-> _]. }
  apply filter_unique. intros i j w w' Hi Hj Ha Ha'.
  pose proof (Hx i w Hi Ha). pose proof (Hx j w' Hj Ha'). congruence.
Qed.

(** ** Signing out everywhere *)

(** The refresh in progress was not started in the future. *)
Definition epoch_ok (w : World) : Prop :=
  match refreshPromise w with Some r => (refreshEpoch r <= authEpoch w)%nat | None => True end.

(** Where the refresh of a world comes from: it was there before, or it is new. *)
Definition promise_from (w w' : World) : Prop :=
  match refreshPromise w' with
  | Some r' =>
      refreshEpoch r' = authEpoch w \/
      exists r, refreshPromise w = Some r /\ refreshEpoch r = refreshEpoch r'
  | None => True
  end.

Lemma promise_from_same (w w' : World) :
  refreshPromise w' = refreshPromise w -> promise_from w w'.
Proof. unfold promise_from. intros ->. destruct (refreshPromise w); eauto. Qed.

Lemma promise_from_join hl c (w w0 : World) :
  refreshPromise w0 = refreshPromise w -> authEpoch w0 = authEpoch w ->
  promise_from w (fst (refreshAuthentication hl c w0)).
Proof.
  intros Hp He. unfold refreshAuthentication. rewrite Hp.
  destruct (refreshPromise w) as [r|] eqn:E; unfold promise_from; simpl; [eauto|].
  destruct hl; simpl; [eauto|]. unfold advance.
  destruct (startRefresh _ _) as [[w' out] st]. simpl. eauto.
Qed.

Lemma promise_from_resolve hl c now (w : World) :
  promise_from w (fst (fst (resolveAuthentication hl c now w))).
Proof.
  unfold resolveAuthentication. destruct (currentValidAuthBundle _ _); [by apply promise_from_same|].
  destruct (_ && _); [by apply promise_from_same|]. by apply promise_from_join.
Qed.

Lemma promise_from_advance (r : Refresh) f (w : World) :
  refreshPromise w = Some r -> promise_from w (fst (advance r f w)).
Proof.
  intros Hp. unfold advance. destruct (f w) as [[w' out] st]. unfold promise_from. simpl. eauto.
Qed.

Lemma step_promise_from hl (e : Event) (w : World) : promise_from w (fst (step hl e w)).
Proof.
  destruct e; cbn [step]; try (by apply promise_from_join); try (by apply promise_from_same);
    try apply promise_from_resolve.
  - by destruct (isAuthBundle value); apply promise_from_same.
  - destruct (applyAuthRotation value w) as [|s] eqn:E; [by apply promise_from_same|].
    apply rotation_ok in E as (b & _ & ->). by apply promise_from_same.
  - unfold bootstrapAuthentication.
    destruct (_ && _); [by apply promise_from_same|apply promise_from_resolve].
  - unfold getFreshAuthHeaders.
    destruct (tokenUsable _ _); [by apply promise_from_same|by apply promise_from_join].
  - apply promise_from_same, sync_quiet.
  - unfold lockGranted. destruct (refreshPromise w) as [[? [] ?]|] eqn:E;
      first [by apply promise_from_advance|by apply promise_from_same].
  - unfold lockRejected. destruct (refreshPromise w) as [[? [] ?]|] eqn:E;
      [|by apply promise_from_same..]. unfold promise_from. simpl. eauto.
  - unfold responseArrives. destruct (refreshPromise w) as [[? [|[]|] ?]|] eqn:E;
      first [by apply promise_from_advance|by apply promise_from_same].
  - unfold timerFires. destruct (refreshPromise w) as [[? [|[]|] ?]|] eqn:E;
      first [by apply promise_from_advance|by apply promise_from_same].
  - unfold finishRefresh. destruct (refreshPromise w) as [r|] eqn:E; [|by apply promise_from_same].
    destruct (settled_phase _); [done|by apply promise_from_same].
Qed.

Lemma step_epoch_ok hl (e : Event) (w : World) : epoch_ok w -> epoch_ok (fst (step hl e w)).
Proof.
  intros Hw. unfold epoch_ok in *. pose proof (step_promise_from hl e w) as Hf. pose proof (step_epoch hl e w) as He.
  unfold promise_from in Hf. destruct (refreshPromise (fst (step hl e w))) as [r'|]; [|done].
  destruct Hf as [->|(r & Hr & <-)]; [done|]. rewrite Hr in Hw. lia.
Qed.

Lemma reachable_epoch_ok hl (w : World) : reachable hl w -> epoch_ok w.
Proof.
  intros [es <-]. assert (H : epoch_ok initialWorld) by done. revert H.
  generalize initialWorld. induction es as [|e es IH]; intros w Hw; [done|].
  rewrite runs_cons. by apply IH, step_epoch_ok.
Qed.

(** No refresh of the tab is under way that could change its session: there is none,
    or it has ended, or it has been superseded. *)
Definition harmless (w : World) : Prop :=
  match refreshPromise w with
  | None => True
  | Some r => (refreshEpoch r < authEpoch w)%nat \/ settled_phase (phase r) <> None
  end.

(** The answer with which a refresh is started again without the session. *)
Definition sessionMismatch (r : AuthRefreshHTTPResponse) : bool :=
  let responseData := if isRecord (data r) then data r else None in
  let code := match oprop "code" responseData with Some (JStr c) => Some c | _ => None end in
  (status r =? 409) && bool_decide (code = Some (js "AUTH_SESSION_MISMATCH")).

Section signing_off.
Context (hl : bool) (s : str).

(** What may happen in a tab after the sign-out of the session [s]: anything but a
    sign-in to the same session, a new refresh in a tab that does not have it, and an
    answer that makes a refresh under way start again without it. *)
Definition allowed (e : Event) (w : World) : Prop :=
  match e with
  | Login v => isAuthBundle v = true -> sid (b_session (asAuthBundle v)) <> s
  | Join _ | Resolve _ _ | Bootstrap _ _ _ | FreshHeaders _ _ => sessionSID (auth w) = Some s
  | Response r => sessionMismatch r = true -> harmless w
  | _ => True
  end.

(** The tab has the session, or cannot get it. *)
Definition tab_ok (w : World) : Prop := epoch_ok w /\ (sessionSID (auth w) = Some s \/ harmless w).

(** A step keeps that, and does not bring the session to a tab without it. *)
Definition goes_on (w w' : World) : Prop :=
  (sessionSID (auth w') = Some s \/ harmless w') /\ (sessionSID (auth w) <> Some s -> sessionSID (auth w') <> Some s).

Lemma goes_on_same (w w' : World) :
  tab_ok w -> sessionSID (auth w') = sessionSID (auth w) -> (harmless w -> harmless w') -> goes_on w w'.
Proof. intros [_ [Hs|Hh]] E H; split; rewrite E; auto. Qed.

Lemma goes_on_bumped (w : World) (a : AuthState) :
  tab_ok w -> (sessionSID (auth w) <> Some s -> sessionSID a <> Some s) -> goes_on w (with_auth a (bump w)).
Proof.
  intros [He _] Hs. split; [right|exact Hs]. unfold harmless, epoch_ok in *. simpl.
  destruct (refreshPromise w); [left; lia|done].
Qed.

Lemma goes_on_has (w w' : World) :
  sessionSID (auth w) = Some s -> sessionSID (auth w') = Some s -> goes_on w w'.
Proof. intros H H'. split; [by left|congruence]. Qed.

Lemma effect_free_sid (w w' : World) : agree w w' -> sessionSID (auth w') = sessionSID (auth w).
Proof. by intros [-> _]. Qed.

Lemma resolve_sid (c : nat) (now : Z) (w : World) :
  sessionSID (auth (fst (fst (resolveAuthentication hl c now w)))) = sessionSID (auth w).
Proof.
  unfold resolveAuthentication. destruct (currentValidAuthBundle _ _); [done|]. destruct (_ && _); [done|].
  cbn [fst]. by rewrite (effect_free_sid _ _ (refreshAuthentication_agree hl c _)).
Qed.

(** A running refresh takes an answer. *)
Lemma response_ends (e race : nat) (allow : bool) (r : AuthRefreshHTTPResponse) (w : World) :
  authEpoch w = e -> sessionMismatch r = false ->
  let '(w', _, st) := onResponse (runRefresh e) race allow r w in
  sessionSID (auth w') = sessionSID (auth w) \/ settled_phase (Running st) <> None.
Proof.
  intros He Hm. unfold onResponse. rewrite not_superseded by done. cbv zeta.
  unfold sessionMismatch in Hm. cbv zeta in Hm. set (rd := if isRecord _ then _ else _) in *.
  set (code := match oprop "code" rd with Some (JStr c) => Some c | _ => None end) in *.
  assert (Hf : let '(w', _, st) := onFailure (runRefresh e) race allow code r w in
    sessionSID (auth w') = sessionSID (auth w) \/ settled_phase (Running st) <> None).
  { unfold onFailure. rewrite !clearAnd_effect, Hm.
    destruct ((status r =? 409) && bool_decide (code = Some (js "AUTH_REFRESH_RACE"))).
    { destruct (refreshRaceDelays !! race); [left; reflexivity|right; discriminate]. }
    destruct (status r =? 401); [by right|]. destruct (_ || _); by right. }
  destruct (parseBundle (runRefresh e) (oprop "data" rd)) as [b|]; [|by destruct (oprop "success" rd) as [[|[]| | | |]|]].
  destruct (oprop "success" rd) as [[|[]| | | |]|]; try exact Hf. by right.
Qed.

Lemma response_goes_on (r : AuthRefreshHTTPResponse) (w : World) :
  tab_ok w -> (sessionMismatch r = true -> harmless w) -> goes_on w (fst (responseArrives r w)).
Proof.
  intros Hw Ha. pose proof Hw as [He Hh]. unfold responseArrives.
  destruct (refreshPromise w) as [[e [|[race allow| |]|] ws]|] eqn:Ep; try by apply goes_on_same.
  unfold epoch_ok in He. rewrite Ep in He. cbn [refreshEpoch] in He. unfold advance.
  destruct (decide (authEpoch w = e)) as [Hc|Hc].
  - assert (Hn : ~ harmless w) by (unfold harmless; rewrite Ep; cbn; intros [?|?]; [lia|done]).
    destruct Hh as [Hs|?]; [|done]. destruct (sessionMismatch r) eqn:Em; [by destruct Hn; apply Ha|].
    pose proof (response_ends e race allow r w Hc Em) as H.
    destruct (onResponse _ _ _ _ _) as [[w' out] st]. split; [|done]. destruct H as [H|H]; [left|right].
    + simpl. by rewrite H.
    + unfold harmless. simpl. by right.
  - unfold onResponse. rewrite (proj2 (superseded_epoch e w) Hc). apply goes_on_same; [done|done|].
    intros _. unfold harmless. simpl. left. lia.
Qed.

(** The steps of a refresh that leave the session as it is. *)
Lemma refresh_goes_on (r : Refresh) (race : nat) (allow : bool) (w : World) :
  tab_ok w -> refreshPromise w = Some r -> settled_phase (phase r) = None ->
  goes_on w (fst (advance r (run (runRefresh (refreshEpoch r)) race allow) w)).
Proof.
  intros Hw Ep Hp. apply goes_on_same; [done|by apply effect_free_sid, advance_run|].
  unfold harmless. rewrite Ep. intros [Hl|?]; [|congruence]. unfold advance, run.
  destruct (isSuperseded _ _); simpl; by left.
Qed.

Lemma step_goes_on (e : Event) (w : World) :
  tab_ok w -> allowed e w -> goes_on w (fst (step hl e w)).
Proof.
  intros Hw Ha. destruct e as [v|b|v|u|t|c|c t|ck c t|c t|k x| |err|r| | |i]; cbn [step allowed] in *.
  - destruct (isAuthBundle v) eqn:E; [|by apply goes_on_same]. apply goes_on_bumped; [done|].
    intros _ [= Hs]. by apply Ha.
  - by apply goes_on_bumped.
  - unfold applyAuthRotation. destruct (negb _); [by apply goes_on_same|].
    destruct (user (auth w)); [|by apply goes_on_same]. destruct (session (auth w)) as [se|] eqn:Es; [|by apply goes_on_same].
    destruct (negb _) eqn:En; [by apply goes_on_same|]. apply negb_false_iff, str_eqb_eq in En.
    apply goes_on_bumped; [done|]. unfold sessionSID. rewrite Es.
    cbn [setBundle session b_session fmap option_fmap option_map]. by rewrite En.
  - by apply goes_on_same.
  - by apply goes_on_same.
  - apply goes_on_has; [done|]. by rewrite (effect_free_sid _ _ (refreshAuthentication_agree hl c w)).
  - apply goes_on_has; [done|]. by rewrite resolve_sid.
  - apply goes_on_has; [done|]. unfold bootstrapAuthentication. destruct (_ && _); [done|]. by rewrite resolve_sid.
  - apply goes_on_has; [done|]. unfold getFreshAuthHeaders. destruct (tokenUsable _ _); [done|].
    cbn [fst]. by rewrite (effect_free_sid _ _ (refreshAuthentication_agree hl c w)).
  - unfold onSyncEvent, clearAuthenticatedClientState, clearAuthentication.
    destruct k; destruct (sessionSID (auth w)) as [y|]; repeat js_case; simpl;
      first [by apply goes_on_same|by apply goes_on_bumped].
  - unfold lockGranted, startRefresh. destruct (refreshPromise w) as [[? [] ?]|] eqn:Ep; try by apply goes_on_same.
    by apply (refresh_goes_on _ 0 true w Hw Ep).
  - unfold lockRejected. destruct (refreshPromise w) as [[? [] ?]|] eqn:Ep; try by apply goes_on_same.
    apply goes_on_same; [done|done|]. intros _. unfold harmless. simpl. by right.
  - by apply response_goes_on.
  - unfold timerFires. destruct (refreshPromise w) as [[? [|[]|] ?]|] eqn:Ep; try by apply goes_on_same.
    by apply (refresh_goes_on _ raceAttempt allowMismatchRetry w Hw Ep).
  - unfold finishRefresh. destruct (refreshPromise w) as [r|] eqn:Ep; [|by apply goes_on_same].
    destruct (settled_phase (phase r)); by apply goes_on_same.
  - by apply goes_on_same.
Qed.

(** The same of a tab, which may reload. *)
Lemma tab_goes_on (e : Event) (w : World) :
  tab_ok w -> allowed e w ->
  tab_ok (fst (tab_step hl e w)) /\
  (sessionSID (auth w) <> Some s -> sessionSID (auth (fst (tab_step hl e w))) <> Some s).
Proof.
  intros Hw Ha. destruct (step_goes_on e w Hw Ha) as [H1 H2]. pose proof (step_epoch_ok hl e w (proj1 Hw)) as He.
  unfold tab_step. destruct (step hl e w) as [w' out]. simpl in *. destruct (existsb _ _); [|done].
  split; [|done]. split; [done|]. by right.
Qed.

(** The event of the sign-out reaches a tab. *)
Lemma sign_out_event (w : World) :
  s <> [] -> sessionSID (auth (fst (tab_step hl (SyncEvent SyncSignedOut s) w))) <> Some s.
Proof.
  intros Hs. unfold tab_step. simpl. unfold clearAuthenticatedClientState, clearAuthentication.
  destruct (sessionSID (auth w)) as [x|] eqn:E; [|simpl; by rewrite E].
  destruct (truthy_str x && (s =?s x)) eqn:Ex; simpl; [done|]. rewrite E. intros [= ->].
  by rewrite str_eqb_refl, (proj2 (truthy_str_true s) Hs) in Ex.
Qed.

Section system.
Context (source : nat -> str) (source_inj : forall a b, source a = source b -> a = b).
Context (i : nat) (nonce : str) (t0 : Z) (s_nonempty : s <> []).

Definition sign_out_message : json :=
  event_json (MkSyncEvent SyncSignedOut s (source i) nonce (num_of_Z t0)).

(** The events after the sign-out: those of the tabs are allowed, and a message
    arrives within a minute of the sign-out. *)
Definition allowed_step (se : SystemEvent) (sys : System) : Prop :=
  match se with
  | TabEvent k e _ _ => forall w, tabs sys !! k = Some w -> allowed e w
  | GrantLock _ _ _ => True
  | DeliverMessage _ _ t => recent t (num_of_Z t0) = true
  end.

Fixpoint allowed_run (ses : list SystemEvent) (sys : System) : Prop :=
  match ses with
  | [] => True
  | se :: rest => allowed_step se sys /\ allowed_run rest (system_step hl source se sys)
  end.

(** Every tab is rid of the session or will be told. *)
Definition told (ws : list World) (q : list (nat * json)) : Prop :=
  forall k w, ws !! k = Some w -> sessionSID (auth w) <> Some s \/ (k <> i /\ (k, sign_out_message) ∈ q).

Lemma tab_event_told (j : nat) (e : Event) (nonce' : str) (now : Z) (sys : System) (q : list (nat * json)) :
  Forall tab_ok (tabs sys) -> (forall w, tabs sys !! j = Some w -> allowed e w) ->
  told (tabs sys) q ->
  let sys' := tab_event hl source j e nonce' now sys in
  Forall tab_ok (tabs sys') /\ told (tabs sys') q.
Proof.
  intros Hok Ha Ht. unfold tab_event. destruct (tabs sys !! j) as [w|] eqn:E; [|done].
  pose proof (Forall_lookup_1 _ _ _ _ Hok E) as Hw. destruct (tab_goes_on e w Hw (Ha w eq_refl)) as [Hw' Hs'].
  destruct (tab_step hl e w) as [w' out]. cbn [fst snd tabs] in *. split; [by apply Forall_insert|].
  intros k v Hk. destruct (decide (k = j)) as [->|Hne].
  - rewrite list_lookup_insert_eq in Hk by (by eapply lookup_lt_Some). injection Hk as <-.
    destruct (Ht j w E); auto.
  - rewrite list_lookup_insert_ne in Hk by done. by apply Ht.
Qed.

Lemma tab_event_queue (j : nat) (e : Event) (nonce' : str) (now : Z) (sys : System) :
  exists new, queue (tab_event hl source j e nonce' now sys) = queue sys ++ new.
Proof.
  unfold tab_event. destruct (tabs sys !! j); [|exists []; by rewrite app_nil_r].
  destruct (tab_step hl e _). by eexists.
Qed.

Lemma told_weaken (ws : list World) (q new : list (nat * json)) : told ws q -> told ws (q ++ new).
Proof. intros Ht k w Hk. destruct (Ht k w Hk) as [|[]]; [by left|right]. split; [done|]. set_solver. Qed.

(** A message is taken from the channel. *)
Lemma delivered_told (n j : nat) (v : json) (ws : list World) (q : list (nat * json)) :
  q !! n = Some (j, v) -> told ws q ->
  (forall w, v = sign_out_message -> j <> i -> ws !! j = Some w -> sessionSID (auth w) <> Some s) ->
  told ws (delete n q).
Proof.
  intros Hq Ht Hv k w Hk. destruct (Ht k w Hk) as [|[Hki Hin]]; [by left|].
  apply list_elem_of_lookup in Hin as [m Hm]. destruct (decide (m = n)) as [->|Hmn].
  - rewrite Hq in Hm. injection Hm as -> ->. left. by apply Hv.
  - right. split; [done|]. rewrite delete_take_drop. apply elem_of_app. destruct (decide (m < n)%nat).
    + left. apply list_elem_of_lookup. exists m. rewrite lookup_take_lt by done. exact Hm.
    + right. apply list_elem_of_lookup. exists (m - S n)%nat. rewrite lookup_drop. rewrite <- Hm. f_equal. lia.
Qed.

Lemma allowed_step_told (se : SystemEvent) (sys : System) :
  Forall tab_ok (tabs sys) -> told (tabs sys) (queue sys) -> allowed_step se sys ->
  let sys' := system_step hl source se sys in
  Forall tab_ok (tabs sys') /\ told (tabs sys') (queue sys').
Proof.
  intros Hok Ht Ha. assert (Htab : forall j e n t sys, Forall tab_ok (tabs sys) ->
    (forall w, tabs sys !! j = Some w -> allowed e w) -> told (tabs sys) (queue sys) ->
    let sys' := tab_event hl source j e n t sys in
    Forall tab_ok (tabs sys') /\ told (tabs sys') (queue sys')).
  { intros j e n t sy H1 H2 H3. destruct (tab_event_told j e n t sy (queue sy) H1 H2 H3) as [? ?].
    destruct (tab_event_queue j e n t sy) as [new Hq]. split; [done|]. rewrite Hq. by apply told_weaken. }
  destruct se as [k e n t|k n t|m n t]; cbn [system_step allowed_step] in *.
  - assert (H := Htab k e n t sys Hok Ha Ht). by destruct e.
  - destruct (lock sys); [done|]. by apply Htab.
  - destruct (queue sys !! m) as [[j v]|] eqn:Em; [|done].
    assert (Hd : forall x w, v = sign_out_message -> j <> i -> tabs sys !! j = Some w -> deliver (source j) t (Some v) = x ->
      x = Some (SyncSignedOut, s)).
    { intros x w -> Hj _ <-. unfold sign_out_message. rewrite deliver_event. cbn [ev_sid ev_source ev_timestamp ev_kind].
      rewrite Ha, (proj2 (truthy_str_true s) s_nonempty). cbn [andb]. rewrite andb_true_r.
      by rewrite (proj2 (str_eqb_neq _ _)) by (intros E; by apply Hj, source_inj). }
    destruct (deliver (source j) t (Some v)) as [[kd x]|] eqn:Ed.
    + set (sys1 := MkSystem (tabs sys) (delete m (queue sys)) (lock sys)).
      destruct (tab_event_told j (SyncEvent kd x) n t sys1 (queue sys)) as [H1 H2]; [done|done|done|].
      destruct (tab_event_queue j (SyncEvent kd x) n t sys1) as [new Hq]. split; [done|]. rewrite Hq. apply told_weaken.
      apply (delivered_told m j v); [done|done|]. intros w Hv Hj Hw.
      assert (exists w0, tabs sys !! j = Some w0 /\ fst (tab_step hl (SyncEvent kd x) w0) = w) as (w0 & Hw0 & <-).
      { revert Hw. unfold tab_event. cbn [tabs sys1]. destruct (tabs sys !! j) as [w0|] eqn:E; [|by intros Hx; change (tabs sys !! j = Some w) in Hx; congruence].
        destruct (tab_step hl (SyncEvent kd x) w0) as [w1 out] eqn:E1. cbn [tabs].
        rewrite list_lookup_insert_eq by (by eapply lookup_lt_Some). intros [= <-]. exists w0. by rewrite E1. }
      pose proof (Hd _ w0 Hv Hj Hw0 eq_refl) as [= -> ->]. by apply sign_out_event.
    + split; [done|]. apply (delivered_told m j v); [done|done|]. intros w Hv Hj Hw.
      discriminate (Hd _ w Hv Hj Hw eq_refl).
Qed.

Lemma allowed_run_told (ses : list SystemEvent) (sys : System) :
  Forall tab_ok (tabs sys) -> told (tabs sys) (queue sys) -> allowed_run ses sys ->
  let sys' := system_runs hl source ses sys in told (tabs sys') (queue sys').
Proof.
  revert sys. induction ses as [|se ses IH]; intros sys Hok Ht Ha; [done|]. destruct Ha as [Ha Hr].
  destruct (allowed_step_told se sys Hok Ht Ha) as [Hok' Ht']. by apply IH.
Qed.

Lemma sign_out_told (sys : System) (w : World) :
  tabs sys !! i = Some w -> sessionSID (auth w) = Some s -> Forall tab_ok (tabs sys) ->
  let sys' := tab_event hl source i (SignOut true) nonce t0 sys in
  Forall tab_ok (tabs sys') /\ told (tabs sys') (queue sys').
Proof.
  intros Hi Hs Hok. unfold tab_event. rewrite Hi.
  destruct (tab_goes_on (SignOut true) w (Forall_lookup_1 _ _ _ _ Hok Hi) I) as [Hw' _]. revert Hw'.
  unfold tab_step. cbn [step]. unfold clearAuthentication. rewrite Hs. unfold publishAuthSessionEvent.
  rewrite (proj2 (truthy_str_true s) s_nonempty). cbn [andb existsb is_reload orb queue tabs fst]. intros Hw'.
  split; [by apply Forall_insert|]. intros k v Hk. destruct (decide (k = i)) as [->|Hki].
  - rewrite list_lookup_insert_eq in Hk by (by eapply lookup_lt_Some). injection Hk as <-. by left.
  - right. split; [done|]. rewrite list_lookup_insert_ne in Hk by done. apply lookup_lt_Some in Hk.
    apply elem_of_app. right. unfold broadcast. cbn [map concat]. rewrite app_nil_r. apply list_elem_of_fmap.
    exists k. split; [done|]. apply elem_of_seq. lia.
Qed.

End system.
End signing_off.

(** C21: Signing out in one tab signs out everywhere.  Other events of the tabs, grants
    of the lock and deliveries of the messages of the channel follow in any order, the
    answers to refreshes that were under way among them: a tab does not have the session,
    or the event of the sign-out is still on its way to it.  At the sign-out each other
    tab has the session or has no refresh under way (a tab that is booting could miss the
    event); afterwards no tab signs in to the same session, a tab without it starts no
    refresh, no refresh under way is answered with AUTH_SESSION_MISMATCH, and messages
    arrive within a minute. *)
Theorem sign_out_everywhere hl source (sys : System) (i : nat) (w : World)
    (s nonce : str) (t0 : Z) (ses : list SystemEvent) :
  (forall a b, source a = source b -> a = b) ->
  Forall (reachable hl) (tabs sys) -> tabs sys !! i = Some w -> sessionSID (auth w) = Some s ->
  Forall (fun w => sessionSID (auth w) = Some s \/ harmless w) (tabs sys) ->
  let sys1 := tab_event hl source i (SignOut true) nonce t0 sys in
  allowed_run hl s source t0 ses sys1 ->
  let sys2 := system_runs hl source ses sys1 in
  forall k v, tabs sys2 !! k = Some v ->
    sessionSID (auth v) <> Some s \/ (k <> i /\ (k, sign_out_message s source i nonce t0) ∈ queue sys2).
Proof.
  intros Hinj Hr Hi Hs Hall sys1 Hse sys2.
  assert (Hne : s <> []).
  { pose proof (Forall_lookup_1 _ _ _ _ Hr Hi) as [es <-].
    pose proof (runs_auth_ok hl es initialWorld I) as Ha. unfold auth_ok, sessionSID in *.
    destruct (session (auth _)) as [se|]; [|done]. injection Hs as <-.
    destruct (accessToken (auth _)), (accessExpiresAt (auth _)); try done. apply Ha. }
  assert (Hok : Forall (tab_ok s) (tabs sys)).
  { apply Forall_lookup. intros k v Hk. split; [|exact (Forall_lookup_1 _ _ _ _ Hall Hk)].
    exact (reachable_epoch_ok hl v (Forall_lookup_1 _ _ _ _ Hr Hk)). }
  destruct (sign_out_told hl s source i nonce t0 Hne sys w Hi Hs Hok) as [Hok1 Ht1].
  exact (allowed_run_told hl s source Hinj i nonce t0 Hne ses sys1 Hok1 Ht1 Hse).
Qed.

(** A tab that is booting does not have a session yet, and ignores the event of
    a sign-out: when the answer to its refresh was on its way, the tab keeps the
    session that was signed out. *)
Theorem booting_tab_misses_sign_out (hl : bool) (c : nat) (v : json) (st : Z) :
  isAuthBundle (Some v) = true ->
  let s := sid (b_session (asAuthBundle (Some v))) in
  let body := JObj [(js "success", JBool true); (js "data", v)] in
  let w := fst (runs hl [Join c; LockGranted] initialWorld) in
  let w' := fst (runs hl [SyncEvent SyncSignedOut s; Response (MkResponse st (Some body) None)] w) in
  sessionSID (auth w') = Some s.
Proof.
  intros Hv. cbv zeta. rewrite !runs_cons. cbn [step fst].
  destruct hl; unfold refreshAuthentication, lockGranted, advance, startRefresh; simpl;
    unfold responseArrives; simpl; unfold advance, onResponse; simpl; by rewrite Hv.
Qed.

(** ** Concrete systems *)

Definition sample_source (i : nat) : str := [N.of_nat i].

Lemma sample_source_inj (a b : nat) : sample_source a = sample_source b -> a = b.
Proof. intros [= H]. by apply Nat2N.inj. Qed.

Definition signed_in : World := fst (runs true [sample_login] initialWorld).

(** The second tab is refreshing its token when the first one signs out. *)
Definition refreshing : World := fst (runs true [sample_login; Join 0; LockGranted] initialWorld).

(** The answer to the refresh comes before the event of the sign-out, and again after it. *)
Definition answer_a : Event := Response (MkResponse 200 (Some (sample_body "a")) None).

Definition after_sign_out : list SystemEvent :=
  [TabEvent 1 answer_a (js "k") 1; TabEvent 1 Finish (js "k") 2; TabEvent 1 (Join 0) (js "k") 3; GrantLock 1 (js "k") 4;
   DeliverMessage 2 (js "m") 5; DeliverMessage 1 (js "m") 6; TabEvent 1 answer_a (js "k") 7; DeliverMessage 0 (js "m") 8].

Lemma sign_out_everywhere_witness :
  let sys1 := tab_event true sample_source 0 (SignOut true) (js "n") 0
                (MkSystem [signed_in; refreshing; initialWorld] [] None) in
  let sys2 := system_runs true sample_source after_sign_out sys1 in
  length (queue sys1) = 3%nat /\ sessionSID (auth refreshing) = Some (js "a") /\ queue sys2 = [] /\
  forall k v, tabs sys2 !! k = Some v ->
    sessionSID (auth v) <> Some (js "a") \/ (k <> 0%nat /\ (k, sign_out_message "a" sample_source 0 (js "n") 0) ∈ queue sys2).
Proof.
  intros sys1 sys2. split; [vm_compute; reflexivity|]. split; [vm_compute; reflexivity|]. split; [vm_compute; reflexivity|].
  assert (Hs : sessionSID (auth signed_in) = Some (js "a")) by (vm_compute; reflexivity).
  assert (Hr : sessionSID (auth refreshing) = Some (js "a")) by (vm_compute; reflexivity).
  refine (sign_out_everywhere true sample_source (MkSystem [signed_in; refreshing; initialWorld] [] None) 0 signed_in
            (js "a") (js "n") 0 after_sign_out sample_source_inj _ eq_refl Hs _ _).
  - apply Forall_cons_2; [by exists [sample_login]|].
    apply Forall_cons_2; [by exists [sample_login; Join 0; LockGranted]|].
    apply Forall_cons_2; [by exists []|apply Forall_nil_2].
  - apply Forall_cons_2; [by left|]. apply Forall_cons_2; [by left|].
    apply Forall_cons_2; [by right|apply Forall_nil_2].
  - cbn [allowed_run allowed_step after_sign_out allowed].
    split_and!; try exact I; try (vm_compute; reflexivity); intros x Hx; try discriminate.
    vm_compute in Hx. injection Hx as <-. vm_compute. reflexivity.
Defined.

Lemma booting_tab_misses_sign_out_witness :
  let w := fst (runs true [Join 0; LockGranted] initialWorld) in
  let s := sid (b_session (asAuthBundle (Some (sample_bundle "a")))) in
  let w' := fst (runs true [SyncEvent SyncSignedOut s;
                            Response (MkResponse 200 (Some (sample_body "a")) None)] w) in
  sessionSID (auth w') = Some s.
Proof. exact (booting_tab_misses_sign_out true 0 (sample_bundle "a") 200 eq_refl). Defined.

Lemma delivery_consumes_witness :
  let sys := tab_event true sample_source 0 (SignOut true) (js "n") 0
               (MkSystem [signed_in; refreshing] [] None) in
  length (queue sys) = 2%nat /\
  length (queue (system_step true sample_source (DeliverMessage 1 (js "m") 5) sys)) =
  pred (length (queue sys)).
Proof.
  intros sys. split; [vm_compute; reflexivity|].
  refine (delivery_consumes true sample_source 1 (js "m") 5 sys _). vm_compute. lia.
Defined.

Lemma storage_equals_channel_witness :
  let e := MkSyncEvent SyncSignedOut (js "a") (js "x") (js "n") num_zero in
  deliver (js "y") 1000 (Some (event_json e)) = Some (SyncSignedOut, js "a") /\
  handleStorage (js "y") 1000 (Some AUTH_SYNC_STORAGE_KEY) (Some (stringify (event_json e))) =
  deliver (js "y") 1000 (Some (event_json e)).
Proof.
  intros e. split; [vm_compute; reflexivity|].
  exact (storage_equals_channel (js "y") 1000 e num_zero_ok).
Defined.
