(* ===== verification/AuthEntry.v ===== *)
(** * Entering and leaving a session

    Models [src/web/src/features/auth/lib/auth-redirect.ts] (where the user goes
    after a sign-in, and the language of the account) and [executeLogout] of
    [src/web/src/features/auth/api.ts].

    The URL parser of the browser is a parameter: [newURL s base] is the result
    of [new URL(s, base)], [None] when it throws.  The runtime of a logout (the
    requests, the refresh and the session in the store) is a parameter too, as
    functions on a state. *)

From stdpp Require Import base list.
From Stdlib Require Import ZArith NArith Lia.
From S2P Require Import Prelude JsString JsArray JsNumber JsJson AuthSession.

Local Open Scope Z_scope.

(** ** Where to go after a sign-in *)

Record URL : Type := MkURL {
  protocol : str;
  origin : str;
  pathname : str;
  url_search : str;
  url_hash : str;
}.

Definition allowedRedirectProtocols : list str := [js "http:"; js "https:"].

Section Redirect.
Variable newURL : str -> option str -> option URL.

Definition sanitizeAuthRedirect (value : option json) (origin_ : str) : option str :=
  match value with
  | Some (JStr value) =>
      let target := trim value in
      if negb (truthy_str target) || includes target "\" || startsWith target "//" then None
      else
        match newURL origin_ None with
        | None => None
        | Some trustedOrigin =>
            if negb (mem_str (protocol trustedOrigin) allowedRedirectProtocols) then None
            else
              match (if startsWith target "/" then newURL target (Some (origin trustedOrigin))
                     else newURL target None) with
              | None => None
              | Some redirectURL =>
                  if negb (mem_str (protocol redirectURL) allowedRedirectProtocols)
                     || negb (origin redirectURL =?s origin trustedOrigin)
                  then None
                  else Some (pathname redirectURL ++ url_search redirectURL ++ url_hash redirectURL)
              end
        end
  | _ => None
  end.

End Redirect.

(** [navigate({ href: target })] after a sign-in. *)
Definition redirectTarget (newURL : str -> option str -> option URL) (redirectTo : option json)
    (origin_ : str) : str :=
  nullish (sanitizeAuthRedirect newURL redirectTo origin_) "/dashboard".

(** The language of an account: its own field, or the one of its settings,
    which may be an object or its text. *)
Definition getSavedLanguage (user : json) : option str :=
  match oprop "language" (Some user) with
  | Some (JStr l) => Some l
  | _ =>
      match oprop "setting" (Some user) with
      | Some (JObj o) =>
          match obj_get "language" o with Some (JStr l) => Some l | _ => None end
      | Some (JStr text) =>
          match json_parse text with
          | Some (JObj o) =>
              match obj_get "language" o with Some (JStr l) => Some l | _ => None end
          | _ => None
          end
      | _ => None
      end
  end.

(** ** Leaving *)

Record ApiResponse : Type := MkApiResponse {
  ar_success : bool;
  ar_message : str;
}.

Section Logout.
Context {W E : Type}.
Variable getExpectedSID : W -> option str.
Variable request : option str -> W -> W * (ApiResponse + E).
Variable refresh : W -> W * RefreshOutcome.
(** The status and the code of the response of an error of the HTTP client. *)
Variable errorInfo : E -> option (Z * option json).

Definition isSessionMismatch (e : E) : bool :=
  match errorInfo e with
  | Some (status, Some (JStr code)) => (status =? 409) && (code =?s "AUTH_SESSION_MISMATCH")
  | _ => false
  end.

(** One attempt; [again] is the recovery that a mismatch allows. *)
Definition logoutAttempt (again : option (W -> W * (ApiResponse + E))) (w : W)
    : W * (ApiResponse + E) :=
  match request (getExpectedSID w) w with
  | (w, inl response) => (w, inl response)
  | (w, inr error) =>
      match again with
      | Some retry =>
          if isSessionMismatch error then
            match refresh w with
            | (w, Authenticated _) => retry w
            | (w, Anonymous) => (w, inl (MkApiResponse true []))
            | (w, _) => (w, inr error)
            end
          else (w, inr error)
      | None => (w, inr error)
      end
  end.

Definition executeLogout (allowMismatchRecovery : bool) (w : W) : W * (ApiResponse + E) :=
  if allowMismatchRecovery then logoutAttempt (Some (logoutAttempt None)) w
  else logoutAttempt None w.

End Logout.

(** ** Laws *)

(** ** A parser

    [new URL] on http(s) URLs and references without credentials, ports, dot
    segments, white space, tabs, line breaks or characters to be escaped. *)

Definition url_mark (c : N) : bool := ((c =? chr "?") || (c =? chr "#"))%N.

(** A query or a fragment that is only its mark is empty. *)
Definition drop_lone (s : str) : str := match s with [_] => [] | _ => s end.

Definition url_at (proto host rest : str) : URL :=
  let '(path, tail) := span (fun c => negb (url_mark c)) rest in
  let '(query, fragment) := span (fun c => negb (c =? chr "#")%N) tail in
  let path := map (fun c => if (c =? chr "\")%N then chr "/" else c) path in
  MkURL proto (proto ++ "//" ++ host) (match path with [] => "/" | _ => path end)
    (drop_lone query) (drop_lone fragment).

Definition authority (proto rest : str) : option URL :=
  let '(host, tail) := span (fun c => negb (url_mark c || (c =? chr "/") || (c =? chr "\"))%N) rest in
  match host with [] => None | _ => Some (url_at proto host tail) end.

(** An absolute URL. *)
Definition absoluteURL (s : str) : option URL :=
  if startsWith s "https://" then authority "https:" (drop 8 s)
  else if startsWith s "http://" then authority "http:" (drop 7 s)
  else None.

Definition plainURL (s : str) (base : option str) : option URL :=
  match absoluteURL s, base with
  | Some u, _ => Some u
  | None, Some b =>
      match absoluteURL b with
      | Some bu =>
          if negb (origin bu =?s b) then None
          else if startsWith s "//" || startsWith s "/\" then authority (protocol bu) (drop 2 s)
          else if startsWith s "/" then
            Some (MkURL (protocol bu) b (pathname (url_at (protocol bu) [] s))
                    (url_search (url_at (protocol bu) [] s)) (url_hash (url_at (protocol bu) [] s)))
          else None
      | None => None
      end
  | None, None => None
  end.

(** A URL at the origin whose path begins with two slashes passes the
    sanitizer and comes out as a reference to another host, which the sanitizer
    rejects when it is given directly. *)
Theorem redirect_double_slash :
  sanitizeAuthRedirect plainURL (Some (JStr "https://console.example//attacker.example/path"))
    "https://console.example" = Some (js "//attacker.example/path")
  /\ sanitizeAuthRedirect plainURL (Some (JStr "//attacker.example/path"))
       "https://console.example" = None
  /\ option_map origin (plainURL "//attacker.example/path" (Some (js "https://console.example")))
     = Some (js "https://attacker.example").
Proof. split; [|split]; vm_compute; reflexivity. Qed.

(** A logout sends at most two requests and refreshes at most once. *)
Lemma logout_bounded {W E} (getExpectedSID : W -> option str)
    (request : option str -> W -> W * (ApiResponse + E)) (refresh : W -> W * RefreshOutcome)
    (errorInfo : E -> option (Z * option json)) (requests refreshes : W -> nat) (w : W) :
  (forall sid w, requests (fst (request sid w)) = S (requests w)
     /\ refreshes (fst (request sid w)) = refreshes w) ->
  (forall w, requests (fst (refresh w)) = requests w
     /\ refreshes (fst (refresh w)) = S (refreshes w)) ->
  let w' := fst (executeLogout getExpectedSID request refresh errorInfo true w) in
  (requests w' <= 2 + requests w)%nat /\ (refreshes w' <= 1 + refreshes w)%nat.
Proof.
  intros Hreq Href. cbv zeta. unfold executeLogout, logoutAttempt.
  destruct (Hreq (getExpectedSID w) w) as [H1 H1'].
  destruct (request (getExpectedSID w) w) as [w1 [r|e]]; cbn in *; [lia|].
  destruct (isSessionMismatch errorInfo e); cbn; [|lia].
  destruct (Href w1) as [H2 H2']. destruct (refresh w1) as [w2 []]; cbn in *; try lia.
  destruct (Hreq (getExpectedSID w2) w2) as [H3 H3'].
  destruct (request (getExpectedSID w2) w2) as [w3 [r|e']]; cbn in *; lia.
Qed.
