(* ===== verification/HttpClient.v ===== *)
(** * The HTTP client

    Models [src/web/src/lib/http-client.ts] on top of [AuthSession], with the
    error messages of [lib/server-error-message.ts]: GET requests that are in
    flight are shared, every request carries the access token of the store,
    rotated tokens of responses are stored, and a request that is refused with
    401 waits for a refresh of the session and is then sent again.

    A call is what a caller gets a promise for; it may be sent more than once.
    Calls are named by their index in [calls].  While a call waits for the
    refresh it is a caller of [refreshAuthentication]; calls have odd numbers
    there, all other callers even ones.

    The theorems show that a call is sent at most twice, that the calls in
    flight are shared exactly between equal requests of one session, and that a
    second refusal ends the session. *)

From stdpp Require Import base list gmap.
From Stdlib Require Import ZArith NArith Lia.
From S2P Require Import Prelude JsString JsNumber JsJson AuthSession AuthLaws.

Local Open Scope Z_scope.

(** ** Error messages of the server *)

Definition AUTH_SESSION_LIMIT_MESSAGE : str :=
  js "Too many active login sessions. On a device where you are already signed in, open Login sessions and use “Sign out other sessions” to revoke them. If you cannot access a signed-in device, reset your password to sign out all sessions.".

Definition AUTH_SESSION_ISSUANCE_LIMIT_MESSAGE : str :=
  js "Too many login sessions were created recently. Please wait for the rolling window to pass, then try again.".

Definition serverErrorMessageKeys : list (str * str) :=
  [(js "AUTH_SESSION_LIMIT", AUTH_SESSION_LIMIT_MESSAGE);
   (js "AUTH_SESSION_ISSUANCE_LIMIT", AUTH_SESSION_ISSUANCE_LIMIT_MESSAGE)].

Definition serverErrorPayload (value : option json) : option json :=
  if negb (isRecord value) then None
  else
    let response := oprop "response" value in
    if isRecord response && isRecord (oprop "data" response) then oprop "data" response
    else value.

(** The code is looked up among the keys of the table; the names of the methods
    of [Object.prototype] are not codes of the server. *)
Definition getServerErrorMessageKey (value : option json) : option str :=
  match oprop "code" (serverErrorPayload value) with
  | Some (JStr code) => obj_get code serverErrorMessageKeys
  | _ => None
  end.

(** ** Requests *)

Record ApiRequestConfig : Type := MkConfig {
  skipBusinessError : bool;
  skipErrorHandler : bool;
  disableDuplicate : bool;
  skipAuthRefresh : bool;
  authRetry : bool;
  acceptAuthRotation : bool;
  params : option json;
}.

Definition with_authRetry (c : ApiRequestConfig) : ApiRequestConfig :=
  MkConfig (skipBusinessError c) (skipErrorHandler c) (disableDuplicate c) (skipAuthRefresh c)
    true (acceptAuthRotation c) (params c).

(** What the server, or the network, makes of a request that was sent. *)
Inductive Reply : Type :=
  | ReplyOk (body : option json)
  | ReplyError (status : option Z) (body : option json) (message : str).

(** How the promise of a call ends. *)
Inductive CallResult : Type :=
  | CallOk (body : option json)
  | CallError (message : str).

Inductive CallPhase : Type :=
  | InFlight                                        (** sent, no reply yet *)
  | AwaitRefresh (message : str)                    (** refused with this error *)
  | Done (result : CallResult).

Record ApiCall : Type := MkCall {
  url : str;
  config : ApiRequestConfig;
  authorization : option str;    (** the token in the headers *)
  in_flight_key : option str;    (** [key] of the [finally] of [api.get] *)
  call_phase : CallPhase;
}.

Record Client : Type := MkClient {
  world : World;
  inFlightGet : gmap str nat;
  calls : list ApiCall;
}.

Definition initialClient : Client := MkClient initialWorld ∅ [].

Inductive HttpOutput : Type :=
  | AuthOutput (o : Output)
  | SendRequest (call : nat) (token : option str)
  | ToastError (message : str)
  | RedirectToSignIn.

Definition ClientStep : Type := Client * list HttpOutput.

Definition with_call (i : nat) (f : ApiCall -> ApiCall) (c : Client) : Client :=
  MkClient (world c) (inFlightGet c) (alter f i (calls c)).

Definition set_phase (p : CallPhase) (a : ApiCall) : ApiCall :=
  MkCall (url a) (config a) (authorization a) (in_flight_key a) p.

Definition with_world (w : World) (c : Client) : Client :=
  MkClient w (inFlightGet c) (calls c).

(** The request interceptor: the header is set if there is a token, and
    otherwise left as it is. *)
Definition authorize (a : AuthState) (previous : option str) : option str :=
  match accessToken a with
  | Some tok => if truthy_str tok then Some tok else previous
  | None => previous
  end.

(** A new call. *)
Definition request (u : str) (conf : ApiRequestConfig) (key : option str) (c : Client)
    : ClientStep :=
  let tok := authorize (auth (world c)) None in
  (MkClient (world c) (inFlightGet c) (calls c ++ [MkCall u conf tok key InFlight]),
   [SendRequest (length (calls c)) tok]).

(** [`${sessionSID}:${url}?${params}`]. *)
Definition request_key (a : AuthState) (u : str) (conf : ApiRequestConfig) : str :=
  ostr_or (sessionSID a) "anonymous" ++ ":" ++ u ++ "?" ++
  match params conf with
  | Some p => if truthy_json p then stringify p else js "{}"
  | None => js "{}"
  end.

(** [api.get]: the client, what it does, and the call whose promise is returned. *)
Definition apiGet (u : str) (conf : ApiRequestConfig) (c : Client) : ClientStep * nat :=
  if disableDuplicate conf then (request u conf None c, length (calls c))
  else
    let key := request_key (auth (world c)) u conf in
    match inFlightGet c !! key with
    | Some i => ((c, []), i)
    | None =>
        let '(c', out) := request u conf (Some key) c in
        ((MkClient (world c') (<[key := length (calls c)]> (inFlightGet c')) (calls c'), out),
         length (calls c))
    end.

(** The promise of call [i] ends; the [finally] of [api.get] removes its key. *)
Definition settle (i : nat) (r : CallResult) (c : Client) : Client :=
  let key := calls c !! i ≫= in_flight_key in
  MkClient (world c)
    (match key with Some k => delete k (inFlightGet c) | None => inFlightGet c end)
    (alter (set_phase (Done r)) i (calls c)).

Section client.
Context (t : str -> str).

(** [messageKey ? t(messageKey) : message || fallback]. *)
Definition error_text (value : option json) (messages : list (option str)) : str :=
  match getServerErrorMessageKey value with
  | Some key => t key
  | None => fold_right (fun m rest => ostr_or m rest) (t "Request failed") messages
  end.

(** The message of a body, which is a text if it is there at all. *)
Definition text_of (v : option json) : option str :=
  match v with Some (JStr s) => Some s | _ => None end.

Definition is_bool (b : bool) (v : option json) : bool :=
  match v with Some (JBool b') => Bool.eqb b b' | _ => false end.

(** The handler of responses. *)
Definition onFulfilled (i : nat) (conf : ApiRequestConfig) (body : option json) (c : Client)
    : ClientStep :=
  let rotated :=
    if acceptAuthRotation conf && is_bool true (oprop "success" body)
    then applyAuthRotation (oprop "data" body) (world c)
    else inr (world c, []) in
  match rotated with
  | inl message => (settle i (CallError message) c, [])
  | inr (w, out) =>
      let toast :=
        if negb (skipBusinessError conf)
           && is_bool false (oprop "success" body)
        then [ToastError (error_text body [text_of (oprop "message" body)])] else [] in
      (settle i (CallOk body) (with_world w c), map AuthOutput out ++ toast)
  end.

Definition redirectToSignIn (pathname : str) : list HttpOutput :=
  if pathname =?s "/sign-in" then [] else [RedirectToSignIn].

Definition expired_toast (conf : ApiRequestConfig) : list HttpOutput :=
  if skipErrorHandler conf then [] else [ToastError (t "Session expired!")].

(** The handler of errors, up to its wait for the refresh.  The codes that
    axios gives to its own errors are not among those of the server, so only the
    body of the response decides the message. *)
Definition onRejected (hasLocks : bool) (pathname : str) (i : nat) (conf : ApiRequestConfig)
    (status : option Z) (body : option json) (message : str) (c : Client) : ClientStep :=
  if bool_decide (status = Some 401) then
    if negb (skipAuthRefresh conf) && negb (authRetry conf) then
      let c := with_call i (fun a =>
        MkCall (url a) (with_authRetry conf) (authorization a) (in_flight_key a)
          (AwaitRefresh message)) c in
      let '(w, out) := refreshAuthentication hasLocks (2 * i + 1) (world c) in
      (with_world w c, map AuthOutput out)
    else if authRetry conf then
      let '(w, out) := clearAuthentication false Complete (world c) in
      (settle i (CallError message) (with_world w c),
       map AuthOutput out ++ expired_toast conf ++ redirectToSignIn pathname)
    else (settle i (CallError message) c, expired_toast conf)
  else
    (settle i (CallError message) c,
     if skipErrorHandler conf then []
     else [ToastError (error_text (Some (JObj [(js "response", JObj [(js "data", nullish body JNull)])]))
             [text_of (oprop "message" body); Some message])]).

(** The handler of errors after its wait. *)
Definition afterRefresh (pathname : str) (i : nat) (outcome : Settled RefreshOutcome)
    (c : Client) : ClientStep :=
  match calls c !! i with
  | Some (MkCall u conf tok key (AwaitRefresh message)) =>
      match outcome with
      | Rejected err => (settle i (CallError err) c, [])
      | Resolved (Authenticated _) =>
          let tok' := authorize (auth (world c)) tok in
          (with_call i (fun a => MkCall u conf tok' key InFlight) c, [SendRequest i tok'])
      | Resolved Anonymous | Resolved (OutOfSync _) =>
          (settle i (CallError message) c, expired_toast conf ++ redirectToSignIn pathname)
      | Resolved (TransientError _) => (settle i (CallError message) c, [])
      end
  | _ => (c, [])
  end.

(** ** Runs *)

Inductive ClientEvent : Type :=
  | Get (u : str) (conf : ApiRequestConfig)
  | Request (u : str) (conf : ApiRequestConfig)      (** any other method *)
  | Reply_ (i : nat) (r : Reply)                      (** the reply to call [i] *)
  | Auth (e : Event).

(** Callers other than calls have even numbers. *)
Definition even_caller (e : Event) : Event :=
  match e with
  | Join c => Join (2 * c)
  | Resolve c now => Resolve (2 * c) now
  | Bootstrap k c now => Bootstrap k (2 * c) now
  | FreshHeaders c now => FreshHeaders (2 * c) now
  | _ => e
  end.

Definition client_step (hasLocks : bool) (pathname : str) (e : ClientEvent) (c : Client)
    : ClientStep :=
  match e with
  | Get u conf => fst (apiGet u conf c)
  | Request u conf => request u conf None c
  | Reply_ i r =>
      match calls c !! i with
      | Some (MkCall _ conf _ _ InFlight) =>
          match r with
          | ReplyOk body => onFulfilled i conf body c
          | ReplyError status body message =>
              onRejected hasLocks pathname i conf status body message c
          end
      | _ => (c, [])
      end
  | Auth (Continue n) =>
      match ready (world c) !! n with
      | Some (caller, outcome) =>
          let c := with_world (takeReady n (world c)) c in
          if Nat.odd caller then afterRefresh pathname (Nat.div2 caller) outcome c
          else (c, [])
      | None => (c, [])
      end
  | Auth e =>
      let '(w, out) := step hasLocks (even_caller e) (world c) in
      (with_world w c, map AuthOutput out)
  end.

Fixpoint client_runs (hasLocks : bool) (pathname : str) (es : list ClientEvent) (c : Client)
    : ClientStep :=
  match es with
  | [] => (c, [])
  | e :: es' =>
      let '(c1, out1) := client_step hasLocks pathname e c in
      let '(c2, out2) := client_runs hasLocks pathname es' c1 in (c2, out1 ++ out2)
  end.

End client.

(** ** Steps as changes of one call

    Every step of the client leaves the calls alone, adds one, or changes the
    phase of one that has not ended. *)

Definition is_done (a : ApiCall) : bool := match call_phase a with Done _ => true | _ => false end.

(** How often a call may still be sent. *)
Definition resends (a : ApiCall) : nat :=
  match call_phase a with
  | InFlight => if authRetry (config a) then 0 else 1
  | AwaitRefresh _ => 1
  | Done _ => 0
  end.

Definition awaits_once (a : ApiCall) : Prop :=
  match call_phase a with AwaitRefresh _ => authRetry (config a) = true | _ => True end.

(** How a step changes the calls and the requests in flight, and which call it
    sends. *)
Inductive call_change (c : Client) : Client -> option nat -> Prop :=
  | change_none w : call_change c (with_world w c) None
  | change_new w u conf tok key m :
      (key = None /\ m = inFlightGet c \/
       exists k, key = Some k /\ inFlightGet c !! k = None /\
         m = <[k := length (calls c)]> (inFlightGet c)) ->
      call_change c (MkClient w m (calls c ++ [MkCall u conf tok key InFlight]))
        (Some (length (calls c)))
  | change_phase w i a a' (sent : bool) :
      calls c !! i = Some a -> is_done a = false -> is_done a' = false ->
      in_flight_key a' = in_flight_key a ->
      (awaits_once a -> awaits_once a') ->
      (awaits_once a ->
        resends a' + (if sent then 1 else 0) <= resends a)%nat ->
      call_change c (MkClient w (inFlightGet c) (<[i := a']> (calls c)))
        (if sent then Some i else None)
  | change_settle w i a r :
      calls c !! i = Some a -> is_done a = false ->
      call_change c (with_world w (settle i r c)) None.

Definition sent_call (o : HttpOutput) : option nat :=
  match o with SendRequest i _ => Some i | _ => None end.

Lemma sent_auth (out : list Output) : omap sent_call (map AuthOutput out) = [].
Proof. by induction out. Qed.

Lemma sent_expired t (conf : ApiRequestConfig) : omap sent_call (expired_toast t conf) = [].
Proof. unfold expired_toast. by destruct (skipErrorHandler conf). Qed.

Lemma sent_redirect (p : str) : omap sent_call (redirectToSignIn p) = [].
Proof. unfold redirectToSignIn. by destruct (p =?s "/sign-in"). Qed.

Create Rewrite HintDb sent.
#[local] Hint Rewrite @omap_app sent_auth sent_expired sent_redirect @app_nil_r : sent.

Definition steps_to (c : Client) (s : ClientStep) : Prop :=
  exists o, call_change c (fst s) o /\ omap sent_call (snd s) = option_list o.

Lemma steps_none (c : Client) (w : World) (out : list HttpOutput) :
  omap sent_call out = [] -> steps_to c (with_world w c, out).
Proof. intros H. exists None. split; [constructor|done]. Qed.

Lemma steps_settle (c : Client) (w : World) (i : nat) (a : ApiCall) (r : CallResult)
    (out : list HttpOutput) :
  calls c !! i = Some a -> is_done a = false -> omap sent_call out = [] ->
  steps_to c (with_world w (settle i r c), out).
Proof. intros Hi Hd H. exists None. split; [by econstructor|done]. Qed.

Lemma with_world_eq (c : Client) : with_world (world c) c = c.
Proof. by destruct c. Qed.

Lemma settle_eq (i : nat) (r : CallResult) (c : Client) :
  settle i r c = with_world (world c) (settle i r c).
Proof. done. Qed.

Lemma alter_insert_at {A} (f : A -> A) (l : list A) (i : nat) (x : A) :
  l !! i = Some x -> alter f i l = <[i := f x]> l.
Proof.
  revert i. induction l as [|y l IH]; intros [|i] H; try done; [by injection H as ->|].
  cbn in *. f_equal. by apply IH.
Qed.

Lemma request_steps u conf (c : Client) : steps_to c (request u conf None c).
Proof.
  exists (Some (length (calls c))). split; [|done]. unfold request. apply change_new. by left.
Qed.

Lemma apiGet_steps u conf (c : Client) : steps_to c (fst (apiGet u conf c)).
Proof.
  unfold apiGet. destruct (disableDuplicate conf); [apply request_steps|].
  destruct (inFlightGet c !! _) eqn:E.
  - cbn [fst]. rewrite <- (with_world_eq c) at 2. by apply steps_none.
  - exists (Some (length (calls c))). split; [|done]. apply change_new. right. eauto.
Qed.

Lemma onFulfilled_steps t i u conf tok key body (c : Client) :
  calls c !! i = Some (MkCall u conf tok key InFlight) ->
  steps_to c (onFulfilled t i conf body c).
Proof.
  intros Hi. unfold onFulfilled.
  match goal with |- context [match ?r with inl _ => _ | inr _ => _ end] =>
    destruct r as [message|[w out]] end.
  - rewrite settle_eq. by eapply steps_settle.
  - change (settle i (CallOk body) (with_world w c)) with (with_world w (settle i (CallOk body) c)).
    eapply steps_settle; [done|done|]. autorewrite with sent. by destruct (_ && _).
Qed.

Lemma onRejected_steps t hl path i u conf tok key status body message (c : Client) :
  calls c !! i = Some (MkCall u conf tok key InFlight) ->
  steps_to c (onRejected t hl path i conf status body message c).
Proof.
  intros Hi. unfold onRejected. destruct (bool_decide _).
  2: { rewrite settle_eq. eapply steps_settle; [done|done|]. by destruct (skipErrorHandler conf). }
  destruct (negb _ && negb _) eqn:E.
  - js_simp. unfold with_call. rewrite (alter_insert_at _ _ _ _ Hi). cbn [world].
    destruct (refreshAuthentication _ _ _) as [w out].
    exists None. split; [|apply sent_auth].
    apply (change_phase c w i _ _ false Hi); try done. cbn. rewrite H0. lia.
  - destruct (authRetry conf).
    + unfold clearAuthentication.
      match goal with |- context [with_world ?w c] =>
        change (settle i (CallError message) (with_world w c))
          with (with_world w (settle i (CallError message) c)) end.
      eapply steps_settle; [done|done|]. by autorewrite with sent.
    + rewrite settle_eq. eapply steps_settle; [done|done|]. by autorewrite with sent.
Qed.

Lemma afterRefresh_steps t path i outcome (w : World) (c : Client) :
  steps_to c (afterRefresh t path i outcome (with_world w c)).
Proof.
  unfold afterRefresh. cbn [calls with_world].
  destruct (calls c !! i) as [[u conf tok key [|message|]]|] eqn:Hi; try by apply steps_none.
  destruct outcome as [[]|]; try (eapply (steps_settle c w); [done|done|by autorewrite with sent]).
  unfold with_call. cbn [calls with_world]. rewrite (alter_insert_at _ _ _ _ Hi).
  exists (Some i). split; [|done].
  apply (change_phase c w i _ _ true Hi); try done. cbn. intros ->. lia.
Qed.

Lemma client_step_steps t hl path (e : ClientEvent) (c : Client) :
  steps_to c (client_step t hl path e c).
Proof.
  destruct e as [u conf|u conf|i r|e]; cbn [client_step].
  - apply apiGet_steps.
  - apply request_steps.
  - destruct (calls c !! i) as [[u conf tok key [| |]]|] eqn:Hi;
      try by (rewrite <- (with_world_eq c) at 2; apply steps_none).
    destruct r; [by eapply onFulfilled_steps|by eapply onRejected_steps].
  - assert (Hs : steps_to c (let '(w, out) := step hl (even_caller e) (world c) in
                             (with_world w c, map AuthOutput out))).
    { destruct (step _ _ _) as [w out]. apply steps_none, sent_auth. }
    destruct e; try exact Hs. clear Hs.
    destruct (ready (world c) !! i) as [[caller outcome]|];
      [|rewrite <- (with_world_eq c) at 2; by apply steps_none].
    destruct (Nat.odd caller); [apply afterRefresh_steps|by apply steps_none].
Qed.

Lemma client_runs_cons t hl path (e : ClientEvent) (es : list ClientEvent) (c : Client) :
  client_runs t hl path (e :: es) c =
  (fst (client_runs t hl path es (fst (client_step t hl path e c))),
   snd (client_step t hl path e c) ++
   snd (client_runs t hl path es (fst (client_step t hl path e c)))).
Proof.
  simpl. destruct (client_step _ _ _ _ _) as [c1 o1]. simpl. by destruct (client_runs _ _ _ es c1).
Qed.

(** ** At most one retry *)

(** How often call [i] was sent. *)
Definition times_sent (i : nat) (out : list HttpOutput) : nat :=
  length (List.filter (Nat.eqb i) (omap sent_call out)).

Lemma times_sent_app (i : nat) (o1 o2 : list HttpOutput) :
  times_sent i (o1 ++ o2) = (times_sent i o1 + times_sent i o2)%nat.
Proof. unfold times_sent. by rewrite omap_app, List.filter_app, length_app. Qed.

(** How often call [i] may still be sent. *)
Definition left_to_send (i : nat) (c : Client) : nat :=
  match calls c !! i with Some a => resends a | None => 2 end.

Lemma left_with_world (i : nat) (w : World) (c : Client) :
  left_to_send i (with_world w c) = left_to_send i c.
Proof. done. Qed.

Lemma left_settle (i j : nat) (r : CallResult) (a : ApiCall) (c : Client) :
  calls c !! j = Some a -> (left_to_send i (settle j r c) <= left_to_send i c)%nat.
Proof.
  intros Hj. unfold left_to_send, settle. cbn [calls]. destruct (decide (i = j)) as [->|Hn].
  - rewrite list_lookup_alter, decide_True, Hj by done. cbn. lia.
  - by rewrite list_lookup_alter_ne by done.
Qed.

Lemma call_change_left (i : nat) (c c' : Client) (o : option nat) :
  Forall awaits_once (calls c) -> call_change c c' o ->
  (length (List.filter (Nat.eqb i) (option_list o)) + left_to_send i c' <= left_to_send i c)%nat.
Proof.
  intros Ha [w|w u conf tok key m Hm|w j a a' sent Hj Hd Hd' Hk Hw Hr|w j a r Hj Hd].
  - cbn. by rewrite left_with_world.
  - unfold left_to_send. cbn [calls].
    destruct (decide (i = length (calls c))) as [->|Hn].
    + rewrite list_lookup_middle, lookup_ge_None_2 by done.
      cbn. rewrite Nat.eqb_refl. cbn. destruct (authRetry conf); lia.
    + assert (Hz : List.filter (Nat.eqb i) (option_list (Some (length (calls c)))) = []).
      { cbn. by rewrite (proj2 (Nat.eqb_neq _ _) Hn). }
      rewrite Hz. cbn [length]. destruct (decide (i < length (calls c))%nat) as [Hl|Hl].
      * rewrite lookup_app_l by done. lia.
      * rewrite !lookup_ge_None_2; [lia|lia|]. rewrite length_app. simpl. lia.
  - pose proof (Forall_lookup_1 _ _ _ _ Ha Hj) as Haj. specialize (Hr Haj).
    unfold left_to_send. cbn [calls]. destruct (decide (i = j)) as [->|Hn].
    + rewrite list_lookup_insert_eq, Hj by (by eapply lookup_lt_Some).
      destruct sent; cbn; rewrite ?Nat.eqb_refl; cbn; lia.
    + rewrite list_lookup_insert_ne by done. destruct sent; cbn; [|lia].
      rewrite (proj2 (Nat.eqb_neq i j)) by done. cbn. lia.
  - cbn. rewrite left_with_world. by eapply left_settle.
Qed.

Lemma call_change_awaits (c c' : Client) (o : option nat) :
  Forall awaits_once (calls c) -> call_change c c' o -> Forall awaits_once (calls c').
Proof.
  intros Ha [w|w u conf tok key m Hm|w j a a' sent Hj Hd Hd' Hk Hw Hr|w j a r Hj Hd]; cbn [calls with_world].
  - done.
  - apply Forall_app. split; [done|]. by apply Forall_singleton.
  - apply Forall_insert; [done|]. apply Hw. by apply (Forall_lookup_1 _ _ _ _ Ha Hj).
  - cbn [settle calls]. rewrite (alter_insert_at _ _ _ _ Hj). by apply Forall_insert.
Qed.

Lemma client_runs_left t hl path (i : nat) (es : list ClientEvent) (c : Client) :
  Forall awaits_once (calls c) ->
  (times_sent i (snd (client_runs t hl path es c)) +
   left_to_send i (fst (client_runs t hl path es c)) <= left_to_send i c)%nat.
Proof.
  revert c. induction es as [|e es IH]; intros c Ha; [done|].
  rewrite client_runs_cons. cbn [fst snd]. rewrite times_sent_app.
  destruct (client_step_steps t hl path e c) as (o & Hc & Ho).
  specialize (IH _ (call_change_awaits _ _ _ Ha Hc)).
  pose proof (call_change_left i _ _ _ Ha Hc). unfold times_sent at 1. rewrite Ho. lia.
Qed.

(** Retries are bounded: whatever the server answers and however refreshes
    end, every call is sent at most twice. *)
Theorem sent_at_most_twice t hl path (es : list ClientEvent) (i : nat) :
  (times_sent i (snd (client_runs t hl path es initialClient)) <= 2)%nat.
Proof.
  pose proof (client_runs_left t hl path i es initialClient (Forall_nil_2 _)) as H.
  change (left_to_send i initialClient) with 2%nat in H. lia.
Qed.

(** ** Shared requests *)

(** The keys of the calls that have not ended. *)
Definition pending_keys (c : Client) : list str :=
  omap (fun a => if is_done a then None else in_flight_key a) (calls c).

(** The requests in flight are exactly the calls with a key that have not ended. *)
Definition flights_ok (c : Client) : Prop :=
  forall k i, inFlightGet c !! k = Some i <->
    exists a, calls c !! i = Some a /\ is_done a = false /\ in_flight_key a = Some k.

Lemma flights_new (c : Client) w u conf tok key m :
  flights_ok c ->
  (key = None /\ m = inFlightGet c \/
   exists k, key = Some k /\ inFlightGet c !! k = None /\
     m = <[k := length (calls c)]> (inFlightGet c)) ->
  flights_ok (MkClient w m (calls c ++ [MkCall u conf tok key InFlight])).
Proof.
  intros Hf Hm k i. cbn [inFlightGet calls].
  assert (Hold : forall a, (calls c ++ [MkCall u conf tok key InFlight]) !! i = Some a ->
    calls c !! i = Some a \/ (i = length (calls c) /\ a = MkCall u conf tok key InFlight)).
  { intros a Ha. apply lookup_app_Some in Ha as [Ha|[Hl Ha]]; [by left|right].
    apply list_lookup_singleton_Some in Ha as [? <-]. split; [lia|done]. }
  assert (Hkeep : forall a, calls c !! i = Some a ->
    (calls c ++ [MkCall u conf tok key InFlight]) !! i = Some a).
  { intros a Ha. by apply lookup_app_l_Some. }
  destruct Hm as [[-> ->]|(k0 & -> & Hnone & ->)].
  - rewrite (Hf k i). split; intros (a & Ha & Hd & Hk); exists a.
    + auto.
    + destruct (Hold a Ha) as [?|[_ ->]]; done.
  - rewrite lookup_insert_Some, (Hf k i). split.
    + intros [[<- <-]|[_ (a & Ha & Hd & Hk)]]; [|by eauto 6].
      eexists. split; [by apply list_lookup_middle|done].
    + intros (a & Ha & Hd & Hk). destruct (Hold a Ha) as [Ha'|[-> ->]].
      * right. split; [|by eauto]. intros ->.
        assert (Hs : inFlightGet c !! k = Some i) by (apply Hf; eauto). congruence.
      * left. injection Hk as <-. done.
Qed.

Lemma flights_phase (c : Client) w i (a a' : ApiCall) :
  flights_ok c -> calls c !! i = Some a -> is_done a = false -> is_done a' = false ->
  in_flight_key a' = in_flight_key a ->
  flights_ok (MkClient w (inFlightGet c) (<[i := a']> (calls c))).
Proof.
  intros Hf Hi Hd Hd' Hk k j. cbn [inFlightGet calls]. rewrite (Hf k j).
  destruct (decide (j = i)) as [->|Hn].
  - rewrite list_lookup_insert_eq, Hi by (by eapply lookup_lt_Some).
    split; intros (x & [= <-] & _ & Hx); eexists; split_and!; [done|done|congruence|done|done|congruence].
  - by rewrite list_lookup_insert_ne by done.
Qed.

Lemma flights_settle (c : Client) w i (a : ApiCall) (r : CallResult) :
  flights_ok c -> calls c !! i = Some a -> is_done a = false ->
  flights_ok (with_world w (settle i r c)).
Proof.
  intros Hf Hi Hd k j. unfold settle. cbn [with_world inFlightGet calls]. rewrite Hi.
  rewrite (alter_insert_at _ _ _ _ Hi). cbn [mbind option_bind].
  assert (Hkey : in_flight_key a = Some k <-> inFlightGet c !! k = Some i).
  { rewrite (Hf k i). split; [by eauto|]. intros (x & Hx & _ & Hk). congruence. }
  destruct (decide (j = i)) as [->|Hn].
  - rewrite list_lookup_insert_eq by (by eapply lookup_lt_Some). split.
    + destruct (in_flight_key a) as [k0|] eqn:Ek.
      * rewrite lookup_delete_Some. intros [Hne Hk]. apply Hkey in Hk. congruence.
      * intros Hk. apply Hkey in Hk. done.
    + by intros (x & [= <-] & Hx & _).
  - rewrite list_lookup_insert_ne by done. rewrite <- (Hf k j).
    destruct (in_flight_key a) as [k0|] eqn:Ek; [|done]. rewrite lookup_delete_Some.
    split; [by intros [_ ?]|]. intros Hk. split; [|done]. intros ->.
    assert (inFlightGet c !! k = Some i) by (by apply Hkey). congruence.
Qed.

Lemma call_change_flights (c c' : Client) (o : option nat) :
  flights_ok c -> call_change c c' o -> flights_ok c'.
Proof. intros Hf []; eauto using flights_new, flights_phase, flights_settle. Qed.

Lemma client_runs_flights t hl path (es : list ClientEvent) (c : Client) :
  flights_ok c -> flights_ok (fst (client_runs t hl path es c)).
Proof.
  revert c. induction es as [|e es IH]; intros c Hf; [done|].
  rewrite client_runs_cons. apply IH.
  destruct (client_step_steps t hl path e c) as (o & Hc & _). by eapply call_change_flights.
Qed.

Lemma initial_flights : flights_ok initialClient.
Proof.
  intros k i. cbn [initialClient inFlightGet]. rewrite lookup_empty. split; [done|].
  by intros (a & Ha & _).
Qed.

Lemma NoDup_omap_index {A B} (f : A -> option B) (l : list A) :
  (forall i j x y k, l !! i = Some x -> l !! j = Some y -> f x = Some k -> f y = Some k -> i = j) ->
  NoDup (omap f l).
Proof.
  induction l as [|a l IH]; intros H; [constructor|].
  assert (IH' : NoDup (omap f l)).
  { apply IH. intros i j x y k Hi Hj Hx Hy. by injection (H (S i) (S j) x y k Hi Hj Hx Hy). }
  cbn. destruct (f a) as [b|] eqn:Ea; [|done]. constructor; [|done].
  intros Hb. apply list_elem_of_omap in Hb as (y & Hy & Hfy).
  apply list_elem_of_lookup in Hy as [j Hj].
  discriminate (H 0%nat (S j) a y b eq_refl Hj Ea Hfy).
Qed.

Lemma pending_key (a : ApiCall) (k : str) :
  (if is_done a then None else in_flight_key a) = Some k <->
  is_done a = false /\ in_flight_key a = Some k.
Proof. destruct (is_done a); split; [done|by intros [? _]|done|by intros [_ ?]]. Qed.

(** No GET is sent twice at the same time: the keys of the shared calls that
    have not ended are distinct in every run, and they are exactly the keys
    under which a later GET finds a call to share; a call that has ended, in
    whatever way, is not found any more. *)
Theorem flights_are_shared t hl path (es : list ClientEvent) :
  let c := fst (client_runs t hl path es initialClient) in
  NoDup (pending_keys c) /\
  forall k, is_Some (inFlightGet c !! k) <-> k ∈ pending_keys c.
Proof.
  intros c. assert (Hf : flights_ok c) by (apply client_runs_flights, initial_flights).
  clearbody c. split.
  - apply NoDup_omap_index. intros i j x y k Hi Hj Hx Hy.
    apply pending_key in Hx as [? ?], Hy as [? ?].
    assert (inFlightGet c !! k = Some i) by (apply Hf; eauto).
    assert (inFlightGet c !! k = Some j) by (apply Hf; eauto). congruence.
  - intros k. unfold pending_keys. rewrite list_elem_of_omap. split.
    + intros [i Hi]. apply Hf in Hi as (a & Ha & Hd & Hk). exists a.
      split; [by eapply list_elem_of_lookup_2|by apply pending_key].
    + intros (a & Ha & Hk). apply pending_key in Hk as [Hd Hk].
      apply list_elem_of_lookup in Ha as [i Hi]. exists i. apply Hf. eauto.
Qed.

(** ** Sessions do not share *)

Lemma split_at_colon (a b x y : str) :
  avoids ":"%char a = true -> avoids ":"%char b = true ->
  a ++ ":" ++ x = b ++ ":" ++ y -> a = b /\ x = y.
Proof.
  revert b. induction a as [|c a IH]; intros [|d b] Ha Hb H; cbn in *.
  - by injection H.
  - injection H as <- _. by rewrite N.eqb_refl in Hb.
  - injection H as -> _. by rewrite N.eqb_refl in Ha.
  - injection H as -> H. js_simp. by destruct (IH b) as [-> ->].
Qed.

(** A GET shares a call only within a session: a call that was made under one
    session is never handed to a GET under another one (nor to an anonymous
    one), when the identifiers of sessions have no colon. *)
Theorem no_sharing_between_sessions t hl path (es : list ClientEvent) (i : nat)
    (a : ApiCall) (st : AuthState) (u u0 : str) (conf conf0 : ApiRequestConfig) :
  let c := fst (client_runs t hl path es initialClient) in
  calls c !! i = Some a -> in_flight_key a = Some (request_key st u0 conf0) ->
  avoids ":"%char (ostr_or (sessionSID st) "anonymous") = true ->
  avoids ":"%char (ostr_or (sessionSID (auth (world c))) "anonymous") = true ->
  disableDuplicate conf = false -> snd (apiGet u conf c) = i ->
  ostr_or (sessionSID st) "anonymous" = ostr_or (sessionSID (auth (world c))) "anonymous" /\
  is_done a = false.
Proof.
  intros c Hi Hk Ha Hb Hd Hg.
  assert (Hf : flights_ok c) by (apply client_runs_flights, initial_flights). clearbody c.
  unfold apiGet in Hg. rewrite Hd in Hg. destruct (inFlightGet c !! _) as [j|] eqn:E.
  - cbn in Hg. subst j. apply Hf in E as (a' & Hi' & Hdone & Hk').
    assert (a' = a) as -> by congruence. rewrite Hk in Hk'. injection Hk' as Hkey.
    apply split_at_colon in Hkey as [Hs _]; done.
  - cbn in Hg. subst i. apply lookup_lt_Some in Hi. lia.
Qed.

(** ** Refused requests *)

(** The response of a refresh with a new bundle. *)
Definition refreshed (v : json) : Event :=
  Response (MkResponse 200 (Some (JObj [(js "success", JBool true); (js "data", v)])) None).

Lemma refresh_succeeds hl (caller : nat) (v : json) (w : World) :
  refreshPromise w = None -> isAuthBundle (Some v) = true ->
  runs hl [Join caller; LockGranted; refreshed v; Finish] w =
  (MkWorld (setBundle (asAuthBundle (Some v)) (auth w)) (S (authEpoch w)) None
     (ready w ++ [(caller, Resolved (Authenticated (asAuthBundle (Some v))))]),
   (if hl then [RequestLock] else []) ++ [SendRefresh (sessionSID (auth w))]).
Proof.
  intros Hn Hv. destruct w as [a ep p rd]. cbn in Hn. subst p.
  rewrite !runs_cons. cbn [step fst snd]. unfold refreshAuthentication. cbn [refreshPromise].
  destruct hl; simpl; unfold lockGranted, advance, startRefresh; simpl;
    unfold run; rewrite not_superseded by done; simpl; unfold responseArrives; simpl;
    unfold advance, onResponse; rewrite not_superseded by done; simpl; by rewrite Hv.
Qed.

Lemma client_auth t hl path (e : Event) (c : Client) :
  (forall n, e <> Continue n) -> even_caller e = e ->
  client_step t hl path (Auth e) c =
  (with_world (fst (step hl e (world c))) c, map AuthOutput (snd (step hl e (world c)))).
Proof.
  intros Hc He. cbn [client_step]. rewrite He. destruct (step hl e (world c)) as [w out].
  destruct e; try done. by destruct (Hc i).
Qed.

Lemma client_auth_runs t hl path (es : list Event) (c : Client) :
  Forall (fun e => (forall n, e <> Continue n) /\ even_caller e = e) es ->
  client_runs t hl path (map Auth es) c =
  (with_world (fst (runs hl es (world c))) c, map AuthOutput (snd (runs hl es (world c)))).
Proof.
  intros H. revert c. induction H as [|e es [H1 H2] _ IH]; intros c.
  { cbn. by rewrite with_world_eq. }
  cbn [map]. rewrite client_runs_cons, client_auth, IH, runs_cons by done. cbn [fst snd world with_world].
  by rewrite map_app.
Qed.

(** The requests of a step with the tokens they carry, and its messages. *)
Definition sent_with (o : HttpOutput) : option (nat * option str) :=
  match o with SendRequest j tok => Some (j, tok) | _ => None end.

Definition is_toast (o : HttpOutput) : bool := match o with ToastError _ => true | _ => false end.

Lemma auth_outputs_quiet (out : list Output) :
  omap sent_with (map AuthOutput out) = [] /\ existsb is_toast (map AuthOutput out) = false.
Proof. by induction out. Qed.

Lemma refused_joins t hl path i conf body message (c : Client) :
  skipAuthRefresh conf = false -> authRetry conf = false ->
  onRejected t hl path i conf (Some 401) body message c =
  (with_world (fst (step hl (Join (2 * i + 1)) (world c)))
     (with_call i (fun a => MkCall (url a) (with_authRetry conf) (authorization a)
        (in_flight_key a) (AwaitRefresh message)) c),
   map AuthOutput (snd (step hl (Join (2 * i + 1)) (world c)))).
Proof.
  intros H1 H2. unfold onRejected. rewrite bool_decide_eq_true_2, H1, H2 by done.
  cbn [negb andb step world with_call]. by destruct (refreshAuthentication _ _ _).
Qed.

Lemma resumed t path i u conf tok key message (b : AuthBundle) (c : Client) :
  calls c !! i = Some (MkCall u conf tok key (AwaitRefresh message)) ->
  accessToken (auth (world c)) = Some (access_token b) -> access_token b <> [] ->
  afterRefresh t path i (Resolved (Authenticated b)) c =
  (MkClient (world c) (inFlightGet c)
     (<[i := MkCall u conf (Some (access_token b)) key InFlight]> (calls c)),
   [SendRequest i (Some (access_token b))]).
Proof.
  intros Hi Ht Hne. unfold afterRefresh, authorize, with_call. rewrite Hi, Ht.
  rewrite (proj2 (truthy_str_true _) Hne). by rewrite (alter_insert_at _ _ _ _ Hi).
Qed.

Lemma client_runs_app t hl path (es1 es2 : list ClientEvent) (c : Client) :
  client_runs t hl path (es1 ++ es2) c =
  let '(c1, out1) := client_runs t hl path es1 c in
  let '(c2, out2) := client_runs t hl path es2 c1 in (c2, out1 ++ out2).
Proof.
  revert c. induction es1 as [|e es1 IH]; intros c; cbn [app client_runs].
  { by destruct (client_runs _ _ _ es2 c). }
  destruct (client_step _ _ _ e c) as [c1 o1]. rewrite IH.
  destruct (client_runs _ _ _ es1 c1) as [c2 o2]. destruct (client_runs _ _ _ es2 c2).
  by rewrite app_assoc.
Qed.

Lemma odd_caller (i : nat) : Nat.odd (2 * i + 1) = true /\ Nat.div2 (2 * i + 1) = i.
Proof.
  split; [apply Nat.odd_spec; by exists i|]. rewrite Nat.div2_div.
  symmetry. apply (Nat.div_unique _ _ _ 1); lia.
Qed.

(** The call goes on when its refresh has succeeded. *)
Lemma call_continues t hl path i u conf tok key message (b : AuthBundle) a ep rd (c : Client) :
  world c = MkWorld (setBundle b a) ep None (rd ++ [((2 * i + 1)%nat, Resolved (Authenticated b))]) ->
  calls c !! i = Some (MkCall u conf tok key (AwaitRefresh message)) -> access_token b <> [] ->
  client_step t hl path (Auth (Continue (length rd))) c =
  (MkClient (MkWorld (setBundle b a) ep None rd) (inFlightGet c)
     (<[i := MkCall u conf (Some (access_token b)) key InFlight]> (calls c)),
   [SendRequest i (Some (access_token b))]).
Proof.
  intros Hw Hi Hb. cbn [client_step]. rewrite Hw. cbn [ready].
  rewrite list_lookup_middle by done. destruct (odd_caller i) as [-> ->].
  rewrite (resumed t path i u conf tok key message b); [|done|done|done].
  cbn [world with_world inFlightGet calls takeReady auth authEpoch refreshPromise ready].
  unfold takeReady. cbn [auth authEpoch refreshPromise ready]. by rewrite delete_middle, app_nil_r.
Qed.

Lemma refused_again t hl path i u conf tok key body message (c : Client) :
  calls c !! i = Some (MkCall u conf tok key InFlight) -> authRetry conf = true ->
  let c' := fst (client_step t hl path (Reply_ i (ReplyError (Some 401) body message)) c) in
  auth (world c') = reset Complete (auth (world c)) /\
  call_phase <$> calls c' !! i = Some (Done (CallError message)).
Proof.
  intros Hi Hr. cbn [client_step]. rewrite Hi. unfold onRejected.
  rewrite bool_decide_eq_true_2, Hr, andb_false_r by done. unfold clearAuthentication, settle.
  cbn [fst world with_world calls inFlightGet]. split; [done|].
  by rewrite list_lookup_alter, decide_True, Hi.
Qed.

(** C23: A request that is refused because its token has expired is sent again with
    the token of the refresh, once, and the user sees no error; if it is refused
    again, the session ends and the call fails. *)
Theorem refused_request_retried t hl path (c : Client) i u conf tok key body message (v : json) :
  calls c !! i = Some (MkCall u conf tok key InFlight) ->
  skipAuthRefresh conf = false -> authRetry conf = false ->
  refreshPromise (world c) = None -> isAuthBundle (Some v) = true ->
  let b := asAuthBundle (Some v) in
  let refused := Reply_ i (ReplyError (Some 401) body message) in
  let '(c1, out1) := client_runs t hl path
    ((refused :: map Auth [LockGranted; refreshed v; Finish]) ++
     [Auth (Continue (length (ready (world c))))]) c in
  let c2 := fst (client_step t hl path refused c1) in
  auth (world c1) = setBundle b (auth (world c)) /\
  omap sent_with out1 = [(i, Some (access_token b))] /\ existsb is_toast out1 = false /\
  auth (world c2) = reset Complete (auth (world c1)) /\
  call_phase <$> calls c2 !! i = Some (Done (CallError message)).
Proof.
  intros Hi Hskip Hretry Hp Hv b refused.
  assert (Hb : access_token b <> []) by (by apply asAuthBundle_ok in Hv as (? & _)).
  pose proof (refresh_succeeds hl (2 * i + 1) v (world c) Hp Hv) as Hr. rewrite runs_cons in Hr.
  rewrite client_runs_app, client_runs_cons. cbn [client_step refused]. rewrite Hi, refused_joins by done.
  set (w0 := fst (step hl (Join (2 * i + 1)) (world c))) in *. cbn [fst snd].
  rewrite client_auth_runs by (repeat apply Forall_cons_2; (apply Forall_nil_2 || by split)).
  pose proof (f_equal fst Hr) as Hw. cbn [fst] in Hw. cbn [world with_world].
  fold w0 in Hw. rewrite Hw. fold b.
  set (cw := with_world _ _).
  assert (Hc : calls cw !! i = Some (MkCall u (with_authRetry conf) tok key (AwaitRefresh message))).
  { subst cw. cbn [calls with_world with_call]. by rewrite list_lookup_alter, decide_True, Hi. }
  cbn [fst snd]. rewrite client_runs_cons, (call_continues t hl path i u _ tok key message b _ _ _ cw eq_refl Hc Hb).
  cbn [fst snd client_runs]. rewrite !omap_app, !existsb_app.
  rewrite !(proj1 (auth_outputs_quiet _)), !(proj2 (auth_outputs_quiet _)).
  split; [done|]. split; [done|]. split; [done|].
  apply (refused_again t hl path i u (with_authRetry conf) (Some (access_token b)) key body message);
    [|done]. cbn [calls]. apply list_lookup_insert_eq. by eapply lookup_lt_Some.
Qed.

(** ** Concrete calls *)

Definition plain_config : ApiRequestConfig := MkConfig false false false false false false None.

Definition sample_client : Client :=
  fst (client_runs id true (js "/") [Auth sample_login; Get (js "/api/user/self") plain_config]
         initialClient).

Lemma no_sharing_between_sessions_witness :
  let c := fst (client_runs id true (js "/")
                  [Auth sample_login; Get (js "/api/user/self") plain_config] initialClient) in
  let st := auth (fst (runs true [sample_login] initialWorld)) in
  exists a, calls c !! 0%nat = Some a /\
    ostr_or (sessionSID st) "anonymous" = ostr_or (sessionSID (auth (world c))) "anonymous" /\
    is_done a = false.
Proof.
  intros c st.
  exists (MkCall (js "/api/user/self") plain_config (Some (js "token"))
            (Some (request_key st (js "/api/user/self") plain_config)) InFlight).
  split; [vm_compute; reflexivity|].
  refine (no_sharing_between_sessions id true (js "/")
            [Auth sample_login; Get (js "/api/user/self") plain_config] 0 _ st
            (js "/api/user/self") (js "/api/user/self") plain_config plain_config _ _ _ _ _ _);
    vm_compute; reflexivity.
Defined.

Lemma refused_request_retried_witness :
  let refused := Reply_ 0 (ReplyError (Some 401) None (js "expired")) in
  let '(c1, out1) := client_runs id true (js "/")
    ((refused :: map Auth [LockGranted; refreshed (sample_bundle "a"); Finish]) ++
     [Auth (Continue (length (ready (world sample_client))))]) sample_client in
  omap sent_with out1 = [(0%nat, Some (js "token"))].
Proof.
  intros refused.
  pose proof (refused_request_retried id true (js "/") sample_client 0 (js "/api/user/self")
    plain_config (Some (js "token"))
    (Some (request_key (auth (world sample_client)) (js "/api/user/self") plain_config))
    None (js "expired") (sample_bundle "a")
    ltac:(vm_compute; reflexivity) eq_refl eq_refl eq_refl eq_refl) as H.
  fold refused in H. cbv zeta in H.
  destruct (client_runs id true (js "/") _ sample_client) as [c1 out1].
  exact (proj1 (proj2 H)).
Defined.
