(* ===== verification/ImageParams.v ===== *)
(** * Parameters of the image studio

    Models [src/web/src/features/image-studio/lib/model-params] (the families of
    models, their limits, the normalisation of parameters, the body of a request
    and the parameters of a stored record), the controls of
    [gpt-image/params.tsx] and [seedream/params.tsx] that change a number, and the
    hook [hooks/use-image-studio-state.ts], which keeps the chosen group, model and
    parameters and a cache of the parameters of each family.

    A Number is an IEEE value: the number of images that is typed need not be an
    integer.  Records of the server are those of the types; the data that axios
    delivers is an argument of the definitions. *)

From stdpp Require Import base list.
From Stdlib Require Import ZArith NArith Lia SpecFloat.
From S2P Require Import Prelude JsString JsArray JsNumber.

Local Open Scope Z_scope.

(** ** Data *)

Inductive StudioMode : Type := GenerateMode | EditMode.

Definition mode_eqb (a b : StudioMode) : bool :=
  match a, b with GenerateMode, GenerateMode | EditMode, EditMode => true | _, _ => false end.

Inductive ImageModelFamily : Type := GptImage | Seedream.

Definition family_eqb (a b : ImageModelFamily) : bool :=
  match a, b with GptImage, GptImage | Seedream, Seedream => true | _, _ => false end.

Record GptImageConfig : Type := MkGpt {
  g_size : str;
  g_customWidth : num;
  g_customHeight : num;
  g_quality : str;
  g_moderation : str;
  g_n : num;
  g_background : str;
  g_outputFormat : str;
  g_outputCompression : option num;
}.

Record SeedreamConfig : Type := MkSeedream {
  s_size : str;
  s_customWidth : num;
  s_customHeight : num;
  s_n : num;
  s_outputFormat : str;
  s_watermark : bool;
  s_optimizePromptMode : str;
}.

Inductive ImageStudioParameters : Type :=
  | GptParameters (p : GptImageConfig)
  | SeedreamParameters (p : SeedreamConfig).

Definition family (p : ImageStudioParameters) : ImageModelFamily :=
  match p with GptParameters _ => GptImage | SeedreamParameters _ => Seedream end.

Definition p_size (p : ImageStudioParameters) : str :=
  match p with GptParameters q => g_size q | SeedreamParameters q => s_size q end.

Definition p_customWidth (p : ImageStudioParameters) : num :=
  match p with GptParameters q => g_customWidth q | SeedreamParameters q => s_customWidth q end.

Definition p_customHeight (p : ImageStudioParameters) : num :=
  match p with GptParameters q => g_customHeight q | SeedreamParameters q => s_customHeight q end.

Definition p_n (p : ImageStudioParameters) : num :=
  match p with GptParameters q => g_n q | SeedreamParameters q => s_n q end.

Definition gpt_with_n (n : num) (q : GptImageConfig) : GptImageConfig :=
  MkGpt (g_size q) (g_customWidth q) (g_customHeight q) (g_quality q) (g_moderation q) n (g_background q)
    (g_outputFormat q) (g_outputCompression q).

Definition seedream_with_n (n : num) (q : SeedreamConfig) : SeedreamConfig :=
  MkSeedream (s_size q) (s_customWidth q) (s_customHeight q) n (s_outputFormat q) (s_watermark q)
    (s_optimizePromptMode q).

(** [{ ...parameters, n }]. *)
Definition with_n (n : num) (p : ImageStudioParameters) : ImageStudioParameters :=
  match p with
  | GptParameters q => GptParameters (gpt_with_n n q)
  | SeedreamParameters q => SeedreamParameters (seedream_with_n n q)
  end.

Record ImageStudioConfig : Type := MkConfig {
  c_group : str;
  c_model : str;
  c_parameters : ImageStudioParameters;
}.

Record ReferenceImage : Type := MkReference { ref_id : str; dataUrl : str; ref_name : str }.

Record ImageGenerationPayload : Type := MkPayload {
  pl_model : str;
  pl_group : str;
  pl_prompt : str;
  pl_size : option str;
  pl_quality : option str;
  pl_moderation : option str;
  pl_background : option str;
  pl_output_format : option str;
  pl_output_compression : option num;
  pl_response_format : option str;
  pl_watermark : option bool;
  pl_optimize_prompt_mode : option str;
  pl_image : option (list str);
}.

(** [Partial<ImageGenerationPayload>]: what a family adds to a request. *)
Record ModelPayload : Type := MkModelPayload {
  mp_quality : option str;
  mp_moderation : option str;
  mp_background : option str;
  mp_output_format : option str;
  mp_output_compression : option num;
  mp_response_format : option str;
  mp_watermark : option bool;
  mp_optimize_prompt_mode : option str;
}.

Record ImageModelRuntimeLimits : Type := MkLimits {
  maxImages : num;
  maxReferenceImages : Z;
  maxTotalImages : option num;
  usesGenerationEndpointForEdits : bool;
}.

(** ** Records of the history ([types.ts]) *)

Record GeneratedImage : Type := MkImage {
  im_id : str;
  im_src : str;
  storageId : option str;
  mimeType : option str;
  sizeBytes : option num;
  im_width : option num;
  im_height : option num;
  revisedPrompt : option str;
}.

Record GenerationUsage : Type := MkUsage {
  durationMs : num;
  u_quota : option num;
  u_promptTokens : option num;
  u_completionTokens : option num;
  u_channelId : option num;
}.

Record GenerationRecord : Type := MkRecord {
  r_id : str;
  createdAt : num;
  r_mode : StudioMode;
  r_prompt : str;
  r_model : str;
  r_group : str;
  parameterSnapshot : option ImageStudioParameters;
  r_size : str;
  r_quality : option str;
  r_moderation : option str;
  r_outputFormat : option str;
  r_n : num;
  images : list GeneratedImage;
  failedImageCount : option num;
  r_imageErrors : option (list str);
  usage : option GenerationUsage;
  r_channelId : option num;
  favorite : option bool;
  r_referenceImages : option (list ReferenceImage);
}.

(** ** The family of the GPT image models ([gpt-image/config.ts]) *)

Definition CUSTOM_SIZE : str := js "custom".
Definition auto : str := js "auto".

Definition DEFAULT_GPT_IMAGE_PARAMETERS : GptImageConfig :=
  MkGpt auto (num_of_Z 1024) (num_of_Z 1024) auto auto (num_of_Z 1) auto (js "png") None.

Definition gpt_sizePresets : list str :=
  [js "1024x1024"; js "1024x1792"; js "1792x1024"; js "1536x1024"; js "1024x1536"; js "512x512"; js "256x256";
   js "2048x2048"; js "3840x2160"].

Definition gpt_qualityOptions : list str := [auto; js "low"; js "medium"; js "high"].
Definition gpt_moderationOptions : list str := [auto; js "low"].
Definition gpt_backgroundOptions : list str := [auto; js "opaque"].
Definition gpt_outputFormatOptions : list str := [js "png"; js "webp"; js "jpeg"].

Definition gpt_runtimeLimits : ImageModelRuntimeLimits := MkLimits (num_of_Z 8) 4 None false.

(** [options.includes(value) ? value : fallback]. *)
Definition one_of (options : list str) (fallback value : str) : str :=
  if mem_str value options then value else fallback.

(** [Math.min(maxImages, Math.max(1, n))]. *)
Definition clampImageCount (limits : ImageModelRuntimeLimits) (n : num) : num :=
  num_min (maxImages limits) (num_max (num_of_Z 1) n).

Definition gpt_normalizeParameters (p : GptImageConfig) : GptImageConfig :=
  let sizeInvalid :=
    negb (g_size p =?s auto) && negb (g_size p =?s CUSTOM_SIZE) && negb (mem_str (g_size p) gpt_sizePresets) in
  MkGpt (if sizeInvalid then auto else g_size p)
    (g_customWidth p) (g_customHeight p)
    (one_of gpt_qualityOptions auto (g_quality p))
    (one_of gpt_moderationOptions auto (g_moderation p))
    (clampImageCount gpt_runtimeLimits (g_n p))
    (one_of gpt_backgroundOptions auto (g_background p))
    (one_of gpt_outputFormatOptions (js "png") (g_outputFormat p))
    (g_outputCompression p).

Definition gpt_isCustomSizeValid (p : GptImageConfig) : bool :=
  if negb (g_size p =?s CUSTOM_SIZE) then true
  else
    let w := g_customWidth p in
    let h := g_customHeight p in
    let aspectRatio := num_div w h in
    num_lt num_zero w && num_lt num_zero h &&
    num_eq (num_rem w (num_of_Z 16)) num_zero && num_eq (num_rem h (num_of_Z 16)) num_zero &&
    num_le (num_div (num_of_Z 1) (num_of_Z 3)) aspectRatio && num_le aspectRatio (num_of_Z 3) &&
    num_le w (num_of_Z 3840) && num_le h (num_of_Z 3840) &&
    num_le (num_mul w h) (num_of_Z (3840 * 2160)).

Definition gpt_buildPayload (p : GptImageConfig) (mode : StudioMode) : ModelPayload :=
  let unless_auto v := if v =?s auto then None else Some v in
  let outputCompressionSupported := (g_outputFormat p =?s "jpeg") || (g_outputFormat p =?s "webp") in
  MkModelPayload
    (unless_auto (g_quality p))
    (if mode_eqb mode GenerateMode then unless_auto (g_moderation p) else None)
    (unless_auto (g_background p))
    (if truthy_str (g_outputFormat p) then Some (g_outputFormat p) else None)
    (if outputCompressionSupported then g_outputCompression p else None)
    None None None.

(** ** The family of the Seedream models ([seedream/config.ts]) *)

Definition DEFAULT_SEEDREAM_PARAMETERS : SeedreamConfig :=
  MkSeedream (js "2K") (num_of_Z 2048) (num_of_Z 2048) (num_of_Z 1) (js "jpeg") false (js "standard").

Definition seedream_sizePresets : list str :=
  [js "1K"; js "2K"; js "4K"; js "2048x2048"; js "2304x1728"; js "1728x2304"; js "2560x1440"; js "1440x2560";
   js "2496x1664"; js "1664x2496"; js "3024x1296"].

Definition seedream_promptOptimizationOptions : list str := [js "standard"; js "fast"].
Definition seedream_outputFormatOptions : list str := [js "jpeg"; js "png"].

Definition seedream_runtimeLimits : ImageModelRuntimeLimits :=
  MkLimits (num_of_Z 8) 10 (Some (num_of_Z 15)) true.

Definition seedream_normalizeParameters (p : SeedreamConfig) : SeedreamConfig :=
  let sizeInvalid :=
    (s_size p =?s auto) || (negb (s_size p =?s CUSTOM_SIZE) && negb (mem_str (s_size p) seedream_sizePresets)) in
  MkSeedream (if sizeInvalid then js "2K" else s_size p)
    (s_customWidth p) (s_customHeight p)
    (clampImageCount seedream_runtimeLimits (s_n p))
    (one_of seedream_outputFormatOptions (js "jpeg") (s_outputFormat p))
    (s_watermark p)
    (one_of seedream_promptOptimizationOptions (js "standard") (s_optimizePromptMode p)).

Definition seedream_isCustomSizeValid (p : SeedreamConfig) : bool :=
  if negb (s_size p =?s CUSTOM_SIZE) then true
  else
    let w := s_customWidth p in
    let h := s_customHeight p in
    let aspectRatio := num_div w h in
    let pixelCount := num_mul w h in
    num_lt num_zero w && num_lt num_zero h && num_le w (num_of_Z 4096) && num_le h (num_of_Z 4096) &&
    num_le (num_div (num_of_Z 1) (num_of_Z 16)) aspectRatio && num_le aspectRatio (num_of_Z 16) &&
    num_le (num_of_Z (1280 * 720)) pixelCount && num_le pixelCount (num_of_Z (4096 * 4096)).

Definition seedream_buildPayload (p : SeedreamConfig) : ModelPayload :=
  MkModelPayload None None None (Some (s_outputFormat p)) None (Some (js "b64_json")) (Some (s_watermark p))
    (Some (s_optimizePromptMode p)).

(** ** The adapter of a model ([model-params/index.ts]) *)

Section adapters.
Context {CM : CaseMapping}.

Definition isGptImageModel (model : str) : bool := includes (toLowerCase model) "gpt-image".
Definition isSeedreamModel (model : str) : bool := includes (toLowerCase model) "seedream".

(** The family decides the default parameters and the limits. *)
Definition defaultParameters (f : ImageModelFamily) : ImageStudioParameters :=
  match f with
  | GptImage => GptParameters DEFAULT_GPT_IMAGE_PARAMETERS
  | Seedream => SeedreamParameters DEFAULT_SEEDREAM_PARAMETERS
  end.

Definition runtimeLimits (f : ImageModelFamily) : ImageModelRuntimeLimits :=
  match f with GptImage => gpt_runtimeLimits | Seedream => seedream_runtimeLimits end.

Definition resolveImageModelAdapter (model : str) : option ImageModelFamily :=
  if isGptImageModel model then Some GptImage else if isSeedreamModel model then Some Seedream else None.

Definition isSupportedImageModel (model : str) : bool :=
  match resolveImageModelAdapter model with Some _ => true | None => false end.

Definition getImageModelRuntimeLimits (model : str) : option ImageModelRuntimeLimits :=
  runtimeLimits <$> resolveImageModelAdapter model.

Definition createDefaultParametersForModel (model : str) : option ImageStudioParameters :=
  defaultParameters <$> resolveImageModelAdapter model.

Definition normalizeParameters (p : ImageStudioParameters) : ImageStudioParameters :=
  match p with
  | GptParameters q => GptParameters (gpt_normalizeParameters q)
  | SeedreamParameters q => SeedreamParameters (seedream_normalizeParameters q)
  end.

Definition normalizeConfigForModel (config : ImageStudioConfig) : option ImageStudioConfig :=
  match resolveImageModelAdapter (c_model config) with
  | None => None
  | Some f =>
      let sourceParameters :=
        if family_eqb (family (c_parameters config)) f then c_parameters config else defaultParameters f in
      Some (MkConfig (c_group config) (c_model config) (normalizeParameters sourceParameters))
  end.

Definition isCustomSizeValid (config : ImageStudioConfig) : bool :=
  match resolveImageModelAdapter (c_model config) with
  | None => false
  | Some f =>
      if negb (family_eqb f (family (c_parameters config))) then false
      else match c_parameters config with
           | GptParameters q => gpt_isCustomSizeValid q
           | SeedreamParameters q => seedream_isCustomSizeValid q
           end
  end.

Definition resolveParameterSize (p : ImageStudioParameters) : str :=
  if negb (p_size p =?s CUSTOM_SIZE) then p_size p
  else num_to_string (p_customWidth p) ++ js "x" ++ num_to_string (p_customHeight p).

(** The body of a request, or the exception of an unsupported model. *)
Definition buildImageGenerationPayload (config : ImageStudioConfig) (prompt : str) (mode : StudioMode)
    (referenceImages : list ReferenceImage) : res ImageGenerationPayload :=
  match resolveImageModelAdapter (c_model config) with
  | None => Throw
  | Some f =>
      if negb (family_eqb f (family (c_parameters config))) then Throw
      else
        let m := match c_parameters config with
                 | GptParameters q => gpt_buildPayload q mode
                 | SeedreamParameters q => seedream_buildPayload q
                 end in
        let size := resolveParameterSize (c_parameters config) in
        Ok (MkPayload (c_model config) (c_group config) prompt
              (if truthy_str size && negb (size =?s auto) then Some size else None)
              (mp_quality m) (mp_moderation m) (mp_background m) (mp_output_format m) (mp_output_compression m)
              (mp_response_format m) (mp_watermark m) (mp_optimize_prompt_mode m)
              (if mode_eqb mode EditMode then Some (map dataUrl referenceImages) else None))
  end.

(** The parameters a record was generated with, for a retry.  A record of before
    the snapshots keeps some of them. *)
Definition restoreParametersFromRecord (record : GenerationRecord) : option ImageStudioParameters :=
  match resolveImageModelAdapter (r_model record) with
  | None => None
  | Some f =>
      match parameterSnapshot record, f with
      | Some (GptParameters q), GptImage => Some (GptParameters (gpt_normalizeParameters q))
      | Some (SeedreamParameters q), Seedream => Some (SeedreamParameters (seedream_normalizeParameters q))
      | _, GptImage =>
          let d := DEFAULT_GPT_IMAGE_PARAMETERS in
          Some (GptParameters (gpt_normalizeParameters
            (MkGpt (str_or (r_size record) (g_size d)) (g_customWidth d) (g_customHeight d)
               (nullish (r_quality record) (g_quality d)) (nullish (r_moderation record) (g_moderation d))
               (r_n record) (g_background d) (nullish (r_outputFormat record) (g_outputFormat d))
               (g_outputCompression d))))
      | _, Seedream =>
          let d := DEFAULT_SEEDREAM_PARAMETERS in
          Some (SeedreamParameters (seedream_normalizeParameters
            (MkSeedream (str_or (r_size record) (s_size d)) (s_customWidth d) (s_customHeight d) (r_n record)
               (nullish (r_outputFormat record) (s_outputFormat d)) (s_watermark d) (s_optimizePromptMode d))))
      end
  end.

End adapters.

(** ** The controls of the parameters ([params.tsx] of a family) *)

(** [updateConfig(key, value)], a constructor for each key. *)
Inductive GptField : Type :=
  | GSize (v : str) | GCustomWidth (v : num) | GCustomHeight (v : num) | GQuality (v : str) | GModeration (v : str)
  | GN (v : num) | GBackground (v : str) | GOutputFormat (v : str) | GOutputCompression (v : option num).

Definition set_gpt (f : GptField) (q : GptImageConfig) : GptImageConfig :=
  let '(MkGpt size w h quality moderation n background fmt compression) := q in
  match f with
  | GSize v => MkGpt v w h quality moderation n background fmt compression
  | GCustomWidth v => MkGpt size v h quality moderation n background fmt compression
  | GCustomHeight v => MkGpt size w v quality moderation n background fmt compression
  | GQuality v => MkGpt size w h v moderation n background fmt compression
  | GModeration v => MkGpt size w h quality v n background fmt compression
  | GN v => MkGpt size w h quality moderation v background fmt compression
  | GBackground v => MkGpt size w h quality moderation n v fmt compression
  | GOutputFormat v => MkGpt size w h quality moderation n background v compression
  | GOutputCompression v => MkGpt size w h quality moderation n background fmt v
  end.

Inductive SeedreamField : Type :=
  | SSize (v : str) | SCustomWidth (v : num) | SCustomHeight (v : num) | SN (v : num) | SOutputFormat (v : str)
  | SWatermark (v : bool) | SOptimizePromptMode (v : str).

Definition set_seedream (f : SeedreamField) (q : SeedreamConfig) : SeedreamConfig :=
  let '(MkSeedream size w h n fmt watermark mode) := q in
  match f with
  | SSize v => MkSeedream v w h n fmt watermark mode
  | SCustomWidth v => MkSeedream size v h n fmt watermark mode
  | SCustomHeight v => MkSeedream size w v n fmt watermark mode
  | SN v => MkSeedream size w h v fmt watermark mode
  | SOutputFormat v => MkSeedream size w h n v watermark mode
  | SWatermark v => MkSeedream size w h n fmt v mode
  | SOptimizePromptMode v => MkSeedream size w h n fmt watermark v
  end.

(** What a control of the panel does: the buttons and the input of the count, the
    menus, the inputs of the dimensions, of the compression and the switch.  A
    menu offers its options; its value is [null] when nothing is selected. *)
Inductive Control : Type :=
  | Decrease | Increase | TypeCount (text : str)
  | PickSize (v : option str) | TypeWidth (text : str) | TypeHeight (text : str)
  | PickQuality (v : option str) | PickModeration (v : option str) | PickBackground (v : option str)
  | PickOutputFormat (v : option str) | TypeCompression (text : str)
  | PickOptimize (v : option str) | SwitchWatermark (b : bool).

(** [Number(text) || 1] and [Number(text) || 0]. *)
Definition typedCount (text : str) : num :=
  if truthy_num (Number text) then Number text else num_of_Z 1.

Definition typedDimension (text : str) : num := num_or_zero (Number text).

Definition gptControl (q : GptImageConfig) (c : Control) : option GptField :=
  let clamp := clampImageCount gpt_runtimeLimits in
  match c with
  | Decrease => if num_le (g_n q) (num_of_Z 1) then None else Some (GN (clamp (num_sub (g_n q) (num_of_Z 1))))
  | Increase =>
      if num_le (maxImages gpt_runtimeLimits) (g_n q) then None
      else Some (GN (clamp (num_add (g_n q) (num_of_Z 1))))
  | TypeCount text => Some (GN (clamp (typedCount text)))
  | PickSize v => Some (GSize (nullish v auto))
  | TypeWidth text => if g_size q =?s CUSTOM_SIZE then Some (GCustomWidth (typedDimension text)) else None
  | TypeHeight text => if g_size q =?s CUSTOM_SIZE then Some (GCustomHeight (typedDimension text)) else None
  | PickQuality v => Some (GQuality (nullish v []))
  | PickModeration v => Some (GModeration (nullish v []))
  | PickBackground v => Some (GBackground (nullish v []))
  | PickOutputFormat v => Some (GOutputFormat (nullish v []))
  | TypeCompression text =>
      if (g_outputFormat q =?s "jpeg") || (g_outputFormat q =?s "webp")
      then Some (GOutputCompression (if negb (truthy_str text) then None else Some (Number text)))
      else None
  | PickOptimize _ | SwitchWatermark _ => None
  end.

Definition seedreamControl (q : SeedreamConfig) (c : Control) : option SeedreamField :=
  let clamp := clampImageCount seedream_runtimeLimits in
  match c with
  | Decrease => if num_le (s_n q) (num_of_Z 1) then None else Some (SN (clamp (num_sub (s_n q) (num_of_Z 1))))
  | Increase =>
      if num_le (maxImages seedream_runtimeLimits) (s_n q) then None
      else Some (SN (clamp (num_add (s_n q) (num_of_Z 1))))
  | TypeCount text => Some (SN (clamp (typedCount text)))
  | PickSize v => Some (SSize (nullish v (js "2K")))
  | TypeWidth text => if s_size q =?s CUSTOM_SIZE then Some (SCustomWidth (typedDimension text)) else None
  | TypeHeight text => if s_size q =?s CUSTOM_SIZE then Some (SCustomHeight (typedDimension text)) else None
  | PickOutputFormat v => Some (SOutputFormat (nullish v []))
  | PickOptimize v => Some (SOptimizePromptMode (nullish v []))
  | SwitchWatermark b => Some (SWatermark b)
  | PickQuality _ | PickModeration _ | PickBackground _ | TypeCompression _ => None
  end.

(** ** The chosen configuration ([use-image-studio-state.ts]) *)

Definition DEFAULT_GROUP : str := js "default".
Definition DEFAULT_IMAGE_MODEL : str := js "gpt-image-2".

(** A group or a model of a menu, by its value. *)
Record ParameterCache : Type := MkCache {
  cached_gpt : option ImageStudioParameters;
  cached_seedream : option ImageStudioParameters;
}.

Definition cache_get (f : ImageModelFamily) (c : ParameterCache) : option ImageStudioParameters :=
  match f with GptImage => cached_gpt c | Seedream => cached_seedream c end.

Definition cache_put (f : ImageModelFamily) (p : ImageStudioParameters) (c : ParameterCache) : ParameterCache :=
  match f with GptImage => MkCache (Some p) (cached_seedream c) | Seedream => MkCache (cached_gpt c) (Some p) end.

(** The state of the hook.  [modelsRequest] numbers the runs of the effect that
    fetches the models of the group: a run is cancelled when the next one starts. *)
Record StudioState : Type := MkStudioState {
  config : ImageStudioConfig;
  parameterCache : ParameterCache;
  groups : list str;
  models : list str;
  isLoadingModels : bool;
  modelsRequest : nat;
}.

Definition with_config (c : ImageStudioConfig) (s : StudioState) : StudioState :=
  MkStudioState c (parameterCache s) (groups s) (models s) (isLoadingModels s) (modelsRequest s).

Definition with_cache (c : ParameterCache) (s : StudioState) : StudioState :=
  MkStudioState (config s) c (groups s) (models s) (isLoadingModels s) (modelsRequest s).

Definition with_groups (l : list str) (s : StudioState) : StudioState :=
  MkStudioState (config s) (parameterCache s) l (models s) (isLoadingModels s) (modelsRequest s).

Definition with_models (l : list str) (s : StudioState) : StudioState :=
  MkStudioState (config s) (parameterCache s) (groups s) l (isLoadingModels s) (modelsRequest s).

Definition with_loading (b : bool) (s : StudioState) : StudioState :=
  MkStudioState (config s) (parameterCache s) (groups s) (models s) b (modelsRequest s).

Definition set_model (m : str) (p : ImageStudioParameters) (c : ImageStudioConfig) : ImageStudioConfig :=
  MkConfig (c_group c) m p.

Definition set_group (g : str) (c : ImageStudioConfig) : ImageStudioConfig :=
  MkConfig g (c_model c) (c_parameters c).

Section studio_state.
Context {CM : CaseMapping}.

(** The parameters for a model: those of the cache, or the defaults. *)
Definition cachedOrDefault (f : ImageModelFamily) (model : str) (cache : ParameterCache)
    : option ImageStudioParameters :=
  match cache_get f cache with
  | Some p => if family_eqb (family p) f then Some p else createDefaultParametersForModel model
  | None => createDefaultParametersForModel model
  end.

Definition updateGroup (group : str) (s : StudioState) : StudioState := with_config (set_group group (config s)) s.

Definition updateModel (model : str) (s : StudioState) : StudioState :=
  match resolveImageModelAdapter model with
  | None => s
  | Some nextFamily =>
      let p := c_parameters (config s) in
      let s := with_cache (cache_put (family p) p (parameterCache s)) s in
      match cachedOrDefault nextFamily model (parameterCache s) with
      | None => s
      | Some parameters => with_config (set_model model parameters (config s)) s
      end
  end.

Definition updateParameters (p : ImageStudioParameters) (s : StudioState) : StudioState :=
  match resolveImageModelAdapter (c_model (config s)) with
  | None => s
  | Some f =>
      if negb (family_eqb f (family p)) then s
      else with_config (set_model (c_model (config s)) p (config s)) (with_cache (cache_put (family p) p (parameterCache s)) s)
  end.

Definition updateGptImageConfig (f : GptField) (s : StudioState) : StudioState :=
  match c_parameters (config s) with
  | SeedreamParameters _ => s
  | GptParameters q =>
      let p := GptParameters (set_gpt f q) in
      with_config (set_model (c_model (config s)) p (config s)) (with_cache (cache_put GptImage p (parameterCache s)) s)
  end.

Definition updateSeedreamConfig (f : SeedreamField) (s : StudioState) : StudioState :=
  match c_parameters (config s) with
  | GptParameters _ => s
  | SeedreamParameters q =>
      let p := SeedreamParameters (set_seedream f q) in
      with_config (set_model (c_model (config s)) p (config s)) (with_cache (cache_put Seedream p (parameterCache s)) s)
  end.

(** The panel shows the controls of the family of the model, when the parameters
    are of that family ([params-panel.tsx]). *)
Definition useControl (c : Control) (s : StudioState) : StudioState :=
  match resolveImageModelAdapter (c_model (config s)), c_parameters (config s) with
  | Some GptImage, GptParameters q =>
      match gptControl q c with Some f => updateGptImageConfig f s | None => s end
  | Some Seedream, SeedreamParameters q =>
      match seedreamControl q c with Some f => updateSeedreamConfig f s | None => s end
  | _, _ => s
  end.

(** The groups of the user arrive. *)
Definition groupsLoaded (loadedGroups : list str) (s : StudioState) : StudioState :=
  match loadedGroups with
  | [] => s
  | g :: _ =>
      let s := with_groups loadedGroups s in
      if mem_str (c_group (config s)) loadedGroups then s else with_config (set_group g (config s)) s
  end.

(** The configuration when the models of its group arrive. *)
Definition chooseModel (supportedModels : list str) (cache : ParameterCache) (c : ImageStudioConfig)
    : ImageStudioConfig :=
  let none := set_model [] (c_parameters c) c in
  if truthy_str (c_model c) && mem_str (c_model c) supportedModels then c
  else
    let defaultModel := find (fun m => m =?s DEFAULT_IMAGE_MODEL) supportedModels in
    let nextModel := match defaultModel with Some m => Some m | None => head supportedModels end in
    match nextModel with
    | None => none
    | Some m =>
        match resolveImageModelAdapter m with
        | None => none
        | Some f =>
            match cachedOrDefault f m cache with
            | None => none
            | Some parameters => set_model m parameters c
            end
        end
    end.

(** A run of the effect that fetches the models ends, with the models or with an
    error; nothing happens if the run was cancelled. *)
Definition modelsLoaded (request : nat) (result : option (list str)) (s : StudioState) : StudioState :=
  if negb (request =? modelsRequest s)%nat then s
  else
    let s := match result with
             | None => s
             | Some loadedModels =>
                 let supportedModels := List.filter isSupportedImageModel loadedModels in
                 let s := with_models supportedModels s in
                 with_config (chooseModel supportedModels (parameterCache s) (config s)) s
             end in
    with_loading false s.

Inductive StateEvent : Type :=
  | UpdateGroup (group : str)
  | UpdateModel (model : str)
  | UpdateParameters (p : ImageStudioParameters)
  | UseControl (c : Control)
  | GroupsLoaded (l : list str)
  | ModelsLoaded (request : nat) (result : option (list str)).

Definition stateEvent (e : StateEvent) : StudioState -> StudioState :=
  match e with
  | UpdateGroup g => updateGroup g
  | UpdateModel m => updateModel m
  | UpdateParameters p => updateParameters p
  | UseControl c => useControl c
  | GroupsLoaded l => groupsLoaded l
  | ModelsLoaded r l => modelsLoaded r l
  end.

(** The effect of [config.group] runs when the group is another one. *)
Definition groupEffect (before : str) (s : StudioState) : StudioState :=
  if before =?s c_group (config s) then s
  else MkStudioState (config s) (parameterCache s) (groups s) (models s) true (S (modelsRequest s)).

Definition stateStep (e : StateEvent) (s : StudioState) : StudioState :=
  groupEffect (c_group (config s)) (stateEvent e s).

(** The state after the first render and its effects. *)
Definition initialState : StudioState :=
  let p := GptParameters DEFAULT_GPT_IMAGE_PARAMETERS in
  MkStudioState (MkConfig DEFAULT_GROUP DEFAULT_IMAGE_MODEL p) (MkCache (Some p) None) [] [] true 1.

Inductive ConfigReachable : StudioState -> Prop :=
  | config_initial : ConfigReachable initialState
  | config_step s e : ConfigReachable s -> ConfigReachable (stateStep e s).

End studio_state.
