(* ===== verification/ImageParamsLaws.v ===== *)
(** * Laws of the parameters of the image studio

    Proofs about [ImageParams]: the chosen parameters belong to the family of the
    chosen model, whatever the order in which groups, models and edits arrive; the
    number of images stays within its limits; normalisation is idempotent and what
    it returns can be requested; the test of a custom size is the one of the
    integers; what the older records lose. *)

From stdpp Require Import base list.
From Stdlib Require Import ZArith NArith Lia SpecFloat.
From S2P Require Import Prelude JsString JsArray JsNumber ImageParams.

Local Open Scope Z_scope.

Lemma family_eqb_eq (a b : ImageModelFamily) : family_eqb a b = true <-> a = b.
Proof. by destruct a, b. Qed.

Lemma family_default (f : ImageModelFamily) : family (defaultParameters f) = f.
Proof. by destruct f. Qed.

Section config.
Context {CM : CaseMapping}.

(** ** The model and its parameters *)

(** The parameters are those of the model, or no model is chosen. *)
Definition config_wf (c : ImageStudioConfig) : Prop :=
  c_model c = [] \/ resolveImageModelAdapter (c_model c) = Some (family (c_parameters c)).

Definition cache_wf (c : ParameterCache) : Prop := forall f p, cache_get f c = Some p -> family p = f.

Definition state_wf (s : StudioState) : Prop := config_wf (config s) /\ cache_wf (parameterCache s).

Lemma resolve_empty : resolveImageModelAdapter [] = None.
Proof.
  unfold resolveImageModelAdapter, isGptImageModel, isSeedreamModel. rewrite (toLowerCase_ascii []) by done. reflexivity.
Qed.

Lemma resolve_default_model : resolveImageModelAdapter DEFAULT_IMAGE_MODEL = Some GptImage.
Proof.
  unfold resolveImageModelAdapter, isGptImageModel. rewrite toLowerCase_ascii by reflexivity. reflexivity.
Qed.

(** The hook does not throw: its default model is supported. *)
Lemma default_supported :
  createDefaultParametersForModel DEFAULT_IMAGE_MODEL = Some (c_parameters (config initialState)).
Proof. unfold createDefaultParametersForModel. by rewrite resolve_default_model. Qed.

Lemma cache_put_wf (p : ImageStudioParameters) (c : ParameterCache) : cache_wf c -> cache_wf (cache_put (family p) p c).
Proof. intros Hc f q. specialize (Hc f q). destruct f, p; cbn in *; auto; by intros [= <-]. Qed.

Lemma cachedOrDefault_family (f : ImageModelFamily) (m : str) (c : ParameterCache) (p : ImageStudioParameters) :
  resolveImageModelAdapter m = Some f -> cachedOrDefault f m c = Some p -> family p = f.
Proof.
  intros Hm. unfold cachedOrDefault, createDefaultParametersForModel. rewrite Hm. cbn.
  destruct (cache_get f c) as [q|]; [destruct (family_eqb (family q) f) eqn:E|]; intros [= <-];
    try apply family_default. by apply family_eqb_eq.
Qed.

Lemma updateModel_wf (m : str) (s : StudioState) : state_wf s -> state_wf (updateModel m s).
Proof.
  intros [Hc Hk]. unfold updateModel. destruct (resolveImageModelAdapter m) as [f|] eqn:E; [|done].
  set (s' := with_cache _ s). assert (Hk' : cache_wf (parameterCache s')) by by apply cache_put_wf.
  destruct (cachedOrDefault f m (parameterCache s')) as [p|] eqn:Ep; [|done].
  split; [|done]. right. cbn. rewrite E. f_equal. symmetry. by eapply cachedOrDefault_family.
Qed.

(** New parameters of the same family. *)
Lemma set_parameters_wf (p : ImageStudioParameters) (s : StudioState) :
  state_wf s -> family p = family (c_parameters (config s)) ->
  state_wf (with_config (set_model (c_model (config s)) p (config s)) (with_cache (cache_put (family p) p (parameterCache s)) s)).
Proof.
  intros [Hc Hk] Hf. split; [|by apply cache_put_wf]. destruct Hc as [Hc|Hc]; [by left|right].
  cbn. by rewrite Hf.
Qed.

Lemma updateParameters_wf (p : ImageStudioParameters) (s : StudioState) :
  state_wf s -> state_wf (updateParameters p s).
Proof.
  intros Hs. unfold updateParameters. destruct (resolveImageModelAdapter (c_model (config s))) as [f|] eqn:E; [|done].
  destruct (family_eqb f (family p)) eqn:Ef; [|done]. apply set_parameters_wf; [done|]. apply family_eqb_eq in Ef as <-.
  destruct Hs as [[Hc|Hc] _]; [rewrite Hc, resolve_empty in E|rewrite Hc in E]; congruence.
Qed.

Lemma useControl_wf (c : Control) (s : StudioState) : state_wf s -> state_wf (useControl c s).
Proof.
  intros Hs. unfold useControl. destruct (resolveImageModelAdapter _) as [[]|]; [| |done];
    destruct (c_parameters (config s)) as [q|q] eqn:Eq; try done.
  - destruct (gptControl q c) as [f|]; [|done]. unfold updateGptImageConfig. rewrite Eq.
    apply (set_parameters_wf (GptParameters _)); [done|by rewrite Eq].
  - destruct (seedreamControl q c) as [f|]; [|done]. unfold updateSeedreamConfig. rewrite Eq.
    apply (set_parameters_wf (SeedreamParameters _)); [done|by rewrite Eq].
Qed.

Lemma chooseModel_wf (l : list str) (k : ParameterCache) (c : ImageStudioConfig) :
  config_wf c -> config_wf (chooseModel l k c).
Proof.
  intros Hc. unfold chooseModel. destruct (_ && _); [done|]. cbv zeta.
  match goal with |- config_wf (match ?o with Some _ => _ | None => _ end) => destruct o as [m|] end; [|by left].
  destruct (resolveImageModelAdapter m) as [f|] eqn:E; [|by left].
  destruct (cachedOrDefault f m k) as [p|] eqn:Ep; [|by left]. right. cbn. rewrite E. f_equal. symmetry.
  by eapply cachedOrDefault_family.
Qed.

Lemma stateEvent_wf (e : StateEvent) (s : StudioState) : state_wf s -> state_wf (stateEvent e s).
Proof.
  intros Hs. destruct e as [g|m|p|c|l|r l]; cbn [stateEvent].
  - exact Hs.
  - by apply updateModel_wf.
  - by apply updateParameters_wf.
  - by apply useControl_wf.
  - destruct l as [|g l]; [done|]. cbn. by destruct (_ || _).
  - unfold modelsLoaded. destruct (_ =? _)%nat; [|done]. cbn [negb]. destruct l as [l|]; [|done].
    destruct Hs. split; [|done]. by apply chooseModel_wf.
Qed.

Lemma stateStep_wf (e : StateEvent) (s : StudioState) : state_wf s -> state_wf (stateStep e s).
Proof. intros Hs. unfold stateStep, groupEffect. destruct (_ =?s _); by apply (stateEvent_wf e) in Hs. Qed.

Lemma reachable_wf (s : StudioState) : ConfigReachable s -> state_wf s.
Proof.
  induction 1 as [|s e _ IH]; [|by apply stateStep_wf]. split.
  - right. apply resolve_default_model.
  - by intros [] p [= <-].
Qed.

(** C12: A request can be built from every configuration with a model, in every state
    that the page reaches: [buildImageGenerationPayload] does not throw. *)
Theorem request_built (s : StudioState) (prompt : str) (mode : StudioMode) (refs : list ReferenceImage) :
  ConfigReachable s -> c_model (config s) <> [] ->
  exists payload, buildImageGenerationPayload (config s) prompt mode refs = Ok payload /\
    pl_model payload = c_model (config s) /\ pl_prompt payload = prompt.
Proof.
  intros [[Hm|Hm] _]%reachable_wf Hn; [done|]. unfold buildImageGenerationPayload. rewrite Hm.
  rewrite (proj2 (family_eqb_eq _ _) eq_refl). cbn [negb]. by eexists.
Qed.

(** An edit of the parameters of a family is there again after another family was
    chosen in between. *)
Theorem parameters_kept (s : StudioState) (m m' : str) (f : ImageModelFamily) :
  resolveImageModelAdapter m = Some f -> f <> family (c_parameters (config s)) -> resolveImageModelAdapter m' = Some (family (c_parameters (config s))) ->
  c_parameters (config (updateModel m' (updateModel m s))) = c_parameters (config s).
Proof.
  intros Hm Hf Hm'. set (p := c_parameters (config s)) in *.
  unfold updateModel at 2. rewrite Hm. fold p. cbv zeta.
  destruct (cachedOrDefault f m (parameterCache (with_cache (cache_put (family p) p (parameterCache s)) s))) as [q|] eqn:Eq.
  - assert (Hq : family q = f) by by eapply cachedOrDefault_family.
    unfold updateModel. rewrite Hm'. cbn [config with_config set_model c_parameters parameterCache with_cache c_model].
    unfold cachedOrDefault. rewrite Hq.
    assert (cache_get (family p) (cache_put f q (cache_put (family p) p (parameterCache s))) = Some p) as ->
      by (destruct p, f; cbn in *; congruence).
    by rewrite (proj2 (family_eqb_eq _ _) eq_refl).
  - exfalso. revert Eq. unfold cachedOrDefault, createDefaultParametersForModel. rewrite Hm. cbn. by repeat case_match.
Qed.

End config.

(** ** The number of images *)

Definition count_ok (n : num) : bool := num_le (num_of_Z 1) n && num_le n (num_of_Z 8).

Lemma clamp_ok (f : ImageModelFamily) (n : num) : isNaN n = false -> count_ok (clampImageCount (runtimeLimits f) n) = true.
Proof.
  intros Hn. unfold count_ok, clampImageCount. assert (maxImages (runtimeLimits f) = num_of_Z 8) as -> by by destruct f.
  assert (Hm : isNaN (num_max (num_of_Z 1) n) = false) by by apply num_max_not_nan.
  assert (Hk : isNaN (num_min (num_of_Z 8) (num_max (num_of_Z 1) n)) = false) by by apply num_min_not_nan.
  apply andb_true_intro. split; apply num_le_not_lt; try done.
  - destruct (num_min_cases (num_of_Z 8) (num_max (num_of_Z 1) n)) as [->|[->| ->]]; try done. apply num_max_not_below.
  - apply num_min_not_above.
Qed.


Lemma typedCount_ok (text : str) : isNaN (typedCount text) = false.
Proof. unfold typedCount. by destruct (Number text). Qed.

Lemma count_finite (n : num) : count_ok n = true -> isFinite n = true.
Proof. unfold count_ok. intros [H1 H2]%andb_true_iff. by eapply (num_le_finite n 1 8). Qed.

Lemma gptControl_ok (q : GptImageConfig) (c : Control) (f : GptField) :
  count_ok (g_n q) = true -> gptControl q c = Some f -> count_ok (g_n (set_gpt f q)) = true.
Proof.
  intros Hq Hc. pose proof (count_finite _ Hq). destruct q as [sz w h ql mo n bg fm oc]. cbn [g_n g_size g_outputFormat] in *.
  destruct c; cbn [gptControl g_n g_size g_outputFormat] in Hc; repeat case_match; try discriminate Hc;
    apply (inj Some) in Hc as <-; cbn [set_gpt g_n]; try exact Hq; apply (clamp_ok GptImage).
  - by apply num_sub_not_nan.
  - by apply num_add_not_nan.
  - apply typedCount_ok.
Qed.

Lemma seedreamControl_ok (q : SeedreamConfig) (c : Control) (f : SeedreamField) :
  count_ok (s_n q) = true -> seedreamControl q c = Some f -> count_ok (s_n (set_seedream f q)) = true.
Proof.
  intros Hq Hc. pose proof (count_finite _ Hq). destruct q as [sz w h n fm wm om]. cbn [s_n s_size s_outputFormat] in *.
  destruct c; cbn [seedreamControl s_n s_size s_outputFormat] in Hc; repeat case_match; try discriminate Hc;
    apply (inj Some) in Hc as <-; cbn [set_seedream s_n]; try exact Hq; apply (clamp_ok Seedream).
  - by apply num_sub_not_nan.
  - by apply num_add_not_nan.
  - apply typedCount_ok.
Qed.

Section counts.
Context {CM : CaseMapping}.

(** The parameters of a record that is restored ask for a possible number. *)
Definition count_event (e : StateEvent) : bool :=
  match e with UpdateParameters p => count_ok (p_n p) | _ => true end.

Definition counts_ok (s : StudioState) : Prop :=
  count_ok (p_n (c_parameters (config s))) = true /\
  (forall f p, cache_get f (parameterCache s) = Some p -> count_ok (p_n p) = true).

Lemma counts_put (s : StudioState) (p : ImageStudioParameters) (m : str) (f : ImageModelFamily) :
  counts_ok s -> count_ok (p_n p) = true ->
  counts_ok (with_config (set_model m p (config s)) (with_cache (cache_put f p (parameterCache s)) s)).
Proof.
  intros [_ Hk] Hp. split; [exact Hp|]. intros f' q. cbn. specialize (Hk f' q). destruct f, f'; cbn in *; try done;
    by intros [= <-].
Qed.

Lemma cachedOrDefault_ok (f : ImageModelFamily) (m : str) (k : ParameterCache) (p : ImageStudioParameters) :
  (forall f p, cache_get f k = Some p -> count_ok (p_n p) = true) -> cachedOrDefault f m k = Some p ->
  count_ok (p_n p) = true.
Proof.
  assert (Hd : createDefaultParametersForModel m = Some p -> count_ok (p_n p) = true).
  { unfold createDefaultParametersForModel. by destruct (resolveImageModelAdapter m) as [[]|]; cbn; intros [= <-]. }
  intros Hk. unfold cachedOrDefault. destruct (cache_get f k) as [q|] eqn:Eq; [|done].
  destruct (family_eqb _ _); [|done]. intros [= <-]. by eapply Hk.
Qed.

Lemma cache_put_counts (s : StudioState) :
  counts_ok s ->
  let p := c_parameters (config s) in counts_ok (with_cache (cache_put (family p) p (parameterCache s)) s).
Proof.
  intros [Hp Hk] p. split; [exact Hp|]. intros f q. specialize (Hk f q). fold p in Hp.
  destruct (family p), f; cbn in *; try done; by intros [= <-].
Qed.

Lemma stateEvent_counts (e : StateEvent) (s : StudioState) :
  count_event e = true -> counts_ok s -> counts_ok (stateEvent e s).
Proof.
  intros He Hs. destruct e as [g|m|p|c|l|r l]; cbn [stateEvent].
  - exact Hs.
  - unfold updateModel. destruct (resolveImageModelAdapter m) as [f|]; [|done].
    pose proof (cache_put_counts s Hs) as Hs'. cbv zeta in *. case_match; [|done]. destruct Hs' as [Hp Hk].
    split; [|done]. by eapply cachedOrDefault_ok.
  - unfold updateParameters. repeat case_match; try done. by apply counts_put.
  - pose proof (proj1 Hs) as Hp. unfold useControl. destruct (resolveImageModelAdapter _) as [[]|]; [| |done];
      destruct (c_parameters (config s)) as [q|q] eqn:Eq; try done.
    + destruct (gptControl q c) as [f|] eqn:Ef; [|done]. unfold updateGptImageConfig. rewrite Eq.
      apply counts_put; [done|]. by eapply gptControl_ok.
    + destruct (seedreamControl q c) as [f|] eqn:Ef; [|done]. unfold updateSeedreamConfig. rewrite Eq.
      apply counts_put; [done|]. by eapply seedreamControl_ok.
  - destruct l as [|g l]; [done|]. cbn. by destruct (_ || _).
  - unfold modelsLoaded. destruct (_ =? _)%nat; [|done]. cbn [negb]. destruct l as [l|]; [|done].
    destruct Hs as [Hp Hk]. split; [|done]. cbn [with_loading with_config with_models config]. unfold chooseModel.
    destruct (_ && _); [done|]. cbv zeta.
    match goal with |- context [match ?o with Some _ => _ | None => _ end] => destruct o as [m|] end; [|done].
    destruct (resolveImageModelAdapter m) as [f|]; [|done].
    destruct (cachedOrDefault f m _) as [p|] eqn:Ep; [|done]. by eapply cachedOrDefault_ok.
Qed.

(** The number of images is never outside 1 to 8, whatever is clicked or typed in
    the panel. *)
Theorem count_within_limits (es : list StateEvent) :
  forallb count_event es = true ->
  counts_ok (fold_left (fun s e => stateStep e s) es initialState).
Proof.
  assert (H0 : counts_ok initialState) by (split; [reflexivity|]; by intros [] p [= <-]).
  revert H0. generalize initialState as s. induction es as [|e es IH]; intros s Hs He; [done|].
  cbn [forallb] in He. apply andb_true_iff in He as [He Hes]. cbn [fold_left]. apply IH; [|done].
  unfold stateStep, groupEffect. pose proof (stateEvent_counts e s He Hs). by destruct (_ =?s _).
Qed.

End counts.

(** ** Normalisation *)

Lemma num_eq_finite (s : bool) (m : positive) (e : Z) (x : num) :
  num_lt (S754_finite s m e) x = false -> num_lt x (S754_finite s m e) = false -> isNaN x = false ->
  x = S754_finite s m e.
Proof.
  unfold num_lt, SFltb, SFcompare. destruct x as [s'|[]| |s' m' e']; try by destruct s.
  - destruct s, s'; try done; rewrite (Z.compare_antisym e e'); destruct (Z.compare_spec e e') as [->|?|?]; cbn; try done;
      change (Pos.compare_cont Eq m m') with (m ?= m')%positive; change (Pos.compare_cont Eq m' m) with (m' ?= m)%positive;
      rewrite (Pos.compare_antisym m m'); destruct (Pos.compare_spec m m') as [->|?|?]; done.
Qed.

Lemma num_le_lt (a b : num) : num_le a b = true -> num_lt b a = false.
Proof.
  unfold num_lt, num_le, SFltb, SFleb, SFcompare.
  destruct a as [[]|[]| |[] m e], b as [[]|[]| |[] n f]; try done; rewrite (Z.compare_antisym e f);
    destruct (e ?= f)%Z; cbn; try done;
    change (Pos.compare_cont Eq m n) with (m ?= n)%positive; change (Pos.compare_cont Eq n m) with (n ?= m)%positive;
    rewrite (Pos.compare_antisym m n); by destruct (m ?= n)%positive.
Qed.

(** A possible number of images is left as it is. *)
Lemma clamp_id (f : ImageModelFamily) (n : num) : count_ok n = true -> clampImageCount (runtimeLimits f) n = n.
Proof.
  intros Hn. assert (Hf := count_finite n Hn). assert (Hnan : isNaN n = false) by by destruct n.
  unfold count_ok in Hn. apply andb_true_iff in Hn as [H1%num_le_lt H8%num_le_lt].
  unfold clampImageCount. assert (maxImages (runtimeLimits f) = num_of_Z 8) as -> by by destruct f.
  assert (num_max (num_of_Z 1) n = n) as ->.
  { unfold num_max. rewrite Hnan, H1. destruct (num_lt (num_of_Z 1) n) eqn:E; [done|].
    symmetry. exact (num_eq_finite _ _ _ n E H1 Hnan). }
  unfold num_min. rewrite Hnan, H8. by destruct (num_lt n (num_of_Z 8)).
Qed.

Lemma one_of_mem (l : list str) (d v : str) : mem_str v l = true -> one_of l d v = v.
Proof. unfold one_of. by intros ->. Qed.

Lemma one_of_idem (l : list str) (d v : str) : mem_str d l = true -> one_of l d (one_of l d v) = one_of l d v.
Proof. intros Hd. unfold one_of at 2 3. destruct (mem_str v l) eqn:E; by apply one_of_mem. Qed.

Lemma clamp_idem (f : ImageModelFamily) (n : num) :
  clampImageCount (runtimeLimits f) (clampImageCount (runtimeLimits f) n) = clampImageCount (runtimeLimits f) n.
Proof.
  destruct (isNaN n) eqn:E; [|by apply clamp_id, clamp_ok]. destruct n; try discriminate E. by destruct f.
Qed.

Lemma gpt_size_idem (s : str) (b : bool) :
  b = negb (s =?s auto) && negb (s =?s CUSTOM_SIZE) && negb (mem_str s gpt_sizePresets) ->
  let s' := if b then auto else s in
  (if negb (s' =?s auto) && negb (s' =?s CUSTOM_SIZE) && negb (mem_str s' gpt_sizePresets) then auto else s') = s'.
Proof. intros Hb. destruct b; cbn zeta iota; [reflexivity|]. by rewrite <- Hb. Qed.

Lemma seedream_size_idem (s : str) (b : bool) :
  b = (s =?s auto) || (negb (s =?s CUSTOM_SIZE) && negb (mem_str s seedream_sizePresets)) ->
  let s' := if b then js "2K" else s in
  (if (s' =?s auto) || (negb (s' =?s CUSTOM_SIZE) && negb (mem_str s' seedream_sizePresets)) then js "2K" else s') = s'.
Proof. intros Hb. destruct b; cbn zeta iota; [reflexivity|]. by rewrite <- Hb. Qed.

Lemma normalize_idempotent (p : ImageStudioParameters) : normalizeParameters (normalizeParameters p) = normalizeParameters p.
Proof.
  destruct p as [[sz w h ql mo n bg fm oc]|[sz w h n fm wm om]]; cbn [normalizeParameters]; f_equal.
  - unfold gpt_normalizeParameters; cbn [g_size g_customWidth g_customHeight g_quality g_moderation g_n g_background
      g_outputFormat g_outputCompression].
    rewrite !one_of_idem by reflexivity. rewrite (clamp_idem GptImage), gpt_size_idem; done.
  - unfold seedream_normalizeParameters; cbn [s_size s_customWidth s_customHeight s_n s_outputFormat s_watermark s_optimizePromptMode].
    rewrite !one_of_idem by reflexivity. rewrite (clamp_idem Seedream), seedream_size_idem; done.
Qed.

(** ** Witnesses *)

Lemma request_built_witness :
  let s := @stateStep AsciiCase (UpdateModel (js "Seedream-4")) initialState in
  exists payload, @buildImageGenerationPayload AsciiCase (config s) (js "cat") GenerateMode [] = Ok payload /\
    pl_model payload = js "Seedream-4" /\ pl_prompt payload = js "cat".
Proof.
  apply (@request_built AsciiCase (@stateStep AsciiCase (UpdateModel (js "Seedream-4")) initialState) (js "cat") GenerateMode []).
  - apply config_step, config_initial.
  - vm_compute. discriminate.
Defined.

Lemma parameters_kept_witness :
  let s := @useControl AsciiCase (PickQuality (Some (js "high"))) initialState in
  c_parameters (config (@updateModel AsciiCase DEFAULT_IMAGE_MODEL (@updateModel AsciiCase (js "Seedream-4") s))) = c_parameters (config s).
Proof.
  apply (@parameters_kept AsciiCase _ (js "Seedream-4") DEFAULT_IMAGE_MODEL Seedream); [reflexivity|discriminate|reflexivity].
Defined.

Lemma count_within_limits_witness :
  count_event (UpdateParameters (defaultParameters Seedream)) = true /\
  counts_ok (fold_left (fun s e => @stateStep AsciiCase e s)
    [UseControl (TypeCount (js "99")); UpdateModel (js "seedream"); UpdateParameters (defaultParameters Seedream); UseControl Increase] initialState).
Proof.
  split; [reflexivity|]. apply (@count_within_limits AsciiCase). reflexivity.
Defined.
