(* ===== verification/ImageGeneration.v ===== *)
(** * Generations of the image studio

    Models, under [src/web/src/features/image-studio]: the requests of [api.ts] and
    the records of [lib/storage.ts], the history of [hooks/use-generation-history.ts]
    and the hook [useImageGeneration] of [hooks/use-image-studio.ts].

    [generate] sends the requests of a generation together and writes each image
    that arrives to the server, one write at a time in the order of the answers;
    [retryImage] repeats one failed request.  Every answer of the network is one
    step of the model: the events of a generation are the answer or the failure of
    a request and the end of the write that is under way.  What the code keeps in
    variables of the call is the record [Run] (of a retry, [Retry]); a controller
    of requests is a number.  The clock and the random part of an identifier are
    arguments, and the clock does not advance within a step.  The calls that a step
    makes are its output. *)

From stdpp Require Import base list.
From Stdlib Require Import ZArith NArith Lia SpecFloat.
From S2P Require Import Prelude JsString JsArray JsNumber ImageParams.

Local Open Scope Z_scope.

(** ** Data of the server ([types.ts], [api.ts]) *)

Record ImageApiResponseData : Type := MkData { url : option str; b64_json : option str; revised_prompt : option str }.

(** An image to store: its source and its revised prompt. *)
Record ImageSource : Type := MkSource { src : str; src_prompt : option str }.

Record StoredImageAsset : Type := MkAsset {
  as_id : str;
  as_url : str;
  as_mime_type : str;
  as_size_bytes : num;
  as_width : option num;
  as_height : option num;
  as_revised_prompt : option str;
}.

Record ImageStudioGenerationRecord : Type := MkStored {
  st_id : str;
  st_created_at : num;
  st_mode : StudioMode;
  st_prompt : str;
  st_model : str;
  st_group : str;
  st_parameter_snapshot : option ImageStudioParameters;
  st_size : str;
  st_quality : option str;
  st_moderation : option str;
  st_output_format : option str;
  st_n : num;
  st_duration_ms : num;
  st_quota : option num;
  st_prompt_tokens : option num;
  st_completion_tokens : option num;
  st_channel_id : option num;
  st_favorite : option bool;
  st_images : list StoredImageAsset;
}.

Record StoreImageStudioGenerationPayload : Type := MkStore {
  sp_id : str;
  sp_created_at : num;
  sp_mode : StudioMode;
  sp_prompt : str;
  sp_model : str;
  sp_group : str;
  sp_parameter_snapshot : ImageStudioParameters;
  sp_size : str;
  sp_quality : option str;
  sp_moderation : option str;
  sp_output_format : option str;
  sp_n : num;
  sp_duration_ms : num;
  sp_images : list ImageSource;
}.

Record GenerationLogInfo : Type := MkLog {
  lg_quota : num;
  lg_promptTokens : num;
  lg_completionTokens : num;
  lg_channelId : num;
}.

(** The calls of [api.ts]: a request for images to the endpoint of the
    generations or of the edits, the writes, and the log of a request. *)
Inductive Call : Type :=
  | CallSend (edits : bool) (payload : ImageGenerationPayload)
  | CallStore (payload : StoreImageStudioGenerationPayload)
  | CallAppend (generationId : str) (image : ImageSource)
  | CallDelete (id : str)
  | CallClear
  | CallFavorite (id : str) (favorite : bool)
  | CallUsage (id : str) (quota promptTokens completionTokens channelId : num)
  | CallLog (requestId modelName : str).

(** A value that was thrown: what [extractApiErrorMessage] reads of it. *)
Inductive Thrown : Type :=
  | ThrownObject (responseErrorMessage responseMessage message : option str) (text : str)
  | ThrownOther (text : str).

Definition thrownError (message : str) : Thrown :=
  ThrownObject None None (Some message) (js "Error: " ++ message).

Definition truthy_ostr (o : option str) : bool := match o with Some s => truthy_str s | None => false end.

Definition extractApiErrorMessage (error : Thrown) : str :=
  match error with
  | ThrownObject e m message text =>
      let apiMessage := match e with Some x => Some x | None => m end in
      if truthy_ostr apiMessage then nullish apiMessage []
      else if truthy_ostr message then nullish message []
      else text
  | ThrownOther text => text
  end.

(** The envelope of an answer and [unwrapApiData]. *)
Record ApiEnvelope (A : Type) : Type := MkEnvelope { success : bool; data : option A; message : option str }.
Arguments MkEnvelope {A} success data message.
Arguments success {A}. Arguments data {A}. Arguments message {A}.

Definition unwrapApiData {A} (d : ApiEnvelope A) (fallback : str) : A + Thrown :=
  match success d, data d with
  | true, Some x => inl x
  | _, _ => inr (thrownError (ostr_or (message d) fallback))
  end.

(** ** Records of the server in the history ([lib/storage.ts]) *)

(** [text || undefined]. *)
Definition or_undefined (o : option str) : option str := if truthy_ostr o then o else None.

Definition mapStoredImages (r : ImageStudioGenerationRecord) : list GeneratedImage :=
  map (fun a => MkImage (as_id a) (as_url a) (Some (as_id a)) (Some (as_mime_type a)) (Some (as_size_bytes a))
                  (as_width a) (as_height a) (as_revised_prompt a)) (st_images r).

Definition num_of_nat (n : nat) : num := num_of_Z (Z.of_nat n).

Definition fromServerRecord (r : ImageStudioGenerationRecord) : GenerationRecord :=
  MkRecord (st_id r) (st_created_at r) (st_mode r) (st_prompt r) (st_model r) (st_group r) (st_parameter_snapshot r)
    (st_size r) (or_undefined (st_quality r)) (or_undefined (st_moderation r)) (or_undefined (st_output_format r)) (st_n r)
    (map (fun a => MkImage (as_id a) (as_url a) (Some (as_id a)) (Some (as_mime_type a)) (Some (as_size_bytes a))
                     (as_width a) (as_height a) (or_undefined (as_revised_prompt a))) (st_images r))
    (Some (num_max num_zero (num_sub (st_n r) (num_of_nat (length (st_images r))))))
    None
    (Some (MkUsage (st_duration_ms r) (st_quota r) (st_prompt_tokens r) (st_completion_tokens r) (st_channel_id r)))
    (st_channel_id r) (st_favorite r) None.

Definition DEFAULT_HISTORY_DISPLAY_LIMIT : Z := 10.

(** The answer of [listImageStudioGenerations]: the limit of its header, and the
    records if the answer is a success with a list. *)
Definition listedLimit (header : str) : Z :=
  match parseInt10 header with
  | Some n => if 0 <? n then Z.min 1000 n else DEFAULT_HISTORY_DISPLAY_LIMIT
  | None => DEFAULT_HISTORY_DISPLAY_LIMIT
  end.

Definition listImageStudioGenerations (header : str) (answer : ApiEnvelope (list ImageStudioGenerationRecord))
    : list ImageStudioGenerationRecord * Z :=
  match success answer, data answer with
  | true, Some l => (l, listedLimit header)
  | _, _ => ([], listedLimit header)
  end.

(** [listGenerations]: an answer that does not arrive gives an empty history. *)
Definition listGenerations (answer : option (str * ApiEnvelope (list ImageStudioGenerationRecord)))
    : list GenerationRecord * Z :=
  match answer with
  | Some (header, a) =>
      let '(records, displayLimit) := listImageStudioGenerations header a in
      (map fromServerRecord records, displayLimit)
  | None => ([], DEFAULT_HISTORY_DISPLAY_LIMIT)
  end.

Definition updateGeneration (r : GenerationRecord) : list Call :=
  let num_or o := nullish o num_zero in
  [CallFavorite (r_id r) (truthy_ob (favorite r));
   CallUsage (r_id r) (num_or (ofield u_quota (usage r))) (num_or (ofield u_promptTokens (usage r)))
     (num_or (ofield u_completionTokens (usage r)))
     (num_or match r_channelId r with Some c => Some c | None => ofield u_channelId (usage r) end)].

(** ** The history ([use-generation-history.ts]) *)

Record History : Type := MkHistory {
  history : list GenerationRecord;
  displayLimit : Z;
  isLoadingHistory : bool;
}.

Definition initialHistory : History := MkHistory [] DEFAULT_HISTORY_DISPLAY_LIMIT true.

Definition with_history (l : list GenerationRecord) (h : History) : History :=
  MkHistory l (displayLimit h) (isLoadingHistory h).

Definition historyLoaded (answer : option (str * ApiEnvelope (list ImageStudioGenerationRecord))) (h : History) : History :=
  let '(records, limit) := listGenerations answer in
  MkHistory (slice records 0 limit) limit false.

Definition addRecord (r : GenerationRecord) (h : History) : History :=
  with_history (slice (r :: history h) 0 (displayLimit h)) h.

(** A patch is the function [fun record => { ...record, ...patch }]. *)
Definition patchRecordLocally (id : str) (patch : GenerationRecord -> GenerationRecord) (h : History) : History :=
  with_history (map (fun r => if r_id r =?s id then patch r else r) (history h)) h.

Definition patchRecord (id : str) (patch : GenerationRecord -> GenerationRecord) (h : History) : History * list Call :=
  let h' := patchRecordLocally id patch h in
  (h', match find (fun r => r_id r =?s id) (history h') with Some r => updateGeneration r | None => [] end).

Definition removeRecord (id : str) (h : History) : History * list Call :=
  (with_history (List.filter (fun r => negb (r_id r =?s id)) (history h)) h, [CallDelete id]).

Definition clearHistory (h : History) : History * list Call := (with_history [] h, [CallClear]).

Definition set_favorite (b : bool) (r : GenerationRecord) : GenerationRecord :=
  MkRecord (r_id r) (createdAt r) (r_mode r) (r_prompt r) (r_model r) (r_group r) (parameterSnapshot r) (r_size r)
    (r_quality r) (r_moderation r) (r_outputFormat r) (r_n r) (images r) (failedImageCount r) (r_imageErrors r) (usage r)
    (r_channelId r) (Some b) (r_referenceImages r).

Definition toggleFavorite (id : str) (h : History) : History * list Call :=
  match find (fun r => r_id r =?s id) (history h) with
  | Some r => patchRecord id (set_favorite (negb (truthy_ob (favorite r)))) h
  | None => (h, [])
  end.

(** The patches of the hook. *)

(** [{ ...record, images, imageErrors, failedImageCount }]; the images are absent
    from the patch of a failed retry. *)
Definition patch_errors (imgs : option (list GeneratedImage)) (errors : list str) (r : GenerationRecord)
    : GenerationRecord :=
  MkRecord (r_id r) (createdAt r) (r_mode r) (r_prompt r) (r_model r) (r_group r) (parameterSnapshot r) (r_size r)
    (r_quality r) (r_moderation r) (r_outputFormat r) (r_n r) (nullish imgs (images r))
    (Some (num_of_nat (length errors))) (Some errors) (usage r) (r_channelId r) (favorite r) (r_referenceImages r).

Definition patch_usage (u : GenerationUsage) (channelId : num) (r : GenerationRecord) : GenerationRecord :=
  MkRecord (r_id r) (createdAt r) (r_mode r) (r_prompt r) (r_model r) (r_group r) (parameterSnapshot r) (r_size r)
    (r_quality r) (r_moderation r) (r_outputFormat r) (r_n r) (images r) (failedImageCount r) (r_imageErrors r) (Some u)
    (Some channelId) (favorite r) (r_referenceImages r).

(** [{ ...record, ...persisted }], where [persisted] has no counts of failures. *)
Definition patch_persisted (p r : GenerationRecord) : GenerationRecord :=
  MkRecord (r_id p) (createdAt p) (r_mode p) (r_prompt p) (r_model p) (r_group p) (parameterSnapshot p) (r_size p)
    (r_quality p) (r_moderation p) (r_outputFormat p) (r_n p) (images p) (failedImageCount r) (r_imageErrors r) (usage p)
    (r_channelId p) (favorite p) (r_referenceImages p).

(** [{ ...completed, failedImageCount, imageErrors, usage }], as a record. *)
Definition completedRecord (r : GenerationRecord) (errors : list str) (duration : num) : GenerationRecord :=
  MkRecord (r_id r) (createdAt r) (r_mode r) (r_prompt r) (r_model r) (r_group r) (parameterSnapshot r) (r_size r)
    (r_quality r) (r_moderation r) (r_outputFormat r) (r_n r) (images r) (Some (num_of_nat (length errors))) (Some errors)
    (Some (MkUsage duration None None None None)) (r_channelId r) (favorite r) (r_referenceImages r).

(** ** The estimate of a duration *)

Definition DEFAULT_ESTIMATE_MS : num := num_of_Z 60000.
Definition ESTIMATE_SAMPLE_SIZE : Z := 5.

Definition estimateDurationMs (l : list GenerationRecord) (model : str) : num :=
  let durations := map (fun r => nullish (durationMs <$> usage r) num_zero) (List.filter (fun r => r_model r =?s model) l) in
  let samples := slice (List.filter (fun d => num_lt num_zero d) durations) 0 ESTIMATE_SAMPLE_SIZE in
  match samples with
  | [] => DEFAULT_ESTIMATE_MS
  | _ => num_div (fold_left num_add samples num_zero) (num_of_nat (length samples))
  end.

(** ** The state of [useImageGeneration] *)

Record GenerateArgs : Type := MkArgs {
  ga_config : ImageStudioConfig;
  ga_prompt : str;
  ga_mode : StudioMode;
  ga_referenceImages : list ReferenceImage;
}.

(** A request of a generation: sent at a time, answered and waiting for its
    images to be stored, or settled. *)
Inductive RequestState : Type :=
  | Sent (requestStartedAt : num)
  | Persisting
  | Settled.

(** A link of [persistenceQueue]: the request, its images that are not stored and
    the duration to report. *)
Record Job : Type := MkJob { job_request : nat; job_outputs : list ImageSource; job_duration : num }.

(** The variables of a call of [generate].  The head of [queue] is under way. *)
Record Run : Type := MkRun {
  run_args : GenerateArgs;
  run_payload : ImageGenerationPayload;
  requestedImageCount : num;
  run_controller : nat;
  startedAt : num;
  recordId : str;
  activeRecord : option GenerationRecord;
  successfulRequests : list str;
  requestErrors : list str;
  accumulatedDurationMs : num;
  requests : list RequestState;
  queue : list Job;
}.

(** The batch of retries of a record.  [errors] is an array with holes. *)
Record RetryBatch : Type := MkBatch {
  rb_recordId : str;
  rb_errors : list (option str);
  successfulIndexes : list nat;
  latestImages : list GeneratedImage;
}.

(** The variables of a call of [retryImage]; the image is being stored once the
    request was answered. *)
Record Retry : Type := MkRetry {
  rt_record : GenerationRecord;
  rt_index : nat;
  rt_controller : nat;
  rt_parameters : ImageStudioParameters;
  rt_payload : ImageGenerationPayload;
  rt_storing : bool;
}.

(** A timer that fetches the logs of a generation. *)
Record LogTimer : Type := MkTimer { lt_record : str; lt_duration : num; lt_single : bool; lt_model : str; lt_requests : list str }.

Record Hook : Type := MkHook {
  isGenerating : bool;
  pendingImageCount : num;
  imageErrors : list str;
  generationError : option str;
  activeRecordId : option str;
  retryingImageErrorIndexes : list nat;
  retryingImageIndexes : list nat;       (** [retryingImageIndexesRef] *)
  retryBatch : option RetryBatch;        (** [retryBatchRef] *)
  abortRef : option nat;
  aborted : list nat;                    (** the controllers that were aborted *)
  nextController : nat;
  run : option Run;
  retries : list Retry;
  timers : list LogTimer;
  hist : History;
}.

Definition initialHook : Hook :=
  MkHook false num_zero [] None None [] [] None None [] 0 None [] [] initialHistory.

Definition with_run (o : option Run) (h : Hook) : Hook :=
  MkHook (isGenerating h) (pendingImageCount h) (imageErrors h) (generationError h) (activeRecordId h)
    (retryingImageErrorIndexes h) (retryingImageIndexes h) (retryBatch h) (abortRef h) (aborted h) (nextController h) o
    (retries h) (timers h) (hist h).

Definition with_retries (l : list Retry) (h : Hook) : Hook :=
  MkHook (isGenerating h) (pendingImageCount h) (imageErrors h) (generationError h) (activeRecordId h)
    (retryingImageErrorIndexes h) (retryingImageIndexes h) (retryBatch h) (abortRef h) (aborted h) (nextController h)
    (run h) l (timers h) (hist h).

Definition with_timers (l : list LogTimer) (h : Hook) : Hook :=
  MkHook (isGenerating h) (pendingImageCount h) (imageErrors h) (generationError h) (activeRecordId h)
    (retryingImageErrorIndexes h) (retryingImageIndexes h) (retryBatch h) (abortRef h) (aborted h) (nextController h)
    (run h) (retries h) l (hist h).

Definition with_hist (x : History) (h : Hook) : Hook :=
  MkHook (isGenerating h) (pendingImageCount h) (imageErrors h) (generationError h) (activeRecordId h)
    (retryingImageErrorIndexes h) (retryingImageIndexes h) (retryBatch h) (abortRef h) (aborted h) (nextController h)
    (run h) (retries h) (timers h) x.

Definition setImageErrors (l : list str) (h : Hook) : Hook :=
  MkHook (isGenerating h) (pendingImageCount h) l (generationError h) (activeRecordId h)
    (retryingImageErrorIndexes h) (retryingImageIndexes h) (retryBatch h) (abortRef h) (aborted h) (nextController h)
    (run h) (retries h) (timers h) (hist h).

Definition setPendingImageCount (n : num) (h : Hook) : Hook :=
  MkHook (isGenerating h) n (imageErrors h) (generationError h) (activeRecordId h)
    (retryingImageErrorIndexes h) (retryingImageIndexes h) (retryBatch h) (abortRef h) (aborted h) (nextController h)
    (run h) (retries h) (timers h) (hist h).

Definition setGenerationError (e : option str) (h : Hook) : Hook :=
  MkHook (isGenerating h) (pendingImageCount h) (imageErrors h) e (activeRecordId h)
    (retryingImageErrorIndexes h) (retryingImageIndexes h) (retryBatch h) (abortRef h) (aborted h) (nextController h)
    (run h) (retries h) (timers h) (hist h).

Definition setActiveRecordId (o : option str) (h : Hook) : Hook :=
  MkHook (isGenerating h) (pendingImageCount h) (imageErrors h) (generationError h) o
    (retryingImageErrorIndexes h) (retryingImageIndexes h) (retryBatch h) (abortRef h) (aborted h) (nextController h)
    (run h) (retries h) (timers h) (hist h).

Definition setIsGenerating (b : bool) (h : Hook) : Hook :=
  MkHook b (pendingImageCount h) (imageErrors h) (generationError h) (activeRecordId h)
    (retryingImageErrorIndexes h) (retryingImageIndexes h) (retryBatch h) (abortRef h) (aborted h) (nextController h)
    (run h) (retries h) (timers h) (hist h).

Definition with_abortRef (o : option nat) (h : Hook) : Hook :=
  MkHook (isGenerating h) (pendingImageCount h) (imageErrors h) (generationError h) (activeRecordId h)
    (retryingImageErrorIndexes h) (retryingImageIndexes h) (retryBatch h) o (aborted h) (nextController h)
    (run h) (retries h) (timers h) (hist h).

(** [new AbortController()], which [abortRef] refers to. *)
Definition newController (h : Hook) : Hook :=
  MkHook (isGenerating h) (pendingImageCount h) (imageErrors h) (generationError h) (activeRecordId h)
    (retryingImageErrorIndexes h) (retryingImageIndexes h) (retryBatch h) (Some (nextController h)) (aborted h)
    (S (nextController h)) (run h) (retries h) (timers h) (hist h).

Definition with_retrying (shown set : list nat) (h : Hook) : Hook :=
  MkHook (isGenerating h) (pendingImageCount h) (imageErrors h) (generationError h) (activeRecordId h)
    shown set (retryBatch h) (abortRef h) (aborted h) (nextController h) (run h) (retries h) (timers h) (hist h).

Definition with_batch (b : option RetryBatch) (h : Hook) : Hook :=
  MkHook (isGenerating h) (pendingImageCount h) (imageErrors h) (generationError h) (activeRecordId h)
    (retryingImageErrorIndexes h) (retryingImageIndexes h) b (abortRef h) (aborted h) (nextController h)
    (run h) (retries h) (timers h) (hist h).

Definition isAborted (c : nat) (h : Hook) : bool := existsb (Nat.eqb c) (aborted h).

Definition stopGeneration (h : Hook) : Hook :=
  match abortRef h with
  | None => h
  | Some c =>
      MkHook (isGenerating h) (pendingImageCount h) (imageErrors h) (generationError h) (activeRecordId h)
        (retryingImageErrorIndexes h) (retryingImageIndexes h) (retryBatch h) (abortRef h) (c :: aborted h)
        (nextController h) (run h) (retries h) (timers h) (hist h)
  end.

(** ** [generate] *)

Definition imageMimeTypeForOutputFormat (outputFormat : str) : str :=
  if outputFormat =?s "jpeg" then js "image/jpeg"
  else if outputFormat =?s "webp" then js "image/webp"
  else js "image/png".

(** The source of an image of an answer: its data or its address. *)
Definition imageSource (outputFormat : str) (d : ImageApiResponseData) : str :=
  match b64_json d with
  | Some b => if truthy_str b then js "data:" ++ imageMimeTypeForOutputFormat outputFormat ++ js ";base64," ++ b
              else nullish (url d) []
  | None => nullish (url d) []
  end.

Definition imageOutputs (outputFormat : str) (data : option (list ImageApiResponseData)) : list ImageSource :=
  List.filter (fun o => truthy_str (src o))
    (map (fun d => MkSource (imageSource outputFormat d) (revised_prompt d)) (nullish data [])).

Definition with_requests (l : list RequestState) (r : Run) : Run :=
  MkRun (run_args r) (run_payload r) (requestedImageCount r) (run_controller r) (startedAt r) (recordId r)
    (activeRecord r) (successfulRequests r) (requestErrors r) (accumulatedDurationMs r) l (queue r).

Definition with_queue (l : list Job) (r : Run) : Run :=
  MkRun (run_args r) (run_payload r) (requestedImageCount r) (run_controller r) (startedAt r) (recordId r)
    (activeRecord r) (successfulRequests r) (requestErrors r) (accumulatedDurationMs r) (requests r) l.

Definition with_activeRecord (o : option GenerationRecord) (r : Run) : Run :=
  MkRun (run_args r) (run_payload r) (requestedImageCount r) (run_controller r) (startedAt r) (recordId r)
    o (successfulRequests r) (requestErrors r) (accumulatedDurationMs r) (requests r) (queue r).

Definition add_duration (d : num) (r : Run) : Run :=
  MkRun (run_args r) (run_payload r) (requestedImageCount r) (run_controller r) (startedAt r) (recordId r)
    (activeRecord r) (successfulRequests r) (requestErrors r) (num_add (accumulatedDurationMs r) d) (requests r) (queue r).

Definition add_error (e : str) (r : Run) : Run :=
  MkRun (run_args r) (run_payload r) (requestedImageCount r) (run_controller r) (startedAt r) (recordId r)
    (activeRecord r) (successfulRequests r) (requestErrors r ++ [e]) (accumulatedDurationMs r) (requests r) (queue r).

Definition add_success (id : str) (r : Run) : Run :=
  MkRun (run_args r) (run_payload r) (requestedImageCount r) (run_controller r) (startedAt r) (recordId r)
    (activeRecord r) (successfulRequests r ++ [id]) (requestErrors r) (accumulatedDurationMs r) (requests r) (queue r).

Definition outputFormat (p : ImageGenerationPayload) : str := nullish (pl_output_format p) (js "png").

(** The write of an image: the first one stores the generation, the others are
    appended to it. *)
Definition persistCall (r : Run) (image : ImageSource) (duration : num) : Call :=
  let a := run_args r in
  let p := run_payload r in
  match activeRecord r with
  | None =>
      CallStore (MkStore (recordId r) (startedAt r) (ga_mode a) (ga_prompt a) (c_model (ga_config a)) (c_group (ga_config a))
        (c_parameters (ga_config a)) (resolveParameterSize (c_parameters (ga_config a))) (pl_quality p) (pl_moderation p)
        (pl_output_format p) (requestedImageCount r) duration [image])
  | Some _ => CallAppend (recordId r) image
  end.

(** The write that the head of the queue waits for. *)
Definition queueCall (r : Run) : list Call :=
  match queue r with
  | MkJob _ (image :: _) duration :: _ => [persistCall r image duration]
  | _ => []
  end.

Definition persistedRecord (r : Run) (stored : ImageStudioGenerationRecord) (duration : num) : GenerationRecord :=
  MkRecord (st_id stored) (st_created_at stored) (st_mode stored) (st_prompt stored) (st_model stored) (st_group stored)
    (Some (nullish (st_parameter_snapshot stored) (c_parameters (ga_config (run_args r))))) (st_size stored)
    (or_undefined (st_quality stored)) (or_undefined (st_moderation stored)) (or_undefined (st_output_format stored))
    (st_n stored) (mapStoredImages stored) None None (Some (MkUsage duration None None None None))
    (st_channel_id stored) (st_favorite stored) (Some (ga_referenceImages (run_args r))).

Definition failedRecord (r : Run) : GenerationRecord :=
  let a := run_args r in
  let p := run_payload r in
  MkRecord (recordId r) (startedAt r) (ga_mode a) (ga_prompt a) (c_model (ga_config a)) (c_group (ga_config a))
    (Some (c_parameters (ga_config a))) (resolveParameterSize (c_parameters (ga_config a))) (pl_quality p) (pl_moderation p)
    (pl_output_format p) (requestedImageCount r) [] (Some (num_of_nat (length (requestErrors r)))) (Some (requestErrors r))
    (Some (MkUsage (accumulatedDurationMs r) None None None None)) None None (Some (ga_referenceImages a)).

Definition settled (s : RequestState) : bool := match s with Settled => true | _ => false end.

(** What follows [Promise.all], once every request is settled, and the [finally]. *)
Definition finishRun (r : Run) (h : Hook) : Hook :=
  let h :=
    if isAborted (run_controller r) h then h
    else match activeRecord r with
         | None => setActiveRecordId (Some (recordId r)) (with_hist (addRecord (failedRecord r) (hist h)) h)
         | Some a =>
             let record := completedRecord a (requestErrors r) (accumulatedDurationMs r) in
             let timer := MkTimer (r_id record) (accumulatedDurationMs r) (num_eq (requestedImageCount r) (num_of_Z 1))
                            (c_model (ga_config (run_args r))) (filter_truthy (successfulRequests r)) in
             with_timers (timers h ++ [timer]) (with_hist (patchRecordLocally (r_id record) (fun _ => record) (hist h)) h)
         end in
  setIsGenerating false (with_abortRef None (with_run None h)).

Definition continueRun (r : Run) (h : Hook) : Hook :=
  if forallb settled (requests r) then finishRun r h else with_run (Some r) h.

(** The [finally] of a request. *)
Definition settleRequest (i : nat) (r : Run) (h : Hook) : Hook :=
  let h := setPendingImageCount (num_max num_zero (num_sub (pendingImageCount h) (num_of_Z 1))) h in
  continueRun (with_requests (<[i := Settled]> (requests r)) r) h.

(** The [catch] of a request; [elapsed] is the duration to add, if none was. *)
Definition failRequest (i : nat) (error : Thrown) (elapsed : option num) (r : Run) (h : Hook) : Hook :=
  if isAborted (run_controller r) h then settleRequest i r h
  else
    let r := match elapsed with Some d => add_duration d r | None => r end in
    let errorMessage := extractApiErrorMessage error in
    settleRequest i (add_error errorMessage r) (setImageErrors (imageErrors h ++ [errorMessage]) h).

Definition Step : Type := Hook * list Call.

Section hook.
Context {CM : CaseMapping}.

(** The endpoint of the edits, for the families that have one. *)
Definition usesEdits (mode : StudioMode) (limits : ImageModelRuntimeLimits) : bool :=
  mode_eqb mode EditMode && negb (usesGenerationEndpointForEdits limits).

(** [generate]: the exception of an unsupported model leaves everything as it is. *)
Definition generate (a : GenerateArgs) (now : num) (random : str) (h : Hook) : Step :=
  match buildImageGenerationPayload (ga_config a) (ga_prompt a) (ga_mode a) (ga_referenceImages a),
        getImageModelRuntimeLimits (c_model (ga_config a)) with
  | Ok payload, Some limits =>
      let count := clampImageCount limits (p_n (c_parameters (ga_config a))) in
      let controller := nextController h in
      let h := newController h in
      let h := setGenerationError None (setImageErrors [] (setPendingImageCount count (setIsGenerating true h))) in
      let r := MkRun a payload count controller now (num_to_string now ++ js "-" ++ random) None [] [] num_zero
                 (replicate (array_length count) (Sent now)) [] in
      (continueRun r h, replicate (array_length count) (CallSend (usesEdits (ga_mode a) limits) payload))
  | _, _ => (h, [])
  end.

End hook.

(** The answer of request [i]. *)
Definition requestAnswered (i : nat) (data : option (list ImageApiResponseData)) (requestId : str) (now : num) (h : Hook)
    : Step :=
  match run h with
  | None => (h, [])
  | Some r =>
      match requests r !! i with
      | Some (Sent t) =>
          let r := add_duration (num_sub now t) r in
          match imageOutputs (outputFormat (run_payload r)) data with
          | [] => (failRequest i (thrownError (js "empty image response")) None r h, [])
          | outputs =>
              let job := MkJob i outputs (accumulatedDurationMs r) in
              let idle := match queue r with [] => true | _ => false end in
              let r := with_requests (<[i := Persisting]> (requests r)) (with_queue (queue r ++ [job]) (add_success requestId r)) in
              (with_run (Some r) h, if idle then queueCall r else [])
          end
      | _ => (h, [])
      end
  end.

(** The failure of request [i]. *)
Definition requestFailed (i : nat) (error : Thrown) (now : num) (h : Hook) : Step :=
  match run h with
  | None => (h, [])
  | Some r =>
      match requests r !! i with
      | Some (Sent t) => (failRequest i error (Some (num_sub now t)) r h, [])
      | _ => (h, [])
      end
  end.

(** The write under way ends: the record of the server, or an error, which drops
    the rest of the images of its request. *)
Definition persistEnded (result : ImageStudioGenerationRecord + Thrown) (h : Hook) : Step :=
  match run h with
  | None => (h, [])
  | Some r =>
      match queue r with
      | MkJob i (_ :: rest) duration :: queue' =>
          match result with
          | inl stored =>
              let p := persistedRecord r stored duration in
              let h :=
                match activeRecord r with
                | None => setActiveRecordId (Some (r_id p)) (with_hist (addRecord p (hist h)) h)
                | Some _ => with_hist (patchRecordLocally (r_id p) (patch_persisted p) (hist h)) h
                end in
              let r := with_activeRecord (Some p) r in
              match rest with
              | _ :: _ =>
                  let r := with_queue (MkJob i rest duration :: queue') r in
                  (with_run (Some r) h, queueCall r)
              | [] =>
                  let r := with_queue queue' r in
                  (settleRequest i r h, queueCall r)
              end
          | inr error =>
              let r := with_queue queue' r in
              (failRequest i error None r h, queueCall r)
          end
      | _ => (h, [])
      end
  end.

(** The timer of a generation fires and its logs arrive. *)
Definition logCalls (t : LogTimer) : list Call :=
  if lt_single t then [CallLog (nullish (head (lt_requests t)) []) (lt_model t)]
  else map (fun id => CallLog id []) (lt_requests t).

Definition sum_logs (logs : list GenerationLogInfo) : num * num * num :=
  fold_left (fun total l =>
    let '(q, p, c) := total in
    (num_add q (lg_quota l), num_add p (lg_promptTokens l), num_add c (lg_completionTokens l)))
    logs (num_zero, num_zero, num_zero).

Definition logsArrived (k : nat) (logs : list (option GenerationLogInfo)) (h : Hook) : Step :=
  match timers h !! k with
  | None => (h, [])
  | Some t =>
      let h := with_timers (delete k (timers h)) h in
      match omap id logs with
      | [] => (h, [])
      | available =>
          let '(quota, promptTokens, completionTokens) := sum_logs available in
          let channelId := nullish (lg_channelId <$> find (fun l => num_lt num_zero (lg_channelId l)) available) num_zero in
          let u := MkUsage (lt_duration t) (Some quota) (Some promptTokens) (Some completionTokens) (Some channelId) in
          let '(x, calls) := patchRecord (lt_record t) (patch_usage u channelId) (hist h) in
          (with_hist x h, calls)
      end
  end.

(** ** [retryImage] *)

(** [errors[i] = message] on an array with holes. *)
Definition set_error (i : nat) (message : str) (l : list (option str)) : list (option str) :=
  if (i <? length l)%nat then <[i := Some message]> l
  else l ++ replicate (i - length l) None ++ [Some message].

(** [errors.filter((_message, index) => !successfulIndexes.has(index))], which
    skips the holes. *)
Definition remainingErrors (b : RetryBatch) : list str :=
  omap id (imap (fun i e => if existsb (Nat.eqb i) (successfulIndexes b) then None else e) (rb_errors b)).

Section retry.
Context {CM : CaseMapping}.

Definition retryImage (record : GenerationRecord) (errorIndex : nat) (h : Hook) : Step :=
  let referenceImages := nullish (r_referenceImages record) [] in
  let editReferencesUnavailable :=
    mode_eqb (r_mode record) EditMode && match referenceImages with [] => true | _ => false end in
  match restoreParametersFromRecord record, getImageModelRuntimeLimits (r_model record) with
  | Some parameters, Some limits =>
      if editReferencesUnavailable then (h, [])
      else if existsb (Nat.eqb errorIndex) (retryingImageIndexes h) then (h, [])
      else
        let h := with_retrying (retryingImageErrorIndexes h) (retryingImageIndexes h ++ [errorIndex]) h in
        let fresh := with_batch (Some (MkBatch (r_id record)
                       (map Some (nullish (r_imageErrors record) (imageErrors h))) [] (images record))) h in
        let h := match retryBatch h with
                 | Some b => if rb_recordId b =?s r_id record then h else fresh
                 | None => fresh
                 end in
        match buildImageGenerationPayload (MkConfig (r_group record) (r_model record) (with_n (num_of_Z 1) parameters))
                (r_prompt record) (r_mode record) referenceImages with
        | Throw => (h, [])
        | Ok payload =>
            let controller := nextController h in
            let h := newController h in
            let h := with_retrying (retryingImageErrorIndexes h ++ [errorIndex]) (retryingImageIndexes h) h in
            (with_retries (retries h ++ [MkRetry record errorIndex controller parameters payload false]) h,
             [CallSend (usesEdits (r_mode record) limits) payload])
        end
  | _, _ => (h, [])
  end.

End retry.

(** The [finally] of a retry. *)
Definition finishRetry (i : nat) (h : Hook) : Hook :=
  let other x := negb (Nat.eqb i x) in
  let h := with_retries (List.filter (fun t => other (rt_index t)) (retries h)) h in
  let h := with_retrying (List.filter other (retryingImageErrorIndexes h)) (List.filter other (retryingImageIndexes h)) h in
  match retryingImageIndexes h with
  | [] => with_abortRef None (with_batch None h)
  | _ => h
  end.

(** The batch and what is shown of it. *)
Definition showBatch (id : str) (b : RetryBatch) (imgs : option (list GeneratedImage)) (h : Hook) : Hook :=
  let errors := remainingErrors b in
  setImageErrors errors (with_hist (patchRecordLocally id (patch_errors imgs errors) (hist h)) (with_batch (Some b) h)).

Definition retrySucceeded (t : Retry) (stored : ImageStudioGenerationRecord) (h : Hook) : Hook :=
  let id := r_id (rt_record t) in
  let h := match retryBatch h with
           | Some b =>
               if rb_recordId b =?s id then
                 let i := rt_index t in
                 let done := if existsb (Nat.eqb i) (successfulIndexes b) then successfulIndexes b else successfulIndexes b ++ [i] in
                 let b := MkBatch (rb_recordId b) (rb_errors b) done (mapStoredImages stored) in
                 showBatch id b (Some (latestImages b)) h
               else h
           | None => h
           end in
  finishRetry (rt_index t) h.

Definition retryFailed (t : Retry) (error : Thrown) (h : Hook) : Hook :=
  let id := r_id (rt_record t) in
  let h := if isAborted (rt_controller t) h then h
           else match retryBatch h with
                | Some b =>
                    if rb_recordId b =?s id then
                      let b := MkBatch (rb_recordId b) (set_error (rt_index t) (extractApiErrorMessage error) (rb_errors b))
                                 (successfulIndexes b) (latestImages b) in
                      showBatch id b None h
                    else h
                | None => h
                end in
  finishRetry (rt_index t) h.

(** The image of a retry is appended to its generation, or stored with the images
    of the record if one of them is not stored. *)
Definition retryStoreCall (t : Retry) (image : ImageSource) : Call :=
  let r := rt_record t in
  if forallb (fun i => truthy_ostr (storageId i)) (images r) then CallAppend (r_id r) image
  else CallStore (MkStore (r_id r) (createdAt r) (r_mode r) (r_prompt r) (r_model r) (r_group r) (rt_parameters t) (r_size r)
         (r_quality r) (r_moderation r) (r_outputFormat r) (r_n r) (nullish (durationMs <$> usage r) num_zero)
         (map (fun i => MkSource (im_src i) (revisedPrompt i)) (images r) ++ [image])).

(** The events of the retry of an index: the answer of its request, the end of its
    write, or a failure. *)
Inductive RetryEvent : Type :=
  | RetryAnswered (data : option (list ImageApiResponseData))
  | RetryStored (stored : ImageStudioGenerationRecord)
  | RetryError (error : Thrown).

Definition retryStep (i : nat) (e : RetryEvent) (h : Hook) : Step :=
  match find (fun t => Nat.eqb (rt_index t) i) (retries h) with
  | None => (h, [])
  | Some t =>
      match e, rt_storing t with
      | RetryAnswered data, false =>
          let format := match pl_output_format (rt_payload t) with
                        | Some f => f
                        | None => nullish (r_outputFormat (rt_record t)) (js "png")
                        end in
          match find (fun d => truthy_ostr (b64_json d) || truthy_ostr (url d)) (nullish data []) with
          | None => (retryFailed t (thrownError (js "empty image response")) h, [])
          | Some d =>
              let t' := MkRetry (rt_record t) (rt_index t) (rt_controller t) (rt_parameters t) (rt_payload t) true in
              (with_retries (map (fun x => if Nat.eqb (rt_index x) i then t' else x) (retries h)) h,
               [retryStoreCall t (MkSource (imageSource format d) (revised_prompt d))])
          end
      | RetryStored stored, true => (retrySucceeded t stored h, [])
      | RetryError error, _ => (retryFailed t error h, [])
      | _, _ => (h, [])
      end
  end.

(** ** The events of a generation *)

Inductive GenEvent : Type :=
  | Answered (i : nat) (data : option (list ImageApiResponseData)) (requestId : str) (now : num)
  | Failed (i : nat) (error : Thrown) (now : num)
  | WriteEnded (result : ImageStudioGenerationRecord + Thrown)
  | Stop.

Definition genStep (e : GenEvent) (h : Hook) : Step :=
  match e with
  | Answered i data requestId now => requestAnswered i data requestId now h
  | Failed i error now => requestFailed i error now h
  | WriteEnded result => persistEnded result h
  | Stop => (stopGeneration h, [])
  end.

(** The state and the calls of a list of events. *)
Fixpoint genSteps (es : list GenEvent) (h : Hook) : Step :=
  match es with
  | [] => (h, [])
  | e :: es' =>
      let '(h1, c1) := genStep e h in
      let '(h2, c2) := genSteps es' h1 in
      (h2, c1 ++ c2)
  end.
