(* ===== verification/ImageGenerationLaws.v ===== *)
(** * Laws of the generations of the image studio

    Proofs about [ImageGeneration].  A generation keeps an invariant under every
    order of the answers of the network ([gen_inv]), from which: what the page shows
    while it runs and what the history gains when it ends, that it ends once
    the network has answered, that its images are written one after another and the
    generation stored once.  Retries that start together end in any order, each with
    its own error; a retry sends the request of its generation again. *)

From stdpp Require Import base list.
From Stdlib Require Import ZArith NArith Lia SpecFloat.
From S2P Require Import Prelude JsString JsArray JsNumber ImageParams ImageParamsLaws ImageGeneration.

Local Open Scope Z_scope.

(** ** Requests *)

(** The requests that are not settled. *)
Definition outstanding (l : list RequestState) : nat := length (List.filter (fun s => negb (settled s)) l).

Lemma count_insert (f : RequestState -> bool) (l : list RequestState) (i : nat) (s s' : RequestState) :
  l !! i = Some s ->
  (length (List.filter f (<[i := s']> l)) + (if f s then 1 else 0) =
   length (List.filter f l) + (if f s' then 1 else 0))%nat.
Proof.
  revert i. induction l as [|x l IH]; intros i Hi; [done|]. destruct i as [|i]; cbn in *.
  - injection Hi as ->. destruct (f s), (f s'); cbn; lia.
  - specialize (IH i Hi). destruct (f x); [exact (f_equal S IH)|exact IH].
Qed.

Lemma outstanding_insert (l : list RequestState) (i : nat) (s s' : RequestState) :
  l !! i = Some s ->
  (outstanding (<[i := s']> l) + (if settled s then 0 else 1) = outstanding l + (if settled s' then 0 else 1))%nat.
Proof. intros Hi. pose proof (count_insert (fun s => negb (settled s)) l i s s' Hi) as H. by destruct s, s'. Qed.

Lemma settled_all (l : list RequestState) : forallb settled l = true <-> outstanding l = 0%nat.
Proof.
  unfold outstanding. induction l as [|x l IH]; [done|]. cbn. destruct x; cbn; try rewrite IH; split; done.
Qed.

Lemma outstanding_sent (k : nat) (t : num) : outstanding (replicate k (Sent t)) = k.
Proof. unfold outstanding. induction k as [|k IH]; [done|]. cbn. by rewrite IH. Qed.

(** Eight requests at most: the counter of the page is their number. *)
Lemma count_down (k : nat) : (k < 8)%nat -> num_max num_zero (num_sub (num_of_nat (S k)) (num_of_Z 1)) = num_of_nat k.
Proof. intros Hk. do 8 (destruct k as [|k]; [reflexivity|]). lia. Qed.

Lemma count_length (k : nat) : (k <= 8)%nat -> array_length (num_of_nat k) = k.
Proof. intros Hk. do 9 (destruct k as [|k]; [reflexivity|]). lia. Qed.

Lemma count_possible (k : nat) : (1 <= k <= 8)%nat -> count_ok (num_of_nat k) = true.
Proof. intros Hk. destruct k as [|k]; [lia|]. do 8 (destruct k as [|k]; [reflexivity|]). lia. Qed.

(** ** The history of a generation *)

Lemma map_slice {A B} (f : A -> B) (l : list A) (i j : Z) : map f (slice l i j) = slice (map f l) i j.
Proof. unfold slice. rewrite length_map. by rewrite <- firstn_map, <- skipn_map. Qed.

(** The record of a generation is the first of the history; a patch of it leaves
    the others as they are. *)
Lemma patch_added (a : GenerationRecord) (patch : GenerationRecord -> GenerationRecord) (x : History) :
  r_id a ∉ map r_id (history x) ->
  patchRecordLocally (r_id a) patch (addRecord a x) = addRecord (patch a) x.
Proof.
  intros Hn. unfold patchRecordLocally, addRecord, with_history. cbn [history displayLimit isLoadingHistory]. f_equal.
  rewrite map_slice. cbn [map]. rewrite str_eqb_refl. do 2 f_equal.
  rewrite <- (map_id (history x)) at 2. apply map_ext_in. intros r Hr. destruct (r_id r =?s r_id a) eqn:E; [|done].
  apply str_eqb_eq in E. destruct Hn. rewrite <- E. apply list_elem_of_In, in_map, Hr.
Qed.

Definition hist_of (h0 : Hook) (o : option GenerationRecord) : History :=
  match o with None => hist h0 | Some a => addRecord a (hist h0) end.

(** ** The invariant of a generation *)

(** A record as the server's answers make it: the failures are counted at the end. *)
Definition active_wf (id : str) (o : option GenerationRecord) : Prop :=
  forall a, o = Some a -> r_id a = id /\ failedImageCount a = None /\ r_imageErrors a = None.

(** Every request that is settled was stored or failed, unless the generation was
    stopped. *)
Definition accounted (n : nat) (r : Run) (h : Hook) : Prop :=
  isAborted (run_controller r) h = false ->
  exists stored, (stored + length (requestErrors r) + outstanding (requests r) = n)%nat /\
    (stored <> 0%nat -> activeRecord r <> None).

Record gen_core (h0 : Hook) (id : str) (n : nat) (r : Run) (h : Hook) : Prop := {
  gc_id : recordId r = id;
  gc_fresh : id ∉ map r_id (history (hist h0));
  gc_length : length (requests r) = n;
  gc_errors : imageErrors h = requestErrors r;
  gc_pending : pendingImageCount h = num_of_nat (outstanding (requests r));
  gc_active : active_wf id (activeRecord r);
  gc_hist : hist h = hist_of h0 (activeRecord r);
  gc_jobs : Forall (fun j => job_outputs j <> []) (queue r);
  gc_nodup : NoDup (map job_request (queue r));
}.

(** The queue holds the requests whose images are being stored. *)
Definition queued (l : list RequestState) (q : list Job) : Prop :=
  forall i, l !! i = Some Persisting <-> i ∈ map job_request q.

Definition gen_wf (h0 : Hook) (id : str) (n : nat) (r : Run) (h : Hook) : Prop :=
  gen_core h0 id n r h /\ accounted n r h /\ queued (requests r) (queue r).

(** The call [b] that started a run: what its record is made of. *)
Definition same_call (b r : Run) : Prop :=
  run_args r = run_args b /\ run_payload r = run_payload b /\ requestedImageCount r = requestedImageCount b /\
  run_controller r = run_controller b /\ startedAt r = startedAt b /\ recordId r = recordId b.

(** The run of the call [b] once its requests have ended with these errors. *)
Definition ended_run (b : Run) (errors : list str) (duration : num) : Run :=
  MkRun (run_args b) (run_payload b) (requestedImageCount b) (run_controller b) (startedAt b) (recordId b) None []
    errors duration [] [].

(** How the run of [b] ends when [o] is the record that its writes made: a run that
    was stopped leaves it as it is, another one counts the failures. *)
Definition ends_with (b : Run) (h0 : Hook) (n : nat) (o : option GenerationRecord) (h : Hook) : Prop :=
  if isAborted (run_controller b) h then hist h = hist_of h0 o
  else exists stored duration, (stored + length (imageErrors h) = n)%nat /\
    match o with
    | None => stored = 0%nat /\ hist h = addRecord (failedRecord (ended_run b (imageErrors h) duration)) (hist h0)
    | Some a => hist h = addRecord (completedRecord a (imageErrors h) duration) (hist h0)
    end.

(** The invariant of the run of [b]; [W] says which record its writes made. *)
Definition gen_inv (b : Run) (W : option GenerationRecord -> Prop) (h0 : Hook) (n : nat) (h : Hook) : Prop :=
  match run h with
  | Some r => isGenerating h = true /\ outstanding (requests r) <> 0%nat /\ gen_wf h0 (recordId b) n r h /\
      same_call b r /\ W (activeRecord r)
  | None => isGenerating h = false /\ abortRef h = None /\ pendingImageCount h = num_zero /\
      exists o, W o /\ ends_with b h0 n o h
  end.

(** The invariant of some run of that record. *)
Definition gen_state (h0 : Hook) (id : str) (n : nat) (h : Hook) : Prop :=
  match run h with
  | Some r => isGenerating h = true /\ outstanding (requests r) <> 0%nat /\ gen_wf h0 id n r h
  | None => isGenerating h = false /\ abortRef h = None
  end.

Section invariant.
Context (b : Run) (h0 : Hook) (n : nat).

Lemma finishRun_ends (r : Run) (h : Hook) :
  gen_wf h0 (recordId b) n r h -> same_call b r -> outstanding (requests r) = 0%nat ->
  ends_with b h0 n (activeRecord r) (finishRun r h).
Proof.
  intros ([Wid Wf Wl We _ Wa Wh _ _] & Wc & _) (S1 & S2 & S3 & S4 & S5 & S6) E. unfold ends_with, finishRun.
  unfold accounted in Wc. rewrite <- S4. destruct (isAborted (run_controller r) h) eqn:Ea.
  - change (isAborted (run_controller r) (setIsGenerating false (with_abortRef None (with_run None h)))) with
      (isAborted (run_controller r) h). by rewrite Ea.
  - destruct (Wc eq_refl) as (st & Hc & Hs).
    destruct (activeRecord r) as [a|] eqn:Er;
      (match goal with |- if isAborted ?c ?x then _ else _ => change (isAborted c x) with (isAborted c h) end; rewrite Ea);
      exists st, (accumulatedDurationMs r);
      cbn [hist imageErrors setIsGenerating with_abortRef with_run with_timers with_hist setActiveRecordId]; rewrite We.
    + split; [lia|]. destruct (Wa a eq_refl) as (Hi & _ & _). rewrite Wh. cbn [hist_of completedRecord r_id].
      apply (patch_added a (fun _ => completedRecord a (requestErrors r) (accumulatedDurationMs r))). by rewrite Hi.
    + split; [lia|]. split; [destruct st; [done|]; by destruct (Hs ltac:(done))|]. rewrite Wh. cbn [hist_of].
      unfold failedRecord, ended_run.
      cbn [recordId startedAt requestedImageCount requestErrors accumulatedDurationMs run_args run_payload].
      by rewrite S1, S2, S3, S5, S6.
Qed.

Context (W : option GenerationRecord -> Prop).

Lemma continueRun_state (r : Run) (h : Hook) :
  isGenerating h = true -> gen_wf h0 (recordId b) n r h -> same_call b r -> W (activeRecord r) ->
  gen_inv b W h0 n (continueRun r h).
Proof.
  intros Hg Hw Hc HW. unfold continueRun. destruct (forallb settled (requests r)) eqn:E.
  - apply settled_all in E. unfold gen_inv. pose proof (finishRun_ends r h Hw Hc E) as He.
    assert (Hp : pendingImageCount h = num_zero) by by rewrite (gc_pending _ _ _ _ _ (proj1 Hw)), E.
    change (run (finishRun r h)) with (@None Run). cbv iota. split_and!; [done..| |by exists (activeRecord r)].
    unfold finishRun. by destruct (isAborted _ _), (activeRecord r).
  - unfold gen_inv. cbn [run with_run]. split; [exact Hg|]. split.
    + intros E'. apply settled_all in E'. congruence.
    + destruct Hw as ([] & ? & ?). by split_and!.
Qed.

Lemma settle_state (i : nat) (s : RequestState) (r : Run) (h : Hook) :
  (n <= 8)%nat -> isGenerating h = true -> gen_core h0 (recordId b) n r h -> accounted (S n) r h ->
  requests r !! i = Some s -> settled s = false -> queued (<[i := Settled]> (requests r)) (queue r) ->
  same_call b r -> W (activeRecord r) ->
  gen_inv b W h0 n (settleRequest i r h).
Proof.
  intros Hn Hg C Ha Hi Hs Hq Hc HW. unfold settleRequest. apply continueRun_state; [done| |done..].
  pose proof (outstanding_insert _ i s Settled Hi) as Ho. rewrite Hs in Ho. cbn [settled] in Ho.
  assert (Hl : (outstanding (requests r) <= n)%nat).
  { rewrite <- (gc_length _ _ _ _ _ C). unfold outstanding. apply List.filter_length_le. }
  split_and!.
  - destruct C. split; cbn [recordId with_requests requests setPendingImageCount imageErrors requestErrors pendingImageCount activeRecord hist queue]; try done; [by rewrite length_insert|].
    rewrite gc_pending0. replace (outstanding (requests r)) with (S (outstanding (<[i:=Settled]> (requests r)))) by lia.
    apply count_down. lia.
  - intros Hb. destruct (Ha Hb) as (st & Hst & ?). exists st. split; [|done]. cbn [requests with_requests requestErrors]. lia.
  - exact Hq.
Qed.

Lemma fail_state (i : nat) (s : RequestState) (r : Run) (h : Hook) (e : Thrown) (d : option num) :
  (n <= 8)%nat -> isGenerating h = true -> gen_core h0 (recordId b) n r h -> accounted n r h ->
  requests r !! i = Some s -> settled s = false -> queued (<[i := Settled]> (requests r)) (queue r) ->
  same_call b r -> W (activeRecord r) ->
  gen_inv b W h0 n (failRequest i e d r h).
Proof.
  intros Hn Hg C Ha Hi Hs Hq Hc HW. unfold failRequest. destruct (isAborted (run_controller r) h) eqn:E.
  - eapply settle_state; try done. intros Hb. congruence.
  - eapply settle_state; try done.
    + destruct C, d; split; cbn; try done; by rewrite gc_errors0.
    + intros _. destruct (Ha E) as (st & Hst & ?). exists st. destruct d; cbn [add_error add_duration requestErrors requests activeRecord]; rewrite length_app; cbn [length]; (split; [lia|done]).
    + by destruct d.
    + by destruct d.
    + by destruct d.
    + by destruct d.
Qed.

End invariant.

(** A request that waits for its answer is not in the queue. *)
Lemma queued_sent (l : list RequestState) (q : list Job) (i : nat) (t : num) (s : RequestState) :
  l !! i = Some (Sent t) -> s <> Persisting -> queued l q -> queued (<[i := s]> l) q.
Proof.
  intros Hi Hs Hq j. rewrite <- (Hq j). destruct (decide (j = i)) as [->|Hj]; [|by rewrite list_lookup_insert_ne].
  rewrite list_lookup_insert_eq by by eapply lookup_lt_Some. rewrite Hi. split; congruence.
Qed.

(** The head of the queue is settled. *)
Lemma queued_head (l : list RequestState) (q : list Job) (b : Job) :
  NoDup (map job_request (b :: q)) -> queued l (b :: q) -> queued (<[job_request b := Settled]> l) q.
Proof.
  intros [Hb _]%NoDup_cons Hq j. specialize (Hq j). cbn [map] in Hq. rewrite elem_of_cons in Hq.
  destruct (decide (j = job_request b)) as [->|Hj].
  - split; [|done]. intros H. rewrite list_lookup_insert_eq in H; [done|].
    eapply lookup_lt_Some. apply Hq. by left.
  - rewrite list_lookup_insert_ne by done. rewrite Hq. naive_solver.
Qed.

Lemma queued_answered (l : list RequestState) (q : list Job) (b : Job) (t : num) :
  l !! job_request b = Some (Sent t) -> queued l q -> queued (<[job_request b := Persisting]> l) (q ++ [b]).
Proof.
  intros Hi Hq j. rewrite map_app, elem_of_app. cbn [map]. rewrite list_elem_of_singleton.
  destruct (decide (j = job_request b)) as [->|Hj].
  - rewrite list_lookup_insert_eq by by eapply lookup_lt_Some. naive_solver.
  - rewrite list_lookup_insert_ne by done. rewrite (Hq j). naive_solver.
Qed.

(** ** The steps of a generation *)

Definition keeps_id (id : str) (e : GenEvent) : Prop :=
  match e with WriteEnded (inl stored) => st_id stored = id | _ => True end.

(** The record that the end of a write brings, when a write is under way. *)
Definition written (e : GenEvent) (h : Hook) : list ImageStudioGenerationRecord :=
  match e, run h with
  | WriteEnded (inl stored), Some r => match queue r with [] => [] | _ => [stored] end
  | _, _ => []
  end.

Section steps.
Context (b : Run) (W : option GenerationRecord -> Prop) (h0 : Hook) (n : nat).

Lemma answered_state (i : nat) data rid now (h : Hook) :
  (n <= 8)%nat -> gen_inv b W h0 n h -> gen_inv b W h0 n (fst (requestAnswered i data rid now h)).
Proof.
  intros Hn Hs. unfold requestAnswered. pose proof Hs as Hs0. unfold gen_inv in Hs. destruct (run h) as [r|] eqn:Er; [|done].
  destruct (requests r !! i) as [[t| |]|] eqn:Ei; try done.
  destruct Hs as (Hg & Ho & (C & Ha & Hq) & Hc & HW). set (r1 := add_duration _ r).
  assert (C1 : gen_core h0 (recordId b) n r1 h) by by destruct C.
  destruct (imageOutputs _ data) as [|o os]; cbn [fst].
  { eapply fail_state; try done. by eapply queued_sent. }
  set (job := MkJob i (o :: os) _). unfold gen_inv. cbn [run with_run].
  pose proof (outstanding_insert _ i _ Persisting Ei) as Hout. cbn [settled] in Hout.
  assert (Hout' : outstanding (<[i:=Persisting]> (requests r)) = outstanding (requests r)) by lia. clear Hout.
  split; [done|]. split; [cbn [requests with_requests]; change (requests r1) with (requests r); by rewrite Hout'|].
  split; [|done]. split_and!.
  - destruct C. split; cbn [recordId with_requests requests imageErrors requestErrors pendingImageCount activeRecord hist
      queue with_queue add_success add_duration r1 with_run]; try done.
    + by rewrite length_insert.
    + by rewrite Hout'.
    + apply Forall_app. split; [done|]. by constructor.
    + rewrite map_app. apply NoDup_app. split_and!; [done| |apply NoDup_singleton].
      intros j Hj ->%list_elem_of_singleton. apply Hq in Hj. cbn in Hj. congruence.
  - intros Hb. destruct (Ha Hb) as (st & Hst & ?). exists st. split; [|done].
    cbn [requests with_requests requestErrors with_queue add_success]. change (requests r1) with (requests r).
    change (requestErrors r1) with (requestErrors r). by rewrite Hout'.
  - cbn [requests with_requests queue with_queue add_success]. by eapply (queued_answered _ _ job).
Qed.

Lemma failed_state (i : nat) error now (h : Hook) :
  (n <= 8)%nat -> gen_inv b W h0 n h -> gen_inv b W h0 n (fst (requestFailed i error now h)).
Proof.
  intros Hn Hs. unfold requestFailed. pose proof Hs as Hs0. unfold gen_inv in Hs. destruct (run h) as [r|] eqn:Er; [|done].
  destruct (requests r !! i) as [[t| |]|] eqn:Ei; try done.
  destruct Hs as (Hg & Ho & (C & Ha & Hq) & Hc & HW). cbn [fst]. eapply fail_state; try done. by eapply queued_sent.
Qed.

Lemma stop_state (h : Hook) : gen_inv b W h0 n h -> gen_inv b W h0 n (stopGeneration h).
Proof.
  unfold stopGeneration. destruct (abortRef h) as [c|] eqn:Ea; [|done]. unfold gen_inv. cbn [run].
  destruct (run h) as [r|].
  - intros (Hg & Ho & (C & Hc & Hq) & ?). split; [done|]. split; [done|]. split; [|done].
    split_and!; [by destruct C| |done]. intros Hb. apply Hc.
    revert Hb. unfold isAborted. cbn [aborted existsb]. by intros [_ Hb]%orb_false_iff.
  - intros (_ & Hn & _). congruence.
Qed.

End steps.

(** What a successful write does to the history. *)
Definition showPersisted (r : Run) (p : GenerationRecord) (h : Hook) : Hook :=
  match activeRecord r with
  | None => setActiveRecordId (Some (r_id p)) (with_hist (addRecord p (hist h)) h)
  | Some _ => with_hist (patchRecordLocally (r_id p) (patch_persisted p) (hist h)) h
  end.

Lemma persisted_core (h0 : Hook) (id : str) (n : nat) (r : Run) (stored : ImageStudioGenerationRecord) (d : num) (h : Hook) :
  st_id stored = id -> gen_core h0 id n r h ->
  let p := persistedRecord r stored d in gen_core h0 id n (with_activeRecord (Some p) r) (showPersisted r p h).
Proof.
  intros Hid C p. assert (Hp : r_id p = id) by done. unfold showPersisted.
  destruct (activeRecord r) as [a|] eqn:Ea; destruct C; split; cbn [recordId with_activeRecord requests imageErrors requestErrors
    pendingImageCount activeRecord hist queue with_hist setActiveRecordId]; try done; try (by intros ? [= <-]).
  - rewrite gc_hist0, Ea. cbn [hist_of]. destruct (gc_active0 a Ea) as (Hi & Hf & He). rewrite Hp, <- Hi.
    rewrite patch_added by by rewrite Hi. f_equal. unfold patch_persisted. by rewrite Hf, He.
  - by rewrite gc_hist0, Ea.
Qed.

(** The write under way ends: [W'] says which record there is then. *)
Lemma ended_state (b : Run) (W W' : option GenerationRecord -> Prop) (h0 : Hook) (n : nat)
    (result : ImageStudioGenerationRecord + Thrown) (h : Hook) :
  (n <= 8)%nat -> keeps_id (recordId b) (WriteEnded result) ->
  (forall o, written (WriteEnded result) h = [] -> W o -> W' o) ->
  (forall stored d, written (WriteEnded result) h = [stored] -> W' (Some (persistedRecord b stored d))) ->
  gen_inv b W h0 n h -> gen_inv b W' h0 n (fst (persistEnded result h)).
Proof.
  intros Hn Hid HW0 HW1 Hs. pose proof Hs as Hs0. unfold persistEnded. unfold written in HW0, HW1.
  assert (Hk : (forall o, W o -> W' o) -> gen_inv b W' h0 n h).
  { intros Hk. revert Hs0. unfold gen_inv. destruct (run h); naive_solver. }
  unfold gen_inv in Hs. destruct (run h) as [r|] eqn:Er; [|apply Hk; intros o; apply HW0; by destruct result].
  destruct (queue r) as [|[i os d] q] eqn:Eq; [apply Hk; intros o; apply HW0; by destruct result|].
  destruct Hs as (Hg & Ho & (C & Ha & Hq) & Hc & HW). rewrite Eq in Hq.
  assert (Hnd : NoDup (map job_request (queue r))) by apply C. rewrite Eq in Hnd.
  assert (Hj : Forall (fun j => job_outputs j <> []) (queue r)) by apply C. rewrite Eq in Hj. apply Forall_cons in Hj as [Hos Hj].
  destruct os as [|o rest]; [done|].
  assert (Hi : requests r !! i = Some Persisting) by (apply Hq; by left).
  assert (Hq' := queued_head _ _ (MkJob i (o :: rest) d) Hnd Hq). cbn [job_request] in Hq'.
  pose proof Hnd as [_ Hnd']%NoDup_cons. change (NoDup (map job_request q)) in Hnd'.
  destruct result as [stored|error].
  - set (p := persistedRecord r stored d). fold (showPersisted r p h).
    assert (Hg' : isGenerating (showPersisted r p h) = true) by by unfold showPersisted; destruct (activeRecord r).
    assert (Hab : forall c, isAborted c (showPersisted r p h) = isAborted c h) by by intros c; unfold showPersisted; destruct (activeRecord r).
    pose proof (persisted_core h0 (recordId b) n r stored d h Hid C) as C1. fold p in C1.
    assert (HWp : W' (Some p)).
    { subst p. replace (persistedRecord r stored d) with (persistedRecord b stored d); [by apply HW1|].
      unfold persistedRecord. by rewrite (proj1 Hc). }
    destruct rest as [|o' rest]; cbn [fst].
    + eapply settle_state; try done.
      * destruct C1; by split.
      * intros Hb. destruct (Ha ltac:(by rewrite <- Hab)) as (st & Hst & ?). exists (S st).
        cbn [requests with_queue with_activeRecord requestErrors activeRecord]. split; [lia|done].
    + unfold gen_inv. cbn [run with_run]. split; [done|]. split; [done|]. split; [|done]. split_and!; [|intros Hb|].
      * destruct C1; split; cbn [recordId with_activeRecord requests imageErrors requestErrors
          pendingImageCount activeRecord hist queue with_queue with_run]; try done. by constructor.
      * destruct (Ha ltac:(by rewrite <- Hab)) as (st & Hst & ?). exists st. by split.
      * intros j. rewrite (Hq j). done.
  - eapply fail_state; try done; [destruct C; by split|by apply HW0].
Qed.

Lemma step_inv (b : Run) (W W' : option GenerationRecord -> Prop) (h0 : Hook) (n : nat) (e : GenEvent) (h : Hook) :
  (n <= 8)%nat -> keeps_id (recordId b) e ->
  (forall o, written e h = [] -> W o -> W' o) ->
  (forall stored d, written e h = [stored] -> W' (Some (persistedRecord b stored d))) ->
  gen_inv b W h0 n h -> gen_inv b W' h0 n (fst (genStep e h)).
Proof.
  intros Hn He HW0 HW1 Hs. destruct e; cbn [genStep]; [..|by apply (ended_state b W W')|].
  all: assert (Hk : gen_inv b W' h0 n h) by
    (revert Hs; unfold gen_inv; destruct (run h); naive_solver).
  - by apply answered_state.
  - by apply failed_state.
  - by apply stop_state.
Qed.

Lemma step_state (h0 : Hook) (id : str) (n : nat) (e : GenEvent) (h : Hook) :
  (n <= 8)%nat -> keeps_id id e -> gen_state h0 id n h -> gen_state h0 id n (fst (genStep e h)).
Proof.
  intros Hn He Hs. destruct (run h) as [r|] eqn:Er.
  - assert (Hid : recordId r = id) by (unfold gen_state in Hs; rewrite Er in Hs; apply Hs). subst id.
    assert (Hi : gen_inv r (fun _ => True) h0 n h).
    { revert Hs. unfold gen_state, gen_inv. rewrite Er. intros (? & ? & ?). by split_and!. }
    apply (step_inv r _ (fun _ => True) h0 n e h Hn He) in Hi; [|done..].
    revert Hi. unfold gen_state, gen_inv. destruct (run (fst (genStep e h))); naive_solver.
  - assert (fst (genStep e h) = h) as ->; [|done]. unfold gen_state in Hs. rewrite Er in Hs. destruct Hs as [_ Ha].
    destruct e; cbn [genStep]; unfold requestAnswered, requestFailed, persistEnded, stopGeneration; rewrite ?Er; try done.
    cbn [fst]. by rewrite Ha.
Qed.

Lemma steps_state (h0 : Hook) (id : str) (n : nat) (es : list GenEvent) (h : Hook) :
  (n <= 8)%nat -> Forall (keeps_id id) es -> gen_state h0 id n h -> gen_state h0 id n (fst (genSteps es h)).
Proof.
  intros Hn He. revert h. induction He as [|e es He _ IH]; intros h Hs; [done|]. cbn [genSteps].
  destruct (genStep e h) as [h1 c1] eqn:E1. pose proof (step_state h0 id n e h Hn He Hs) as H1. rewrite E1 in H1.
  specialize (IH h1 H1). by destruct (genSteps es h1).
Qed.


(** The record of a run whose writes brought [ws]: the answer of the last one. *)
Definition last_written (b : Run) (ws : list ImageStudioGenerationRecord) (o : option GenerationRecord) : Prop :=
  match last ws with
  | None => o = None
  | Some stored => exists d, o = Some (persistedRecord b stored d)
  end.










(** ** A generation from its start *)

Section generation.
Context {CM : CaseMapping}.

(** The call of a generation: its record has this identifier, its requests this
    controller. *)
Definition call_of (a : GenerateArgs) (payload : ImageGenerationPayload) (n : nat) (now : num) (random : str) (h0 : Hook) : Run :=
  MkRun a payload (num_of_nat n) (nextController h0) now (num_to_string now ++ js "-" ++ random) None [] [] num_zero [] [].

Section call.
Context (a : GenerateArgs) (now : num) (random : str) (h0 : Hook) (n : nat) (payload : ImageGenerationPayload).
Context (Hp : buildImageGenerationPayload (ga_config a) (ga_prompt a) (ga_mode a) (ga_referenceImages a) = Ok payload).
Context (Hc : p_n (c_parameters (ga_config a)) = num_of_nat n) (Hn : (1 <= n <= 8)%nat).

Lemma generate_run :
  exists edits, generate a now random h0 =
    (continueRun (with_requests (replicate n (Sent now)) (call_of a payload n now random h0))
       (setGenerationError None (setImageErrors [] (setPendingImageCount (num_of_nat n) (setIsGenerating true (newController h0))))),
     replicate n (CallSend edits payload)).
Proof using Hp Hc Hn.
  unfold generate. rewrite Hp.
  assert (exists f, resolveImageModelAdapter (c_model (ga_config a)) = Some f) as [f Ef].
  { revert Hp. unfold buildImageGenerationPayload. destruct (resolveImageModelAdapter _); [by eexists|done]. }
  unfold getImageModelRuntimeLimits. rewrite Ef. cbn [fmap option_fmap option_map].
  rewrite Hc, (clamp_id f) by by apply count_possible. rewrite count_length by lia. by eexists.
Qed.

Lemma generate_inv :
  num_to_string now ++ js "-" ++ random ∉ map r_id (history (hist h0)) ->
  let b := call_of a payload n now random h0 in gen_inv b (last_written b []) h0 n (fst (generate a now random h0)).
Proof using Hp Hc Hn.
  intros Hf b. destruct generate_run as [edits ->]. cbn [fst]. apply continueRun_state; [done| |done..]. split_and!.
  - split; cbn [recordId requests imageErrors requestErrors pendingImageCount activeRecord hist queue setGenerationError
      setImageErrors setPendingImageCount setIsGenerating newController with_requests call_of b]; try done.
    + by rewrite length_replicate.
    + by rewrite outstanding_sent.
    + apply NoDup_nil_2.
  - intros _. exists 0%nat. cbn [requests requestErrors length with_requests call_of]. rewrite outstanding_sent. split; [lia|done].
  - intros i. cbn [requests queue map with_requests call_of]. rewrite elem_of_nil. split; [|done]. by intros [? _]%lookup_replicate.
Qed.


End call.

Lemma generate_state (a : GenerateArgs) (now : num) (random : str) (h0 : Hook) (n : nat) (payload : ImageGenerationPayload) :
  buildImageGenerationPayload (ga_config a) (ga_prompt a) (ga_mode a) (ga_referenceImages a) = Ok payload ->
  p_n (c_parameters (ga_config a)) = num_of_nat n -> (1 <= n <= 8)%nat ->
  num_to_string now ++ js "-" ++ random ∉ map r_id (history (hist h0)) ->
  gen_state h0 (num_to_string now ++ js "-" ++ random) n (fst (generate a now random h0)).
Proof.
  intros Hp Hc Hn Hf. pose proof (generate_inv a now random h0 n payload Hp Hc Hn Hf) as Hi. cbv zeta in Hi.
  revert Hi. unfold gen_inv, gen_state. destruct (run (fst (generate a now random h0))); naive_solver.
Qed.


End generation.

(** ** Termination *)







Lemma settle_run (i : nat) (r : Run) (h : Hook) :
  run (settleRequest i r h) = None \/
  exists r', run (settleRequest i r h) = Some r' /\ requests r' = <[i := Settled]> (requests r) /\ queue r' = queue r.
Proof.
  unfold settleRequest, continueRun. destruct (forallb _ _); [by left|right]. by eexists.
Qed.







(** ** Writes *)

Definition is_write (c : Call) : bool := match c with CallStore _ | CallAppend _ _ => true | _ => false end.
Definition is_store (c : Call) : bool := match c with CallStore _ => true | _ => false end.

Definition writes (l : list Call) : nat := length (List.filter is_write l).

(** Whether a write is under way. *)
Definition busy (q : list Job) : nat := match q with [] => 0 | _ => 1 end.

Definition writing (h : Hook) : nat := match run h with Some r => busy (queue r) | None => 0 end.

(** The writes that end in a list of events. *)
Fixpoint ended (es : list GenEvent) (h : Hook) : nat :=
  match es with
  | [] => 0
  | e :: es' => (match e with WriteEnded _ => writing h | _ => 0 end + ended es' (fst (genStep e h)))%nat
  end.


Lemma writing_run (h : Hook) (r : Run) : run h = Some r -> writing h = busy (queue r).
Proof. unfold writing. by intros ->. Qed.

Lemma settle_writing (i : nat) (r : Run) (h : Hook) :
  queued (<[i := Settled]> (requests r)) (queue r) -> writing (settleRequest i r h) = busy (queue r).
Proof.
  intros Hq. destruct (settle_run i r h) as [Hn|(r' & Hr & _ & Hr')].
  - assert (Hall : forallb settled (<[i := Settled]> (requests r)) = true).
    { revert Hn. unfold settleRequest, continueRun. cbn [requests with_requests]. by destruct (forallb settled _). }
    unfold writing. rewrite Hn. destruct (queue r) as [|j q]; [done|]. exfalso.
    assert (Hj : <[i:=Settled]> (requests r) !! job_request j = Some Persisting) by (apply Hq; by left).
    apply list_elem_of_lookup_2, list_elem_of_In in Hj. by apply (proj1 (forallb_forall _ _) Hall) in Hj.
  - by rewrite (writing_run _ r' Hr), Hr'.
Qed.

Lemma fail_writing (i : nat) (e : Thrown) (d : option num) (r : Run) (h : Hook) :
  queued (<[i := Settled]> (requests r)) (queue r) -> writing (failRequest i e d r h) = busy (queue r).
Proof.
  intros Hq. unfold failRequest. destruct (isAborted _ _); [by apply settle_writing|].
  rewrite settle_writing; by destruct d.
Qed.

Lemma queueCall_writes (r : Run) : Forall (fun j => job_outputs j <> []) (queue r) -> writes (queueCall r) = busy (queue r).
Proof.
  unfold queueCall. destruct (queue r) as [|[i [|o os] d] q]; [done| |].
  - by intros [Hb _]%Forall_cons.
  - intros _. unfold persistCall, writes. by destruct (activeRecord r).
Qed.

Lemma step_writes (h0 : Hook) (id : str) (n : nat) (e : GenEvent) (h : Hook) :
  gen_state h0 id n h ->
  (writing h + writes (snd (genStep e h)) =
   match e with WriteEnded _ => writing h | _ => 0 end + writing (fst (genStep e h)))%nat.
Proof.
  intros Hs. unfold gen_state in Hs. destruct e as [i data rid now|i error now|result|]; cbn [genStep].
  - unfold requestAnswered. destruct (run h) as [r|] eqn:Er; [|cbn [fst snd writes]; unfold writing; rewrite Er; done]. destruct Hs as (_ & _ & C & _ & Hq).
    destruct (requests r !! i) as [[t| |]|] eqn:Ei; try (cbn; lia). rewrite (writing_run h r Er).
    destruct (imageOutputs _ data) as [|o os]; cbn [fst snd].
    + rewrite fail_writing; [cbn; lia|]. by eapply queued_sent.
    + unfold writing. cbn [run with_run queue with_requests with_queue add_success].
      change (queue (add_duration (num_sub now t) r)) with (queue r). destruct (queue r) as [|j q] eqn:Eq; cbn; [|lia].
      unfold persistCall, writes. cbn. by destruct (activeRecord r).
  - unfold requestFailed. destruct (run h) as [r|] eqn:Er; [|cbn [fst snd writes]; unfold writing; rewrite Er; done]. destruct Hs as (_ & _ & C & _ & Hq).
    destruct (requests r !! i) as [[t| |]|] eqn:Ei; try (cbn; lia). rewrite (writing_run h r Er). cbn [fst snd].
    rewrite fail_writing; [cbn; lia|]. by eapply queued_sent.
  - unfold persistEnded. destruct (run h) as [r|] eqn:Er; [|cbn [fst snd writes]; unfold writing; rewrite Er; done]. destruct Hs as (_ & _ & C & _ & Hq).
    pose proof (gc_jobs _ _ _ _ _ C) as Hj. pose proof (gc_nodup _ _ _ _ _ C) as Hnd.
    rewrite (writing_run h r Er).
    destruct (queue r) as [|[i outs d] q] eqn:Eq; [cbn; unfold writing; rewrite Er, Eq; done|].
    assert (Hq' := queued_head _ _ (MkJob i outs d) Hnd Hq). cbn [job_request] in Hq'.
    apply Forall_cons in Hj as [Ho Hj]. cbn [job_outputs] in Ho. destruct outs as [|o rest]; [done|].
    destruct result as [stored|error]; [destruct rest as [|o' rest]|]; cbn [fst snd].
    + rewrite settle_writing, queueCall_writes by done. done.
    + done.
    + rewrite fail_writing, queueCall_writes by done. done.
  - unfold stopGeneration. cbn [fst snd]. unfold writing. destruct (abortRef h); cbn [run]; by rewrite Nat.add_0_r.
Qed.

(** C9: The writes of a generation are made one after another: the next one is called
    when the one before has ended. *)
Theorem writes_serial (h0 : Hook) (id : str) (n : nat) (es : list GenEvent) (h : Hook) :
  (n <= 8)%nat -> Forall (keeps_id id) es -> gen_state h0 id n h ->
  (writing h + writes (snd (genSteps es h)) = ended es h + writing (fst (genSteps es h)))%nat.
Proof.
  intros Hn He. revert h. induction He as [|e es He _ IH]; intros h Hs; [cbn; lia|]. cbn [genSteps ended].
  pose proof (step_writes h0 id n e h Hs) as H1. pose proof (step_state h0 id n e h Hn He Hs) as Hs'.
  destruct (genStep e h) as [h1 c1]. cbn [fst snd] in *. specialize (IH h1 Hs').
  destruct (genSteps es h1) as [h2 c2]. cbn [fst snd] in *. unfold writes in *. rewrite List.filter_app, length_app. lia.
Qed.

(** Something was stored, or the generation is over. *)
Definition has_record (h : Hook) : Prop := match run h with Some r => activeRecord r <> None | None => True end.

Lemma settle_has_record (i : nat) (r : Run) (h : Hook) : activeRecord r <> None -> has_record (settleRequest i r h).
Proof. intros Hr. unfold settleRequest, continueRun, has_record. by destruct (forallb _ _). Qed.

Lemma fail_has_record (i : nat) (e : Thrown) (d : option num) (r : Run) (h : Hook) :
  activeRecord r <> None -> has_record (failRequest i e d r h).
Proof. intros Hr. unfold failRequest. destruct (isAborted _ _), d; by apply settle_has_record. Qed.

Lemma queueCall_append (r : Run) : activeRecord r <> None -> Forall (fun c => is_store c = false) (queueCall r).
Proof.
  intros Hr. unfold queueCall, persistCall. destruct (queue r) as [|[i [|o os] d] q]; try done.
  destruct (activeRecord r); [|done]. by repeat constructor.
Qed.

Lemma step_append (e : GenEvent) (h : Hook) :
  has_record h -> has_record (fst (genStep e h)) /\ Forall (fun c => is_store c = false) (snd (genStep e h)).
Proof.
  intros Hs. pose proof Hs as Hh. unfold has_record in Hs.
  destruct e as [i data rid now|i error now|result|]; cbn [genStep].
  - unfold requestAnswered. destruct (run h) as [r|]; [|done]. destruct (requests r !! i) as [[t| |]|]; try done.
    destruct (imageOutputs _ data); cbn [fst snd]; [by split; [apply fail_has_record|]|]. split; [exact Hs|].
    destruct (queue _); [|done]. by apply queueCall_append.
  - unfold requestFailed. destruct (run h) as [r|]; [|done]. destruct (requests r !! i) as [[t| |]|]; try done.
    by split; [apply fail_has_record|].
  - unfold persistEnded. destruct (run h) as [r|]; [|done]. destruct (queue r) as [|[i [|o rest] d] q]; try done.
    destruct result as [stored|error]; [destruct rest as [|o' rest]|]; cbn [fst snd].
    + by split; [apply settle_has_record|apply queueCall_append].
    + split; [done|by apply queueCall_append].
    + by split; [apply fail_has_record|apply queueCall_append].
  - split; [|done]. unfold stopGeneration. by destruct (abortRef h).
Qed.

(** A generation that is stored is not stored again: the images that follow are
    appended to it. *)
Theorem stored_once (es : list GenEvent) (h : Hook) :
  has_record h -> Forall (fun c => is_store c = false) (snd (genSteps es h)).
Proof.
  revert h. induction es as [|e es IH]; intros h Hh; [done|]. cbn [genSteps].
  destruct (step_append e h Hh) as [H1 H2]. destruct (genStep e h) as [h1 c1]. cbn [fst snd] in *.
  specialize (IH h1 H1). destruct (genSteps es h1) as [h2 c2]. apply Forall_app. by split.
Qed.

(** ** Retries *)

(** How the retries of a batch ended: nothing, or the message of an error. *)
Definition Outcomes : Type := list (nat * option str).

Definition outcome (outs : Outcomes) (i : nat) : option (option str) := snd <$> find (fun o => Nat.eqb (fst o) i) outs.

(** The errors of a record after the outcomes of its retries. *)
Definition errors_after (errs : list str) (outs : Outcomes) : list str :=
  omap id (imap (fun i e => match outcome outs i with Some o => o | None => Some e end) errs).

Lemma outcome_cons (i j : nat) (o : option str) (outs : Outcomes) :
  outcome ((i, o) :: outs) j = if Nat.eqb i j then Some o else outcome outs j.
Proof. unfold outcome. cbn. by destruct (Nat.eqb i j). Qed.

Record batch_for (errs : list str) (id : str) (outs : Outcomes) (b : RetryBatch) : Prop := {
  bf_id : rb_recordId b = id;
  bf_errors : rb_errors b = imap (fun i e => Some (match outcome outs i with Some (Some m) => m | _ => e end)) errs;
  bf_successful : forall i, existsb (Nat.eqb i) (successfulIndexes b) = true <-> outcome outs i = Some None;
}.

Lemma imap_imap {A B C} (f : nat -> B -> C) (g : nat -> A -> B) (l : list A) :
  imap f (imap g l) = imap (fun i x => f i (g i x)) l.
Proof.
  revert f g. induction l as [|x l IH]; intros f g; [done|]. cbn. f_equal. apply (IH (f ∘ S) (g ∘ S)).
Qed.

Lemma remaining_errors (errs : list str) (id : str) (outs : Outcomes) (b : RetryBatch) :
  batch_for errs id outs b -> remainingErrors b = errors_after errs outs.
Proof.
  intros [_ He Hs]. unfold remainingErrors, errors_after. rewrite He, imap_imap. f_equal. apply imap_ext. intros i e _.
  specialize (Hs i). destruct (existsb _ _); [by rewrite (proj1 Hs)|].
  destruct (outcome outs i) as [[m|]|]; try done. discriminate (proj2 Hs eq_refl).
Qed.

Lemma batch_success (errs : list str) (id : str) (outs : Outcomes) (b : RetryBatch) (i : nat) (imgs : list GeneratedImage) :
  batch_for errs id outs b -> outcome outs i = None ->
  batch_for errs id ((i, None) :: outs)
    (MkBatch (rb_recordId b) (rb_errors b)
       (if existsb (Nat.eqb i) (successfulIndexes b) then successfulIndexes b else successfulIndexes b ++ [i]) imgs).
Proof.
  intros [Hi He Hs] Ho. split; cbn [rb_recordId rb_errors successfulIndexes]; [done| |].
  - rewrite He. apply imap_ext. intros j e _. rewrite outcome_cons. destruct (Nat.eqb_spec i j) as [<-|]; [|done]. by rewrite Ho.
  - intros j. rewrite outcome_cons. destruct (existsb (Nat.eqb i) (successfulIndexes b)) eqn:E.
    { apply Hs in E. congruence. }
    rewrite existsb_app. cbn [existsb]. rewrite orb_false_r, (Nat.eqb_sym j i). destruct (Nat.eqb i j) eqn:Ej.
    + rewrite orb_true_r. by split.
    + rewrite orb_false_r. apply Hs.
Qed.

Lemma insert_imap {A B} (f : nat -> A -> B) (i : nat) (y : B) (l : list A) :
  <[i := y]> (imap f l) = imap (fun j x => if Nat.eqb i j then y else f j x) l.
Proof.
  revert i f. induction l as [|x l IH]; intros i f; [done|]. destruct i as [|i]; cbn; [done|]. f_equal.
  exact (IH i (f ∘ S)).
Qed.

Lemma batch_failure (errs : list str) (id : str) (outs : Outcomes) (b : RetryBatch) (i : nat) (m : str) :
  batch_for errs id outs b -> outcome outs i = None -> (i < length errs)%nat ->
  batch_for errs id ((i, Some m) :: outs)
    (MkBatch (rb_recordId b) (set_error i m (rb_errors b)) (successfulIndexes b) (latestImages b)).
Proof.
  intros [Hi He Hs] Ho Hl. split; cbn [rb_recordId rb_errors successfulIndexes]; [done| |].
  - unfold set_error. rewrite He, length_imap, (proj2 (Nat.ltb_lt _ _) Hl), insert_imap. apply imap_ext. intros j e _.
    rewrite outcome_cons. by destruct (Nat.eqb i j).
  - intros j. rewrite outcome_cons. destruct (Nat.eqb_spec i j) as [<-|]; [|apply Hs]. split; [|done].
    intros Hj%Hs. congruence.
Qed.

(** The state of the retries of the record [id], whose errors were [errs] when the
    first of them started. *)
Record retry_wf (errs : list str) (id : str) (outs : Outcomes) (h : Hook) : Prop := {
  rw_set : retryingImageIndexes h = map rt_index (retries h);
  rw_shown : retryingImageErrorIndexes h = map rt_index (retries h);
  rw_nodup : NoDup (map rt_index (retries h));
  rw_each : Forall (fun t => r_id (rt_record t) = id /\ (rt_index t < length errs)%nat /\
                     outcome outs (rt_index t) = None /\ isAborted (rt_controller t) h = false) (retries h);
  rw_batch : match retries h with
             | [] => retryBatch h = None
             | _ => exists b, retryBatch h = Some b /\ batch_for errs id outs b
             end;
  rw_fresh : Forall (fun c => (c < nextController h)%nat) (aborted h);
  rw_records : outs <> [] ->
    imageErrors h = errors_after errs outs /\
    Forall (fun r => r_id r = id -> r_imageErrors r = Some (errors_after errs outs) /\
      failedImageCount r = Some (num_of_nat (length (errors_after errs outs)))) (history (hist h));
}.

Lemma filter_index (l : list Retry) (i : nat) :
  map rt_index (List.filter (fun t => negb (Nat.eqb i (rt_index t))) l) =
  List.filter (fun x => negb (Nat.eqb i x)) (map rt_index l).
Proof. induction l as [|t l IH]; [done|]. cbn. destruct (Nat.eqb i (rt_index t)); cbn; by rewrite IH. Qed.

Lemma NoDup_filter_bool {A} (p : A -> bool) (l : list A) : NoDup l -> NoDup (List.filter p l).
Proof.
  induction 1 as [|x l Hx _ IH]; [constructor|]. cbn. destruct (p x); [|done]. constructor; [|done].
  intros Hin. apply Hx, list_elem_of_In. apply list_elem_of_In, List.filter_In in Hin. tauto.
Qed.

Lemma patched_records (id : str) (imgs : option (list GeneratedImage)) (errors : list str) (x : History) :
  Forall (fun r => r_id r = id -> r_imageErrors r = Some errors /\ failedImageCount r = Some (num_of_nat (length errors)))
    (history (patchRecordLocally id (patch_errors imgs errors) x)).
Proof.
  apply List.Forall_forall. intros r Hr. cbn [history patchRecordLocally with_history] in Hr.
  apply in_map_iff in Hr as (r0 & <- & _). destruct (r_id r0 =?s id) eqn:E; [done|]. intros Hi. apply str_eqb_neq in E. congruence.
Qed.

(** A retry ends: its outcome is shown, and it is no longer pending. *)
Lemma finish_wf (errs : list str) (id : str) (outs : Outcomes) (i : nat) (o : option str) (b : RetryBatch)
    (imgs : option (list GeneratedImage)) (h : Hook) :
  retry_wf errs id outs h -> batch_for errs id ((i, o) :: outs) b ->
  retry_wf errs id ((i, o) :: outs) (finishRetry i (showBatch id b imgs h)).
Proof.
  intros [Hs Hsh Hnd He Hb Hf Hr] B. unfold finishRetry.
  cbn [retries with_retries showBatch setImageErrors with_hist with_batch retryingImageErrorIndexes retryingImageIndexes with_retrying].
  set (rs := List.filter _ (retries h)).
  assert (Hidx : List.filter (fun x => negb (Nat.eqb i x)) (map rt_index (retries h)) = map rt_index rs) by by rewrite <- filter_index.
  assert (Heach : Forall (fun t => r_id (rt_record t) = id /\ (rt_index t < length errs)%nat /\
                     outcome ((i, o) :: outs) (rt_index t) = None /\ isAborted (rt_controller t) h = false) rs).
  { apply List.Forall_forall. intros t Ht. unfold rs in Ht. apply List.filter_In in Ht as [Ht Hne].
    rewrite List.Forall_forall in He. destruct (He t Ht) as (H1 & H2 & H3 & H4). rewrite outcome_cons.
    apply negb_true_iff in Hne. by rewrite Hne. }
  assert (Hrec := patched_records id imgs (remainingErrors b) (hist h)). rewrite (remaining_errors _ _ _ _ B) in Hrec.
  rewrite Hs, Hsh, Hidx. assert (Hnd' : NoDup (map rt_index rs)) by (rewrite <- Hidx; by apply NoDup_filter_bool).
  destruct (map rt_index rs) eqn:Em.
  - assert (rs = []) as Hnil by by destruct rs. split; cbn; rewrite ?Hnil; try done.
    intros _. rewrite (remaining_errors _ _ _ _ B). by split.
  - split; cbn; try done.
    + by rewrite Em.
    + destruct rs; [done|]. by eexists.
    + intros _. rewrite (remaining_errors _ _ _ _ B). by split.
Qed.

Lemma find_retry (h : Hook) (i : nat) (t : Retry) :
  find (fun t => Nat.eqb (rt_index t) i) (retries h) = Some t -> In t (retries h) /\ rt_index t = i.
Proof.
  induction (retries h) as [|x l IH]; [done|]. cbn. destruct (Nat.eqb_spec (rt_index x) i) as [Hx|]; intros Hf.
  - injection Hf as <-. auto.
  - destruct (IH Hf). auto.
Qed.

Lemma success_wf (errs : list str) (id : str) (outs : Outcomes) (t : Retry) (stored : ImageStudioGenerationRecord) (h : Hook) :
  retry_wf errs id outs h -> In t (retries h) -> retry_wf errs id ((rt_index t, None) :: outs) (retrySucceeded t stored h).
Proof.
  intros W Ht. pose proof W as [_ _ _ He Hb _ _]. rewrite List.Forall_forall in He. destruct (He t Ht) as (Hid & _ & Ho & _).
  assert (exists b, retryBatch h = Some b /\ batch_for errs id outs b) as (b & Eb & B) by by destruct (retries h).
  unfold retrySucceeded. rewrite Eb, Hid, (bf_id _ _ _ _ B), str_eqb_refl. apply finish_wf; [done|].
  rewrite <- (bf_id _ _ _ _ B) at 2. by apply (batch_success errs id outs b).
Qed.

Lemma failure_wf (errs : list str) (id : str) (outs : Outcomes) (t : Retry) (e : Thrown) (h : Hook) :
  retry_wf errs id outs h -> In t (retries h) ->
  retry_wf errs id ((rt_index t, Some (extractApiErrorMessage e)) :: outs) (retryFailed t e h).
Proof.
  intros W Ht. pose proof W as [_ _ _ He Hb _ _]. rewrite List.Forall_forall in He. destruct (He t Ht) as (Hid & Hl & Ho & Ha).
  assert (exists b, retryBatch h = Some b /\ batch_for errs id outs b) as (b & Eb & B) by by destruct (retries h).
  unfold retryFailed. rewrite Ha, Eb, Hid, (bf_id _ _ _ _ B), str_eqb_refl. apply finish_wf; [done|].
  rewrite <- (bf_id _ _ _ _ B) at 2. by apply (batch_failure errs id outs b).
Qed.

(** What an event of the retry of an index decides. *)
Definition decided (i : nat) (e : RetryEvent) (h : Hook) : Outcomes :=
  match find (fun t => Nat.eqb (rt_index t) i) (retries h) with
  | None => []
  | Some t =>
      match e, rt_storing t with
      | RetryAnswered data, false =>
          if existsb (fun d => truthy_ostr (b64_json d) || truthy_ostr (url d)) (nullish data []) then []
          else [(i, Some (js "empty image response"))]
      | RetryStored _, true => [(i, None)]
      | RetryError e, _ => [(i, Some (extractApiErrorMessage e))]
      | _, _ => []
      end
  end.

Lemma find_existsb {A} (p : A -> bool) (l : list A) : existsb p l = match find p l with Some _ => true | None => false end.
Proof. induction l as [|x l IH]; [done|]. cbn. by destruct (p x). Qed.

(** An answer with an image changes the phase of its retry only. *)
Lemma storing_wf (errs : list str) (id : str) (outs : Outcomes) (t t' : Retry) (h : Hook) :
  retry_wf errs id outs h -> In t (retries h) ->
  rt_record t' = rt_record t -> rt_index t' = rt_index t -> rt_controller t' = rt_controller t ->
  retry_wf errs id outs (with_retries (map (fun x => if Nat.eqb (rt_index x) (rt_index t) then t' else x) (retries h)) h).
Proof.
  intros [Hs Hsh Hnd He Hb Hf Hr] Ht E1 E2 E3. set (upd := fun x => if Nat.eqb (rt_index x) (rt_index t) then t' else x).
  assert (Hidx : map rt_index (map upd (retries h)) = map rt_index (retries h)).
  { rewrite map_map. apply map_ext_in. intros x _. unfold upd. destruct (Nat.eqb_spec (rt_index x) (rt_index t)); congruence. }
  split; cbn [retries with_retries retryingImageIndexes retryingImageErrorIndexes retryBatch nextController aborted imageErrors hist];
    rewrite ?Hidx; try done.
  - rewrite List.Forall_forall in *. intros y Hy. apply in_map_iff in Hy as (x & <- & Hx). unfold upd.
    destruct (Nat.eqb (rt_index x) (rt_index t)); [|by apply He]. rewrite E1, E2, E3. by apply He.
  - destruct (retries h); [done|]. exact Hb.
Qed.

Lemma step_wf (errs : list str) (id : str) (outs : Outcomes) (i : nat) (e : RetryEvent) (h : Hook) :
  retry_wf errs id outs h -> retry_wf errs id (decided i e h ++ outs) (fst (retryStep i e h)).
Proof.
  intros W. unfold decided, retryStep. destruct (find _ (retries h)) as [t|] eqn:Et; [|done].
  apply find_retry in Et as [Ht <-]. destruct e as [data|stored|e], (rt_storing t); cbn [fst app]; try done.
  - rewrite find_existsb. destruct (find _ (nullish data [])) as [d|]; cbn [fst app].
    + by eapply storing_wf.
    + by apply (failure_wf errs id outs t (thrownError (js "empty image response"))).
  - by apply success_wf.
  - by apply failure_wf.
  - by apply failure_wf.
Qed.

Section retry_start.
Context {CM : CaseMapping}.

Lemma restore_family (record : GenerationRecord) (p : ImageStudioParameters) :
  restoreParametersFromRecord record = Some p -> resolveImageModelAdapter (r_model record) = Some (family p).
Proof.
  unfold restoreParametersFromRecord. destruct (resolveImageModelAdapter _) as [[]|]; [| |done];
    destruct (parameterSnapshot record) as [[]|]; by intros [= <-].
Qed.

(** A retry of another error of the record starts, before one of them has ended. *)
Lemma start_wf (errs : list str) (record : GenerationRecord) (i : nat) (h : Hook) :
  retry_wf errs (r_id record) [] h -> r_imageErrors record = Some errs -> (i < length errs)%nat ->
  retry_wf errs (r_id record) [] (fst (retryImage record i h)).
Proof.
  intros W He Hi. unfold retryImage. destruct (restoreParametersFromRecord record) as [p|] eqn:Ep; [|done].
  pose proof (restore_family record p Ep) as Hf. unfold getImageModelRuntimeLimits. rewrite Hf. cbn [fmap option_fmap option_map].
  destruct (_ && _); [done|]. destruct (existsb _ _) eqn:Eex; [done|].
  unfold buildImageGenerationPayload. cbn [c_model c_parameters]. rewrite Hf.
  assert (family (with_n (num_of_Z 1) p) = family p) as -> by by destruct p.
  rewrite (proj2 (family_eqb_eq _ _) eq_refl). cbn [negb]. cbv zeta. cbn [retryBatch with_retrying].
  destruct W as [Hs Hsh Hnd Hea Hb Hfr Hr].
  assert (Hni : i ∉ map rt_index (retries h)).
  { rewrite <- Hs. intros Hin%list_elem_of_In. apply not_true_iff_false in Eex. apply Eex, existsb_exists.
    exists i. by rewrite Nat.eqb_refl. }
  set (b0 := MkBatch (r_id record) (map Some (nullish (r_imageErrors record) (imageErrors h))) [] (images record)).
  assert (B0 : batch_for errs (r_id record) [] b0).
  { unfold b0. rewrite He. split; [done| |done]. cbn. clear. induction errs as [|e l IH]; [done|]. cbn. by rewrite IH. }
  assert (Hab : isAborted (nextController h) h = false).
  { apply not_true_iff_false. unfold isAborted. rewrite existsb_exists. intros (c & Hc & Ec%Nat.eqb_eq).
    rewrite List.Forall_forall in Hfr. specialize (Hfr c Hc). lia. }
  assert (Hfr' : Forall (fun c => (c < S (nextController h))%nat) (aborted h))
    by (eapply Forall_impl; [exact Hfr|]; cbn; lia).
  assert (exists b, (match retryBatch h with
                     | Some b => if rb_recordId b =?s r_id record then Some b else Some b0
                     | None => Some b0 end) = Some b /\ batch_for errs (r_id record) [] b) as (b & Eb & B).
  { destruct (retries h) eqn:Er.
    - rewrite Hb. by eexists.
    - destruct Hb as (b & -> & B). rewrite (bf_id _ _ _ _ B), str_eqb_refl. by eexists. }
  assert (Hgoal : forall h', retries h' = retries h -> retryingImageErrorIndexes h' = retryingImageErrorIndexes h ->
    retryingImageIndexes h' = retryingImageIndexes h ++ [i] -> retryBatch h' = Some b -> nextController h' = nextController h ->
    aborted h' = aborted h -> forall payload,
    retry_wf errs (r_id record) [] (with_retries (retries h' ++ [MkRetry record i (nextController h') p payload false])
      (with_retrying (retryingImageErrorIndexes (newController h') ++ [i]) (retryingImageIndexes (newController h')) (newController h')))).
  { intros h' E1 E2 E3 E4 E5 E6 payload. split; cbn [retries with_retries with_retrying newController retryingImageIndexes
      retryingImageErrorIndexes retryBatch nextController aborted]; rewrite ?E1, ?E2, ?E3, ?E4, ?E5, ?E6, ?map_app, ?Hs, ?Hsh; try done.
    - apply NoDup_app. split_and!; [done| |apply NoDup_singleton]. intros j Hj ->%list_elem_of_singleton. done.
    - apply Forall_app. unfold isAborted. cbn [aborted with_retries with_retrying newController]. rewrite E6. split; [exact Hea|].
      constructor; [|constructor]. split_and!; done.
    - destruct (retries h); by eexists. }
  cbn [fst]. destruct (retryBatch h) as [b1|] eqn:E1.
  - destruct (rb_recordId b1 =?s r_id record); injection Eb as Eb; subst b;
      match goal with |- context [newController ?x] => by apply (Hgoal x) end.
  - injection Eb as Eb. subst b. match goal with |- context [newController ?x] => by apply (Hgoal x) end.
Qed.

Definition startRetries (record : GenerationRecord) (idxs : list nat) (h : Hook) : Hook :=
  fold_left (fun h i => fst (retryImage record i h)) idxs h.

(** The events of the retries, and what they decide, the last one first. *)
Fixpoint retryRun (es : list (nat * RetryEvent)) (outs : Outcomes) (h : Hook) : Hook * Outcomes :=
  match es with
  | [] => (h, outs)
  | (i, e) :: es' => retryRun es' (decided i e h ++ outs) (fst (retryStep i e h))
  end.

Lemma start_all_wf (errs : list str) (record : GenerationRecord) (idxs : list nat) (h : Hook) :
  retry_wf errs (r_id record) [] h -> r_imageErrors record = Some errs -> Forall (fun i => (i < length errs)%nat) idxs ->
  retry_wf errs (r_id record) [] (startRetries record idxs h).
Proof.
  intros W He Hi. revert h W. induction Hi as [|i idxs Hi _ IH]; intros h W; [done|]. apply IH. by apply start_wf.
Qed.

Lemma run_wf (errs : list str) (id : str) (es : list (nat * RetryEvent)) (outs : Outcomes) (h : Hook) :
  retry_wf errs id outs h -> let '(h', outs') := retryRun es outs h in retry_wf errs id outs' h'.
Proof.
  revert outs h. induction es as [|[i e] es IH]; intros outs h W; [done|]. cbn [retryRun]. by apply IH, step_wf.
Qed.

(** No retry is under way. *)
Definition idle (h : Hook) : Prop :=
  retries h = [] /\ retryingImageIndexes h = [] /\ retryingImageErrorIndexes h = [] /\ retryBatch h = None /\
  Forall (fun c => (c < nextController h)%nat) (aborted h).

(** C10: Retries of errors of one record that start together end in any order: each one
    that succeeds removes its error, each one that fails replaces its message. *)
Theorem retries_settle (errs : list str) (record : GenerationRecord) (idxs : list nat) (es : list (nat * RetryEvent)) (h : Hook) :
  idle h -> r_imageErrors record = Some errs -> Forall (fun i => (i < length errs)%nat) idxs ->
  let '(h', outs) := retryRun es [] (startRetries record idxs h) in
  (outs <> [] ->
     imageErrors h' = errors_after errs outs /\
     Forall (fun r => r_id r = r_id record -> r_imageErrors r = Some (errors_after errs outs)) (history (hist h'))) /\
  retryingImageErrorIndexes h' = map rt_index (retries h') /\
  (retries h' = [] -> retryBatch h' = None /\ retryingImageIndexes h' = []).
Proof.
  intros (H1 & H2 & H3 & H4 & H5) He Hi.
  assert (W : retry_wf errs (r_id record) [] h).
  { split; rewrite ?H1, ?H2, ?H3; try done. constructor. }
  pose proof (run_wf errs (r_id record) es [] _ (start_all_wf errs record idxs h W He Hi)) as W'.
  destruct (retryRun es [] (startRetries record idxs h)) as [h' outs]. destruct W' as [Ws Wsh _ _ Wb _ Wr]. split_and!; [|done|].
  - intros Ho. destruct (Wr Ho) as [HA HB]. split; [done|]. eapply Forall_impl; [exact HB|]. cbn. naive_solver.
  - intros Hn. rewrite Hn in Wb, Ws. done.
Qed.

End retry_start.

(** ** What a retry sends *)

Section retry_request.
Context {CM : CaseMapping}.

(** A record of a generation with these arguments. *)
Definition record_of (a : GenerateArgs) (record : GenerationRecord) : Prop :=
  r_model record = c_model (ga_config a) /\ r_group record = c_group (ga_config a) /\ r_prompt record = ga_prompt a /\
  r_mode record = ga_mode a /\ parameterSnapshot record = Some (c_parameters (ga_config a)) /\
  r_referenceImages record = Some (ga_referenceImages a).

Lemma failed_record_of (r : Run) : record_of (run_args r) (failedRecord r).
Proof. by split_and!. Qed.

(** The server returns what it was given, less the parameters. *)
Definition echoes (r : Run) (stored : ImageStudioGenerationRecord) : Prop :=
  st_model stored = c_model (ga_config (run_args r)) /\ st_group stored = c_group (ga_config (run_args r)) /\
  st_prompt stored = ga_prompt (run_args r) /\ st_mode stored = ga_mode (run_args r) /\ st_parameter_snapshot stored = None.

Lemma completed_record_of (r : Run) (stored : ImageStudioGenerationRecord) (d d' : num) (errs : list str) :
  echoes r stored -> record_of (run_args r) (completedRecord (persistedRecord r stored d) errs d').
Proof.
  intros (H1 & H2 & H3 & H4 & H5). split_and!; cbn; try done. by rewrite H5.
Qed.

Lemma payload_with_n (n : num) (c : ImageStudioConfig) (prompt : str) (mode : StudioMode) (refs : list ReferenceImage) :
  buildImageGenerationPayload (MkConfig (c_group c) (c_model c) (with_n n (c_parameters c))) prompt mode refs =
  buildImageGenerationPayload c prompt mode refs.
Proof. unfold buildImageGenerationPayload. cbn [c_model c_group c_parameters]. by destruct (c_parameters c). Qed.

(** A retry sends the request of its generation again. *)
Theorem retry_repeats_request (a : GenerateArgs) (record : GenerationRecord) (payload : ImageGenerationPayload) (i : nat) (h : Hook) :
  record_of a record -> normalizeParameters (c_parameters (ga_config a)) = c_parameters (ga_config a) ->
  buildImageGenerationPayload (ga_config a) (ga_prompt a) (ga_mode a) (ga_referenceImages a) = Ok payload ->
  (ga_mode a = EditMode -> ga_referenceImages a <> []) -> existsb (Nat.eqb i) (retryingImageIndexes h) = false ->
  exists request, snd (retryImage record i h) = [request] /\
    forall now random h', exists k, snd (generate a now random h') = replicate k request.
Proof.
  intros (R1 & R2 & R3 & R4 & R5 & R6) Hnorm Hp Hrefs Hi.
  assert (Hf : resolveImageModelAdapter (c_model (ga_config a)) = Some (family (c_parameters (ga_config a)))).
  { revert Hp. unfold buildImageGenerationPayload. destruct (resolveImageModelAdapter _) as [f|]; [|done].
    destruct (family_eqb f _) eqn:E; [|done]. by apply family_eqb_eq in E as ->. }
  assert (Hr : restoreParametersFromRecord record = Some (c_parameters (ga_config a))).
  { unfold restoreParametersFromRecord. rewrite R1, Hf, R5. rewrite <- Hnorm at 2.
    by destruct (c_parameters (ga_config a)). }
  unfold retryImage, generate, getImageModelRuntimeLimits. rewrite Hr, Hp, R1, R2, R3, R4, R6, Hf. cbn [fmap option_fmap option_map nullish].
  assert (mode_eqb (ga_mode a) EditMode && match ga_referenceImages a with [] => true | _ => false end = false) as ->.
  { destruct (ga_mode a); [done|]. cbn. destruct (ga_referenceImages a); [by destruct Hrefs|done]. }
  rewrite Hi, payload_with_n, Hp. eexists. split; [reflexivity|]. intros now random h'. by eexists.
Qed.

End retry_request.

(** ** Witnesses *)

Section witnesses.
Local Existing Instance AsciiCase.

Local Definition args : GenerateArgs :=
  MkArgs (MkConfig DEFAULT_GROUP DEFAULT_IMAGE_MODEL (with_n (num_of_Z 2) (defaultParameters GptImage))) (js "cat") GenerateMode [].

Local Definition sentPayload : ImageGenerationPayload :=
  MkPayload DEFAULT_IMAGE_MODEL DEFAULT_GROUP (js "cat") None None None None (Some (js "png")) None None None None None.

Local Definition start : num := num_of_Z 1000.
Local Definition startId : str := num_to_string start ++ js "-" ++ js "r".

Local Definition storedOne : ImageStudioGenerationRecord :=
  MkStored startId start GenerateMode (js "cat") DEFAULT_IMAGE_MODEL DEFAULT_GROUP None auto None None (Some (js "png"))
    (num_of_Z 2) (num_of_Z 5) None None None None None
    [MkAsset (js "i") (js "/i") (js "image/png") (num_of_Z 1) None None None].

(** The second request fails; the image of the first one is stored. *)
Local Definition oneOfTwo : list GenEvent :=
  [Failed 1 (thrownError (js "e")) (num_of_Z 1200);
   Answered 0 (Some [MkData (Some (js "https://a/b.png")) None None]) (js "q") (num_of_Z 1500);
   WriteEnded (inl storedOne)].

Local Definition started : Hook := fst (generate args start (js "r") initialHook).


Lemma started_state : gen_state initialHook startId 2 started.
Proof.
  apply (generate_state args start (js "r") initialHook 2 sentPayload); [vm_compute; reflexivity|vm_compute; reflexivity|lia|].
  apply not_elem_of_nil.
Qed.


Lemma writes_serial_witness :
  (writing started + writes (snd (genSteps oneOfTwo started)) = ended oneOfTwo started + writing (fst (genSteps oneOfTwo started)))%nat /\
  writes (snd (genSteps oneOfTwo started)) = 1%nat.
Proof.
  split; [|vm_compute; reflexivity].
  apply (writes_serial initialHook startId 2 oneOfTwo started); [lia|repeat constructor|exact started_state].
Defined.

Lemma stored_once_witness : has_record initialHook /\ Forall (fun c => is_store c = false) (snd (genSteps oneOfTwo initialHook)).
Proof. split; [exact I|]. apply (stored_once oneOfTwo initialHook). exact I. Defined.

(** A record with two errors. *)
Local Definition failedTwice : GenerationRecord :=
  MkRecord startId start GenerateMode (js "cat") DEFAULT_IMAGE_MODEL DEFAULT_GROUP (Some (c_parameters (ga_config args))) auto None None
    (Some (js "png")) (num_of_Z 2) [] (Some (num_of_Z 2)) (Some [js "e0"; js "e1"]) None None None (Some []).

Local Definition withRecord : Hook := with_hist (addRecord failedTwice initialHistory) initialHook.

Local Definition retryEvents : list (nat * RetryEvent) :=
  [(1%nat, RetryError (thrownError (js "e2")));
   (0%nat, RetryAnswered (Some [MkData (Some (js "https://a/b.png")) None None])); (0%nat, RetryStored storedOne)].

Lemma retries_settle_witness :
  errors_after [js "e0"; js "e1"] [(0%nat, None); (1%nat, Some (js "e2"))] = [js "e2"] /\
  let '(h', outs) := retryRun retryEvents [] (startRetries failedTwice [0%nat; 1%nat] withRecord) in
  (outs <> [] ->
     imageErrors h' = errors_after [js "e0"; js "e1"] outs /\
     Forall (fun r => r_id r = r_id failedTwice -> r_imageErrors r = Some (errors_after [js "e0"; js "e1"] outs)) (history (hist h'))) /\
  retryingImageErrorIndexes h' = map rt_index (retries h') /\
  (retries h' = [] -> retryBatch h' = None /\ retryingImageIndexes h' = []).
Proof.
  split; [reflexivity|].
  apply (retries_settle [js "e0"; js "e1"] failedTwice [0%nat; 1%nat] retryEvents withRecord).
  - split_and!; try reflexivity. constructor.
  - reflexivity.
  - repeat constructor.
Defined.

Lemma retry_repeats_request_witness :
  exists request, snd (retryImage failedTwice 0 withRecord) = [request] /\
    forall now random h', exists k, snd (generate args now random h') = replicate k request.
Proof.
  apply (retry_repeats_request args failedTwice sentPayload 0 withRecord).
  - split_and!; reflexivity.
  - vm_compute. reflexivity.
  - vm_compute. reflexivity.
  - discriminate.
  - reflexivity.
Defined.

End witnesses.
