(* ===== verification/ImageStudio.v ===== *)
(** * The page of the image studio

    Models [src/web/src/features/image-studio/index.tsx], which puts together the
    configuration ([ImageParams]) and the generations with their history
    ([ImageGeneration]); what [components/result-grid.tsx] shows of them,
    the filter of [components/history-panel.tsx], the reference images and the
    progress of [components/generate-panel.tsx], and the names of files of
    [lib/image-utils.ts].

    An event of the page is a click, a text or an answer of the network; a control
    that is disabled or not shown does nothing. *)

From stdpp Require Import base list.
From Stdlib Require Import ZArith NArith Lia SpecFloat.
From S2P Require Import Prelude JsString JsArray JsNumber ImageParams ImageGeneration.

Local Open Scope Z_scope.

(** ** Files ([lib/image-utils.ts]) *)

(** [/^data:([^;,]+)/]. *)
Definition guessMimeFromDataUrl (s : str) : str :=
  if startsWith s "data:" then
    match fst (span (fun c => negb ((c =? 59)%N || (c =? 44)%N)) (drop 5 s)) with
    | [] => js "image/png"
    | mime => mime
    end
  else js "image/png".

Definition extensionForMime (mime : str) : str :=
  if includes mime "webp" then js "webp"
  else if includes mime "jpeg" || includes mime "jpg" then js "jpg"
  else if includes mime "gif" then js "gif"
  else js "png".

Definition extensionForOutputFormat (f : option str) : option str :=
  match f with
  | None => None
  | Some f =>
      if f =?s "webp" then Some (js "webp")
      else if (f =?s "jpeg") || (f =?s "jpg") then Some (js "jpg")
      else if f =?s "png" then Some (js "png")
      else None
  end.

Definition imageFileName (i : Z) (s : str) (f : option str) : str :=
  let ext := match extensionForOutputFormat f with
             | Some e => e
             | None => if startsWith s "data:" then extensionForMime (guessMimeFromDataUrl s) else js "png"
             end in
  js "image-" ++ string_of_Z (i + 1) ++ js "." ++ ext.

(** [downloadImagesAsZip]: the files of the archive and the number of images that
    are left out, given whether each image can be fetched; there is no archive when
    none can. *)
Definition downloadImagesAsZip (fetched : list (GeneratedImage * bool)) (f : option str) : option (list str) * nat :=
  let files : list str := omap (fun o => o) (imap (fun i (x : GeneratedImage * bool) => if snd x then Some (imageFileName (Z.of_nat i) (im_src (fst x)) f) else None) fetched) in
  let skipped := length (List.filter (fun x => negb (snd x)) fetched) in
  if (skipped =? length fetched)%nat then (None, skipped) else (Some files, skipped).

(** ** The grid of results ([result-grid.tsx]) *)

(** A frame of the grid; the retry of an error is of the whole generation or of an
    index. *)
Inductive Slot : Type :=
  | ImageSlot (image : GeneratedImage)
  | LoadingSlot
  | ErrorSlot (message : str) (retry : option nat) (disabled : bool).

Inductive Grid : Type :=
  | GridError (message : str)
  | GridEmpty
  | GridSlots (l : list Slot).

Definition formatImageFileSize (size : option num) : option str :=
  match size with
  | None => None
  | Some s =>
      if negb (truthy_num s) || num_le s num_zero then None
      else if num_lt s (num_of_Z (1024 * 1024)) then Some (toFixed (num_div s (num_of_Z 1024)) 1 ++ js " KB")
      else Some (toFixed (num_div s (num_of_Z (1024 * 1024))) 2 ++ js " MB")
  end.

(** The frames of the errors, those that are being retried as loading ones. *)
Definition errorSlots (retrying : list nat) (disabled : bool) (messages : list str) : list Slot :=
  imap (fun i m => if existsb (Nat.eqb i) retrying then LoadingSlot else ErrorSlot m (Some i) disabled) messages.

Definition ResultGrid (record : option GenerationRecord) (h : Hook) : Grid :=
  let pending := replicate (array_length (pendingImageCount h)) LoadingSlot in
  if truthy_ostr (generationError h) then GridError (nullish (generationError h) [])
  else
  match record with
  | None =>
      if isGenerating h || match imageErrors h with [] => false | _ => true end
      then GridSlots (map (fun m => ErrorSlot m None (isGenerating h)) (imageErrors h) ++ pending)
      else GridEmpty
  | Some r =>
      let visible := if isGenerating h then Some (imageErrors h) else r_imageErrors r in
      let generic := match visible with
                     | None => array_length (nullish (failedImageCount r) num_zero)
                     | Some _ => 0%nat
                     end in
      GridSlots (map ImageSlot (images r) ++ (if isGenerating h then pending else []) ++
        errorSlots (retryingImageErrorIndexes h) (isGenerating h) (nullish visible []) ++
        errorSlots (retryingImageErrorIndexes h) false (replicate generic (js "Image generation failed")))
  end.

(** ** The page ([index.tsx]) *)

Record Page : Type := MkPage {
  pg_state : StudioState;
  pg_hook : Hook;
  pg_mode : StudioMode;
  pg_prompt : str;
  pg_references : list ReferenceImage;
}.

Definition with_hook (h : Hook) (p : Page) : Page :=
  MkPage (pg_state p) h (pg_mode p) (pg_prompt p) (pg_references p).

Definition with_state (s : StudioState) (p : Page) : Page :=
  MkPage s (pg_hook p) (pg_mode p) (pg_prompt p) (pg_references p).

Definition setMode (m : StudioMode) (p : Page) : Page :=
  MkPage (pg_state p) (pg_hook p) m (pg_prompt p) (pg_references p).

Definition setPrompt (t : str) (p : Page) : Page :=
  MkPage (pg_state p) (pg_hook p) (pg_mode p) t (pg_references p).

Definition setReferenceImages (l : list ReferenceImage) (p : Page) : Page :=
  MkPage (pg_state p) (pg_hook p) (pg_mode p) (pg_prompt p) l.

(** The record that is shown. *)
Definition shownRecord (p : Page) : option GenerationRecord :=
  match activeRecordId (pg_hook p) with
  | None => None
  | Some id => find (fun r => r_id r =?s id) (history (hist (pg_hook p)))
  end.

Section page.
Context {CM : CaseMapping}.

Definition pageConfig (p : Page) : ImageStudioConfig := config (pg_state p).

Definition imageCountValid (limits : ImageModelRuntimeLimits) (n : num) : bool :=
  num_le (num_of_Z 1) n && num_le n (maxImages limits).

Definition referenceCountValid (limits : ImageModelRuntimeLimits) (refs : list ReferenceImage) : bool :=
  Z.of_nat (length refs) <=? maxReferenceImages limits.

Definition totalImageCountValid (limits : ImageModelRuntimeLimits) (mode : StudioMode) (refs : list ReferenceImage) (n : num)
    : bool :=
  match maxTotalImages limits with
  | None => true
  | Some m => negb (mode_eqb mode EditMode) || num_le (num_add (num_of_nat (length refs)) n) m
  end.

Definition canGenerate (p : Page) : bool :=
  let c := pageConfig p in
  match getImageModelRuntimeLimits (c_model c) with
  | None => false
  | Some limits =>
      negb (isGenerating (pg_hook p)) && truthy_str (c_model c) && truthy_str (trim (pg_prompt p)) &&
      isCustomSizeValid c && imageCountValid limits (p_n (c_parameters c)) &&
      referenceCountValid limits (pg_references p) &&
      totalImageCountValid limits (pg_mode p) (pg_references p) (p_n (c_parameters c)) &&
      (mode_eqb (pg_mode p) GenerateMode || match pg_references p with [] => false | _ => true end)
  end.

Definition canReset (p : Page) : bool :=
  truthy_str (pg_prompt p) || match pg_references p with [] => false | _ => true end ||
  match shownRecord p with Some _ => true | None => false end ||
  match generationError (pg_hook p) with Some _ => true | None => false end.

Definition PageStep : Type := Page * list Call.

Definition generateArgs (p : Page) : GenerateArgs :=
  MkArgs (pageConfig p) (trim (pg_prompt p)) (pg_mode p) (pg_references p).

Definition handleGenerate (now : num) (random : str) (p : Page) : PageStep :=
  if negb (canGenerate p) then (p, [])
  else
    let h := setGenerationError None (setActiveRecordId None (pg_hook p)) in
    let '(h, calls) := generate (generateArgs p) now random h in
    (with_hook h p, calls).

Definition handleRestore (record : GenerationRecord) (p : Page) : Page :=
  let p := with_hook (setGenerationError None (setActiveRecordId (Some (r_id record)) (pg_hook p))) p in
  let p := setReferenceImages (nullish (r_referenceImages record) []) (setMode (r_mode record) (setPrompt (r_prompt record) p)) in
  let s := stateStep (UpdateModel (r_model record)) (pg_state p) in
  let s := match parameterSnapshot record with Some snapshot => stateStep (UpdateParameters snapshot) s | None => s end in
  with_state s p.

(** The image is loaded as a data URL, or a message is shown. *)
Definition handleEditImage (loaded : option str) (now : num) (p : Page) : Page :=
  match loaded with
  | Some u => setReferenceImages [MkReference (num_to_string now ++ js "-edit") u (js "generated-image")] (setMode EditMode p)
  | None => p
  end.

(** The image that a change of mode loads. *)
Definition handleModeChange (nextMode : StudioMode) (p : Page) : Page * option GeneratedImage :=
  (setMode nextMode p,
   if mode_eqb nextMode EditMode && match pg_references p with [] => true | _ => false end
   then match shownRecord p with Some r => head (images r) | None => None end
   else None).

Definition handleDelete (id : str) (p : Page) : PageStep :=
  let h := pg_hook p in
  let h := match activeRecordId h with Some a => if id =?s a then setActiveRecordId None h else h | None => h end in
  let '(x, calls) := removeRecord id (hist h) in
  (with_hook (with_hist x h) p, calls).

Definition handleReset (p : Page) : Page :=
  setReferenceImages [] (setPrompt [] (with_hook (setGenerationError None (setActiveRecordId None (pg_hook p))) p)).

Definition handleClear (p : Page) : PageStep :=
  let h := setActiveRecordId None (pg_hook p) in
  let '(x, calls) := clearHistory (hist h) in
  (with_hook (with_hist x h) p, calls).

(** ** Reference images and progress ([generate-panel.tsx]) *)

(** A file and the reference image it is read as. *)
Record ImageFile : Type := MkFile { file_type : str; file_image : ReferenceImage }.

(** [addFiles]: [None] where the message about the limit is shown. *)
Definition addFiles (files : list ImageFile) (p : Page) : option (list ReferenceImage) :=
  let maxRefs := match getImageModelRuntimeLimits (c_model (pageConfig p)) with Some l => maxReferenceImages l | None => 0 end in
  match List.filter (fun f => startsWith (file_type f) "image/") files with
  | [] => Some (pg_references p)
  | imageFiles =>
      let remaining := maxRefs - Z.of_nat (length (pg_references p)) in
      if remaining <=? 0 then None
      else Some (pg_references p ++ map file_image (slice imageFiles 0 remaining))
  end.

Definition removeReference (id : str) (p : Page) : Page :=
  setReferenceImages (List.filter (fun r => negb (ref_id r =?s id)) (pg_references p)) p.

Definition progressValue (generating : bool) (elapsed estimate : num) : num :=
  if generating
  then num_min (num_mul (num_div elapsed (num_max estimate (num_of_Z 1000))) (num_of_Z 100)) (num_of_Z 95)
  else num_zero.

(** ** The history panel ([history-panel.tsx]) *)

Definition visibleHistory (keyword : str) (favoritesOnly : bool) (l : list GenerationRecord) : list GenerationRecord :=
  let lower := toLowerCase (trim keyword) in
  List.filter (fun r =>
    if favoritesOnly && negb (truthy_ob (favorite r)) then false
    else if negb (truthy_str lower) then true
    else includes (toLowerCase (r_prompt r)) lower || includes (toLowerCase (r_model r)) lower) l.

(** ** Events *)

Inductive PageEvent : Type :=
  | ConfigEvent (e : StateEvent)
  | TypePrompt (t : str)
  | ChangeMode (m : StudioMode)
  | AddReferences (files : list ImageFile)
  | RemoveReference (id : str)
  | EditImage (loaded : option str) (now : num)
  | ClickGenerate (now : num) (random : str)
  | ClickStop
  | ClickReset
  | ClickRetry (i : nat)
  | ClickRecord (id : str)
  | ClickDelete (id : str)
  | ClickClear
  | ClickFavorite (id : str)
  | Network (e : GenEvent)
  | RetryNetwork (i : nat) (e : RetryEvent)
  | LogsOf (k : nat) (logs : list (option GenerationLogInfo))
  | HistoryArrived (answer : option (str * ApiEnvelope (list ImageStudioGenerationRecord))).

(** The controls of the panel of parameters are disabled during a generation, the
    menus of the group and of the model also while the models are fetched. *)
Definition configEnabled (e : StateEvent) (p : Page) : bool :=
  match e with
  | UpdateGroup _ | UpdateModel _ => negb (isGenerating (pg_hook p)) && negb (isLoadingModels (pg_state p))
  | UpdateParameters _ => false
  | UseControl _ => negb (isGenerating (pg_hook p))
  | GroupsLoaded _ | ModelsLoaded _ _ => true
  end.

Definition is_retry (i : nat) (s : Slot) : bool :=
  match s with ErrorSlot _ (Some j) false => Nat.eqb i j | _ => false end.

(** Whether the grid has a button that retries the index. *)
Definition retryEnabled (i : nat) (p : Page) : bool :=
  match ResultGrid (shownRecord p) (pg_hook p) with GridSlots l => existsb (is_retry i) l | _ => false end.

Definition pageStep (e : PageEvent) (p : Page) : PageStep :=
  let h := pg_hook p in
  let idle := negb (isGenerating h) in
  let on (b : bool) (p' : Page) : PageStep := (if b then p' else p, []) in
  match e with
  | ConfigEvent e => on (configEnabled e p) (with_state (stateStep e (pg_state p)) p)
  | TypePrompt t => on idle (setPrompt t p)
  | ChangeMode m => on idle (fst (handleModeChange m p))
  | AddReferences files =>
      on (mode_eqb (pg_mode p) EditMode) (match addFiles files p with Some l => setReferenceImages l p | None => p end)
  | RemoveReference id => on (mode_eqb (pg_mode p) EditMode) (removeReference id p)
  | EditImage loaded now => (handleEditImage loaded now p, [])
  | ClickGenerate now random => handleGenerate now random p
  | ClickStop => on (isGenerating h) (with_hook (stopGeneration h) p)
  | ClickReset => on (idle && canReset p) (handleReset p)
  | ClickRetry i =>
      if retryEnabled i p then
        match shownRecord p with
        | Some r => let '(h', calls) := retryImage r i h in (with_hook h' p, calls)
        | None => (p, [])
        end
      else (p, [])
  | ClickRecord id =>
      match find (fun r => r_id r =?s id) (history (hist h)) with
      | Some r => on idle (handleRestore r p)
      | None => (p, [])
      end
  | ClickDelete id => if idle then handleDelete id p else (p, [])
  | ClickClear => if idle then handleClear p else (p, [])
  | ClickFavorite id =>
      if idle then let '(x, calls) := toggleFavorite id (hist h) in (with_hook (with_hist x h) p, calls) else (p, [])
  | Network Stop => (p, [])
  | Network e => let '(h', calls) := genStep e h in (with_hook h' p, calls)
  | RetryNetwork i e => let '(h', calls) := retryStep i e h in (with_hook h' p, calls)
  | LogsOf k logs => let '(h', calls) := logsArrived k logs h in (with_hook h' p, calls)
  | HistoryArrived a => (if isLoadingHistory (hist h) then with_hook (with_hist (historyLoaded a (hist h)) h) p else p, [])
  end.

Definition initialPage : Page := MkPage initialState initialHook GenerateMode [] [].

Fixpoint pageRun (es : list PageEvent) (p : Page) : PageStep :=
  match es with
  | [] => (p, [])
  | e :: es' =>
      let '(p1, c1) := pageStep e p in
      let '(p2, c2) := pageRun es' p1 in
      (p2, c1 ++ c2)
  end.

Inductive PageReachable : Page -> Prop :=
  | page_initial : PageReachable initialPage
  | page_step p e : PageReachable p -> PageReachable (fst (pageStep e p)).

End page.
