(* ===== verification/ImageStudioLaws.v ===== *)
(** * Laws of the page of the image studio

    Proofs about [ImageStudio]: a click on the button of a generation starts the
    requests it shows; a record that is clicked is restored; the button that stops a
    generation reaches it unless a retry was under way when it began; what the
    retries and the records of the server lose. *)

From stdpp Require Import base list.
From Stdlib Require Import ZArith NArith Lia SpecFloat.
From S2P Require Import Prelude JsString JsArray JsNumber ImageParams ImageParamsLaws ImageGeneration ImageGenerationLaws ImageStudio.

Local Open Scope Z_scope.

Section page.
Context {CM : CaseMapping}.

(** ** The invariant of the page *)

(** A generation is under way exactly when the page says so. *)
Definition hook_wf (h : Hook) : Prop := isGenerating h = match run h with Some _ => true | None => false end.

Definition page_wf (p : Page) : Prop := state_wf (pg_state p) /\ hook_wf (pg_hook p).

Lemma continue_hook (r : Run) (h : Hook) : isGenerating h = true -> hook_wf (continueRun r h).
Proof. intros Hg. unfold continueRun, hook_wf. by destruct (forallb _ _). Qed.

Lemma settle_hook (i : nat) (r : Run) (h : Hook) : isGenerating h = true -> hook_wf (settleRequest i r h).
Proof. intros Hg. by apply continue_hook. Qed.

Lemma fail_hook (i : nat) (e : Thrown) (d : option num) (r : Run) (h : Hook) :
  isGenerating h = true -> hook_wf (failRequest i e d r h).
Proof. intros Hg. unfold failRequest. by destruct (isAborted _ _), d; apply settle_hook. Qed.

Lemma genStep_hook (e : GenEvent) (h : Hook) : hook_wf h -> hook_wf (fst (genStep e h)).
Proof.
  intros Hh. destruct e as [i data rid now|i error now|result|]; cbn [genStep].
  - unfold requestAnswered. destruct (run h) as [r|] eqn:Er; [|done].
    assert (Hg : isGenerating h = true) by by rewrite Hh, Er. destruct (requests r !! i) as [[t| |]|]; try done.
    destruct (imageOutputs _ data); cbn [fst]; [by apply fail_hook|exact Hg].
  - unfold requestFailed. destruct (run h) as [r|] eqn:Er; [|done].
    assert (Hg : isGenerating h = true) by by rewrite Hh, Er. destruct (requests r !! i) as [[t| |]|]; try done. by apply fail_hook.
  - unfold persistEnded. destruct (run h) as [r|] eqn:Er; [|done].
    assert (Hg : isGenerating h = true) by by rewrite Hh, Er. destruct (queue r) as [|[i [|o rest] d] q]; try done.
    destruct result as [stored|error]; [|by apply fail_hook].
    destruct rest; cbn [fst]; destruct (activeRecord r); try exact Hg; by apply settle_hook.
  - unfold stopGeneration. by destruct (abortRef h).
Qed.

(** The parts of the state that the retries do not touch. *)
Lemma finishRetry_run (i : nat) (h : Hook) :
  run (finishRetry i h) = run h /\ isGenerating (finishRetry i h) = isGenerating h.
Proof. unfold finishRetry. cbv zeta. by destruct (retryingImageIndexes _). Qed.

Lemma retryStep_run (i : nat) (e : RetryEvent) (h : Hook) :
  run (fst (retryStep i e h)) = run h /\ isGenerating (fst (retryStep i e h)) = isGenerating h.
Proof.
  assert (Hfail : forall t er, run (retryFailed t er h) = run h /\ isGenerating (retryFailed t er h) = isGenerating h).
  { intros t er. unfold retryFailed. cbv zeta. match goal with |- run (finishRetry ?i ?x) = _ /\ _ => destruct (finishRetry_run i x) as [-> ->] end.
    destruct (isAborted _ _); [done|]. destruct (retryBatch h) as [b|]; [|done]. by destruct (_ =?s _). }
  unfold retryStep. destruct (find _ (retries h)) as [t|]; [|done]. destruct e, (rt_storing t); cbn [fst]; try done; try apply Hfail.
  - destruct (find _ (nullish data [])); [done|apply Hfail].
  - unfold retrySucceeded. cbv zeta. match goal with |- run (finishRetry ?i ?x) = _ /\ _ => destruct (finishRetry_run i x) as [-> ->] end.
    destruct (retryBatch h) as [b|]; [|done]. by destruct (_ =?s _).
Qed.

Lemma retryImage_run (record : GenerationRecord) (i : nat) (h : Hook) :
  run (fst (retryImage record i h)) = run h /\ isGenerating (fst (retryImage record i h)) = isGenerating h.
Proof.
  unfold retryImage. destruct (restoreParametersFromRecord record), (getImageModelRuntimeLimits (r_model record)); try done.
  destruct (_ && _); [done|]. destruct (existsb _ _); [done|]. cbv zeta. cbn [retryBatch with_retrying].
  destruct (buildImageGenerationPayload _ _ _ _); destruct (retryBatch h) as [b|]; try done; by destruct (_ =?s _).
Qed.

Lemma logsArrived_run (k : nat) (logs : list (option GenerationLogInfo)) (h : Hook) :
  run (fst (logsArrived k logs h)) = run h /\ isGenerating (fst (logsArrived k logs h)) = isGenerating h.
Proof.
  unfold logsArrived. destruct (timers h !! k); [|done]. cbv zeta. destruct (omap id logs); [done|].
  destruct (sum_logs _) as [[]]. by destruct (patchRecord _ _ _).
Qed.

Lemma generate_hook (a : GenerateArgs) (now : num) (random : str) (h : Hook) :
  hook_wf h -> hook_wf (fst (generate a now random h)).
Proof.
  intros Hh. unfold generate. destruct (buildImageGenerationPayload _ _ _ _); [|done].
  destruct (getImageModelRuntimeLimits _); [|done]. by apply continue_hook.
Qed.

Lemma pageStep_wf (e : PageEvent) (p : Page) : page_wf p -> page_wf (fst (pageStep e p)).
Proof.
  intros [Hs Hh]. destruct e; cbn [pageStep fst].
  - destruct (configEnabled e p); [|done]. split; [by apply stateStep_wf|done].
  - by destruct (negb _).
  - by destruct (negb _).
  - destruct (mode_eqb _ _); [|done]. by destruct (addFiles files p).
  - by destruct (mode_eqb _ _).
  - by destruct loaded.
  - unfold handleGenerate. destruct (negb (canGenerate p)); [done|].
    match goal with |- context [generate ?a ?n ?r ?h] => pose proof (generate_hook a n r h Hh) as Hg; destruct (generate a n r h) end.
    by split.
  - destruct (isGenerating _); [|done]. split; [done|]. exact (genStep_hook Stop _ Hh).
  - by destruct (_ && _).
  - destruct (retryEnabled i p); [|done]. destruct (shownRecord p) as [r|]; [|done].
    destruct (retryImage_run r i (pg_hook p)) as [H1 H2]. destruct (retryImage r i (pg_hook p)) as [h' c]. cbn [fst] in *.
    split; [done|]. unfold hook_wf in *. cbn. by rewrite H1, H2.
  - destruct (find _ _) as [r|]; [|done]. cbn [fst]. destruct (negb _); [|done]. split; [|exact Hh].
    unfold handleRestore. cbn [pg_state with_state]. destruct (parameterSnapshot r); repeat apply stateStep_wf; exact Hs.
  - destruct (negb _); [|done]. unfold handleDelete. cbv zeta. cbn [fst removeRecord].
    destruct (activeRecordId _); [|done]. by destruct (_ =?s _).
  - by destruct (negb _).
  - destruct (negb _); [|done]. by destruct (toggleFavorite id _).
  - assert (page_wf (let '(h', calls) := genStep e (pg_hook p) in (with_hook h' p, calls)).1) as He.
    { pose proof (genStep_hook e (pg_hook p) Hh). destruct (genStep e (pg_hook p)). by split. }
    by destruct e.
  - destruct (retryStep_run i e (pg_hook p)) as [H1 H2]. destruct (retryStep i e (pg_hook p)) as [h' c]. cbn [fst] in *.
    split; [done|]. unfold hook_wf in *. cbn. by rewrite H1, H2.
  - destruct (logsArrived_run k logs (pg_hook p)) as [H1 H2]. destruct (logsArrived k logs (pg_hook p)) as [h' c]. cbn [fst] in *.
    split; [done|]. unfold hook_wf in *. cbn. by rewrite H1, H2.
  - by destruct (isLoadingHistory _).
Qed.

Lemma page_reachable_wf (p : Page) : PageReachable p -> page_wf p.
Proof.
  induction 1 as [|p e _ IH]; [|by apply pageStep_wf]. split; [|done]. apply reachable_wf. constructor.
Qed.

(** ** Starting a generation *)

Lemma canGenerate_model (p : Page) :
  canGenerate p = true ->
  isGenerating (pg_hook p) = false /\ c_model (pageConfig p) <> [] /\ trim (pg_prompt p) <> [] /\
  isCustomSizeValid (pageConfig p) = true /\ (pg_mode p = EditMode -> pg_references p <> []).
Proof.
  unfold canGenerate. destruct (getImageModelRuntimeLimits _) as [l|]; [|done]. intros H. js_simp. split_and!; try done.
  intros Hm. rewrite Hm in *. by destruct (pg_references p).
Qed.

Lemma generate_started (p : Page) (now : num) (random : str) (n : nat) :
  PageReachable p -> canGenerate p = true ->
  p_n (c_parameters (pageConfig p)) = num_of_nat n -> (1 <= n <= 8)%nat ->
  num_to_string now ++ js "-" ++ random ∉ map r_id (history (hist (pg_hook p))) ->
  run (pg_hook p) = None /\
  exists payload edits,
    buildImageGenerationPayload (pageConfig p) (trim (pg_prompt p)) (pg_mode p) (pg_references p) = Ok payload /\
    snd (handleGenerate now random p) = replicate n (CallSend edits payload) /\
    let h := pg_hook (fst (handleGenerate now random p)) in
    isGenerating h = true /\ pendingImageCount h = num_of_nat n /\ imageErrors h = [] /\
    activeRecordId h = None /\ abortRef h = Some (nextController (pg_hook p)).
Proof.
  intros [[[Hm|Hm] _] Hh]%page_reachable_wf Hcan Hn Hr Hf; destruct (canGenerate_model p Hcan) as (Hg & Hne & _ & _ & _); [done|].
  split. { unfold hook_wf in Hh. rewrite Hg in Hh. by destruct (run (pg_hook p)). }
  unfold pageConfig in *.
  destruct (buildImageGenerationPayload (config (pg_state p)) (trim (pg_prompt p)) (pg_mode p) (pg_references p)) as [payload|] eqn:Ep.
  2: { revert Ep. unfold buildImageGenerationPayload. rewrite Hm, (proj2 (family_eqb_eq _ _) eq_refl). done. }
  set (h1 := setGenerationError None (setActiveRecordId None (pg_hook p))).
  destruct (generate_run (generateArgs p) now random h1 n payload Ep Hn Hr) as [edits Hc]. apply (f_equal snd) in Hc.
  exists payload, edits. split; [done|]. unfold handleGenerate. rewrite Hcan. cbn [negb]. cbv zeta. fold h1.
  destruct (generate (generateArgs p) now random h1) as [h' calls] eqn:Eg. cbn [fst snd pg_hook with_hook] in *.
  split; [done|]. clear Hc. revert Eg. unfold generate. cbn [ga_config ga_prompt ga_mode ga_referenceImages generateArgs].
  unfold pageConfig. rewrite Ep. unfold getImageModelRuntimeLimits. rewrite Hm. cbn [fmap option_fmap option_map].
  rewrite Hn, (clamp_id (family _)) by by apply count_possible. rewrite count_length by lia.
  unfold continueRun. cbn [requests]. destruct n as [|n]; [lia|]. cbn [replicate forallb settled andb].
  intros [= <- _]. done.
Qed.

(** A click on the button sends the requests it asks for, to which the generation
    then waits: it never throws, and nothing else is under way. *)
Theorem generate_click (p : Page) (now : num) (random : str) (n : nat) :
  PageReachable p -> canGenerate p = true ->
  p_n (c_parameters (pageConfig p)) = num_of_nat n -> (1 <= n <= 8)%nat ->
  num_to_string now ++ js "-" ++ random ∉ map r_id (history (hist (pg_hook p))) ->
  run (pg_hook p) = None /\
  exists payload edits,
    buildImageGenerationPayload (pageConfig p) (trim (pg_prompt p)) (pg_mode p) (pg_references p) = Ok payload /\
    snd (handleGenerate now random p) = replicate n (CallSend edits payload) /\
    let h := pg_hook (fst (handleGenerate now random p)) in
    isGenerating h = true /\ pendingImageCount h = num_of_nat n /\ imageErrors h = [] /\
    activeRecordId h = None /\ abortRef h = Some (nextController (pg_hook p)).
Proof. apply generate_started. Qed.

(** ** Restoring a record *)

(** A record of the page is restored as it was made. *)
Theorem restore_record (p : Page) (r : GenerationRecord) (s : ImageStudioParameters) :
  resolveImageModelAdapter (r_model r) = Some (family s) -> parameterSnapshot r = Some s ->
  let p' := handleRestore r p in
  c_model (pageConfig p') = r_model r /\ c_parameters (pageConfig p') = s /\ c_group (pageConfig p') = c_group (pageConfig p) /\
  pg_prompt p' = r_prompt r /\ pg_mode p' = r_mode r /\ pg_references p' = nullish (r_referenceImages r) [] /\
  activeRecordId (pg_hook p') = Some (r_id r).
Proof.
  intros Hm Hs p'. unfold p', handleRestore. rewrite Hs. unfold pageConfig.
  cbn [pg_state with_state pg_hook pg_prompt pg_mode pg_references setReferenceImages setMode setPrompt with_hook].
  assert (Hc : config (stateStep (UpdateParameters s) (stateStep (UpdateModel (r_model r)) (pg_state p))) =
               MkConfig (c_group (config (pg_state p))) (r_model r) s).
  { assert (Hcfg : forall e st, config (stateStep e st) = config (stateEvent e st)).
    { intros e st. unfold stateStep, groupEffect. by destruct (_ =?s _). }
    rewrite Hcfg. cbn [stateEvent]. unfold updateParameters. rewrite !Hcfg. cbn [stateEvent].
    assert (exists q, config (updateModel (r_model r) (pg_state p)) = MkConfig (c_group (config (pg_state p))) (r_model r) q) as [q Hq].
    { unfold updateModel. rewrite Hm. cbv zeta. unfold cachedOrDefault, createDefaultParametersForModel. rewrite Hm.
      cbn [fmap option_fmap option_map]. destruct (cache_get _ _) as [q|]; [destruct (family_eqb _ _)|]; by eexists. }
    rewrite Hq. cbn [c_model]. rewrite Hm, (proj2 (family_eqb_eq _ _) eq_refl). cbn [negb config with_config set_model c_group].
    by rewrite ?Hcfg, ?Hq. }
  by rewrite Hc.
Qed.

(** ** Stopping a generation *)

(** The button reaches the requests of the generation. *)
Definition stoppable (c : nat) (h : Hook) : Prop :=
  exists r, run h = Some r /\ run_controller r = c /\ retries h = [] /\ abortRef h = Some c.

Lemma continue_stoppable (c : nat) (r : Run) (h : Hook) :
  run_controller r = c -> retries h = [] -> abortRef h = Some c -> run (continueRun r h) <> None -> stoppable c (continueRun r h).
Proof. intros Hc Hr Ha. unfold continueRun. destruct (forallb _ _); [done|]. intros _. by exists r. Qed.

Lemma fail_stoppable (c i : nat) (e : Thrown) (d : option num) (r : Run) (h : Hook) :
  run_controller r = c -> retries h = [] -> abortRef h = Some c -> run (failRequest i e d r h) <> None ->
  stoppable c (failRequest i e d r h).
Proof. intros Hc Hr Ha. unfold failRequest. destruct (isAborted _ _), d; by apply continue_stoppable. Qed.

Lemma genStep_stoppable (c : nat) (e : GenEvent) (h : Hook) :
  stoppable c h -> run (fst (genStep e h)) <> None -> stoppable c (fst (genStep e h)).
Proof.
  intros Hs. pose proof Hs as (r & Er & Hc & Hr & Ha). destruct e as [i data rid now|i error now|result|]; cbn [genStep].
  - unfold requestAnswered. rewrite Er. destruct (requests r !! i) as [[t| |]|]; try done.
    destruct (imageOutputs _ data); cbn [fst]; [by apply fail_stoppable|]. intros _. by eexists.
  - unfold requestFailed. rewrite Er. destruct (requests r !! i) as [[t| |]|]; try done. by apply fail_stoppable.
  - unfold persistEnded. rewrite Er. destruct (queue r) as [|[i [|o rest] d] q]; try done.
    destruct result as [stored|error]; [|by apply fail_stoppable].
    destruct rest; cbn [fst]; destruct (activeRecord r); try (by apply continue_stoppable); intros _; by eexists.
  - intros _. unfold stopGeneration. rewrite Ha. by exists r.
Qed.

(** During a generation no error can be retried. *)
Lemma errorSlots_disabled (i : nat) (retrying : list nat) (l : list str) :
  existsb (is_retry i) (errorSlots retrying true l) = false.
Proof.
  apply not_true_iff_false. rewrite existsb_exists. intros (s & Hs & Hi). apply list_elem_of_In in Hs. unfold errorSlots in Hs.
  apply elem_of_lookup_imap in Hs as (j & m & -> & _). by destruct (existsb _ retrying).
Qed.

Lemma existsb_none {A} (f : A -> bool) (l : list A) : (forall x, In x l -> f x = false) -> existsb f l = false.
Proof. intros Hl. apply not_true_iff_false. rewrite existsb_exists. intros (x & Hx & Hf). rewrite Hl in Hf; done. Qed.

Lemma retry_disabled (i : nat) (p : Page) : isGenerating (pg_hook p) = true -> retryEnabled i p = false.
Proof.
  intros Hg. unfold retryEnabled, ResultGrid. destruct (truthy_ostr _); [done|]. rewrite Hg. cbn [orb].
  assert (Hl : forall k, existsb (is_retry i) (replicate k LoadingSlot) = false).
  { intros k. apply existsb_none. intros x Hx%list_elem_of_In. by apply elem_of_replicate in Hx as [-> _]. }
  destruct (shownRecord p) as [r|].
  - cbn [nullish replicate]. rewrite !existsb_app, Hl, errorSlots_disabled. cbn. rewrite orb_false_r.
    apply existsb_none. intros x Hx. by apply in_map_iff in Hx as (y & <- & _).
  - rewrite existsb_app, Hl, orb_false_r. apply existsb_none. intros x Hx. by apply in_map_iff in Hx as (y & <- & _).
Qed.

Lemma logsArrived_stoppable (c k : nat) (logs : list (option GenerationLogInfo)) (h : Hook) :
  stoppable c h -> stoppable c (fst (logsArrived k logs h)).
Proof.
  intros (r & Er & Hc & Hr & Ha). unfold logsArrived. destruct (timers h !! k); [|by exists r]. cbv zeta.
  destruct (omap id logs); [by exists r|]. destruct (sum_logs _) as [[]]. destruct (patchRecord _ _ _). by exists r.
Qed.

Lemma pageStep_stoppable (c : nat) (e : PageEvent) (p : Page) :
  page_wf p -> stoppable c (pg_hook p) -> run (pg_hook (fst (pageStep e p))) <> None -> stoppable c (pg_hook (fst (pageStep e p))).
Proof.
  intros [_ Hh] Hs. pose proof Hs as (r & Er & Hc & Hr & Ha).
  assert (Hg : isGenerating (pg_hook p) = true) by by rewrite Hh, Er.
  destruct e; cbn [pageStep fst]; rewrite ?Hg; cbn [negb andb]; try done.
  - by destruct (configEnabled e p).
  - destruct (mode_eqb _ _); [|done]. by destruct (addFiles files p).
  - by destruct (mode_eqb _ _).
  - by destruct loaded.
  - unfold handleGenerate. assert (canGenerate p = false) as ->; [|done]. apply not_true_iff_false. intros Hcan.
    destruct (canGenerate_model p Hcan). congruence.
  - exact (genStep_stoppable c Stop _ Hs).
  - by rewrite retry_disabled.
  - by destruct (find _ _).
  - assert (run (pg_hook (let '(h', calls) := genStep e (pg_hook p) in (with_hook h' p, calls)).1) <> None ->
      stoppable c (pg_hook (let '(h', calls) := genStep e (pg_hook p) in (with_hook h' p, calls)).1)) as He.
    { pose proof (genStep_stoppable c e (pg_hook p) Hs) as H1. by destruct (genStep e (pg_hook p)). }
    by destruct e.
  - unfold retryStep. by rewrite Hr.
  - intros _. pose proof (logsArrived_stoppable c k logs _ Hs). by destruct (logsArrived k logs (pg_hook p)).
  - intros _. destruct (isLoadingHistory _); [|done]. by exists r.
Qed.

(** What the page goes through while the generation is under way. *)
Inductive During (p : Page) : Page -> Prop :=
  | during_start : During p p
  | during_step q e : During p q -> run (pg_hook (fst (pageStep e q))) <> None -> During p (fst (pageStep e q)).

(** C11: A generation that starts while no retry is under way can be stopped at any time:
    the button aborts its requests and its writes. *)
Theorem stop_reaches (p : Page) (now : num) (random : str) (n : nat) (q : Page) :
  PageReachable p -> canGenerate p = true -> retries (pg_hook p) = [] ->
  p_n (c_parameters (pageConfig p)) = num_of_nat n -> (1 <= n <= 8)%nat ->
  num_to_string now ++ js "-" ++ random ∉ map r_id (history (hist (pg_hook p))) ->
  During (fst (pageStep (ClickGenerate now random) p)) q ->
  isAborted (nextController (pg_hook p)) (pg_hook (fst (pageStep ClickStop q))) = true.
Proof.
  intros Hp Hcan Hret Hn Hr Hf Hd. set (c := nextController (pg_hook p)).
  destruct (generate_started p now random n Hp Hcan Hn Hr Hf) as (_ & payload & edits & Hpl & _ & Hg & _ & _ & _ & Ha).
  assert (Hstart : page_wf (fst (pageStep (ClickGenerate now random) p)) /\ stoppable c (pg_hook (fst (pageStep (ClickGenerate now random) p)))).
  { assert (W := page_reachable_wf _ (page_step p (ClickGenerate now random) Hp)). split; [exact W|].
    destruct W as [_ Hh]. cbn [pageStep] in *. unfold hook_wf in Hh. rewrite Hg in Hh.
    destruct (run (pg_hook (fst (handleGenerate now random p)))) as [r|] eqn:Er; [|done]. exists r. split; [done|].
    revert Er Ha. unfold handleGenerate. rewrite Hcan. cbn [negb]. cbv zeta. unfold generate.
    cbn [ga_config ga_prompt ga_mode ga_referenceImages generateArgs]. rewrite Hpl.
    destruct (getImageModelRuntimeLimits (c_model (pageConfig p))) eqn:El; [|by unfold canGenerate in Hcan; rewrite El in Hcan].
    unfold continueRun. destruct (forallb _ _); [done|]. cbn. intros [= <-] Ha. done. }
  assert (Hq : page_wf q /\ stoppable c (pg_hook q)).
  { induction Hd as [|q e _ [IHw IHs] Hrun]; [exact Hstart|]. split; [by apply pageStep_wf|by apply pageStep_stoppable]. }
  destruct Hq as [[_ Hh] (r & Er & _ & _ & Hab)].
  assert (isGenerating (pg_hook q) = true) as Hgq by by rewrite Hh, Er.
  cbn [pageStep fst]. rewrite Hgq. cbn [pg_hook with_hook]. unfold stopGeneration. rewrite Hab. unfold isAborted.
  cbn. by rewrite Nat.eqb_refl.
Qed.

End page.

(** ** What the retries lose *)

Section witness.
Local Existing Instance AsciiCase.

Local Definition error (m : str) : Thrown := thrownError m.

Local Definition answer : option (list ImageApiResponseData) := Some [MkData (Some (js "https://a/b.png")) None None].

(** The record of the server with some images. *)
Local Definition stored (id : str) (n : Z) (k : nat) : ImageStudioGenerationRecord :=
  MkStored id (num_of_Z 1000) GenerateMode (js "cat") DEFAULT_IMAGE_MODEL (js "default") None (js "1040x1040") None None
    (Some (js "png")) (num_of_Z n) (num_of_Z 5) None None None None None
    (replicate k (MkAsset (js "i") (js "/i") (js "image/png") (num_of_Z 1) None None None)).

(** Two requests that fail. *)
Local Definition two_failures (now : Z) : list PageEvent :=
  [TypePrompt (js "cat"); ConfigEvent (UseControl (TypeCount (js "2"))); ClickGenerate (num_of_Z now) (js "r");
   Network (Failed 0 (error (js "e0")) (num_of_Z (now + 1))); Network (Failed 1 (error (js "e1")) (num_of_Z (now + 1)))].

Local Definition final (es : list PageEvent) : Page := fst (pageRun es initialPage).
Local Definition allCalls (es : list PageEvent) : list Call := snd (pageRun es initialPage).

(** The errors, the failures and the number of images of the records. *)
Local Definition summary (p : Page) : list (str * option (list str) * nat) :=
  map (fun r => (r_id r, r_imageErrors r, length (images r))) (history (hist (pg_hook p))).

(** The retry of a generation that failed as a whole appends its image to a
    generation that was never stored. *)
Example failed_generation_appended :
  let calls := allCalls (two_failures 1000 ++ [ClickRetry 0; RetryNetwork 0 (RetryAnswered answer)]) in
  last calls = Some (CallAppend (js "1000-r") (MkSource (js "https://a/b.png") None)) /\ existsb is_store calls = false.
Proof. vm_compute. split; reflexivity. Qed.

(** Two retries are under way and the first succeeds: the error of the second moves
    to the index of the first and can be retried again, and the success of that
    retry does not remove it. *)
Example retry_index_shifts :
  let es := two_failures 1000 ++ [ClickRetry 0; ClickRetry 1; RetryNetwork 0 (RetryAnswered answer);
              RetryNetwork 0 (RetryStored (stored (js "1000-r") 2 1))] in
  ResultGrid (shownRecord (final es)) (pg_hook (final es)) =
    GridSlots (map ImageSlot (mapStoredImages (stored (js "1000-r") 2 1)) ++ [ErrorSlot (js "e1") (Some 0%nat) false]) /\
  retryingImageErrorIndexes (pg_hook (final es)) = [1%nat] /\
  summary (final (es ++ [ClickRetry 0; RetryNetwork 0 (RetryAnswered answer);
              RetryNetwork 0 (RetryStored (stored (js "1000-r") 2 2))])) = [(js "1000-r", Some [js "e1"], 2%nat)].
Proof. vm_compute. repeat split. Qed.

(** The retry of a record is lost when an error of another record is retried before
    it ends: its image is stored, and the record does not show it. *)
Example retry_lost_on_switch :
  let es := two_failures 1000 ++ two_failures 2000 ++
            [ClickRetry 0; ClickRecord (js "1000-r"); ClickRetry 1; RetryNetwork 0 (RetryAnswered answer);
             RetryNetwork 0 (RetryStored (stored (js "2000-r") 2 1))] in
  summary (final es) = [(js "2000-r", Some [js "e0"; js "e1"], 0%nat); (js "1000-r", Some [js "e0"; js "e1"], 0%nat)].
Proof. vm_compute. reflexivity. Qed.

(** The button does not reach a generation that started during a retry, once the
    retry has ended. *)
Example stop_lost :
  let p := final (two_failures 1000 ++ [ClickRetry 0; ClickGenerate (num_of_Z 2000) (js "r");
                    RetryNetwork 0 (RetryError (error (js "e2"))); ClickStop]) in
  isGenerating (pg_hook p) = true /\ aborted (pg_hook p) = [].
Proof. vm_compute. split; reflexivity. Qed.

(** A record of the server with two failures: one retry removes both. *)
Example historical_failures_vanish :
  let es := [HistoryArrived (Some (js "10", MkEnvelope true (Some [stored (js "a") 3 1]) None)); ClickRecord (js "a")] in
  (exists i, ResultGrid (shownRecord (final es)) (pg_hook (final es)) =
    GridSlots [ImageSlot i; ErrorSlot (js "Image generation failed") (Some 0%nat) false;
               ErrorSlot (js "Image generation failed") (Some 1%nat) false]) /\
  summary (final (es ++ [ClickRetry 0; RetryNetwork 0 (RetryAnswered answer); RetryNetwork 0 (RetryStored (stored (js "a") 3 2))]))
    = [(js "a", Some [], 2%nat)].
Proof. vm_compute. split; [by eexists|reflexivity]. Qed.

(** A number of images that is no integer is sent to the server. *)
Example fractional_count_stored :
  exists s, last (allCalls [TypePrompt (js "cat"); ConfigEvent (UseControl (TypeCount (js "1.5"))); ClickGenerate (num_of_Z 1000) (js "r");
    Network (Answered 0 answer (js "q") (num_of_Z 2000))]) = Some (CallStore s) /\ sp_n s = num_div (num_of_Z 3) (num_of_Z 2).
Proof. vm_compute. eexists. split; reflexivity. Qed.

End witness.

(** A record that comes back from the server has no parameters: a custom size is
    lost to a retry. *)
Theorem reloaded_size_lost {CM : CaseMapping} (s : ImageStudioGenerationRecord) :
  resolveImageModelAdapter (st_model s) = Some GptImage -> st_parameter_snapshot s = None ->
  st_size s <> [] -> st_size s <> CUSTOM_SIZE -> mem_str (st_size s) gpt_sizePresets = false ->
  exists p, restoreParametersFromRecord (fromServerRecord s) = Some p /\ p_size p = auto.
Proof.
  intros Hm Hs Hn Hc Hp. unfold restoreParametersFromRecord. cbn [r_model fromServerRecord parameterSnapshot]. rewrite Hm, Hs.
  eexists. split; [reflexivity|]. cbn [p_size g_size gpt_normalizeParameters r_size fromServerRecord].
  assert (Hz : forall d, str_or (st_size s) d = st_size s) by (intros d; by destruct (st_size s)). rewrite Hz.
  destruct (st_size s =?s auto) eqn:E; [by apply str_eqb_eq in E|].
  rewrite (proj2 (str_eqb_neq _ _) Hc), Hp. done.
Qed.

(** ** Witnesses *)

Section witnesses.
Local Existing Instance AsciiCase.

Local Definition ready : Page := fst (pageStep (TypePrompt (js "cat")) initialPage).

Lemma ready_reachable : PageReachable ready.
Proof. apply page_step, page_initial. Qed.

Lemma generate_click_witness :
  canGenerate ready = true /\ run (pg_hook ready) = None /\
  exists payload edits,
    buildImageGenerationPayload (pageConfig ready) (trim (pg_prompt ready)) (pg_mode ready) (pg_references ready) = Ok payload /\
    snd (handleGenerate (num_of_Z 1000) (js "r") ready) = replicate 1 (CallSend edits payload) /\
    let h := pg_hook (fst (handleGenerate (num_of_Z 1000) (js "r") ready)) in
    isGenerating h = true /\ pendingImageCount h = num_of_nat 1 /\ imageErrors h = [] /\
    activeRecordId h = None /\ abortRef h = Some (nextController (pg_hook ready)).
Proof.
  split; [vm_compute; reflexivity|].
  apply (generate_click ready (num_of_Z 1000) (js "r") 1 ready_reachable); [vm_compute; reflexivity|vm_compute; reflexivity|lia|].
  apply not_elem_of_nil.
Defined.

Lemma stop_reaches_witness :
  let p := fst (pageStep (ClickGenerate (num_of_Z 1000) (js "r")) ready) in
  let q := fst (pageStep (Network (Answered 0 answer (js "q") (num_of_Z 1500))) p) in
  isAborted 0 (pg_hook (fst (pageStep ClickStop q))) = true.
Proof.
  cbv zeta.
  apply (stop_reaches ready (num_of_Z 1000) (js "r") 1); [exact ready_reachable|vm_compute; reflexivity|reflexivity|vm_compute; reflexivity|lia| |].
  - apply not_elem_of_nil.
  - apply during_step; [apply during_start|]. vm_compute. discriminate.
Defined.

Lemma restore_record_witness :
  let r := fromServerRecord (stored (js "a") 3 1) in
  let r := MkRecord (r_id r) (createdAt r) (r_mode r) (r_prompt r) (r_model r) (r_group r) (Some (defaultParameters GptImage)) (r_size r)
    (r_quality r) (r_moderation r) (r_outputFormat r) (r_n r) (images r) None None None None None None in
  c_parameters (pageConfig (handleRestore r ready)) = defaultParameters GptImage.
Proof. cbv zeta. apply restore_record; reflexivity. Defined.

Lemma reloaded_size_lost_witness :
  exists p, restoreParametersFromRecord (fromServerRecord (stored (js "a") 3 1)) = Some p /\ p_size p = auto.
Proof. apply reloaded_size_lost; [reflexivity|reflexivity|discriminate|discriminate|reflexivity]. Defined.

End witnesses.
