(* ===== verification/TableState.v ===== *)
(** * The state of tables

    - [UrlState]: [src/web/src/hooks/use-table-url-state.ts], the page, the search
      and the filters of a table as search parameters of its URL.
    - [TextFilter]: [components/data-table/hooks/use-debounced-column-filter.ts] over
      [hooks/use-debounce.ts], a text field whose text becomes the filter of a
      column of such a table half a second after the last key.
    - [ToolbarSearch]: the search of [components/data-table/toolbar/toolbar.tsx].
    - [ColumnState]: what [components/data-table/hooks/use-data-table.ts] reads of
      the visibility and the widths of columns from the storage.

    An effect of React runs in a commit in which one of its dependencies differs
    from the commit before, in the order of the source; all effects of a commit read
    the values of the render.  The state records the dependencies each effect has
    seen, [commit] runs the effects of one commit, and [settle] repeats it until no
    effect is due.  A navigation is an update of the search parameters that the
    router carries out later; [undefined] removes a parameter.  The router gives
    back what was navigated to, in a new object or, when nothing changed, in the
    same one. *)

From stdpp Require Import base list.
From Stdlib Require Import ZArith NArith Lia SpecFloat.
From S2P Require Import Prelude JsString JsArray JsNumber JsJson.

Local Open Scope Z_scope.

Module UrlState.

Definition SearchRecord : Type := list (str * json).

Record ColumnFilter : Type := MkFilter { cf_id : str; cf_value : json }.

(** A column that is filtered through the URL; [isText] is [type === 'string']. *)
Record FilterCfg : Type := MkCfg {
  columnId : str;
  searchKey : str;
  isText : bool;
  serialize : option (json -> option json);
  deserialize : option (option json -> option json);
}.

Record PaginationCfg : Type := MkPaginationCfg {
  pc_pageKey : option str;
  pc_pageSizeKey : option str;
  pc_pageSizeStorageKey : option str;
  pc_defaultPage : option num;
  pc_defaultPageSize : option num;
}.

Record GlobalFilterCfg : Type := MkGlobalCfg {
  gc_enabled : option bool;
  gc_key : option str;
  gc_trim : option bool;
}.

(** The parameters of the hook, with its defaults filled in. *)
Record Params : Type := MkParams {
  pageKey : str;
  pageSizeKey : str;
  pageSizeStorageKey : str;
  defaultPage : num;
  defaultPageSize : num;
  globalFilterKey : str;
  globalFilterEnabled : bool;
  trimGlobal : bool;
  columnFiltersCfg : list FilterCfg;
}.

Definition DEFAULT_PAGE_SIZE_STORAGE_KEY : str := js "page-size".

Definition resolveParams (pc : option PaginationCfg) (gc : option GlobalFilterCfg) (cfgs : option (list FilterCfg)) : Params := {|
  pageKey := nullish (pc ≫= pc_pageKey) (js "page");
  pageSizeKey := nullish (pc ≫= pc_pageSizeKey) (js "pageSize");
  pageSizeStorageKey := nullish (pc ≫= pc_pageSizeStorageKey) DEFAULT_PAGE_SIZE_STORAGE_KEY;
  defaultPage := nullish (pc ≫= pc_defaultPage) (num_of_Z 1);
  defaultPageSize := nullish (pc ≫= pc_defaultPageSize) (num_of_Z 20);
  globalFilterKey := nullish (gc ≫= gc_key) (js "filter");
  globalFilterEnabled := nullish (gc ≫= gc_enabled) true;
  trimGlobal := nullish (gc ≫= gc_trim) true;
  columnFiltersCfg := nullish cfgs [];
|}.

(** *** The page size in the storage *)

(** [localStorage], which may refuse to be read or written. *)
Record Storage : Type := MkStorage { st_items : list (str * str); st_reads : bool; st_writes : bool }.

Definition getStoredPageSize (st : Storage) (storageKey : str) : option num :=
  if st_reads st then
    match parseInt10 (nullish (obj_get storageKey (st_items st)) []) with
    | Some n => if num_lt num_zero (num_of_Z n) then Some (num_of_Z n) else None
    | None => None
    end
  else None.

Definition setStoredPageSize (storageKey : str) (pageSize : num) (st : Storage) : Storage :=
  if st_writes st then MkStorage (obj_set storageKey (num_to_string pageSize) (st_items st)) (st_reads st) (st_writes st)
  else st.

(** *** Navigations *)

(** [{...prev, [k]: v, ...}]. *)
Record Navigation : Type := MkNavigation { nav_patch : list (str * option json); nav_replace : bool }.

Definition setParam (s : SearchRecord) (kv : str * option json) : SearchRecord :=
  match snd kv with
  | Some v => obj_set (fst kv) v s
  | None => obj_delete (fst kv) s
  end.

Definition applyPatch (patch : list (str * option json)) (s : SearchRecord) : SearchRecord := fold_left setParam patch s.

(** The search parameters, the state of the hook, the navigations under way, and
    whether the effect of [search] is due. *)
Record Url : Type := MkUrl {
  search : SearchRecord;
  searchDue : bool;
  columnFilters : list ColumnFilter;
  globalFilter : option str;
  navigations : list Navigation;
  storage : Storage;
}.

Definition navigate (n : Navigation) (u : Url) : Url :=
  MkUrl (search u) (searchDue u) (columnFilters u) (globalFilter u) (navigations u ++ [n]) (storage u).

Definition setColumnFilters (l : list ColumnFilter) (u : Url) : Url :=
  MkUrl (search u) (searchDue u) l (globalFilter u) (navigations u) (storage u).

(** The router shows other search parameters, in a new object. *)
Definition showSearch (s : SearchRecord) (u : Url) : Url :=
  MkUrl s true (columnFilters u) (globalFilter u) (navigations u) (storage u).

(** The first navigation under way is carried out; the object is the same when the
    parameters are. *)
Definition arrive (fresh : bool) (u : Url) : Url :=
  match navigations u with
  | [] => u
  | n :: ns =>
      let u' := MkUrl (search u) (searchDue u) (columnFilters u) (globalFilter u) ns (storage u) in
      if fresh then showSearch (applyPatch (nav_patch n) (search u)) u' else u'
  end.

(** *** The filters of columns *)

(** [value ?? d]. *)
Definition json_nullish (v : option json) (d : json) : json :=
  match v with None | Some JNull => d | Some v => v end.

Definition acceptedText (v : json) : bool :=
  match v with JStr s => negb (trim s =?s []) | _ => false end.

Definition acceptedArray (v : json) : bool :=
  match v with JArr l => (0 <? length l)%nat | _ => false end.

Definition accepted (cfg : FilterCfg) (v : json) : bool :=
  if isText cfg then acceptedText v else acceptedArray v.

Definition readFilter (s : SearchRecord) (cfg : FilterCfg) : option ColumnFilter :=
  let raw := obj_get (searchKey cfg) s in
  let read := match deserialize cfg with Some d => d raw | None => raw end in
  let value := json_nullish read (if isText cfg then JStr [] else JArr []) in
  if accepted cfg value then Some (MkFilter (columnId cfg) value) else None.

Definition initialColumnFilters (p : Params) (s : SearchRecord) : list ColumnFilter :=
  omap (readFilter s) (columnFiltersCfg p).

(** The effect of [search]. *)
Definition syncSearch (p : Params) (u : Url) : Url :=
  if searchDue u then
    MkUrl (search u) false (initialColumnFilters p (search u)) (globalFilter u) (navigations u) (storage u)
  else u.

(** One parameter of the patch. *)
Definition writeFilter (next : list ColumnFilter) (cfg : FilterCfg) : str * option json :=
  let found := find (fun f => cf_id f =?s columnId cfg) next in
  let write v := match serialize cfg with Some f => f v | None => Some v end in
  (searchKey cfg,
   match found with
   | Some f => if accepted cfg (cf_value f) then write (cf_value f) else None
   | None => None
   end).

Definition filterPatch (p : Params) (next : list ColumnFilter) : list (str * option json) :=
  (pageKey p, None) :: map (writeFilter next) (columnFiltersCfg p).

(** [rendered] are the filters of the render the handler belongs to. *)
Definition onColumnFiltersChange (p : Params) (updater : list ColumnFilter -> list ColumnFilter) (rendered : list ColumnFilter)
    (u : Url) : Url :=
  let next := updater rendered in
  navigate (MkNavigation (filterPatch p next) false) (setColumnFilters next u).

(** *** The page *)

Record PaginationState : Type := MkPagination { pageIndex : num; pageSize : num }.

Definition one : num := num_of_Z 1.

Definition pageNumber (p : Params) (u : Url) : num :=
  match obj_get (pageKey p) (search u) with Some (JNum n) => n | _ => defaultPage p end.

Definition pagination (p : Params) (u : Url) : PaginationState :=
  let pageSizeNum := match obj_get (pageSizeKey p) (search u) with
                     | Some (JNum n) => n
                     | _ => nullish (getStoredPageSize (storage u) (pageSizeStorageKey p)) (defaultPageSize p)
                     end in
  MkPagination (num_max num_zero (num_sub (pageNumber p u) one)) pageSizeNum.

Definition onPaginationChange (p : Params) (updater : PaginationState -> PaginationState) (u : Url) : Url :=
  let next := updater (pagination p u) in
  let nextPage := num_add (pageIndex next) one in
  let st := if negb (num_eq (pageSize next) (pageSize (pagination p u)))
            then setStoredPageSize (pageSizeStorageKey p) (pageSize next) (storage u) else storage u in
  navigate
    (MkNavigation [(pageKey p, if num_le nextPage (defaultPage p) then None else Some (JNum nextPage));
                   (pageSizeKey p, Some (JNum (pageSize next)))] false)
    (MkUrl (search u) (searchDue u) (columnFilters u) (globalFilter u) (navigations u) st).

(** [last] is [resetTo === 'last']. *)
Definition ensurePageInRange (p : Params) (pageCount : num) (last : bool) (u : Url) : Url :=
  if num_lt num_zero pageCount && num_lt pageCount (pageNumber p u) then
    navigate (MkNavigation [(pageKey p, if last then Some (JNum pageCount) else None)] true) u
  else u.

(** *** The search of the table *)

Definition onGlobalFilterChange (p : Params) (updater : str -> str) (u : Url) : Url :=
  if globalFilterEnabled p then
    let next := updater (nullish (globalFilter u) []) in
    let value := if trimGlobal p then trim next else next in
    navigate
      (MkNavigation [(pageKey p, None); (globalFilterKey p, if truthy_str value then Some (JStr value) else None)] false)
      (MkUrl (search u) (searchDue u) (columnFilters u) (Some value) (navigations u) (storage u))
  else u.

Definition shownGlobalFilter (p : Params) (u : Url) : option str :=
  if globalFilterEnabled p then Some (nullish (globalFilter u) []) else None.

Definition mountUrl (p : Params) (s : SearchRecord) (st : Storage) : Url := {|
  search := s;
  searchDue := true;
  columnFilters := initialColumnFilters p s;
  globalFilter := if globalFilterEnabled p then
                    Some (match obj_get (globalFilterKey p) s with Some (JStr t) => t | _ => [] end)
                  else None;
  navigations := [];
  storage := st;
|}.

End UrlState.

Module TextFilter.
Import UrlState.

(** The state of [useDebouncedColumnFilter] and of its [useDebounce], and the
    dependencies its effects have seen; [timer] is the value that the running timer
    will set. *)
Record Field : Type := MkField {
  inputValue : str;
  pendingValue : str;
  isComposing : bool;
  debouncedValue : str;
  timer : option str;
  seenPending : option str;
  seenValue : option str;
  seenDebounced : option str;
}.

Record Screen : Type := MkScreen { url : Url; field : Field }.

Section Filter.

(** The parameters of the table and the column of the field, whose filter is a text;
    [resets] is whether the table calls [resetInput] when it is reset. *)
Context (p : Params) (column : str) (resets : bool).

Definition columnValue (l : list ColumnFilter) : str :=
  match find (fun f => cf_id f =?s column) l with
  | Some f => match cf_value f with JStr s => s | _ => [] end
  | None => []
  end.

Definition value (s : Screen) : str := columnValue (columnFilters (url s)).

(** The update of the filters by the second effect. *)
Definition putFilter (v : str) (previous : list ColumnFilter) : list ColumnFilter :=
  let filters := List.filter (fun f => negb (cf_id f =?s column)) previous in
  if truthy_str v then filters ++ [MkFilter column (JStr v)] else filters.

(** An effect has seen the dependency. *)
Definition saw (seen : option str) (v : str) : bool :=
  match seen with Some w => w =?s v | None => false end.

(** The effect of [useDebounce]. *)
Definition debounceEffect (f : Field) : option str :=
  if saw (seenPending f) (pendingValue f) then timer f else Some (pendingValue f).

(** The effects of one commit: the one of the URL, the timer, the field that
    follows the filter, and the filter that follows the field. *)
Definition commit (s : Screen) : Screen :=
  let u := url s in
  let f := field s in
  let v := value s in
  let u1 := syncSearch p u in
  let follow := negb (saw (seenValue f) v) in
  let u2 := if saw (seenDebounced f) (debouncedValue f) && saw (seenValue f) v then u1
            else if debouncedValue f =?s v then u1
            else onColumnFiltersChange p (putFilter (debouncedValue f)) (columnFilters u) u1 in
  MkScreen u2 {|
    inputValue := if follow && negb (isComposing f) then v else inputValue f;
    pendingValue := if follow then v else pendingValue f;
    isComposing := isComposing f;
    debouncedValue := debouncedValue f;
    timer := debounceEffect f;
    seenPending := Some (pendingValue f);
    seenValue := Some v;
    seenDebounced := Some (debouncedValue f);
  |}.

(** Some effect is due. *)
Definition due (s : Screen) : bool :=
  let f := field s in
  searchDue (url s) || negb (saw (seenPending f) (pendingValue f)) || negb (saw (seenValue f) (value s)) ||
  negb (saw (seenDebounced f) (debouncedValue f)).

Fixpoint settle (fuel : nat) (s : Screen) : Screen :=
  match fuel with
  | O => s
  | S fuel' => if due s then settle fuel' (commit s) else s
  end.

(** Four commits are enough ([settle_rests]). *)
Definition rest (s : Screen) : Screen := settle 4 s.

Definition withField (f : Field) (s : Screen) : Screen := MkScreen (url s) f.
Definition withUrl (u : Url) (s : Screen) : Screen := MkScreen u (field s).

Definition setTexts (input pending : str) (composing : bool) (f : Field) : Field :=
  MkField input pending composing (debouncedValue f) (timer f) (seenPending f) (seenValue f) (seenDebounced f).

Definition updateInputValue (v : str) (f : Field) : Field :=
  setTexts v (if isComposing f then pendingValue f else v) (isComposing f) f.

Definition handleCompositionStart (f : Field) : Field := setTexts (inputValue f) (pendingValue f) true f.
Definition handleCompositionEnd (v : str) (f : Field) : Field := setTexts v v false f.
Definition resetInput (f : Field) : Field := setTexts [] [] false f.

(** The timer of [useDebounce]. *)
Definition fireTimer (f : Field) : Field :=
  match timer f with
  | Some v => MkField (inputValue f) (pendingValue f) (isComposing f) v None (seenPending f) (seenValue f) (seenDebounced f)
  | None => f
  end.

(** The button Reset of the toolbar ([handleReset]). *)
Definition resetTable (s : Screen) : Screen :=
  let u := onColumnFiltersChange p (fun _ => []) (columnFilters (url s)) (url s) in
  let u := onGlobalFilterChange p (fun _ => []) u in
  MkScreen u (if resets then resetInput (field s) else field s).

Inductive FieldEvent : Type :=
  | TypeText (v : str)
  | CompositionStart
  | CompositionEnd (v : str)
  | TimerFires
  | Arrives (fresh : bool)
  | Back (s : SearchRecord)
  | FilterColumns (updater : list ColumnFilter -> list ColumnFilter)
  | Reset_.

Definition handle (e : FieldEvent) (s : Screen) : Screen :=
  match e with
  | TypeText v => withField (updateInputValue v (field s)) s
  | CompositionStart => withField (handleCompositionStart (field s)) s
  | CompositionEnd v => withField (handleCompositionEnd v (field s)) s
  | TimerFires => withField (fireTimer (field s)) s
  | Arrives fresh => withUrl (arrive fresh (url s)) s
  | Back q => withUrl (showSearch q (url s)) s
  | FilterColumns updater => withUrl (onColumnFiltersChange p updater (columnFilters (url s)) (url s)) s
  | Reset_ => resetTable s
  end.

Definition step (s : Screen) (e : FieldEvent) : Screen := rest (handle e s).

Definition mount (q : SearchRecord) (st : Storage) : Screen :=
  let u := mountUrl p q st in
  let v := columnValue (columnFilters u) in
  rest (MkScreen u (MkField v v false v None None None None)).

Definition run (es : list FieldEvent) (s : Screen) : Screen := fold_left step es s.

End Filter.

End TextFilter.

(** ** Two tables *)

Module Tables.
Import UrlState TextFilter.

Definition CHANNELS_STATUS_FILTER_STORAGE_KEY : str := js "channel-status-filter".

(** The status that was chosen last is read from the storage. *)
Definition deserializeStatus (stored : option str) (v : option json) : option json :=
  match v with
  | Some _ => v
  | None =>
      match stored with
      | Some s => if (s =?s "enabled") || (s =?s "disabled") then Some (JArr [JStr s]) else Some (JArr [])
      | None => Some (JArr [])
      end
  end.

(** The list of channels. *)
Definition channelsTable (isMobile : bool) (stored : option str) : Params :=
  resolveParams
    (Some (MkPaginationCfg None None (Some (js "page-size:channels")) (Some (num_of_Z 1)) (Some (num_of_Z (if isMobile then 10 else 50)))))
    (Some (MkGlobalCfg (Some true) (Some (js "filter")) None))
    (Some [MkCfg (js "status") (js "status") false None (Some (deserializeStatus stored));
           MkCfg (js "type") (js "type") false None None;
           MkCfg (js "group") (js "group") false None None;
           MkCfg (js "model") (js "model") true None None]).

Definition channelsColumn : str := js "model".

(** The status of the filters that [handleColumnFiltersChange] stores. *)
Definition storedStatus (next : list ColumnFilter) : str :=
  match find (fun f => cf_id f =?s "status") next with
  | Some f => match cf_value f with JArr (JStr s :: _) => s | _ => js "all" end
  | None => js "all"
  end.

(** The list of API keys. *)
Definition apiKeysTable : Params :=
  resolveParams
    (Some (MkPaginationCfg None None (Some (js "page-size:api-keys")) (Some (num_of_Z 1)) (Some (num_of_Z 20))))
    (Some (MkGlobalCfg (Some true) (Some (js "filter")) None))
    (Some [MkCfg (js "status") (js "status") false None None; MkCfg (js "_tokenSearch") (js "token") true None None]).

Definition apiKeysColumn : str := js "_tokenSearch".

End Tables.

Module ToolbarSearch.
Import TextFilter.

Record SearchDraft : Type := MkDraft { baseValue : str; draftValue : str }.

(** The state of the search input, the filter of the table it edits, the timer of
    its [useDebounce], the dependencies its effects have seen, and the texts that
    were committed. *)
Record Toolbar : Type := MkToolbar {
  searchDraft : option SearchDraft;
  isSearchComposing : bool;
  debouncedSearchValue : str;
  searchTimer : option str;
  currentSearchValue : str;
  seenSearch : option str;
  seenCommit : option (str * str * bool * str);
  committed : list str;
}.

Section Search.

(** What the table makes of a text that is set as its filter, and whether there is a
    delay ([searchDebounceMs > 0]). *)
Context (accept : str -> str) (delayed : bool).

Definition activeSearchDraft (t : Toolbar) : option SearchDraft :=
  match searchDraft t with
  | Some d => if isSearchComposing t || (baseValue d =?s currentSearchValue t) then Some d else None
  | None => None
  end.

Definition searchValue (t : Toolbar) : str :=
  match activeSearchDraft t with Some d => draftValue d | None => currentSearchValue t end.

Definition setFilter (v : str) (t : Toolbar) : Toolbar :=
  MkToolbar (searchDraft t) (isSearchComposing t) (debouncedSearchValue t) (searchTimer t) (accept v) (seenSearch t)
    (seenCommit t) (committed t ++ [v]).

Definition commitSearchValue (v : str) (t : Toolbar) : Toolbar :=
  if v =?s currentSearchValue t then t else setFilter v t.

Definition setDraft (d : option SearchDraft) (composing : bool) (t : Toolbar) : Toolbar :=
  MkToolbar d composing (debouncedSearchValue t) (searchTimer t) (currentSearchValue t) (seenSearch t) (seenCommit t) (committed t).

Definition queueSearchValue (v : str) (t : Toolbar) : Toolbar := if delayed then t else commitSearchValue v t.

Definition handleSearchChange (v : str) (t : Toolbar) : Toolbar :=
  let t' := setDraft (Some (MkDraft (currentSearchValue t) v)) (isSearchComposing t) t in
  if isSearchComposing t then t' else queueSearchValue v t'.

Definition handleSearchCompositionStart (t : Toolbar) : Toolbar := setDraft (searchDraft t) true t.

Definition handleSearchCompositionEnd (v : str) (t : Toolbar) : Toolbar :=
  queueSearchValue v (setDraft (Some (MkDraft (currentSearchValue t) v)) false t).

Definition handleReset (t : Toolbar) : Toolbar := setFilter [] (setDraft None false t).

Definition fireSearchTimer (t : Toolbar) : Toolbar :=
  match searchTimer t with
  | Some v => MkToolbar (searchDraft t) (isSearchComposing t) v None (currentSearchValue t) (seenSearch t) (seenCommit t) (committed t)
  | None => t
  end.

(** The dependencies of the effect that commits: those of [commitSearchValue], the
    debounced text, the composition and the text. *)
Definition commitDeps (t : Toolbar) : str * str * bool * str :=
  (currentSearchValue t, debouncedSearchValue t, isSearchComposing t, searchValue t).

Definition sameDeps (seen : option (str * str * bool * str)) (d : str * str * bool * str) : bool :=
  match seen, d with
  | Some (c, b, k, v), (c', b', k', v') => (c =?s c') && (b =?s b') && Bool.eqb k k' && (v =?s v')
  | None, _ => false
  end.

Definition commitSearch (t : Toolbar) : Toolbar :=
  let v := searchValue t in
  let t1 := MkToolbar (searchDraft t) (isSearchComposing t) (debouncedSearchValue t)
              (if saw (seenSearch t) v then searchTimer t else Some v)
              (currentSearchValue t) (Some v) (Some (commitDeps t)) (committed t) in
  if sameDeps (seenCommit t) (commitDeps t) then t1
  else if negb delayed || isSearchComposing t || negb (debouncedSearchValue t =?s v) then t1
  else commitSearchValue (debouncedSearchValue t) t1.

Definition searchDueEffects (t : Toolbar) : bool :=
  negb (saw (seenSearch t) (searchValue t)) || negb (sameDeps (seenCommit t) (commitDeps t)).

Fixpoint settleSearch (fuel : nat) (t : Toolbar) : Toolbar :=
  match fuel with
  | O => t
  | S fuel' => if searchDueEffects t then settleSearch fuel' (commitSearch t) else t
  end.

Inductive SearchEvent : Type :=
  | SearchTyped (v : str)
  | SearchCompositionStart
  | SearchCompositionEnd (v : str)
  | SearchTimer
  | SearchReset.

Definition handleSearch (e : SearchEvent) (t : Toolbar) : Toolbar :=
  match e with
  | SearchTyped v => handleSearchChange v t
  | SearchCompositionStart => handleSearchCompositionStart t
  | SearchCompositionEnd v => handleSearchCompositionEnd v t
  | SearchTimer => fireSearchTimer t
  | SearchReset => handleReset t
  end.

(** Two commits are enough ([search_rests]). *)
Definition searchStep (t : Toolbar) (e : SearchEvent) : Toolbar := settleSearch 2 (handleSearch e t).

Definition searchRun (es : list SearchEvent) (t : Toolbar) : Toolbar := fold_left searchStep es t.

Definition mountSearch (current : str) : Toolbar :=
  settleSearch 2 (MkToolbar None false current None current None None []).

End Search.

End ToolbarSearch.

Module ColumnState.

(** [ColumnDef]: its identifier, its accessor key, its sizes and its group. *)
Inductive AccessorKey : Type := KeyText (s : str) | KeyNumber (n : num).

Inductive ColumnDef : Type :=
  MkColumn (id : option str) (accessorKey : option AccessorKey) (minSize maxSize : option num) (columns : option (list ColumnDef)).

Record Bounds : Type := MkBounds { b_min : option num; b_max : option num }.

Definition getColumnId (c : ColumnDef) : option str :=
  let 'MkColumn id key _ _ _ := c in
  match id, key with
  | Some s, _ => Some s
  | None, Some (KeyText s) => Some (map (fun ch => if (ch =? chr "."%char)%N then chr "_"%char else ch) s)
  | None, Some (KeyNumber n) => Some (num_to_string n)
  | None, None => None
  end.

Definition finiteSize (x : option num) : option num :=
  match x with Some n => if isFinite n then Some n else None | None => None end.

(** The bounds of a column itself. *)
Definition ownBounds (c : ColumnDef) (bounds : list (str * Bounds)) : list (str * Bounds) :=
  let 'MkColumn _ _ mn mx _ := c in
  match getColumnId c with
  | Some id =>
      if truthy_str id then
        match finiteSize mn, finiteSize mx with
        | None, None => bounds
        | a, b => obj_set id (MkBounds a b) bounds
        end
      else bounds
  | None => bounds
  end.

(** The bounds of a column and of its group, assigned to [bounds]; the bounds of the
    group are an object of their own first. *)
Fixpoint columnBounds (c : ColumnDef) (bounds : list (str * Bounds)) : list (str * Bounds) :=
  let bounds := ownBounds c bounds in
  let 'MkColumn _ _ _ _ cs := c in
  match cs with
  | Some cs =>
      let inner := (fix go (l : list ColumnDef) (b : list (str * Bounds)) : list (str * Bounds) :=
        match l with [] => b | c' :: l' => go l' (columnBounds c' b) end) cs [] in
      fold_left (fun o kv => obj_set (fst kv) (snd kv) o) inner bounds
  | None => bounds
  end.

Definition buildColumnSizingBounds (columns : list ColumnDef) : list (str * Bounds) :=
  fold_left (fun bounds c => columnBounds c bounds) columns [].

Definition getBoundedColumnSize (columnId : str) (v : json) (bounds : list (str * Bounds)) : option num :=
  match v with
  | JNum x =>
      if negb (isFinite x) || num_le x num_zero then None
      else
        let b := obj_get columnId bounds in
        let size := match b ≫= b_min with Some m => if num_lt x m then m else x | None => x end in
        let size := match b ≫= b_max with Some m => if num_lt m size then m else size | None => size end in
        if num_lt num_zero size then Some size else None
  | _ => None
  end.

(** The object that a stored text holds, or none; the reads below fall back to an
    empty object. *)
Definition storedObject (raw : option str) : list (str * json) :=
  match raw with
  | Some text => if truthy_str text then match json_parse text with Some (JObj o) => o | _ => [] end else []
  | None => []
  end.

Definition readColumnVisibility (raw : option str) : list (str * bool) :=
  fold_left (fun visibility kv => match snd kv with JBool b => obj_set (fst kv) b visibility | _ => visibility end)
    (storedObject raw) [].

Definition readColumnSizing (raw : option str) (bounds : list (str * Bounds)) : list (str * num) :=
  fold_left (fun sizing kv => match getBoundedColumnSize (fst kv) (snd kv) bounds with
                              | Some size => obj_set (fst kv) size sizing
                              | None => sizing
                              end) (storedObject raw) [].

(** [useControllableTableState]: the value a table shows, and the state after a
    change with whether the owner of the table is told. *)
Definition shownState {A} (controlled : option A) (uncontrolled : A) : A := nullish controlled uncontrolled.

Definition setState {A} (controlled : option A) (updater : A -> A) (uncontrolled : A) : A :=
  match controlled with None => updater uncontrolled | Some _ => uncontrolled end.

End ColumnState.
