(* ===== verification/TableStateLaws.v ===== *)
(** * Properties of the state of tables

    The filters and the page survive the way through the URL; a page out of range is
    corrected once; the text field of a column applies what was typed, and undoes
    every change of its filter from outside; the search of the toolbar commits what
    was typed and is cleared by a reset; stored widths are within their bounds. *)

From stdpp Require Import base list.
From Stdlib Require Import ZArith NArith Lia SpecFloat.
From S2P Require Import Prelude JsString JsArray JsNumber JsJson JsonRoundTrip TableState.

Local Open Scope Z_scope.

Module UrlLaws.
Import UrlState.

(** ** Patches *)

Lemma get_setParam (k : str) (s : SearchRecord) (kv : str * option json) :
  obj_get k (setParam s kv) = if k =?s fst kv then snd kv else obj_get k s.
Proof. destruct kv as [j [v|]]; cbn; [apply obj_get_set|apply obj_get_delete]. Qed.

Lemma applyPatch_other (k : str) (patch : list (str * option json)) (s : SearchRecord) :
  k ∉ map fst patch -> obj_get k (applyPatch patch s) = obj_get k s.
Proof.
  unfold applyPatch. revert s. induction patch as [|kv patch IH]; intros s Hk; [done|]. cbn in *.
  apply not_elem_of_cons in Hk as [Hne Hk]. rewrite IH, get_setParam by done.
  by rewrite (proj2 (str_eqb_neq _ _) Hne).
Qed.

Lemma applyPatch_get (k : str) (v : option json) (patch : list (str * option json)) (s : SearchRecord) :
  NoDup (map fst patch) -> (k, v) ∈ patch -> obj_get k (applyPatch patch s) = v.
Proof.
  revert s. induction patch as [|kv patch IH]; intros s Hd Hin; [by apply elem_of_nil in Hin|].
  cbn in Hd. apply NoDup_cons in Hd as [Hn Hd]. apply elem_of_cons in Hin as [<-|Hin]; [|by apply (IH (setParam s kv))].
  change (applyPatch ((k, v) :: patch) s) with (applyPatch patch (setParam s (k, v))).
  rewrite applyPatch_other, get_setParam by done. cbn. by rewrite str_eqb_refl.
Qed.

(** A navigation that is the only one under way arrives. *)
Lemma arrive_navigate (n : Navigation) (u : Url) :
  navigations u = [] ->
  arrive true (navigate n u) = MkUrl (applyPatch (nav_patch n) (search u)) true (columnFilters u) (globalFilter u) [] (storage u).
Proof. intros Hn. unfold arrive, navigate. cbn [navigations]. by rewrite Hn. Qed.

(** ** The filters *)

(** The parameter that is written for a value, and the value of a parameter. *)
Definition encode (cfg : FilterCfg) (v : json) : option json :=
  match serialize cfg with Some f => f v | None => Some v end.

Definition decode (cfg : FilterCfg) (raw : option json) : option json :=
  match deserialize cfg with Some d => d raw | None => raw end.

(** A column reads what it writes, and nothing where nothing is written. *)
Definition codec (cfg : FilterCfg) : Prop :=
  (forall v, accepted cfg v = true -> decode cfg (encode cfg v) = Some v) /\ readFilter [] cfg = None.

Definition distinct_keys (p : Params) : Prop := NoDup (pageKey p :: map searchKey (columnFiltersCfg p)).

(** The filters that the URL can hold: one for each configured column, in the order
    of the configuration, when its value is not empty. *)
Definition keptFilter (next : list ColumnFilter) (cfg : FilterCfg) : option ColumnFilter :=
  match find (fun f => cf_id f =?s columnId cfg) next with
  | Some f => if accepted cfg (cf_value f) then Some f else None
  | None => None
  end.

Definition kept (p : Params) (next : list ColumnFilter) : list ColumnFilter := omap (keptFilter next) (columnFiltersCfg p).

Lemma nullish_accepted (cfg : FilterCfg) (v d : json) : accepted cfg v = true -> json_nullish (Some v) d = v.
Proof. unfold accepted. by destruct v, (isText cfg). Qed.

Lemma nothing_read (cfg : FilterCfg) (s : SearchRecord) :
  obj_get (searchKey cfg) s = None -> readFilter [] cfg = None -> readFilter s cfg = None.
Proof. unfold readFilter. by intros ->. Qed.

Lemma written_read (cfg : FilterCfg) (next : list ColumnFilter) (s : SearchRecord) :
  codec cfg -> obj_get (searchKey cfg) s = snd (writeFilter next cfg) -> readFilter s cfg = keptFilter next cfg.
Proof.
  intros [Hr Hn] Hs. unfold keptFilter. unfold writeFilter in Hs. cbn [snd] in Hs.
  destruct (find _ next) as [f|] eqn:Ef; [|by apply nothing_read].
  destruct (accepted cfg (cf_value f)) eqn:Ea; [|by apply nothing_read].
  fold (encode cfg (cf_value f)) in Hs. unfold readFilter. fold (decode cfg (obj_get (searchKey cfg) s)).
  rewrite Hs, Hr, (nullish_accepted cfg), Ea by done.
  apply find_Some in Ef as [_ Ei]. apply str_eqb_eq in Ei. destruct f. cbn in *. by subst.
Qed.

Lemma omap_ext_in {A B} (f g : A -> option B) (l : list A) : (forall x, x ∈ l -> f x = g x) -> omap f l = omap g l.
Proof.
  induction l as [|x l IH]; intros H; [done|]. cbn. rewrite (H x) by left. rewrite IH; [done|].
  intros y Hy. apply H. by right.
Qed.

Lemma filterPatch_keys (p : Params) (next : list ColumnFilter) :
  map fst (filterPatch p next) = pageKey p :: map searchKey (columnFiltersCfg p).
Proof. unfold filterPatch. cbn. f_equal. rewrite map_map. by apply map_ext. Qed.

Lemma filters_read_back (p : Params) (next : list ColumnFilter) (s : SearchRecord) :
  distinct_keys p -> Forall codec (columnFiltersCfg p) ->
  initialColumnFilters p (applyPatch (filterPatch p next) s) = kept p next.
Proof.
  intros Hd Hc. apply omap_ext_in. intros cfg Hcfg. rewrite Forall_forall in Hc. apply written_read; [by apply Hc|].
  apply applyPatch_get; [by rewrite filterPatch_keys|]. right.
  replace (searchKey cfg, snd (writeFilter next cfg)) with (writeFilter next cfg) by done. by apply list_elem_of_fmap_2.
Qed.

(** The state after a handler, when its navigation has arrived and the effect of
    [search] has run. *)
Definition afterNavigation (p : Params) (u : Url) : Url := syncSearch p (arrive true u).

(** C15: A change of the filters survives the way through the URL: when the navigation has
    arrived, the filters are those the URL can hold, the URL holds them, the page is
    the first one, and no other parameter has changed. *)
Theorem filters_survive_url (p : Params) (updater : list ColumnFilter -> list ColumnFilter) (u : Url) :
  distinct_keys p -> Forall codec (columnFiltersCfg p) -> navigations u = [] ->
  let next := updater (columnFilters u) in
  let u' := afterNavigation p (onColumnFiltersChange p updater (columnFilters u) u) in
  columnFilters u' = kept p next /\ initialColumnFilters p (search u') = kept p next /\
  pageNumber p u' = defaultPage p /\
  (forall k, k <> pageKey p -> k ∉ map searchKey (columnFiltersCfg p) -> obj_get k (search u') = obj_get k (search u)).
Proof.
  intros Hd Hc Hn next. unfold afterNavigation, onColumnFiltersChange. rewrite arrive_navigate by done. fold next.
  unfold syncSearch. cbn [searchDue columnFilters search nav_patch setColumnFilters].
  pose proof (filters_read_back p next (search u) Hd Hc) as Hf. split_and!; [done..| |].
  - unfold pageNumber. cbn [search]. rewrite (applyPatch_get (pageKey p) None); [done| |by left]. by rewrite filterPatch_keys.
  - intros k Hk Hks. apply applyPatch_other. rewrite filterPatch_keys. by apply not_elem_of_cons.
Qed.

(** ** The page *)

(** An index that is not negative and exact, so that the page number is read back. *)
Definition exact_index (p : Params) (i : num) : Prop :=
  num_max num_zero i = i /\ num_sub (num_add i one) one = i /\
  (num_le (num_add i one) (defaultPage p) = true -> num_max num_zero (num_sub (defaultPage p) one) = i).

(** A change of the page or of its size is what the table shows when the navigation
    has arrived; the filters stay. *)
Theorem page_survives_url (p : Params) (next : PaginationState) (u : Url) :
  pageKey p <> pageSizeKey p -> exact_index p (pageIndex next) -> navigations u = [] ->
  let u' := arrive true (onPaginationChange p (fun _ => next) u) in
  pagination p u' = next /\
  (forall k, k <> pageKey p -> k <> pageSizeKey p -> obj_get k (search u') = obj_get k (search u)).
Proof.
  intros Hk (Hm & He & Hf) Hn. unfold onPaginationChange. rewrite arrive_navigate by done. cbn [nav_patch search]. split.
  - unfold pagination, pageNumber. cbn [search storage]. unfold applyPatch. cbn [fold_left].
    rewrite !get_setParam. cbn [fst snd]. rewrite !str_eqb_refl, (proj2 (str_eqb_neq _ _) Hk).
    destruct (num_le _ _) eqn:El; [by rewrite (Hf eq_refl); destruct next|]. rewrite He, Hm. by destruct next.
  - intros k H1 H2. apply applyPatch_other. cbn. rewrite !not_elem_of_cons. split_and!; [done..|]. apply not_elem_of_nil.
Qed.

(** A page beyond the last one is corrected by one navigation: when it has arrived
    the page is in range and the check does nothing more. *)
Theorem page_in_range (p : Params) (pageCount : num) (last : bool) (u : Url) :
  last = true \/ num_lt pageCount (defaultPage p) = false -> navigations u = [] ->
  let u' := arrive true (ensurePageInRange p pageCount last u) in
  ensurePageInRange p pageCount last u' = u' /\
  (num_lt num_zero pageCount = true -> num_lt pageCount (pageNumber p u') = false) /\
  (num_lt pageCount (pageNumber p u) = false -> u' = u).
Proof.
  intros Hl Hn u'. assert (Hr : num_lt num_zero pageCount = true -> num_lt pageCount (pageNumber p u') = false).
  { intros Hp. unfold u', ensurePageInRange. rewrite Hp. cbn [andb]. destruct (num_lt pageCount (pageNumber p u)) eqn:E.
    - rewrite arrive_navigate by done. unfold pageNumber. cbn [search]. cbn [search nav_patch]. unfold applyPatch. cbn [fold_left]. rewrite get_setParam. cbn [fst snd]. rewrite str_eqb_refl.
      destruct last; [apply num_lt_irrefl|]. by destruct Hl.
    - unfold arrive. by rewrite Hn. }
  split_and!; [|done|].
  - unfold ensurePageInRange at 1. destruct (num_lt num_zero pageCount); [|done]. by rewrite Hr.
  - intros E. unfold u', ensurePageInRange. rewrite E, andb_false_r. unfold arrive. by rewrite Hn.
Qed.

(** A model filter is set in the list of channels while its second page is shown. *)
Lemma filters_survive_url_witness :
  let p := Tables.channelsTable false None in
  let u := mountUrl p [(js "page", JNum (num_of_Z 2)); (js "pageSize", JNum (num_of_Z 10))] (MkStorage [] true true) in
  let u' := afterNavigation p (onColumnFiltersChange p (fun l => l ++ [MkFilter (js "model") (JStr (js "gpt"))]) (columnFilters u) u) in
  columnFilters u' = [MkFilter (js "model") (JStr (js "gpt"))] /\ obj_get (js "pageSize") (search u') = Some (JNum (num_of_Z 10)).
Proof.
  intros p u. set (upd := fun l => l ++ _).
  assert (Hd : distinct_keys p) by (apply NoDup_ListNoDup; repeat constructor; cbn; intuition discriminate).
  assert (Hc : Forall codec (columnFiltersCfg p)) by (repeat (constructor; [split; [done|reflexivity]|]); constructor).
  destruct (filters_survive_url p upd u Hd Hc eq_refl) as (H & _ & _ & Ho). split.
  - rewrite H. vm_compute. reflexivity.
  - rewrite Ho; [vm_compute; reflexivity|discriminate|]. rewrite <- mem_str_false. vm_compute. reflexivity.
Defined.

(** The fourth page of a hundred rows. *)
Lemma page_survives_url_witness :
  let p := Tables.channelsTable false None in
  let u := mountUrl p [(js "model", JStr (js "gpt"))] (MkStorage [] true true) in
  let next := MkPagination (num_of_Z 3) (num_of_Z 100) in
  pagination p (arrive true (onPaginationChange p (fun _ => next) u)) = next.
Proof.
  intros p u next. apply (page_survives_url p next u); [discriminate| |reflexivity].
  split; [vm_compute; reflexivity|]. split; [vm_compute; reflexivity|]. intros H. vm_compute in H. discriminate.
Defined.

End UrlLaws.

Module FilterLaws.
Import UrlState TextFilter.

Lemma saw_true (seen : option str) (v : str) : saw seen v = true <-> seen = Some v.
Proof.
  destruct seen as [w|]; cbn; [|split; discriminate]. rewrite str_eqb_eq. split; [by intros ->|by intros [= ->]].
Qed.

Lemma saw_refl (v : str) : saw (Some v) v = true.
Proof. by apply saw_true. Qed.

Section Filter.
Context (p : Params) (column : str) (resets : bool).

Local Abbreviation value := (value column).
Local Abbreviation commit := (commit p column).
Local Abbreviation due := (due column).
Local Abbreviation rest := (rest p column).
Local Abbreviation step := (step p column resets).

Lemma columnValue_put (v : str) (l : list ColumnFilter) : columnValue column (putFilter column v l) = v.
Proof.
  unfold columnValue, putFilter.
  assert (Hn : forall r, find (fun f => cf_id f =?s column) (List.filter (fun f => negb (cf_id f =?s column)) l ++ r)
                         = find (fun f => cf_id f =?s column) r).
  { intros r. induction l as [|f l IH]; [done|]. cbn. destruct (cf_id f =?s column) eqn:E; cbn; [done|]. by rewrite E. }
  destruct (truthy_str v) eqn:E; js_simp.
  - rewrite Hn. cbn. by rewrite str_eqb_refl.
  - subst. specialize (Hn []). rewrite app_nil_r in Hn. by rewrite Hn.
Qed.

(** The filters of the other columns. *)
Definition otherFilters (l : list ColumnFilter) : list ColumnFilter := List.filter (fun f => negb (cf_id f =?s column)) l.

Lemma otherFilters_put (v : str) (l : list ColumnFilter) : otherFilters (putFilter column v l) = otherFilters l.
Proof.
  unfold otherFilters, putFilter. cbv zeta. destruct (truthy_str v); rewrite ?List.filter_app; cbn; rewrite ?str_eqb_refl; cbn;
    rewrite ?app_nil_r; apply filter_all, List.Forall_forall; intros f Hf; by apply List.filter_In in Hf as [_ Hf].
Qed.

(** ** One commit *)

(** The second effect of the field changes the filters. *)
Definition applies (s : Screen) : bool :=
  let f := field s in
  negb (saw (seenDebounced f) (debouncedValue f) && saw (seenValue f) (value s)) && negb (debouncedValue f =?s value s).

Lemma commit_value (s : Screen) :
  value (commit s) =
  if applies s then debouncedValue (field s)
  else if searchDue (url s) then columnValue column (initialColumnFilters p (search (url s))) else value s.
Proof.
  unfold applies, TextFilter.commit, TextFilter.value. cbn [url]. destruct (_ && _); cbn [negb andb].
  - unfold syncSearch. by destruct (searchDue (url s)).
  - destruct (debouncedValue (field s) =?s _); cbn [negb].
    + unfold syncSearch. by destruct (searchDue (url s)).
    + cbn [onColumnFiltersChange navigate setColumnFilters columnFilters]. apply columnValue_put.
Qed.

Lemma commit_searchDue (s : Screen) : searchDue (url (commit s)) = false.
Proof.
  assert (H : searchDue (syncSearch p (url s)) = false) by (unfold syncSearch; by destruct (searchDue (url s)) eqn:E).
  unfold TextFilter.commit. cbn [url]. by repeat case_match.
Qed.

Lemma due_false (s : Screen) :
  due s = false <->
  searchDue (url s) = false /\ seenPending (field s) = Some (pendingValue (field s)) /\
  seenValue (field s) = Some (value s) /\ seenDebounced (field s) = Some (debouncedValue (field s)).
Proof.
  unfold TextFilter.due. rewrite !orb_false_iff, !negb_false_iff, !saw_true. tauto.
Qed.

(** ** Commits end *)

Definition cycle (s : Screen) : Screen := if due s then commit s else s.

Lemma settle_cycle (n : nat) (s : Screen) : settle p column (S n) s = settle p column n (cycle s).
Proof. cbn. unfold cycle. destruct (due s) eqn:E; [done|]. destruct n; [done|]. cbn. by rewrite E. Qed.

Lemma rest_cycles (s : Screen) : rest s = cycle (cycle (cycle (cycle s))).
Proof. unfold TextFilter.rest. by rewrite !settle_cycle. Qed.

(** What holds after one, two and three commits. *)
Definition stage1 (s : Screen) : Prop :=
  searchDue (url s) = false /\ seenDebounced (field s) = Some (debouncedValue (field s)).
Definition stage2 (s : Screen) : Prop :=
  stage1 s /\ (seenValue (field s) = Some (value s) \/ value s = debouncedValue (field s)).
Definition stage3 (s : Screen) : Prop := stage1 s /\ seenValue (field s) = Some (value s).

Lemma cycle_cases (P : Screen -> Prop) (s : Screen) : (due s = false -> P s) -> P (commit s) -> P (cycle s).
Proof. unfold cycle. destruct (due s); auto. Qed.

Lemma rested_stages (s : Screen) : due s = false -> stage1 s /\ stage2 s /\ stage3 s.
Proof. intros (?&?&?&?)%due_false. unfold stage3, stage2, stage1. tauto. Qed.

Lemma to_stage1 (s : Screen) : stage1 (cycle s).
Proof. apply cycle_cases; [apply rested_stages|]. split; [apply commit_searchDue|done]. Qed.

Lemma to_stage2 (s : Screen) : stage1 s -> stage2 (cycle s).
Proof.
  intros [Hd _]. apply cycle_cases; [apply rested_stages|]. split; [by split; [apply commit_searchDue|]|].
  rewrite commit_value, Hd. cbn. destruct (applies s); auto.
Qed.

Lemma to_stage3 (s : Screen) : stage2 s -> stage3 (cycle s).
Proof.
  intros [[Hd Hs] Hv]. apply cycle_cases; [apply rested_stages|]. split; [by split; [apply commit_searchDue|]|].
  rewrite commit_value, Hd. cbn. unfold applies. destruct Hv as [Hv|Hv].
  - by rewrite (proj2 (saw_true _ _) Hs), (proj2 (saw_true _ _) Hv).
  - by rewrite Hv, str_eqb_refl, andb_false_r.
Qed.

(** Four commits are enough, from any state. *)
Lemma settle_rests (s : Screen) : due (rest s) = false.
Proof.
  rewrite rest_cycles. generalize (to_stage3 _ (to_stage2 _ (to_stage1 s))). generalize (cycle (cycle (cycle s))).
  intros r [[Hd Hs] Hv]. apply cycle_cases; [done|]. apply due_false. rewrite commit_value, commit_searchDue, Hd.
  unfold applies. rewrite (proj2 (saw_true _ _) Hs), (proj2 (saw_true _ _) Hv). cbn.
  by rewrite (proj2 (saw_true _ _) Hv).
Qed.

Lemma rest_ind (P : Screen -> Prop) (s : Screen) : (forall r, P r -> P (commit r)) -> P s -> P (rest s).
Proof. intros Hc Hs. rewrite rest_cycles. unfold cycle. by repeat (case_match; auto). Qed.

(** ** The invariant *)

Definition consistent (s : Screen) : Prop :=
  let f := field s in
  (isComposing f = false -> inputValue f = pendingValue f) /\
  (seenPending f = Some (pendingValue f) ->
   timer f = Some (pendingValue f) \/ timer f = None /\ debouncedValue f = pendingValue f) /\
  (seenDebounced f = Some (debouncedValue f) -> seenValue f = Some (value s) -> value s = debouncedValue f).

Lemma commit_consistent (s : Screen) : consistent s -> consistent (commit s).
Proof.
  intros (Hi & Ht & Hv). split_and!.
  - cbn. intros E. rewrite E. destruct (saw _ _); cbn; [by apply Hi|done].
  - assert (Hb : debounceEffect (field s) = Some (pendingValue (field s)) \/
                 debounceEffect (field s) = None /\ debouncedValue (field s) = pendingValue (field s)).
    { unfold debounceEffect. destruct (saw (seenPending (field s)) _) eqn:Ep; [|auto]. apply Ht. by apply saw_true. }
    cbn. destruct (saw (seenValue (field s)) (value s)); cbn; [done|]. by intros [= <-].
  - intros _ [= Hs]. cbn [TextFilter.commit field debouncedValue].
    rewrite commit_value in Hs |- *. destruct (applies s) eqn:Ea; [done|]. rewrite <- Hs. unfold applies in Ea.
    apply andb_false_iff in Ea as [Ea|Ea]; js_simp.
    + by apply Hv; apply saw_true.
    + done.
Qed.

(** A screen at rest: no effect is due, the filter of the table is the debounced text,
    and the text that is pending is the debounced one or a timer will make it so. *)
Definition at_rest (s : Screen) : Prop :=
  let f := field s in
  due s = false /\ value s = debouncedValue f /\
  (timer f = Some (pendingValue f) \/ timer f = None /\ debouncedValue f = pendingValue f) /\
  (isComposing f = false -> inputValue f = pendingValue f).

Lemma consistent_rests (s : Screen) : consistent s -> at_rest (rest s).
Proof.
  intros Hs. pose proof (settle_rests s) as Hd. pose proof (rest_ind consistent s commit_consistent Hs) as (Hi & Ht & Hv).
  split; [done|]. apply due_false in Hd as (?&?&?&?). auto.
Qed.

Lemma handle_consistent (e : FieldEvent) (s : Screen) : at_rest s -> consistent (handle p resets e s).
Proof.
  intros (Hd & Hv & Ht & Hi). apply due_false in Hd as (Hq & Hp & Hs & Hb).
  assert (Hw : forall u, consistent (withUrl u s)).
  { intros u. split_and!; [done..|]. cbn. intros _. rewrite Hs. intros [= Hx]. by rewrite <- Hx. }
  destruct e as [v| |v| |fresh|q|updater|]; cbn [handle]; try apply Hw.
  - split_and!; cbn; [|rewrite Hp|done].
    + by intros ->.
    + destruct (isComposing (field s)); [done|]. by intros [= <-].
  - split_and!; cbn; [done..].
  - split_and!; cbn; [done|rewrite Hp; by intros [= <-]|done].
  - unfold fireTimer. destruct (timer (field s)) as [t|] eqn:Et; [|split_and!; cbn; [done|by rewrite Et; auto|done]].
    destruct Ht as [[= ->]|[? _]]; [|done]. split_and!; cbn; [done|auto|]. rewrite Hb, Hs. intros [= <-] _. done.
  - destruct (Hw (onGlobalFilterChange p (fun _ => []) (onColumnFiltersChange p (fun _ => []) (columnFilters (url s)) (url s))))
      as (_ & _ & Hx). unfold resetTable. destruct resets; [|by split_and!].
    split_and!; cbn; [done|rewrite Hp; by intros [= <-]|done].
Qed.

Lemma step_rests (s : Screen) (e : FieldEvent) : at_rest s -> at_rest (step s e).
Proof. intros Hs. by apply consistent_rests, handle_consistent. Qed.

Lemma run_rests (es : list FieldEvent) (s : Screen) : at_rest s -> at_rest (run p column resets es s).
Proof. revert s. induction es as [|e es IH]; intros s Hs; [done|]. by apply IH, step_rests. Qed.

Lemma mount_rests (q : SearchRecord) (st : Storage) : at_rest (mount p column q st).
Proof. apply consistent_rests. by split_and!. Qed.

(** ** Typing *)

Lemma commit_quiet (s : Screen) :
  let f := field s in
  searchDue (url s) = false -> seenValue f = Some (value s) -> seenDebounced f = Some (debouncedValue f) ->
  commit s = MkScreen (url s) (MkField (inputValue f) (pendingValue f) (isComposing f) (debouncedValue f) (debounceEffect f)
               (Some (pendingValue f)) (Some (value s)) (Some (debouncedValue f))).
Proof.
  intros f Hq Hv Hb. unfold TextFilter.commit. fold f. rewrite (proj2 (saw_true _ _) Hv), (proj2 (saw_true _ _) Hb).
  cbn [negb andb]. unfold syncSearch. by rewrite Hq.
Qed.

Lemma rest_done (s : Screen) : due s = false -> rest s = s.
Proof. intros E. unfold TextFilter.rest. cbn. by rewrite E. Qed.

Lemma rest_commit (s : Screen) : due (commit s) = false -> due s = true -> rest s = commit s.
Proof. intros E E'. unfold TextFilter.rest. cbn. by rewrite E', E. Qed.

Lemma rest_commits (s : Screen) : due (commit (commit s)) = false -> due (commit s) = true -> due s = true -> rest s = commit (commit s).
Proof. intros E E' E''. unfold TextFilter.rest. cbn. by rewrite E'', E', E. Qed.

(** The text [v] is in the field, and nothing else has changed since [s]. *)
Definition typed (v : str) (s s' : Screen) : Prop :=
  at_rest s' /\ url s' = url s /\ isComposing (field s') = false /\ inputValue (field s') = v /\ pendingValue (field s') = v.

Lemma type_step (v : str) (s : Screen) :
  at_rest s -> isComposing (field s) = false -> typed v s (step s (TypeText v)).
Proof.
  intros Hs Hc. split; [by apply step_rests|]. destruct Hs as (Hd & _). pose proof Hd as (Hq & Hp & Hv & Hb)%due_false.
  unfold TextFilter.step. cbn [handle]. unfold updateInputValue. rewrite Hc.
  set (s1 := withField _ s). assert (Hcm := commit_quiet s1 Hq Hv Hb).
  destruct (due s1) eqn:E; [|by rewrite rest_done].
  rewrite rest_commit; [by rewrite Hcm| |done]. rewrite Hcm. by apply due_false.
Qed.

Lemma type_run (vs : list str) (v : str) (s : Screen) :
  at_rest s -> isComposing (field s) = false -> typed v s (run p column resets (map TypeText vs ++ [TypeText v]) s).
Proof.
  revert s. induction vs as [|w vs IH]; intros s Hs Hc; [by apply type_step|].
  destruct (type_step w s Hs Hc) as (Hr & Hu & Hc' & _).
  change (run p column resets _ s) with (run p column resets (map TypeText vs ++ [TypeText v]) (step s (TypeText w))).
  destruct (IH _ Hr Hc') as (Hr' & Hu' & Ht).
  split_and!; [done|by rewrite Hu', Hu|apply Ht..].
Qed.

(** The filters after the timer. *)
Definition applied (x : str) (s : Screen) : Url :=
  if x =?s value s then url s else onColumnFiltersChange p (putFilter column x) (columnFilters (url s)) (url s).

Lemma fired (s : Screen) :
  at_rest s ->
  let f := field s in
  fireTimer f = MkField (inputValue f) (pendingValue f) (isComposing f) (pendingValue f) None (seenPending f) (seenValue f) (seenDebounced f).
Proof. intros (_ & _ & Ht & _) f. unfold fireTimer. subst f. destruct (field s); cbn in *. destruct Ht as [->|[-> ->]]; done. Qed.

(** The commit in which the filter follows the text, and the one in which the field
    follows the filter. *)
Lemma commit_applies (u : Url) (x v w : str) :
  searchDue u = false -> columnValue column (columnFilters u) = v -> x <> v ->
  commit (MkScreen u (MkField x x false x None (Some x) (Some v) (Some w))) =
  if saw (Some w) x then MkScreen u (MkField x x false x None (Some x) (Some v) (Some x))
  else MkScreen (onColumnFiltersChange p (putFilter column x) (columnFilters u) u) (MkField x x false x None (Some x) (Some v) (Some x)).
Proof.
  intros Hq Hv Hx. unfold TextFilter.commit, TextFilter.value. cbn [url field seenValue seenDebounced debouncedValue].
  rewrite Hv, saw_refl, andb_true_r. unfold syncSearch, debounceEffect. rewrite Hq.
  cbn [seenPending pendingValue]. rewrite saw_refl, (proj2 (str_eqb_neq _ _) Hx). by destruct (saw (Some w) x).
Qed.

Lemma commit_follows (u : Url) (x v : str) :
  searchDue u = false -> columnValue column (columnFilters u) = x ->
  commit (MkScreen u (MkField x x false x None (Some x) (Some v) (Some x))) =
  MkScreen u (MkField x x false x None (Some x) (Some x) (Some x)).
Proof.
  intros Hq Hv. unfold TextFilter.commit, TextFilter.value. cbn [url field seenValue seenDebounced debouncedValue].
  rewrite Hv, str_eqb_refl. unfold syncSearch, debounceEffect. rewrite Hq. cbn [seenPending pendingValue]. rewrite saw_refl.
  by destruct (saw (Some v) x).
Qed.

Lemma timer_step (s : Screen) :
  at_rest s -> isComposing (field s) = false ->
  let x := pendingValue (field s) in
  step s TimerFires = MkScreen (applied x s) (MkField x x false x None (Some x) (Some x) (Some x)).
Proof.
  intros Hs Hc x. pose proof (fired s Hs) as Hf. destruct Hs as (Hd & Hvd & _ & Hi). specialize (Hi Hc).
  apply due_false in Hd as (Hq & Hp & Hv & Hb). unfold TextFilter.step. cbn [handle]. rewrite Hf, Hi, Hc, Hp, Hv, Hb, <- Hvd.
  fold x. unfold withField, applied. destruct (str_eqb_spec x (value s)) as [Ex|Ex].
  - rewrite <- Ex. apply rest_done. apply due_false. by split_and!; [..|cbn; rewrite Ex|].
  - assert (H1 := commit_applies (url s) x (value s) (value s) Hq eq_refl Ex).
    cbn [saw] in H1. rewrite (proj2 (str_eqb_neq (value s) x)) in H1 by congruence.
    set (u := onColumnFiltersChange p (putFilter column x) (columnFilters (url s)) (url s)) in *.
    assert (Hu : columnValue column (columnFilters u) = x) by apply columnValue_put.
    assert (H2 := commit_follows u x (value s) Hq Hu).
    rewrite rest_commits; rewrite ?H1, ?H2; [done| | |].
    + apply due_false. by split_and!; [..|cbn; rewrite <- Hu at 1|].
    + apply not_false_iff_true. intros (_ & _ & H & _)%due_false.
      change (Some (value s) = Some (columnValue column (columnFilters u))) in H. rewrite Hu in H. congruence.
    + apply not_false_iff_true. intros (_ & _ & _ & H)%due_false. cbn in H. injection H as H. congruence.
Qed.

(** ** Changes from outside *)

Lemma rest_debounced (s : Screen) : debouncedValue (field (rest s)) = debouncedValue (field s).
Proof. by apply (rest_ind (fun r => debouncedValue (field r) = debouncedValue (field s))). Qed.

(** An event that is not of the field itself. *)
Definition outside (e : FieldEvent) : bool :=
  match e with Arrives _ | Back _ | FilterColumns _ | Reset_ => true | _ => false end.

Lemma outside_debounced (e : FieldEvent) (s : Screen) :
  outside e = true -> debouncedValue (field (handle p resets e s)) = debouncedValue (field s).
Proof. destruct e; try done. intros _. cbn. by destruct resets. Qed.

Lemma outside_undone (e : FieldEvent) (s : Screen) : at_rest s -> outside e = true -> value (step s e) = value s.
Proof.
  intros Hs He. destruct (step_rests s e Hs) as (_ & -> & _). destruct Hs as (_ & -> & _).
  unfold TextFilter.step. by rewrite rest_debounced, outside_debounced.
Qed.

(** While a change from outside is undone, the text is the debounced one or the one
    of the change. *)
Definition following (s : Screen) : Prop :=
  let f := field s in
  isComposing f = false /\ inputValue f = pendingValue f /\
  (pendingValue f = debouncedValue f \/ seenValue f = Some (pendingValue f) /\ pendingValue f <> debouncedValue f).

Lemma commit_following (s : Screen) : following s -> following (commit s).
Proof.
  intros (Hc & Hi & H). unfold following. cbn. rewrite Hc. destruct (saw (seenValue (field s)) (value s)) eqn:E; cbn.
  - apply saw_true in E. split_and!; [done..|]. destruct H as [H|[H1 H2]]; [by left|]. right. by rewrite E in H1.
  - split_and!; [done..|]. destruct (decide (value s = debouncedValue (field s))); auto.
Qed.

Lemma cycle_following (s : Screen) : following s -> following (cycle s).
Proof. intros H. apply cycle_cases; auto using commit_following. Qed.

Lemma following_rests (s : Screen) :
  at_rest s -> following s -> inputValue (field s) = value s /\ pendingValue (field s) = value s.
Proof.
  intros (Hd & Hv & _) (_ & Hi & H). apply due_false in Hd as (_ & _ & Hs & _). rewrite Hi, Hv. split_and!; [|];
  (destruct H as [H|[H1 H2]]; [done|]; rewrite Hs in H1; injection H1 as H1; congruence).
Qed.

Lemma outside_following (e : FieldEvent) (s : Screen) :
  at_rest s -> outside e = true -> isComposing (field s) = false -> inputValue (field s) = value s ->
  following (cycle (handle p resets e s)).
Proof.
  intros (Hd & Hv & _ & Hi) He Hc Hx. specialize (Hi Hc). apply due_false in Hd as (Hq & Hp & Hs & Hb).
  assert (Hw : forall u, following (withUrl u s)) by (intros u; split_and!; cbn; [done..|left; congruence]).
  assert (Hcy : forall u, following (cycle (withUrl u s))) by (intros u; apply cycle_following, Hw).
  destruct e as [v| |v| |fresh|q|updater|]; try done; try apply Hcy. cbn [handle]. unfold resetTable.
  destruct resets; [|apply Hcy]. set (u := onGlobalFilterChange _ _ _).
  assert (Hu : columnValue column (columnFilters u) = []) by (unfold u, onGlobalFilterChange; by destruct (globalFilterEnabled p)).
  destruct (decide (value s = [])) as [E|E].
  - assert (H : following (MkScreen u (resetInput (field s)))) by (split_and!; cbn; [done..|left; congruence]).
    by apply cycle_following.
  - apply cycle_cases.
    + intros (_ & _ & H & _)%due_false. cbn in H. rewrite Hs in H. unfold TextFilter.value at 2 in H. cbn [url] in H.
      rewrite Hu in H. congruence.
    + unfold following. cbn. change (TextFilter.value column (MkScreen u _)) with (columnValue column (columnFilters u)).
      rewrite Hu, Hs. cbn [saw]. rewrite (proj2 (str_eqb_neq _ _) E). cbn.
      split_and!; [done..|]. right. split; [done|]. congruence.
Qed.

Lemma outside_text (e : FieldEvent) (s : Screen) :
  at_rest s -> outside e = true -> isComposing (field s) = false -> inputValue (field s) = value s ->
  inputValue (field (step s e)) = value s /\ pendingValue (field (step s e)) = value s.
Proof.
  intros Hs He Hc Hx. rewrite <- (outside_undone e s Hs He). apply following_rests; [by apply step_rests|].
  unfold TextFilter.step. rewrite rest_cycles. by apply cycle_following, cycle_following, cycle_following, outside_following.
Qed.

End Filter.

(** C13: In every run of the screen of a table with a text filter, four commits are enough
    after every event; then the filter of the column is the debounced text, the text
    that is pending is that one or a timer runs that will apply it, and outside of a
    composition the field shows the pending text: no text is lost. *)
Theorem field_at_rest (p : Params) (column : str) (resets : bool) (q : SearchRecord) (st : Storage) (es : list FieldEvent) :
  at_rest column (run p column resets es (mount p column q st)).
Proof. apply run_rests, mount_rests. Qed.

(** C14: Texts that are typed before the timer fires make one change: when it fires, the
    filter of the column and the field are the last text, the other filters stay, and
    there is one navigation, or none when the text is the one of the filter. *)
Theorem typed_text_applied (p : Params) (column : str) (resets : bool) (q : SearchRecord) (st : Storage) (es : list FieldEvent)
    (vs : list str) (v : str) :
  let s := run p column resets es (mount p column q st) in
  isComposing (field s) = false ->
  let s' := run p column resets (map TypeText vs ++ [TypeText v; TimerFires]) s in
  value column s' = v /\ inputValue (field s') = v /\ debouncedValue (field s') = v /\ timer (field s') = None /\
  search (url s') = search (url s) /\
  otherFilters column (columnFilters (url s')) = otherFilters column (columnFilters (url s)) /\
  navigations (url s') =
    navigations (url s) ++
    (if v =?s value column s then [] else [MkNavigation (filterPatch p (columnFilters (url s'))) false]).
Proof.
  intros s Hc s'. assert (Hs : at_rest column s) by apply run_rests, mount_rests.
  destruct (type_run p column resets vs v s Hs Hc) as (Hr & Hu & Hc' & Hi & Hp).
  assert (Es : s' = MkScreen (applied p column v s) (MkField v v false v None (Some v) (Some v) (Some v))).
  { unfold s'. change [TypeText v; TimerFires] with ([TypeText v] ++ [TimerFires]). rewrite app_assoc. unfold run.
    rewrite fold_left_app. cbn [fold_left]. fold (run p column resets (map TypeText vs ++ [TypeText v]) s).
    rewrite timer_step by done. rewrite Hp. unfold applied, value. by rewrite Hu. }
  rewrite Es. cbn [field url inputValue debouncedValue timer]. unfold value at 1. cbn [url]. unfold applied.
  destruct (str_eqb_spec v (value column s)) as [E|E].
  - split_and!; [done..|]. by rewrite app_nil_r.
  - cbn [onColumnFiltersChange navigate setColumnFilters columnFilters].
    split_and!; [apply columnValue_put|done..|apply otherFilters_put|done].
Qed.

(** C40: A change of the filter from outside never stands: in every run, after the Back
    button, a navigation, a change of the filters by the table or its button Reset,
    the filter of the column is what it was; and a field that showed the filter shows
    it again. *)
Theorem outside_change_undone (p : Params) (column : str) (resets : bool) (q : SearchRecord) (st : Storage) (es : list FieldEvent)
    (e : FieldEvent) :
  let s := run p column resets es (mount p column q st) in
  outside e = true ->
  value column (step p column resets s e) = value column s /\
  (isComposing (field s) = false -> inputValue (field s) = value column s ->
   inputValue (field (step p column resets s e)) = value column s).
Proof.
  intros s He. assert (Hs : at_rest column s) by apply run_rests, mount_rests. split; [by apply outside_undone|].
  intros Hc Hi. by apply outside_text.
Qed.

(** A text typed in the list of channels: the keys before the timer fires make one
    navigation. *)
Lemma typed_text_applied_witness :
  let p := Tables.channelsTable false None in
  let s := mount p (js "model") [] (MkStorage [] true true) in
  let s' := run p (js "model") true [TypeText (js "g"); TypeText (js "gp"); TimerFires] s in
  value (js "model") s' = js "gp" /\ length (navigations (url s')) = 1%nat.
Proof.
  intros p s s'.
  destruct (typed_text_applied p (js "model") true [] (MkStorage [] true true) [] [js "g"] (js "gp") eq_refl)
    as (Hv & _ & _ & _ & _ & _ & Hn).
  split; [exact Hv|]. vm_compute. reflexivity.
Defined.

(** The button Reset of the list of channels after a text was applied: the filter and
    the field are as before. *)
Lemma outside_change_undone_witness :
  let p := Tables.channelsTable false None in
  let s := run p (js "model") true [TypeText (js "gp"); TimerFires; Arrives true] (mount p (js "model") [] (MkStorage [] true true)) in
  value (js "model") s = js "gp" /\ value (js "model") (step p (js "model") true s Reset_) = js "gp" /\
  inputValue (field (step p (js "model") true s Reset_)) = js "gp".
Proof.
  intros p s. assert (Hv : value (js "model") s = js "gp") by (vm_compute; reflexivity).
  destruct (outside_change_undone p (js "model") true [] (MkStorage [] true true) [TypeText (js "gp"); TimerFires; Arrives true]
              Reset_ eq_refl) as [H1 H2].
  fold s in H1, H2. rewrite Hv in H1, H2. split; [exact Hv|]. split; [exact H1|]. apply H2; vm_compute; reflexivity.
Defined.

End FilterLaws.

Module SearchLaws.
Import TextFilter FilterLaws ToolbarSearch.

Section Search.
Context (accept : str -> str) (delayed : bool).

Local Abbreviation commit := (commitSearch accept delayed).
Local Abbreviation settled := (settleSearch accept delayed 2).

Lemma sameDeps_true (seen : option (str * str * bool * str)) (d : str * str * bool * str) :
  sameDeps seen d = true <-> seen = Some d.
Proof.
  destruct seen as [[[[c b] k] v]|], d as [[[c' b'] k'] v']; cbn; [|split; discriminate].
  rewrite !andb_true_iff, !str_eqb_eq, Bool.eqb_true_iff. split; [by intros (((-> & ->) & ->) & ->)|by intros [= -> -> -> ->]].
Qed.

(** The effect sets the filter of the table. *)
Definition fires (t : Toolbar) : bool :=
  negb (sameDeps (seenCommit t) (commitDeps t)) && delayed && negb (isSearchComposing t) &&
  (debouncedSearchValue t =?s searchValue t) && negb (debouncedSearchValue t =?s currentSearchValue t).

Lemma commit_search (t : Toolbar) :
  commit t = MkToolbar (searchDraft t) (isSearchComposing t) (debouncedSearchValue t)
    (if saw (seenSearch t) (searchValue t) then searchTimer t else Some (searchValue t))
    (if fires t then accept (debouncedSearchValue t) else currentSearchValue t) (Some (searchValue t)) (Some (commitDeps t))
    (if fires t then committed t ++ [debouncedSearchValue t] else committed t).
Proof.
  unfold commitSearch, fires, commitSearchValue, setFilter. cbn [currentSearchValue].
  destruct (sameDeps _ _), delayed, (isSearchComposing t), (debouncedSearchValue t =?s searchValue t),
    (debouncedSearchValue t =?s currentSearchValue t); reflexivity.
Qed.

Lemma due_search (t : Toolbar) :
  searchDueEffects t = false <-> seenSearch t = Some (searchValue t) /\ seenCommit t = Some (commitDeps t).
Proof. unfold searchDueEffects. by rewrite orb_false_iff, !negb_false_iff, saw_true, sameDeps_true. Qed.

(** A commit that leaves the filter as it is is the last one. *)
Lemma commit_search_last (t : Toolbar) :
  currentSearchValue (commit t) = currentSearchValue t -> searchDueEffects (commit t) = false.
Proof.
  intros E. apply due_search. unfold commitDeps, searchValue, activeSearchDraft. rewrite E. by rewrite commit_search.
Qed.

Lemma fires_parts (t : Toolbar) :
  fires t = true ->
  isSearchComposing t = false /\ debouncedSearchValue t = searchValue t /\ debouncedSearchValue t <> currentSearchValue t.
Proof. unfold fires. intros H. js_simp. done. Qed.

(** The commit after one that set the filter sets it to the same text. *)
Lemma second_commit (t : Toolbar) : currentSearchValue (commit (commit t)) = currentSearchValue (commit t).
Proof.
  rewrite (commit_search (commit t)). cbn [currentSearchValue]. destruct (fires (commit t)) eqn:E; [|done].
  rewrite commit_search at 1. cbn [debouncedSearchValue]. destruct (fires t) eqn:E1.
  - by rewrite commit_search, E1.
  - exfalso. assert (Hc : currentSearchValue (commit t) = currentSearchValue t) by (by rewrite commit_search, E1).
    apply commit_search_last, due_search in Hc as [_ Hd]. unfold fires in E. by rewrite (proj2 (sameDeps_true _ _) Hd) in E.
Qed.

(** Two commits are enough, from any state. *)
Lemma search_rests (t : Toolbar) : searchDueEffects (settled t) = false.
Proof.
  cbn. destruct (searchDueEffects t) eqn:E; [|done]. destruct (searchDueEffects (commit t)) eqn:E'; [|done].
  apply commit_search_last, second_commit.
Qed.

Lemma settled_ind (P : Toolbar -> Prop) (t : Toolbar) : (forall r, P r -> P (commit r)) -> P t -> P (settled t).
Proof. intros Hc Ht. cbn. destruct (searchDueEffects t); [|done]. destruct (searchDueEffects (commit t)); auto. Qed.

Lemma settled_current (t : Toolbar) :
  currentSearchValue (settled t) = if fires t then accept (debouncedSearchValue t) else currentSearchValue t.
Proof.
  assert (H : currentSearchValue (commit t) = if fires t then accept (debouncedSearchValue t) else currentSearchValue t)
    by (by rewrite commit_search).
  cbn. destruct (searchDueEffects t) eqn:E.
  - rewrite <- H. destruct (searchDueEffects (commit t)); [apply second_commit|done].
  - apply due_search in E as [_ E]. unfold fires. by rewrite (proj2 (sameDeps_true _ _) E).
Qed.

Lemma settled_fields (t : Toolbar) :
  searchDraft (settled t) = searchDraft t /\ isSearchComposing (settled t) = isSearchComposing t /\
  debouncedSearchValue (settled t) = debouncedSearchValue t.
Proof.
  apply (settled_ind (fun r => searchDraft r = searchDraft t /\ isSearchComposing r = isSearchComposing t /\
                               debouncedSearchValue r = debouncedSearchValue t)); [|done].
  intros r (H1 & H2 & H3). by rewrite commit_search.
Qed.

(** ** The invariant *)

Definition tracked (t : Toolbar) : Prop :=
  (seenSearch t = Some (searchValue t) ->
   searchTimer t = Some (searchValue t) \/ searchTimer t = None /\ debouncedSearchValue t = searchValue t) /\
  (seenCommit t = Some (commitDeps t) -> delayed = true -> isSearchComposing t = false ->
   debouncedSearchValue t = searchValue t -> searchValue t = currentSearchValue t \/ accept (searchValue t) = currentSearchValue t).

Lemma commit_parts (t : Toolbar) :
  seenSearch (commit t) = Some (searchValue t) /\ seenCommit (commit t) = Some (commitDeps t) /\
  searchTimer (commit t) = (if saw (seenSearch t) (searchValue t) then searchTimer t else Some (searchValue t)) /\
  debouncedSearchValue (commit t) = debouncedSearchValue t /\ isSearchComposing (commit t) = isSearchComposing t /\
  currentSearchValue (commit t) = if fires t then accept (debouncedSearchValue t) else currentSearchValue t.
Proof. by rewrite commit_search. Qed.

Lemma commit_tracked (t : Toolbar) : tracked t -> tracked (commit t).
Proof.
  intros [Ht Hc]. destruct (commit_parts t) as (Es & Ed & Et & Eb & Ek & Ec). unfold tracked. rewrite Es, Ed, Et, Eb, Ek. split.
  - intros [= Hv]. rewrite <- Hv. destruct (saw _ _) eqn:E; [|auto]. apply Ht. by apply saw_true.
  - intros [= Hcur _ _ Hv] Hd Hk Hb. rewrite <- Hv in Hb |- *. rewrite Ec in Hcur |- *. destruct (fires t) eqn:Ef.
    + right. by rewrite Hb.
    + unfold fires in Ef. rewrite Hd, Hk, Hb, str_eqb_refl in Ef. cbn [negb andb] in Ef. rewrite !andb_true_r in Ef.
      apply andb_false_iff in Ef as [Ef|Ef]; js_simp; [|by left]. apply sameDeps_true in Ef. by apply Hc.
Qed.

Definition resting (t : Toolbar) : Prop :=
  searchDueEffects t = false /\
  (searchTimer t = Some (searchValue t) \/ searchTimer t = None /\ debouncedSearchValue t = searchValue t) /\
  (delayed = true -> isSearchComposing t = false -> debouncedSearchValue t = searchValue t ->
   searchValue t = currentSearchValue t \/ accept (searchValue t) = currentSearchValue t).

Lemma tracked_rests (t : Toolbar) : tracked t -> resting (settled t).
Proof.
  intros Ht. pose proof (search_rests t) as Hd. split; [done|]. apply due_search in Hd as [H1 H2].
  destruct (settled_ind tracked t commit_tracked Ht) as [Hx Hy]. split; [by apply Hx|by apply Hy].
Qed.

(** An event changes neither what the effects have seen nor, the timer apart, the timer
    and the debounced text. *)
Lemma same_tracked (t t' : Toolbar) :
  resting t -> seenSearch t' = seenSearch t -> seenCommit t' = seenCommit t ->
  (seenSearch t' = Some (searchValue t') ->
   searchTimer t' = Some (searchValue t') \/ searchTimer t' = None /\ debouncedSearchValue t' = searchValue t') ->
  tracked t'.
Proof.
  intros (Hd & _ & Hc) Hs Hk Ht. split; [done|]. apply due_search in Hd as [_ Hd]. rewrite Hk, Hd. unfold commitDeps.
  intros [= <- <- <- <-]. exact Hc.
Qed.

Lemma fire_search (t : Toolbar) :
  resting t ->
  fireSearchTimer t = MkToolbar (searchDraft t) (isSearchComposing t) (searchValue t) None (currentSearchValue t) (seenSearch t)
                        (seenCommit t) (committed t).
Proof.
  intros (_ & [Ht|[Ht Hd]] & _); unfold fireSearchTimer; rewrite Ht; [done|]. rewrite <- Hd. destruct t; cbn in *. by subst.
Qed.

Lemma handle_tracked (e : SearchEvent) (t : Toolbar) : resting t -> tracked (handleSearch accept delayed e t).
Proof.
  intros Hr. pose proof Hr as (Hd & Ht & _). apply due_search in Hd as [Hs _].
  assert (Hsame : forall t', seenSearch t' = seenSearch t -> seenCommit t' = seenCommit t -> searchTimer t' = searchTimer t ->
    debouncedSearchValue t' = debouncedSearchValue t -> tracked t').
  { intros t' E1 E2 E3 E4. apply (same_tracked t); [done..|]. rewrite E1, E3, E4, Hs. by intros [= <-]. }
  destruct e as [v| |v| |]; cbn [handleSearch].
  - unfold handleSearchChange, queueSearchValue, commitSearchValue. destruct (isSearchComposing t); [by apply Hsame|].
    destruct delayed; [by apply Hsame|]. cbn. destruct (v =?s currentSearchValue t); by apply Hsame.
  - by apply Hsame.
  - unfold handleSearchCompositionEnd, queueSearchValue, commitSearchValue. destruct delayed; [by apply Hsame|].
    cbn. destruct (v =?s currentSearchValue t); by apply Hsame.
  - rewrite fire_search by done. apply (same_tracked t); [done..|]. intros _. by right.
  - by apply Hsame.
Qed.

Lemma search_run_rests (es : list SearchEvent) (t : Toolbar) : resting t -> resting (searchRun accept delayed es t).
Proof.
  revert t. induction es as [|e es IH]; intros t Ht; [done|]. by apply IH, tracked_rests, handle_tracked.
Qed.

Lemma mount_search_rests (c : str) : resting (mountSearch accept delayed c).
Proof. apply tracked_rests. by split. Qed.

(** Without a draft the text is the filter, and nothing is set. *)
Lemma no_draft (t : Toolbar) :
  searchDraft t = None -> searchValue t = currentSearchValue t /\ fires t = false.
Proof.
  intros E. assert (Hv : searchValue t = currentSearchValue t) by (unfold searchValue, activeSearchDraft; by rewrite E).
  split; [done|]. unfold fires. rewrite Hv. destruct (debouncedSearchValue t =?s currentSearchValue t); cbn; by rewrite !andb_false_r.
Qed.

Lemma timers_keep (n : nat) (t : Toolbar) :
  searchDraft t = None ->
  let t' := searchRun accept delayed (repeat SearchTimer n) t in
  searchDraft t' = None /\ currentSearchValue t' = currentSearchValue t.
Proof.
  revert t. induction n as [|n IH]; intros t Hd; [done|]. set (t1 := searchStep accept delayed t SearchTimer).
  change (searchRun accept delayed (repeat SearchTimer (S n)) t) with (searchRun accept delayed (repeat SearchTimer n) t1).
  assert (Hf : searchDraft (fireSearchTimer t) = None /\ currentSearchValue (fireSearchTimer t) = currentSearchValue t)
    by (unfold fireSearchTimer; by destruct (searchTimer t)).
  destruct Hf as [Hf1 Hf2]. assert (Hd1 : searchDraft t1 = None).
  { unfold t1, searchStep. cbn [handleSearch]. by rewrite (proj1 (settled_fields _)). }
  destruct (IH t1 Hd1) as [H1 H2]. split; [done|]. rewrite H2. unfold t1, searchStep. cbn [handleSearch].
  by rewrite settled_current, (proj2 (no_draft _ Hf1)).
Qed.

End Search.

(** A draft is shown while the filter is the one it was begun with. *)
Lemma search_draft_shown (t : Toolbar) (c v : str) :
  searchDraft t = Some (MkDraft c v) -> isSearchComposing t = false ->
  searchValue t = if c =?s currentSearchValue t then v else currentSearchValue t.
Proof. intros E Hk. unfold searchValue, activeSearchDraft. rewrite E, Hk. cbn. by destruct (_ =?s _). Qed.

(** The timer over a draft: the filter is the draft's text, or was it. *)
Lemma timer_over_draft (accept : str -> str) (t : Toolbar) (v : str) :
  resting accept true t -> searchDraft t = Some (MkDraft (currentSearchValue t) v) -> isSearchComposing t = false ->
  currentSearchValue (searchStep accept true t SearchTimer) = if v =?s currentSearchValue t then v else accept v.
Proof.
  intros Hr Hd Hk. assert (Hv := search_draft_shown t _ v Hd Hk). rewrite str_eqb_refl in Hv. unfold searchStep. cbn [handleSearch].
  rewrite (fire_search accept true t Hr), settled_current, Hv. set (t3 := MkToolbar _ _ v _ _ _ _ _).
  assert (Hv3 : searchValue t3 = v) by exact Hv.
  unfold fires. change (debouncedSearchValue t3) with v. rewrite Hv3, str_eqb_refl.
  change (isSearchComposing t3) with (isSearchComposing t). rewrite Hk. change (currentSearchValue t3) with (currentSearchValue t).
  destruct (str_eqb_spec v (currentSearchValue t)) as [E|E]; [by rewrite !andb_false_r|].
  destruct (sameDeps _ _) eqn:Es; cbn; [|done].
  apply sameDeps_true in Es. change (seenCommit t3) with (seenCommit t) in Es. destruct Hr as (Hq & _ & Hc).
  apply due_search in Hq as [_ Hq]. rewrite Hq in Es. unfold commitDeps in Es. injection Es as Hb.
  specialize (Hc eq_refl Hk). rewrite Hv in Hc. destruct (Hc Hb); congruence.
Qed.

(** The timer after the text was set. *)
Lemma timer_over_set (accept : str -> str) (t : Toolbar) (c v : str) :
  resting accept true t -> searchDraft t = Some (MkDraft c v) -> isSearchComposing t = false -> currentSearchValue t = accept v ->
  currentSearchValue (searchStep accept true t SearchTimer) = accept v.
Proof.
  intros Hr Hd Hk Hc. assert (Hv := search_draft_shown t c v Hd Hk). unfold searchStep. cbn [handleSearch].
  rewrite (fire_search accept true t Hr), settled_current. set (t3 := MkToolbar _ _ _ _ _ _ _ _).
  destruct (fires true t3) eqn:Ef; [|done]. apply fires_parts in Ef as (_ & _ & Hn). cbn in Hn |- *.
  rewrite Hv in Hn |- *. destruct (c =?s currentSearchValue t); [done|by destruct Hn].
Qed.

(** In every run of a toolbar with a delay, a text that is typed outside of a
    composition is the filter of the table when the timer has fired: the table was
    given it, unless it was the filter already. *)
Theorem search_typed (accept : str -> str) (c : str) (es : list SearchEvent) (v : str) :
  let t := searchRun accept true es (mountSearch accept true c) in
  isSearchComposing t = false ->
  let t' := searchRun accept true [SearchTyped v; SearchTimer] t in
  currentSearchValue t' = if v =?s currentSearchValue t then v else accept v.
Proof.
  intros t Hk t'. assert (Ht : resting accept true t) by apply search_run_rests, mount_search_rests.
  set (t1 := handleSearchChange accept true v t).
  assert (E1 : t1 = setDraft (Some (MkDraft (currentSearchValue t) v)) false t) by (unfold t1, handleSearchChange; by rewrite Hk).
  assert (Hr2 : resting accept true (searchStep accept true t (SearchTyped v))) by (apply tracked_rests, handle_tracked, Ht).
  change t' with (searchStep accept true (searchStep accept true t (SearchTyped v)) SearchTimer).
  set (t2 := searchStep accept true t (SearchTyped v)) in *.
  destruct (settled_fields accept true t1) as (Hd & Hk2 & Hb2). assert (Hc2 := settled_current accept true t1).
  change (settleSearch accept true 2 t1) with t2 in *. rewrite E1 in Hd, Hk2, Hb2. cbn in Hd, Hk2, Hb2.
  destruct (fires true t1) eqn:Ef.
  - assert (Hv1 : searchValue t1 = v)
      by (rewrite E1, (search_draft_shown _ (currentSearchValue t) v) by done; cbn; by rewrite str_eqb_refl).
    apply fires_parts in Ef as (_ & Hb & Hn). rewrite Hv1 in Hb. rewrite Hb in Hc2, Hn. rewrite E1 in Hn. cbn in Hn.
    rewrite (proj2 (str_eqb_neq _ _) Hn). by apply timer_over_set with (currentSearchValue t).
  - assert (Hcur : currentSearchValue t2 = currentSearchValue t) by (rewrite Hc2, E1; done).
    rewrite (timer_over_draft accept t2 v), Hcur; [done|done|by rewrite Hcur|done].
Qed.

(** A reset clears the search for good: the filter of the table and the input are what
    the table makes of the empty text, and timers that fire later keep them. *)
Theorem search_reset (accept : str -> str) (delayed : bool) (t : Toolbar) (n : nat) :
  let t' := searchRun accept delayed (SearchReset :: repeat SearchTimer n) t in
  currentSearchValue t' = accept [] /\ searchValue t' = accept [].
Proof.
  intros t'. set (t1 := searchStep accept delayed t SearchReset).
  assert (Hd : searchDraft t1 = None) by (unfold t1, searchStep; by rewrite (proj1 (settled_fields _ _ _))).
  assert (Hc : currentSearchValue t1 = accept []).
  { unfold t1, searchStep. rewrite settled_current. by rewrite (proj2 (no_draft delayed (handleSearch accept delayed SearchReset t) eq_refl)). }
  destruct (timers_keep accept delayed n t1 Hd) as [H1 H2].
  change t' with (searchRun accept delayed (repeat SearchTimer n) t1). rewrite (proj1 (no_draft true _ H1)). by rewrite H2.
Qed.

End SearchLaws.

Module ColumnLaws.
Import ColumnState.

(** ** Widths *)

Lemma bounded_size (id : str) (v : json) (bounds : list (str * Bounds)) (size : num) :
  getBoundedColumnSize id v bounds = Some size ->
  num_lt num_zero size = true /\
  (forall mx, obj_get id bounds ≫= b_max = Some mx -> num_lt mx size = false) /\
  (forall mn, obj_get id bounds ≫= b_min = Some mn ->
   (forall mx, obj_get id bounds ≫= b_max = Some mx -> num_lt mx mn = false) -> num_lt size mn = false).
Proof.
  unfold getBoundedColumnSize. destruct v as [| |x| | |]; try done. destruct (negb _ || _); [done|]. cbv zeta.
  set (low := match obj_get id bounds ≫= b_min with Some m => if num_lt x m then m else x | None => x end).
  assert (Hlow : forall mn, obj_get id bounds ≫= b_min = Some mn -> num_lt low mn = false).
  { intros mn E. unfold low. rewrite E. destruct (num_lt x mn) eqn:Ex; [apply num_lt_irrefl|done]. }
  destruct (obj_get id bounds ≫= b_max) as [mx|].
  - destruct (num_lt mx low) eqn:Em; (destruct (num_lt num_zero _) eqn:Ez; [|done]); intros [= <-]; (split; [done|split]).
    + intros ? [= <-]. apply num_lt_irrefl.
    + intros mn _ H. by apply H.
    + by intros ? [= <-].
    + auto.
  - destruct (num_lt num_zero low) eqn:Ez; [|done]. intros [= <-]. split_and!; [done..|auto].
Qed.

(** What a stored text says of the widths is within the bounds of the columns: every
    width that is read is positive and not above the maximum, and not below the
    minimum when the minimum is not above the maximum; for every stored text. *)
Theorem stored_widths_bounded (raw : option str) (bounds : list (str * Bounds)) :
  Forall (fun kv : str * num =>
    let '(id, size) := kv in
    num_lt num_zero size = true /\
    (forall mx, obj_get id bounds ≫= b_max = Some mx -> num_lt mx size = false) /\
    (forall mn, obj_get id bounds ≫= b_min = Some mn ->
     (forall mx, obj_get id bounds ≫= b_max = Some mx -> num_lt mx mn = false) -> num_lt size mn = false))
    (readColumnSizing raw bounds).
Proof.
  unfold readColumnSizing. generalize (storedObject raw). intros o.
  set (P := fun kv : str * num => _). assert (H : Forall P []) by constructor. revert H. generalize (@nil (str * num)).
  induction o as [|[k v] o IH]; intros acc Hacc; [done|]. cbn. apply IH.
  destruct (getBoundedColumnSize k v bounds) as [size|] eqn:E; [|done]. apply List.Forall_forall. intros kv Hin.
  apply in_obj_set in Hin as [->|Hin]; [by apply (bounded_size k v)|]. rewrite List.Forall_forall in Hacc. by apply Hacc.
Qed.

(** ** Round trips *)

Lemma stored_read {A} (enc : A -> json) (dec : str -> json -> option A) (l : list (str * A)) :
  Forall (fun kv => dec (fst kv) (enc (snd kv)) = Some (snd kv)) l ->
  fold_left (fun acc kv => match dec (fst kv) (snd kv) with Some v => obj_set (fst kv) v acc | None => acc end)
    (map (fun kv => (fst kv, enc (snd kv))) l) [] = obj_from l.
Proof.
  unfold obj_from. generalize (@nil (str * A)). induction l as [|[k v] l IH]; intros acc H; [done|]. cbn in *.
  apply Forall_cons in H as [Hk H]. cbn in Hk. rewrite Hk. by apply IH.
Qed.

Lemma key_order_map {A B} (enc : A -> B) (l : list (str * A)) :
  key_order l -> key_order (map (fun kv => (fst kv, enc (snd kv))) l).
Proof. unfold key_order. by rewrite map_map. Qed.

Lemma stored_object {A} (enc : A -> json) (l : list (str * A)) :
  key_order l -> Forall (fun kv => json_ok (enc (snd kv))) l ->
  storedObject (Some (stringify (JObj (map (fun kv => (fst kv, enc (snd kv))) l)))) = map (fun kv => (fst kv, enc (snd kv))) l.
Proof.
  intros Ho Hj. unfold storedObject. rewrite json_roundtrip.
  - by destruct (truthy_str _) eqn:E.
  - constructor; [by apply obj_from_order, key_order_map|]. by apply Forall_map.
Qed.

(** The visibility and the widths of columns that were stored are read back as they
    were, for widths that are numbers JSON can hold and that are within their bounds. *)
Theorem columns_read_back (visibility : list (str * bool)) (sizing : list (str * num)) (bounds : list (str * Bounds)) :
  key_order visibility -> key_order sizing ->
  Forall (fun kv => num_ok (snd kv) /\ getBoundedColumnSize (fst kv) (JNum (snd kv)) bounds = Some (snd kv)) sizing ->
  readColumnVisibility (Some (stringify (JObj (map (fun kv => (fst kv, JBool (snd kv))) visibility)))) = visibility /\
  readColumnSizing (Some (stringify (JObj (map (fun kv => (fst kv, JNum (snd kv))) sizing)))) bounds = sizing.
Proof.
  intros Hv Hs [Hn Hb]%Forall_and. unfold readColumnVisibility, readColumnSizing. split.
  - rewrite stored_object by (try done; apply Forall_forall; intros; constructor).
    rewrite <- (proj2 (obj_from_order visibility) Hv) at 2.
    rewrite <- (stored_read JBool (fun _ v => match v with JBool b => Some b | _ => None end)) by (by apply Forall_forall).
    generalize (@nil (str * bool)). generalize (map (fun kv : str * bool => (fst kv, JBool (snd kv))) visibility).
    induction l as [|[k v] l IH]; intros acc; [done|]. cbn. rewrite IH. by destruct v.
  - rewrite stored_object; [|done|]. { rewrite (stored_read JNum (fun k v => getBoundedColumnSize k v bounds)) by done. by apply obj_from_order. }
    eapply Forall_impl; [exact Hn|]. intros kv H. by constructor.
Qed.

End ColumnLaws.
